(* ===== verification/_CoqProject ===== *)
-Q . S2P
Prelude.v
PyDict.v
Fingerprint.v
SequenceState.v
Scheduler.v
TransferGovernor.v
Json.v
WorkerRegistry.v
PrefixIndex.v
Router.v
Output.v
ReplacementStore.v
Reconciler.v
ResourceRelease.v
Cleanup.v
MainLoop.v
Loader.v
Coordinator.v
Termination.v
TopologyAdmin.v
HttpRpc.v
NetworkRpc.v
Sequencer.v
NetworkOps.v
Takeover.v
Queue.v
Performance.v
FaultGate.v
Admission.v
ChatRequest.v
Bootstrap.v
Recovery.v
Replacement.v
WorldRestart.v
