(* ===== verification/Prelude.v ===== *)
(** * prism-serve control plane: verification library (root file)

    prism-serve is the gateway of a disaggregated LLM serving system: prefill
    workers (P) build KV caches, decode workers (D) stream tokens, and the
    gateway moves each request from one to the other.  This library models
    the gateway's own logic, one file per component, and proves what makes it
    correct.

    ** The parts and how they interact

    [schedule_loop] (scheduler/main_loop.py) is the only driver.  Every tick it
    walks the request tracker, picks a P and a D instance from the scheduler,
    publishes the prefill command, turns worker messages into state
    transitions, hands KV transfers to the transfer governor, follows the
    output buffer, and, when a deadline passes or an RPC fails, joins the
    canonical cleanup of the request, which collects evidence about the remote
    workers and only then returns capacity to the scheduler.  The router
    (fingerprint, prefix index, cost model) decides whether a request can
    reuse a cached prefix; the reconciler keeps the prefix index in step with
    the workers' caches; the affinity coordinator runs the loads the router
    decides on as background tasks over the loader.  The worker registry
    decides which workers may be used at all.  Resource release and the
    replacement store settle capacity that a replaced worker generation held;
    topology administration admits such a generation only on sealed proofs
    that the old one ended.  Every call to a worker goes through the HTTP
    client; the network client files a reference for each operation before it
    is sent, runs the transfers one pair at a time, cleans up by exact
    reference, and a new gateway uses it to take the workers over from the
    one before it.  Commands and replies travel over the message queue.  The
    HTTP application starts all of this, keeps admission closed until the
    worker world is proven, admits chat requests into the tracker and the
    output buffer, and fences admission while a replacement is accepted.  The
    operator's controller stops the old workers, proves their end and has the
    application accept the new ones.

    ** Files

    - Prelude.v: results, the method monad, strings, lists and their lemmas,
      the tactics and hint databases the other files share.
    - PyDict.v: insertion-ordered dictionaries.
    - Fingerprint.v: router/fingerprint.py (compute_chain_hashes,
      PromptFingerprint).
    - SequenceState.v: scheduler/sequence_state.py (SeqState, RequestInfo,
      RequestTracker).  Request objects live in a heap by address, because the
      loop keeps references to them across awaits.
    - Scheduler.v: scheduler/scheduler.py (PDScheduler: registration,
      selection, slot leases, quarantine, reconciliation).
    - TransferGovernor.v: scheduler/transfer_governor.py (watermark and
      byte-cap admission, deferral queue, in-flight ledger, recompute budget).
    - Json.v: the JSON values of resource reports and durable records.
    - WorkerRegistry.v: router/worker_registry.py (fixed worlds, identities,
      resource reports, admission).  It implements the class [RoutingGate]
      through which Scheduler.v and TransferGovernor.v consult a registry.
    - PrefixIndex.v: router/prefix_index.py (event batches, full reports,
      matching).
    - Router.v: router/router.py and router/topology.py (reuse decisions).
    - Output.v: gateway/output.py (cumulative output, readers, eviction).
    - ReplacementStore.v: scheduler/replacement_store.py over a disk whose
      writes may fail or be cut by a crash at every step.
    - ResourceRelease.v: scheduler/resource_release.py.
    - Reconciler.v: router/reconciler.py (rebuilding the index from full
      reports, polling event streams, failing closed).
    - Cleanup.v: the cleanup half of scheduler/main_loop.py, and [World], the
      tracker, scheduler, governor and output buffer it shares with the loop.
    - MainLoop.v: the loop half of scheduler/main_loop.py, every handler and
      scan and their composition into [schedule_tick] and [schedule_loop].
    - Loader.v: router/loader.py and the values of router/protocol.py (one
      cached-prefix load, its stages, the compensation of each stage).
    - Coordinator.v: router/coordinator.py (starting loads, running them,
      recovery, the calls the schedule loop makes).
    - Termination.v: gateway/termination_authority.py (termination records,
      their seal and the check of the four of a world).
    - TopologyAdmin.v: gateway/topology_admin.py (identity wire format,
      staging, publishing, recovery and rollback of replacement worlds).
    - HttpRpc.v: router/http_rpc.py (operation references, the request
      coroutine on every outcome, the operations of a worker, release
      snapshots, the sequence allocator).  The class [InferClient] is the
      interface the next three files are written against; [ClientLaws] is
      what they rely on and the HTTP client discharges.
    - NetworkRpc.v: the tables of NetworkControlRPC (router/network_rpc.py),
      their bounds and retirement, reference parsing.
    - Sequencer.v: its transfers, each a state machine from await to await,
      under the launch lock; [seq_step] interleaves any number of them.
    - NetworkOps.v: its coroutines (request preparation, prefix operations,
      event polling, the two cleanups) over the tables, the client and the
      release evaluator.
    - Takeover.v: activate_replacement_owner with its parsers and audit.
    - Queue.v: scheduler/queue.py (subjects, publishing, inboxes).
    - Performance.v: gateway/performance_harness.py (performance requests and
      the ledger of their traces).
    - FaultGate.v: gateway/correctness_harness.py (fixture routes and the
      one-shot fault gate).
    - Admission.v: the gates of gateway/app.py, the refresh of the worker
      world, the fence around a topology acceptance and task supervision.
    - ChatRequest.v: chat_completions up to the wait for the output and the
      evidence endpoints of gateway/app.py, with router/tokenizer.py.
    - Bootstrap.v: the start-up of gateway/app.py (retried stages, the first
      world, the takeover behind a fence against foreign owners).
    - Recovery.v: the objects of the running application ([Gateway]), the
      pull of fresh reports, and the sealed, unsealed and cold recoveries of a
      replacement in gateway/app.py.
    - Replacement.v: _accept_replacement_topology_impl, from the choice of its
      path to the commit, over all the components it stops, builds, settles
      and publishes.
    - WorldRestart.v: the restart of scripts/pd_worldctl.py, the operator's
      controller that replaces the workers of a world (startup permits, the
      guard, the observation journal, checkpoints).

    ** Conventions

    A Python method is a function from the object to a result and the object
    after it; an exception keeps the writes made before it.  Integers of
    Python are unbounded and are [Z] (or [nat] for lengths); times are
    nanoseconds in [Z], read from a [clock] argument; 64-bit packing in the
    fingerprint raises where struct.pack does.  Objects compared by identity
    are addresses ([handle]).  An await is a function of the whole world that
    brings an outcome and the world the caller wakes up in, so that whatever
    other tasks did meanwhile is arbitrary; theorems say what they assume of
    it.  Random tokens and addresses of new objects are functions of the
    world.  Code outside the repository (xxhash, the transfer client, the
    broker, RPC endpoints, the file system) is a parameter.  Loops are
    structural on the list they traverse or on a queue they shorten; the
    endless ones ([schedule_loop], the reconciler's [run], the coordinator's
    watchdog and recovery loops) take their number of rounds, which the
    theorems quantify universally.  The release evaluator is driven for as
    many rounds as its plan has endpoints, which a lemma shows to be enough
    ([drive_rounds]); the loops that change owners take fuel, and the theorems
    give a bound: one turn per nanosecond up to the deadline when calls take
    time, or four more than the faults that are left when workers cooperate.
    Metrics, logging and exception texts are left out.

    ** What the theorems show

    - Capacity: scheduler slots are conserved by every lease operation, loads
      stay within bounds, and cleanup returns capacity only on evidence
      (Scheduler.v, Cleanup.v).
    - Transfers: the governor's byte account is exactly the in-flight ledger,
      deferred tasks leave in FIFO order, completions count once
      (TransferGovernor.v).
    - The loop: any number of ticks, with arbitrary RPC outcomes and messages,
      keeps the shared invariant; messages of a former epoch or operation
      change nothing; a KV completion does exactly its work; two ways an
      exception ends the loop (MainLoop.v).
    - Requests: the transition table, deadlines and the tracker's heap
      invariant (SequenceState.v).
    - Routing: the prefix index refines a set of (block, owner) pairs, failed
      batches can be replayed, matches are the longest usable prefixes
      (PrefixIndex.v, Router.v); the reconciler keeps the index equal to the
      workers' caches at the acknowledged cursors, or empty (Reconciler.v); a
      failed worker generation stays fenced (WorkerRegistry.v).
    - Cached-prefix loads: each worker call happens at its stage, the context
      says exactly how far a load came, a cleanup returns or commits the slot
      only on the target's word (Loader.v); starting a load is all or nothing,
      the coordinator keeps the loop's invariant, and two ways it loses track
      of a request (Coordinator.v).
    - Output: readers lose nothing, buffers stay bounded (Output.v).
    - Durability: what the replacement store acknowledged survives crashes,
      and releases happen once and only on durable decisions
      (ReplacementStore.v, ResourceRelease.v).
    - Replacement worlds: a staged world is proven fresh and its predecessor
      terminated, and of concurrent replacements one wins (Termination.v,
      TopologyAdmin.v).
    - Worker calls: an answer is never invented, a release snapshot is accepted
      exactly when it answers its request (HttpRpc.v); the client's tables stay
      bounded and a retired operation stays closed (NetworkRpc.v); no
      reference reaches a worker before the tables know it, and a slot is
      given back only after every reference was found terminal (NetworkOps.v).
    - Transfers over the network refine a launcher that runs one pair at a
      time and stops for good at the first unproven one (Sequencer.v).
    - Takeover: no owner changes before the sweep has proved that nothing is
      left; what is returned is a proof for every listed operation; the loops
      always end, and they succeed before the deadline when the workers
      cooperate, whatever finitely many answers are lost (Takeover.v).
    - Messages: each inbox is a first-in first-out queue (Queue.v).
    - Admission: under every interleaving no request enters while a
      replacement is pending or after the control plane failed; a replacement
      is committed exactly behind its gates; an open worker gate means that
      every worker and pair was attested in that sweep (Admission.v).
    - Start-up: stages end by their deadline, the first world is published
      only when proven, and the takeover never retires an owner it did not
      find at the beginning (Bootstrap.v).
    - Replacement transaction: an acceptance opens admission only on a proven
      recovery or after every step of the replacement, and leaves the fence up
      when it raises; old slots come back only on durable decisions, after the
      ledger has moved; one way a failed run is stranded (Recovery.v,
      Replacement.v).
    - Restart of a world: however many controllers die and resume, none stops
      a worker that is not recorded, starts one before the file holds sealed
      proofs that the four old processes ended, or sends evidence that is not
      written (WorldRestart.v).
    - Chat requests: a refused request leaves every table as it was, unless
      its id was in use, for which two faults are shown; evidence, once
      given, never changes (ChatRequest.v).
    - Harnesses: a trace is written once and its verdict follows from what was
      observed (Performance.v); a fault gate stops one request (FaultGate.v).

    ** Not modelled

    Of gateway/app.py: the streaming of the output, shutdown and the
    diagnostic endpoints.  router/rpc.py (an adapter for integration tests), metrics,
    configuration and process identity (I/O), and the benchmarks.  Of
    scripts/pd_worldctl.py: the initialization of a first world, the modes
    that inject a crash or wait for a watchdog, and the backend that drives
    kubectl, Helm and HTTP.
    Of main_loop.py, fault injection on the publish path and the coordinator's
    terminal callback are not modelled; of network_rpc.py the KV usage poll
    and the wait for an injected NATS fault; the fault gate's checkpoints are
    inputs of the transfers; of http_rpc.py the text of diagnostics; of
    queue.py the connection handshake. *)

From stdpp Require Import prelude gmap strings sorting.

(** ** Results of fallible Python code

    A Python function that may raise is modelled by a function into
    [result E A]; a method that mutates its object returns the new object
    beside the result, because an exception does not undo the writes made
    before it. *)
Inductive result (E A : Type) : Type :=
| Ok (a : A)
| Raise (e : E).
Arguments Ok {E A} a.
Arguments Raise {E A} e.

(** The exception classes raised by the modelled modules.  Messages are not
    modelled: no modelled code reads them. *)
Inductive exn : Type :=
| AssertionError
| ValueError
| KeyError
| RuntimeError
| TypeError
| QuarantinedInstanceError
| TransferDispatchError
| FullReportRequired
| StructError
| OverflowError
| ZeroDivisionError
| GatewayOutputCapacity
| NoLiveReplacementLease
| ReplacementConflict
| ReplacementStoreError
| ReplacementStoreUnavailable
| ReplacementStoreCapacity
| RetiredReplacementRun
| UnknownReplacementRun
| PrefixLoadError
| CancelledError
| AttributeError
| IndexError
| TimeoutError
| ConnectionError
| PerformanceTraceCapacity
| PerformanceTraceConflict
| GatewayBootstrapNotReady
| OSError.

#[export] Instance exn_eq_dec : EqDecision exn.
Proof. solve_decision. Defined.

#[export] Instance result_eq_dec `{EqDecision E, EqDecision A} :
  EqDecision (result E A).
Proof. solve_decision. Defined.

(** A method of an object of type [S]: it reads and writes the object and
    returns a value or raises; the object it returns is the one the caller
    sees in both cases. *)
Definition method (S A : Type) : Type := S → result exn A * S.

Definition method_ret {S A} (a : A) : method S A := λ s, (Ok a, s).

Definition method_bind {S A B} (m : method S A) (k : A → method S B) :
    method S B := λ s,
  match m s with
  | (Ok a, s') => k a s'
  | (Raise e, s') => (Raise e, s')
  end.

#[export] Instance method_mret {S} : MRet (method S) := λ A a, method_ret a.
#[export] Instance method_mbind {S} : MBind (method S) :=
  λ A B k m, method_bind m k.

Definition raise {S A} (e : exn) : method S A := λ s, (Raise e, s).
Definition read {S} : method S S := λ s, (Ok s, s).
Definition modify {S} (f : S → S) : method S unit := λ s, (Ok tt, f s).

(** [if not c: raise e] *)
Definition ensure {S} (c : bool) (e : exn) : method S unit := λ s,
  if c then (Ok tt, s) else (Raise e, s).

Definition is_ok {E A} (r : result E A) : bool :=
  match r with Ok _ => true | Raise _ => false end.

(** ** Validators

    Pure checks that raise are written in the monad of [result]. *)
#[export] Instance result_mret {E} : MRet (result E) := λ A a, Ok a.
#[export] Instance result_mbind {E} : MBind (result E) := λ A B k m,
  match m with Ok a => k a | Raise e => Raise e end.

(** [if not c: raise ValueError] *)
Definition need (c : bool) : result exn unit := if c then Ok tt else Raise ValueError.

(** [[f(x) for x in l]]: the first exception ends it. *)
Fixpoint mapR {E A B} (f : A → result E B) (l : list A) : result E (list B) :=
  match l with
  | [] => Ok []
  | x :: l' => y ← f x; ys ← mapR f l'; Ok (y :: ys)
  end.

Lemma bind_Ok {E A B} (m : result E A) (k : A → result E B) y :
  m ≫= k = Ok y ↔ ∃ x, m = Ok x ∧ k x = Ok y.
Proof. destruct m; simpl; naive_solver. Qed.

Lemma need_Ok c x : need c = Ok x ↔ c = true.
Proof. destruct c, x; simpl; naive_solver. Qed.

Lemma need_then {A} c (k : result exn A) y : (_ ← need c; k) = Ok y ↔ c = true ∧ k = Ok y.
Proof. destruct c; simpl; naive_solver. Qed.

(** What raises in a check is a [ValueError]. *)
Definition only_value_error {A} (m : result exn A) : Prop := ∀ e, m = Raise e → e = ValueError.

Lemma only_bind {A B} (m : result exn A) (k : A → result exn B) :
  only_value_error m → (∀ x, m = Ok x → only_value_error (k x)) → only_value_error (m ≫= k).
Proof. destruct m; simpl; [naive_solver|]. intros Hm _ e' [= <-]. by apply Hm. Qed.

Lemma only_need c : only_value_error (need c).
Proof. by destruct c; intros e [=]. Qed.

Lemma only_Ok {A} (x : A) : only_value_error (Ok x).
Proof. by intros e. Qed.

Lemma mapR_Ok {E A B} (f : A → result E B) l ys :
  mapR f l = Ok ys ↔ Forall2 (λ x y, f x = Ok y) l ys.
Proof.
  revert ys. induction l as [|x l IH]; intros ys; simpl.
  - split; [intros [= <-]; constructor|by inversion 1].
  - rewrite bind_Ok. setoid_rewrite bind_Ok. setoid_rewrite IH. split.
    + intros (y & Hy & ys' & Hys & [= <-]). by constructor.
    + inversion 1; subst; eauto 6.
Qed.

(** ** Weakest preconditions

    [wp m Q s]: what [m] ends with, a value or an exception, and the state it
    leaves satisfy [Q]. *)
Definition wp {S A} (m : method S A) (Q : result exn A → S → Prop) (s : S) : Prop :=
  Q (m s).1 (m s).2.

Section wp.
Context {S A B : Type}.
Implicit Types (s : S) (Q : result exn A → S → Prop).

Lemma wp_run (m : method S A) Q s x s' : wp m Q s → m s = (x, s') → Q x s'.
Proof. unfold wp. intros H Heq. by rewrite Heq in H. Qed.

Lemma wp_bind (m : method S A) (k : A → method S B) (R : result exn B → S → Prop) s :
  wp m (λ x s', match x with Ok v => wp (k v) R s' | Raise e => R (Raise e) s' end) s →
  wp (m ≫= k) R s.
Proof.
  unfold wp, mbind, method_mbind, method_bind. by destruct (m s) as [[] ?].
Qed.

Lemma wp_mono (m : method S A) Q Q' s :
  wp m Q s → (∀ x s', Q x s' → Q' x s') → wp m Q' s.
Proof. unfold wp. eauto. Qed.

Lemma wp_ret (v : A) Q s : Q (Ok v) s → wp (mret v) Q s.
Proof. done. Qed.
Lemma wp_raise e Q s : Q (Raise e) s → wp (raise e) Q s.
Proof. done. Qed.
Lemma wp_read (Q : result exn S → S → Prop) s : Q (Ok s) s → wp read Q s.
Proof. done. Qed.
Lemma wp_modify f (Q : result exn unit → S → Prop) s : Q (Ok tt) (f s) → wp (modify f) Q s.
Proof. done. Qed.
Lemma wp_ensure (c : bool) e (Q : result exn unit → S → Prop) s :
  (c = true → Q (Ok tt) s) → (c = false → Q (Raise e) s) → wp (ensure c e) Q s.
Proof. unfold wp, ensure. destruct c; auto. Qed.
End wp.

(** ** Python truthiness and small helpers *)

(** [bool(s)] for a string. *)
Definition truthy (s : string) : bool := bool_decide (s ≠ "").

(** [s or None] for a string. *)
Definition or_none (s : string) : option string :=
  if truthy s then Some s else None.

Lemma truthy_true s : truthy s = true ↔ s ≠ "".
Proof. unfold truthy. by rewrite bool_decide_eq_true. Qed.

Lemma truthy_false s : truthy s = false ↔ s = "".
Proof.
  unfold truthy. rewrite bool_decide_eq_false.
  split; [apply dec_stable | tauto].
Qed.

(** ** [min] and [max] with a key: the first extremal element wins *)

Section extremum.
Context {A : Type} (key : A → Z).

Definition first_min (x : A) (l : list A) : A :=
  foldl (λ best y, if bool_decide (key y < key best)%Z then y else best) x l.

Definition first_max (x : A) (l : list A) : A :=
  foldl (λ best y, if bool_decide (key best < key y)%Z then y else best) x l.

Lemma first_min_spec x l :
  ∃ l1 l2, x :: l = l1 ++ first_min x l :: l2
    ∧ Forall (λ y, (key (first_min x l) < key y)%Z) l1
    ∧ Forall (λ y, (key (first_min x l) ≤ key y)%Z) l2.
Proof.
  revert x. induction l as [|y l IH]; intros x; simpl.
  - exists [], []. auto.
  - case_bool_decide as Hlt.
    + destruct (IH y) as (l1 & l2 & Heq & H1 & H2).
      exists (x :: l1), l2. split_and!; [by rewrite Heq| |done].
      constructor; [|done].
      destruct l1 as [|z l1]; simpl in Heq; injection Heq as Hh Ht.
      * rewrite <- Hh. lia.
      * subst z. decompose_Forall_hyps. lia.
    + destruct (IH x) as (l1 & l2 & Heq & H1 & H2).
      destruct l1 as [|z l1]; simpl in Heq; injection Heq as Hh Ht.
      * exists [], (y :: l). subst l2. rewrite <- Hh in *.
        split_and!; try done. constructor; [lia|done].
      * exists (z :: y :: l1), l2. decompose_Forall_hyps.
        split_and!; [simpl; congruence| |done]. constructor; [congruence|].
        constructor; [lia|done].
Qed.

Lemma first_max_spec x l :
  ∃ l1 l2, x :: l = l1 ++ first_max x l :: l2
    ∧ Forall (λ y, (key y < key (first_max x l))%Z) l1
    ∧ Forall (λ y, (key y ≤ key (first_max x l))%Z) l2.
Proof.
  revert x. induction l as [|y l IH]; intros x; simpl.
  - exists [], []. auto.
  - case_bool_decide as Hlt.
    + destruct (IH y) as (l1 & l2 & Heq & H1 & H2).
      exists (x :: l1), l2. split_and!; [by rewrite Heq| |done].
      constructor; [|done].
      destruct l1 as [|z l1]; simpl in Heq; injection Heq as Hh Ht.
      * rewrite <- Hh. lia.
      * subst z. decompose_Forall_hyps. lia.
    + destruct (IH x) as (l1 & l2 & Heq & H1 & H2).
      destruct l1 as [|z l1]; simpl in Heq; injection Heq as Hh Ht.
      * exists [], (y :: l). subst l2. rewrite <- Hh in *.
        split_and!; try done. constructor; [lia|done].
      * exists (z :: y :: l1), l2. decompose_Forall_hyps.
        split_and!; [simpl; congruence| |done]. constructor; [congruence|].
        constructor; [lia|done].
Qed.

Lemma first_min_elem x l : first_min x l ∈ x :: l.
Proof.
  destruct (first_min_spec x l) as (l1 & l2 & -> & _). set_solver.
Qed.

Lemma first_max_elem x l : first_max x l ∈ x :: l.
Proof.
  destruct (first_max_spec x l) as (l1 & l2 & -> & _). set_solver.
Qed.
End extremum.

(** ** [sorted(l, key=...)]: a stable sort *)

Section sorting.
Context {A K : Type} (le : K → K → Prop) `{!∀ x y, Decision (le x y)} (key : A → K).

Fixpoint insert_by (x : A) (l : list A) : list A :=
  match l with
  | [] => [x]
  | y :: l' => if decide (le (key x) (key y)) then x :: l
               else y :: insert_by x l'
  end.

Definition sort_by (l : list A) : list A := foldr insert_by [] l.

Definition key_le (x y : A) : Prop := le (key x) (key y).

Lemma insert_by_perm x l : insert_by x l ≡ₚ x :: l.
Proof.
  induction l as [|y l IH]; simpl; [done|].
  case_decide; [done|]. rewrite IH. by constructor.
Qed.

Lemma sort_by_perm l : sort_by l ≡ₚ l.
Proof.
  induction l as [|x l IH]; simpl; [done|].
  by rewrite insert_by_perm, IH.
Qed.

Lemma elem_of_sort_by x l : x ∈ sort_by l ↔ x ∈ l.
Proof. by rewrite sort_by_perm. Qed.

Context `{!Transitive le, !Total le}.

Lemma insert_by_sorted x l :
  StronglySorted key_le l → StronglySorted key_le (insert_by x l).
Proof.
  induction 1 as [|y l Hs IH Hall]; simpl; [repeat constructor|].
  case_decide as Hle.
  - constructor; [by constructor|]. constructor; [done|].
    eapply Forall_impl; [done|]. unfold key_le. intros; by etrans.
  - constructor; [done|]. rewrite insert_by_perm. constructor; [|done].
    unfold key_le. by destruct (total le (key x) (key y)).
Qed.

Lemma sort_by_sorted l : StronglySorted key_le (sort_by l).
Proof.
  induction l as [|x l IH]; simpl; [constructor|]. by apply insert_by_sorted.
Qed.

(** Elements with the same key keep their relative order. *)
Lemma sort_by_stable `{!EqDecision K} k l :
  filter (λ x, key x = k) (sort_by l) = filter (λ x, key x = k) l.
Proof.
  assert (∀ x l', filter (λ x, key x = k) (insert_by x l')
                  = filter (λ x, key x = k) (x :: l')) as Hins.
  { intros x l'. induction l' as [|y l' IH]; simpl; [done|].
    case_decide as Hle; [done|].
    rewrite !filter_cons in *. rewrite IH.
    repeat case_decide; try done. exfalso. apply Hle.
    assert (key x = key y) as -> by congruence. by destruct (total le (key y) (key y)). }
  induction l as [|x l IH]; simpl; [done|].
  rewrite Hins, !filter_cons, IH. done.
Qed.
End sorting.

Lemma sort_by_id {A K} (le : K → K → Prop) `{!∀ x y, Decision (le x y)} (key : A → K) l :
  StronglySorted (key_le le key) l → sort_by le key l = l.
Proof.
  induction 1 as [|x l Hs IH Hf]; simpl; [done|]. rewrite IH.
  destruct l as [|y l]; simpl; [done|]. by rewrite decide_True by by inversion Hf.
Qed.

Lemma elem_of_concat {A} (x : A) ls : x ∈ concat ls ↔ ∃ l, x ∈ l ∧ l ∈ ls.
Proof.
  rewrite list_elem_of_In, in_concat. setoid_rewrite <- list_elem_of_In. naive_solver.
Qed.

(** ** [range(start, stop, step)] with a positive step *)

Definition py_range (start stop step : Z) : list Z :=
  (λ i : nat, (start + Z.of_nat i * step)%Z)
    <$> seq 0 (Z.to_nat ((stop - start + step - 1) `div` step)).

(** [range(0, n - b + 1, b)] visits the start of every complete block of
    [b] elements among [n]. *)
Lemma py_range_blocks (n b : nat) :
  0 < b →
  py_range 0 (Z.of_nat n - Z.of_nat b + 1) (Z.of_nat b)
  = (λ i : nat, Z.of_nat (i * b)) <$> seq 0 (n `div` b).
Proof.
  intros Hb. unfold py_range.
  replace (Z.of_nat n - Z.of_nat b + 1 - 0 + Z.of_nat b - 1)%Z
    with (Z.of_nat n) by lia.
  rewrite <- Nat2Z.inj_div, Nat2Z.id.
  apply list_fmap_ext. intros i x _. lia.
Qed.

(** ** Sums of integers over lists *)

Definition sumZ {A} (f : A → Z) (l : list A) : Z := foldr (λ x a, (f x + a)%Z) 0%Z l.

Lemma sumZ_app {A} (f : A → Z) l1 l2 :
  sumZ f (l1 ++ l2) = (sumZ f l1 + sumZ f l2)%Z.
Proof. induction l1; simpl; lia. Qed.

Lemma sumZ_nonneg {A} (f : A → Z) l :
  Forall (λ x, 0 ≤ f x)%Z l → (0 ≤ sumZ f l)%Z.
Proof. induction 1; simpl; lia. Qed.

Lemma sumZ_ext {A} (f g : A → Z) l :
  Forall (λ x, f x = g x) l → sumZ f l = sumZ g l.
Proof. induction 1; simpl; congruence. Qed.

#[export] Instance sumZ_perm {A} (f : A → Z) : Proper ((≡ₚ) ==> (=)) (sumZ f).
Proof. intros l1 l2 H. induction H; simpl; lia. Qed.

Lemma submseteq_NoDup {A} (l1 l2 : list A) : l1 ⊆+ l2 → NoDup l2 → NoDup l1.
Proof.
  intros [k Hk]%submseteq_Permutation. rewrite Hk. by intros [? _]%NoDup_app.
Qed.

(** ** [len(set(l)) == len(l)] *)

Section distinct.
Context `{Countable A}.

Lemma size_list_to_set_le (l : list A) : (size (list_to_set l : gset A) ≤ length l)%nat.
Proof.
  induction l as [|x l IH]; simpl; [done|].
  rewrite size_union_alt, size_singleton.
  pose proof (subseteq_size (list_to_set l ∖ {[x]} : gset A) (list_to_set l)
                ltac:(set_solver)). lia.
Qed.

Lemma size_list_to_set_NoDup (l : list A) :
  size (list_to_set l : gset A) = length l ↔ NoDup l.
Proof.
  split; [|intros; by rewrite size_list_to_set].
  induction l as [|x l IH]; intros Hs; [constructor|]. simpl in Hs.
  pose proof (size_list_to_set_le l) as Hle.
  destruct (decide (x ∈ l)) as [Hin|Hni].
  - rewrite subseteq_union_1_L in Hs; [lia|]. set_solver.
  - constructor; [done|]. apply IH.
    rewrite size_union, size_singleton in Hs by set_solver. lia.
Qed.
End distinct.

(** ** Record fields

    A Python attribute write [r.f = v] is a setter [set_f v r].  [Eta R] is
    the record rebuilt from its own fields; [with_field r f v] is that term
    with the occurrence of [f r] replaced by [v], so that a setter is a plain
    application of the constructor and computes. *)
Class Eta (R : Type) : Type := eta : R → R.

Ltac with_field r f v :=
  let R := type of r in
  let inst := constr:(_ : Eta R) in
  let body := eval hnf in inst in
  let t := eval cbv beta in (body r) in
  let t := eval pattern (f r) in t in
  match t with
  | ?C _ => let t := eval cbv beta in (C v) in exact t
  end.

(** ** Hint database and tactics of the development *)

Create HintDb prism discriminated.

#[export] Hint Resolve sumZ_nonneg sort_by_perm sort_by_sorted : prism.

(** Split every conjunction of the goal and close what computation and
    hypotheses close. *)
Ltac split_done := split_and?; try done; eauto with prism.

(** Case analysis on the tests of the code, discarding impossible branches. *)
Ltac py_cases :=
  repeat first [ progress simplify_eq/= | case_bool_decide | case_decide
               | case_match ]; try done.
