(* ===== verification/PyDict.v ===== *)
(** * Python dictionaries

    A [dict] iterates in insertion order: writing an existing key keeps its
    place, writing a new key appends it.  The order is observable (ties of
    [min]/[max], the order in which queues are flushed, the order of sorted
    lists with equal keys), so a dictionary is an association list with at
    most one entry per key ([dwf]).  Two dictionaries with the same lookups
    are [dequiv]; the lookups of the operations only depend on that. *)

From S2P Require Import Prelude.
From stdpp Require Import prelude gmap strings.

Abbreviation odict K V := (list (K * V)).

Section odict.
Context {K : Type} `{EqDecision K} {V : Type}.
Implicit Types (d : odict K V) (k : K) (v : V).

(** [d.get(k)] *)
Fixpoint dget k d : option V :=
  match d with
  | [] => None
  | (k', v) :: d' => if decide (k = k') then Some v else dget k d'
  end.

(** [d[k] = v] *)
Fixpoint dset k v d : odict K V :=
  match d with
  | [] => [(k, v)]
  | (k', v') :: d' =>
      if decide (k = k') then (k, v) :: d' else (k', v') :: dset k v d'
  end.

(** [d.pop(k, None)] *)
Definition dpop k d : odict K V := filter (λ kv, kv.1 ≠ k) d.

Definition dkeys d : list K := d.*1.
Definition dvalues d : list V := d.*2.

(** [k in d] *)
Definition dmem k d : bool :=
  match dget k d with Some _ => true | None => false end.

Definition dwf d : Prop := NoDup (dkeys d).

Lemma dget_dset k k' v d :
  dget k' (dset k v d) = if decide (k' = k) then Some v else dget k' d.
Proof.
  induction d as [|[k2 v2] d IH]; simpl; repeat case_decide; simplify_eq/=;
    repeat case_decide; simplify_eq/=; naive_solver.
Qed.

Lemma dget_dset_eq k v d : dget k (dset k v d) = Some v.
Proof. rewrite dget_dset. by rewrite decide_True. Qed.

Lemma dget_dset_ne k k' v d : k' ≠ k → dget k' (dset k v d) = dget k' d.
Proof. intros. rewrite dget_dset. by rewrite decide_False. Qed.

Lemma dget_dpop k k' d :
  dget k' (dpop k d) = if decide (k' = k) then None else dget k' d.
Proof.
  unfold dpop. induction d as [|[k2 v2] d IH]; simpl.
  - by case_decide.
  - rewrite filter_cons. simpl.
    repeat (case_decide; simplify_eq/=; try done).
Qed.

Lemma dget_dpop_eq k d : dget k (dpop k d) = None.
Proof. rewrite dget_dpop. by rewrite decide_True. Qed.

Lemma dget_dpop_ne k k' d : k' ≠ k → dget k' (dpop k d) = dget k' d.
Proof. intros. rewrite dget_dpop. by rewrite decide_False. Qed.

Lemma dget_None k d : dget k d = None ↔ k ∉ dkeys d.
Proof.
  induction d as [|[k2 v2] d IH]; simpl; [set_solver|].
  case_decide; set_solver.
Qed.

Lemma dget_is_Some k d : is_Some (dget k d) ↔ k ∈ dkeys d.
Proof.
  rewrite <- not_eq_None_Some, dget_None. split; [apply dec_stable|tauto].
Qed.

Lemma dget_Some_1 k v d : dget k d = Some v → (k, v) ∈ d.
Proof.
  induction d as [|[k2 v2] d IH]; simpl; [done|].
  case_decide; intros; simplify_eq; set_solver.
Qed.

Lemma dget_Some_keys k v d : dget k d = Some v → k ∈ dkeys d.
Proof. intros. apply dget_is_Some. eauto. Qed.

Lemma dget_Some k v d : dwf d → dget k d = Some v ↔ (k, v) ∈ d.
Proof.
  intros Hwf. split; [apply dget_Some_1|].
  induction d as [|[k2 v2] d IH]; [set_solver|].
  unfold dwf in *. simpl in *. apply NoDup_cons in Hwf as [Hni Hwf].
  rewrite elem_of_cons. intros [Heq|Hin]; simplify_eq.
  - by rewrite decide_True.
  - rewrite decide_False; [by apply IH|]. intros ->. apply Hni.
    apply list_elem_of_fmap. by exists (k2, v).
Qed.

Lemma dmem_true k d : dmem k d = true ↔ k ∈ dkeys d.
Proof.
  rewrite <- dget_is_Some. unfold dmem.
  destruct (dget k d); naive_solver.
Qed.

Lemma dmem_false k d : dmem k d = false ↔ dget k d = None.
Proof. unfold dmem. destruct (dget k d); naive_solver. Qed.

Lemma dset_fresh k v d : dget k d = None → dset k v d = d ++ [(k, v)].
Proof.
  induction d as [|[k2 v2] d IH]; simpl; [done|].
  case_decide; [done|]. intros. by rewrite IH.
Qed.

Lemma dkeys_dset k v d :
  dkeys (dset k v d) = if dmem k d then dkeys d else dkeys d ++ [k].
Proof.
  unfold dmem, dkeys. induction d as [|[k2 v2] d IH]; simpl; [done|].
  case_decide; simplify_eq/=; [done|]. rewrite IH. by destruct (dget k d).
Qed.

Lemma elem_of_dkeys_dset k k' v d :
  k' ∈ dkeys (dset k v d) ↔ k' = k ∨ k' ∈ dkeys d.
Proof.
  rewrite <- !dget_is_Some, dget_dset. case_decide; naive_solver.
Qed.

Lemma elem_of_dkeys_dpop k k' d :
  k' ∈ dkeys (dpop k d) ↔ k' ≠ k ∧ k' ∈ dkeys d.
Proof.
  rewrite <- !dget_is_Some, dget_dpop. case_decide; [|naive_solver].
  split; [intros [? ?]; done|naive_solver].
Qed.

Lemma dwf_nil : dwf [].
Proof. constructor. Qed.

Lemma dwf_dset k v d : dwf d → dwf (dset k v d).
Proof.
  unfold dwf. rewrite dkeys_dset. intros Hd.
  destruct (dmem k d) eqn:Hm; [done|].
  apply dmem_false, dget_None in Hm.
  apply NoDup_app. split_and!; [done|set_solver|apply NoDup_singleton].
Qed.

Lemma dkeys_dpop k d : dkeys (dpop k d) = filter (λ k', k' ≠ k) (dkeys d).
Proof.
  unfold dkeys, dpop. induction d as [|[k2 v2] d IH]; simpl; [done|].
  rewrite !filter_cons. simpl. case_decide; simpl; [f_equal|]; apply IH.
Qed.

Lemma dwf_dpop k d : dwf d → dwf (dpop k d).
Proof. unfold dwf. rewrite dkeys_dpop. apply NoDup_filter. Qed.

Lemma dpop_fresh k d : dget k d = None → dpop k d = d.
Proof.
  unfold dpop. induction d as [|[k2 v2] d IH]; simpl; [done|].
  case_decide; [done|]. intros. rewrite filter_cons_True; [by rewrite IH|].
  simpl. congruence.
Qed.

Lemma dget_perm k v d :
  dwf d → dget k d = Some v → d ≡ₚ (k, v) :: dpop k d.
Proof.
  induction d as [|[k2 v2] d IH]; simpl; [done|].
  unfold dwf. simpl. rewrite NoDup_cons. intros [Hni Hwf].
  unfold dpop. rewrite filter_cons. simpl.
  case_decide as Hk; intros Hg; simplify_eq.
  - rewrite decide_False; [|tauto].
    fold (dpop k2 d). rewrite dpop_fresh; [done|]. by apply dget_None.
  - rewrite decide_True; [|congruence]. rewrite IH at 1 by done.
    apply Permutation_swap.
Qed.

Lemma dset_perm k v d : dwf d → dset k v d ≡ₚ (k, v) :: dpop k d.
Proof.
  intros Hwf. rewrite (dget_perm k v (dset k v d)).
  - f_equiv. unfold dpop. clear Hwf.
    induction d as [|[k2 v2] d IH]; simpl.
    + by rewrite filter_cons_False by naive_solver.
    + case_decide; simplify_eq.
      * rewrite !filter_cons_False by naive_solver. done.
      * rewrite !filter_cons_True by naive_solver. by rewrite IH.
  - by apply dwf_dset.
  - apply dget_dset_eq.
Qed.

Lemma length_dset k v d :
  length (dset k v d) = if dmem k d then length d else S (length d).
Proof.
  unfold dmem. induction d as [|[k2 v2] d IH]; simpl; [done|].
  case_decide; simplify_eq/=; [done|]. rewrite IH. by destruct (dget k d).
Qed.

Lemma length_dpop_le k d : length (dpop k d) ≤ length d.
Proof. apply length_filter. Qed.

Lemma length_dpop k v d :
  dwf d → dget k d = Some v → length d = S (length (dpop k d)).
Proof. intros Hwf Hg. by rewrite (dget_perm k v d) at 1. Qed.

(** ** Dictionaries with the same lookups *)

Definition dequiv (d1 d2 : odict K V) : Prop := ∀ k, dget k d1 = dget k d2.

#[export] Instance dequiv_equivalence : Equivalence dequiv.
Proof.
  split; unfold dequiv; [by intros d k|by intros d1 d2 Hd k|].
  intros d1 d2 d3 H12 H23 k. by rewrite H12.
Qed.

#[export] Instance dget_proper k : Proper (dequiv ==> (=)) (dget k).
Proof. intros d1 d2 Hd. apply Hd. Qed.

#[export] Instance dset_proper k v : Proper (dequiv ==> dequiv) (dset k v).
Proof. intros d1 d2 Hd k'. by rewrite !dget_dset, Hd. Qed.

#[export] Instance dpop_proper k : Proper (dequiv ==> dequiv) (dpop k).
Proof. intros d1 d2 Hd k'. by rewrite !dget_dpop, Hd. Qed.

#[export] Instance dmem_proper k : Proper (dequiv ==> (=)) (dmem k).
Proof. intros d1 d2 Hd. unfold dmem. by rewrite Hd. Qed.

Lemma dpop_dset k v d : dpop k (dset k v d) = dpop k d.
Proof.
  unfold dpop. induction d as [|[k' v'] d IH]; simpl.
  - by rewrite filter_cons_False by naive_solver.
  - case_decide; subst; [by rewrite !filter_cons_False by naive_solver|].
    rewrite !filter_cons_True by naive_solver. by rewrite IH.
Qed.

Lemma dset_dset k v v' d : dset k v (dset k v' d) = dset k v d.
Proof.
  induction d as [|[k2 v2] d IH]; simpl; [by rewrite decide_True|].
  case_decide; simpl; case_decide; simplify_eq; congruence.
Qed.

Lemma dset_id k v d : dget k d = Some v → dset k v d = d.
Proof.
  induction d as [|[k2 v2] d IH]; simpl; [done|].
  case_decide; intros; simplify_eq; [done|]. by rewrite IH.
Qed.

Lemma sumZ_dset_fresh (f : V → Z) k v d :
  dget k d = None →
  sumZ f (dvalues (dset k v d)) = (sumZ f (dvalues d) + f v)%Z.
Proof.
  intros Hk. rewrite dset_fresh by done. unfold dvalues.
  rewrite fmap_app, sumZ_app. simpl. lia.
Qed.

Lemma sumZ_dset (f : V → Z) k v v' d :
  dget k d = Some v →
  sumZ f (dvalues (dset k v' d)) = (sumZ f (dvalues d) - f v + f v')%Z.
Proof.
  unfold dvalues. induction d as [|[k2 v2] d IH]; simpl; [done|].
  case_decide; intros; simplify_eq/=; [lia|]. rewrite IH by done. lia.
Qed.

Lemma sumZ_dpop (f : V → Z) k v d :
  dwf d → dget k d = Some v →
  sumZ f (dvalues (dpop k d)) = (sumZ f (dvalues d) - f v)%Z.
Proof.
  intros Hwf Hg. unfold dvalues.
  assert (d.*2 ≡ₚ ((k, v) :: dpop k d).*2) as Hp
    by by rewrite <- (dget_perm k v d).
  rewrite Hp, fmap_cons. cbn [sumZ foldr snd]. unfold sumZ. lia.
Qed.

Lemma Forall_dvalues_dset (P : V → Prop) k v d :
  P v → Forall P (dvalues d) → Forall P (dvalues (dset k v d)).
Proof.
  intros Hv. unfold dvalues. induction d as [|[k2 v2] d IH]; simpl.
  - intros _. by constructor.
  - intros [Hv2 Hd]%Forall_cons. case_decide; simpl; constructor; auto.
Qed.

Lemma Forall_dvalues_dpop (P : V → Prop) k d :
  Forall P (dvalues d) → Forall P (dvalues (dpop k d)).
Proof.
  unfold dvalues, dpop. induction d as [|[k2 v2] d IH]; simpl; [done|].
  intros [Hv2 Hd]%Forall_cons. rewrite filter_cons.
  case_decide; simpl; [constructor|]; auto.
Qed.

Lemma Forall_dvalues_dget (P : V → Prop) k v d :
  Forall P (dvalues d) → dget k d = Some v → P v.
Proof.
  intros Hall Hg%dget_Some_1. eapply Forall_forall in Hall; [done|].
  apply list_elem_of_fmap. by exists (k, v).
Qed.
End odict.

#[export] Hint Resolve dwf_nil dwf_dset dwf_dpop : prism.

(** [{k: v for ...}]: a later binding of a key replaces an earlier one. *)
Definition dict_of {V} (l : list (string * V)) : odict string V :=
  foldl (λ d kv, dset kv.1 kv.2 d) [] l.

Lemma dwf_dict_of {V} (l : list (string * V)) : dwf (dict_of l).
Proof.
  unfold dict_of. assert (∀ d : odict string V, dwf d → dwf (foldl (λ d kv, dset kv.1 kv.2 d) d l))
    as Hg; [|apply Hg, dwf_nil].
  induction l as [|kv l IH]; intros d Hd; simpl; [done|]. by apply IH, dwf_dset.
Qed.

(** ** [OrderedDict] *)

(** [OrderedDict] assignment followed by [move_to_end]. *)
Definition dmove_end {V} (k : string) (v : V) (d : odict string V) : odict string V :=
  dpop k d ++ [(k, v)].

(** [while len(d) > cap: d.popitem(last=False)] *)
Fixpoint dtrim {V} (cap : Z) (d : odict string V) : odict string V :=
  match d with
  | [] => []
  | kv :: d' => if bool_decide (cap < Z.of_nat (length d))%Z then dtrim cap d' else d
  end.

Lemma dtrim_spec {V} cap (d : odict string V) :
  (0 ≤ cap)%Z → dwf d → dwf (dtrim cap d) ∧ (Z.of_nat (length (dtrim cap d)) ≤ cap)%Z.
Proof.
  intros Hc. unfold dwf, dkeys. induction d as [|[k v] d IH]; intros Hn; simpl; [done|].
  apply NoDup_cons in Hn as [Hk Hn]. case_bool_decide; [by apply IH|].
  split; [by constructor|]. simpl in *. lia.
Qed.

Lemma dmove_end_wf {V} k (v : V) (d : odict string V) : dwf d → dwf (dmove_end k v d).
Proof.
  intros Hd. unfold dmove_end. pose proof (dwf_dpop k d Hd) as Hp.
  rewrite <- (dset_fresh k v (dpop k d)) by apply dget_dpop_eq. by apply dwf_dset.
Qed.

(** Trimming drops the oldest entries: what is left is a suffix. *)
Lemma dtrim_suffix {V} cap (d : odict string V) : dtrim cap d `suffix_of` d.
Proof.
  induction d as [|kv d IH]; simpl; [done|]. case_bool_decide; [|done].
  by apply suffix_cons_r.
Qed.

Lemma dtrim_fits {V} cap (d : odict string V) :
  (Z.of_nat (length d) ≤ cap)%Z → dtrim cap d = d.
Proof. destruct d as [|kv d]; simpl; [done|]. intros ?. by rewrite bool_decide_eq_false_2 by lia. Qed.

Lemma dtrim_last {V} cap (d : odict string V) kv :
  (0 < cap)%Z → ∃ d', d' `suffix_of` d ∧ dtrim cap (d ++ [kv]) = d' ++ [kv].
Proof.
  intros Hc. induction d as [|kv' d IH]; simpl.
  - exists []. split; [done|]. by rewrite bool_decide_eq_false_2 by lia.
  - case_bool_decide.
    + destruct IH as (d' & ? & ->). exists d'. split; [by apply suffix_cons_r|done].
    + by exists (kv' :: d).
Qed.

Lemma dget_suffix {V} (d d' : odict string V) k v :
  dwf d → d' `suffix_of` d → dget k d' = Some v → dget k d = Some v.
Proof.
  intros Hd [d0 ->] Hk. apply dget_Some; [done|]. apply elem_of_app. right. by apply dget_Some_1.
Qed.

Lemma dget_dmove_end {V} k k' (v : V) d :
  dwf d → dget k' (dmove_end k v d) = if decide (k' = k) then Some v else dget k' d.
Proof.
  intros Hd. unfold dmove_end.
  rewrite <- (dset_fresh k v (dpop k d)) by apply dget_dpop_eq. rewrite dget_dset, dget_dpop.
  by case_decide.
Qed.

(** Look up through the writes of a goal or hypothesis. *)
Ltac dsimpl :=
  repeat match goal with
  | |- context [dget _ (dset _ _ _)] => rewrite dget_dset
  | |- context [dget _ (dpop _ _)] => rewrite dget_dpop
  | H : context [dget _ (dset _ _ _)] |- _ => rewrite dget_dset in H
  | H : context [dget _ (dpop _ _)] |- _ => rewrite dget_dpop in H
  end.
