(* ===== verification/Fingerprint.v ===== *)
(** * Prefix fingerprints (router/fingerprint.py)

    The chained block hashes of a prompt and the number of blocks a request
    may reuse.  [xxhash.xxh64] is a third-party function: it is the parameter
    [xxh64] of the section, from the bytes fed to [update] to [intdigest()];
    the one thing the code relies on is that the digest fits 64 bits. *)

From S2P Require Import Prelude.
From stdpp Require Import prelude gmap strings.

(** Bytes are integers in [0, 256). *)
Abbreviation bytes := (list Z).

(** [v.to_bytes(8, "little")] for 0 <= v < 2^64. *)
Definition le_bytes (n : nat) (v : Z) : bytes :=
  (λ i : nat, Z.land (Z.shiftr v (8 * Z.of_nat i)) 255) <$> seq 0 n.

Definition to_bytes8 (v : Z) : result exn bytes :=
  if bool_decide (0 ≤ v < 2 ^ 64)%Z then Ok (le_bytes 8 v)
  else Raise OverflowError.

(** [struct.pack("<q", v)]: two's complement, little endian, 8 bytes. *)
Definition pack_q (v : Z) : result exn bytes :=
  if bool_decide (- 2 ^ 63 ≤ v < 2 ^ 63)%Z then Ok (le_bytes 8 (v mod 2 ^ 64))
  else Raise StructError.

(** [struct.pack(f"<{len(block)}q", *block)] *)
Fixpoint pack_block (block : list Z) : result exn bytes :=
  match block with
  | [] => Ok []
  | v :: block' =>
      match pack_q v with
      | Raise e => Raise e
      | Ok b =>
          match pack_block block' with
          | Raise e => Raise e
          | Ok bs => Ok (b ++ bs)
          end
      end
  end.

Record PromptFingerprint := mkPromptFingerprint {
  fp_namespace : string;
  fp_kv_compatibility_id : string;
  fp_request_context_digest : string;
  fp_token_ids : list Z;
  fp_chain_hashes : list Z;
  fp_block_size : nat }.

#[export] Instance PromptFingerprint_eq_dec : EqDecision PromptFingerprint.
Proof. solve_decision. Defined.

(** [fingerprint.max_reusable_blocks()]: every complete block, less the last
    one when the prompt has no partial block after it. *)
Definition max_reusable_blocks (fp : PromptFingerprint) : Z :=
  let n := Z.of_nat (length (fp_token_ids fp)) in
  let b := Z.of_nat (fp_block_size fp) in
  let complete := (n `div` b)%Z in
  let keep_last_complete := if bool_decide (n `mod` b = 0)%Z then 1%Z else 0%Z in
  Z.max 0 (Z.min (Z.of_nat (length (fp_chain_hashes fp)))
                 (complete - keep_last_complete)).

Section chain.
Context (xxh64 : bytes → Z).

(** One iteration of the loop of [compute_chain_hashes]. *)
Definition block_digest (previous : Z) (block : list Z) : result exn Z :=
  let head := if bool_decide (previous = -1)%Z then Ok []
              else to_bytes8 previous in
  match head with
  | Raise e => Raise e
  | Ok hd =>
      match pack_block block with
      | Raise e => Raise e
      | Ok body => Ok (xxh64 (hd ++ body))
      end
  end.

Fixpoint chain_loop (token_ids : list Z) (block_size : nat)
    (starts : list Z) (previous : Z) (acc : list Z) :
    result exn (list Z) :=
  match starts with
  | [] => Ok acc
  | start :: starts' =>
      match block_digest previous
              (take block_size (drop (Z.to_nat start) token_ids)) with
      | Raise e => Raise e
      | Ok d => chain_loop token_ids block_size starts' d (acc ++ [d])
      end
  end.

Definition compute_chain_hashes (token_ids : list Z) (block_size : nat) :
    result exn (list Z) :=
  if bool_decide (0 < block_size) then
    chain_loop token_ids block_size
      (py_range 0 (Z.of_nat (length token_ids) - Z.of_nat block_size + 1)
         (Z.of_nat block_size)) (-1) []
  else Raise AssertionError.

(** [PromptFingerprint.create] *)
Definition create (namespace kv_compatibility_id request_context_digest : string)
    (token_ids : list Z) (block_size : nat) : result exn PromptFingerprint :=
  match compute_chain_hashes token_ids block_size with
  | Raise e => Raise e
  | Ok hs => Ok (mkPromptFingerprint namespace kv_compatibility_id
                   request_context_digest token_ids hs block_size)
  end.

(** ** Facts about the loop *)

Definition int64 (v : Z) : Prop := (- 2 ^ 63 ≤ v < 2 ^ 63)%Z.

(** The documented range of [intdigest()]. *)
Definition xxh64_range : Prop := ∀ b, (0 ≤ xxh64 b < 2 ^ 64)%Z.

Lemma pack_block_ok block :
  Forall int64 block → ∃ bs, pack_block block = Ok bs.
Proof.
  induction 1 as [|v block Hv _ [bs IH]]; simpl; [eauto|].
  unfold pack_q. rewrite bool_decide_true by done. rewrite IH. eauto.
Qed.

Lemma block_digest_ok previous block :
  (previous = -1 ∨ 0 ≤ previous < 2 ^ 64)%Z → Forall int64 block →
  ∃ b, block_digest previous block = Ok (xxh64 b).
Proof.
  intros Hp Hb. unfold block_digest.
  destruct (pack_block_ok block Hb) as [bs ->].
  case_bool_decide; [eauto|]. unfold to_bytes8.
  rewrite bool_decide_true by lia. eauto.
Qed.

Lemma chain_loop_ok (Hx : xxh64_range) token_ids b starts previous acc :
  Forall int64 token_ids → (previous = -1 ∨ 0 ≤ previous < 2 ^ 64)%Z →
  ∃ hs, chain_loop token_ids b starts previous acc = Ok (acc ++ hs)
    ∧ length hs = length starts.
Proof.
  intros Ht. revert previous acc.
  induction starts as [|st starts IH]; intros previous acc Hp; simpl.
  - exists []. by rewrite app_nil_r.
  - destruct (block_digest_ok previous
                (take b (drop (Z.to_nat st) token_ids)) Hp) as [by_ ->].
    { by apply Forall_take, Forall_drop. }
    destruct (IH (xxh64 by_) (acc ++ [xxh64 by_])) as (hs & -> & Hl).
    { right. apply Hx. }
    exists (xxh64 by_ :: hs). split; [by rewrite <- app_assoc|simpl; lia].
Qed.

(** The loop only reads the blocks it visits. *)
Lemma chain_loop_ext t1 t2 b starts previous acc :
  Forall (λ st, take b (drop (Z.to_nat st) t1)
                = take b (drop (Z.to_nat st) t2)) starts →
  chain_loop t1 b starts previous acc = chain_loop t2 b starts previous acc.
Proof.
  intros Hall. revert previous acc.
  induction Hall as [|st starts Hst _ IH]; intros previous acc; simpl; [done|].
  rewrite Hst. by destruct (block_digest _ _).
Qed.

Lemma chain_loop_app t b s1 s2 previous acc hs :
  chain_loop t b (s1 ++ s2) previous acc = Ok hs →
  ∃ hs1, chain_loop t b s1 previous acc = Ok hs1 ∧ hs1 `prefix_of` hs.
Proof.
  assert (∀ s p a h, chain_loop t b s p a = Ok h → a `prefix_of` h) as Hpre.
  { induction s as [|st s IH]; intros p a h; simpl; [by intros [= ->]|].
    destruct (block_digest _ _) as [d|]; [|done].
    intros Hh%IH. etrans; [|done]. by apply prefix_app_r. }
  revert previous acc. induction s1 as [|st s1 IH]; intros previous acc; simpl.
  - intros Hh. exists acc. split; [done|]. by eapply Hpre.
  - destruct (block_digest _ _); [|done]. apply IH.
Qed.

Lemma block_inside (t ext : list Z) b i :
  i < length t `div` b →
  take b (drop (Z.to_nat (Z.of_nat (i * b))) (t ++ ext))
  = take b (drop (Z.to_nat (Z.of_nat (i * b))) t).
Proof.
  intros Hi. rewrite Nat2Z.id.
  assert (S i * b ≤ length t).
  { etrans; [apply Nat.mul_le_mono_r; apply Hi|].
    rewrite Nat.mul_comm. apply Nat.Div0.mul_div_le. }
  rewrite drop_app_le by lia. rewrite take_app_le; [done|].
  rewrite length_drop. lia.
Qed.
End chain.

(** ** Properties *)

(** for token ids in the int64 range and a positive block size,
    [compute_chain_hashes] returns (it never raises), with exactly one hash
    per complete block of the prompt. *)
Theorem compute_chain_hashes_total (xxh64 : bytes → Z) token_ids block_size :
  xxh64_range xxh64 → 0 < block_size → Forall int64 token_ids →
  ∃ hs, compute_chain_hashes xxh64 token_ids block_size = Ok hs
    ∧ length hs = length token_ids `div` block_size.
Proof.
  intros Hx Hb Ht. unfold compute_chain_hashes.
  rewrite bool_decide_true by done. rewrite py_range_blocks by done.
  destruct (chain_loop_ok xxh64 Hx token_ids block_size
              ((λ i : nat, Z.of_nat (i * block_size))
                 <$> seq 0 (length token_ids `div` block_size)) (-1) [])
    as (hs & -> & Hl); [done|by left|].
  exists hs. split; [done|]. by rewrite Hl, length_fmap, length_seq.
Qed.

(** extending a prompt keeps its chain hashes: the hashes of a prompt are
    a prefix of the hashes of every longer prompt that starts with it, which
    is what lets the prefix index match a new prompt block by block. *)
Theorem compute_chain_hashes_prefix (xxh64 : bytes → Z) t ext block_size hs :
  compute_chain_hashes xxh64 (t ++ ext) block_size = Ok hs →
  ∃ hs', compute_chain_hashes xxh64 t block_size = Ok hs'
    ∧ hs' `prefix_of` hs.
Proof.
  unfold compute_chain_hashes. case_bool_decide as Hb; [|done].
  rewrite !py_range_blocks by done.
  assert (length t `div` block_size ≤ length (t ++ ext) `div` block_size) as Hle.
  { apply Nat.Div0.div_le_mono. rewrite length_app. lia. }
  set (f := λ i : nat, Z.of_nat (i * block_size)).
  replace (seq 0 (length (t ++ ext) `div` block_size))
    with (seq 0 (length t `div` block_size)
          ++ seq (length t `div` block_size)
               (length (t ++ ext) `div` block_size
                - length t `div` block_size)).
  2:{ rewrite <- seq_app. f_equal. lia. }
  rewrite fmap_app. intros (hs1 & Hh & Hp)%chain_loop_app.
  exists hs1. split; [|done]. rewrite <- Hh. apply chain_loop_ext.
  apply Forall_forall. intros st (i & -> & Hi)%list_elem_of_fmap.
  apply elem_of_seq in Hi. symmetry. apply block_inside. lia.
Qed.

(** a fingerprint never lets the whole prompt be reused: the reusable
    blocks stay within the computed hashes and cover strictly fewer tokens
    than the prompt has, so at least one suffix token is always prefilled. *)
Theorem max_reusable_blocks_bounds (xxh64 : bytes → Z) ns kv ctx t b fp :
  create xxh64 ns kv ctx t b = Ok fp → t ≠ [] →
  (0 ≤ max_reusable_blocks fp ≤ Z.of_nat (length (fp_chain_hashes fp)))%Z
  ∧ (max_reusable_blocks fp * Z.of_nat b < Z.of_nat (length t))%Z.
Proof.
  intros Hc Ht. unfold create in Hc.
  destruct (compute_chain_hashes xxh64 t b) as [hs|] eqn:Hh; simplify_eq/=.
  assert (0 < b) as Hb.
  { unfold compute_chain_hashes in Hh. by case_bool_decide. }
  unfold max_reusable_blocks. simpl. split; [lia|].
  assert (0 < length t) by (destruct t; simpl in *; [done|lia]).
  pose proof (Z.div_mod (Z.of_nat (length t)) (Z.of_nat b)).
  pose proof (Z.mod_pos_bound (Z.of_nat (length t)) (Z.of_nat b)).
  set (q := (Z.of_nat (length t) `div` Z.of_nat b)%Z) in *.
  set (r := (Z.of_nat (length t) `mod` Z.of_nat b)%Z) in *.
  assert (0 ≤ q)%Z by (apply Z.div_pos; lia).
  case_bool_decide; nia.
Qed.

(** ** Witnesses *)

(** A concrete 64-bit digest: a polynomial rolling hash. *)
Definition toy_xxh64 (b : bytes) : Z :=
  foldl (λ h x, (h * 31 + x) mod 2 ^ 64)%Z 7%Z b.

Lemma toy_xxh64_range : xxh64_range toy_xxh64.
Proof.
  intros b. unfold toy_xxh64.
  assert (∀ h, (0 ≤ h < 2 ^ 64)%Z →
    (0 ≤ foldl (λ h x, (h * 31 + x) mod 2 ^ 64)%Z h b < 2 ^ 64)%Z) as H.
  { induction b as [|x b IH]; intros h Hh; simpl; [done|].
    apply IH. by apply Z.mod_pos_bound. }
  apply H. lia.
Qed.

Lemma compute_chain_hashes_total_witness :
  ∃ hs, compute_chain_hashes toy_xxh64 [1; -2; 3; 4; 5]%Z 2 = Ok hs
    ∧ length hs = 2.
Proof.
  apply (compute_chain_hashes_total toy_xxh64 [1; -2; 3; 4; 5]%Z 2).
  - apply toy_xxh64_range.
  - lia.
  - repeat constructor; unfold int64; lia.
Defined.

Lemma compute_chain_hashes_prefix_witness :
  ∃ hs', compute_chain_hashes toy_xxh64 [1; 2; 3]%Z 2 = Ok hs'
    ∧ hs' `prefix_of` [from_option id 0%Z (head
        match compute_chain_hashes toy_xxh64 [1; 2; 3; 4]%Z 2 with
        | Ok l => l | Raise _ => [] end);
        from_option id 0%Z (last
        match compute_chain_hashes toy_xxh64 [1; 2; 3; 4]%Z 2 with
        | Ok l => l | Raise _ => [] end)].
Proof.
  apply (compute_chain_hashes_prefix toy_xxh64 [1; 2; 3]%Z [4]%Z 2).
  vm_compute. reflexivity.
Defined.

Lemma max_reusable_blocks_bounds_witness :
  ∃ fp, create toy_xxh64 "ns" "kv" "ctx" [1; 2; 3; 4]%Z 2 = Ok fp
    ∧ (max_reusable_blocks fp * 2 < 4)%Z.
Proof.
  eexists. split; [vm_compute; reflexivity|].
  apply (max_reusable_blocks_bounds toy_xxh64 "ns" "kv" "ctx" [1; 2; 3; 4]%Z 2).
  - vm_compute. reflexivity.
  - done.
Defined.
