(* ===== verification/SequenceState.v ===== *)
(** * Request lifecycle (scheduler/sequence_state.py)

    Requests are shared mutable objects: the tracker's dictionary, the
    schedule loop and the cleanup tasks hold references to the same
    [RequestInfo], and the code compares them with [is].  The model keeps
    them in a store [trk_heap] indexed by address; the tracker's dictionary
    maps request ids to addresses.  Times are nanoseconds of the monotonic
    clock ([time.monotonic()] is the argument [now]); the zero the code uses
    for "not set" stays 0.  Metrics are write-only and are left out.  An
    opaque Python object that the modelled code only passes around (an
    endpoint reference, a sampling dictionary, an asyncio task) is a
    [handle]. *)

From S2P Require Import Prelude PyDict Fingerprint.
From stdpp Require Import prelude gmap strings sorting.

Abbreviation handle := nat.

Inductive SeqState : Type :=
| WAITING
| PREFILLING
| KV_PENDING
| RECOMPUTING
| AFFINITY_LOADING
| PREFIX_PREFILLING
| DECODING
| FINISHED
| ABORTED.

#[export] Instance SeqState_eq_dec : EqDecision SeqState.
Proof. solve_decision. Defined.

Record RequestInfo := mkRequestInfo {
  req_id : string;
  state : SeqState;
  fingerprint : option PromptFingerprint;
  sampling_params : handle;
  token_ids : list Z;
  model : string;
  prefill_instance : string;
  decode_instance : string;
  prefill_instance_epoch : string;
  decode_instance_epoch : string;
  arrived_at : Z;
  prefill_start : Z;
  kv_sent_at : Z;
  recompute_start : Z;
  decode_start : Z;
  first_token_at : Z;
  last_output_query_at : Z;
  finished_at : Z;
  recompute_count : Z;
  dispatch_attempts : Z;
  kv_size_bytes : Z;
  block_table : list Z;
  transfer_operation_id : string;
  active_operation_id : string;
  decode_slot_lease_id : string;
  cache_source : string;
  cached_prefix_tokens : Z;
  correctness_path : string;
  correctness_source_instance : string;
  correctness_target_instance : string;
  correctness_cached_prefix_tokens : Z;
  affinity_started_at : Z;
  prefix_ready_at : Z;
  suffix_prefill_started_at : Z;
  command_id : string;
  publish_outcome : string;
  dispatch_operation_ref : option handle;
  suffix_operation_ref : option handle;
  target_request_ref : option handle;
  target_request_commit_ref : option handle;
  target_block_table : list Z;
  transfer_source_ref : option handle;
  transfer_target_ref : option handle }.

#[export] Instance RequestInfo_eta : Eta RequestInfo := λ r,
  mkRequestInfo (req_id r) (state r) (fingerprint r) (sampling_params r)
    (token_ids r) (model r) (prefill_instance r) (decode_instance r)
    (prefill_instance_epoch r) (decode_instance_epoch r) (arrived_at r)
    (prefill_start r) (kv_sent_at r) (recompute_start r) (decode_start r)
    (first_token_at r) (last_output_query_at r) (finished_at r)
    (recompute_count r) (dispatch_attempts r) (kv_size_bytes r) (block_table
    r) (transfer_operation_id r) (active_operation_id r)
    (decode_slot_lease_id r) (cache_source r) (cached_prefix_tokens r)
    (correctness_path r) (correctness_source_instance r)
    (correctness_target_instance r) (correctness_cached_prefix_tokens r)
    (affinity_started_at r) (prefix_ready_at r) (suffix_prefill_started_at
    r) (command_id r) (publish_outcome r) (dispatch_operation_ref r)
    (suffix_operation_ref r) (target_request_ref r)
    (target_request_commit_ref r) (target_block_table r)
    (transfer_source_ref r) (transfer_target_ref r).

(** ** Attribute writes *)

Definition set_state (v : SeqState) (r : RequestInfo) : RequestInfo :=
  ltac:(with_field r state v).
Definition set_prefill_instance (v : string) (r : RequestInfo) : RequestInfo :=
  ltac:(with_field r prefill_instance v).
Definition set_decode_instance (v : string) (r : RequestInfo) : RequestInfo :=
  ltac:(with_field r decode_instance v).
Definition set_prefill_instance_epoch (v : string) (r : RequestInfo) : RequestInfo :=
  ltac:(with_field r prefill_instance_epoch v).
Definition set_decode_instance_epoch (v : string) (r : RequestInfo) : RequestInfo :=
  ltac:(with_field r decode_instance_epoch v).
Definition set_prefill_start (v : Z) (r : RequestInfo) : RequestInfo :=
  ltac:(with_field r prefill_start v).
Definition set_kv_sent_at (v : Z) (r : RequestInfo) : RequestInfo :=
  ltac:(with_field r kv_sent_at v).
Definition set_recompute_start (v : Z) (r : RequestInfo) : RequestInfo :=
  ltac:(with_field r recompute_start v).
Definition set_decode_start (v : Z) (r : RequestInfo) : RequestInfo :=
  ltac:(with_field r decode_start v).
Definition set_first_token_at (v : Z) (r : RequestInfo) : RequestInfo :=
  ltac:(with_field r first_token_at v).
Definition set_last_output_query_at (v : Z) (r : RequestInfo) : RequestInfo :=
  ltac:(with_field r last_output_query_at v).
Definition set_finished_at (v : Z) (r : RequestInfo) : RequestInfo :=
  ltac:(with_field r finished_at v).
Definition set_dispatch_attempts (v : Z) (r : RequestInfo) : RequestInfo :=
  ltac:(with_field r dispatch_attempts v).
Definition set_kv_size_bytes (v : Z) (r : RequestInfo) : RequestInfo :=
  ltac:(with_field r kv_size_bytes v).
Definition set_block_table (v : list Z) (r : RequestInfo) : RequestInfo :=
  ltac:(with_field r block_table v).
Definition set_transfer_operation_id (v : string) (r : RequestInfo) : RequestInfo :=
  ltac:(with_field r transfer_operation_id v).
Definition set_active_operation_id (v : string) (r : RequestInfo) : RequestInfo :=
  ltac:(with_field r active_operation_id v).
Definition set_decode_slot_lease_id (v : string) (r : RequestInfo) : RequestInfo :=
  ltac:(with_field r decode_slot_lease_id v).
Definition set_cache_source (v : string) (r : RequestInfo) : RequestInfo :=
  ltac:(with_field r cache_source v).
Definition set_cached_prefix_tokens (v : Z) (r : RequestInfo) : RequestInfo :=
  ltac:(with_field r cached_prefix_tokens v).
Definition set_affinity_started_at (v : Z) (r : RequestInfo) : RequestInfo :=
  ltac:(with_field r affinity_started_at v).
Definition set_prefix_ready_at (v : Z) (r : RequestInfo) : RequestInfo :=
  ltac:(with_field r prefix_ready_at v).
Definition set_suffix_prefill_started_at (v : Z) (r : RequestInfo) : RequestInfo :=
  ltac:(with_field r suffix_prefill_started_at v).
Definition set_command_id (v : string) (r : RequestInfo) : RequestInfo :=
  ltac:(with_field r command_id v).
Definition set_publish_outcome (v : string) (r : RequestInfo) : RequestInfo :=
  ltac:(with_field r publish_outcome v).
Definition set_dispatch_operation_ref (v : option handle) (r : RequestInfo) : RequestInfo :=
  ltac:(with_field r dispatch_operation_ref v).
Definition set_suffix_operation_ref (v : option handle) (r : RequestInfo) : RequestInfo :=
  ltac:(with_field r suffix_operation_ref v).
Definition set_target_request_ref (v : option handle) (r : RequestInfo) : RequestInfo :=
  ltac:(with_field r target_request_ref v).
Definition set_target_request_commit_ref (v : option handle) (r : RequestInfo) : RequestInfo :=
  ltac:(with_field r target_request_commit_ref v).
Definition set_target_block_table (v : list Z) (r : RequestInfo) : RequestInfo :=
  ltac:(with_field r target_block_table v).

(** A request as [RequestInfo(req_id)] creates it at time [now]. *)
Definition new_RequestInfo (rid : string) (now : Z) : RequestInfo :=
  mkRequestInfo rid WAITING None 0 [] "" "" "" "" "" now 0%Z 0%Z 0%Z 0%Z 0%Z
    0%Z 0%Z 0%Z 0%Z 0%Z [] "" "" "" "" 0%Z "" "" "" 0%Z 0%Z 0%Z 0%Z ""
    "NOT_STARTED" None None None None [] None None.

(** The keyword arguments the callers of [transition] pass, and
    [setattr(req, k, v)]. *)
Inductive attr : Type :=
| kw_prefill_instance (v : string)
| kw_decode_instance (v : string)
| kw_prefill_instance_epoch (v : string)
| kw_decode_instance_epoch (v : string)
| kw_command_id (v : string)
| kw_publish_outcome (v : string)
| kw_active_operation_id (v : string)
| kw_decode_slot_lease_id (v : string)
| kw_target_request_ref (v : option handle)
| kw_target_block_table (v : list Z)
| kw_kv_size_bytes (v : Z)
| kw_block_table (v : list Z)
| kw_transfer_operation_id (v : string)
| kw_target_request_commit_ref (v : option handle)
| kw_cache_source (v : string)
| kw_cached_prefix_tokens (v : Z).

Definition setattr (r : RequestInfo) (a : attr) : RequestInfo :=
  match a with
  | kw_prefill_instance v => set_prefill_instance v r
  | kw_decode_instance v => set_decode_instance v r
  | kw_prefill_instance_epoch v => set_prefill_instance_epoch v r
  | kw_decode_instance_epoch v => set_decode_instance_epoch v r
  | kw_command_id v => set_command_id v r
  | kw_publish_outcome v => set_publish_outcome v r
  | kw_active_operation_id v => set_active_operation_id v r
  | kw_decode_slot_lease_id v => set_decode_slot_lease_id v r
  | kw_target_request_ref v => set_target_request_ref v r
  | kw_target_block_table v => set_target_block_table v r
  | kw_kv_size_bytes v => set_kv_size_bytes v r
  | kw_block_table v => set_block_table v r
  | kw_transfer_operation_id v => set_transfer_operation_id v r
  | kw_target_request_commit_ref v => set_target_request_commit_ref v r
  | kw_cache_source v => set_cache_source v r
  | kw_cached_prefix_tokens v => set_cached_prefix_tokens v r
  end.

(** ** Deadlines of a request *)

Definition is_stuck (timeout now : Z) (r : RequestInfo) : bool :=
  if decide (state r = KV_PENDING)
  then bool_decide (now - kv_sent_at r > timeout)%Z else false.

Definition is_prefill_stuck (timeout now : Z) (r : RequestInfo) : bool :=
  if decide (state r = PREFILLING)
  then bool_decide (now - prefill_start r > timeout)%Z else false.

Definition is_recompute_stuck (timeout now : Z) (r : RequestInfo) : bool :=
  if decide (state r = RECOMPUTING)
  then bool_decide (now - recompute_start r > timeout)%Z else false.

Definition is_decode_stuck (timeout now : Z) (r : RequestInfo) : bool :=
  if decide (state r = DECODING)
  then bool_decide (now - decode_start r > timeout)%Z else false.

Definition is_suffix_prefill_stuck (timeout now : Z) (r : RequestInfo) : bool :=
  if decide (state r = PREFIX_PREFILLING)
  then bool_decide (now - suffix_prefill_started_at r > timeout)%Z else false.

(** ** The transition table *)

Definition VALID (s : SeqState) : list SeqState :=
  match s with
  | WAITING => [PREFILLING; AFFINITY_LOADING]
  | PREFILLING => [KV_PENDING]
  | AFFINITY_LOADING => [PREFIX_PREFILLING; WAITING]
  | PREFIX_PREFILLING => [DECODING; WAITING]
  | KV_PENDING => [DECODING; RECOMPUTING]
  | RECOMPUTING => [DECODING]
  | DECODING => [FINISHED; ABORTED]
  | FINISHED | ABORTED => []
  end.

(** The test of [_validate_transition]. *)
Definition validate_transition (current new : SeqState) : bool :=
  bool_decide (new ∈ VALID current ++ [ABORTED]).

(** ** The tracker *)

Record RequestTracker := mkTracker {
  trk_heap : gmap handle RequestInfo;
  trk_requests : odict string handle;
  trk_cleanup_tasks : odict string handle }.

Definition empty_tracker : RequestTracker := mkTracker ∅ [] [].

Definition set_heap (h : gmap handle RequestInfo) (tr : RequestTracker) :=
  mkTracker h (trk_requests tr) (trk_cleanup_tasks tr).
Definition set_requests (d : odict string handle) (tr : RequestTracker) :=
  mkTracker (trk_heap tr) d (trk_cleanup_tasks tr).
Definition set_cleanup_tasks (d : odict string handle) (tr : RequestTracker) :=
  mkTracker (trk_heap tr) (trk_requests tr) d.

(** A write through a reference: every holder of the address sees it. *)
Definition update_object (a : handle) (f : RequestInfo → RequestInfo)
    (tr : RequestTracker) : RequestTracker :=
  set_heap (alter f a (trk_heap tr)) tr.

(** [RequestInfo(...)]: a new object at a fresh address. *)
Definition alloc (r : RequestInfo) (tr : RequestTracker) :
    handle * RequestTracker :=
  let a := fresh (dom (trk_heap tr)) in
  (a, set_heap (<[a := r]> (trk_heap tr)) tr).

Definition add (a : handle) : method RequestTracker unit := λ tr,
  match trk_heap tr !! a with
  | None => (Raise KeyError, tr)
  | Some r =>
      if dmem (req_id r) (trk_requests tr) then (Raise AssertionError, tr)
      else (Ok tt, set_requests (dset (req_id r) a (trk_requests tr)) tr)
  end.

Definition remove (rid : string) (tr : RequestTracker) :
    option handle * RequestTracker :=
  (dget rid (trk_requests tr),
   set_requests (dpop rid (trk_requests tr)) tr).

Definition get (rid : string) (tr : RequestTracker) : option handle :=
  dget rid (trk_requests tr).

(** The request a tracked id names now. *)
Definition lookup_request (rid : string) (tr : RequestTracker) :
    option (handle * RequestInfo) :=
  match get rid tr with
  | None => None
  | Some a =>
      match trk_heap tr !! a with None => None | Some r => Some (a, r) end
  end.

Definition set_publish_outcome_of (rid outcome : string) :
    method RequestTracker unit := λ tr,
  if decide (outcome ∈ ["NOT_STARTED"; "ACKED"; "UNKNOWN"]) then
    match get rid tr with
    | None => (Raise KeyError, tr)
    | Some a => (Ok tt, update_object a (set_publish_outcome outcome) tr)
    end
  else (Raise AssertionError, tr).

(** [get_or_create_cleanup_task]: [fresh_task] is the task that
    [asyncio.create_task(factory())] would return. *)
Definition get_or_create_cleanup_task (rid : string) (fresh_task : handle)
    (tr : RequestTracker) : handle * RequestTracker :=
  match dget rid (trk_cleanup_tasks tr) with
  | Some t => (t, tr)
  | None => (fresh_task,
             set_cleanup_tasks (dset rid fresh_task (trk_cleanup_tasks tr)) tr)
  end.

Definition cleanup_task (rid : string) (tr : RequestTracker) : option handle :=
  dget rid (trk_cleanup_tasks tr).

(** Also the body of the done-callback [forget]. *)
Definition clear_cleanup_task (rid : string) (task : handle)
    (tr : RequestTracker) : RequestTracker :=
  if decide (dget rid (trk_cleanup_tasks tr) = Some task)
  then set_cleanup_tasks (dpop rid (trk_cleanup_tasks tr)) tr
  else tr.

(** The timestamps and counters written on entry to a phase. *)
Definition enter_phase (new_state : SeqState) (now : Z) (r : RequestInfo) :
    RequestInfo :=
  match new_state with
  | PREFILLING =>
      set_dispatch_attempts (dispatch_attempts r + 1)%Z (set_prefill_start now r)
  | KV_PENDING => set_kv_sent_at now r
  | AFFINITY_LOADING => set_affinity_started_at now r
  | PREFIX_PREFILLING =>
      set_suffix_prefill_started_at now (set_prefix_ready_at now r)
  | RECOMPUTING => set_recompute_start now r
  | DECODING => set_decode_start now r
  | FINISHED | ABORTED => set_finished_at now r
  | WAITING => r
  end.

(** The object after a successful [transition]. *)
Definition transitioned (new_state : SeqState) (kwargs : list attr) (now : Z)
    (r : RequestInfo) : RequestInfo :=
  set_state new_state (foldl setattr (enter_phase new_state now r) kwargs).

Definition transition (rid : string) (new_state : SeqState)
    (kwargs : list attr) (now : Z) : method RequestTracker unit := λ tr,
  match lookup_request rid tr with
  | None => (Raise KeyError, tr)
  | Some (a, r) =>
      if validate_transition (state r) new_state
      then (Ok tt, update_object a (transitioned new_state kwargs now) tr)
      else (Raise AssertionError, tr)
  end.

(** [self._requests.values()], each reference with its current contents. *)
Definition requests_values (tr : RequestTracker) : list (handle * RequestInfo) :=
  omap (λ kv, match trk_heap tr !! kv.2 with
              | None => None | Some r => Some (kv.2, r) end)
       (trk_requests tr).

(** [sorted([r for r in ... if p(r)], key=...)]; the result is a list of
    references. *)
Definition collect_sorted (p : RequestInfo → bool) (key : RequestInfo → Z)
    (tr : RequestTracker) : list (handle * RequestInfo) :=
  sort_by Z.le (λ ar, key ar.2) (filter (λ ar, p ar.2 = true) (requests_values tr)).

Definition get_stuck_requests (timeout now : Z) (tr : RequestTracker) :=
  collect_sorted (is_stuck timeout now) kv_sent_at tr.
Definition get_stuck_prefills (timeout now : Z) (tr : RequestTracker) :=
  collect_sorted (is_prefill_stuck timeout now) prefill_start tr.
Definition get_stuck_recomputes (timeout now : Z) (tr : RequestTracker) :=
  collect_sorted (is_recompute_stuck timeout now) recompute_start tr.
Definition get_stuck_decodes (timeout now : Z) (tr : RequestTracker) :=
  collect_sorted (is_decode_stuck timeout now) decode_start tr.
Definition get_stuck_suffix_prefills (timeout now : Z) (tr : RequestTracker) :=
  collect_sorted (is_suffix_prefill_stuck timeout now)
    suffix_prefill_started_at tr.

Definition record_first_token (rid : string) (now : Z) (tr : RequestTracker) :
    bool * RequestTracker :=
  match lookup_request rid tr with
  | None => (false, tr)
  | Some (a, r) =>
      if decide (state r ≠ DECODING) then (false, tr)
      else if decide (first_token_at r ≠ 0%Z) then (false, tr)
      else (true, update_object a (set_first_token_at now) tr)
  end.

Definition iter_by_state (s : SeqState) (tr : RequestTracker) :
    list (handle * RequestInfo) :=
  filter (λ ar, state ar.2 = s) (requests_values tr).

Definition all_requests (tr : RequestTracker) : list (handle * RequestInfo) :=
  requests_values tr.

Definition tracker_len (tr : RequestTracker) : nat := length (trk_requests tr).

Definition tracker_contains (rid : string) (tr : RequestTracker) : bool :=
  dmem rid (trk_requests tr).

(** ** Slots and transfer tasks *)

Record InstanceSlot := mkInstanceSlot {
  slot_instance_id : string;
  slot_seq_id : option string;
  slot_block_table : list Z;
  slot_allocated_at : Z }.

Definition is_idle (s : InstanceSlot) : bool := bool_decide (slot_seq_id s = None).

Definition is_stale (timeout now : Z) (s : InstanceSlot) : bool :=
  match slot_seq_id s with
  | None => false
  | Some _ => bool_decide (now - slot_allocated_at s > timeout)%Z
  end.

(** A [TransferTask] object.  The governor compares tasks with [is]:
    [task_oid] is the address of the object. *)
Record TransferTask := mkTransferTask {
  task_oid : handle;
  task_req_id : string;
  task_src : string;
  task_dst : string;
  task_kv_size : Z;
  task_operation_id : string;
  task_src_epoch : string;
  task_dst_epoch : string;
  task_src_block_ids : list Z;
  task_dst_block_ids : list Z;
  task_target_request_ref : option handle;
  task_token_ids : list Z;
  task_sampling_params : handle;
  task_first_token : option Z;
  task_correctness_path : string;
  task_priority : Z;
  task_on_complete : bool }.

#[export] Instance TransferTask_eq_dec : EqDecision TransferTask.
Proof. solve_decision. Defined.

(** ** Lemmas on attribute writes *)

Lemma foldl_setattr {T} (p : RequestInfo → T) kwargs r :
  (∀ r a, p (setattr r a) = p r) → p (foldl setattr r kwargs) = p r.
Proof.
  intros Hp. revert r. induction kwargs as [|k kw IH]; intros r; simpl; [done|].
  by rewrite IH, Hp.
Qed.

(** Attributes that no keyword argument of [transition] writes. *)
Ltac setattr_frame :=
  rewrite ?foldl_setattr by (intros ? []; reflexivity).

Lemma transitioned_state s kw now r : state (transitioned s kw now r) = s.
Proof. reflexivity. Qed.

Lemma transitioned_req_id s kw now r :
  req_id (transitioned s kw now r) = req_id r.
Proof.
  change (req_id (foldl setattr (enter_phase s now r) kw) = req_id r).
  setattr_frame. by destruct s.
Qed.

Lemma transitioned_first_token_at s kw now r :
  first_token_at (transitioned s kw now r) = first_token_at r.
Proof.
  change (first_token_at (foldl setattr (enter_phase s now r) kw)
          = first_token_at r).
  setattr_frame. by destruct s.
Qed.

Lemma transitioned_finished_at s kw now r :
  finished_at (transitioned s kw now r)
  = if decide (s ∈ [FINISHED; ABORTED]) then now else finished_at r.
Proof.
  change (finished_at (foldl setattr (enter_phase s now r) kw)
          = if decide (s ∈ [FINISHED; ABORTED]) then now else finished_at r).
  setattr_frame. case_decide as Hs; destruct s; try done; set_solver.
Qed.

Lemma transitioned_dispatch_attempts s kw now r :
  dispatch_attempts (transitioned s kw now r)
  = (dispatch_attempts r + if decide (s = PREFILLING) then 1 else 0)%Z.
Proof.
  change (dispatch_attempts (foldl setattr (enter_phase s now r) kw)
    = (dispatch_attempts r + if decide (s = PREFILLING) then 1 else 0)%Z).
  setattr_frame. destruct s; simpl; lia.
Qed.

(** The clock of the phase a request is in. *)
Definition phase_clock (r : RequestInfo) : option Z :=
  match state r with
  | PREFILLING => Some (prefill_start r)
  | KV_PENDING => Some (kv_sent_at r)
  | RECOMPUTING => Some (recompute_start r)
  | AFFINITY_LOADING => Some (affinity_started_at r)
  | PREFIX_PREFILLING => Some (suffix_prefill_started_at r)
  | DECODING => Some (decode_start r)
  | FINISHED | ABORTED => Some (finished_at r)
  | WAITING => None
  end.

Lemma transitioned_clock s kw now r :
  s ≠ WAITING → phase_clock (transitioned s kw now r) = Some now.
Proof.
  intros Hs. unfold transitioned, phase_clock.
  destruct s; try done; simpl; setattr_frame; done.
Qed.

(** ** Invariants of the tracker *)

Record trk_wf (tr : RequestTracker) : Prop := {
  wf_requests : dwf (trk_requests tr);
  wf_objects : ∀ rid a, dget rid (trk_requests tr) = Some a →
    ∃ r, trk_heap tr !! a = Some r ∧ req_id r = rid;
  wf_cleanup : dwf (trk_cleanup_tasks tr) }.

(** What every request object satisfies from its creation on. *)
Record req_inv (r : RequestInfo) : Prop := {
  ri_attempts : state r ∈ [PREFILLING; KV_PENDING; RECOMPUTING] →
    (1 ≤ dispatch_attempts r)%Z;
  ri_nonneg : (0 ≤ dispatch_attempts r)%Z;
  ri_first_token : first_token_at r ≠ 0%Z →
    state r ∈ [DECODING; FINISHED; ABORTED];
  ri_finished : finished_at r ≠ 0%Z ↔ state r ∈ [FINISHED; ABORTED] }.

Definition trk_inv (tr : RequestTracker) : Prop :=
  trk_wf tr ∧ ∀ a r, trk_heap tr !! a = Some r → req_inv r.

Lemma lookup_request_Some rid tr a r :
  lookup_request rid tr = Some (a, r) ↔
  dget rid (trk_requests tr) = Some a ∧ trk_heap tr !! a = Some r.
Proof.
  unfold lookup_request, get.
  destruct (dget rid _) as [a'|]; [|naive_solver].
  destruct (trk_heap tr !! a') eqn:Ha; split; intros; simplify_eq; naive_solver.
Qed.

Lemma update_object_wf a f tr :
  (∀ r, req_id (f r) = req_id r) → trk_wf tr → trk_wf (update_object a f tr).
Proof.
  intros Hf [H1 H2 H3]. split; simpl; [done| |done].
  intros rid a' (r & Hr & Hid)%H2. rewrite lookup_alter.
  case_decide; subst; rewrite Hr; simpl; eauto.
Qed.

Lemma update_object_inv a f tr :
  (∀ r, req_id (f r) = req_id r) →
  (∀ r, trk_heap tr !! a = Some r → req_inv r → req_inv (f r)) →
  trk_inv tr → trk_inv (update_object a f tr).
Proof.
  intros Hid Hf [Hwf Hall]. split; [by apply update_object_wf|].
  intros a' r'. simpl. rewrite lookup_alter. case_decide as Ha; subst.
  - intros (r & Hr & ->)%fmap_Some. eauto.
  - intros. eauto.
Qed.

(** A tracked object belongs to one id only. *)
Lemma tracked_injective tr rid1 rid2 a :
  trk_wf tr → dget rid1 (trk_requests tr) = Some a →
  dget rid2 (trk_requests tr) = Some a → rid1 = rid2.
Proof.
  intros Hwf H1 H2.
  apply (wf_objects tr Hwf) in H1 as (r1 & Hr1 & Hid1).
  apply (wf_objects tr Hwf) in H2 as (r2 & Hr2 & Hid2). congruence.
Qed.

Lemma validate_transition_true s s' :
  validate_transition s s' = true ↔ s' ∈ VALID s ++ [ABORTED].
Proof. unfold validate_transition. by rewrite bool_decide_eq_true. Qed.

Lemma transitioned_req_inv s kw now r :
  (0 < now)%Z → validate_transition (state r) s = true →
  req_inv r → req_inv (transitioned s kw now r).
Proof.
  intros Hnow Hv [Ha Hn Hft Hfin].
  apply validate_transition_true in Hv.
  split; rewrite ?transitioned_state, ?transitioned_first_token_at,
           ?transitioned_finished_at, ?transitioned_dispatch_attempts.
  - intros Hs. case_decide; [lia|]. rewrite Z.add_0_r. apply Ha.
    destruct (state r), s; set_solver.
  - case_decide; lia.
  - intros Hf%Hft. destruct (state r), s; set_solver.
  - case_decide; [split; [done|lia]|].
    rewrite Hfin. destruct (state r), s; set_solver.
Qed.

(** ** Steps of the tracker

    Every way the modelled code changes a tracker or an object it holds: the
    tracker's methods, the creation of a request, and the two attribute
    writes the schedule loop makes directly when it retries a dispatch or a
    recompute. *)
Inductive trk_step (tr : RequestTracker) : RequestTracker → Prop :=
| step_alloc rid now : trk_step tr (alloc (new_RequestInfo rid now) tr).2
| step_add a tr' : add a tr = (Ok tt, tr') → trk_step tr tr'
| step_remove rid : trk_step tr (remove rid tr).2
| step_publish rid o tr' :
    set_publish_outcome_of rid o tr = (Ok tt, tr') → trk_step tr tr'
| step_transition rid s kw now tr' : (0 < now)%Z →
    transition rid s kw now tr = (Ok tt, tr') → trk_step tr tr'
| step_first_token rid now : (0 < now)%Z →
    trk_step tr (record_first_token rid now tr).2
| step_cleanup rid t : trk_step tr (get_or_create_cleanup_task rid t tr).2
| step_clear rid t : trk_step tr (clear_cleanup_task rid t tr)
| step_retry_prefill a now :
    trk_step tr (update_object a (λ r,
      set_dispatch_attempts (dispatch_attempts r + 1)%Z
        (set_prefill_start now r)) tr)
| step_retry_recompute a now :
    trk_step tr (update_object a (set_recompute_start now) tr)
| step_output_query a now :
    trk_step tr (update_object a (set_last_output_query_at now) tr).

Lemma new_RequestInfo_inv rid now : req_inv (new_RequestInfo rid now).
Proof. split; simpl; set_solver by lia. Qed.

Lemma trk_step_inv tr tr' : trk_step tr tr' → trk_inv tr → trk_inv tr'.
Proof.
  intros Hstep [Hwf Hall]. pose proof Hwf as [H1 H2 H3].
  destruct Hstep as [rid now|a tr' Ha|rid|rid o tr' Ho|rid s kw now tr' Hn Ht
    |rid now Hn|rid t|rid t|a now|a now|a now].
  - (* alloc *)
    simpl. pose proof (is_fresh (dom (trk_heap tr))) as Hf.
    set (b := fresh (dom (trk_heap tr))) in *.
    apply not_elem_of_dom in Hf. split.
    + split; simpl; [done| |done]. intros rid' a' (r & Hr & Hid)%H2.
      exists r. rewrite lookup_insert_ne by congruence. done.
    + simpl. intros a' r'. rewrite lookup_insert.
      case_decide; intros; simplify_eq; eauto using new_RequestInfo_inv.
  - (* add *)
    unfold add in Ha. destruct (trk_heap tr !! a) as [r|] eqn:Hr; [|done].
    destruct (dmem (req_id r) (trk_requests tr)); simplify_eq.
    split; [|done]. split; simpl; [by apply dwf_dset| |done].
    intros rid a'. rewrite dget_dset. case_decide; intros; simplify_eq; eauto.
  - (* remove *)
    split; [|done]. split; simpl; [by apply dwf_dpop| |done].
    intros rid' a'. rewrite dget_dpop. case_decide; intros; simplify_eq; eauto.
  - (* publish outcome *)
    unfold set_publish_outcome_of in Ho. case_decide; [|done].
    destruct (get rid tr); simplify_eq.
    apply update_object_inv; [done| |done]. by intros r _ [].
  - (* transition *)
    unfold transition in Ht.
    destruct (lookup_request rid tr) as [[a r]|] eqn:Hl; [|done].
    apply lookup_request_Some in Hl as [Hg Hr].
    destruct (validate_transition (state r) s) eqn:Hv; simplify_eq.
    apply update_object_inv; [apply transitioned_req_id| |done].
    intros r' Hr' Hri. simplify_eq. by apply transitioned_req_inv.
  - (* first token *)
    unfold record_first_token.
    destruct (lookup_request rid tr) as [[a r]|] eqn:Hl; [|done].
    apply lookup_request_Some in Hl as [Hg Hr].
    case_decide as Hs; [done|]. case_decide; [done|]. simpl.
    apply update_object_inv; [done| |done].
    intros r' Hr' [? ? ? ?]. simplify_eq. split; simpl; [done..| |done].
    intros _. rewrite Hs. set_solver.
  - unfold get_or_create_cleanup_task.
    destruct (dget rid (trk_cleanup_tasks tr)); [done|].
    split; [|done]. split; simpl; [done..|by apply dwf_dset].
  - unfold clear_cleanup_task. case_decide; [|done].
    split; [|done]. split; simpl; [done..|by apply dwf_dpop].
  - apply update_object_inv; [done| |done].
    intros r _ [Ha Hn ? ?]. split; simpl; [intros ?%Ha; lia|lia|done|done].
  - apply update_object_inv; [done| |done]. by intros r _ [].
  - apply update_object_inv; [done| |done]. by intros r _ [].
Qed.

Lemma empty_tracker_inv : trk_inv empty_tracker.
Proof. split; [split; simpl; try apply dwf_nil; done|]. done. Qed.

#[export] Hint Resolve empty_tracker_inv trk_step_inv : prism.

(** ** Histories of one request *)

(** [history s v]: a request that started WAITING is in state [s] after
    validated transitions, having visited the states [v]. *)
Inductive history : SeqState → list SeqState → Prop :=
| history_start : history WAITING [WAITING]
| history_step s s' v :
    history s v → validate_transition s s' = true → history s' (s' :: v).

(** What the visited states must include, by current state. *)
Definition history_inv (s : SeqState) (v : list SeqState) : Prop :=
  let cold := PREFILLING ∈ v ∧ KV_PENDING ∈ v in
  let warm := AFFINITY_LOADING ∈ v ∧ PREFIX_PREFILLING ∈ v in
  match s with
  | WAITING | ABORTED => True
  | PREFILLING => PREFILLING ∈ v
  | KV_PENDING | RECOMPUTING => cold
  | AFFINITY_LOADING => AFFINITY_LOADING ∈ v
  | PREFIX_PREFILLING => warm
  | DECODING | FINISHED => DECODING ∈ v ∧ (cold ∨ warm)
  end.

Lemma history_inv_holds s v : history s v → history_inv s v.
Proof.
  induction 1 as [|s s' v Hh IH Hv]; [done|].
  apply validate_transition_true in Hv.
  destruct s, s'; simpl in *; set_solver.
Qed.

(** ** Properties *)

(** a request reaches FINISHED only after decoding, and only after a
    completed control-plane path: either prefill followed by a KV transfer,
    or an affinity load followed by a suffix prefill; and no transition
    leaves a terminal state except to ABORTED. *)
Theorem lifecycle_phases v :
  history FINISHED v →
  DECODING ∈ v
  ∧ ((PREFILLING ∈ v ∧ KV_PENDING ∈ v)
     ∨ (AFFINITY_LOADING ∈ v ∧ PREFIX_PREFILLING ∈ v))
  ∧ ∀ s', validate_transition FINISHED s' = true → s' = ABORTED.
Proof.
  intros Hh%history_inv_holds. destruct Hh as [Hd Hp].
  split_and!; [done|done|]. intros s'. by destruct s'.
Qed.

(** every reachable tracker is well formed (each tracked id names a live
    object carrying that id, ids are unique) and every request object keeps
    its bookkeeping consistent with its state: dispatched phases have at
    least one recorded dispatch attempt, a first-token time exists only from
    DECODING on, and a finish time exists exactly in the terminal states. *)
Theorem tracker_reachable_inv tr :
  rtc trk_step empty_tracker tr → trk_inv tr.
Proof.
  intros Hr. pose proof empty_tracker_inv as Hi. revert Hi.
  induction Hr; eauto with prism.
Qed.

(** [transition] on every branch: an unknown id raises KeyError and an
    illegal move raises AssertionError, both leaving the tracker unchanged;
    a legal move rewrites exactly the named object, puts it in the new state
    with that phase's clock restarted, whatever keyword arguments come with
    it, and leaves every other tracked request alone. *)
Theorem transition_spec rid s kw now tr :
  trk_wf tr →
  match lookup_request rid tr with
  | None => transition rid s kw now tr = (Raise KeyError, tr)
  | Some (a, r) =>
      if validate_transition (state r) s then
        ∃ tr' r', transition rid s kw now tr = (Ok tt, tr')
          ∧ lookup_request rid tr' = Some (a, r')
          ∧ state r' = s ∧ req_id r' = rid
          ∧ (s ≠ WAITING → phase_clock r' = Some now)
          ∧ trk_requests tr' = trk_requests tr
          ∧ ∀ rid', rid' ≠ rid → lookup_request rid' tr' = lookup_request rid' tr
      else transition rid s kw now tr = (Raise AssertionError, tr)
  end.
Proof.
  intros Hwf. unfold transition.
  destruct (lookup_request rid tr) as [[a r]|] eqn:Hl; [|done].
  destruct (validate_transition (state r) s) eqn:Hv; [|done].
  apply lookup_request_Some in Hl as [Hg Hr].
  eexists _, (transitioned s kw now r). split_and!; try done.
  - apply lookup_request_Some. split; [done|]. simpl.
    rewrite lookup_alter_eq, Hr. done.
  - rewrite transitioned_req_id.
    destruct (wf_objects tr Hwf rid a Hg) as (r' & Hr' & Hid). congruence.
  - apply transitioned_clock.
  - intros rid' Hne. unfold lookup_request, get. simpl.
    destruct (dget rid' (trk_requests tr)) as [a'|] eqn:Hg'; [|done].
    rewrite lookup_alter_ne; [done|]. intros <-.
    by apply Hne, (tracked_injective tr _ _ a).
Qed.

Lemma elem_of_requests_values a r tr :
  (a, r) ∈ requests_values tr ↔
  ∃ rid, (rid, a) ∈ trk_requests tr ∧ trk_heap tr !! a = Some r.
Proof.
  unfold requests_values. rewrite list_elem_of_omap. split.
  - intros ([rid a'] & Hin & Hm). simpl in Hm.
    destruct (trk_heap tr !! a') eqn:Ha; simplify_eq. eauto.
  - intros (rid & Hin & Ha). exists (rid, a). simpl. rewrite Ha. done.
Qed.

Lemma elem_of_collect_sorted p key a r tr :
  trk_wf tr →
  (a, r) ∈ collect_sorted p key tr ↔
  lookup_request (req_id r) tr = Some (a, r) ∧ p r = true.
Proof.
  intros Hwf. unfold collect_sorted. rewrite elem_of_sort_by, list_elem_of_filter.
  rewrite elem_of_requests_values, lookup_request_Some. simpl. split.
  - intros [Hp (rid & Hin & Hr)]. split; [|done].
    apply dget_Some in Hin; [|apply Hwf]. split; [|done].
    destruct (wf_objects tr Hwf rid a Hin) as (r' & Hr' & Hid).
    simplify_eq. done.
  - intros [[Hg Hr] Hp]. split; [done|]. exists (req_id r).
    split; [by apply dget_Some_1|done].
Qed.

(** the deadline scans return exactly the tracked requests that sit in
    the scanned phase for longer than the timeout; the KV scan lists the
    oldest transfer first and keeps insertion order among equals. *)
Theorem stuck_scan_spec timeout now tr a r :
  trk_wf tr →
  ((a, r) ∈ get_stuck_requests timeout now tr ↔
     lookup_request (req_id r) tr = Some (a, r)
     ∧ state r = KV_PENDING ∧ (now - kv_sent_at r > timeout)%Z)
  ∧ ((a, r) ∈ get_stuck_prefills timeout now tr ↔
     lookup_request (req_id r) tr = Some (a, r)
     ∧ state r = PREFILLING ∧ (now - prefill_start r > timeout)%Z)
  ∧ ((a, r) ∈ get_stuck_recomputes timeout now tr ↔
     lookup_request (req_id r) tr = Some (a, r)
     ∧ state r = RECOMPUTING ∧ (now - recompute_start r > timeout)%Z)
  ∧ ((a, r) ∈ get_stuck_decodes timeout now tr ↔
     lookup_request (req_id r) tr = Some (a, r)
     ∧ state r = DECODING ∧ (now - decode_start r > timeout)%Z)
  ∧ ((a, r) ∈ get_stuck_suffix_prefills timeout now tr ↔
     lookup_request (req_id r) tr = Some (a, r)
     ∧ state r = PREFIX_PREFILLING
     ∧ (now - suffix_prefill_started_at r > timeout)%Z)
  ∧ StronglySorted (λ x y, (kv_sent_at x.2 ≤ kv_sent_at y.2)%Z)
      (get_stuck_requests timeout now tr)
  ∧ (∀ k, filter (λ x, kv_sent_at x.2 = k) (get_stuck_requests timeout now tr)
       = filter (λ x, kv_sent_at x.2 = k)
           (filter (λ x, is_stuck timeout now x.2 = true) (requests_values tr))).
Proof.
  intros Hwf. split_and!.
  6: apply (sort_by_sorted Z.le (λ ar, kv_sent_at ar.2)).
  6: intros k; apply (sort_by_stable Z.le (λ ar, kv_sent_at ar.2)).
  all: unfold get_stuck_requests, get_stuck_prefills, get_stuck_recomputes,
         get_stuck_decodes, get_stuck_suffix_prefills, is_stuck,
         is_prefill_stuck, is_recompute_stuck, is_decode_stuck,
         is_suffix_prefill_stuck;
       rewrite elem_of_collect_sorted by done; f_equiv;
       case_decide; rewrite ?bool_decide_eq_true; naive_solver.
Qed.

(** a first token is recorded at most once and only while decoding: when
    [record_first_token] returns true the request was DECODING with no time
    recorded and now carries [now]; a later call for it returns false and
    changes nothing; a false return changes nothing. *)
Theorem record_first_token_once rid now now' tr b tr' :
  (0 < now)%Z → record_first_token rid now tr = (b, tr') →
  if b then
    (∃ a r, lookup_request rid tr = Some (a, r)
       ∧ state r = DECODING ∧ first_token_at r = 0%Z
       ∧ lookup_request rid tr' = Some (a, set_first_token_at now r))
    ∧ record_first_token rid now' tr' = (false, tr')
  else tr' = tr.
Proof.
  intros Hn Hr. unfold record_first_token in Hr.
  destruct (lookup_request rid tr) as [[a r]|] eqn:Hl; simplify_eq; [|done].
  case_decide as Hs; simplify_eq; [done|].
  case_decide as Hf; simplify_eq; [done|].
  pose proof Hl as [Hg Ha]%lookup_request_Some.
  assert (lookup_request rid (update_object a (set_first_token_at now) tr)
          = Some (a, set_first_token_at now r)) as Hl'.
  { apply lookup_request_Some. split; [done|]. simpl.
    rewrite lookup_alter_eq, Ha. done. }
  split; [eauto 10|]. unfold record_first_token. rewrite Hl'. simpl.
  rewrite decide_False by congruence. rewrite decide_True by lia. done.
Qed.

(** ** Witnesses *)

(** A tracker holding one request [r0], moved to PREFILLING at time 10. *)
Definition demo_tracker : RequestTracker :=
  let '(a, tr) := alloc (new_RequestInfo "r0" 5) empty_tracker in
  let tr := (add a tr).2 in
  (transition "r0" PREFILLING [kw_prefill_instance "p0"] 10 tr).2.

Lemma demo_tracker_reachable : rtc trk_step empty_tracker demo_tracker.
Proof.
  eapply rtc_l; [apply (step_alloc _ "r0" 5)|].
  eapply rtc_l; [apply (step_add _ 0); vm_compute; reflexivity|].
  eapply rtc_l; [|apply rtc_refl].
  eapply (step_transition _ "r0" PREFILLING [kw_prefill_instance "p0"] 10);
    [lia|vm_compute; reflexivity].
Qed.

Lemma demo_tracker_wf : trk_wf demo_tracker.
Proof.
  split.
  - vm_compute. repeat constructor; set_solver.
  - intros rid a. vm_compute. intros H.
    repeat case_match; simplify_eq; eexists; split; reflexivity.
  - constructor.
Qed.

Lemma lifecycle_phases_witness :
  history FINISHED
    [FINISHED; DECODING; KV_PENDING; PREFILLING; WAITING]
  ∧ DECODING ∈ [FINISHED; DECODING; KV_PENDING; PREFILLING; WAITING].
Proof.
  assert (history FINISHED
    [FINISHED; DECODING; KV_PENDING; PREFILLING; WAITING]) as H.
  { apply (history_step DECODING); [|reflexivity].
    apply (history_step KV_PENDING); [|reflexivity].
    apply (history_step PREFILLING); [|reflexivity].
    apply (history_step WAITING); [|reflexivity]. constructor. }
  split; [exact H|]. apply (lifecycle_phases _ H).
Defined.

Lemma tracker_reachable_inv_witness : trk_inv demo_tracker.
Proof. apply (tracker_reachable_inv _ demo_tracker_reachable). Defined.

Lemma transition_spec_witness :
  ∃ tr' r', transition "r0" KV_PENDING [kw_kv_size_bytes 64] 20 demo_tracker
            = (Ok tt, tr')
    ∧ lookup_request "r0" tr' = Some (0, r')
    ∧ state r' = KV_PENDING ∧ phase_clock r' = Some 20%Z.
Proof.
  pose proof (transition_spec "r0" KV_PENDING [kw_kv_size_bytes 64] 20
                demo_tracker demo_tracker_wf) as H.
  destruct H as (tr' & r' & Ht & Hl & Hs & _ & Hc & _).
  exists tr', r'. split_and!; [exact Ht|exact Hl|exact Hs|]. by apply Hc.
Defined.

Lemma stuck_scan_spec_witness :
  (0, transitioned PREFILLING [kw_prefill_instance "p0"] 10
        (new_RequestInfo "r0" 5)) ∈ get_stuck_prefills 30 50 demo_tracker.
Proof.
  eapply (stuck_scan_spec 30 50 demo_tracker 0); [apply demo_tracker_wf|].
  split_and!; vm_compute; reflexivity.
Defined.

Definition decoding_tracker : RequestTracker :=
  (transition "r0" DECODING [] 30
     (transition "r0" KV_PENDING [] 20 demo_tracker).2).2.

Lemma record_first_token_once_witness :
  record_first_token "r0" 41 (record_first_token "r0" 40 decoding_tracker).2
  = (false, (record_first_token "r0" 40 decoding_tracker).2).
Proof.
  apply (record_first_token_once "r0" 40 41 decoding_tracker true
           (record_first_token "r0" 40 decoding_tracker).2);
    [lia|vm_compute; reflexivity].
Defined.
