(* ===== verification/Scheduler.v ===== *)
(** * Cluster-level PD scheduler (scheduler/scheduler.py)

    The slot and load view of the prefill/decode instances, the leases on
    decode slots, and the quarantine fence.  Floats: usage ratios and
    watermarks are rationals, instants and durations integer nanoseconds;
    float rounding is not modelled.  [time.monotonic()] is the argument
    [now]; [secrets.token_hex]/[token_urlsafe] is the argument [token].  The
    dictionaries whose order the code observes are [odict]s. *)

From S2P Require Import Prelude PyDict.
From stdpp Require Import prelude gmap strings.
From Stdlib Require Import QArith_base.

Local Open Scope Z_scope.

(** ** The interface to the worker registry

    The scheduler and the governor only ask the registry three questions. *)
Class RoutingGate (G : Type) : Type := {
  can_route : G → string → bool;
  can_govern : G → string → bool;
  world_fresh : G → bool }.

(** What a registry promises: one admission test behind every question, and
    a fresh world admits each member of the fixed topology. *)
Class RoutingGateLaws (G : Type) `{RoutingGate G} (members : list string) : Prop := {
  gate_same : ∀ g i, can_govern g i = can_route g i;
  gate_fresh : ∀ g i, world_fresh g = true → i ∈ members → can_route g i = true }.

(** ** Data *)

Definition evidence : Type := string * string * string * string.

Record QuarantineRecord := mkQuarantineRecord {
  qr_instance_id : string;
  qr_instance_epoch : string;
  qr_role : string;
  qr_reconciliation_token : string;
  qr_quarantined_at : Z;
  qr_uncertain_transfers : list evidence;
  qr_uncertain_dispatches : list evidence }.

Record KVUsageSample := mkKVUsageSample {
  ratio : Q;
  sample_epoch : string;
  sampled_at : Z }.

Inductive LeaseState : Type := RESERVED | ACTIVE | RELEASED | QUARANTINED.

#[export] Instance LeaseState_eq_dec : EqDecision LeaseState.
Proof. solve_decision. Defined.

Record DecodeSlotLease := mkDecodeSlotLease {
  lease_id : string;
  lease_operation_id : string;
  lease_req_id : string;
  lease_instance_id : string;
  lease_state : LeaseState;
  lease_reserved_at : Z;
  lease_release_cleanup_id : option string }.

#[export] Instance DecodeSlotLease_eta : Eta DecodeSlotLease := λ r,
  mkDecodeSlotLease (lease_id r) (lease_operation_id r) (lease_req_id r)
    (lease_instance_id r) (lease_state r) (lease_reserved_at r)
    (lease_release_cleanup_id r).

Definition set_lease_state (v : LeaseState) (r : DecodeSlotLease) : DecodeSlotLease :=
  ltac:(with_field r lease_state v).
Definition set_release_cleanup_id (v : option string) (r : DecodeSlotLease) :
    DecodeSlotLease := ltac:(with_field r lease_release_cleanup_id v).

(** The configuration keys the scheduler reads (defaults in [config.get]). *)
Record SchedulerConfig := mkSchedulerConfig {
  cfg_high_watermark : Q;
  cfg_kv_usage_stale_after : Z;
  cfg_kv_per_instance_bytes : Z;
  cfg_min_decode_instances : Z;
  cfg_max_decode_instances : Z }.

Definition default_scheduler_config : SchedulerConfig :=
  mkSchedulerConfig (85 # 100) (10 * 10 ^ 9) (56 * 1024 ^ 3) 1 64.

Record PDScheduler := mkPDScheduler {
  config : SchedulerConfig;
  prefill_load : odict string Z;
  decode_free_slots : odict string Z;
  decode_max_slots : odict string Z;
  slot_leases : odict string DecodeSlotLease;
  kv_usage : gmap string KVUsageSample;
  instance_epochs : gmap string string;
  instance_roles : gmap string string;
  quarantined : gmap string QuarantineRecord }.

#[export] Instance PDScheduler_eta : Eta PDScheduler := λ r,
  mkPDScheduler (config r) (prefill_load r) (decode_free_slots r)
    (decode_max_slots r) (slot_leases r) (kv_usage r) (instance_epochs r)
    (instance_roles r) (quarantined r).

Definition set_prefill_load (v : odict string Z) (r : PDScheduler) : PDScheduler :=
  ltac:(with_field r prefill_load v).
Definition set_free (v : odict string Z) (r : PDScheduler) : PDScheduler :=
  ltac:(with_field r decode_free_slots v).
Definition set_max (v : odict string Z) (r : PDScheduler) : PDScheduler :=
  ltac:(with_field r decode_max_slots v).
Definition set_leases (v : odict string DecodeSlotLease) (r : PDScheduler) :
    PDScheduler := ltac:(with_field r slot_leases v).
Definition set_kv_usage (v : gmap string KVUsageSample) (r : PDScheduler) :
    PDScheduler := ltac:(with_field r kv_usage v).
Definition set_epochs (v : gmap string string) (r : PDScheduler) : PDScheduler :=
  ltac:(with_field r instance_epochs v).
Definition set_roles (v : gmap string string) (r : PDScheduler) : PDScheduler :=
  ltac:(with_field r instance_roles v).
Definition set_quarantined (v : gmap string QuarantineRecord) (r : PDScheduler) :
    PDScheduler := ltac:(with_field r quarantined v).

Definition init_scheduler (cfg : SchedulerConfig) : PDScheduler :=
  mkPDScheduler cfg [] [] [] [] ∅ ∅ ∅ ∅.

(** ** Registration *)

Definition register_instance (instance_id role : string) (max_slots : Z)
    (instance_epoch : string) (active_request_ids : list string) :
    method PDScheduler unit := λ s,
  if decide (is_Some (quarantined s !! instance_id))
  then (Raise QuarantinedInstanceError, s)
  else if bool_decide (active_request_ids ≠ []) then (Raise ValueError, s)
  else
    let epoch := if truthy instance_epoch then instance_epoch
                 else ("legacy:" +:+ instance_id)%string in
    match instance_epochs s !! instance_id with
    | Some existing =>
        if decide (existing = epoch) then (Ok tt, s) else (Raise ValueError, s)
    | None =>
        let finish s := set_roles (<[instance_id := role]> (instance_roles s))
                          (set_epochs (<[instance_id := epoch]> (instance_epochs s)) s) in
        if decide (role = "prefill") then
          (Ok tt, finish (set_prefill_load (dset instance_id 0 (prefill_load s)) s))
        else if decide (role = "decode") then
          if bool_decide (0 < max_slots) then
            (Ok tt, finish (set_max (dset instance_id max_slots (decode_max_slots s))
               (set_free (dset instance_id max_slots (decode_free_slots s)) s)))
          else (Raise AssertionError, s)
        else (Raise ValueError, s)
    end.

Definition deregister_instance (instance_id : string) (s : PDScheduler) : PDScheduler :=
  set_roles (delete instance_id (instance_roles s))
  (set_epochs (delete instance_id (instance_epochs s))
  (set_kv_usage (delete instance_id (kv_usage s))
  (set_max (dpop instance_id (decode_max_slots s))
  (set_free (dpop instance_id (decode_free_slots s))
  (set_prefill_load (dpop instance_id (prefill_load s)) s))))).

Definition opt_list {A} (o : option A) : list A :=
  match o with Some x => [x] | None => [] end.

(** [x is None or x in l] *)
Definition known (x : option evidence) (l : list evidence) : bool :=
  match x with None => true | Some e => bool_decide (e ∈ l) end.

Definition quarantine_instance (instance_id : string)
    (uncertain_transfer uncertain_dispatch : option evidence)
    (token : string) (now : Z) (s : PDScheduler) :
    QuarantineRecord * PDScheduler :=
  match quarantined s !! instance_id with
  | Some existing =>
      let transfer_known := known uncertain_transfer (qr_uncertain_transfers existing) in
      let dispatch_known := known uncertain_dispatch (qr_uncertain_dispatches existing) in
      if transfer_known && dispatch_known then (existing, s)
      else
        let record := mkQuarantineRecord
          (qr_instance_id existing) (qr_instance_epoch existing)
          (qr_role existing) (qr_reconciliation_token existing)
          (qr_quarantined_at existing)
          (qr_uncertain_transfers existing
             ++ if transfer_known then [] else opt_list uncertain_transfer)
          (qr_uncertain_dispatches existing
             ++ if dispatch_known then [] else opt_list uncertain_dispatch) in
        (record, set_quarantined (<[instance_id := record]> (quarantined s)) s)
  | None =>
      let record := mkQuarantineRecord instance_id
        (default "unknown" (instance_epochs s !! instance_id))
        (default "unknown" (instance_roles s !! instance_id))
        token now (opt_list uncertain_transfer) (opt_list uncertain_dispatch) in
      (record,
       set_quarantined (<[instance_id := record]> (quarantined s))
       (set_kv_usage (delete instance_id (kv_usage s))
       (set_max (dpop instance_id (decode_max_slots s))
       (set_free (dpop instance_id (decode_free_slots s))
       (set_prefill_load (dpop instance_id (prefill_load s)) s)))))
  end.

(** The checks of [reconcile_instance], in the code's order; every one raises
    [ValueError]. *)
Definition reconcile_admissible (record : QuarantineRecord)
    (instance_epoch reconciliation_token role : string) (max_slots : Z)
    (active_request_ids active_transfers pending_dispatches : list string) : bool :=
  bool_decide (reconciliation_token = qr_reconciliation_token record)
  && bool_decide (active_request_ids = [])
  && bool_decide (active_transfers = [])
  && bool_decide (pending_dispatches = [])
  && truthy instance_epoch
  && bool_decide (role ∈ ["prefill"; "decode"])
  && negb (bool_decide (qr_role record ≠ "unknown") && bool_decide (role ≠ qr_role record))
  && negb (bool_decide (role = "decode") && bool_decide (max_slots ≤ 0)).

Definition reconcile_instance (instance_id instance_epoch reconciliation_token
    role : string) (max_slots : Z)
    (active_request_ids active_transfers pending_dispatches : list string) :
    method PDScheduler unit := λ s,
  match quarantined s !! instance_id with
  | None => (Raise ValueError, s)
  | Some record =>
      if reconcile_admissible record instance_epoch reconciliation_token role
           max_slots active_request_ids active_transfers pending_dispatches
      then
        let s1 := if decide (role = "prefill")
          then set_prefill_load (dset instance_id 0 (prefill_load s)) s
          else set_max (dset instance_id max_slots (decode_max_slots s))
                 (set_free (dset instance_id max_slots (decode_free_slots s)) s) in
        (Ok tt,
         set_quarantined (delete instance_id (quarantined s1))
         (set_roles (<[instance_id := role]> (instance_roles s1))
         (set_epochs (<[instance_id := instance_epoch]> (instance_epochs s1)) s1)))
      else (Raise ValueError, s)
  end.

Definition quarantine_record (instance_id : string) (s : PDScheduler) :
    option QuarantineRecord := quarantined s !! instance_id.

(** ** Selection *)

Definition sample_is_fresh (instance_id : string) (now : Z) (s : PDScheduler) : bool :=
  match kv_usage s !! instance_id with
  | None => false
  | Some sample =>
      bool_decide (Some (sample_epoch sample) = instance_epochs s !! instance_id)
      && bool_decide (now - sampled_at sample
                      ≤ cfg_kv_usage_stale_after (config s))
  end.

(** [required is None or x == required] *)
Definition matches_required (required : option string) (x : string) : bool :=
  match required with None => true | Some r => bool_decide (x = r) end.

Section gated.
Context {G : Type} `{RoutingGate G}.

Definition registry_allows (reg : option G) (instance_id : string) : bool :=
  match reg with None => true | Some g => can_route g instance_id end.

Definition admission_ready (reg : option G) : bool :=
  match reg with None => true | Some g => world_fresh g end.

Definition prefill_candidates (reg : option G) (required : option string)
    (s : PDScheduler) : list string :=
  filter (λ i, registry_allows reg i && matches_required required i = true)
    (dkeys (prefill_load s)).

Definition load_of (s : PDScheduler) (i : string) : Z :=
  default 0 (dget i (prefill_load s)).

Definition pick_prefill_instance (reg : option G) (required : option string)
    (s : PDScheduler) : option string * PDScheduler :=
  match prefill_candidates reg required s with
  | [] => (None, s)
  | c :: cs =>
      let best := first_min (load_of s) c cs in
      (Some best,
       set_prefill_load (dset best (load_of s best + 1) (prefill_load s)) s)
  end.

(** The filter of [pick_decode_instance] on one [(iid, slots)] item. *)
Definition decode_candidate (reg : option G) (required : option string)
    (now : Z) (s : PDScheduler) (item : string * Z) : bool :=
  bool_decide (0 < item.2)
  && registry_allows reg item.1
  && sample_is_fresh item.1 now s
  && match kv_usage s !! item.1 with
     | None => false
     | Some sample => negb (Qle_bool (cfg_high_watermark (config s)) (ratio sample))
     end
  && matches_required required item.1.

Definition decode_candidates (reg : option G) (required : option string)
    (now : Z) (s : PDScheduler) : list (string * Z) :=
  filter (λ item, decode_candidate reg required now s item = true)
    (decode_free_slots s).

Definition free_of (s : PDScheduler) (i : string) : Z :=
  default 0 (dget i (decode_free_slots s)).

Definition pick_decode_instance (reg : option G) (required : option string)
    (now : Z) (s : PDScheduler) : option string * PDScheduler :=
  match decode_candidates reg required now s with
  | [] => (None, s)
  | c :: cs =>
      let best := (first_max snd c cs).1 in
      (Some best,
       set_free (dset best (free_of s best - 1) (decode_free_slots s)) s)
  end.

Definition reserve_decode_slot (reg : option G)
    (instance_id rid operation_id token : string) (now : Z) :
    method PDScheduler (option DecodeSlotLease) := λ s,
  if truthy operation_id then
    match dget operation_id (slot_leases s) with
    | Some existing =>
        (Ok (if decide (lease_state existing ≠ RELEASED) then Some existing
             else None), s)
    | None =>
        if negb (registry_allows reg instance_id)
           || bool_decide (free_of s instance_id ≤ 0)
        then (Ok None, s)
        else
          let lease := mkDecodeSlotLease token operation_id rid instance_id
                         RESERVED now None in
          (Ok (Some lease),
           set_leases (dset operation_id lease (slot_leases s))
           (set_free (dset instance_id (free_of s instance_id - 1)
                        (decode_free_slots s)) s))
    end
  else (Raise AssertionError, s).
End gated.

(** ** Leases *)

Definition adopt_picked_decode_slot (instance_id rid operation_id token : string)
    (now : Z) : method PDScheduler DecodeSlotLease := λ s,
  if negb (truthy operation_id) then (Raise AssertionError, s)
  else if dmem operation_id (slot_leases s) then (Raise ValueError, s)
  else if negb (dmem instance_id (decode_free_slots s)) then (Raise ValueError, s)
  else
    let lease := mkDecodeSlotLease token operation_id rid instance_id
                   RESERVED now None in
    (Ok lease, set_leases (dset operation_id lease (slot_leases s)) s).

(** A write to the lease object stored under [operation_id]. *)
Definition put_lease (operation_id : string) (l : DecodeSlotLease)
    (s : PDScheduler) : PDScheduler :=
  set_leases (dset operation_id l (slot_leases s)) s.

(** The slot increment shared by the release paths:
    [min(maximum, free + 1)] when the instance is still known. *)
Definition return_slot (instance_id : string) : method PDScheduler unit := λ s,
  match dget instance_id (decode_free_slots s) with
  | None => (Ok tt, s)
  | Some free =>
      match dget instance_id (decode_max_slots s) with
      | None => (Raise KeyError, s)
      | Some maximum =>
          (Ok tt, set_free (dset instance_id (Z.min maximum (free + 1))
                              (decode_free_slots s)) s)
      end
  end.

(** [max(0, free - 1)] when the instance is still known. *)
Definition retake_slot (instance_id : string) (s : PDScheduler) : PDScheduler :=
  match dget instance_id (decode_free_slots s) with
  | None => s
  | Some free =>
      set_free (dset instance_id (Z.max 0 (free - 1)) (decode_free_slots s)) s
  end.

Definition commit_decode_slot (operation_id : string) : method PDScheduler unit := λ s,
  match dget operation_id (slot_leases s) with
  | None => (Raise KeyError, s)
  | Some lease =>
      if decide (lease_state lease = RESERVED)
      then (Ok tt, put_lease operation_id (set_lease_state ACTIVE lease) s)
      else (Ok tt, s)
  end.

Definition release_decode_slot (operation_id : string) : method PDScheduler bool := λ s,
  match dget operation_id (slot_leases s) with
  | None => (Ok false, s)
  | Some lease =>
      match lease_state lease with
      | RELEASED | QUARANTINED => (Ok false, s)
      | ACTIVE => (Raise ValueError, s)
      | RESERVED =>
          (_ ← return_slot (lease_instance_id lease); mret true)
            (put_lease operation_id (set_lease_state RELEASED lease) s)
      end
  end.

Definition quarantine_decode_slot (operation_id : string) : method PDScheduler unit := λ s,
  match dget operation_id (slot_leases s) with
  | None => (Raise KeyError, s)
  | Some lease =>
      if decide (lease_state lease = RELEASED) then (Raise ValueError, s)
      else (Ok tt, put_lease operation_id (set_lease_state QUARANTINED lease) s)
  end.

Definition release_quarantined_decode_slot (operation_id : string)
    (expected_lease cleanup_id : option string) : method PDScheduler bool := λ s,
  match dget operation_id (slot_leases s) with
  | None => (Ok false, s)
  | Some lease =>
      if match expected_lease with
         | Some l => bool_decide (lease_id lease ≠ l) | None => false end
      then (Raise ValueError, s)
      else match lease_state lease with
      | RELEASED =>
          if bool_decide (is_Some cleanup_id)
             && bool_decide (lease_release_cleanup_id lease ≠ cleanup_id)
          then (Raise ValueError, s) else (Ok false, s)
      | RESERVED | ACTIVE => (Ok false, s)
      | QUARANTINED =>
          (_ ← return_slot (lease_instance_id lease); mret true)
            (put_lease operation_id
               (set_release_cleanup_id cleanup_id (set_lease_state RELEASED lease)) s)
      end
  end.

Definition restore_quarantined_decode_slot
    (operation_id expected_lease cleanup_id : string) : method PDScheduler unit := λ s,
  match dget operation_id (slot_leases s) with
  | None => (Raise KeyError, s)
  | Some lease =>
      if decide (lease_id lease ≠ expected_lease) then (Raise ValueError, s)
      else if decide (lease_state lease = RELEASED
                      ∧ lease_release_cleanup_id lease = Some cleanup_id)
      then (Ok tt, retake_slot (lease_instance_id lease)
              (put_lease operation_id
                 (set_release_cleanup_id None (set_lease_state QUARANTINED lease)) s))
      else (Raise ValueError, s)
  end.

Definition decode_slot_lease (operation_id : string) (s : PDScheduler) :
    option DecodeSlotLease := dget operation_id (slot_leases s).

Definition quarantined_decode_leases (s : PDScheduler) : list DecodeSlotLease :=
  filter (λ l, lease_state l = QUARANTINED) (dvalues (slot_leases s)).

(** A lease that can still own decode capacity. *)
Definition live (l : DecodeSlotLease) : bool := bool_decide (lease_state l ≠ RELEASED).

Definition replacement_decode_leases (s : PDScheduler) : list DecodeSlotLease :=
  filter (λ l, lease_state l ∈ [RESERVED; ACTIVE; QUARANTINED]) (dvalues (slot_leases s)).

Definition restore_replaced_decode_slot
    (operation_id expected_lease cleanup_id : string) (previous_state : LeaseState) :
    method PDScheduler unit := λ s,
  if decide (previous_state = RELEASED) then (Raise ValueError, s)
  else match dget operation_id (slot_leases s) with
  | None => (Raise KeyError, s)
  | Some lease =>
      let restored := set_release_cleanup_id None (set_lease_state previous_state lease) in
      if decide (lease_id lease ≠ expected_lease) then (Raise ValueError, s)
      else match lease_state lease with
      | RELEASED =>
          if decide (lease_release_cleanup_id lease ≠ Some cleanup_id)
          then (Raise ValueError, s)
          else (Ok tt, put_lease operation_id restored
                         (retake_slot (lease_instance_id lease) s))
      | QUARANTINED => (Ok tt, put_lease operation_id restored s)
      | RESERVED | ACTIVE => (Raise ValueError, s)
      end
  end.

(** [counts[state]] of [decode_slot_lease_counts]. *)
Definition decode_slot_lease_counts (st : LeaseState) (s : PDScheduler) : nat :=
  length (filter (λ l, lease_state l = st) (dvalues (slot_leases s))).

(** ** Feedback from the infer layer *)

Definition epoch_matches (instance_id assigned_epoch : string) (s : PDScheduler) : bool :=
  truthy assigned_epoch
  && bool_decide (instance_epochs s !! instance_id = Some assigned_epoch).

(** [assigned_epoch is not None and not self.epoch_matches(...)] *)
Definition epoch_stale (instance_id : string) (assigned_epoch : option string)
    (s : PDScheduler) : bool :=
  match assigned_epoch with
  | None => false
  | Some e => negb (epoch_matches instance_id e s)
  end.

Definition on_prefill_done (instance_id : string) (assigned_epoch : option string)
    (s : PDScheduler) : bool * PDScheduler :=
  if epoch_stale instance_id assigned_epoch s then (false, s)
  else match dget instance_id (prefill_load s) with
  | None => (false, s)
  | Some load =>
      (true, set_prefill_load (dset instance_id (Z.max 0 (load - 1)) (prefill_load s)) s)
  end.

(** The final [if instance_id in self._decode_free_slots] block of
    [on_decode_finished]. *)
Definition free_one_slot (instance_id : string) : method PDScheduler bool := λ s,
  match dget instance_id (decode_free_slots s) with
  | None => (Ok false, s)
  | Some free =>
      match dget instance_id (decode_max_slots s) with
      | None => (Raise KeyError, s)
      | Some maximum =>
          if bool_decide (maximum ≤ free) then (Ok false, s)
          else (Ok true, set_free (dset instance_id (free + 1) (decode_free_slots s)) s)
      end
  end.

(** [operation_id] is falsy when [None] or empty. *)
Definition on_decode_finished (instance_id : string)
    (assigned_epoch operation_id : option string) : method PDScheduler bool := λ s,
  if epoch_stale instance_id assigned_epoch s then (Ok false, s)
  else match operation_id with
  | Some op =>
      if truthy op then
        match dget op (slot_leases s) with
        | None => (Ok false, s)
        | Some lease =>
            if bool_decide (lease_instance_id lease ≠ instance_id)
               || bool_decide (lease_state lease ∈ [RELEASED; QUARANTINED])
            then (Ok false, s)
            else free_one_slot instance_id
                   (put_lease op (set_lease_state RELEASED lease) s)
        end
      else free_one_slot instance_id s
  | None => free_one_slot instance_id s
  end.

(** [max(0.0, min(1.0, x))] *)
Definition clamp01 (x : Q) : Q :=
  let m := if Qle_bool 1 x then 1%Q else x in
  if Qle_bool m 0 then 0%Q else m.

Definition update_kv_usage (instance_id : string) (sample : option KVUsageSample)
    (s : PDScheduler) : PDScheduler :=
  match sample with
  | None => set_kv_usage (delete instance_id (kv_usage s)) s
  | Some x =>
      set_kv_usage (<[instance_id := mkKVUsageSample (clamp01 (ratio x))
                        (sample_epoch x) (sampled_at x)]> (kv_usage s)) s
  end.

(** [self._instance_epochs[i]] for every decode instance; a missing epoch
    raises KeyError. *)
Fixpoint epochs_of (s : PDScheduler) (ids : list string) : result exn (odict string string) :=
  match ids with
  | [] => Ok []
  | i :: ids' =>
      match instance_epochs s !! i with
      | None => Raise KeyError
      | Some e =>
          match epochs_of s ids' with
          | Raise x => Raise x
          | Ok d => Ok ((i, e) :: d)
          end
      end
  end.

Definition decode_instance_epochs (s : PDScheduler) : result exn (odict string string) :=
  epochs_of s (dkeys (decode_free_slots s)).

Definition instance_epoch (instance_id : string) (s : PDScheduler) : string :=
  default "unknown" (instance_epochs s !! instance_id).

(** [math.ceil(a / b)]: the float division rounds by less than [1 / b] when
    [a < 2 ^ 53], so its ceiling is the exact one for such byte counts. *)
Definition ceil_div (a b : Z) : Z := - ((- a) `div` b).

Definition decide_decode_instance_count (active_kv_bytes : Z) (s : PDScheduler) :
    result exn Z :=
  let kv_per := cfg_kv_per_instance_bytes (config s) in
  let clamp n := Z.max (cfg_min_decode_instances (config s))
                   (Z.min n (cfg_max_decode_instances (config s))) in
  if bool_decide (0 < active_kv_bytes) then
    if bool_decide (kv_per = 0) then Raise ZeroDivisionError
    else Ok (clamp (ceil_div active_kv_bytes kv_per))
  else Ok (clamp 1).

(** ** The capacity invariant *)

(** What the tables say of one instance. *)
Definition prefill_entry_ok (s : PDScheduler) (i : string) (n : Z) : Prop :=
  0 ≤ n ∧ instance_roles s !! i = Some "prefill"
  ∧ is_Some (instance_epochs s !! i) ∧ quarantined s !! i = None.

Definition decode_entry_ok (s : PDScheduler) (i : string) (f : Z) : Prop :=
  ∃ m, dget i (decode_max_slots s) = Some m ∧ 0 ≤ f ≤ m ∧ 0 < m
    ∧ instance_roles s !! i = Some "decode"
    ∧ is_Some (instance_epochs s !! i) ∧ quarantined s !! i = None.

Record sched_wf (s : PDScheduler) : Prop := {
  sw_load_dict : dwf (prefill_load s);
  sw_free_dict : dwf (decode_free_slots s);
  sw_max_dict : dwf (decode_max_slots s);
  sw_lease_dict : dwf (slot_leases s);
  sw_load : ∀ i n, dget i (prefill_load s) = Some n → prefill_entry_ok s i n;
  sw_free : ∀ i f, dget i (decode_free_slots s) = Some f → decode_entry_ok s i f;
  sw_max : ∀ i, dget i (decode_free_slots s) = None → dget i (decode_max_slots s) = None;
  sw_lease : ∀ op l, dget op (slot_leases s) = Some l →
    lease_operation_id l = op ∧ op ≠ "" }.

Lemma init_scheduler_wf cfg : sched_wf (init_scheduler cfg).
Proof. by split; simpl; try apply dwf_nil. Qed.

(** Writing a legal count for a known decode instance keeps the invariant. *)
Lemma set_free_wf s i f f' :
  sched_wf s → dget i (decode_free_slots s) = Some f →
  (∀ m, dget i (decode_max_slots s) = Some m → 0 ≤ f ≤ m → 0 < m → 0 ≤ f' ≤ m) →
  sched_wf (set_free (dset i f' (decode_free_slots s)) s).
Proof.
  intros [] Hf Hb. split; simpl; auto using dwf_dset.
  - intros j g. dsimpl. case_decide as Hj; [|exact (sw_free0 j g)].
    intros [= <-]. subst j. destruct (sw_free0 i f Hf) as (m & Hm & Hbm & Hpos & Hr).
    exists m. simpl. split_and!; try apply Hr; try done; apply (Hb m); done.
  - intros j. dsimpl. case_decide; [done|auto].
Qed.

Lemma set_leases_wf s op l :
  sched_wf s → lease_operation_id l = op → op ≠ "" →
  sched_wf (put_lease op l s).
Proof.
  intros [] Hl Hop. split; simpl; auto using dwf_dset.
  intros op' l'. dsimpl. case_decide; intros; simplify_eq; auto.
Qed.

Lemma put_lease_wf s op l l' :
  sched_wf s → dget op (slot_leases s) = Some l →
  lease_operation_id l' = lease_operation_id l →
  sched_wf (put_lease op l' s).
Proof.
  intros Hwf Hg Hl. destruct (sw_lease s Hwf op l Hg) as [Hop Hne].
  apply set_leases_wf; congruence.
Qed.

Lemma return_slot_wf s i : sched_wf s → sched_wf (return_slot i s).2
  ∧ (return_slot i s).1 = Ok tt.
Proof.
  intros Hwf. unfold return_slot.
  destruct (dget i (decode_free_slots s)) as [f|] eqn:Hf; [|done].
  destruct (sw_free s Hwf i f Hf) as (m & Hm & Hb & _). rewrite Hm. simpl.
  split; [|done]. eapply set_free_wf; [done|done|].
  intros m' Hm' ? ?. simplify_eq. lia.
Qed.

Lemma retake_slot_leases s i : slot_leases (retake_slot i s) = slot_leases s.
Proof. unfold retake_slot. by destruct (dget i _). Qed.

Lemma retake_slot_wf s i : sched_wf s → sched_wf (retake_slot i s).
Proof.
  intros Hwf. unfold retake_slot.
  destruct (dget i (decode_free_slots s)) as [f|] eqn:Hf; [|done].
  eapply set_free_wf; [done|done|]. intros; lia.
Qed.

Lemma free_one_slot_wf s i : sched_wf s → sched_wf (free_one_slot i s).2.
Proof.
  intros Hwf. unfold free_one_slot.
  destruct (dget i (decode_free_slots s)) as [f|] eqn:Hf; [|done].
  destruct (sw_free s Hwf i f Hf) as (m & Hm & Hb & _). rewrite Hm.
  case_bool_decide; [done|]. eapply set_free_wf; [done|done|].
  intros m' Hm' ? ?. simplify_eq. lia.
Qed.

Lemma set_prefill_load_wf s i n n' :
  sched_wf s → dget i (prefill_load s) = Some n → 0 ≤ n' →
  sched_wf (set_prefill_load (dset i n' (prefill_load s)) s).
Proof.
  intros [] Hn Hpos. split; simpl; auto using dwf_dset.
  intros j k. dsimpl. case_decide; [|exact (sw_load0 j k)]. intros [= <-]. subst j.
  destruct (sw_load0 i n Hn) as (_ & Hr). split; [done|exact Hr].
Qed.

Lemma register_instance_wf iid role n ep act s :
  sched_wf s → sched_wf (register_instance iid role n ep act s).2.
Proof.
  intros Hwf. unfold register_instance.
  case_decide as Hq; [done|]. case_bool_decide; [done|].
  destruct (instance_epochs s !! iid) as [e|] eqn:He; [by case_decide|].
  assert (quarantined s !! iid = None) as Hqn by by apply eq_None_not_Some.
  assert (dget iid (prefill_load s) = None) as Hl.
  { apply eq_None_not_Some. intros [x Hx].
    destruct (sw_load s Hwf _ _ Hx) as (_ & _ & Hs & _).
    rewrite He in Hs. by apply is_Some_None in Hs. }
  assert (dget iid (decode_free_slots s) = None) as Hf.
  { apply eq_None_not_Some. intros [x Hx].
    destruct (sw_free s Hwf _ _ Hx) as (m & _ & _ & _ & _ & Hs & _).
    rewrite He in Hs. by apply is_Some_None in Hs. }
  destruct Hwf.
  case_decide as Hp; [|case_decide as Hd; [case_bool_decide; [|done]|done]];
    subst role; (split; simpl; auto using dwf_dset);
    intros i v; unfold prefill_entry_ok, decode_entry_ok; simpl; dsimpl;
    repeat case_decide; subst; intros; simplify_eq;
    rewrite ?lookup_insert_eq, ?lookup_insert_ne by congruence; auto.
  all: try (split_and!; [lia|done|by eexists|done]).
  all: try (by apply sw_free0 || by apply sw_load0).
  eexists. split_and!; try done; try lia; by eexists.
Qed.

(** Dropping an instance from the load and slot tables. *)
Lemma drop_instance_wf s s' iid :
  sched_wf s →
  prefill_load s' = dpop iid (prefill_load s) →
  decode_free_slots s' = dpop iid (decode_free_slots s) →
  decode_max_slots s' = dpop iid (decode_max_slots s) →
  slot_leases s' = slot_leases s →
  (∀ i, i ≠ iid → instance_roles s' !! i = instance_roles s !! i
     ∧ instance_epochs s' !! i = instance_epochs s !! i
     ∧ quarantined s' !! i = quarantined s !! i) →
  sched_wf s'.
Proof.
  intros [] Hl Hf Hm Hle Hi. split; rewrite ?Hl, ?Hf, ?Hm, ?Hle;
    auto using dwf_dpop; unfold prefill_entry_ok, decode_entry_ok;
    rewrite ?Hf, ?Hm.
  - intros i n. dsimpl. case_decide; [done|]. destruct (Hi i) as (-> & -> & ->); [done|].
    apply sw_load0.
  - intros i f. dsimpl. case_decide; [done|]. destruct (Hi i) as (-> & -> & ->); [done|].
    apply sw_free0.
  - intros i. dsimpl. case_decide; [done|]. apply sw_max0.
Qed.

Lemma quarantine_instance_wf iid t d tok now s :
  sched_wf s → sched_wf (quarantine_instance iid t d tok now s).2.
Proof.
  intros Hwf. unfold quarantine_instance.
  destruct (quarantined s !! iid) as [q|] eqn:Hq.
  - destruct (known _ _ && known _ _); [done|]. simpl. destruct Hwf.
    assert (∀ v i, quarantined s !! i = None →
      <[iid := v]> (quarantined s) !! i = None) as Hq'.
    { intros v i Hi. rewrite lookup_insert_ne; [done|]. congruence. }
    split; simpl; auto; unfold prefill_entry_ok, decode_entry_ok; simpl.
    + intros i n (? & ? & ? & ?)%sw_load0. auto.
    + intros i f (m & ? & ? & ? & ? & ? & ?)%sw_free0. exists m. auto 10.
  - eapply drop_instance_wf; try done. intros i Hi. simpl.
    by rewrite lookup_insert_ne by done.
Qed.

Lemma deregister_instance_wf iid s :
  sched_wf s → sched_wf (deregister_instance iid s).
Proof.
  intros Hwf. eapply drop_instance_wf; try done. intros i Hi. simpl.
  by rewrite !lookup_delete_ne by done.
Qed.

Lemma reconcile_admissible_true rec ep tok role n a1 a2 a3 :
  reconcile_admissible rec ep tok role n a1 a2 a3 = true ↔
  tok = qr_reconciliation_token rec ∧ a1 = [] ∧ a2 = [] ∧ a3 = [] ∧ ep ≠ ""
  ∧ role ∈ ["prefill"; "decode"]
  ∧ (qr_role rec = "unknown" ∨ role = qr_role rec)
  ∧ (role = "decode" → 0 < n).
Proof.
  unfold reconcile_admissible.
  rewrite !andb_true_iff, !bool_decide_eq_true, truthy_true,
    !negb_true_iff, !andb_false_iff, !bool_decide_eq_false.
  split.
  - intros (((((((H1 & H2) & H3) & H4) & H5) & H6) & H7) & H8).
    split_and!; try done.
    + destruct H7 as [H7|H7]; apply dec_stable in H7; auto.
    + intros Hr. destruct H8; [done|lia].
  - intros (H1 & H2 & H3 & H4 & H5 & H6 & H7 & H8).
    split_and!; try done; [destruct H7; auto|].
    destruct (decide (role = "decode")); [right|by left]. specialize (H8 e). lia.
Qed.

Lemma reconcile_instance_wf iid ep tok role n a1 a2 a3 s :
  sched_wf s → sched_wf (reconcile_instance iid ep tok role n a1 a2 a3 s).2.
Proof.
  intros Hwf. unfold reconcile_instance.
  destruct (quarantined s !! iid) as [q|] eqn:Hq; [|done].
  destruct (reconcile_admissible _ _ _ _ _ _ _ _) eqn:Ha; [|done].
  apply reconcile_admissible_true in Ha as (_ & _ & _ & _ & _ & Hr & _ & Hn).
  assert (∀ x, dget iid (prefill_load s) = Some x → False) as Hl.
  { intros x Hx. destruct (sw_load s Hwf _ _ Hx) as (_ & _ & _ & ?). congruence. }
  assert (∀ x, dget iid (decode_free_slots s) = Some x → False) as Hf.
  { intros x Hx.
    destruct (sw_free s Hwf _ _ Hx) as (m & _ & _ & _ & _ & _ & ?). congruence. }
  destruct Hwf. simpl. case_decide as Hp.
  - subst role. split; simpl; auto using dwf_dset;
      intros i v; unfold prefill_entry_ok, decode_entry_ok; simpl; dsimpl;
      repeat case_decide; subst; intros; simplify_eq;
      rewrite ?lookup_insert_eq, ?lookup_insert_ne, ?lookup_delete_eq,
        ?lookup_delete_ne by congruence; auto.
    + by split_and!.
    + by apply sw_load0.
    + by apply sw_free0.
  - assert (role = "decode") as -> by set_solver. specialize (Hn eq_refl).
    split; simpl; auto using dwf_dset;
      intros i v; unfold prefill_entry_ok, decode_entry_ok; simpl; dsimpl;
      repeat case_decide; subst; intros; simplify_eq;
      rewrite ?lookup_insert_eq, ?lookup_insert_ne, ?lookup_delete_eq,
        ?lookup_delete_ne by congruence; auto.
    + by apply sw_load0.
    + eexists. by split_and!; try lia.
    + by apply sw_free0.
Qed.

Section gated_facts.
Context {G : Type} `{RoutingGate G}.
Implicit Types (reg : option G) (s : PDScheduler).

Lemma prefill_candidates_elem reg req s i :
  i ∈ prefill_candidates reg req s ↔
  i ∈ dkeys (prefill_load s) ∧ registry_allows reg i = true
  ∧ matches_required req i = true.
Proof.
  unfold prefill_candidates. rewrite list_elem_of_filter, andb_true_iff. tauto.
Qed.

Lemma pick_prefill_elem reg req s c cs :
  prefill_candidates reg req s = c :: cs →
  first_min (load_of s) c cs ∈ prefill_candidates reg req s.
Proof. intros ->. apply first_min_elem. Qed.

Lemma pick_decode_elem reg req now s c cs :
  decode_candidates reg req now s = c :: cs →
  first_max snd c cs ∈ decode_candidates reg req now s.
Proof. intros ->. apply first_max_elem. Qed.

Lemma decode_candidates_elem reg req now s i f :
  sched_wf s →
  (i, f) ∈ decode_candidates reg req now s ↔
  dget i (decode_free_slots s) = Some f
  ∧ decode_candidate reg req now s (i, f) = true.
Proof.
  intros Hwf. unfold decode_candidates. rewrite list_elem_of_filter.
  rewrite (dget_Some i f) by apply Hwf. tauto.
Qed.

Lemma decode_candidate_true reg req now s i f :
  decode_candidate reg req now s (i, f) = true →
  0 < f ∧ registry_allows reg i = true ∧ sample_is_fresh i now s = true
  ∧ matches_required req i = true
  ∧ ∃ sample, kv_usage s !! i = Some sample
      ∧ (ratio sample < cfg_high_watermark (config s))%Q.
Proof.
  unfold decode_candidate. rewrite !andb_true_iff, bool_decide_eq_true. simpl.
  intros ((((Hf & Hr) & Hs) & Hu) & Hm). split_and!; try done.
  destruct (kv_usage s !! i) as [x|]; [|done]. exists x. split; [done|].
  apply negb_true_iff in Hu. apply Qnot_le_lt.
  intros Hle%Qle_bool_iff. congruence.
Qed.

Lemma pick_prefill_wf reg req s :
  sched_wf s → sched_wf (pick_prefill_instance reg req s).2.
Proof.
  intros Hwf. unfold pick_prefill_instance.
  destruct (prefill_candidates reg req s) as [|c cs] eqn:Hc; [done|]. simpl.
  pose proof (pick_prefill_elem reg req s c cs Hc) as He.
  apply prefill_candidates_elem in He as ([n Hn]%dget_is_Some & _).
  generalize dependent (first_min (load_of s) c cs). intros best Hn.
  eapply set_prefill_load_wf; [done|done|].
  destruct (sw_load s Hwf _ _ Hn) as [? _].
  unfold load_of. rewrite Hn. simpl. lia.
Qed.

Lemma pick_decode_wf reg req now s :
  sched_wf s → sched_wf (pick_decode_instance reg req now s).2.
Proof.
  intros Hwf. unfold pick_decode_instance.
  destruct (decode_candidates reg req now s) as [|c cs] eqn:Hc; [done|]. simpl.
  pose proof (pick_decode_elem reg req now s c cs Hc) as He.
  destruct (first_max snd c cs) as [i f].
  apply decode_candidates_elem in He as [Hf Hcand]; [|done].
  apply decode_candidate_true in Hcand as [Hpos _]. simpl.
  eapply set_free_wf; [done|done|]. intros m Hm ? ?.
  unfold free_of. rewrite Hf. simpl. lia.
Qed.

Lemma reserve_decode_slot_wf reg i rid op tok now s :
  sched_wf s → sched_wf (reserve_decode_slot reg i rid op tok now s).2.
Proof.
  intros Hwf. unfold reserve_decode_slot.
  destruct (truthy op) eqn:Hop; [|done]. apply truthy_true in Hop.
  destruct (dget op (slot_leases s)); [done|].
  destruct (negb _ || _) eqn:Hg; [done|].
  apply orb_false_iff in Hg as [_ Hfree%bool_decide_eq_false]. simpl.
  unfold free_of in *.
  destruct (dget i (decode_free_slots s)) as [f|] eqn:Hf; simpl in *; [|lia].
  apply (set_leases_wf (set_free (dset i (f - 1) (decode_free_slots s)) s) op);
    [|done|done].
  eapply set_free_wf; [done|done|]. intros; lia.
Qed.
End gated_facts.

Lemma adopt_wf i rid op tok now s :
  sched_wf s → sched_wf (adopt_picked_decode_slot i rid op tok now s).2.
Proof.
  intros Hwf. unfold adopt_picked_decode_slot.
  destruct (truthy op) eqn:Hop; [|done]. apply truthy_true in Hop. simpl.
  destruct (dmem op _); [done|]. destruct (dmem i _); [|done]. simpl.
  by apply set_leases_wf.
Qed.

(** The release paths share this shape. *)
Lemma release_tail_wf s i :
  sched_wf s →
  sched_wf ((_ ← return_slot i; mret true : method PDScheduler bool) s).2.
Proof.
  intros Hwf. destruct (return_slot_wf s i Hwf) as [Hw Hr].
  unfold mbind, method_mbind, method_bind.
  destruct (return_slot i s) as [r s1]. simpl in *. by subst r.
Qed.

Lemma lease_ops_wf s :
  sched_wf s →
  (∀ op, sched_wf (commit_decode_slot op s).2)
  ∧ (∀ op, sched_wf (release_decode_slot op s).2)
  ∧ (∀ op, sched_wf (quarantine_decode_slot op s).2)
  ∧ (∀ op l c, sched_wf (release_quarantined_decode_slot op l c s).2)
  ∧ (∀ op l c, sched_wf (restore_quarantined_decode_slot op l c s).2)
  ∧ (∀ op l c p, sched_wf (restore_replaced_decode_slot op l c p s).2).
Proof.
  intros Hwf. split_and!; intros op; intros;
    unfold commit_decode_slot, release_decode_slot, quarantine_decode_slot,
      release_quarantined_decode_slot, restore_quarantined_decode_slot,
      restore_replaced_decode_slot;
    repeat (case_decide || case_match); try done; simpl;
    first [ by eapply put_lease_wf
          | apply release_tail_wf; by eapply put_lease_wf
          | apply retake_slot_wf; by eapply put_lease_wf
          | idtac ].
  eapply put_lease_wf; [by apply retake_slot_wf|by rewrite retake_slot_leases|done].
Qed.

Lemma on_prefill_done_wf i e s : sched_wf s → sched_wf (on_prefill_done i e s).2.
Proof.
  intros Hwf. unfold on_prefill_done. destruct (epoch_stale _ _ _); [done|].
  destruct (dget i (prefill_load s)) eqn:Hl; [|done].
  eapply set_prefill_load_wf; [done|done|lia].
Qed.

Lemma on_decode_finished_wf i e op s :
  sched_wf s → sched_wf (on_decode_finished i e op s).2.
Proof.
  intros Hwf. unfold on_decode_finished.
  repeat case_match; try done; apply free_one_slot_wf; try done.
  by eapply put_lease_wf.
Qed.

Lemma update_kv_usage_wf i x s : sched_wf s → sched_wf (update_kv_usage i x s).
Proof. intros []. unfold update_kv_usage. by case_match; split. Qed.

(** ** Slot conservation *)

(** The number of leases that hold a slot of instance [i]. *)
Definition holds (i : string) (l : DecodeSlotLease) : Z :=
  if decide (lease_instance_id l = i ∧ lease_state l ≠ RELEASED) then 1 else 0.

Definition held_slots (i : string) (s : PDScheduler) : Z :=
  sumZ (holds i) (dvalues (slot_leases s)).

(** Every slot of a known decode instance is either free or held by exactly
    one live lease. *)
Definition conserved (s : PDScheduler) : Prop :=
  ∀ i f m, dget i (decode_free_slots s) = Some f →
    dget i (decode_max_slots s) = Some m → f + held_slots i s = m.

Lemma holds_nonneg i l : 0 ≤ holds i l.
Proof. unfold holds. case_decide; lia. Qed.

Lemma held_slots_nonneg i s : 0 ≤ held_slots i s.
Proof.
  apply sumZ_nonneg, Forall_forall. intros l _. apply holds_nonneg.
Qed.

Lemma held_put_lease i op l l' s :
  dget op (slot_leases s) = Some l →
  held_slots i (put_lease op l' s) = held_slots i s - holds i l + holds i l'.
Proof. intros Hg. unfold held_slots. simpl. by apply sumZ_dset. Qed.

Lemma held_new_lease i op l s :
  dget op (slot_leases s) = None →
  held_slots i (put_lease op l s) = held_slots i s + holds i l.
Proof. intros Hg. unfold held_slots. simpl. by apply sumZ_dset_fresh. Qed.

Lemma holds_le_held i op l s :
  sched_wf s → dget op (slot_leases s) = Some l → holds i l ≤ held_slots i s.
Proof.
  intros Hwf Hg. unfold held_slots.
  pose proof (sumZ_dpop (holds i) op l _ (sw_lease_dict s Hwf) Hg) as Hp.
  assert (0 ≤ sumZ (holds i) (dvalues (dpop op (slot_leases s)))); [|lia].
  apply sumZ_nonneg, Forall_forall. intros ? _. apply holds_nonneg.
Qed.

(** A state change of a lease that keeps it live moves no slot. *)
Lemma put_live_conserved op l st s :
  conserved s → dget op (slot_leases s) = Some l →
  lease_state l ≠ RELEASED → st ≠ RELEASED →
  conserved (put_lease op (set_lease_state st l) s).
Proof.
  intros Hc Hg Hl Hst i f m Hf Hm. rewrite (held_put_lease i op l) by done.
  pose proof (Hc i f m Hf Hm). unfold holds. simpl.
  repeat case_decide; naive_solver lia.
Qed.

(** Releasing a live lease returns exactly its slot. *)
Lemma release_live_conserved op l l' s :
  sched_wf s → conserved s → dget op (slot_leases s) = Some l →
  lease_state l ≠ RELEASED → lease_state l' = RELEASED →
  lease_instance_id l' = lease_instance_id l →
  conserved (return_slot (lease_instance_id l) (put_lease op l' s)).2.
Proof.
  intros Hwf Hc Hg Hl Hl' Hi. unfold return_slot. simpl.
  assert (∀ i, holds i l' = 0) as Hh'.
  { intros i. unfold holds. rewrite decide_False; [done|naive_solver]. }
  assert (∀ i, i ≠ lease_instance_id l → holds i l = 0) as Hne.
  { intros i ?. unfold holds. rewrite decide_False; [done|naive_solver]. }
  destruct (dget (lease_instance_id l) (decode_free_slots s)) as [f|] eqn:Hf.
  - destruct (sw_free s Hwf _ _ Hf) as (m & Hm & Hb & _). rewrite Hm. simpl.
    intros i f' m'. simpl. dsimpl. unfold held_slots. simpl.
    rewrite (sumZ_dset (holds i) op l) by done. rewrite Hh'.
    case_decide as Hd; intros Hf' Hm'; simplify_eq.
    + pose proof (Hc _ _ _ Hf Hm). pose proof (held_slots_nonneg (lease_instance_id l) s).
      assert (holds (lease_instance_id l) l = 1) as Hone
        by (unfold holds; by rewrite decide_True).
      pose proof (holds_le_held (lease_instance_id l) op l s Hwf Hg).
      fold (held_slots (lease_instance_id l) s). rewrite Hone. lia.
    + rewrite Hne by done. pose proof (Hc _ _ _ Hf' Hm') as Hc'.
      unfold held_slots in Hc'. lia.
  - intros i f' m' Hf' Hm'. simpl in *. rewrite (held_put_lease i op l) by done.
    rewrite Hh', Hne by congruence. pose proof (Hc _ _ _ Hf' Hm'). lia.
Qed.

(** ** Calls *)

(** The public methods that change the scheduler, with their arguments. *)
Inductive sched_call (G : Type) : Type :=
| CallRegister (iid role : string) (max_slots : Z) (epoch : string) (act : list string)
| CallDeregister (iid : string)
| CallQuarantine (iid : string) (t d : option evidence) (token : string) (now : Z)
| CallReconcile (iid epoch token role : string) (max_slots : Z) (a1 a2 a3 : list string)
| CallPickPrefill (reg : option G) (required : option string)
| CallPickDecode (reg : option G) (required : option string) (now : Z)
| CallReserve (reg : option G) (iid rid op token : string) (now : Z)
| CallAdopt (iid rid op token : string) (now : Z)
| CallCommit (op : string)
| CallRelease (op : string)
| CallQuarantineSlot (op : string)
| CallReleaseQuarantined (op : string) (l c : option string)
| CallRestoreQuarantined (op l c : string)
| CallRestoreReplaced (op l c : string) (p : LeaseState)
| CallPrefillDone (iid : string) (epoch : option string)
| CallDecodeFinished (iid : string) (epoch op : option string)
| CallUpdateKvUsage (iid : string) (sample : option KVUsageSample).
Arguments CallRegister {G}. Arguments CallDeregister {G}.
Arguments CallQuarantine {G}. Arguments CallReconcile {G}.
Arguments CallPickPrefill {G}. Arguments CallPickDecode {G}.
Arguments CallReserve {G}. Arguments CallAdopt {G}. Arguments CallCommit {G}.
Arguments CallRelease {G}. Arguments CallQuarantineSlot {G}.
Arguments CallReleaseQuarantined {G}. Arguments CallRestoreQuarantined {G}.
Arguments CallRestoreReplaced {G}. Arguments CallPrefillDone {G}.
Arguments CallDecodeFinished {G}. Arguments CallUpdateKvUsage {G}.

(** The scheduler after a call, whether it returned or raised. *)
Definition run_call {G} `{RoutingGate G} (c : sched_call G) (s : PDScheduler) :
    PDScheduler :=
  match c with
  | CallRegister iid role n ep act => (register_instance iid role n ep act s).2
  | CallDeregister iid => deregister_instance iid s
  | CallQuarantine iid t d tok now => (quarantine_instance iid t d tok now s).2
  | CallReconcile iid ep tok role n a1 a2 a3 =>
      (reconcile_instance iid ep tok role n a1 a2 a3 s).2
  | CallPickPrefill reg req => (pick_prefill_instance reg req s).2
  | CallPickDecode reg req now => (pick_decode_instance reg req now s).2
  | CallReserve reg iid rid op tok now => (reserve_decode_slot reg iid rid op tok now s).2
  | CallAdopt iid rid op tok now => (adopt_picked_decode_slot iid rid op tok now s).2
  | CallCommit op => (commit_decode_slot op s).2
  | CallRelease op => (release_decode_slot op s).2
  | CallQuarantineSlot op => (quarantine_decode_slot op s).2
  | CallReleaseQuarantined op l c => (release_quarantined_decode_slot op l c s).2
  | CallRestoreQuarantined op l c => (restore_quarantined_decode_slot op l c s).2
  | CallRestoreReplaced op l c p => (restore_replaced_decode_slot op l c p s).2
  | CallPrefillDone iid ep => (on_prefill_done iid ep s).2
  | CallDecodeFinished iid ep op => (on_decode_finished iid ep op s).2
  | CallUpdateKvUsage iid x => update_kv_usage iid x s
  end.

Definition run_calls {G} `{RoutingGate G} (cs : list (sched_call G))
    (s : PDScheduler) : PDScheduler := foldl (λ s c, run_call c s) s cs.

Lemma run_call_wf {G} `{RoutingGate G} (c : sched_call G) s :
  sched_wf s → sched_wf (run_call c s).
Proof.
  intros Hwf. pose proof (lease_ops_wf s Hwf) as (?&?&?&?&?&?).
  destruct c; simpl; auto using register_instance_wf, deregister_instance_wf,
    quarantine_instance_wf, reconcile_instance_wf, pick_prefill_wf,
    pick_decode_wf, reserve_decode_slot_wf, adopt_wf, on_prefill_done_wf,
    on_decode_finished_wf, update_kv_usage_wf.
Qed.

Lemma run_calls_wf {G} `{RoutingGate G} (cs : list (sched_call G)) s :
  sched_wf s → sched_wf (run_calls cs s).
Proof.
  revert s. induction cs as [|c cs IH]; intros s Hwf; simpl; [done|].
  by apply IH, run_call_wf.
Qed.

#[export] Hint Resolve run_call_wf run_calls_wf init_scheduler_wf : prism.

(** The lease keys only grow: no operation forgets a lease. *)
Lemma run_call_lease_kept {G} `{RoutingGate G} (c : sched_call G) s op :
  is_Some (dget op (slot_leases s)) → is_Some (dget op (slot_leases (run_call c s))).
Proof.
  assert (∀ op' l, is_Some (dget op (slot_leases s)) →
    is_Some (dget op (dset op' l (slot_leases s)))) as Hset.
  { intros. rewrite dget_dset. case_decide; eauto. }
  intros Hs. destruct c; simpl; try done;
    unfold register_instance, quarantine_instance, reconcile_instance,
      pick_prefill_instance, pick_decode_instance, reserve_decode_slot,
      adopt_picked_decode_slot, commit_decode_slot, release_decode_slot,
      quarantine_decode_slot, release_quarantined_decode_slot,
      restore_quarantined_decode_slot, restore_replaced_decode_slot,
      on_prefill_done, on_decode_finished, update_kv_usage, free_one_slot,
      retake_slot, mbind, method_mbind, method_bind, return_slot;
    repeat (case_match || case_decide); simplify_eq/=; auto.
Qed.

Lemma run_calls_lease_kept {G} `{RoutingGate G} (cs : list (sched_call G)) s op :
  is_Some (dget op (slot_leases s)) → is_Some (dget op (slot_leases (run_calls cs s))).
Proof.
  revert s. induction cs as [|c cs IH]; intros s Hs; simpl; [done|].
  by apply IH, run_call_lease_kept.
Qed.

(** ** Lease steps *)

(** The calls that move slots through leases, plus the pair the schedule loop
    makes: pick an instance, then adopt the picked slot. *)
Definition lease_call {G} (c : sched_call G) : bool :=
  match c with
  | CallReserve _ _ _ _ _ _ | CallCommit _ | CallRelease _
  | CallQuarantineSlot _ | CallReleaseQuarantined _ _ _
  | CallPickPrefill _ _ | CallPrefillDone _ _ | CallUpdateKvUsage _ _ => true
  | CallDecodeFinished _ _ (Some op) => truthy op
  | _ => false
  end.

Inductive lease_step {G} `{RoutingGate G} (s : PDScheduler) : PDScheduler → Prop :=
| lease_step_call (c : sched_call G) : lease_call c = true → lease_step s (run_call c s)
| lease_step_pick_adopt (reg : option G) req now d s1 rid op token now' l s2 :
    pick_decode_instance reg req now s = (Some d, s1) →
    adopt_picked_decode_slot d rid op token now' s1 = (Ok l, s2) →
    lease_step s s2.

Lemma reserve_conserved {G} `{RoutingGate G} (reg : option G) i rid op tok now s :
  conserved s → conserved (reserve_decode_slot reg i rid op tok now s).2.
Proof.
  intros Hc. unfold reserve_decode_slot.
  destruct (truthy op); [|done].
  destruct (dget op (slot_leases s)) eqn:Hop; [done|].
  destruct (negb _ || _) eqn:Hg; [done|].
  apply orb_false_iff in Hg as [_ Hfree%bool_decide_eq_false]. simpl.
  unfold free_of in *.
  destruct (dget i (decode_free_slots s)) as [f|] eqn:Hf; simpl in *; [|lia].
  intros j f' m'. simpl. dsimpl. unfold held_slots. simpl.
  rewrite sumZ_dset_fresh by done. unfold holds at 2. simpl.
  case_decide as Hj; intros Hf' Hm'; simplify_eq.
  - pose proof (Hc _ _ _ Hf Hm') as He. unfold held_slots in He.
    rewrite decide_True by done. lia.
  - pose proof (Hc _ _ _ Hf' Hm') as He. unfold held_slots in He.
    rewrite decide_False by naive_solver. lia.
Qed.

Lemma pick_decode_shape {G} `{RoutingGate G} (reg : option G) req now s d s1 :
  sched_wf s → pick_decode_instance reg req now s = (Some d, s1) →
  ∃ f, dget d (decode_free_slots s) = Some f
    ∧ decode_candidate reg req now s (d, f) = true
    ∧ s1 = set_free (dset d (f - 1) (decode_free_slots s)) s
    ∧ ∀ j g, dget j (decode_free_slots s) = Some g →
        decode_candidate reg req now s (j, g) = true → g ≤ f.
Proof.
  intros Hwf. unfold pick_decode_instance.
  destruct (decode_candidates reg req now s) as [|c cs] eqn:Hc; [done|].
  pose proof (pick_decode_elem reg req now s c cs Hc) as He.
  destruct (first_max_spec snd c cs) as (l1 & l2 & Heq & H1 & H2).
  destruct (first_max snd c cs) as [i f]. simpl. intros [= <- <-].
  apply decode_candidates_elem in He as [Hf Hcand]; [|done].
  exists f. split_and!; [done|done| |].
  - unfold free_of. by rewrite Hf.
  - intros j g Hj Hg. assert ((j, g) ∈ decode_candidates reg req now s) as Hin
      by by apply decode_candidates_elem.
    rewrite Hc, Heq, elem_of_app, elem_of_cons in Hin.
    rewrite Forall_forall in H1, H2.
    destruct Hin as [Hin|[Hin|Hin]];
      [apply H1 in Hin; simpl in Hin; lia|simplify_eq; lia
      |apply H2 in Hin; simpl in Hin; lia].
Qed.

Lemma pick_adopt_conserved {G} `{RoutingGate G} (reg : option G) req now d s s1
    rid op tok now' l s2 :
  sched_wf s → conserved s →
  pick_decode_instance reg req now s = (Some d, s1) →
  adopt_picked_decode_slot d rid op tok now' s1 = (Ok l, s2) → conserved s2.
Proof.
  intros Hwf Hc Hp Ha.
  apply pick_decode_shape in Hp as (f & Hf & _ & -> & _); [|done].
  unfold adopt_picked_decode_slot in Ha.
  destruct (truthy op); [|done]. simpl in Ha.
  destruct (dmem op (slot_leases s)) eqn:Hop; [done|]. apply dmem_false in Hop.
  destruct (dmem d _); [|done]. simplify_eq/=.
  intros j f' m'. simpl. dsimpl. unfold held_slots. simpl.
  rewrite sumZ_dset_fresh by done. unfold holds at 2. simpl.
  case_decide as Hj; intros Hf' Hm'; simplify_eq.
  - pose proof (Hc _ _ _ Hf Hm') as He. unfold held_slots in He.
    rewrite decide_True by done. lia.
  - pose proof (Hc _ _ _ Hf' Hm') as He. unfold held_slots in He.
    rewrite decide_False by naive_solver. lia.
Qed.

(** Under conservation [free_one_slot] after a release is [return_slot]. *)
Lemma decode_finished_conserved i ep op s :
  sched_wf s → conserved s → truthy op = true →
  conserved (on_decode_finished i ep (Some op) s).2.
Proof.
  intros Hwf Hc Hop. unfold on_decode_finished.
  destruct (epoch_stale i ep s); [done|]. rewrite Hop.
  destruct (dget op (slot_leases s)) as [l|] eqn:Hl; [|done].
  destruct (_ || _) eqn:Hg; [done|].
  apply orb_false_iff in Hg as [Hi%bool_decide_eq_false Hst%bool_decide_eq_false].
  apply dec_stable in Hi. subst i.
  assert (lease_state l ≠ RELEASED) as Hlive by set_solver.
  pose proof (release_live_conserved op l (set_lease_state RELEASED l) s
                Hwf Hc Hl Hlive eq_refl eq_refl) as Hret.
  unfold return_slot, free_one_slot in *. simpl in *.
  destruct (dget (lease_instance_id l) (decode_free_slots s)) as [f|] eqn:Hf; [|done].
  destruct (sw_free s Hwf _ _ Hf) as (m & Hm & Hb & _). rewrite Hm in *.
  pose proof (Hc _ _ _ Hf Hm).
  pose proof (holds_le_held (lease_instance_id l) op l s Hwf Hl) as Hh.
  unfold holds in Hh. rewrite decide_True in Hh by done.
  rewrite bool_decide_false by lia. simpl in *.
  replace (Z.min m (f + 1)) with (f + 1) in Hret by lia. done.
Qed.

Lemma release_tail_conserved op l l' s :
  sched_wf s → conserved s → dget op (slot_leases s) = Some l →
  lease_state l ≠ RELEASED → lease_state l' = RELEASED →
  lease_instance_id l' = lease_instance_id l →
  lease_operation_id l' = lease_operation_id l →
  conserved ((_ ← return_slot (lease_instance_id l); mret true : method PDScheduler bool)
               (put_lease op l' s)).2.
Proof.
  intros Hwf Hc Hg Hl Hl' Hi Ho.
  pose proof (release_live_conserved op l l' s Hwf Hc Hg Hl Hl' Hi) as Hr.
  destruct (return_slot_wf (put_lease op l' s) (lease_instance_id l)) as [_ Hok].
  { by eapply put_lease_wf. }
  unfold mbind, method_mbind, method_bind.
  destruct (return_slot _ _) as [r s1]. simpl in *. by subst r.
Qed.

Lemma lease_step_conserved {G} `{RoutingGate G} s s' :
  sched_wf s → conserved s → lease_step (G := G) s s' → conserved s'.
Proof.
  intros Hwf Hc Hstep.
  destruct Hstep as [c Hlc|]; [|by eapply pick_adopt_conserved].
  destruct c; try done; simpl; simpl in Hlc.
  - unfold pick_prefill_instance. by case_match.
  - by apply reserve_conserved.
  - unfold commit_decode_slot. case_match eqn:Hg; [|done].
    case_decide as Hs; [|done]. simpl. apply put_live_conserved; done || congruence.
  - unfold release_decode_slot. case_match eqn:Hg; [|done].
    case_match eqn:Hs; try done. apply release_tail_conserved; done || congruence.
  - unfold quarantine_decode_slot. case_match eqn:Hg; [|done].
    case_decide as Hs; [done|]. simpl. by apply put_live_conserved.
  - unfold release_quarantined_decode_slot. case_match eqn:Hg; [|done].
    repeat case_match; try done; apply release_tail_conserved; done || congruence.
  - unfold on_prefill_done. repeat case_match; done.
  - destruct op; [|done]. by apply decode_finished_conserved.
  - unfold update_kv_usage. by case_match.
Qed.

Lemma lease_step_wf {G} `{RoutingGate G} s s' :
  sched_wf s → lease_step (G := G) s s' → sched_wf s'.
Proof.
  intros Hwf [c _|reg req now d s1 rid op tok now' l s2 Hp Ha].
  - by apply run_call_wf.
  - pose proof (pick_decode_wf reg req now s Hwf) as H1. rewrite Hp in H1.
    pose proof (adopt_wf d rid op tok now' s1 H1) as H2. by rewrite Ha in H2.
Qed.

(** ** Properties *)

(** C25: whatever sequence of scheduler calls runs, including calls that
    raise, every decode instance has 0 <= free <= max slots and a positive
    maximum, prefill loads are never negative, an instance is never both a
    prefill and a decode instance, every scheduled instance has an epoch and
    is not quarantined, and each lease is filed under its operation id. *)
Theorem scheduler_capacity_invariant {G} `{RoutingGate G}
    (cs : list (sched_call G)) cfg :
  sched_wf (run_calls cs (init_scheduler cfg)).
Proof. eauto with prism. Qed.

(** [pick_prefill_instance] chooses a registered, unquarantined instance
    the registry admits, honours a required instance, takes one of least
    load (the earliest registered among equals), and adds exactly one to its
    load; it returns [None], changing nothing, only when no such instance
    exists. *)
Theorem pick_prefill_spec {G} `{RoutingGate G} (reg : option G) req s o s' :
  sched_wf s → pick_prefill_instance reg req s = (o, s') →
  match o with
  | None => s' = s ∧ ∀ i, i ∈ dkeys (prefill_load s) →
      ¬ (registry_allows reg i = true ∧ matches_required req i = true)
  | Some i =>
      registry_allows reg i = true ∧ matches_required req i = true
      ∧ quarantined s !! i = None
      ∧ (∃ l1 l2, prefill_candidates reg req s = l1 ++ i :: l2
           ∧ Forall (λ j, load_of s i < load_of s j) l1
           ∧ Forall (λ j, load_of s i ≤ load_of s j) l2)
      ∧ s' = set_prefill_load (dset i (load_of s i + 1) (prefill_load s)) s
  end.
Proof.
  intros Hwf. unfold pick_prefill_instance.
  destruct (prefill_candidates reg req s) as [|c cs] eqn:Hc; intros [= <- <-].
  - split; [done|]. intros i Hi [H1 H2].
    assert (i ∈ prefill_candidates reg req s) as Hin
      by by apply prefill_candidates_elem.
    rewrite Hc in Hin. set_solver.
  - pose proof (pick_prefill_elem reg req s c cs Hc) as He.
    apply prefill_candidates_elem in He as ([n Hn]%dget_is_Some & H1 & H2).
    split_and!; try done; [apply (sw_load s Hwf _ _ Hn)|].
    apply first_min_spec.
Qed.

(** [pick_decode_instance] returns an instance with a free slot, a fresh
    usage sample below the high watermark, and the registry's admission; no
    admissible instance has more free slots; exactly one of its slots is
    taken.  [None] means no instance qualifies and changes nothing. *)
Theorem pick_decode_spec {G} `{RoutingGate G} (reg : option G) req now s o s' :
  sched_wf s → pick_decode_instance reg req now s = (o, s') →
  match o with
  | None => s' = s ∧ ∀ i f, dget i (decode_free_slots s) = Some f →
      decode_candidate reg req now s (i, f) = false
  | Some d => ∃ f sample,
      dget d (decode_free_slots s) = Some f ∧ 0 < f
      ∧ kv_usage s !! d = Some sample
      ∧ (ratio sample < cfg_high_watermark (config s))%Q
      ∧ sample_is_fresh d now s = true ∧ registry_allows reg d = true
      ∧ quarantined s !! d = None
      ∧ (∀ j g, dget j (decode_free_slots s) = Some g →
           decode_candidate reg req now s (j, g) = true → g ≤ f)
      ∧ s' = set_free (dset d (f - 1) (decode_free_slots s)) s
  end.
Proof.
  intros Hwf Hp. destruct o as [d|].
  - apply pick_decode_shape in Hp as (f & Hf & Hcand & -> & Hmax); [|done].
    pose proof (decode_candidate_true _ _ _ _ _ _ Hcand)
      as (Hpos & Hr & Hs & _ & x & Hx & Hlt).
    exists f, x. split_and!; try done.
    destruct (sw_free s Hwf _ _ Hf) as (m & _ & _ & _ & _ & _ & Hq). done.
  - unfold pick_decode_instance in Hp.
    destruct (decode_candidates reg req now s) as [|c cs] eqn:Hc; [|done].
    simplify_eq. split; [done|]. intros i f Hf.
    apply not_true_is_false. intros Ht.
    assert ((i, f) ∈ decode_candidates reg req now s') as Hin
      by by apply decode_candidates_elem.
    rewrite Hc in Hin. set_solver.
Qed.

(** C4: decode slots are conserved: starting from a state where each slot is
    free or held by one live lease, any sequence of reserve, pick-and-adopt,
    commit, release, quarantine, quarantine-release and leased decode-finish
    steps keeps free + live leases = max for every known instance, so no
    slot is lost and none is returned twice. *)
Theorem lease_slots_conserved {G} `{RoutingGate G} s s' :
  sched_wf s → conserved s → rtc (lease_step (G := G)) s s' → conserved s'.
Proof.
  intros Hwf Hc Hr. induction Hr as [|s s1 s2 Hstep _ IH]; [done|].
  apply IH; [by eapply lease_step_wf|by eapply lease_step_conserved].
Qed.

(** completion reports are fenced by the worker epoch: a report that
    carries an epoch other than the instance's current one (or an empty one)
    returns false and changes nothing. *)
Theorem stale_epoch_report_ignored i e op s :
  instance_epochs s !! i ≠ Some e ∨ e = "" →
  on_prefill_done i (Some e) s = (false, s)
  ∧ on_decode_finished i (Some e) op s = (Ok false, s).
Proof.
  intros He. assert (epoch_stale i (Some e) s = true) as Hst.
  { unfold epoch_stale, epoch_matches. apply negb_true_iff, andb_false_iff.
    destruct He as [He| ->]; [right; by apply bool_decide_eq_false|by left]. }
  unfold on_prefill_done, on_decode_finished. by rewrite Hst.
Qed.

(** a quarantine fence holds until it is reconciled: every call other
    than a [reconcile_instance] that presents the fence's own token keeps the
    instance quarantined with the same token and epoch and with at least the
    same uncertain-operation evidence, and the instance stays out of the
    load and slot tables. *)
Theorem quarantine_fence_held {G} `{RoutingGate G} (c : sched_call G) s i q :
  sched_wf s → quarantined s !! i = Some q →
  (∀ ep role n a1 a2 a3,
     c ≠ CallReconcile i ep (qr_reconciliation_token q) role n a1 a2 a3) →
  ∃ q', quarantined (run_call c s) !! i = Some q'
    ∧ qr_reconciliation_token q' = qr_reconciliation_token q
    ∧ qr_instance_epoch q' = qr_instance_epoch q
    ∧ qr_uncertain_transfers q `prefix_of` qr_uncertain_transfers q'
    ∧ qr_uncertain_dispatches q `prefix_of` qr_uncertain_dispatches q'
    ∧ dget i (prefill_load (run_call c s)) = None
    ∧ dget i (decode_free_slots (run_call c s)) = None.
Proof.
  intros Hwf Hq Hne. pose proof (run_call_wf c s Hwf) as Hwf'.
  cut (∃ q', quarantined (run_call c s) !! i = Some q'
    ∧ qr_reconciliation_token q' = qr_reconciliation_token q
    ∧ qr_instance_epoch q' = qr_instance_epoch q
    ∧ qr_uncertain_transfers q `prefix_of` qr_uncertain_transfers q'
    ∧ qr_uncertain_dispatches q `prefix_of` qr_uncertain_dispatches q').
  { intros (q' & Hq' & Ht & He & H1 & H2). exists q'. split_and!; try done.
    - apply eq_None_not_Some. intros [x Hx].
      destruct (sw_load _ Hwf' _ _ Hx) as (_ & _ & _ & ?). congruence.
    - apply eq_None_not_Some. intros [x Hx].
      destruct (sw_free _ Hwf' _ _ Hx) as (m & _ & _ & _ & _ & _ & ?). congruence. }
  clear Hwf'. destruct c; simpl;
    try (exists q; split_and!; try done;
         unfold register_instance, pick_prefill_instance, pick_decode_instance,
           reserve_decode_slot, adopt_picked_decode_slot, commit_decode_slot,
           release_decode_slot, quarantine_decode_slot,
           release_quarantined_decode_slot, restore_quarantined_decode_slot,
           restore_replaced_decode_slot, on_prefill_done, on_decode_finished,
           update_kv_usage, free_one_slot, retake_slot, mbind, method_mbind,
           method_bind, return_slot;
         repeat (case_match || case_decide); simplify_eq/=; done).
  - (* quarantine *)
    unfold quarantine_instance. destruct (decide (iid = i)) as [->|Hi].
    + rewrite Hq. destruct (known _ _ && known _ _); [by exists q|].
      eexists. simpl. rewrite lookup_insert_eq. split_and!; try done;
        by apply prefix_app_r.
    + exists q. repeat case_match; simpl; rewrite ?lookup_insert_ne by done; done.
  - (* reconcile *)
    unfold reconcile_instance. destruct (decide (iid = i)) as [->|Hi].
    + rewrite Hq. destruct (reconcile_admissible _ _ _ _ _ _ _ _) eqn:Ha; [|by exists q].
      apply reconcile_admissible_true in Ha as (-> & _). by destruct (Hne epoch role max_slots a1 a2 a3).
    + exists q. repeat (case_match || case_decide); simpl;
        rewrite ?lookup_delete_ne by done; done.
Qed.

(** a failed reconciliation changes nothing, and a successful one shows
    that the caller presented the fence's token, reported no active request,
    transfer or dispatch, and kept the recorded role; afterwards the
    instance is unfenced with full capacity under the reported epoch. *)
Theorem reconcile_instance_spec i ep tok role n a1 a2 a3 s r s' :
  reconcile_instance i ep tok role n a1 a2 a3 s = (r, s') →
  match r with
  | Raise e => e = ValueError ∧ s' = s
  | Ok _ => ∃ q, quarantined s !! i = Some q
      ∧ tok = qr_reconciliation_token q ∧ a1 = [] ∧ a2 = [] ∧ a3 = []
      ∧ (qr_role q = "unknown" ∨ role = qr_role q)
      ∧ quarantined s' !! i = None
      ∧ instance_epochs s' !! i = Some ep ∧ instance_roles s' !! i = Some role
      ∧ (role = "prefill" → dget i (prefill_load s') = Some 0)
      ∧ (role = "decode" → 0 < n ∧ dget i (decode_free_slots s') = Some n
                             ∧ dget i (decode_max_slots s') = Some n)
  end.
Proof.
  unfold reconcile_instance. destruct (quarantined s !! i) as [q|] eqn:Hq;
    [|by intros [= <- <-]].
  destruct (reconcile_admissible _ _ _ _ _ _ _ _) eqn:Ha; intros [= <- <-]; [|done].
  apply reconcile_admissible_true in Ha as (Ht & H1 & H2 & H3 & _ & Hr & Hro & Hn).
  exists q. simpl. rewrite lookup_delete_eq, !lookup_insert_eq.
  split_and!; try done; intros ->; simpl; rewrite ?dget_dset_eq; auto.
Qed.

(** rolling back a quarantine release is exact: releasing a quarantined
    lease with its id under a cleanup id and then restoring it with the same
    ids gives back the scheduler, provided the lease was clean and its
    instance had a slot out. *)
Theorem release_restore_roundtrip op l s c s1 :
  sched_wf s → dget op (slot_leases s) = Some l →
  lease_state l = QUARANTINED → lease_release_cleanup_id l = None →
  (∀ f m, dget (lease_instance_id l) (decode_free_slots s) = Some f →
     dget (lease_instance_id l) (decode_max_slots s) = Some m → f < m) →
  release_quarantined_decode_slot op (Some (lease_id l)) (Some c) s = (Ok true, s1) →
  restore_quarantined_decode_slot op (lease_id l) c s1 = (Ok tt, s).
Proof.
  intros Hwf Hg Hst Hcl Hroom. unfold release_quarantined_decode_slot. rewrite Hg, Hst.
  rewrite bool_decide_false by tauto.
  unfold mbind, method_mbind, method_bind, return_slot. simpl.
  assert (set_release_cleanup_id None (set_lease_state QUARANTINED
     (set_release_cleanup_id (Some c) (set_lease_state RELEASED l))) = l) as Hl.
  { destruct l; simpl in *. by subst. }
  destruct (dget (lease_instance_id l) (decode_free_slots s)) as [f|] eqn:Hf.
  - destruct (sw_free s Hwf _ _ Hf) as (m & Hm & Hb & _). rewrite Hm.
    intros [= <-]. unfold restore_quarantined_decode_slot. simpl.
    rewrite dget_dset_eq. simpl. rewrite decide_False by tauto.
    rewrite decide_True by done. rewrite Hl.
    unfold retake_slot, put_lease, set_leases, set_free. simpl.
    rewrite dget_dset_eq, !dset_dset, (dset_id op l) by done.
    specialize (Hroom f m eq_refl Hm).
    replace (Z.max 0 (Z.min m (f + 1) - 1)) with f by lia.
    rewrite dset_id by done. by destruct s.
  - intros [= <-]. unfold restore_quarantined_decode_slot. simpl.
    rewrite dget_dset_eq. simpl. rewrite decide_False by tauto.
    rewrite decide_True by done. rewrite Hl.
    unfold retake_slot, put_lease, set_leases. simpl.
    rewrite Hf, dset_dset, dset_id by done. by destruct s.
Qed.

(** an operation id can be adopted at most once for the life of the
    scheduler: once it has a lease, in whatever state, every later
    [adopt_picked_decode_slot] for it raises ValueError and changes nothing,
    after any sequence of calls.  (The schedule loop adopts the request id
    again when it retries a request whose target preparation failed.) *)
Theorem adopt_is_once_only {G} `{RoutingGate G} (cs : list (sched_call G))
    s i rid op token now :
  is_Some (dget op (slot_leases s)) → op ≠ "" →
  adopt_picked_decode_slot i rid op token now (run_calls cs s)
  = (Raise ValueError, run_calls cs s).
Proof.
  intros Hs Hop.
  pose proof (run_calls_lease_kept cs s op Hs) as Hk.
  unfold adopt_picked_decode_slot.
  rewrite (proj2 (truthy_true op) Hop). simpl.
  rewrite (proj2 (dmem_true op _)); [done|]. by apply dget_is_Some.
Qed.

(** the recommended decode-instance count lies between the configured
    bounds, and when no bound bites it is the least number of instances
    whose memory holds the active KV bytes. *)
Theorem decide_decode_instance_count_bounds active s n :
  0 < cfg_kv_per_instance_bytes (config s) →
  cfg_min_decode_instances (config s) ≤ cfg_max_decode_instances (config s) →
  decide_decode_instance_count active s = Ok n →
  cfg_min_decode_instances (config s) ≤ n ≤ cfg_max_decode_instances (config s)
  ∧ (0 < active → cfg_min_decode_instances (config s) < n →
     (n - 1) * cfg_kv_per_instance_bytes (config s) < active)
  ∧ (0 < active → n < cfg_max_decode_instances (config s) →
     active ≤ n * cfg_kv_per_instance_bytes (config s)).
Proof.
  intros Hk Hmm. unfold decide_decode_instance_count.
  set (k := cfg_kv_per_instance_bytes (config s)) in *.
  case_bool_decide as Ha; [rewrite bool_decide_false by lia|]; intros [= <-].
  - split; [lia|]. unfold ceil_div.
    pose proof (Z.div_mod (- active) k). pose proof (Z.mod_pos_bound (- active) k).
    set (q := (- active) `div` k) in *. split; intros; nia.
  - split; [lia|]. split; intros; lia.
Qed.

(** ** Witnesses *)

(** A gate that admits every instance. *)
#[export] Instance open_gate : RoutingGate unit :=
  {| can_route := λ _ _, true; can_govern := λ _ _, true; world_fresh := λ _, true |}.

Definition demo_calls : list (sched_call unit) :=
  [CallRegister "p0" "prefill" 0 "e0" []; CallRegister "p1" "prefill" 0 "e1" [];
   CallRegister "d0" "decode" 2 "f0" []; CallRegister "d1" "decode" 3 "f1" [];
   CallUpdateKvUsage "d0" (Some (mkKVUsageSample (1 # 2) "f0" 0));
   CallUpdateKvUsage "d1" (Some (mkKVUsageSample (1 # 4) "f1" 0))].

Definition demo_scheduler : PDScheduler :=
  run_calls demo_calls (init_scheduler default_scheduler_config).

Lemma demo_scheduler_wf : sched_wf demo_scheduler.
Proof. unfold demo_scheduler. eauto with prism. Qed.

Lemma demo_conserved : conserved demo_scheduler.
Proof.
  intros i f m. unfold demo_scheduler, held_slots. vm_compute.
  intros H1 H2. repeat case_match; simplify_eq; done.
Qed.

Lemma pick_prefill_spec_witness :
  ∃ s', pick_prefill_instance (Some tt) None demo_scheduler = (Some "p0", s')
    ∧ s' = set_prefill_load (dset "p0" (load_of demo_scheduler "p0" + 1)
                               (prefill_load demo_scheduler)) demo_scheduler.
Proof.
  eexists. split; [vm_compute; reflexivity|].
  apply (pick_prefill_spec (Some tt) None demo_scheduler (Some "p0")).
  - apply demo_scheduler_wf.
  - vm_compute. reflexivity.
Defined.

Lemma pick_decode_spec_witness :
  ∃ f sample, dget "d1" (decode_free_slots demo_scheduler) = Some f ∧ 0 < f
    ∧ kv_usage demo_scheduler !! "d1" = Some sample.
Proof.
  destruct (pick_decode_spec (Some tt) None 1 demo_scheduler (Some "d1")
    (pick_decode_instance (Some tt) None 1 demo_scheduler).2 demo_scheduler_wf)
    as (f & x & Hf & Hpos & Hx & _); [vm_compute; reflexivity|].
  exists f, x. split_and!; assumption.
Defined.

Definition demo_reserved : PDScheduler :=
  run_call (CallReserve (Some tt) "d1" "r1" "op1" "lease1" 3) demo_scheduler.
Definition demo_quarantined : PDScheduler :=
  run_call (CallQuarantineSlot (G := unit) "op1") demo_reserved.

Lemma demo_quarantined_wf : sched_wf demo_quarantined.
Proof.
  unfold demo_quarantined, demo_reserved.
  apply run_call_wf, run_call_wf, demo_scheduler_wf.
Qed.

Lemma lease_slots_conserved_witness : conserved demo_quarantined.
Proof.
  apply (lease_slots_conserved (G := unit) demo_scheduler).
  - apply demo_scheduler_wf.
  - apply demo_conserved.
  - eapply rtc_l; [|eapply rtc_l; [|apply rtc_refl]].
    + by apply (lease_step_call _ (CallReserve (Some tt) "d1" "r1" "op1" "lease1" 3)).
    + by apply (lease_step_call _ (CallQuarantineSlot "op1")).
Defined.

Lemma stale_epoch_report_ignored_witness :
  on_decode_finished "d0" (Some "old") None demo_scheduler = (Ok false, demo_scheduler).
Proof.
  apply (stale_epoch_report_ignored "d0" "old" None demo_scheduler).
  left. vm_compute. discriminate.
Defined.

Definition demo_fenced : PDScheduler :=
  (quarantine_instance "d0" None None "tok" 9 demo_scheduler).2.

Lemma quarantine_fence_held_witness :
  dget "d0" (decode_free_slots (run_call (CallRegister (G := unit) "d0" "decode" 2 "f9" [])
                                  demo_fenced)) = None.
Proof.
  edestruct (quarantine_fence_held (G := unit) (CallRegister "d0" "decode" 2 "f9" [])
               demo_fenced "d0") as (q' & _ & _ & _ & _ & _ & _ & Hn).
  - apply quarantine_instance_wf, demo_scheduler_wf.
  - vm_compute. reflexivity.
  - discriminate.
  - exact Hn.
Defined.

Lemma reconcile_instance_spec_witness :
  dget "d0" (decode_free_slots
    (reconcile_instance "d0" "f9" "tok" "decode" 5 [] [] [] demo_fenced).2) = Some 5.
Proof.
  destruct (reconcile_instance_spec "d0" "f9" "tok" "decode" 5 [] [] [] demo_fenced
    (Ok tt) (reconcile_instance "d0" "f9" "tok" "decode" 5 [] [] [] demo_fenced).2)
    as (q & _ & _ & _ & _ & _ & _ & _ & _ & _ & _ & Hd); [vm_compute; reflexivity|].
  by apply Hd.
Defined.

Lemma release_restore_roundtrip_witness :
  ∃ s1, release_quarantined_decode_slot "op1" (Some "lease1") (Some "c1")
          demo_quarantined = (Ok true, s1)
    ∧ restore_quarantined_decode_slot "op1" "lease1" "c1" s1 = (Ok tt, demo_quarantined).
Proof.
  eexists. split; [vm_compute; reflexivity|].
  eapply (release_restore_roundtrip "op1"
    (mkDecodeSlotLease "lease1" "op1" "r1" "d1" QUARANTINED 3 None) demo_quarantined "c1");
    try (vm_compute; reflexivity).
  - apply demo_quarantined_wf.
  - vm_compute. intros f m [= <-] [= <-]. reflexivity.
Defined.

Lemma adopt_is_once_only_witness :
  adopt_picked_decode_slot "d1" "r1" "op1" "t2" 8
    (run_calls (G := unit) [CallRelease "op1"] demo_reserved)
  = (Raise ValueError, run_calls (G := unit) [CallRelease "op1"] demo_reserved).
Proof.
  apply (adopt_is_once_only (G := unit) [CallRelease "op1"] demo_reserved).
  - vm_compute. by eexists.
  - done.
Defined.

Lemma decide_decode_instance_count_bounds_witness :
  1 ≤ 3 ≤ 64 ∧ decide_decode_instance_count (130 * 1024 ^ 3) demo_scheduler = Ok 3.
Proof.
  split; [|vm_compute; reflexivity].
  apply (decide_decode_instance_count_bounds (130 * 1024 ^ 3) demo_scheduler 3);
    vm_compute; done.
Defined.
