(* ===== verification/TransferGovernor.v ===== *)
(** * KV transfer flow control (scheduler/transfer_governor.py)

    Byte accounting per (source, destination) pair, the FIFO deferred queues,
    and the recompute budget.

    The infer client is code behind an RPC: [client t] says whether handing
    task [t] to it returns ([true]) or raises ([false]).  The client reports
    completion later, from its own asyncio task (router/network_rpc.py
    [transfer_task]), which is the separate operation [on_complete].  The
    byte tables are [defaultdict(int)]: a key that was only read counts as
    absent, which no modelled operation can tell from a stored 0.  Floats as
    in Scheduler.v; the low-priority cap [0.3 * MAX] is compared exactly. *)

From S2P Require Import Prelude PyDict Fingerprint SequenceState Scheduler.
From stdpp Require Import prelude gmap strings.
From Stdlib Require Import QArith_base.

Local Open Scope Z_scope.

Record GovernorConfig := mkGovernorConfig {
  HIGH_WATERMARK : Q;
  LOW_WATERMARK : Q;
  MAX_BYTES_INFLIGHT_PER_PAIR : Z;
  gov_stale_after : Z;
  max_recompute : Z }.

Definition default_governor_config : GovernorConfig :=
  mkGovernorConfig (85 # 100) (70 # 100) (1024 * 1024 * 1024) (10 * 10 ^ 9) 2.

Record TransferGovernor := mkTransferGovernor {
  gov_config : GovernorConfig;
  gov_kv_usage : gmap string KVUsageSample;
  expected_epochs : gmap string string;
  pair_bytes : gmap string Z;
  dst_bytes : gmap string Z;
  deferred : odict string (list TransferTask);
  inflight : odict string TransferTask;
  recompute_counts : gmap string Z }.

#[export] Instance TransferGovernor_eta : Eta TransferGovernor := λ r,
  mkTransferGovernor (gov_config r) (gov_kv_usage r) (expected_epochs r)
    (pair_bytes r) (dst_bytes r) (deferred r) (inflight r) (recompute_counts r).

Definition set_gov_kv_usage (v : gmap string KVUsageSample) (r : TransferGovernor) :
  TransferGovernor := ltac:(with_field r gov_kv_usage v).
Definition set_expected (v : gmap string string) (r : TransferGovernor) :
  TransferGovernor := ltac:(with_field r expected_epochs v).
Definition set_pair_bytes (v : gmap string Z) (r : TransferGovernor) :
  TransferGovernor := ltac:(with_field r pair_bytes v).
Definition set_dst_bytes (v : gmap string Z) (r : TransferGovernor) :
  TransferGovernor := ltac:(with_field r dst_bytes v).
Definition set_deferred (v : odict string (list TransferTask)) (r : TransferGovernor) :
  TransferGovernor := ltac:(with_field r deferred v).
Definition set_inflight (v : odict string TransferTask) (r : TransferGovernor) :
  TransferGovernor := ltac:(with_field r inflight v).
Definition set_recompute_counts (v : gmap string Z) (r : TransferGovernor) :
  TransferGovernor := ltac:(with_field r recompute_counts v).

Definition init_governor (cfg : GovernorConfig) : TransferGovernor :=
  mkTransferGovernor cfg ∅ ∅ ∅ ∅ [] [] ∅.

(** [f"{src}--{dst}"] *)
Definition pair_id (src dst : string) : string := (src +:+ "--" +:+ dst)%string.
Definition task_pair (t : TransferTask) : string := pair_id (task_src t) (task_dst t).

(** Reading a [defaultdict(int)]. *)
Definition bytes_at (m : gmap string Z) (k : string) : Z := default 0 (m !! k).

Definition gov_sample_is_fresh (instance_id : string) (now : Z) (g : TransferGovernor) : bool :=
  match gov_kv_usage g !! instance_id with
  | None => false
  | Some sample =>
      bool_decide (Some (sample_epoch sample) = expected_epochs g !! instance_id)
      && bool_decide (now - sampled_at sample ≤ gov_stale_after (gov_config g))
  end.

(** [x > cap] where [cap = MAX * (1.0 if priority >= 1 else 0.3)]. *)
Definition over_cap (cfg : GovernorConfig) (priority x : Z) : bool :=
  if bool_decide (1 ≤ priority)
  then bool_decide (MAX_BYTES_INFLIGHT_PER_PAIR cfg < x)
  else bool_decide (3 * MAX_BYTES_INFLIGHT_PER_PAIR cfg < 10 * x).

(** ** Ledger updates *)

Definition charge (t : TransferTask) (g : TransferGovernor) : TransferGovernor :=
  set_inflight (dset (task_req_id t) t (inflight g))
  (set_dst_bytes (<[task_dst t := bytes_at (dst_bytes g) (task_dst t) + task_kv_size t]>
                    (dst_bytes g))
  (set_pair_bytes (<[task_pair t := bytes_at (pair_bytes g) (task_pair t) + task_kv_size t]>
                     (pair_bytes g)) g)).

(** [del self._inflight_tasks[req]] and the two [max(0, bytes - size)]. *)
Definition refund (t : TransferTask) (g : TransferGovernor) : TransferGovernor :=
  set_dst_bytes (<[task_dst t := Z.max 0 (bytes_at (dst_bytes g) (task_dst t) - task_kv_size t)]>
                   (dst_bytes g))
  (set_pair_bytes (<[task_pair t :=
       Z.max 0 (bytes_at (pair_bytes g) (task_pair t) - task_kv_size t)]> (pair_bytes g))
  (set_inflight (dpop (task_req_id t) (inflight g)) g)).

(** [self._inflight_tasks.get(task.req_id) is task] *)
Definition is_current (t : TransferTask) (g : TransferGovernor) : bool :=
  match dget (task_req_id t) (inflight g) with
  | None => false
  | Some t' => bool_decide (task_oid t' = task_oid t)
  end.

Definition queue_of (g : TransferGovernor) (dst : string) : list TransferTask :=
  default [] (dget dst (deferred g)).

Definition is_drained_queue (q : list TransferTask) : bool := bool_decide (q = []).

Section governor.
Context {G : Type} `{RoutingGate G}.
Variable reg : option G.
Variable client : TransferTask → bool.
Variable now : Z.

Definition governs (instance_id : string) : bool :=
  match reg with None => true | Some r => can_govern r instance_id end.

Definition can_send (g : TransferGovernor) (dst : string)
    (size_bytes priority : Z) (src : option string) : bool :=
  if negb (governs dst) then false
  else if match src with Some s => negb (governs s) | None => false end then false
  else if negb (gov_sample_is_fresh dst now g) then false
  else match gov_kv_usage g !! dst with
  | None => false
  | Some sample =>
      if Qle_bool (HIGH_WATERMARK (gov_config g)) (ratio sample) then false
      else
        let current := match src with
          | Some s => bytes_at (pair_bytes g) (pair_id s dst)
          | None => bytes_at (dst_bytes g) dst end in
        if over_cap (gov_config g) priority size_bytes then bool_decide (current = 0)
        else negb (over_cap (gov_config g) priority (current + size_bytes))
  end.

Definition can_send_task (g : TransferGovernor) (t : TransferTask) : bool :=
  can_send g (task_dst t) (task_kv_size t) (task_priority t) (Some (task_src t)).

Definition dispatch (t : TransferTask) : method TransferGovernor unit := λ g,
  let g1 := charge t g in
  if client t then (Ok tt, g1)
  else (Raise TransferDispatchError, if is_current t g1 then refund t g1 else g1).

(** The loop of [_flush_deferred] on the deque [q]. *)
Fixpoint flush_loop (q : list TransferTask) (g : TransferGovernor) :
    result exn unit * list TransferTask * TransferGovernor :=
  match q with
  | [] => (Ok tt, [], g)
  | t :: q' =>
      if can_send_task g t then
        match dispatch t g with
        | (Ok _, g') => flush_loop q' g'
        | (Raise e, g') => (Raise e, q', g')
        end
      else (Ok tt, q, g)
  end.

Definition flush_deferred (dst : string) : method TransferGovernor unit := λ g,
  let '(r, q, g') := flush_loop (queue_of g dst) g in
  (r, set_deferred (dset dst q (deferred g')) g').

Definition submit (t : TransferTask) : method TransferGovernor unit := λ g,
  if can_send_task g t then dispatch t g
  else (Ok tt, set_deferred (dset (task_dst t) (queue_of g (task_dst t) ++ [t])
                               (deferred g)) g).

(** The first half of [_on_complete]: [None] when the task is stale. *)
Definition complete_release (t : TransferTask) (g : TransferGovernor) :
    option TransferGovernor :=
  if is_current t g then Some (refund t g) else None.

(** [_on_complete]: whether [task.on_complete()] ran, and the outcome of
    the flush that follows it. *)
Definition on_complete (t : TransferTask) (g : TransferGovernor) :
    bool * (result exn unit * TransferGovernor) :=
  match complete_release t g with
  | None => (false, (Ok tt, g))
  | Some g' => (task_on_complete t, flush_deferred (task_dst t) g')
  end.

Fixpoint tick_loop (dsts : list string) : method TransferGovernor unit := λ g,
  match dsts with
  | [] => (Ok tt, g)
  | dst :: dsts' =>
      if is_drained_queue (queue_of g dst) then tick_loop dsts' g
      else match flush_deferred dst g with
           | (Ok _, g') => tick_loop dsts' g'
           | (Raise e, g') => (Raise e, g')
           end
  end.

Definition tick : method TransferGovernor unit := λ g,
  tick_loop (dkeys (deferred g)) g.

Definition gov_update_kv_usage (instance_id : string) (sample : option KVUsageSample) :
    method TransferGovernor unit := λ g,
  match sample with
  | None => (Ok tt, set_gov_kv_usage (delete instance_id (gov_kv_usage g)) g)
  | Some x =>
      let prev := gov_kv_usage g !! instance_id in
      let normalized := mkKVUsageSample (clamp01 (ratio x)) (sample_epoch x)
                          (sampled_at x) in
      let g1 := set_gov_kv_usage (<[instance_id := normalized]> (gov_kv_usage g)) g in
      if match prev with
         | None => false
         | Some p =>
             Qle_bool (HIGH_WATERMARK (gov_config g)) (ratio p)
             && negb (Qle_bool (LOW_WATERMARK (gov_config g)) (ratio normalized))
             && gov_sample_is_fresh instance_id now g1
         end
      then flush_deferred instance_id g1
      else (Ok tt, g1)
  end.
End governor.

Definition set_expected_epochs (epochs : gmap string string) (g : TransferGovernor) :
    TransferGovernor :=
  set_gov_kv_usage
    (filter (λ kv, Some (sample_epoch kv.2) = epochs !! kv.1) (gov_kv_usage g))
    (set_expected epochs g).

(** [operation_id is None or task.operation_id == operation_id] *)
Definition matches_op (operation_id : option string) (t : TransferTask) : bool :=
  match operation_id with None => true | Some o => bool_decide (task_operation_id t = o) end.

Definition matches_task (rid : string) (operation_id : option string) (t : TransferTask) : bool :=
  bool_decide (task_req_id t = rid) && matches_op operation_id t.

Definition deferred_tasks (g : TransferGovernor) : list TransferTask :=
  concat (dvalues (deferred g)).

Definition owns (rid operation_id : string) (g : TransferGovernor) : bool :=
  match dget rid (inflight g) with
  | Some t => bool_decide (task_operation_id t = operation_id)
  | None => existsb (matches_task rid (Some operation_id)) (deferred_tasks g)
  end.

(** [cancel]: every queue is filtered, then the in-flight task refunded. *)
Definition cancel (rid : string) (operation_id : option string) (g : TransferGovernor) :
    bool * TransferGovernor :=
  let kept q := filter (λ t, matches_task rid operation_id t = false) q in
  let removed := existsb (matches_task rid operation_id) (deferred_tasks g) in
  let g1 := set_deferred ((λ kq, (kq.1, kept kq.2)) <$> deferred g) g in
  match dget rid (inflight g1) with
  | Some t => if matches_op operation_id t then (true, refund t g1) else (removed, g1)
  | None => (removed, g1)
  end.

Inductive TaskState : Type := task_inflight | task_deferred | task_none.

#[export] Instance TaskState_eq_dec : EqDecision TaskState.
Proof. solve_decision. Defined.

Definition task_state (rid : string) (operation_id : option string) (g : TransferGovernor) :
    TaskState :=
  if match dget rid (inflight g) with
     | Some t => matches_op operation_id t | None => false end
  then task_inflight
  else if existsb (matches_task rid operation_id) (deferred_tasks g) then task_deferred
  else task_none.

(** [{task.operation_id: task for task in tasks if ...}]: the last task with
    an operation id wins. *)
Definition matching_tasks (operation_ids : list string) (g : TransferGovernor) :
    odict string TransferTask :=
  foldl (λ d t, if decide (task_operation_id t ∈ operation_ids)
                then dset (task_operation_id t) t d else d)
    [] (dvalues (inflight g) ++ deferred_tasks g).

Definition quarantined_transfer_totals (operation_ids : list string) (g : TransferGovernor) :
    nat * gmap string Z :=
  let matching := matching_tasks operation_ids g in
  (length matching,
   foldl (λ m t, <[task_pair t := bytes_at m (task_pair t) + task_kv_size t]> m)
     ∅ (dvalues matching)).

Inductive FailureDecision : Type := recompute | abort.

Definition on_transfer_failure (rid : string) (g : TransferGovernor) :
    FailureDecision * TransferGovernor :=
  let count := bytes_at (recompute_counts g) rid in
  if bool_decide (max_recompute (gov_config g) ≤ count)
  then (abort, set_recompute_counts (delete rid (recompute_counts g)) g)
  else (recompute, set_recompute_counts (<[rid := count + 1]> (recompute_counts g)) g).

Definition finish_request (rid : string) (g : TransferGovernor) : TransferGovernor :=
  let g1 := (cancel rid None g).2 in
  set_recompute_counts (delete rid (recompute_counts g1)) g1.

Definition bytes_inflight (dst : string) (g : TransferGovernor) : Z :=
  bytes_at (dst_bytes g) dst.

Definition bytes_inflight_for_pair (src dst : string) (g : TransferGovernor) : Z :=
  bytes_at (pair_bytes g) (pair_id src dst).

Definition pair_bytes_inflight_snapshot (g : TransferGovernor) : gmap string Z :=
  filter (λ kv, 0 < kv.2) (pair_bytes g).

Definition deferred_depth (dst : string) (g : TransferGovernor) : nat :=
  length (queue_of g dst).

Definition all_inflight_zero (g : TransferGovernor) : bool :=
  bool_decide (map_Forall (λ _ v, v = 0) (dst_bytes g)).

Definition is_drained (g : TransferGovernor) : bool :=
  all_inflight_zero g && forallb is_drained_queue (dvalues (deferred g)).

(** ** Accounting *)

Definition pair_share (p : string) (t : TransferTask) : Z :=
  if decide (task_pair t = p) then task_kv_size t else 0.
Definition dst_share (d : string) (t : TransferTask) : Z :=
  if decide (task_dst t = d) then task_kv_size t else 0.

(** The tasks the ledger says are in flight. *)
Definition inflight_tasks (g : TransferGovernor) : list TransferTask :=
  dvalues (inflight g).

(** The in-flight ledger agrees with the byte tables: each pair's (and each
    destination's) bytes are the sizes of its in-flight tasks, and a pair
    exceeds its cap only while one oversized task has it to itself. *)
Record gov_acct (g : TransferGovernor) : Prop := {
  ga_max : 0 ≤ MAX_BYTES_INFLIGHT_PER_PAIR (gov_config g);
  ga_dict : dwf (inflight g);
  ga_key : ∀ r t, dget r (inflight g) = Some t → task_req_id t = r ∧ 0 ≤ task_kv_size t;
  ga_pair : ∀ p, bytes_at (pair_bytes g) p = sumZ (pair_share p) (inflight_tasks g);
  ga_dst : ∀ d, bytes_at (dst_bytes g) d = sumZ (dst_share d) (inflight_tasks g);
  ga_cap : ∀ p, bytes_at (pair_bytes g) p ≤ MAX_BYTES_INFLIGHT_PER_PAIR (gov_config g)
    ∨ ∃ r t, dget r (inflight g) = Some t ∧ task_pair t = p
        ∧ bytes_at (pair_bytes g) p = task_kv_size t }.

Lemma bytes_at_insert m k v k' :
  bytes_at (<[k := v]> m) k' = if decide (k' = k) then v else bytes_at m k'.
Proof.
  unfold bytes_at. destruct (decide (k' = k)) as [->|].
  - by rewrite lookup_insert_eq.
  - by rewrite lookup_insert_ne by congruence.
Qed.

Lemma pair_share_nonneg p t : 0 ≤ task_kv_size t → 0 ≤ pair_share p t.
Proof. unfold pair_share. case_decide; lia. Qed.

Lemma pair_share_eq p t : task_pair t = p → pair_share p t = task_kv_size t.
Proof. intros. unfold pair_share. by rewrite decide_True. Qed.

Lemma dst_share_eq d t : task_dst t = d → dst_share d t = task_kv_size t.
Proof. intros. unfold dst_share. by rewrite decide_True. Qed.

(** The share of one in-flight task is part of the pair's bytes. *)
Lemma share_le_pair g r t :
  gov_acct g → dget r (inflight g) = Some t →
  pair_share (task_pair t) t ≤ bytes_at (pair_bytes g) (task_pair t)
  ∧ ∀ r' t', r' ≠ r → dget r' (inflight g) = Some t' → task_pair t' = task_pair t →
      task_kv_size t + task_kv_size t' ≤ bytes_at (pair_bytes g) (task_pair t).
Proof.
  intros Ha Hr. rewrite (ga_pair g Ha). unfold inflight_tasks.
  assert (∀ (d : odict string TransferTask) p,
    (∀ r0 t0, dget r0 d = Some t0 → 0 ≤ task_kv_size t0) → dwf d →
    0 ≤ sumZ (pair_share p) (dvalues d)) as Hpos.
  { intros d p Hd Hwf. apply sumZ_nonneg, Forall_forall.
    intros x ([k x'] & -> & Hin)%list_elem_of_fmap.
    apply pair_share_nonneg. apply dget_Some in Hin; eauto. }
  assert (∀ r0 t0, dget r0 (dpop r (inflight g)) = Some t0 → 0 ≤ task_kv_size t0) as Hp1.
  { intros r0 t0. dsimpl. case_decide; [done|]. intros ?%(ga_key g Ha). naive_solver. }
  pose proof (sumZ_dpop (pair_share (task_pair t)) r t _ (ga_dict g Ha) Hr) as Hs.
  split.
  - pose proof (Hpos _ (task_pair t) Hp1 (dwf_dpop _ _ (ga_dict g Ha))). lia.
  - intros r' t' Hne Hr' Hp.
    assert (dget r' (dpop r (inflight g)) = Some t') as Hr2
      by by rewrite dget_dpop_ne.
    pose proof (sumZ_dpop (pair_share (task_pair t)) r' t' _
                  (dwf_dpop r _ (ga_dict g Ha)) Hr2) as Hs2.
    assert (∀ r0 t0, dget r0 (dpop r' (dpop r (inflight g))) = Some t0 →
              0 ≤ task_kv_size t0) as Hp2.
    { intros r0 t0. rewrite dget_dpop. case_decide; [done|]. apply Hp1. }
    pose proof (Hpos _ (task_pair t) Hp2 (dwf_dpop _ _ (dwf_dpop _ _ (ga_dict g Ha)))).
    rewrite (pair_share_eq _ t') in Hs2 by done.
    rewrite (pair_share_eq _ t) in Hs by done. lia.
Qed.

Lemma refund_acct g t :
  gov_acct g → dget (task_req_id t) (inflight g) = Some t → gov_acct (refund t g).
Proof.
  intros Ha Ht. pose proof (share_le_pair g _ _ Ha Ht) as [Hle Hle2].
  destruct (ga_key g Ha _ _ Ht) as [_ Hnn].
  rewrite pair_share_eq in Hle by done.
  assert (task_kv_size t ≤ bytes_at (dst_bytes g) (task_dst t)) as Hled.
  { rewrite (ga_dst g Ha). unfold inflight_tasks.
    pose proof (sumZ_dpop (dst_share (task_dst t)) _ t _ (ga_dict g Ha) Ht) as Hs.
    assert (0 ≤ sumZ (dst_share (task_dst t)) (dvalues (dpop (task_req_id t) (inflight g)))).
    { apply sumZ_nonneg, Forall_forall.
      intros x ([k x'] & -> & Hin)%list_elem_of_fmap. unfold dst_share.
      case_decide; [|done]. apply dget_Some in Hin; [|apply dwf_dpop, Ha].
      revert Hin. dsimpl. case_decide; [done|]. intros ?%(ga_key g Ha). naive_solver. }
    rewrite (dst_share_eq _ t) in Hs by done. lia. }
  split; simpl.
  - apply Ha.
  - apply dwf_dpop, Ha.
  - intros r t'. dsimpl. case_decide; [done|]. apply Ha.
  - intros p. rewrite bytes_at_insert. unfold inflight_tasks. simpl.
    rewrite (sumZ_dpop _ _ t) by (done || apply Ha).
    fold (inflight_tasks g). rewrite <- (ga_pair g Ha p). unfold pair_share.
    repeat case_decide; subst; naive_solver lia.
  - intros d. rewrite bytes_at_insert. unfold inflight_tasks. simpl.
    rewrite (sumZ_dpop _ _ t) by (done || apply Ha).
    fold (inflight_tasks g). rewrite <- (ga_dst g Ha d). unfold dst_share.
    repeat case_decide; subst; naive_solver lia.
  - intros p. rewrite bytes_at_insert.
    destruct (ga_cap g Ha p) as [Hc|(r & t' & Hr & Hp & Hb)].
    + left. case_decide; subst; lia.
    + destruct (decide (r = task_req_id t)) as [->|Hne].
      * simplify_eq. left. rewrite decide_True by done. rewrite Hb.
        pose proof (ga_max g Ha). lia.
      * case_decide as Hpt; subst.
        -- right. exists r, t'. rewrite dget_dpop_ne by done.
           split_and!; try done. pose proof (Hle2 r t' Hne Hr Hpt).
           destruct (ga_key g Ha r t' Hr). rewrite Hpt in *. lia.
        -- right. exists r, t'. by rewrite dget_dpop_ne.
Qed.

Lemma charge_acct g t :
  gov_acct g → dget (task_req_id t) (inflight g) = None → 0 ≤ task_kv_size t →
  (bytes_at (pair_bytes g) (task_pair t) + task_kv_size t
     ≤ MAX_BYTES_INFLIGHT_PER_PAIR (gov_config g)
   ∨ bytes_at (pair_bytes g) (task_pair t) = 0) →
  gov_acct (charge t g).
Proof.
  intros Ha Hf Hnn Hcap. split; simpl.
  - apply Ha.
  - apply dwf_dset, Ha.
  - intros r t'. dsimpl. case_decide; intros; simplify_eq; [done|]. by apply Ha.
  - intros p. rewrite bytes_at_insert. unfold inflight_tasks. simpl.
    rewrite sumZ_dset_fresh by done.
    fold (inflight_tasks g). rewrite <- (ga_pair g Ha p). unfold pair_share.
    repeat case_decide; subst; naive_solver lia.
  - intros d. rewrite bytes_at_insert. unfold inflight_tasks. simpl.
    rewrite sumZ_dset_fresh by done.
    fold (inflight_tasks g). rewrite <- (ga_dst g Ha d). unfold dst_share.
    repeat case_decide; subst; naive_solver lia.
  - intros p. rewrite bytes_at_insert. case_decide as Hp; [subst p|].
    + destruct Hcap as [Hcap| ->]; [by left|]. right.
      exists (task_req_id t), t. rewrite dget_dset_eq. split_and!; [done|done|lia].
    + destruct (ga_cap g Ha p) as [Hc|(r & t' & Hr & Hp' & Hb)]; [by left|].
      right. exists r, t'. rewrite dget_dset_ne by congruence. done.
Qed.

(** Undoing a charge that the client refused. *)
Lemma refund_charge_inflight g t :
  dget (task_req_id t) (inflight g) = None →
  inflight (refund t (charge t g)) = inflight g.
Proof.
  intros Hf. simpl. rewrite dset_fresh by done. unfold dpop.
  rewrite filter_app. fold (dpop (task_req_id t) (inflight g)).
  rewrite dpop_fresh by done. rewrite filter_cons_False by naive_solver.
  by rewrite filter_nil, app_nil_r.
Qed.

Section governor_facts.
Context {G : Type} `{RoutingGate G}.
Variable reg : option G.
Variable client : TransferTask → bool.
Variable now : Z.

Lemma can_send_task_cap g t :
  0 ≤ MAX_BYTES_INFLIGHT_PER_PAIR (gov_config g) → 0 ≤ task_kv_size t →
  0 ≤ bytes_at (pair_bytes g) (task_pair t) →
  can_send_task reg now g t = true →
  bytes_at (pair_bytes g) (task_pair t) + task_kv_size t
    ≤ MAX_BYTES_INFLIGHT_PER_PAIR (gov_config g)
  ∨ bytes_at (pair_bytes g) (task_pair t) = 0.
Proof.
  intros HM Hs Hb. unfold can_send_task, can_send, over_cap.
  repeat (case_match || case_bool_decide); try done; try (left; fold (task_pair t) in *; lia).
  all: intros; by right.
Qed.

(** What [_dispatch] does to a ledger that does not know the request. *)
Lemma dispatch_acct g t r g' :
  gov_acct g →
  dget (task_req_id t) (inflight g) = None → 0 ≤ task_kv_size t →
  can_send_task reg now g t = true →
  dispatch client t g = (r, g') →
  gov_acct g' ∧ deferred g' = deferred g ∧ gov_config g' = gov_config g
  ∧ match r with
    | Ok _ => client t = true ∧ inflight g' = inflight g ++ [(task_req_id t, t)]
    | Raise e => client t = false ∧ e = TransferDispatchError ∧ inflight g' = inflight g
    end.
Proof.
  intros Ha Hf Hnn Hcs. unfold dispatch.
  assert (gov_acct (charge t g)) as Hch.
  { apply charge_acct; try done. eapply can_send_task_cap; try done; [apply Ha|].
    rewrite (ga_pair g Ha). apply sumZ_nonneg, Forall_forall.
    intros x ([k x'] & -> & Hin)%list_elem_of_fmap.
    apply pair_share_nonneg. apply dget_Some in Hin; [|apply Ha].
    by apply (ga_key g Ha) in Hin as [_ ?]. }
  destruct (client t); intros [= <- <-].
  - split_and!; try done. simpl. by apply dset_fresh.
  - assert (is_current t (charge t g) = true) as Hc.
    { unfold is_current. simpl. rewrite dget_dset_eq. by apply bool_decide_true. }
    rewrite Hc. split_and!; try done.
    + apply refund_acct; [done|]. apply dget_dset_eq.
    + by apply refund_charge_inflight.
Qed.

Definition entries (ts : list TransferTask) : odict string TransferTask :=
  (λ t, (task_req_id t, t)) <$> ts.

(** The flush loop sends a prefix of the queue, in order; it stops at the
    first task that may not be sent, or drops the one whose dispatch
    raised. *)
Lemma flush_loop_shape q g r q' g' :
  gov_acct g →
  Forall (λ t, 0 ≤ task_kv_size t) q →
  NoDup (dkeys (inflight g) ++ (task_req_id <$> q)) →
  flush_loop reg client now q g = (r, q', g') →
  gov_acct g' ∧ deferred g' = deferred g ∧ gov_config g' = gov_config g
  ∧ ∃ sent, inflight g' = inflight g ++ entries sent
      ∧ Forall (λ t, client t = true) sent
      ∧ match r with
        | Ok _ => q = sent ++ q'
            ∧ (q' = [] ∨ ∃ t q2, q' = t :: q2 ∧ can_send_task reg now g' t = false)
        | Raise e => e = TransferDispatchError
            ∧ ∃ t, client t = false ∧ q = sent ++ t :: q'
        end.
Proof.
  revert g. induction q as [|t q IH]; intros g Ha Hall Hnd; simpl.
  - intros [= <- <- <-]. split_and!; try done. exists [].
    rewrite app_nil_r. split_and!; try done; by left.
  - apply Forall_cons in Hall as [Hnn Hall].
    destruct (can_send_task reg now g t) eqn:Hcs.
    2:{ intros [= <- <- <-]. split_and!; try done. exists [].
        rewrite app_nil_r. split_and!; try done. right; eauto. }
    assert (dget (task_req_id t) (inflight g) = None) as Hf.
    { apply dget_None. intros Hin. apply NoDup_app in Hnd as (_ & Hd & _).
      apply (Hd _ Hin). rewrite fmap_cons. by left. }
    destruct (dispatch client t g) as [rd gd] eqn:Hd.
    apply dispatch_acct in Hd as (Ha' & Hdef & Hcfg & Hr); try done.
    destruct rd as [[]|e].
    + destruct Hr as [Hcl Hin]. intros Hfl.
      apply IH in Hfl as (Hag & Hdg & Hcg & sent & Hs & Hsc & Hm); try done;
        rewrite ?Hcfg in *; try done.
      2:{ rewrite Hin. unfold dkeys in *. rewrite fmap_app. simpl.
          by rewrite <- app_assoc. }
      rewrite Hdef in Hdg. split_and!; try done. exists (t :: sent).
      rewrite Hs, Hin. split_and!; [by rewrite <- app_assoc|by constructor|].
      destruct r as [[]|e'].
      * destruct Hm as [-> Hstop]. done.
      * destruct Hm as (-> & t2 & Hc2 & ->). eauto.
    + destruct Hr as (Hcl & -> & Hin). intros [= <- <- <-].
      split_and!; try done. exists []. rewrite app_nil_r.
      split_and!; try done. eauto.
Qed.
End governor_facts.

(** ** The whole ledger *)

(** The request ids the governor owns, in flight or deferred. *)
Definition ledger_ids (g : TransferGovernor) : list string :=
  dkeys (inflight g) ++ (task_req_id <$> deferred_tasks g).

Record gov_wf (g : TransferGovernor) : Prop := {
  gw_acct : gov_acct g;
  gw_dict : dwf (deferred g);
  gw_queue : ∀ d q, dget d (deferred g) = Some q →
    Forall (λ t, task_dst t = d ∧ 0 ≤ task_kv_size t) q;
  gw_ids : NoDup (ledger_ids g) }.

Lemma concat_dset d q (def : odict string (list TransferTask)) :
  dwf def → concat (dvalues (dset d q def)) ≡ₚ q ++ concat (dvalues (dpop d def)).
Proof.
  intros Hwf. unfold dvalues. by rewrite (dset_perm d q def Hwf).
Qed.

Lemma deferred_split d g :
  dwf (deferred g) →
  deferred_tasks g ≡ₚ queue_of g d ++ concat (dvalues (dpop d (deferred g))).
Proof.
  intros Hwf. unfold deferred_tasks, queue_of.
  destruct (dget d (deferred g)) as [q|] eqn:Hq; simpl.
  - unfold dvalues. by rewrite (dget_perm d q (deferred g) Hwf Hq) at 1.
  - by rewrite dpop_fresh.
Qed.

Lemma queue_of_ok g d :
  gov_wf g → Forall (λ t, task_dst t = d ∧ 0 ≤ task_kv_size t) (queue_of g d).
Proof.
  intros Hwf. unfold queue_of. destruct (dget d (deferred g)) eqn:Hq; simpl; [|done].
  by apply (gw_queue g Hwf).
Qed.

Lemma init_governor_wf cfg :
  0 ≤ MAX_BYTES_INFLIGHT_PER_PAIR cfg → gov_wf (init_governor cfg).
Proof.
  intros HM. split; simpl; try done; try apply dwf_nil; [|constructor].
  split; simpl; try done; try apply dwf_nil. intros p. by left.
Qed.

(** Rebuilding the invariant after one queue changed from [q] to a part of
    itself and some of it went in flight. *)
Lemma requeue_wf g g' d q' sent :
  gov_wf g → gov_acct g' → deferred g' = deferred g →
  inflight g' = inflight g ++ entries sent →
  (sent ++ q') ⊆+ queue_of g d →
  gov_wf (set_deferred (dset d q' (deferred g')) g').
Proof.
  intros Hwf Ha Hd Hi Hsub. split; simpl.
  - destruct Ha. by split.
  - rewrite Hd. apply dwf_dset, Hwf.
  - intros d' q. rewrite Hd. dsimpl. case_decide; [|apply Hwf].
    intros [= <-]. subst d'. pose proof (queue_of_ok g d Hwf) as Hq.
    apply Forall_forall. intros t Ht. rewrite Forall_forall in Hq. apply Hq.
    eapply elem_of_submseteq; [|done]. set_solver.
  - unfold ledger_ids, deferred_tasks. simpl. rewrite Hd, Hi.
    rewrite concat_dset by apply Hwf. pose proof (gw_ids g Hwf) as Hn.
    unfold ledger_ids in Hn. rewrite (deferred_split d g) in Hn by apply Hwf.
    unfold dkeys in *. rewrite fmap_app in *.
    assert ((entries sent).*1 = task_req_id <$> sent) as ->.
    { unfold entries. rewrite <- list_fmap_compose. done. }
    rewrite fmap_app in *. eapply submseteq_NoDup; [|exact Hn].
    rewrite <- app_assoc. apply submseteq_app; [done|]. rewrite app_assoc.
    apply submseteq_app; [|done]. rewrite <- fmap_app. by apply fmap_submseteq.
Qed.

Section governor_wf.
Context {G : Type} `{RoutingGate G}.
Variable reg : option G.
Variable client : TransferTask → bool.
Variable now : Z.

Lemma flush_deferred_shape g dst r g' :
  gov_wf g → flush_deferred reg client now dst g = (r, g') →
  gov_wf g' ∧ gov_config g' = gov_config g
  ∧ ∃ sent q', inflight g' = inflight g ++ entries sent
      ∧ Forall (λ t, client t = true) sent
      ∧ queue_of g' dst = q'
      ∧ (∀ d, d ≠ dst → queue_of g' d = queue_of g d)
      ∧ match r with
        | Ok _ => queue_of g dst = sent ++ q'
            ∧ (q' = [] ∨ ∃ t q2, q' = t :: q2 ∧ can_send_task reg now g' t = false)
        | Raise e => e = TransferDispatchError
            ∧ ∃ t, client t = false ∧ queue_of g dst = sent ++ t :: q'
        end.
Proof.
  intros Hwf. unfold flush_deferred.
  destruct (flush_loop reg client now (queue_of g dst) g) as [[r0 q'] g0] eqn:Hf.
  intros [= <- <-]. pose proof (queue_of_ok g dst Hwf) as Hq.
  apply flush_loop_shape in Hf as (Ha & Hd & Hc & sent & Hi & Hcl & Hm);
    [|apply Hwf|by eapply Forall_impl; [exact Hq|naive_solver]|].
  2:{ pose proof (gw_ids g Hwf) as Hn. unfold ledger_ids in Hn.
      rewrite (deferred_split dst g) in Hn by apply Hwf.
      rewrite fmap_app, app_assoc in Hn. by apply NoDup_app in Hn as [? _]. }
  split_and!; [|done|].
  - eapply requeue_wf; try done. destruct r0 as [[]|e].
    + destruct Hm as [-> _]. done.
    + destruct Hm as (_ & t & _ & ->). apply submseteq_app; [done|].
      by apply submseteq_cons.
  - exists sent, q'. split_and!; try done.
    + unfold queue_of. simpl. by rewrite dget_dset_eq.
    + intros d Hne. unfold queue_of. simpl. by rewrite dget_dset_ne, Hd.
Qed.

Lemma flush_deferred_wf g dst :
  gov_wf g → gov_wf (flush_deferred reg client now dst g).2.
Proof.
  intros Hwf. destruct (flush_deferred reg client now dst g) as [r g'] eqn:Hf.
  by apply flush_deferred_shape in Hf as [? _].
Qed.

Lemma submit_wf g t :
  gov_wf g → 0 ≤ task_kv_size t → task_req_id t ∉ ledger_ids g →
  gov_wf (submit reg client now t g).2.
Proof.
  intros Hwf Hnn Hni. unfold submit.
  assert (dget (task_req_id t) (inflight g) = None) as Hf.
  { apply dget_None. unfold ledger_ids in Hni. set_solver. }
  destruct (can_send_task reg now g t) eqn:Hcs.
  - destruct (dispatch client t g) as [r g'] eqn:Hd. simpl.
    apply (dispatch_acct reg client now) in Hd as (Ha & Hdef & Hc & Hr); try done;
      [|apply Hwf].
    split; [done|rewrite Hdef; apply Hwf|rewrite Hdef; apply Hwf|].
    unfold ledger_ids, deferred_tasks. rewrite Hdef.
    destruct r as [[]|e].
    + destruct Hr as [_ ->]. unfold dkeys. rewrite fmap_app. simpl.
      rewrite <- app_assoc. simpl.
      assert ((inflight g).*1 ++ task_req_id t :: (task_req_id <$> deferred_tasks g)
              ≡ₚ task_req_id t :: ledger_ids g) as Hp
        by by rewrite <- Permutation_middle.
      rewrite Hp. constructor; [done|apply Hwf].
    + destruct Hr as (_ & _ & ->). apply (gw_ids g Hwf).
  - simpl. split; simpl; [destruct (gw_acct g Hwf); by split|apply dwf_dset, Hwf| |].
    + intros d q. dsimpl. case_decide; [|apply Hwf]. intros [= <-]. subst d.
      apply Forall_app. split; [by apply queue_of_ok|]. by repeat constructor.
    + unfold ledger_ids, deferred_tasks. simpl.
      rewrite concat_dset by apply Hwf.
      assert (dkeys (inflight g) ++ (task_req_id <$>
          (queue_of g (task_dst t) ++ [t])
            ++ concat (dvalues (dpop (task_dst t) (deferred g))))
        ≡ₚ task_req_id t :: ledger_ids g) as ->;
        [|constructor; [done|apply Hwf]].
      unfold ledger_ids. rewrite (deferred_split (task_dst t) g) by apply Hwf.
      rewrite !fmap_app. simpl. solve_Permutation.
Qed.

Lemma refund_wf g t :
  gov_wf g → dget (task_req_id t) (inflight g) = Some t → gov_wf (refund t g).
Proof.
  intros Hwf Ht. split; simpl; [apply refund_acct; [apply Hwf|done]|apply Hwf..|].
  unfold ledger_ids. simpl. eapply submseteq_NoDup; [|apply (gw_ids g Hwf)].
  apply submseteq_app; [|done]. rewrite dkeys_dpop.
  apply sublist_submseteq, sublist_filter.
Qed.

Lemma on_complete_wf g t :
  gov_wf g →
  (∀ t', dget (task_req_id t) (inflight g) = Some t' → task_oid t' = task_oid t → t' = t) →
  gov_wf (on_complete reg client now t g).2.2.
Proof.
  intros Hwf Hobj. unfold on_complete, complete_release, is_current.
  destruct (dget (task_req_id t) (inflight g)) as [t'|] eqn:Ht; [|done].
  case_bool_decide as Ho; [|done]. simpl.
  rewrite (Hobj t') in Ht by done. by apply flush_deferred_wf, refund_wf.
Qed.

Lemma tick_loop_wf dsts g : gov_wf g → gov_wf (tick_loop reg client now dsts g).2.
Proof.
  revert g. induction dsts as [|d dsts IH]; intros g Hwf; simpl; [done|].
  destruct (is_drained_queue _); [by apply IH|].
  pose proof (flush_deferred_wf g d Hwf) as Hf.
  destruct (flush_deferred reg client now d g) as [[[]|e] g']; simpl in *; auto.
Qed.
End governor_wf.

Lemma same_ledger_wf g g' :
  gov_wf g → gov_config g' = gov_config g → pair_bytes g' = pair_bytes g →
  dst_bytes g' = dst_bytes g → deferred g' = deferred g → inflight g' = inflight g →
  gov_wf g'.
Proof.
  intros [[] ? ? ?] Hc Hp Hd Hq Hi.
  split; [split|..]; unfold ledger_ids, deferred_tasks, inflight_tasks in *;
    rewrite ?Hc, ?Hp, ?Hd, ?Hq, ?Hi; done.
Qed.

Lemma gov_update_kv_usage_wf {G} `{RoutingGate G} (reg : option G) client now i x g :
  gov_wf g → gov_wf (gov_update_kv_usage reg client now i x g).2.
Proof.
  intros Hwf. unfold gov_update_kv_usage.
  destruct x as [x|]; [|by eapply same_ledger_wf].
  set (g1 := set_gov_kv_usage _ g).
  assert (gov_wf g1) by by eapply same_ledger_wf.
  repeat case_match; simpl; auto using flush_deferred_wf.
Qed.

Lemma cancel_deferred_wf rid op g :
  gov_wf g →
  gov_wf (set_deferred
    ((λ kq, (kq.1, filter (λ t, matches_task rid op t = false) kq.2)) <$> deferred g) g).
Proof.
  intros Hwf. set (f := λ t, matches_task rid op t = false).
  assert (∀ d, dget d ((λ kq : string * list TransferTask, (kq.1, filter f kq.2)) <$> deferred g)
          = filter f <$> dget d (deferred g)) as Hget.
  { intros d. induction (deferred g) as [|[k q] def IH]; simpl; [done|].
    case_decide; [done|apply IH]. }
  split; simpl.
  - destruct (gw_acct g Hwf). by split.
  - unfold dwf, dkeys. rewrite <- list_fmap_compose. apply (gw_dict g Hwf).
  - intros d q. rewrite Hget. intros (q0 & Hq0 & ->)%fmap_Some.
    apply (gw_queue g Hwf) in Hq0. rewrite Forall_forall in *.
    intros t [_ Ht]%list_elem_of_filter. auto.
  - unfold ledger_ids, deferred_tasks. simpl.
    eapply submseteq_NoDup; [|apply (gw_ids g Hwf)].
    apply submseteq_app; [done|]. apply fmap_submseteq, sublist_submseteq.
    unfold deferred_tasks, dvalues. clear Hget Hwf.
    induction (deferred g) as [|[k q] def IH]; simpl; [done|].
    apply sublist_app; [apply sublist_filter|done].
Qed.

Lemma cancel_wf rid op g : gov_wf g → gov_wf (cancel rid op g).2.
Proof.
  intros Hwf. unfold cancel. simpl.
  pose proof (cancel_deferred_wf rid op g Hwf) as Hwf1.
  destruct (dget rid (inflight g)) as [t|] eqn:Ht; [|done].
  destruct (matches_op op t); [|done]. simpl.
  apply refund_wf; [done|]. simpl.
  destruct (ga_key g (gw_acct g Hwf) _ _ Ht) as [-> _]. done.
Qed.

(** ** Steps of the governor

    Each operation, with the registry, client and clock it runs with.  Two
    side conditions state how the governor is used: a submitted task has a
    non-negative size and its request is not already in the ledger, and a
    completion names a task object (one address, one object). *)
Inductive gov_step {G} `{RoutingGate G} (g : TransferGovernor) : TransferGovernor → Prop :=
| gov_submit (reg : option G) client now t :
    0 ≤ task_kv_size t → task_req_id t ∉ ledger_ids g →
    gov_step g (submit reg client now t g).2
| gov_complete (reg : option G) client now t :
    (∀ t', dget (task_req_id t) (inflight g) = Some t' →
       task_oid t' = task_oid t → t' = t) →
    gov_step g (on_complete reg client now t g).2.2
| gov_tick (reg : option G) client now : gov_step g (tick reg client now g).2
| gov_usage (reg : option G) client now i x :
    gov_step g (gov_update_kv_usage reg client now i x g).2
| gov_epochs m : gov_step g (set_expected_epochs m g)
| gov_cancel rid op : gov_step g (cancel rid op g).2
| gov_failure rid : gov_step g (on_transfer_failure rid g).2
| gov_finish rid : gov_step g (finish_request rid g).

Lemma gov_step_wf {G} `{RoutingGate G} g g' :
  gov_wf g → gov_step (G := G) g g' → gov_wf g'.
Proof.
  intros Hwf Hs. destruct Hs.
  - by apply submit_wf.
  - by apply on_complete_wf.
  - by apply tick_loop_wf.
  - by apply gov_update_kv_usage_wf.
  - by eapply same_ledger_wf.
  - by apply cancel_wf.
  - unfold on_transfer_failure. case_bool_decide; by eapply same_ledger_wf.
  - eapply same_ledger_wf; [by apply (cancel_wf rid None)|done..].
Qed.

#[export] Hint Resolve gov_step_wf init_governor_wf : prism.

(** The task's request leaves the ledger when its completion is accepted. *)
Lemma refund_not_in_ledger g t :
  gov_wf g → dget (task_req_id t) (inflight g) = Some t →
  task_req_id t ∉ ledger_ids (refund t g).
Proof.
  intros Hwf Ht. pose proof (gw_ids g Hwf) as Hn. unfold ledger_ids in *. simpl.
  apply NoDup_app in Hn as (_ & Hd & _). apply dget_Some_keys in Ht.
  rewrite elem_of_app, elem_of_dkeys_dpop. intros [[? _]|Hin]; [done|].
  by apply (Hd _ Ht).
Qed.

Lemma flush_ledger {G} `{RoutingGate G} (reg : option G) client now dst g x :
  gov_wf g → x ∉ ledger_ids g →
  dget x (inflight (flush_deferred reg client now dst g).2) = None.
Proof.
  intros Hwf Hx. destruct (flush_deferred reg client now dst g) as [r g'] eqn:Hf.
  apply flush_deferred_shape in Hf as (_ & _ & sent & q' & Hi & _ & _ & _ & Hm); [|done].
  simpl. apply dget_None. rewrite Hi. unfold dkeys. rewrite fmap_app.
  assert ((entries sent).*1 = task_req_id <$> sent) as ->.
  { unfold entries. rewrite <- list_fmap_compose. done. }
  assert (∀ t, t ∈ sent → t ∈ deferred_tasks g) as Hsent.
  { intros t Ht. rewrite (deferred_split dst g) by apply Hwf.
    destruct r as [[]|e]; [destruct Hm as [-> _]|destruct Hm as (_ & ? & _ & ->)];
      set_solver. }
  unfold ledger_ids, dkeys in Hx. intros [Hin|Hin]%elem_of_app; [set_solver|].
  apply Hx. apply elem_of_app. right.
  apply list_elem_of_fmap in Hin as (t & -> & Ht).
  apply list_elem_of_fmap. eauto.
Qed.

(** [k] failures of the same request in a row. *)
Fixpoint failures (k : nat) (rid : string) (g : TransferGovernor) :
    list FailureDecision * TransferGovernor :=
  match k with
  | O => ([], g)
  | S k' =>
      let '(d, g1) := on_transfer_failure rid g in
      let '(ds, g2) := failures k' rid g1 in
      (d :: ds, g2)
  end.

Lemma failures_S k rid g :
  failures (S k) rid g =
  (let '(d, g1) := on_transfer_failure rid g in
   let '(ds, g2) := failures k rid g1 in (d :: ds, g2)).
Proof. done. Qed.

Lemma on_complete_current {G} `{RoutingGate G} (reg : option G) client now t g :
  dget (task_req_id t) (inflight g) = Some t →
  on_complete reg client now t g
  = (task_on_complete t, flush_deferred reg client now (task_dst t) (refund t g)).
Proof.
  intros Ht. unfold on_complete, complete_release, is_current.
  by rewrite Ht, bool_decide_true.
Qed.

Lemma on_complete_stale {G} `{RoutingGate G} (reg : option G) client now t g :
  dget (task_req_id t) (inflight g) = None →
  on_complete reg client now t g = (false, (Ok tt, g)).
Proof. intros Ht. unfold on_complete, complete_release, is_current. by rewrite Ht. Qed.

Lemma drained_queues (qs : list (list TransferTask)) :
  forallb is_drained_queue qs = true ↔ concat qs = [].
Proof.
  induction qs as [|q qs IH]; simpl; [done|]. rewrite andb_true_iff, IH.
  unfold is_drained_queue. rewrite bool_decide_eq_true. split.
  - by intros [-> ->].
  - apply app_eq_nil.
Qed.

Lemma dst_sum_zero d ts :
  Forall (λ t, 0 ≤ task_kv_size t) ts →
  sumZ (dst_share d) ts = 0 ↔ Forall (λ t, task_dst t = d → task_kv_size t = 0) ts.
Proof.
  induction 1 as [|t ts Ht Hts IH]; simpl; [by split; [constructor|]|].
  rewrite Forall_cons, <- IH.
  assert (0 ≤ sumZ (dst_share d) ts).
  { apply sumZ_nonneg. eapply Forall_impl; [exact Hts|]. intros x ?; simpl in *.
    unfold dst_share. case_decide; lia. }
  unfold dst_share at 1. case_decide; naive_solver lia.
Qed.

(** ** Properties *)


(** flushing a destination is FIFO and leaves the other queues alone: the
    tasks handed to the client are a prefix of the queue, in order, appended
    to the in-flight ledger; the flush ends with an empty queue or at a task
    that may not be sent now.  When a dispatch raises, the flush raises
    TransferDispatchError and that task is in neither the queue nor the
    in-flight ledger any more. *)
Theorem flush_deferred_fifo {G} `{RoutingGate G} (reg : option G) client now dst g r g' :
  gov_wf g → flush_deferred reg client now dst g = (r, g') →
  ∃ sent, inflight g' = inflight g ++ entries sent
    ∧ (∀ d, d ≠ dst → queue_of g' d = queue_of g d)
    ∧ match r with
      | Ok _ => queue_of g dst = sent ++ queue_of g' dst
          ∧ (queue_of g' dst = []
             ∨ ∃ t q, queue_of g' dst = t :: q ∧ can_send_task reg now g' t = false)
      | Raise e => e = TransferDispatchError
          ∧ ∃ t, client t = false ∧ queue_of g dst = sent ++ t :: queue_of g' dst
               ∧ task_req_id t ∉ ledger_ids g'
      end.
Proof.
  intros Hwf Hf. pose proof Hf as Hf0.
  apply flush_deferred_shape in Hf as (Hwf' & _ & sent & q' & Hi & _ & Hq & Ho & Hm);
    [|done].
  exists sent. split_and!; try done. destruct r as [[]|e]; [by subst q'|].
  destruct Hm as (-> & t & Hc & Hs). split; [done|]. exists t. subst q'.
  split_and!; try done. pose proof (gw_ids g Hwf) as Hn. unfold ledger_ids in Hn.
  rewrite (deferred_split dst g) in Hn by apply Hwf. rewrite Hs in Hn.
  unfold ledger_ids. rewrite (deferred_split dst g') by apply Hwf'.
  unfold flush_deferred in Hf0.
  destruct (flush_loop reg client now (queue_of g dst) g) as [[r0 q0] g0] eqn:Hfl.
  simplify_eq. simpl in *.
  assert (deferred g0 = deferred g) as Hd.
  { pose proof (queue_of_ok g dst Hwf) as Hqok.
    apply flush_loop_shape in Hfl as (_ & ? & _); [done|apply Hwf| |].
    - by eapply Forall_impl; [exact Hqok|naive_solver].
    - pose proof (gw_ids g Hwf) as Hn'. unfold ledger_ids in Hn'.
      rewrite (deferred_split dst g) in Hn' by apply Hwf.
      rewrite fmap_app, app_assoc in Hn'. by apply NoDup_app in Hn' as [? _]. }
  unfold queue_of in *. simpl in *. rewrite dget_dset_eq in *. simpl in *.
  rewrite dpop_dset, Hd.
  rewrite Hi. unfold dkeys in *. rewrite fmap_app.
  assert ((entries sent).*1 = task_req_id <$> sent) as ->.
  { unfold entries. rewrite <- list_fmap_compose. done. }
  rewrite !fmap_app, !fmap_cons in *. revert Hn. clear.
  rewrite <- app_assoc. simpl. rewrite !NoDup_app, !NoDup_cons. set_solver.
Qed.

(** a transfer completes at most once: an accepted completion releases
    its bytes and fires the task's callback, and the same completion
    delivered again, or one for a task that was cancelled first, fires
    nothing and changes nothing. *)
Theorem completion_is_once_only {G} `{RoutingGate G} (reg : option G) client now t g :
  gov_wf g → dget (task_req_id t) (inflight g) = Some t →
  (let g1 := (on_complete reg client now t g).2.2 in
   (on_complete reg client now t g).1 = task_on_complete t
   ∧ on_complete reg client now t g1 = (false, (Ok tt, g1)))
  ∧ (let g2 := (cancel (task_req_id t) None g).2 in
     on_complete reg client now t g2 = (false, (Ok tt, g2))).
Proof.
  intros Hwf Ht. split.
  - rewrite (on_complete_current reg client now t g Ht). simpl. split; [done|].
    apply on_complete_stale. apply flush_ledger;
      eauto using refund_wf, refund_not_in_ledger.
  - apply on_complete_stale. unfold cancel. simpl. rewrite Ht. simpl.
    apply dget_dpop_eq.
Qed.

(** the recompute budget: starting with no recorded failure, the first
    [max_recompute] failures of a request ask for a recompute and the next
    one aborts it and forgets the count. *)
Theorem recompute_budget rid g (n : nat) :
  max_recompute (gov_config g) = Z.of_nat n →
  recompute_counts g !! rid = None →
  ∃ g', failures (S n) rid g = (replicate n recompute ++ [abort], g')
    ∧ recompute_counts g' !! rid = None.
Proof.
  intros Hn Hz.
  assert (∀ k g0, bytes_at (recompute_counts g0) rid + Z.of_nat k = Z.of_nat n →
    max_recompute (gov_config g0) = Z.of_nat n →
    ∃ g', failures (S k) rid g0 = (replicate k recompute ++ [abort], g')
      ∧ recompute_counts g' !! rid = None) as Hgen.
  { induction k as [|k IH]; intros g0 Hb Hm.
    - simpl. unfold on_transfer_failure. rewrite bool_decide_true by lia.
      eexists. split; [done|]. simpl. apply lookup_delete_eq.
    - rewrite failures_S. unfold on_transfer_failure.
      rewrite bool_decide_false by lia.
      set (g1 := set_recompute_counts _ g0).
      destruct (IH g1) as (g' & Hf & Hd).
      { simpl. rewrite bytes_at_insert, decide_True by done. lia. }
      { done. }
      rewrite Hf. eauto. }
  apply Hgen; [|done]. unfold bytes_at. rewrite Hz. simpl. lia.
Qed.

(** [is_drained] is exact: it holds just when no task is deferred and no
    byte is in flight. *)
Theorem is_drained_iff g :
  gov_wf g →
  is_drained g = true ↔
  deferred_tasks g = [] ∧ Forall (λ t, task_kv_size t = 0) (inflight_tasks g).
Proof.
  intros Hwf. pose proof (gw_acct g Hwf) as Ha.
  unfold is_drained, all_inflight_zero.
  rewrite andb_true_iff, bool_decide_eq_true, drained_queues.
  fold (deferred_tasks g). rewrite (and_comm (map_Forall _ _)). f_equiv.
  assert (Forall (λ t, 0 ≤ task_kv_size t) (inflight_tasks g)) as Hnn.
  { apply Forall_forall. intros t ([k t'] & -> & Hin)%list_elem_of_fmap.
    apply dget_Some in Hin; [|apply Ha]. by destruct (ga_key g Ha _ _ Hin). }
  rewrite map_Forall_lookup. split.
  - intros Hz. apply Forall_forall. intros t Ht.
    assert (bytes_at (dst_bytes g) (task_dst t) = 0) as H0.
    { unfold bytes_at. destruct (dst_bytes g !! task_dst t) eqn:Hd; simpl; [|done].
      by apply Hz in Hd. }
    rewrite (ga_dst g Ha), dst_sum_zero in H0 by done.
    rewrite Forall_forall in H0. by apply H0.
  - intros Hall d v Hv. assert (bytes_at (dst_bytes g) d = 0) as H0.
    { rewrite (ga_dst g Ha). apply dst_sum_zero; [done|].
      eapply Forall_impl; [exact Hall|done]. }
    unfold bytes_at in H0. by rewrite Hv in H0.
Qed.

(** ** Concrete instances of the properties *)

Definition demo_task (rid : string) (oid size : nat) : TransferTask :=
  mkTransferTask oid rid "p0" "d0" (Z.of_nat size) ("op-" +:+ rid) "e0" "e1" [] []
    None [] O None "affinity" 1 true.

Definition demo_governor : TransferGovernor :=
  set_gov_kv_usage {["d0" := mkKVUsageSample (1 # 2) "e1" 0]}
    (set_expected {["d0" := "e1"]} (init_governor default_governor_config)).

Definition accepting (_ : TransferTask) : bool := true.

(** [a] in flight, [b] deferred behind a client that was saturated. *)
Definition demo_busy : TransferGovernor :=
  (submit (G := unit) None accepting (11 * 10 ^ 9) (demo_task "b" 1 7)
     (submit (G := unit) None accepting 0 (demo_task "a" 0 5) demo_governor).2).2.

Lemma demo_reachable :
  rtc (gov_step (G := unit)) (init_governor default_governor_config) demo_busy.
Proof.
  eapply rtc_l; [by apply (gov_epochs (G := unit) _ {["d0" := "e1"]})|].
  eapply rtc_l.
  { by apply (gov_usage (G := unit) _ None accepting 0 "d0"
                (Some (mkKVUsageSample (1 # 2) "e1" 0))). }
  eapply rtc_l.
  { apply (gov_submit (G := unit) _ None accepting 0 (demo_task "a" 0 5));
      [done|]. vm_compute. set_solver. }
  apply rtc_once.
  refine (eq_rect _ (gov_step _) (gov_submit (G := unit) _ None accepting
            (11 * 10 ^ 9) (demo_task "b" 1 7) _ _) _ _); [done| |].
  - vm_compute. set_solver.
  - vm_compute. done.
Qed.

Lemma demo_busy_wf : gov_wf demo_busy.
Proof.
  pose proof demo_reachable as Hr.
  assert (gov_wf (init_governor default_governor_config)) as Hi by by apply init_governor_wf.
  revert Hi. induction Hr; eauto with prism.
Qed.


Lemma flush_deferred_fifo_witness :
  let res := flush_deferred (G := unit) None accepting 0 "d0" demo_busy in
  res.1 = Ok tt ∧ queue_of res.2 "d0" = []
  ∧ ∃ sent, inflight res.2 = inflight demo_busy ++ entries sent.
Proof.
  cbv zeta. destruct (flush_deferred_fifo (G := unit) None accepting 0 "d0" demo_busy
    (Ok tt) (flush_deferred (G := unit) None accepting 0 "d0" demo_busy).2)
    as (sent & Hi & _ & _).
  - apply demo_busy_wf.
  - vm_compute. done.
  - split_and!; [by vm_compute|by vm_compute|]. by exists sent.
Defined.

Lemma completion_is_once_only_witness :
  let t := demo_task "a" 0 5 in
  let res := on_complete (G := unit) None accepting 0 t demo_busy in
  res.1 = true ∧ on_complete (G := unit) None accepting 0 t res.2.2 = (false, (Ok tt, res.2.2)).
Proof.
  cbv zeta. apply (completion_is_once_only (G := unit) None accepting 0).
  - apply demo_busy_wf.
  - vm_compute. done.
Defined.

Lemma recompute_budget_witness :
  ∃ g', failures 3 "a" demo_busy = ([recompute; recompute; abort], g')
    ∧ recompute_counts g' !! "a" = None.
Proof. apply (recompute_budget "a" demo_busy 2); vm_compute; done. Defined.

Lemma is_drained_iff_witness : ¬ is_drained demo_busy = true.
Proof.
  intros Hd. apply (is_drained_iff demo_busy demo_busy_wf) in Hd as [Hd _].
  vm_compute in Hd. done.
Defined.
