(* ===== verification/Json.v ===== *)
(** * JSON values

    The values that cross the control plane and the durable store: what
    [json.loads] returns, and the [isinstance] and equality tests the code
    applies to them.  Objects keep insertion order; equality does not look at
    it.  Numbers compare across [bool], [int] and [float], as in Python
    ([True == 1]). *)

From S2P Require Import Prelude PyDict.
From stdpp Require Import prelude gmap strings pretty.
From Stdlib Require Import QArith_base.

Local Open Scope Z_scope.

#[local] Unset Elimination Schemes.
Inductive json : Type :=
| JNull
| JBool (b : bool)
| JInt (z : Z)
| JFloat (q : Q)
| JStr (s : string)
| JList (l : list json)
| JObj (d : list (string * json)).
#[local] Set Elimination Schemes.

Section json_ind.
Variable P : json → Prop.
Hypothesis HNull : P JNull.
Hypothesis HBool : ∀ b, P (JBool b).
Hypothesis HInt : ∀ z, P (JInt z).
Hypothesis HFloat : ∀ q, P (JFloat q).
Hypothesis HStr : ∀ s, P (JStr s).
Hypothesis HList : ∀ l, Forall P l → P (JList l).
Hypothesis HObj : ∀ d, Forall (λ kv, P kv.2) d → P (JObj d).

Fixpoint json_ind (v : json) : P v :=
  match v with
  | JNull => HNull
  | JBool b => HBool b
  | JInt z => HInt z
  | JFloat q => HFloat q
  | JStr s => HStr s
  | JList l => HList l ((fix go l := match l return Forall P l with
      | [] => Forall_nil_2 _
      | x :: l' => Forall_cons_2 _ _ _ (json_ind x) (go l') end) l)
  | JObj d => HObj d ((fix go d := match d return Forall (λ kv, P kv.2) d with
      | [] => Forall_nil_2 _
      | kv :: d' => Forall_cons_2 (λ kv, P kv.2) _ _ (json_ind kv.2) (go d') end) d)
  end.
End json_ind.

#[export] Instance json_eq_dec : EqDecision json.
Proof.
  intros x y. revert x y. fix go 1. intros x y. destruct x as [|b|z|q|s|l|d], y as [|b'|z'|q'|s'|l'|d'];
    try (right; discriminate).
  - by left.
  - refine (cast_if (decide (b = b'))); congruence.
  - refine (cast_if (decide (z = z'))); congruence.
  - destruct q as [n p], q' as [n' p'].
    refine (cast_if (decide (n = n' ∧ p = p'))); naive_solver.
  - refine (cast_if (decide (s = s'))); congruence.
  - assert (EqDecision json) by exact go.
    refine (cast_if (decide (l = l'))); congruence.
  - assert (EqDecision json) by exact go.
    refine (cast_if (decide (d = d'))); congruence.
Defined.

(** ** Type tests *)

(** [isinstance(v, int) and not isinstance(v, bool)]: only [JInt] passes. *)
Definition as_int (v : json) : option Z :=
  match v with JInt z => Some z | _ => None end.
Definition as_str (v : json) : option string :=
  match v with JStr s => Some s | _ => None end.
Definition as_obj (v : json) : option (odict string json) :=
  match v with JObj d => Some d | _ => None end.
Definition as_list (v : json) : option (list json) :=
  match v with JList l => Some l | _ => None end.

(** [v is True] *)
Definition is_True_obj (v : json) : bool :=
  match v with JBool true => true | _ => false end.

(** [d.get(k)] as a value: a missing key reads as [None]. *)
Definition jget (k : string) (d : odict string json) : json :=
  default JNull (dget k d).

(** What [json.dumps(v, sort_keys=True)] and a later [json.loads] leave of a
    value: the same value with every object's keys in order. *)
Fixpoint canonical (v : json) : json :=
  match v with
  | JList l => JList (map canonical l)
  | JObj d => JObj (sort_by String.le fst (map (λ kv, (kv.1, canonical kv.2)) d))
  | _ => v
  end.

(** [set(v) == {...}] on an object. *)
Definition keys_are (d : odict string json) (ks : list string) : bool :=
  bool_decide (list_to_set (dkeys d) =@{gset string} list_to_set ks).

(** The values [for x in v] visits; [None] when [v] is not iterable. *)
Definition py_iter (v : json) : option (list json) :=
  match v with
  | JList l => Some l
  | JObj d => Some (JStr <$> dkeys d)
  | JStr s => Some ((λ c, JStr (String c EmptyString)) <$> String.list_ascii_of_string s)
  | _ => None
  end.

(** [v[k]] with a string key *)
Definition subscript (v : json) (k : string) : result exn json :=
  match v with
  | JObj d => match dget k d with Some x => Ok x | None => Raise KeyError end
  | _ => Raise TypeError
  end.

(** [tuple(v)] *)
Definition py_tuple (v : json) : result exn (list json) :=
  match py_iter v with Some l => Ok l | None => Raise TypeError end.

(** [str(v)]; [repr] gives the text of floats, lists and objects. *)
Definition py_str (repr : json → string) (v : json) : string :=
  match v with
  | JStr x => x
  | JNull => "None"
  | JBool b => if b then "True" else "False"
  | JInt z => pretty z
  | _ => repr v
  end.

(** [bool(v)] *)
Definition py_bool (v : json) : bool :=
  match v with
  | JNull => false
  | JBool b => b
  | JInt z => bool_decide (z ≠ 0)
  | JFloat q => negb (Qeq_bool q 0)
  | JStr s => truthy s
  | JList l => bool_decide (l ≠ [])
  | JObj d => bool_decide (d ≠ [])
  end.

(** [str(v or ...)] with an empty string for a value that is false *)
Definition py_str_or_empty (repr : json → string) (v : json) : string :=
  if py_bool v then py_str repr v else "".

(** ["sha256:" + sha256(json.dumps(v, sort_keys=True))]: a digest depends only
    on the canonical value. *)
Definition digest (sha : json → string) (v : json) : string := "sha256:" +:+ sha (canonical v).

(** ** Python equality *)

Definition as_number (v : json) : option Q :=
  match v with
  | JBool b => Some (if b then 1%Q else 0%Q)
  | JInt z => Some (inject_Z z)
  | JFloat q => Some q
  | _ => None
  end.

Fixpoint py_eqb (a b : json) {struct a} : bool :=
  match as_number a, as_number b with
  | Some x, Some y => Qeq_bool x y
  | _, _ =>
      match a, b with
      | JNull, JNull => true
      | JStr s, JStr s' => bool_decide (s = s')
      | JList l, JList l' =>
          (fix go (l l' : list json) : bool :=
             match l, l' with
             | [], [] => true
             | x :: l1, y :: l2 => py_eqb x y && go l1 l2
             | _, _ => false
             end) l l'
      | JObj d, JObj d' =>
          bool_decide (length d = length d')
          && (fix go (d : list (string * json)) : bool :=
                match d with
                | [] => true
                | (k, x) :: d1 =>
                    match dget k d' with Some y => py_eqb x y | None => false end
                    && go d1
                end) d
      | _, _ => false
      end
  end.

Lemma as_number_inv v q : as_number v = Some q → ∀ w, as_number w = None → py_eqb v w = false.
Proof. destruct v; simpl; try done; destruct w; simpl; done. Qed.

Lemma py_eqb_str s v : py_eqb v (JStr s) = true ↔ v = JStr s.
Proof.
  destruct v; simpl; try (split; done). rewrite bool_decide_eq_true. naive_solver.
Qed.

Lemma py_eqb_refl v : (∀ d, v = JObj d → False) → (∀ l, v = JList l → False) → py_eqb v v = true.
Proof.
  intros Hd Hl. destruct v; simpl; try done.
  - by apply Qeq_bool_iff.
  - by apply Qeq_bool_iff.
  - by apply Qeq_bool_iff.
  - by rewrite bool_decide_true.
  - by destruct (Hl l).
  - by destruct (Hd d).
Qed.

Lemma keys_are_ext (d d' : odict string json) ks :
  (∀ k, dget k d' = dget k d) → keys_are d' ks = keys_are d ks.
Proof.
  intros Hd. unfold keys_are. assert (list_to_set (dkeys d') =@{gset string} list_to_set (dkeys d))
    as ->; [|done].
  apply set_eq. intros k. rewrite !elem_of_list_to_set, <- !dget_is_Some. by rewrite Hd.
Qed.

(** Comparing with a list of strings leaves no room for another value. *)
Lemma py_eqb_strs v l : py_eqb v (JList (JStr <$> l)) = true ↔ v = JList (JStr <$> l).
Proof.
  destruct v as [|?|?|?|?|vs|?]; try done. simpl. transitivity (vs = JStr <$> l); [|naive_solver].
  revert vs. induction l as [|x l IH]; intros [|v vs]; try done.
  rewrite fmap_cons, andb_true_iff, IH, py_eqb_str. naive_solver.
Qed.

Lemma jget_dget k v (d : odict string json) : jget k d = v → v ≠ JNull → dget k d = Some v.
Proof. unfold jget. destruct (dget k d); simpl; congruence. Qed.

(** An object with the fields of [w] is known by them. *)
Lemma fields_dequiv (w v : odict string json) :
  Forall (λ kv, kv.2 ≠ JNull) w →
  keys_are v (dkeys w) = true ∧ (∀ k, k ∈ dkeys w → jget k v = jget k w) ↔ dequiv v w.
Proof.
  intros Hnn. assert (keys_are w (dkeys w) = true) as Hw by (by apply bool_decide_eq_true). split.
  - intros [Hk Hj] k. destruct (decide (k ∈ dkeys w)) as [Hin|Hni].
    + destruct (dget k w) as [x|] eqn:Hx; [|by apply dget_None in Hx].
      apply jget_dget; [rewrite (Hj k Hin); unfold jget; by rewrite Hx|].
      by apply dget_Some_1, (proj1 (Forall_forall _ _) Hnn) in Hx.
    + rewrite (proj2 (dget_None k w) Hni). apply dget_None. intros Hin. apply Hni.
      apply bool_decide_eq_true in Hk. apply (elem_of_list_to_set (C := gset string)).
      rewrite <- Hk. by apply elem_of_list_to_set.
  - intros Hd. split; [by rewrite (keys_are_ext w)|]. intros k _. unfold jget. by rewrite (Hd k).
Qed.
