(* ===== verification/WorkerRegistry.v ===== *)
(** * Worker identity, capability and freshness (router/worker_registry.py)

    The registry of the fixed 2P2D world.  Dictionaries are finite maps: no
    operation depends on their order.  [clock()] is the argument [now], in
    nanoseconds, read once per call; [received_at] is a number by its type,
    so of the guards on it only [received_at > now] is left.  A registry read
    at a time is the [RoutingGate] the scheduler and the governor consult. *)

From S2P Require Import Prelude PyDict Fingerprint SequenceState Scheduler TransferGovernor Json.
From Stdlib Require Import Ascii.
From stdpp Require Import prelude gmap strings.

Local Open Scope Z_scope.

Definition EXPECTED_MEMBERS : gmap string (string * Z) :=
  {["p0" := ("prefill", 0); "p1" := ("prefill", 1);
    "d0" := ("decode", 2); "d1" := ("decode", 3)]}.
Definition EXPECTED_PAIRS : gset string :=
  {["p0--d0"; "p0--d1"; "p1--d0"; "p1--d1"; "d0--d1"]}.

Inductive TopologyState : Type := STARTING | READY | FAILED | STOPPED.
Inductive ResourceSignalState : Type := UNKNOWN | FRESH | STALE.

#[export] Instance TopologyState_eq_dec : EqDecision TopologyState.
Proof. solve_decision. Defined.
#[export] Instance ResourceSignalState_eq_dec : EqDecision ResourceSignalState.
Proof. solve_decision. Defined.

Record WorkerIdentity := mkWorkerIdentity {
  wi_instance_id : string;
  wi_role : string;
  wi_topology_generation : string;
  wi_pod_uid : string;
  wi_process_generation : string;
  wi_rpc_endpoint : string;
  wi_global_rank : Z;
  wi_topology_digest : string;
  wi_kv_compatibility_id : string }.

#[export] Instance WorkerIdentity_eq_dec : EqDecision WorkerIdentity.
Proof. solve_decision. Defined.

Definition wi_instance_epoch (w : WorkerIdentity) : string :=
  wi_pod_uid w +:+ ":" +:+ wi_process_generation w.

Record PairCapability := mkPairCapability {
  pc_pair_id : string;
  pc_source_epoch : string;
  pc_target_epoch : string;
  pc_transport : string;
  pc_probe_generation : string;
  pc_probe_passed : bool;
  pc_evidence_path : string }.

#[export] Instance PairCapability_eq_dec : EqDecision PairCapability.
Proof. solve_decision. Defined.

Record ResourceSignal := mkResourceSignal {
  rs_state : ResourceSignalState;
  rs_instance_epoch : option string;
  rs_received_at : option Z;
  rs_report : option (odict string json);
  rs_age : option Z }.

Record WorkerRegistry := mkWorkerRegistry {
  expected_topology_generation : string;
  expected_kv_compatibility_id : option string;
  expected_model_profile : option (odict string json);
  require_gpudirect_rdma : bool;
  resource_report_stale_after : Z;
  reg_state : TopologyState;
  members : gmap string WorkerIdentity;
  capabilities : gmap string PairCapability;
  resources : gmap string ResourceSignal }.

#[export] Instance WorkerRegistry_eta : Eta WorkerRegistry := λ r,
  mkWorkerRegistry (expected_topology_generation r) (expected_kv_compatibility_id r)
    (expected_model_profile r) (require_gpudirect_rdma r)
    (resource_report_stale_after r) (reg_state r) (members r) (capabilities r)
    (resources r).

Definition set_reg_state (v : TopologyState) (r : WorkerRegistry) : WorkerRegistry :=
  ltac:(with_field r reg_state v).
Definition set_members (v : gmap string WorkerIdentity) (r : WorkerRegistry) :
  WorkerRegistry := ltac:(with_field r members v).
Definition set_capabilities (v : gmap string PairCapability) (r : WorkerRegistry) :
  WorkerRegistry := ltac:(with_field r capabilities v).
Definition set_resources (v : gmap string ResourceSignal) (r : WorkerRegistry) :
  WorkerRegistry := ltac:(with_field r resources v).

(** The constructor and its two assertions. *)
Definition new_WorkerRegistry (gen : string) (compat : option string)
    (profile : option (odict string json)) (gdr : bool) (stale_after : Z) :
    result exn WorkerRegistry :=
  if bool_decide (gen = "") then Raise AssertionError
  else if bool_decide (stale_after ≤ 0) then Raise AssertionError
  else Ok (mkWorkerRegistry gen compat profile gdr stale_after STARTING ∅ ∅ ∅).

(** ** Installing a world *)

(** [s.split("--", maxsplit=1)] unpacked into two names; [None] when the
    separator is missing and the unpacking raises. *)
Fixpoint split_pair (s : string) : option (string * string) :=
  match s with
  | EmptyString => None
  | String c s' =>
      match c, s' with
      | "-"%char, String "-"%char rest => Some (EmptyString, rest)
      | _, _ => (λ ab, (String c ab.1, ab.2)) <$> split_pair s'
      end
  end.

Definition admit_capability (r : WorkerRegistry) (cap : PairCapability)
    (ms : gmap string WorkerIdentity) : result exn bool :=
  if negb (pc_probe_passed cap) || bool_decide (pc_probe_generation cap = "") then Ok false
  else match split_pair (pc_pair_id cap) with
  | None => Raise ValueError
  | Some (source, target) =>
      match ms !! source, ms !! target with
      | Some ws, Some wt =>
          if bool_decide (pc_source_epoch cap ≠ wi_instance_epoch ws) then Ok false
          else if bool_decide (pc_target_epoch cap ≠ wi_instance_epoch wt) then Ok false
          else if require_gpudirect_rdma r then Ok (bool_decide (pc_transport cap = "NCCL_GDR"))
          else Ok (bool_decide (pc_transport cap ∈ ["NCCL_GDR"; "NCCL_SOCKET"; "CUDA_IPC"]))
      | _, _ => Ok false
      end
  end.

(** [all(... for x in l)], stopping at the first [False] or exception. *)
Fixpoint all_result {A} (f : A → result exn bool) (l : list A) : result exn bool :=
  match l with
  | [] => Ok true
  | x :: l' => match f x with
               | Ok true => all_result f l'
               | Ok false => Ok false
               | Raise e => Raise e
               end
  end.

(** [{f(identity) for identity in members.values()}] *)
Definition attr_set (f : WorkerIdentity → string) (ms : gmap string WorkerIdentity) :
    gset string := list_to_set (f <$> (map_to_list ms).*2).

Definition by_id (identities : list WorkerIdentity) : gmap string WorkerIdentity :=
  foldl (λ m w, <[wi_instance_id w := w]> m) ∅ identities.
Definition by_pair (caps : list PairCapability) : gmap string PairCapability :=
  foldl (λ m c, <[pc_pair_id c := c]> m) ∅ caps.

(** The conditions of [install_world] up to the capability checks. *)
Definition identities_valid (r : WorkerRegistry) (ms : gmap string WorkerIdentity) : bool :=
  let compatibility_ids := attr_set wi_kv_compatibility_id ms in
  bool_decide (attr_set wi_topology_generation ms = {[expected_topology_generation r]})
  && bool_decide (size (attr_set wi_topology_digest ms) = 1%nat)
  && bool_decide (size (attr_set wi_pod_uid ms) = 4%nat)
  && bool_decide (size compatibility_ids = 1%nat)
  && bool_decide ("" ∉ compatibility_ids)
  && match expected_kv_compatibility_id r with
     | None => true
     | Some c => bool_decide (compatibility_ids = {[c]})
     end
  && bool_decide (map_Forall (λ name w,
       EXPECTED_MEMBERS !! name = Some (wi_role w, wi_global_rank w)) ms).

Definition world_valid (r : WorkerRegistry) (ms : gmap string WorkerIdentity)
    (caps : gmap string PairCapability) : result exn bool :=
  if negb (bool_decide (dom ms = dom EXPECTED_MEMBERS)
           && bool_decide (dom caps = EXPECTED_PAIRS)) then Ok false
  else if negb (identities_valid r ms) then Ok false
  else all_result (λ cap, admit_capability r cap ms) (map_to_list caps).*2.

Definition reg_fail (r : WorkerRegistry) : WorkerRegistry :=
  set_capabilities ∅ (set_resources ∅ (set_reg_state FAILED r)).

Definition install_world (identities : list WorkerIdentity) (caps : list PairCapability) :
    method WorkerRegistry bool := λ r,
  match world_valid r (by_id identities) (by_pair caps) with
  | Raise e => (Raise e, r)
  | Ok false => (Ok false, reg_fail r)
  | Ok true =>
      (Ok true, set_reg_state READY (set_resources ∅ (set_capabilities (by_pair caps)
                  (set_members (by_id identities) r))))
  end.

Definition observe_identity (w : WorkerIdentity) (r : WorkerRegistry) : bool * WorkerRegistry :=
  if bool_decide (members r !! wi_instance_id w = Some w) then (true, r)
  else (false, reg_fail r).

Definition observe_capabilities (caps : list PairCapability) (r : WorkerRegistry) :
    bool * WorkerRegistry :=
  if bool_decide (by_pair caps = capabilities r) then (true, r) else (false, reg_fail r).

(** ** Resource reports *)

Definition block_fields : list string :=
  ["num_gpu_blocks"; "free_blocks"; "block_buckets"; "block_conservation_valid"].
Definition expected_buckets : gset string :=
  {["free"; "pending"; "sequence"; "evictable"; "quarantined"]}.

Definition profile_valid (r : WorkerRegistry) (report : odict string json)
    (w : WorkerIdentity) : bool :=
  match expected_model_profile r with
  | None => true
  | Some expected =>
      match as_obj (jget "model_profile" report) with
      | None => false
      | Some profile =>
          forallb (λ kv, py_eqb (jget kv.1 profile) kv.2) expected
          && py_eqb (jget "kv_compatibility_id" profile) (JStr (wi_kv_compatibility_id w))
      end
  end.

Definition nonneg_int (v : json) : option Z :=
  z ← as_int v; if bool_decide (0 ≤ z) then Some z else None.

Definition blocks_valid (report : odict string json) : bool :=
  match nonneg_int (jget "num_gpu_blocks" report), nonneg_int (jget "free_blocks" report),
        as_obj (jget "block_buckets" report) with
  | Some total, Some free, Some buckets =>
      is_True_obj (jget "block_conservation_valid" report)
      && bool_decide (list_to_set (dkeys buckets) = expected_buckets)
      && match mapM nonneg_int (dvalues buckets) with
         | None => false
         | Some values =>
             bool_decide (nonneg_int (jget "free" buckets) = Some free)
             && bool_decide (sumZ id values = total)
         end
  | _, _, _ => false
  end.

Definition resource_report_schema_valid (r : WorkerRegistry) (report : odict string json)
    (w : WorkerIdentity) : bool :=
  if negb (profile_valid r report w) then false
  else if negb (existsb (λ k, dmem k report) block_fields)
  then bool_decide (expected_model_profile r = None)
  else if negb (forallb (λ k, dmem k report) block_fields) then false
  else blocks_valid report.

(** [FRESH] or [STALE] by age. *)
Definition freshness (r : WorkerRegistry) (age : Z) : ResourceSignalState :=
  if bool_decide (age ≤ resource_report_stale_after r) then FRESH else STALE.

Definition report_acceptable (r : WorkerRegistry) (report : odict string json)
    (w : WorkerIdentity) : bool :=
  py_eqb (jget "instance_epoch" report) (JStr (wi_instance_epoch w))
  && is_True_obj (jget "complete" report)
  && bool_decide (is_Some (as_obj (jget "resources" report)))
  && resource_report_schema_valid r report w.

Definition update_resource_report (instance_id : string) (report : odict string json)
    (received_at : option Z) (now : Z) (r : WorkerRegistry) : bool * WorkerRegistry :=
  match members r !! instance_id with
  | None => (false, r)
  | Some w =>
      if negb (report_acceptable r report w) then (false, r)
      else
        let at_ := default now received_at in
        if bool_decide (now < at_) then (false, r)
        else
          let age := Z.max 0 (now - at_) in
          (true, set_resources (<[instance_id :=
             mkResourceSignal (freshness r age) (Some (wi_instance_epoch w)) (Some at_)
               (Some report) (Some age)]> (resources r)) r)
  end.

Definition resource_signal (r : WorkerRegistry) (instance_id : string) (now : Z) :
    ResourceSignal :=
  match resources r !! instance_id with
  | None => mkResourceSignal UNKNOWN None None None None
  | Some signal =>
      match rs_received_at signal with
      | None => mkResourceSignal UNKNOWN None None None None
      | Some at_ =>
          let age := Z.max 0 (now - at_) in
          mkResourceSignal (freshness r age) (rs_instance_epoch signal) (Some at_)
            (rs_report signal) (Some age)
      end
  end.

(** [can_admit], also bound as [can_send], [can_route] and [can_govern]. *)
Definition can_admit (r : WorkerRegistry) (now : Z) (instance_id : string) : bool :=
  bool_decide (reg_state r = READY)
  && bool_decide (rs_state (resource_signal r instance_id now) = FRESH).

Definition reg_world_fresh (r : WorkerRegistry) (now : Z) : bool :=
  bool_decide (reg_state r = READY)
  && bool_decide (dom (members r) = dom EXPECTED_MEMBERS)
  && forallb (can_admit r now) (map_to_list EXPECTED_MEMBERS).*1.

Definition can_reconcile_finalize (r : WorkerRegistry) (now : Z) (instance_id : string) : bool :=
  can_admit r now instance_id.

(** ** The registry as the gate of the scheduler and the governor *)

(** A registry consulted at a time. *)
Definition registry_at : Type := WorkerRegistry * Z.

#[export] Instance registry_gate : RoutingGate registry_at := {
  can_route := λ g i, can_admit g.1 g.2 i;
  can_govern := λ g i, can_admit g.1 g.2 i;
  world_fresh := λ g, reg_world_fresh g.1 g.2 }.

#[export] Instance registry_gate_laws :
  RoutingGateLaws registry_at ["p0"; "p1"; "d0"; "d1"].
Proof.
  split; [done|]. intros [r now] i. simpl. unfold reg_world_fresh.
  rewrite !andb_true_iff, forallb_forall. intros [_ Hall] Hi. apply Hall.
  repeat (apply elem_of_cons in Hi as [->|Hi]; [vm_compute; tauto|]).
  exfalso. exact (proj1 (elem_of_nil _) Hi).
Qed.

(** ** What a valid world is *)

Record World (r : WorkerRegistry) (ms : gmap string WorkerIdentity)
    (caps : gmap string PairCapability) : Prop := {
  w_members : ∀ i, is_Some (ms !! i) ↔ is_Some (EXPECTED_MEMBERS !! i);
  w_role : ∀ i w, ms !! i = Some w →
    EXPECTED_MEMBERS !! i = Some (wi_role w, wi_global_rank w);
  w_generation : ∀ i w, ms !! i = Some w →
    wi_topology_generation w = expected_topology_generation r;
  w_digest : ∀ i j w v, ms !! i = Some w → ms !! j = Some v →
    wi_topology_digest w = wi_topology_digest v;
  w_pods : ∀ i j w v, ms !! i = Some w → ms !! j = Some v →
    wi_pod_uid w = wi_pod_uid v → i = j;
  w_compat : ∀ i j w v, ms !! i = Some w → ms !! j = Some v →
    wi_kv_compatibility_id w = wi_kv_compatibility_id v;
  w_compat_named : ∀ i w, ms !! i = Some w → wi_kv_compatibility_id w ≠ "";
  w_expected : ∀ c i w, expected_kv_compatibility_id r = Some c → ms !! i = Some w →
    wi_kv_compatibility_id w = c;
  w_pairs : dom caps = EXPECTED_PAIRS;
  w_caps : ∀ p cap, caps !! p = Some cap → ∃ s t ws wt,
    split_pair p = Some (s, t) ∧ ms !! s = Some ws ∧ ms !! t = Some wt
    ∧ pc_source_epoch cap = wi_instance_epoch ws
    ∧ pc_target_epoch cap = wi_instance_epoch wt
    ∧ pc_probe_passed cap = true ∧ pc_probe_generation cap ≠ ""
    ∧ pc_transport cap ∈ (if require_gpudirect_rdma r then ["NCCL_GDR"]
                          else ["NCCL_GDR"; "NCCL_SOCKET"; "CUDA_IPC"]) }.

Lemma elem_of_attr_set f ms x :
  x ∈ attr_set f ms ↔ ∃ i w, ms !! i = Some w ∧ f w = x.
Proof.
  unfold attr_set. rewrite elem_of_list_to_set, list_elem_of_fmap. split.
  - intros (w & -> & Hw). apply list_elem_of_fmap in Hw as ([i w'] & -> & Hin).
    apply elem_of_map_to_list in Hin. eauto.
  - intros (i & w & Hi & <-). exists w. split; [done|]. apply list_elem_of_fmap.
    exists (i, w). split; [done|]. by apply elem_of_map_to_list.
Qed.

Lemma attr_set_singleton f ms x :
  ms ≠ ∅ → attr_set f ms = {[x]} ↔ ∀ i w, ms !! i = Some w → f w = x.
Proof.
  intros Hne. split.
  - intros Heq i w Hi. assert (f w ∈ attr_set f ms) as Hin
      by (apply elem_of_attr_set; eauto). rewrite Heq in Hin. set_solver.
  - intros Hall. apply set_eq. intros y. rewrite elem_of_attr_set, elem_of_singleton.
    split; [intros (i & w & Hi & <-); eauto|]. intros ->.
    apply map_choose in Hne as (i & w & Hi). eauto 6.
Qed.

Lemma attr_set_size_1 f ms :
  ms ≠ ∅ → size (attr_set f ms) = 1%nat
  ↔ ∀ i j w v, ms !! i = Some w → ms !! j = Some v → f w = f v.
Proof.
  intros Hne. split.
  - intros (x & Hx%leibniz_equiv)%size_1_elem_of i j w v Hi Hj.
    pose proof (proj1 (attr_set_singleton f ms x Hne) Hx) as Ha.
    by rewrite (Ha i w), (Ha j v).
  - intros Hall. pose proof Hne as (i & w & Hi)%map_choose.
    rewrite (proj2 (attr_set_singleton f ms (f w) Hne)) by eauto. apply size_singleton.
Qed.

Lemma attr_set_size_inj f ms :
  size (attr_set f ms) = size ms
  ↔ ∀ i j w v, ms !! i = Some w → ms !! j = Some v → f w = f v → i = j.
Proof.
  unfold attr_set. rewrite <- list_fmap_compose.
  replace (size ms) with (length ((f ∘ snd) <$> map_to_list ms))
    by (by rewrite length_fmap, length_map_to_list).
  rewrite size_list_to_set_NoDup. split.
  - intros Hn i j w v Hi Hj Hf.
    apply elem_of_map_to_list, list_elem_of_lookup in Hi as [a Ha].
    apply elem_of_map_to_list, list_elem_of_lookup in Hj as [b Hb].
    assert (a = b) as ->; [|congruence]. eapply (NoDup_lookup _ _ _ (f w)); [done|..].
    + by rewrite list_lookup_fmap, Ha.
    + rewrite list_lookup_fmap, Hb. simpl. by rewrite Hf.
  - intros Hinj. apply NoDup_fmap_2_strong; [|apply NoDup_map_to_list].
    intros [i w] [j v] Hi%elem_of_map_to_list Hj%elem_of_map_to_list Hf. simpl in Hf.
    assert (i = j) as -> by eauto. congruence.
Qed.

Lemma all_result_Ok {A} (f : A → result exn bool) l :
  all_result f l = Ok true ↔ Forall (λ x, f x = Ok true) l.
Proof.
  induction l as [|x l IH]; simpl; [by split|]. rewrite Forall_cons, <- IH.
  destruct (f x) as [[]|]; naive_solver.
Qed.

Lemma all_result_total {A} (f : A → result exn bool) l :
  Forall (λ x, is_ok (f x) = true) l → is_ok (all_result f l) = true.
Proof. induction 1 as [|x l Hx _ IH]; simpl; [done|]. by destruct (f x) as [[]|]. Qed.

Lemma by_pair_key caps p cap : by_pair caps !! p = Some cap → pc_pair_id cap = p.
Proof.
  unfold by_pair. assert (∀ m : gmap string PairCapability,
    (∀ p cap, m !! p = Some cap → pc_pair_id cap = p) →
    foldl (λ m c, <[pc_pair_id c := c]> m) m caps !! p = Some cap →
    pc_pair_id cap = p) as Hgen; [|apply Hgen; intros ??; by rewrite lookup_empty].
  induction caps as [|c caps IH]; simpl; [auto|]. intros m Hm. apply IH.
  intros p' c' [[<- <-]|[_ ?]]%lookup_insert_Some; eauto.
Qed.

Lemma by_id_key ids i w : by_id ids !! i = Some w → wi_instance_id w = i.
Proof.
  unfold by_id. assert (∀ m : gmap string WorkerIdentity,
    (∀ i w, m !! i = Some w → wi_instance_id w = i) →
    foldl (λ m w, <[wi_instance_id w := w]> m) m ids !! i = Some w →
    wi_instance_id w = i) as Hgen; [|apply Hgen; intros ??; by rewrite lookup_empty].
  induction ids as [|c ids IH]; simpl; [auto|]. intros m Hm. apply IH.
  intros p' c' [[<- <-]|[_ ?]]%lookup_insert_Some; eauto.
Qed.

Lemma by_id_elem ids i w : by_id ids !! i = Some w → w ∈ ids.
Proof.
  unfold by_id. assert (∀ m : gmap string WorkerIdentity,
    foldl (λ m w, <[wi_instance_id w := w]> m) m ids !! i = Some w →
    w ∈ ids ∨ m !! i = Some w) as Hgen.
  { induction ids as [|c ids IH]; simpl; [auto|]. intros m [Hin|Hm]%IH; [by left; right|].
    apply lookup_insert_Some in Hm as [[_ ->]|[_ Hm]]; [left; constructor|by right]. }
  intros [?|Hm]%Hgen; [done|]. by rewrite lookup_empty in Hm.
Qed.

(** Every expected pair splits into two expected members. *)
Lemma expected_pair_splits p :
  p ∈ EXPECTED_PAIRS → ∃ s t, split_pair p = Some (s, t)
    ∧ is_Some (EXPECTED_MEMBERS !! s) ∧ is_Some (EXPECTED_MEMBERS !! t).
Proof.
  unfold EXPECTED_PAIRS. rewrite !elem_of_union, !elem_of_singleton.
  intros [[[[->| ->]| ->]| ->]| ->]; do 2 eexists; split_and!;
    (reflexivity || (eexists; reflexivity)).
Qed.

Lemma admit_capability_spec r cap ms s t :
  split_pair (pc_pair_id cap) = Some (s, t) →
  is_ok (admit_capability r cap ms) = true
  ∧ (admit_capability r cap ms = Ok true ↔ ∃ ws wt,
      ms !! s = Some ws ∧ ms !! t = Some wt
      ∧ pc_source_epoch cap = wi_instance_epoch ws
      ∧ pc_target_epoch cap = wi_instance_epoch wt
      ∧ pc_probe_passed cap = true ∧ pc_probe_generation cap ≠ ""
      ∧ pc_transport cap ∈ (if require_gpudirect_rdma r then ["NCCL_GDR"]
                            else ["NCCL_GDR"; "NCCL_SOCKET"; "CUDA_IPC"])).
Proof.
  intros Hs. unfold admit_capability. rewrite Hs.
  destruct (pc_probe_passed cap); simpl; [|naive_solver].
  case_bool_decide; [naive_solver|].
  destruct (ms !! s) as [ws|]; [|split; [done|]; by split; [|intros (?&?&?&_)]].
  destruct (ms !! t) as [wt|]; [|split; [done|]; by split; [|intros (?&?&?&?&_)]].
  case_bool_decide; [naive_solver|]. case_bool_decide; [naive_solver|].
  destruct (require_gpudirect_rdma r); case_bool_decide; set_solver.
Qed.

Lemma world_dom ms : dom ms = dom EXPECTED_MEMBERS ↔
  ∀ i : string, is_Some ((ms : gmap string WorkerIdentity) !! i) ↔ is_Some (EXPECTED_MEMBERS !! i).
Proof. rewrite set_eq. by setoid_rewrite elem_of_dom. Qed.

Lemma expected_dom_inhabited (ms : gmap string WorkerIdentity) :
  dom ms = dom EXPECTED_MEMBERS → ms ≠ ∅ ∧ size ms = 4%nat.
Proof.
  intros Hd. split; [|by rewrite <- size_dom, Hd]. intros ->.
  apply (f_equal size) in Hd. vm_compute in Hd. done.
Qed.

Lemma identities_valid_spec r ms :
  dom ms = dom EXPECTED_MEMBERS →
  identities_valid r ms = true ↔
  (∀ i w, ms !! i = Some w → wi_topology_generation w = expected_topology_generation r)
  ∧ (∀ i j w v, ms !! i = Some w → ms !! j = Some v →
       wi_topology_digest w = wi_topology_digest v)
  ∧ (∀ i j w v, ms !! i = Some w → ms !! j = Some v →
       wi_pod_uid w = wi_pod_uid v → i = j)
  ∧ (∀ i j w v, ms !! i = Some w → ms !! j = Some v →
       wi_kv_compatibility_id w = wi_kv_compatibility_id v)
  ∧ (∀ i w, ms !! i = Some w → wi_kv_compatibility_id w ≠ "")
  ∧ (∀ c i w, expected_kv_compatibility_id r = Some c → ms !! i = Some w →
       wi_kv_compatibility_id w = c)
  ∧ (∀ i w, ms !! i = Some w →
       EXPECTED_MEMBERS !! i = Some (wi_role w, wi_global_rank w)).
Proof.
  intros [Hne Hsz]%expected_dom_inhabited. unfold identities_valid.
  rewrite !andb_true_iff, !bool_decide_eq_true, <- Hsz.
  rewrite attr_set_singleton, !attr_set_size_1, attr_set_size_inj by done.
  rewrite elem_of_attr_set, map_Forall_lookup.
  assert (match expected_kv_compatibility_id r with
          | None => true
          | Some c => bool_decide (attr_set wi_kv_compatibility_id ms = {[c]}) end = true
    ↔ ∀ c i w, expected_kv_compatibility_id r = Some c → ms !! i = Some w →
       wi_kv_compatibility_id w = c) as ->.
  { destruct (expected_kv_compatibility_id r) as [c|]; [|naive_solver].
    rewrite bool_decide_eq_true, attr_set_singleton by done. naive_solver. }
  assert (¬ (∃ i w, ms !! i = Some w ∧ wi_kv_compatibility_id w = "")
    ↔ ∀ i w, ms !! i = Some w → wi_kv_compatibility_id w ≠ "") as -> by naive_solver.
  tauto.
Qed.

Lemma world_valid_spec r ms caps :
  is_ok (world_valid r ms (by_pair caps)) = true
  ∧ (world_valid r ms (by_pair caps) = Ok true ↔ World r ms (by_pair caps)).
Proof.
  unfold world_valid.
  destruct (decide (dom ms = dom EXPECTED_MEMBERS)) as [Hd|Hd]; cycle 1.
  { rewrite bool_decide_false by done. split; [done|]. split; [done|].
    intros Hw. destruct Hd. apply world_dom, Hw. }
  rewrite bool_decide_true by done. simpl.
  case_bool_decide as Hp; simpl; [|by split; [|split; [|intros []]]].
  pose proof (identities_valid_spec r ms Hd) as Hids.
  destruct (identities_valid r ms); simpl; cycle 1.
  { split; [done|]. split; [done|]. intros []. exfalso.
    assert (false = true); [|done]. apply Hids. by split_and!. }
  assert (∀ p cap, by_pair caps !! p = Some cap → ∃ s t,
    split_pair (pc_pair_id cap) = Some (s, t)) as Hsp.
  { intros p cap Hc. rewrite (by_pair_key _ _ _ Hc).
    destruct (expected_pair_splits p) as (s & t & ? & _); [|eauto].
    rewrite <- Hp. apply elem_of_dom. eauto. }
  assert (∀ P : PairCapability → Prop, Forall P (map_to_list (by_pair caps)).*2
    ↔ ∀ p cap, by_pair caps !! p = Some cap → P cap) as Hval.
  { intros P. rewrite Forall_fmap, Forall_forall. split.
    - intros Hall p cap Hc. by apply (Hall (p, cap)), elem_of_map_to_list.
    - intros Hall [p cap] Hc%elem_of_map_to_list. eauto. }
  split.
  - apply all_result_total, Hval. intros p cap Hc.
    destruct (Hsp p cap Hc) as (s & t & Hst). by eapply admit_capability_spec.
  - rewrite all_result_Ok, Hval. split.
    + intros Hall. destruct Hids as [Hids _]. specialize (Hids eq_refl).
      destruct Hids as (?&?&?&?&?&?&?). split; try done; [by apply world_dom|].
      intros p cap Hc. destruct (Hsp p cap Hc) as (s & t & Hst).
      pose proof (Hall p cap Hc) as Ha. eapply admit_capability_spec in Ha; [|done].
      rewrite (by_pair_key _ _ _ Hc) in Hst. naive_solver.
    + intros Hw p cap Hc. destruct (w_caps _ _ _ Hw p cap Hc) as (s & t & ws & wt & Hst & ?).
      eapply admit_capability_spec; [by rewrite (by_pair_key _ _ _ Hc)|]. naive_solver.
Qed.

(** ** The registry invariant *)

(** A published world is valid, and every stored report was accepted for the
    current epoch of a current member. *)
Record reg_wf (r : WorkerRegistry) : Prop := {
  rw_ready : reg_state r = READY → World r (members r) (capabilities r);
  rw_report : ∀ i signal, resources r !! i = Some signal → ∃ w at_ report,
    members r !! i = Some w
    ∧ rs_instance_epoch signal = Some (wi_instance_epoch w)
    ∧ rs_received_at signal = Some at_ ∧ rs_report signal = Some report
    ∧ report_acceptable r report w = true;
  rw_failed : reg_state r = FAILED → capabilities r = ∅ }.

(** The calls that do not publish a world, and all calls. *)
Inductive unpublished_step (r : WorkerRegistry) : WorkerRegistry → Prop :=
| step_rejected ids caps :
    (install_world ids caps r).1 ≠ Ok true →
    unpublished_step r (install_world ids caps r).2
| step_observe w : unpublished_step r (observe_identity w r).2
| step_observe_caps caps : unpublished_step r (observe_capabilities caps r).2
| step_report i report at_ now :
    unpublished_step r (update_resource_report i report at_ now r).2.

Inductive reg_step (r : WorkerRegistry) : WorkerRegistry → Prop :=
| step_install ids caps : reg_step r (install_world ids caps r).2
| step_other r' : unpublished_step r r' → reg_step r r'.

Lemma world_static r r' ms caps :
  expected_topology_generation r' = expected_topology_generation r →
  expected_kv_compatibility_id r' = expected_kv_compatibility_id r →
  require_gpudirect_rdma r' = require_gpudirect_rdma r →
  World r ms caps → World r' ms caps.
Proof.
  intros Hg Hc Hr [? ? ? ? ? ? ? ? ? ?].
  split; try done; [by rewrite Hg|by rewrite Hc|by rewrite Hr].
Qed.

Lemma reg_fail_wf r : reg_wf (reg_fail r).
Proof. by split; simpl. Qed.

Lemma install_world_wf ids caps r : reg_wf r → reg_wf (install_world ids caps r).2.
Proof.
  intros Hwf. unfold install_world.
  destruct (world_valid r (by_id ids) (by_pair caps)) as [[]|] eqn:Hv; simpl;
    [|apply reg_fail_wf|done].
  split; simpl; [|done|done]. intros _. apply world_valid_spec in Hv.
  by eapply world_static; [..|exact Hv].
Qed.

Lemma update_report_wf i report at_ now r :
  reg_wf r → reg_wf (update_resource_report i report at_ now r).2.
Proof.
  intros Hwf. unfold update_resource_report.
  destruct (members r !! i) as [w|] eqn:Hi; [|done].
  destruct (report_acceptable r report w) eqn:Ha; simpl; [|done].
  case_bool_decide; simpl; [done|]. split; simpl.
  - intros Hs. eapply world_static; [..|by apply (rw_ready r Hwf)]; done.
  - intros j signal [[<- <-]|[_ Hj]]%lookup_insert_Some; simpl.
    + by exists w, (default now at_), report.
    + by apply (rw_report r Hwf j signal Hj).
  - apply (rw_failed r Hwf).
Qed.

Lemma reg_step_wf r r' : reg_wf r → reg_step r r' → reg_wf r'.
Proof.
  intros Hwf Hs. destruct Hs as [ids caps|? [ids caps _|w|caps|i report at_ now]].
  - by apply install_world_wf.
  - by apply install_world_wf.
  - unfold observe_identity. case_bool_decide; [done|apply reg_fail_wf].
  - unfold observe_capabilities. case_bool_decide; [done|apply reg_fail_wf].
  - by apply update_report_wf.
Qed.

#[export] Hint Resolve reg_step_wf reg_fail_wf : prism.

Lemma nonneg_int_Some v z : nonneg_int v = Some z ↔ v = JInt z ∧ 0 ≤ z.
Proof.
  unfold nonneg_int, as_int. destruct v; simpl; try naive_solver.
  case_bool_decide; naive_solver.
Qed.

Lemma mapM_nonneg_int l values :
  mapM nonneg_int l = Some values → l = JInt <$> values ∧ Forall (λ v, 0 ≤ v) values.
Proof.
  intros Hm%mapM_Some. induction Hm as [|x z l zs Hx _ [-> ?]]; [by split|].
  apply nonneg_int_Some in Hx as [-> ?]. by split; [|constructor].
Qed.

Lemma blocks_valid_spec report :
  blocks_valid report = true → ∃ total free buckets values,
    jget "num_gpu_blocks" report = JInt total
    ∧ jget "free_blocks" report = JInt free
    ∧ jget "block_buckets" report = JObj buckets
    ∧ list_to_set (dkeys buckets) = expected_buckets
    ∧ dvalues buckets = JInt <$> values ∧ Forall (λ v, 0 ≤ v) values
    ∧ jget "free" buckets = JInt free ∧ sumZ id values = total.
Proof.
  unfold blocks_valid.
  destruct (nonneg_int (jget "num_gpu_blocks" report)) as [total|] eqn:Ht; [|done].
  destruct (nonneg_int (jget "free_blocks" report)) as [free|] eqn:Hf; [|done].
  destruct (jget "block_buckets" report) as [| | | | | |buckets]; simpl; try done.
  rewrite !andb_true_iff, bool_decide_eq_true. intros [[_ Hk] Hv].
  destruct (mapM nonneg_int (dvalues buckets)) as [values|] eqn:Hm; [|done].
  rewrite andb_true_iff, !bool_decide_eq_true in Hv. destruct Hv as [Hfree Hsum].
  apply mapM_nonneg_int in Hm as [Hm Hnn].
  apply nonneg_int_Some in Ht as [Ht _], Hf as [Hf _], Hfree as [Hfree _].
  exists total, free, buckets, values. by split_and!.
Qed.

(** ** A closed gate stops every client *)

Section closed_gate.
Context {G : Type} `{RoutingGate G} {ms : list string} `{!RoutingGateLaws G ms}.

Lemma closed_gate_picks g req now s :
  (∀ i, can_route g i = false) →
  pick_prefill_instance (Some g) req s = (None, s)
  ∧ pick_decode_instance (Some g) req now s = (None, s).
Proof.
  intros Hc. unfold pick_prefill_instance, prefill_candidates,
    pick_decode_instance, decode_candidates, decode_candidate, registry_allows.
  split.
  - destruct (filter _ _) as [|i l] eqn:Hf; [done|].
    assert (i ∈ i :: l) as Hin by left. rewrite <- Hf in Hin.
    apply list_elem_of_filter in Hin as [Hin _]. by rewrite Hc in Hin.
  - destruct (filter _ _) as [|i l] eqn:Hf; [done|].
    assert (i ∈ i :: l) as Hin by left. rewrite <- Hf in Hin.
    apply list_elem_of_filter in Hin as [Hin _].
    rewrite Hc, andb_false_r in Hin. done.
Qed.

Lemma closed_gate_sends g now gov dst size prio src :
  (∀ i, can_route g i = false) → can_send (Some g) now gov dst size prio src = false.
Proof. intros Hc. unfold can_send, governs. by rewrite gate_same, Hc. Qed.
End closed_gate.

Lemma update_report_state i report at_ now r :
  reg_state (update_resource_report i report at_ now r).2 = reg_state r.
Proof. unfold update_resource_report. by repeat case_match. Qed.

Lemma unpublished_not_ready r r' :
  reg_state r ≠ READY → unpublished_step r r' → reg_state r' ≠ READY.
Proof.
  intros Hn Hs. destruct Hs as [ids caps Hu|w|caps|i report at_ now].
  - unfold install_world in *. by destruct (world_valid _ _ _) as [[]|].
  - unfold observe_identity. by case_bool_decide.
  - unfold observe_capabilities. by case_bool_decide.
  - by rewrite update_report_state.
Qed.

Lemma not_ready_closed r now i : reg_state r ≠ READY → can_admit r now i = false.
Proof. intros Hn. unfold can_admit. by rewrite bool_decide_false. Qed.

(** ** Properties *)

(** C34: in every reachable registry a READY state means the installed members
    and capabilities form a valid fixed world (the four expected members with
    their roles and ranks, one generation, digest and compatibility id,
    distinct pods, every expected pair probed between the members' current
    epochs), every stored report was accepted for the current epoch of a
    member, and a FAILED registry holds no capability. *)
Theorem registry_reachable_inv gen compat profile gdr stale r0 r :
  new_WorkerRegistry gen compat profile gdr stale = Ok r0 →
  rtc reg_step r0 r → reg_wf r.
Proof.
  intros Hn Hr. assert (reg_wf r0) as H0.
  { unfold new_WorkerRegistry in Hn. repeat case_bool_decide; simplify_eq.
    by split; simpl. }
  clear Hn. revert H0. induction Hr; eauto with prism.
Qed.

(** [install_world] never raises and is atomic: it publishes exactly the
    valid worlds, replacing members and capabilities and dropping every
    resource report; any other input fails the topology, clears capabilities
    and reports, and keeps the previous members. *)
Theorem install_world_atomic ids caps r :
  ∃ b, (install_world ids caps r).1 = Ok b
  ∧ (b = true ↔ World r (by_id ids) (by_pair caps))
  ∧ let r' := (install_world ids caps r).2 in
    resources r' = ∅
    ∧ if b then reg_state r' = READY ∧ members r' = by_id ids
                ∧ capabilities r' = by_pair caps
      else reg_state r' = FAILED ∧ members r' = members r ∧ capabilities r' = ∅.
Proof.
  destruct (world_valid_spec r (by_id ids) caps) as [Hok Hw]. unfold install_world.
  destruct (world_valid r (by_id ids) (by_pair caps)) as [[]|]; [..|done].
  - exists true. naive_solver.
  - exists false. naive_solver.
Qed.

(** a failed topology is fenced until a valid world is installed:
    whatever is observed or reported meanwhile, no instance is admitted, the
    scheduler picks neither a prefill nor a decode instance, and the governor
    sends nothing. *)
Theorem failed_world_stays_fenced r r' now :
  rtc unpublished_step (reg_fail r) r' →
  (∀ i, can_admit r' now i = false)
  ∧ reg_world_fresh r' now = false
  ∧ (∀ req t s, pick_prefill_instance (Some (r', now)) req s = (None, s)
                ∧ pick_decode_instance (Some (r', now)) req t s = (None, s))
  ∧ (∀ t gov dst size prio src,
       can_send (Some (r', now)) t gov dst size prio src = false).
Proof.
  intros Hr. assert (reg_state r' ≠ READY) as Hn.
  { assert (reg_state (reg_fail r) ≠ READY) as H0 by done. revert H0.
    induction Hr; eauto using unpublished_not_ready. }
  assert (∀ i, can_route (r', now) i = false) as Hc by (intros; by apply not_ready_closed).
  split_and!; [done| | |].
  - unfold reg_world_fresh. by rewrite bool_decide_false.
  - intros. by apply closed_gate_picks.
  - intros. by apply closed_gate_sends.
Qed.

(** an accepted report opens its instance, and only it, for exactly the
    freshness window counted from the time it was received; a report with
    block fields is only accepted if its buckets are the five expected ones,
    none negative, and add up to the number of GPU blocks. *)
Theorem accepted_report_spec i report at_ now r r' :
  update_resource_report i report at_ now r = (true, r') →
  (∀ t, can_admit r' t i =
     bool_decide (reg_state r = READY)
     && bool_decide (Z.max 0 (t - default now at_) ≤ resource_report_stale_after r))
  ∧ (∀ j t, j ≠ i → can_admit r' t j = can_admit r t j)
  ∧ (∀ k, k ∈ block_fields → dmem k report = true →
      ∃ total free buckets values,
        jget "num_gpu_blocks" report = JInt total
        ∧ jget "free_blocks" report = JInt free
        ∧ jget "block_buckets" report = JObj buckets
        ∧ list_to_set (dkeys buckets) = expected_buckets
        ∧ dvalues buckets = JInt <$> values ∧ Forall (λ v, 0 ≤ v) values
        ∧ jget "free" buckets = JInt free ∧ sumZ id values = total).
Proof.
  unfold update_resource_report. destruct (members r !! i) as [w|] eqn:Hm; [|done].
  destruct (report_acceptable r report w) eqn:Ha; simpl; [|done].
  case_bool_decide; [done|]. intros [= <-]. split_and!.
  - intros t. unfold can_admit, resource_signal. simpl. rewrite lookup_insert_eq. simpl.
    f_equal. unfold freshness. by repeat case_bool_decide.
  - intros j t Hj. unfold can_admit, resource_signal. simpl.
    by rewrite lookup_insert_ne.
  - intros k Hk Hd. apply blocks_valid_spec. unfold report_acceptable in Ha.
    rewrite !andb_true_iff in Ha. destruct Ha as [_ Ha].
    unfold resource_report_schema_valid in Ha.
    destruct (profile_valid r report w); cbn [negb] in Ha; [|done].
    assert (existsb (λ k, dmem k report) block_fields = true) as He.
    { apply existsb_exists. exists k. split; [by apply list_elem_of_In|done]. }
    rewrite He in Ha. cbn [negb] in Ha. by destruct (forallb _ _).
Qed.

(** ** Concrete instances of the properties *)

Definition demo_member (name role : string) (rank : Z) : WorkerIdentity :=
  mkWorkerIdentity name role "gen1" ("pod-" +:+ name) "1" ("http://" +:+ name) rank
    "digest" "kv1".
Definition demo_world : list WorkerIdentity :=
  [demo_member "p0" "prefill" 0; demo_member "p1" "prefill" 1;
   demo_member "d0" "decode" 2; demo_member "d1" "decode" 3].
Definition demo_pair (s t : string) : PairCapability :=
  mkPairCapability (s +:+ "--" +:+ t) ("pod-" +:+ s +:+ ":1") ("pod-" +:+ t +:+ ":1")
    "NCCL_SOCKET" "probe1" true "evidence".
Definition demo_pairs : list PairCapability :=
  [demo_pair "p0" "d0"; demo_pair "p0" "d1"; demo_pair "p1" "d0"; demo_pair "p1" "d1";
   demo_pair "d0" "d1"].
Definition demo_registry : WorkerRegistry :=
  mkWorkerRegistry "gen1" (Some "kv1") None false (2 * 10 ^ 9) STARTING ∅ ∅ ∅.
Definition demo_ready : WorkerRegistry := (install_world demo_world demo_pairs demo_registry).2.
Definition demo_report : odict string json :=
  [("instance_epoch", JStr "pod-d0:1"); ("complete", JBool true); ("resources", JObj []);
   ("num_gpu_blocks", JInt 10); ("free_blocks", JInt 4);
   ("block_conservation_valid", JBool true);
   ("block_buckets", JObj [("free", JInt 4); ("pending", JInt 1); ("sequence", JInt 3);
                           ("evictable", JInt 2); ("quarantined", JInt 0)])].

Example demo_world_installs : (install_world demo_world demo_pairs demo_registry).1 = Ok true.
Proof. vm_compute. reflexivity. Qed.

Example missing_probe_rejected :
  (install_world demo_world (tail demo_pairs) demo_registry).1 = Ok false.
Proof. vm_compute. reflexivity. Qed.

Lemma registry_reachable_inv_witness : World demo_ready (members demo_ready) (capabilities demo_ready).
Proof.
  apply (registry_reachable_inv "gen1" (Some "kv1") None false (2 * 10 ^ 9) demo_registry).
  - reflexivity.
  - apply rtc_once, step_install.
  - vm_compute. reflexivity.
Defined.

Lemma failed_world_stays_fenced_witness :
  can_admit (update_resource_report "d0" demo_report None 5
               (reg_fail demo_ready)).2 5 "d0" = false.
Proof.
  apply (failed_world_stays_fenced demo_ready). apply rtc_once, step_report.
Defined.

Lemma accepted_report_spec_witness :
  can_admit (update_resource_report "d0" demo_report None 5 demo_ready).2 7 "d0" = true.
Proof.
  destruct (accepted_report_spec "d0" demo_report None 5 demo_ready
    (update_resource_report "d0" demo_report None 5 demo_ready).2) as (Ha & _ & _).
  - vm_compute. reflexivity.
  - rewrite (Ha 7). vm_compute. reflexivity.
Defined.
