(* ===== verification/PrefixIndex.v ===== *)
(** * The prefix index (router/prefix_index.py)

    Where each cached prefix block lives.  [_index], [_forward] and
    [_last_seq] are finite maps of finite sets: the order of a Python set is
    never observed here ([remove_owner] folds over one, and the folds of two
    orders agree).  A [defaultdict] read that creates an entry is written out
    where the entry can be seen ([_forward[owner].discard] and
    [staged_forward[owner]]); an empty [_index] entry is popped by the same
    statement.  An exception keeps what the loop did before it.  The contract
    is the set [abs] of cached locations, which every operation transforms as
    a set operation. *)

From S2P Require Import Prelude PyDict Fingerprint.
From stdpp Require Import prelude gmap strings sorting.

Local Open Scope Z_scope.

Record CacheLocation := mkCacheLocation {
  cl_instance_id : string;
  cl_instance_epoch : string;
  cl_namespace : string;
  cl_kv_compatibility_id : string;
  cl_request_context_digest : string;
  cl_chain_hash : Z;
  cl_block_index : Z;
  cl_block_id : Z;
  cl_prefix_tokens : Z;
  cl_last_updated : Z }.

#[export] Instance CacheLocation_eq_dec : EqDecision CacheLocation.
Proof. solve_decision. Defined.
#[export] Instance CacheLocation_countable : Countable CacheLocation.
Proof.
  refine (inj_countable
    (λ l, ([cl_instance_id l; cl_instance_epoch l; cl_namespace l; cl_kv_compatibility_id l;
            cl_request_context_digest l],
           [cl_chain_hash l; cl_block_index l; cl_block_id l; cl_prefix_tokens l;
            cl_last_updated l]))
    (λ x, match x with
          | ([a; b; c; d; e], [f; g; h; i; j]) => Some (mkCacheLocation a b c d e f g h i j)
          | _ => None
          end) _).
  by intros [].
Defined.

Inductive event_kind : Type := hash_added | evicted | other_kind (k : string).

Record PrefixEvent := mkPrefixEvent {
  ev_kind : event_kind;
  ev_location : CacheLocation;
  ev_seq_no : Z }.

Definition Key : Type := string * string * string * Z.
Definition Owner : Type := string * string.

Definition key_of (l : CacheLocation) : Key :=
  (cl_namespace l, cl_kv_compatibility_id l, cl_request_context_digest l, cl_chain_hash l).
Definition owner_of (l : CacheLocation) : Owner := (cl_instance_id l, cl_instance_epoch l).

Record PrefixIndex := mkPrefixIndex {
  max_age : Z;
  index : gmap Key (gset CacheLocation);
  forward : gmap Owner (gset Key);
  last_seq : gmap Owner Z }.

#[export] Instance PrefixIndex_eta : Eta PrefixIndex := λ r,
  mkPrefixIndex (max_age r) (index r) (forward r) (last_seq r).

Definition set_index (v : gmap Key (gset CacheLocation)) (r : PrefixIndex) : PrefixIndex :=
  ltac:(with_field r index v).
Definition set_forward (v : gmap Owner (gset Key)) (r : PrefixIndex) : PrefixIndex :=
  ltac:(with_field r forward v).
Definition set_last_seq (v : gmap Owner Z) (r : PrefixIndex) : PrefixIndex :=
  ltac:(with_field r last_seq v).

Definition new_PrefixIndex (age : Z) : result exn PrefixIndex :=
  if bool_decide (0 < age) then Ok (mkPrefixIndex age ∅ ∅ ∅) else Raise AssertionError.

(** [m.get(k, set())] *)
Definition set_at {K A} `{Countable K, Countable A} (m : gmap K (gset A)) (k : K) : gset A :=
  default ∅ (m !! k).

(** [self._index[key] = s] and [if not s: self._index.pop(key)]. *)
Definition put_or_pop (k : Key) (s : gset CacheLocation)
    (m : gmap Key (gset CacheLocation)) : gmap Key (gset CacheLocation) :=
  if decide (s = ∅) then delete k m else <[k := s]> m.

(** ** Operations *)

Definition add_location (l : CacheLocation) (p : PrefixIndex) : PrefixIndex :=
  set_forward (<[owner_of l := {[key_of l]} ∪ set_at (forward p) (owner_of l)]> (forward p))
    (set_index (<[key_of l := {[l]} ∪ set_at (index p) (key_of l)]> (index p)) p).

Definition remove_block (k : Key) (o : Owner) (block_id : Z) (p : PrefixIndex) : PrefixIndex :=
  let kept := filter (λ l, owner_of l ≠ o ∨ cl_block_id l ≠ block_id) (set_at (index p) k) in
  let p1 := set_index (put_or_pop k kept (index p)) p in
  if decide (filter (λ l, owner_of l = o) (set_at (index p1) k) = ∅)
  then set_forward (<[o := set_at (forward p1) o ∖ {[k]}]> (forward p1)) p1
  else p1.

(** [_remove_owner] *)
Definition remove_owner_key (o : Owner) (m : gmap Key (gset CacheLocation)) (k : Key) :
    gmap Key (gset CacheLocation) :=
  put_or_pop k (filter (λ l, owner_of l ≠ o) (set_at m k)) m.

Definition remove_owner (o : Owner) (p : PrefixIndex) : PrefixIndex :=
  set_last_seq (delete o (last_seq p))
    (set_forward (delete o (forward p))
       (set_index (foldl (remove_owner_key o) (index p) (elements (set_at (forward p) o))) p)).

Definition remove_instance (instance_id : string) (p : PrefixIndex) : PrefixIndex :=
  foldl (λ p o, remove_owner o p) p
    (filter (λ o : Owner, o.1 = instance_id) (map_to_list (forward p)).*1).

Definition clear (p : PrefixIndex) : PrefixIndex := mkPrefixIndex (max_age p) ∅ ∅ ∅.

(** One iteration of [apply_events]: the new cursor. *)
Definition apply_event (o : Owner) (cursor : Z) (e : PrefixEvent) :
    method PrefixIndex Z := λ p,
  if decide (owner_of (ev_location e) ≠ o) then (Raise ValueError, p)
  else if bool_decide (ev_seq_no e ≤ cursor) then (Ok cursor, p)
  else if bool_decide (ev_seq_no e ≠ cursor + 1) then (Raise FullReportRequired, p)
  else match ev_kind e with
       | hash_added => (Ok (ev_seq_no e), add_location (ev_location e) p)
       | evicted => (Ok (ev_seq_no e),
                     remove_block (key_of (ev_location e)) o (cl_block_id (ev_location e)) p)
       | other_kind _ => (Raise ValueError, p)
       end.

Fixpoint apply_loop (o : Owner) (cursor : Z) (events : list PrefixEvent) :
    method PrefixIndex Z := λ p,
  match events with
  | [] => (Ok cursor, p)
  | e :: events' =>
      match apply_event o cursor e p with
      | (Ok c, p') => apply_loop o c events' p'
      | (Raise x, p') => (Raise x, p')
      end
  end.

Definition cursor_of (o : Owner) (p : PrefixIndex) : Z := default 0 (last_seq p !! o).

Definition apply_events (o : Owner) (events : list PrefixEvent) : method PrefixIndex Z := λ p,
  match apply_loop o (cursor_of o p) events p with
  | (Ok c, p') => (Ok c, set_last_seq (<[o := c]> (last_seq p')) p')
  | (Raise x, p') => (Raise x, p')
  end.

(** The loop of [install_full_report]. *)
Fixpoint add_owned (o : Owner) (locations : list CacheLocation) : method PrefixIndex unit := λ p,
  match locations with
  | [] => (Ok tt, p)
  | l :: ls => if decide (owner_of l ≠ o) then (Raise ValueError, p)
               else add_owned o ls (add_location l p)
  end.

Definition install_full_report (o : Owner) (snapshot_seq_no : Z)
    (locations : list CacheLocation) : method PrefixIndex unit := λ p,
  match add_owned o locations (remove_owner o p) with
  | (Ok _, p') => (Ok tt, set_last_seq (<[o := snapshot_seq_no]> (last_seq p')) p')
  | (Raise x, p') => (Raise x, p')
  end.

(** One report of [install_world_full_reports], on the staged index. *)
Definition stage_report (rep : Owner * Z * list CacheLocation) : method PrefixIndex unit := λ p,
  let '(o, seq, locations) := rep in
  if decide (is_Some (last_seq p !! o)) then (Raise ValueError, p)
  else if bool_decide (seq < 0) then (Raise ValueError, p)
  else
    let p1 := set_forward (<[o := set_at (forward p) o]> (forward p)) p in
    match add_owned o locations p1 with
    | (Ok _, p2) => (Ok tt, set_last_seq (<[o := seq]> (last_seq p2)) p2)
    | (Raise x, p2) => (Raise x, p2)
    end.

Fixpoint stage_reports (reports : list (Owner * Z * list CacheLocation)) :
    method PrefixIndex unit := λ p,
  match reports with
  | [] => (Ok tt, p)
  | rep :: reports' =>
      match stage_report rep p with
      | (Ok _, p') => stage_reports reports' p'
      | (Raise x, p') => (Raise x, p')
      end
  end.

Definition install_world_full_reports (reports : list (Owner * Z * list CacheLocation))
    (expected_owners : gset Owner) : method PrefixIndex unit := λ p,
  match stage_reports reports (clear p) with
  | (Raise x, _) => (Raise x, p)
  | (Ok _, staged) =>
      if decide (dom (last_seq staged) = expected_owners) then (Ok tt, staged)
      else (Raise ValueError, p)
  end.

(** The key [iter_matches] looks up for [n] leading blocks; [None] would be
    the IndexError of [chain_hashes[n - 1]]. *)
Definition match_key (fp : PromptFingerprint) (n : nat) : option Key :=
  h ← fp_chain_hashes fp !! pred n;
  Some (fp_namespace fp, fp_kv_compatibility_id fp, fp_request_context_digest fp, h).

Definition fresh_at (p : PrefixIndex) (now : Z) (k : Key) : gset CacheLocation :=
  filter (λ l, now - cl_last_updated l ≤ max_age p) (set_at (index p) k).

(** [range(max_reusable_blocks(), 0, -1)] *)
Definition blocks_down (fp : PromptFingerprint) : list nat :=
  reverse (seq 1 (Z.to_nat (max_reusable_blocks fp))).

(** The pairs the generator [iter_matches] yields, in order. *)
Definition iter_matches (p : PrefixIndex) (fp : PromptFingerprint) (now : Z) :
    list (nat * gset CacheLocation) :=
  omap (λ n, k ← match_key fp n;
             let fresh := fresh_at p now k in
             if decide (fresh = ∅) then None else Some (n, fresh)) (blocks_down fp).

(** [assert_consistent] as a test. *)
Definition assert_consistent (p : PrefixIndex) : bool :=
  bool_decide (map_Forall (λ k locs, locs ≠ ∅ ∧
    set_Forall (λ l, k ∈ set_at (forward p) (owner_of l)) locs) (index p)).

(** ** The contract: a set of locations *)

(** Every location the index holds. *)
Definition abs (p : PrefixIndex) : gset CacheLocation := ⋃ (map_to_list (index p)).*2.

Record pi_wf (p : PrefixIndex) : Prop := {
  pw_nonempty : ∀ k s, index p !! k = Some s → s ≠ ∅;
  pw_key : ∀ k l, l ∈ set_at (index p) k → key_of l = k;
  pw_forward : ∀ o k, k ∈ set_at (forward p) o ↔
    ∃ l, l ∈ set_at (index p) k ∧ owner_of l = o }.

Section set_at.
Context {K A : Type} `{Countable K, Countable A}.
Implicit Types (m : gmap K (gset A)) (k : K) (s : gset A).

Lemma set_at_insert m k s k' :
  set_at (<[k := s]> m) k' = if decide (k' = k) then s else set_at m k'.
Proof.
  unfold set_at. case_decide; subst; [by rewrite lookup_insert_eq|].
  by rewrite lookup_insert_ne.
Qed.

Lemma elem_of_set_at_add m k x k' y :
  y ∈ set_at (<[k := {[x]} ∪ set_at m k]> m) k' ↔ (k' = k ∧ y = x) ∨ y ∈ set_at m k'.
Proof. rewrite set_at_insert. case_decide; subst; set_solver. Qed.

Lemma set_at_delete m k k' :
  set_at (delete k m) k' = if decide (k' = k) then ∅ else set_at m k'.
Proof.
  unfold set_at. case_decide; subst; [by rewrite lookup_delete_eq|].
  by rewrite lookup_delete_ne.
Qed.
End set_at.

Lemma set_at_put k s m k' :
  set_at (put_or_pop k s m) k' = if decide (k' = k) then s else set_at m k'.
Proof.
  unfold put_or_pop. case_decide; subst; [|by rewrite set_at_insert].
  by rewrite set_at_delete.
Qed.

Lemma put_nonempty k s m :
  (∀ k' s', m !! k' = Some s' → s' ≠ ∅) →
  ∀ k' s', put_or_pop k s m !! k' = Some s' → s' ≠ ∅.
Proof.
  intros Hm k' s'. unfold put_or_pop. case_decide.
  - intros [_ ?]%lookup_delete_Some. eauto.
  - intros [[_ <-]|[_ ?]]%lookup_insert_Some; eauto.
Qed.

Lemma set_at_None (p : PrefixIndex) k :
  pi_wf p → index p !! k = None ↔ set_at (index p) k = ∅.
Proof.
  intros Hwf. unfold set_at. destruct (index p !! k) as [s|] eqn:Hk; simpl; [|done].
  split; [done|]. intros ->. by apply (pw_nonempty p Hwf) in Hk.
Qed.

Lemma elem_of_abs_at p l : l ∈ abs p ↔ ∃ k, l ∈ set_at (index p) k.
Proof.
  unfold abs, set_at. rewrite elem_of_union_list. split.
  - intros (X & ([k X'] & -> & Hin)%list_elem_of_fmap & Hl).
    apply elem_of_map_to_list in Hin. exists k. by rewrite Hin.
  - intros (k & Hl). destruct (index p !! k) as [s|] eqn:Hk; simpl in Hl; [|set_solver].
    exists s. split; [|done]. apply list_elem_of_fmap. exists (k, s).
    split; [done|]. by apply elem_of_map_to_list.
Qed.

Lemma elem_of_abs p l : pi_wf p → l ∈ abs p ↔ l ∈ set_at (index p) (key_of l).
Proof.
  intros Hwf. rewrite elem_of_abs_at. split; [|eauto].
  intros (k & Hl). by rewrite (pw_key p Hwf k l Hl).
Qed.

Lemma elem_of_set_at p k l : pi_wf p → l ∈ set_at (index p) k ↔ l ∈ abs p ∧ key_of l = k.
Proof.
  intros Hwf. rewrite elem_of_abs by done. split.
  - intros Hl. pose proof (pw_key p Hwf k l Hl) as <-. done.
  - by intros [? <-].
Qed.

(** Two well-formed indexes with the same locations have the same [_index]
    and the same non-empty [_forward] entries. *)
Lemma abs_determines p q :
  pi_wf p → pi_wf q → abs p = abs q →
  index p = index q ∧ ∀ o, set_at (forward p) o = set_at (forward q) o.
Proof.
  intros Hp Hq Ha.
  assert (∀ k, set_at (index p) k = set_at (index q) k) as Hk.
  { intros k. apply set_eq. intros l. rewrite !elem_of_set_at by done. by rewrite Ha. }
  split.
  - apply map_eq. intros k. pose proof (set_at_None p k Hp) as H1.
    pose proof (set_at_None q k Hq) as H2. specialize (Hk k). rewrite Hk in H1.
    destruct (index p !! k) as [s|] eqn:E1, (index q !! k) as [s'|] eqn:E2.
    + unfold set_at in Hk. rewrite E1, E2 in Hk. simpl in Hk. by rewrite Hk.
    + destruct H1 as [_ H1]. by specialize (H1 (proj1 H2 eq_refl)).
    + destruct H2 as [_ H2]. by specialize (H2 (proj1 H1 eq_refl)).
    + done.
  - intros o. apply set_eq. intros k. rewrite !pw_forward by done. by setoid_rewrite Hk.
Qed.

(** ** Every operation is a set operation that keeps the index well formed *)

Lemma init_wf age : pi_wf (mkPrefixIndex age ∅ ∅ ∅).
Proof. split; simpl; [done|done|]. unfold set_at. simpl. set_solver. Qed.

Lemma add_location_wf l p : pi_wf p → pi_wf (add_location l p).
Proof.
  intros Hwf. split; simpl.
  - intros k s [[_ <-]|[_ ?]]%lookup_insert_Some; [set_solver|].
    by eapply pw_nonempty.
  - intros k l' [[-> ->]|?]%elem_of_set_at_add; [done|]. by apply Hwf.
  - intros o k. rewrite elem_of_set_at_add, (pw_forward p Hwf).
    setoid_rewrite elem_of_set_at_add. naive_solver.
Qed.

Lemma add_location_abs l p : pi_wf p → abs (add_location l p) = {[l]} ∪ abs p.
Proof.
  intros Hwf. apply set_eq. intros x.
  rewrite elem_of_abs by by apply add_location_wf.
  rewrite elem_of_union, elem_of_singleton, elem_of_abs by done. simpl.
  rewrite elem_of_set_at_add. naive_solver.
Qed.

(** The location [remove_block] drops. *)
Definition victim (k : Key) (o : Owner) (b : Z) (l : CacheLocation) : Prop :=
  key_of l = k ∧ owner_of l = o ∧ cl_block_id l = b.

#[export] Instance victim_dec k o b l : Decision (victim k o b l).
Proof. unfold victim. apply _. Defined.

Lemma remove_block_index k o b p k' :
  set_at (index (remove_block k o b p)) k'
  = if decide (k' = k)
    then filter (λ l, owner_of l ≠ o ∨ cl_block_id l ≠ b) (set_at (index p) k)
    else set_at (index p) k'.
Proof.
  unfold remove_block. rewrite <- set_at_put. by case_decide.
Qed.

Lemma remove_block_forward k o b p o' k' :
  k' ∈ set_at (forward (remove_block k o b p)) o' ↔ k' ∈ set_at (forward p) o'
    ∧ (o' = o → k' = k → ∃ l, l ∈ set_at (index p) k ∧ owner_of l = o ∧ cl_block_id l ≠ b).
Proof.
  unfold remove_block. cbn [index set_index].
  rewrite set_at_put, (decide_True (P := k = k)) by done.
  destruct (decide (filter _ (filter _ _) = ∅)) as [Hno|Hno]; simpl.
  - rewrite set_at_insert. case_decide; subst; [|naive_solver].
    rewrite elem_of_difference, elem_of_singleton. split; [naive_solver|].
    intros [? Hl]. split; [done|]. intros ->. destruct Hl as (l & ? & ? & ?); try done.
    assert (l ∈ (∅ : gset CacheLocation)); [|set_solver]. rewrite <- Hno.
    rewrite !elem_of_filter. naive_solver.
  - split; [|naive_solver]. intros Hk'. split; [done|]. intros _ _.
    apply set_choose_L in Hno as [x Hx]. rewrite !elem_of_filter in Hx. naive_solver.
Qed.

Lemma remove_block_wf k o b p : pi_wf p → pi_wf (remove_block k o b p).
Proof.
  intros Hwf. split.
  - assert (index (remove_block k o b p) = put_or_pop k
      (filter (λ l, owner_of l ≠ o ∨ cl_block_id l ≠ b) (set_at (index p) k)) (index p)) as ->.
    { unfold remove_block. by case_decide. }
    apply put_nonempty, Hwf.
  - intros k' l. rewrite remove_block_index. case_decide; subst; [|apply Hwf].
    intros [_ ?]%elem_of_filter. by apply Hwf.
  - intros o' k'. rewrite remove_block_forward, (pw_forward p Hwf), remove_block_index.
    destruct (decide (k' = k)) as [->|]; [|naive_solver].
    setoid_rewrite elem_of_filter. destruct (decide (o' = o)) as [->|Hne]; split.
    + intros [_ Hl]. destruct (Hl eq_refl eq_refl) as (l & ? & ? & ?). eauto 6.
    + intros (l & [[?|?] ?] & ?); [done|]. eauto 8.
    + intros [(l & ? & <-) _]. eauto 6.
    + intros (l & [_ ?] & ?). split; [eauto|done].
Qed.

Lemma remove_block_abs k o b p :
  pi_wf p → abs (remove_block k o b p) = filter (λ l, ¬ victim k o b l) (abs p).
Proof.
  intros Hwf. apply set_eq. intros x. rewrite elem_of_filter.
  rewrite !elem_of_abs by (done || by apply remove_block_wf).
  rewrite remove_block_index. unfold victim. case_decide as Hk; [|naive_solver].
  rewrite Hk, elem_of_filter.
  destruct (decide (owner_of x = o)), (decide (cl_block_id x = b)); naive_solver.
Qed.

Lemma remove_owner_fold o ks m k :
  set_at (foldl (remove_owner_key o) m ks) k
  = if decide (k ∈ ks) then filter (λ l, owner_of l ≠ o) (set_at m k) else set_at m k.
Proof.
  revert m. induction ks as [|k0 ks IH]; intros m; cbn [foldl].
  { by rewrite decide_False by apply not_elem_of_nil. }
  rewrite IH. unfold remove_owner_key. rewrite set_at_put.
  destruct (decide (k = k0)) as [->|Hne].
  - rewrite (decide_True (P := k0 ∈ k0 :: ks)) by left. case_decide; [|done].
    apply set_eq. intros l. rewrite !elem_of_filter. tauto.
  - destruct (decide (k ∈ ks)).
    + by rewrite decide_True by by right.
    + by rewrite decide_False by by rewrite elem_of_cons; intros [|].
Qed.

Lemma remove_owner_index o p k :
  pi_wf p → set_at (index (remove_owner o p)) k
            = filter (λ l, owner_of l ≠ o) (set_at (index p) k).
Proof.
  intros Hwf. simpl. rewrite remove_owner_fold. case_decide as Hk; [done|].
  rewrite elem_of_elements, (pw_forward p Hwf) in Hk.
  apply set_eq. intros l. rewrite elem_of_filter. naive_solver.
Qed.

Lemma remove_owner_wf o p : pi_wf p → pi_wf (remove_owner o p).
Proof.
  intros Hwf. split.
  - simpl. generalize (elements (set_at (forward p) o)). pose proof (pw_nonempty p Hwf) as Hn.
    intros ks. revert Hn. generalize (index p).
    induction ks as [|k ks IH]; simpl; [done|]. intros m Hm. by apply IH, put_nonempty.
  - intros k l. rewrite remove_owner_index by done. intros [_ ?]%elem_of_filter. by apply Hwf.
  - intros o' k. rewrite remove_owner_index by done. simpl. rewrite set_at_delete.
    setoid_rewrite elem_of_filter. case_decide; subst; [set_solver|].
    rewrite (pw_forward p Hwf). naive_solver.
Qed.

Lemma remove_owner_abs o p :
  pi_wf p → abs (remove_owner o p) = filter (λ l, owner_of l ≠ o) (abs p).
Proof.
  intros Hwf. apply set_eq. intros l.
  rewrite elem_of_filter, !elem_of_abs by (done || by apply remove_owner_wf).
  by rewrite remove_owner_index, elem_of_filter.
Qed.

#[export] Hint Resolve add_location_wf remove_block_wf remove_owner_wf init_wf : prism.

Lemma remove_instance_fold os p :
  pi_wf p → let p' := foldl (λ p o, remove_owner o p) p os in
  pi_wf p' ∧ abs p' = filter (λ l, owner_of l ∉ os) (abs p).
Proof.
  revert p. induction os as [|o os IH]; simpl; intros p Hwf.
  - split; [done|]. apply set_eq. intros l. rewrite elem_of_filter. set_solver.
  - destruct (IH (remove_owner o p)) as [? ->]; [auto with prism|]. split; [done|].
    rewrite remove_owner_abs by done. apply set_eq. intros l.
    rewrite !elem_of_filter, elem_of_cons. tauto.
Qed.

Lemma remove_instance_spec i p :
  pi_wf p → pi_wf (remove_instance i p)
    ∧ abs (remove_instance i p) = filter (λ l, cl_instance_id l ≠ i) (abs p).
Proof.
  intros Hwf. unfold remove_instance.
  destruct (remove_instance_fold (filter (λ o : Owner, o.1 = i)
    (map_to_list (forward p)).*1) p Hwf) as [? ->]. split; [done|].
  apply set_eq. intros l. rewrite !elem_of_filter, list_elem_of_filter. split.
  - intros [Hn Hl]. split; [|done]. intros Hi. apply Hn. split; [done|].
    apply elem_of_abs in Hl as Hl'; [|done].
    assert (key_of l ∈ set_at (forward p) (owner_of l)) as Hf
      by (apply (pw_forward p Hwf); eauto).
    unfold set_at in Hf. destruct (forward p !! owner_of l) as [ks|] eqn:Hk; [|set_solver].
    apply list_elem_of_fmap. exists (owner_of l, ks). split; [done|].
    by apply elem_of_map_to_list.
  - intros [Hn Hl]. split; [|done]. by intros [? _].
Qed.

Lemma remove_instance_last_seq i p o :
  o.1 ≠ i → last_seq (remove_instance i p) !! o = last_seq p !! o.
Proof.
  intros Ho. unfold remove_instance.
  assert (∀ os p, o ∉ os → last_seq (foldl (λ p o, remove_owner o p) p os) !! o
                           = last_seq p !! o) as Hfold.
  { induction os as [|o' os IH]; intros q Hq; [done|]. apply not_elem_of_cons in Hq as [? ?].
    simpl. rewrite IH by done. simpl. by rewrite lookup_delete_ne. }
  apply Hfold. rewrite list_elem_of_filter. by intros [? _].
Qed.

(** ** Event batches *)

(** What one event does to a set of locations. *)
Definition abs_event (e : PrefixEvent) (A : gset CacheLocation) : gset CacheLocation :=
  let l := ev_location e in
  match ev_kind e with
  | hash_added => {[l]} ∪ A
  | evicted => filter (λ x, ¬ victim (key_of l) (owner_of l) (cl_block_id l) x) A
  | other_kind _ => A
  end.

(** The events the loop acts on, starting at a cursor, and whether it raises. *)
Fixpoint effective (o : Owner) (cursor : Z) (events : list PrefixEvent) :
    list PrefixEvent * result exn Z :=
  match events with
  | [] => ([], Ok cursor)
  | e :: events' =>
      if decide (owner_of (ev_location e) ≠ o) then ([], Raise ValueError)
      else if bool_decide (ev_seq_no e ≤ cursor) then effective o cursor events'
      else if bool_decide (ev_seq_no e ≠ cursor + 1) then ([], Raise FullReportRequired)
      else match ev_kind e with
           | other_kind _ => ([], Raise ValueError)
           | _ => let '(es, r) := effective o (ev_seq_no e) events' in (e :: es, r)
           end
  end.

Definition abs_events (es : list PrefixEvent) (A : gset CacheLocation) : gset CacheLocation :=
  foldl (λ A e, abs_event e A) A es.

Lemma abs_events_cons e es A : abs_events (e :: es) A = abs_events es (abs_event e A).
Proof. done. Qed.

Lemma apply_loop_effective o c es p :
  pi_wf p →
  let '(r, p') := apply_loop o c es p in
  r = (effective o c es).2 ∧ pi_wf p'
  ∧ abs p' = abs_events (effective o c es).1 (abs p)
  ∧ last_seq p' = last_seq p ∧ max_age p' = max_age p.
Proof.
  revert c p. induction es as [|e es IH]; intros c p Hwf; simpl; [done|].
  unfold apply_event. case_decide as Ho; [done|].
  case_bool_decide; [by apply IH|].
  case_bool_decide; [done|].
  destruct (ev_kind e) eqn:Hk; [| |done].
  - specialize (IH (ev_seq_no e) (add_location (ev_location e) p) ltac:(auto with prism)).
    destruct (apply_loop o (ev_seq_no e) es _) as [r p'].
    destruct (effective o (ev_seq_no e) es) as [es' r']. cbn [fst snd] in *.
    destruct IH as (? & ? & -> & ? & ?). split_and!; try done.
    rewrite abs_events_cons. unfold abs_event. by rewrite Hk, add_location_abs.
  - specialize (IH (ev_seq_no e) (remove_block (key_of (ev_location e)) o
      (cl_block_id (ev_location e)) p) ltac:(auto with prism)).
    destruct (apply_loop o (ev_seq_no e) es _) as [r p'].
    destruct (effective o (ev_seq_no e) es) as [es' r']. cbn [fst snd] in *.
    destruct IH as (? & ? & -> & Hl & Hm).
    assert (∀ k o b p, last_seq (remove_block k o b p) = last_seq p
                       ∧ max_age (remove_block k o b p) = max_age p) as Hst.
    { intros. unfold remove_block. by case_decide. }
    split_and!; [done|done| | |].
    + rewrite abs_events_cons. unfold abs_event. by rewrite Hk, remove_block_abs, Ho.
    + rewrite Hl. apply Hst.
    + rewrite Hm. apply Hst.
Qed.

(** The last event of a list that decides about a location, if any. *)
Definition verdict (e : PrefixEvent) (l : CacheLocation) : option bool :=
  let x := ev_location e in
  match ev_kind e with
  | hash_added => if decide (l = x) then Some true else None
  | evicted => if decide (victim (key_of x) (owner_of x) (cl_block_id x) l)
               then Some false else None
  | other_kind _ => None
  end.

Fixpoint final_verdict (es : list PrefixEvent) (l : CacheLocation) (b : bool) : bool :=
  match es with [] => b | e :: es' => final_verdict es' l (default b (verdict e l)) end.

Lemma elem_of_abs_events es A l :
  l ∈ abs_events es A ↔ final_verdict es l (bool_decide (l ∈ A)) = true.
Proof.
  revert A. induction es as [|e es IH]; intros A; simpl.
  { by rewrite bool_decide_eq_true. }
  unfold abs_events in *. simpl. rewrite IH.
  assert (bool_decide (l ∈ abs_event e A)
          = default (bool_decide (l ∈ A)) (verdict e l)) as ->; [|done].
  apply eq_true_iff_eq. rewrite bool_decide_eq_true. unfold abs_event, verdict.
  destruct (ev_kind e); [rewrite elem_of_union, elem_of_singleton|rewrite elem_of_filter|];
    repeat case_decide; simpl; rewrite ?bool_decide_eq_true; naive_solver.
Qed.

Lemma final_verdict_replay pre suf l b :
  final_verdict (pre ++ suf) l (final_verdict pre l b) = final_verdict (pre ++ suf) l b.
Proof.
  assert (∀ es b, final_verdict es l b = b ∨ ∀ b', final_verdict es l b' = final_verdict es l b)
    as Hdet.
  { induction es as [|e es IH]; intros b0; simpl; [by left|].
    destruct (verdict e l) as [v|]; simpl; [by right|]. apply IH. }
  assert (∀ es b, final_verdict (es ++ suf) l b = final_verdict suf l (final_verdict es l b))
    as Happ.
  { induction es as [|e es IH]; intros b0; simpl; [done|]. apply IH. }
  rewrite !Happ. f_equal. destruct (Hdet pre b) as [Hb|Hb].
  - by rewrite !Hb.
  - apply Hb.
Qed.

(** Replaying a list over the effect of one of its prefixes changes nothing. *)
Lemma abs_events_replay pre suf A :
  abs_events (pre ++ suf) (abs_events pre A) = abs_events (pre ++ suf) A.
Proof.
  apply set_eq. intros l. rewrite !elem_of_abs_events.
  assert (bool_decide (l ∈ abs_events pre A) = final_verdict pre l (bool_decide (l ∈ A))) as ->.
  { apply eq_true_iff_eq. by rewrite bool_decide_eq_true, elem_of_abs_events. }
  by rewrite final_verdict_replay, elem_of_abs_events.
Qed.

(** ** Reports *)

(** The locations a report adds before the first one of another owner. *)
Fixpoint owned_prefix (o : Owner) (ls : list CacheLocation) : list CacheLocation * result exn unit :=
  match ls with
  | [] => ([], Ok tt)
  | l :: ls' => if decide (owner_of l ≠ o) then ([], Raise ValueError)
                else let '(a, r) := owned_prefix o ls' in (l :: a, r)
  end.

Lemma owned_prefix_Ok o ls :
  (owned_prefix o ls).2 = Ok tt ↔ Forall (λ l, owner_of l = o) ls.
Proof.
  induction ls as [|l ls IH]; simpl; [by split|]. rewrite Forall_cons, <- IH.
  case_decide; [naive_solver|]. destruct (owned_prefix o ls). naive_solver.
Qed.

Lemma owned_prefix_all o ls : (owned_prefix o ls).2 = Ok tt → (owned_prefix o ls).1 = ls.
Proof.
  induction ls as [|l ls IH]; simpl; [done|]. case_decide; [done|].
  destruct (owned_prefix o ls). simpl in *. intros. by rewrite IH.
Qed.

Lemma add_owned_spec o ls p :
  pi_wf p →
  let '(r, p') := add_owned o ls p in
  r = (owned_prefix o ls).2 ∧ pi_wf p'
  ∧ abs p' = abs p ∪ list_to_set (owned_prefix o ls).1
  ∧ last_seq p' = last_seq p ∧ max_age p' = max_age p.
Proof.
  revert p. induction ls as [|l ls IH]; intros p Hwf; simpl.
  { split_and!; try done. set_solver. }
  case_decide; [split_and!; try done; set_solver|].
  specialize (IH (add_location l p) ltac:(auto with prism)).
  destruct (add_owned o ls (add_location l p)) as [r p'].
  destruct (owned_prefix o ls) as [a r']. simpl in *.
  destruct IH as (? & ? & -> & ? & ?). split_and!; try done.
  rewrite add_location_abs by done. set_solver.
Qed.

Lemma add_owned_last_seq o ls p : last_seq (add_owned o ls p).2 = last_seq p.
Proof.
  revert p. induction ls as [|l ls IH]; intros p; simpl; [done|].
  case_decide; [done|]. by rewrite IH.
Qed.

Lemma install_full_report_spec o seq ls p :
  pi_wf p →
  let '(r, p') := install_full_report o seq ls p in
  r = (owned_prefix o ls).2 ∧ pi_wf p'
  ∧ abs p' = filter (λ l, owner_of l ≠ o) (abs p) ∪ list_to_set (owned_prefix o ls).1
  ∧ last_seq p' = if is_ok r then <[o := seq]> (last_seq p) else delete o (last_seq p).
Proof.
  intros Hwf. unfold install_full_report.
  pose proof (add_owned_spec o ls (remove_owner o p) ltac:(auto with prism)) as Hs.
  destruct (add_owned o ls (remove_owner o p)) as [r p']. destruct Hs as (-> & Hw & Ha & Hl & _).
  rewrite remove_owner_abs in Ha by done.
  destruct (owned_prefix o ls).2 as [[]|]; simpl; split_and!; try done.
  - by destruct Hw; split.
  - rewrite Hl. simpl. by rewrite insert_delete_eq.
Qed.

(** A world of reports is valid when owners are distinct, sequence numbers
    are not negative and every location belongs to its report's owner. *)
Definition reports_valid (reports : list (Owner * Z * list CacheLocation)) : Prop :=
  NoDup (fst ∘ fst <$> reports)
  ∧ Forall (λ rep, 0 ≤ rep.1.2 ∧ Forall (λ l, owner_of l = rep.1.1) rep.2) reports.

Definition reported (reports : list (Owner * Z * list CacheLocation)) : gset CacheLocation :=
  ⋃ (list_to_set ∘ snd <$> reports).

Lemma stage_report_spec o seq ls p :
  pi_wf p →
  let '(r, p') := stage_report (o, seq, ls) p in
  (is_ok r = true ↔ last_seq p !! o = None ∧ 0 ≤ seq ∧ Forall (λ l, owner_of l = o) ls)
  ∧ (is_ok r = true → pi_wf p' ∧ abs p' = abs p ∪ list_to_set ls
       ∧ last_seq p' = <[o := seq]> (last_seq p) ∧ max_age p' = max_age p).
Proof.
  intros Hwf. unfold stage_report. destruct (last_seq p !! o) eqn:Hl.
  { rewrite decide_True by eauto. simpl. naive_solver. }
  rewrite decide_False by (by intros []). case_bool_decide; simpl; [naive_solver lia|].
  set (p1 := set_forward _ p).
  assert (pi_wf p1) as Hw1.
  { destruct Hwf as [? ? Hf]. split; simpl; [done..|]. intros o' k. rewrite <- Hf.
    rewrite set_at_insert. by case_decide; subst. }
  pose proof (add_owned_spec o ls p1 Hw1) as Hs.
  destruct (add_owned o ls p1) as [r p']. destruct Hs as (-> & Hw & Ha & Hl' & Hm).
  pose proof (owned_prefix_Ok o ls) as Hok. pose proof (owned_prefix_all o ls) as Hall.
  destruct (owned_prefix o ls).2 as [[]|] eqn:Hr; simpl.
  - rewrite Hall in Ha by done. split; [naive_solver lia|]. intros _.
    split_and!; [by destruct Hw; split|done|by rewrite Hl'|done].
  - split; [|done]. split; [done|]. intros (_ & _ & Hf). apply Hok in Hf. done.
Qed.

Lemma stage_reports_spec reports p :
  pi_wf p →
  let '(r, p') := stage_reports reports p in
  (is_ok r = true ↔ reports_valid reports
     ∧ Forall (λ rep, last_seq p !! rep.1.1 = None) reports)
  ∧ (is_ok r = true → pi_wf p' ∧ abs p' = abs p ∪ reported reports
       ∧ dom (last_seq p') = dom (last_seq p) ∪ list_to_set (fst ∘ fst <$> reports)
       ∧ max_age p' = max_age p).
Proof.
  unfold reports_valid, reported.
  revert p. induction reports as [|[[o seq] ls] reports IH]; intros p Hwf; cbn [stage_reports].
  { simpl. split; [|intros _; split_and!; set_solver]. split; [|done]. intros _.
    split_and!; constructor. }
  pose proof (stage_report_spec o seq ls p Hwf) as Hs.
  destruct (stage_report (o, seq, ls) p) as [[[]|] p1]; simpl in *; cycle 1.
  { split; [|done]. split; [done|]. rewrite !Forall_cons. simpl. naive_solver. }
  destruct Hs as [[Hok _] Hs]. specialize (Hok eq_refl). specialize (Hs eq_refl).
  destruct Hok as (Hn & Hseq & Hls), Hs as (Hw1 & Ha1 & Hl1 & Hm1). specialize (IH p1 Hw1).
  destruct (stage_reports reports p1) as [r p']. destruct IH as [IH1 IH2]. split.
  - rewrite IH1, NoDup_cons, !Forall_cons. simpl. rewrite Hl1.
    assert (Forall (λ rep, <[o := seq]> (last_seq p) !! rep.1.1 = None) reports
      ↔ (o ∉ (fst ∘ fst <$> reports)) ∧ Forall (λ rep, last_seq p !! rep.1.1 = None) reports)
      as ->; [|tauto].
    rewrite !Forall_forall. split.
    + intros Hall. split.
      * intros (rep & -> & Hr)%list_elem_of_fmap. specialize (Hall rep Hr).
        simpl in Hall. by rewrite lookup_insert_eq in Hall.
      * intros rep Hr. by apply Hall, lookup_insert_None in Hr as [? _].
    + intros [Hno Hall] rep Hr. apply lookup_insert_None. split; [eauto|].
      intros ->. apply Hno, list_elem_of_fmap. by exists rep.
  - intros Hr. destruct (IH2 Hr) as (? & -> & -> & ->). split_and!; [done| | |done].
    + rewrite Ha1. simpl. set_solver.
    + rewrite Hl1, dom_insert_L. simpl. set_solver.
Qed.

(** ** Calls *)

Inductive pi_call : Type :=
| CallApply (o : Owner) (es : list PrefixEvent)
| CallFullReport (o : Owner) (seq : Z) (ls : list CacheLocation)
| CallWorld (reports : list (Owner * Z * list CacheLocation)) (expected : gset Owner)
| CallRemoveInstance (i : string)
| CallRemoveOwner (o : Owner)
| CallClear.

Definition run_pi (c : pi_call) (p : PrefixIndex) : result exn unit * PrefixIndex :=
  match c with
  | CallApply o es =>
      let '(r, p') := apply_events o es p in
      (match r with Ok _ => Ok tt | Raise e => Raise e end, p')
  | CallFullReport o seq ls => install_full_report o seq ls p
  | CallWorld reports expected => install_world_full_reports reports expected p
  | CallRemoveInstance i => (Ok tt, remove_instance i p)
  | CallRemoveOwner o => (Ok tt, remove_owner o p)
  | CallClear => (Ok tt, clear p)
  end.

(** What a call does to the set of locations, its outcome given. *)
Definition spec_pi (c : pi_call) (cursor : Owner → Z) (r : result exn unit)
    (A : gset CacheLocation) : gset CacheLocation :=
  match c with
  | CallApply o es => abs_events (effective o (cursor o) es).1 A
  | CallFullReport o _ ls =>
      filter (λ l, owner_of l ≠ o) A ∪ list_to_set (owned_prefix o ls).1
  | CallWorld reports _ => if is_ok r then reported reports else A
  | CallRemoveInstance i => filter (λ l, cl_instance_id l ≠ i) A
  | CallRemoveOwner o => filter (λ l, owner_of l ≠ o) A
  | CallClear => ∅
  end.

Lemma set_last_seq_wf p m : pi_wf p → pi_wf (set_last_seq m p).
Proof. by intros []; split. Qed.

Lemma apply_events_spec o es p :
  pi_wf p →
  let '(r, p') := apply_events o es p in
  let eff := effective o (cursor_of o p) es in
  r = eff.2 ∧ pi_wf p' ∧ abs p' = abs_events eff.1 (abs p)
  ∧ last_seq p' = match r with
                  | Ok c => <[o := c]> (last_seq p) | Raise _ => last_seq p end.
Proof.
  intros Hwf. unfold apply_events.
  pose proof (apply_loop_effective o (cursor_of o p) es p Hwf) as Hs.
  destruct (apply_loop o (cursor_of o p) es p) as [[c|x] p'];
    destruct Hs as (? & ? & ? & Hl & _); split_and!; try done.
  - by apply set_last_seq_wf.
  - simpl. by rewrite Hl.
Qed.

Lemma clear_abs p : abs (clear p) = ∅.
Proof. done. Qed.

Lemma install_world_spec reports expected p :
  let '(r, p') := install_world_full_reports reports expected p in
  (is_ok r = true ↔ reports_valid reports
     ∧ list_to_set (fst ∘ fst <$> reports) = expected)
  ∧ if is_ok r then pi_wf p' ∧ abs p' = reported reports ∧ dom (last_seq p') = expected
    else p' = p.
Proof.
  unfold install_world_full_reports.
  pose proof (stage_reports_spec reports (clear p) (init_wf _)) as Hs.
  destruct (stage_reports reports (clear p)) as [[[]|x] staged]; simpl in *; cycle 1.
  { destruct Hs as [Hs _]. split; [|done]. split; [done|]. intros [Hv _]. apply Hs.
    split; [done|]. apply Forall_forall. intros rep _. apply lookup_empty. }
  destruct Hs as [[Hs _] Hp]. destruct (Hs eq_refl) as [Hv _].
  destruct (Hp eq_refl) as (Hw & Ha & Hd & _).
  rewrite dom_empty_L, (left_id_L ∅ (∪)) in Hd.
  rewrite clear_abs, (left_id_L ∅ (∪)) in Ha.
  case_decide as He; simpl; split; try done.
  - split; [|done]. intros _. split; [done|]. by rewrite <- Hd.
  - split; [done|]. intros [_ Hx]. by rewrite Hd in He.
Qed.

Lemma run_pi_spec c p :
  pi_wf p →
  let '(r, p') := run_pi c p in
  pi_wf p' ∧ abs p' = spec_pi c (λ o, cursor_of o p) r (abs p).
Proof.
  intros Hwf. destruct c as [o es|o seq ls|reports expected|i|o|]; simpl.
  - pose proof (apply_events_spec o es p Hwf) as Hs.
    destruct (apply_events o es p) as [[]?]; naive_solver.
  - pose proof (install_full_report_spec o seq ls p Hwf) as Hs.
    destruct (install_full_report o seq ls p) as [??]; naive_solver.
  - pose proof (install_world_spec reports expected p) as Hs.
    destruct (install_world_full_reports reports expected p) as [[]?]; simpl in *; naive_solver.
  - by apply remove_instance_spec.
  - split; [by apply remove_owner_wf|by apply remove_owner_abs].
  - split; [apply init_wf|done].
Qed.

Lemma pi_wf_consistent p : pi_wf p → assert_consistent p = true.
Proof.
  intros Hwf. apply bool_decide_eq_true. intros k s Hk. split; [by eapply pw_nonempty|].
  intros l Hl. apply (pw_forward p Hwf). exists l. split; [|done].
  unfold set_at. by rewrite Hk.
Qed.

Definition pi_run (cs : list pi_call) (p : PrefixIndex) : PrefixIndex :=
  foldl (λ p c, (run_pi c p).2) p cs.

Lemma pi_run_wf cs p : pi_wf p → pi_wf (pi_run cs p).
Proof.
  revert p. induction cs as [|c cs IH]; intros p Hwf; simpl; [done|]. apply IH.
  pose proof (run_pi_spec c p Hwf) as Hs. by destruct (run_pi c p) as [? ?], Hs.
Qed.

Lemma run_pi_age c p : max_age (run_pi c p).2 = max_age p.
Proof.
  assert (∀ o es c p, max_age (apply_loop o c es p).2 = max_age p) as Hl.
  { intros o es. induction es as [|e es IH]; intros c0 p0; simpl; [done|].
    unfold apply_event, remove_block. repeat case_match; simplify_eq; simpl; try done;
      by rewrite IH; simpl; repeat case_decide. }
  assert (∀ o ls p, max_age (add_owned o ls p).2 = max_age p) as Ha.
  { intros o ls. induction ls as [|l ls IH]; intros p0; simpl; [done|].
    case_decide; [done|]. by rewrite IH. }
  destruct c as [o es|o seq ls|reports expected|i|o|]; simpl; try done.
  - unfold apply_events. pose proof (Hl o es (cursor_of o p) p) as H1.
    by destruct (apply_loop _ _ _ _) as [[] ?].
  - unfold install_full_report. pose proof (Ha o ls (remove_owner o p)) as H1.
    by destruct (add_owned _ _ _) as [[] ?].
  - unfold install_world_full_reports.
    pose proof (stage_reports_spec reports (clear p) (init_wf _)) as Hs.
    destruct (stage_reports _ _) as [[] ?]; simpl in *; [|done].
    case_decide; simpl; [|done]. by apply Hs.
  - unfold remove_instance. generalize (filter (λ o : Owner, o.1 = i) (map_to_list (forward p)).*1).
    intros os. revert p. induction os as [|o os IH]; intros p; simpl; [done|]. by rewrite IH.
Qed.

Lemma pi_run_age cs p : max_age (pi_run cs p) = max_age p.
Proof.
  revert p. induction cs as [|c cs IH]; intros p; simpl; [done|]. by rewrite IH, run_pi_age.
Qed.

#[export] Hint Resolve pi_run_wf set_last_seq_wf : prism.

Lemma match_key_in_range fp n :
  (1 ≤ n ≤ Z.to_nat (max_reusable_blocks fp))%nat → is_Some (match_key fp n).
Proof.
  intros Hn. unfold match_key. assert (is_Some (fp_chain_hashes fp !! pred n)) as [h ->].
  { apply lookup_lt_is_Some. unfold max_reusable_blocks in Hn. lia. }
  simpl. eauto.
Qed.

Lemma elem_of_blocks_down fp n :
  n ∈ blocks_down fp ↔ (1 ≤ n ≤ Z.to_nat (max_reusable_blocks fp))%nat.
Proof. unfold blocks_down. rewrite elem_of_reverse, elem_of_seq. lia. Qed.

Lemma elem_of_fresh_at p now k l :
  pi_wf p →
  l ∈ fresh_at p now k ↔ l ∈ abs p ∧ key_of l = k ∧ now - cl_last_updated l ≤ max_age p.
Proof. intros Hwf. unfold fresh_at. rewrite elem_of_filter, elem_of_set_at by done. tauto. Qed.

Lemma StronglySorted_reverse_seq a n :
  StronglySorted (λ i j, (j < i)%nat) (reverse (seq a n)).
Proof.
  revert a. induction n as [|n IH]; intros a; [constructor|].
  rewrite seq_S, reverse_snoc. constructor; [apply IH|].
  apply Forall_forall. intros j Hj. rewrite elem_of_reverse, elem_of_seq in Hj. lia.
Qed.

Lemma omap_sorted {A B} (R : A → A → Prop) (f : A → option B) (g : B → A) l :
  (∀ a b, f a = Some b → g b = a) →
  StronglySorted R l → StronglySorted (λ x y, R (g x) (g y)) (omap f l).
Proof.
  intros Hg. induction 1 as [|a l Hs IH Hf]; simpl; [constructor|].
  destruct (f a) as [b|] eqn:Hb; [|done]. constructor; [done|].
  apply Forall_forall. intros y (a' & Ha' & Hy)%list_elem_of_omap.
  rewrite (Hg _ _ Hb), (Hg _ _ Hy). rewrite Forall_forall in Hf. by apply Hf.
Qed.

Lemma iter_matches_sorted p fp now :
  StronglySorted (λ x y, (y.1 < x.1)%nat) (iter_matches p fp now).
Proof.
  apply (omap_sorted (λ i j, (j < i)%nat)); [|apply StronglySorted_reverse_seq].
  intros n [m L]. destruct (match_key fp n) as [k|]; simpl; [|done].
  case_decide; naive_solver.
Qed.

(** ** Properties *)

(** C6: after any sequence of calls, failed ones included, the index passes
    its own [assert_consistent] and satisfies the stronger two-way invariant
    between [_index] and [_forward]; and every further call changes the set
    of cached locations exactly as its set-level specification says. *)
Theorem prefix_index_refines_set age p0 cs c :
  new_PrefixIndex age = Ok p0 →
  let p := pi_run cs p0 in
  let '(r, p') := run_pi c p in
  assert_consistent p = true ∧ pi_wf p' ∧ max_age p' = max_age p0
  ∧ abs p' = spec_pi c (λ o, cursor_of o p) r (abs p).
Proof.
  unfold new_PrefixIndex. case_bool_decide; [|done]. intros [= <-].
  cbv zeta. set (p0 := mkPrefixIndex age ∅ ∅ ∅).
  assert (pi_wf (pi_run cs p0)) as Hp by eauto with prism.
  pose proof (run_pi_spec c _ Hp) as Hs. pose proof (pi_run_age (cs ++ [c]) p0) as Hm.
  unfold pi_run in Hm. rewrite foldl_app in Hm. fold (pi_run cs p0) in Hm. simpl in Hm.
  destruct (run_pi c (pi_run cs p0)) as [r p']. simpl in Hm.
  split_and!; try apply Hs; [by apply pi_wf_consistent|done].
Qed.

(** an event batch that fails half way is safe to send again: the events
    acted on before the failure leave the cursor where it was, and a later
    batch that starts with them and succeeds gives the index, the forward
    table and the cursor it would have given without the failed attempt. *)
Theorem failed_batch_is_replayable o es es' p x p1 c p2 :
  pi_wf p →
  apply_events o es p = (Raise x, p1) →
  (effective o (cursor_of o p) es).1 `prefix_of` (effective o (cursor_of o p) es').1 →
  apply_events o es' p = (Ok c, p2) →
  last_seq p1 = last_seq p
  ∧ ∃ p3, apply_events o es' p1 = (Ok c, p3)
      ∧ index p3 = index p2 ∧ (∀ o', set_at (forward p3) o' = set_at (forward p2) o')
      ∧ last_seq p3 = last_seq p2.
Proof.
  intros Hwf H1 [suf Hpre] H2.
  pose proof (apply_events_spec o es p Hwf) as S1. rewrite H1 in S1. simpl in S1.
  destruct S1 as (_ & Hw1 & Ha1 & Hl1).
  pose proof (apply_events_spec o es' p Hwf) as S2. rewrite H2 in S2. simpl in S2.
  destruct S2 as (Hr2 & Hw2 & Ha2 & Hl2).
  assert (cursor_of o p1 = cursor_of o p) as Hc by (unfold cursor_of; by rewrite Hl1).
  pose proof (apply_events_spec o es' p1 Hw1) as S3. rewrite Hc in S3.
  destruct (apply_events o es' p1) as [r p3]. destruct S3 as (Hr3 & Hw3 & Ha3 & Hl3).
  assert (r = Ok c) as -> by congruence.
  rewrite Ha1, Hpre, abs_events_replay, <- Hpre, <- Ha2 in Ha3.
  destruct (abs_determines p3 p2 Hw3 Hw2 Ha3) as [Hi Hf].
  split; [done|]. exists p3. split_and!; try done. by rewrite Hl3, Hl2, Hl1.
Qed.

(** installing a world of full reports is atomic: it succeeds exactly when
    the owners are distinct and are the expected ones, sequence numbers are
    not negative and every location belongs to its owner; then the index
    holds exactly the reported locations, and otherwise nothing changes. *)
Theorem install_world_full_reports_atomic reports expected p :
  let '(r, p') := install_world_full_reports reports expected p in
  (is_ok r = true ↔ reports_valid reports
     ∧ list_to_set (fst ∘ fst <$> reports) = expected)
  ∧ (is_ok r = true → pi_wf p' ∧ abs p' = reported reports ∧ dom (last_seq p') = expected)
  ∧ (is_ok r = false → p' = p).
Proof.
  pose proof (install_world_spec reports expected p) as Hs.
  destruct (install_world_full_reports reports expected p) as [[]?]; simpl in *;
    destruct Hs as [? Hs]; by split_and!.
Qed.

(** [iter_matches] yields, longest prefix first and each length once, the
    non-empty sets of cached locations that match that many leading blocks in
    the same namespace, compatibility class and context and are not too old;
    no such location is missed, and the hash lookup never goes out of range. *)
Theorem iter_matches_spec p fp now :
  pi_wf p →
  StronglySorted (λ x y, (y.1 < x.1)%nat) (iter_matches p fp now)
  ∧ ∀ n L, (n, L) ∈ iter_matches p fp now ↔
      (1 ≤ n ≤ Z.to_nat (max_reusable_blocks fp))%nat ∧ L ≠ ∅
      ∧ ∃ k, match_key fp n = Some k
          ∧ ∀ l, l ∈ L ↔ l ∈ abs p ∧ key_of l = k ∧ now - cl_last_updated l ≤ max_age p.
Proof.
  intros Hwf. split; [apply iter_matches_sorted|]. unfold iter_matches.
  - intros n L. rewrite list_elem_of_omap. split.
    + intros (m & Hm%elem_of_blocks_down & Hk).
      destruct (match_key fp m) as [k|] eqn:Hkm; simpl in Hk; [|done].
      case_decide as Hne; [done|]. simplify_eq. split; [done|]. split; [done|].
      exists k. split; [done|]. intros l. by apply elem_of_fresh_at.
    + intros (Hn & Hne & k & Hk & HL). exists n. rewrite elem_of_blocks_down.
      split; [done|]. rewrite Hk. simpl. assert (fresh_at p now k = L) as ->.
      { apply set_eq. intros l. rewrite HL. by apply elem_of_fresh_at. }
      by rewrite decide_False.
Qed.

(** ** Concrete instances of the properties *)

Definition demo_location (block : Z) : CacheLocation :=
  mkCacheLocation "d0" "e1" "ns" "kv" "ctx" (100 + block) block block (4 * (block + 1)) 0.
Definition demo_events : list PrefixEvent :=
  [mkPrefixEvent hash_added (demo_location 0) 1; mkPrefixEvent hash_added (demo_location 1) 2;
   mkPrefixEvent evicted (demo_location 1) 3].
Definition demo_gap : list PrefixEvent :=
  [mkPrefixEvent hash_added (demo_location 0) 1; mkPrefixEvent hash_added (demo_location 1) 3].
Definition demo_index : PrefixIndex := mkPrefixIndex 600 ∅ ∅ ∅.
Definition demo_fp : PromptFingerprint :=
  mkPromptFingerprint "ns" "kv" "ctx" [1; 2; 3; 4; 5; 6; 7; 8; 9] [100; 101] 4.

Lemma prefix_index_refines_set_witness :
  abs (run_pi (CallApply ("d0", "e1") demo_events) (pi_run [] demo_index)).2
  = {[demo_location 0]}.
Proof.
  pose proof (prefix_index_refines_set 600 demo_index []
    (CallApply ("d0", "e1") demo_events) eq_refl) as Hr. cbv zeta in Hr.
  destruct (run_pi (CallApply ("d0", "e1") demo_events) (pi_run [] demo_index)) as [r p'].
  destruct Hr as (_ & _ & _ & Ha). simpl. rewrite Ha.
  apply (bool_decide_eq_true_1 _). vm_compute. reflexivity.
Defined.

Lemma failed_batch_is_replayable_witness :
  ∃ p3, apply_events ("d0", "e1") demo_events
          (apply_events ("d0", "e1") demo_gap demo_index).2 = (Ok 3, p3)
    ∧ index p3 = index (apply_events ("d0", "e1") demo_events demo_index).2.
Proof.
  destruct (failed_batch_is_replayable ("d0", "e1") demo_gap demo_events demo_index
    FullReportRequired (apply_events ("d0", "e1") demo_gap demo_index).2
    3 (apply_events ("d0", "e1") demo_events demo_index).2) as (_ & p3 & Hp & Hi & _).
  - apply init_wf.
  - apply injective_projections; [vm_compute|]; reflexivity.
  - eexists. vm_compute. reflexivity.
  - apply injective_projections; [vm_compute|]; reflexivity.
  - exists p3. by split.
Defined.

Lemma demo_applied_wf : pi_wf (apply_events ("d0", "e1") demo_events demo_index).2.
Proof.
  pose proof (apply_events_spec ("d0", "e1") demo_events demo_index (init_wf _)) as Hs.
  by destruct (apply_events _ _ _) as [? ?], Hs as (_ & ? & _).
Qed.

Lemma iter_matches_spec_witness :
  (1%nat, {[demo_location 0]}) ∈
    iter_matches (apply_events ("d0", "e1") demo_events demo_index).2 demo_fp 5.
Proof.
  apply (iter_matches_spec _ demo_fp 5 demo_applied_wf).
  split; [vm_compute; lia|]. split; [set_solver|].
  eexists. split; [vm_compute; reflexivity|]. intros l.
  assert (abs (apply_events ("d0", "e1") demo_events demo_index).2 = {[demo_location 0]})
    as -> by (apply (bool_decide_eq_true_1 _); vm_compute; reflexivity).
  rewrite elem_of_singleton. split; [intros ->|by intros [? _]].
  split_and!; [done|reflexivity|]. vm_compute. discriminate.
Defined.
