(* ===== verification/Router.v ===== *)
(** * The affinity router (router/topology.py, router/router.py)

    Link costs and the choice of the longest cached prefix that is worth
    moving.  Milliseconds are exact rationals, as in Scheduler.v; a cost of
    [float("inf")] and the gain [-inf] it leads to are [None].  A Python set
    iterates in an order the program does not choose: [order] is that order,
    and the theorems assume of it only that it lists the set. *)

From S2P Require Import Prelude PyDict Fingerprint PrefixIndex.
From stdpp Require Import prelude gmap strings sorting.
From Stdlib Require Import QArith_base.

Local Open Scope Z_scope.

(** ** Link costs *)

Record LinkInfo := mkLinkInfo {
  link_kind : string;
  measured_gbps : Q;
  fixed_overhead_ms : Q }.

Definition TopologyMatrix : Type := gmap (string * string) LinkInfo.

Definition set_link (source target : string) (l : LinkInfo) (m : TopologyMatrix) :
  TopologyMatrix := <[(source, target) := l]> m.

(** [None] is [float("inf")]. *)
Definition transfer_cost_ms (m : TopologyMatrix) (source target : string) (size_bytes : Z) :
    result exn (option Q) :=
  if bool_decide (0 ≤ size_bytes) then
    Ok (if decide (source = target) then Some 0%Q
        else match m !! (source, target) with
             | None => None
             | Some link =>
                 if Qle_bool (measured_gbps link) 0 then None
                 else
                   let bytes_per_ms :=
                     (measured_gbps link * inject_Z 1000000000 / 8 / 1000)%Q in
                   Some (fixed_overhead_ms link + inject_Z size_bytes / bytes_per_ms)%Q
             end)
  else Raise AssertionError.

(** ** Decisions *)

Record CachedPrefixDecision := mkCachedPrefixDecision {
  source_instance : string;
  source_epoch : string;
  decode_instance : string;
  cached_prefix_blocks : nat;
  cached_prefix_tokens : Z;
  transfer_bytes : Z;
  estimated_gain_ms : option Q }.

Record AffinityRouter := mkAffinityRouter {
  rt_index : PrefixIndex;
  rt_topology : TopologyMatrix;
  rt_block_bytes : Z;
  rt_safety_margin_ms : Q }.

Definition new_AffinityRouter (p : PrefixIndex) (m : TopologyMatrix) (block_bytes : Z)
    (margin : Q) : result exn AffinityRouter :=
  if bool_decide (0 < block_bytes) then Ok (mkAffinityRouter p m block_bytes margin)
  else Raise AssertionError.

(** [gain <= margin], [-inf] included. *)
Definition gain_too_small (gain : option Q) (margin : Q) : bool :=
  match gain with None => true | Some g => Qle_bool g margin end.

(** The sort key [(-blocks, -gain)]. *)
Definition decision_key (d : CachedPrefixDecision) : nat * option Q :=
  (cached_prefix_blocks d, estimated_gain_ms d).
Definition gain_ge (g1 g2 : option Q) : bool :=
  match g1, g2 with
  | _, None => true
  | None, Some _ => false
  | Some a, Some b => Qle_bool b a
  end.
Definition key_before (k1 k2 : nat * option Q) : Prop :=
  (k2.1 < k1.1)%nat ∨ (k1.1 = k2.1 ∧ gain_ge k1.2 k2.2 = true).

#[export] Instance key_before_dec k1 k2 : Decision (key_before k1 k2).
Proof. unfold key_before. apply _. Defined.

Section router.
Variable order : gset CacheLocation → list CacheLocation.
Variable r : AffinityRouter.
Variable fp : PromptFingerprint.
Variable decode_candidates : list string.
Variable source_epoch_is_current : string → string → bool.
Variables full_prefill_ms suffix_prefill_ms_per_token : Q.
Variables required_source required_target : option string.
Variable required_blocks : option nat.
Variable now : Z.

Definition forced : bool :=
  bool_decide (required_source ≠ None) || bool_decide (required_target ≠ None)
  || bool_decide (required_blocks ≠ None).

Definition allowed {A} `{EqDecision A} (required : option A) (x : A) : bool :=
  match required with None => true | Some y => bool_decide (x = y) end.

(** The decision for one source and target, filters aside. *)
Definition decision (blocks : nat) (l : CacheLocation) (target : string) :
    result exn CachedPrefixDecision :=
  let prefix_tokens := Z.of_nat blocks * Z.of_nat (fp_block_size fp) in
  let suffix_tokens := Z.of_nat (length (fp_token_ids fp)) - prefix_tokens in
  let bytes := if decide (target = cl_instance_id l) then 0
               else Z.of_nat blocks * rt_block_bytes r in
  match transfer_cost_ms (rt_topology r) (cl_instance_id l) target bytes with
  | Raise e => Raise e
  | Ok ms =>
      let gain := (λ c, full_prefill_ms
                   - (c + inject_Z suffix_tokens * suffix_prefill_ms_per_token))%Q <$> ms in
      Ok (mkCachedPrefixDecision (cl_instance_id l) (cl_instance_epoch l) target blocks
            prefix_tokens bytes gain)
  end.

(** The body of the innermost loop: the decision it appends, if any. *)
Definition consider (blocks : nat) (l : CacheLocation) (target : string) :
    result exn (option CachedPrefixDecision) :=
  if negb (allowed required_target target) then Ok None
  else match decision blocks l target with
  | Raise e => Raise e
  | Ok d => Ok (if negb forced
                   && gain_too_small (estimated_gain_ms d) (rt_safety_margin_ms r)
                then None else Some d)
  end.

(** [for x in l: acc += f(x)], stopping at an exception. *)
Fixpoint collect {A B} (f : A → result exn (list B)) (l : list A) : result exn (list B) :=
  match l with
  | [] => Ok []
  | x :: l' => match f x with
               | Raise e => Raise e
               | Ok ys => match collect f l' with
                          | Raise e => Raise e
                          | Ok zs => Ok (ys ++ zs)
                          end
               end
  end.

Definition from_location (blocks : nat) (l : CacheLocation) :
    result exn (list CachedPrefixDecision) :=
  if negb (allowed required_source (cl_instance_id l)) then Ok []
  else if negb (source_epoch_is_current (cl_instance_id l) (cl_instance_epoch l)) then Ok []
  else collect (λ t, match consider blocks l t with
                     | Raise e => Raise e
                     | Ok o => Ok (option_list o) end) decode_candidates.

Definition from_match (m : nat * gset CacheLocation) : result exn (list CachedPrefixDecision) :=
  if negb (allowed required_blocks m.1) then Ok []
  else collect (from_location m.1) (order m.2).

(** The outer loop: the decisions of the first match that has any. *)
Fixpoint first_decisions (ms : list (nat * gset CacheLocation)) :
    result exn (list CachedPrefixDecision) :=
  match ms with
  | [] => Ok []
  | m :: ms' => match from_match m with
                | Raise e => Raise e
                | Ok [] => first_decisions ms'
                | Ok ds => Ok ds
                end
  end.

Definition iter_decisions : result exn (list CachedPrefixDecision) :=
  match first_decisions (iter_matches (rt_index r) fp now) with
  | Raise e => Raise e
  | Ok ds => Ok (sort_by key_before decision_key ds)
  end.

(** An option the router may offer: a fresh match of [n] blocks, held by a
    current source, for an allowed target, with enough gain (or forced). *)
Definition executable (n : nat) (l : CacheLocation) (t : string)
    (d : CachedPrefixDecision) : Prop :=
  (∃ L, (n, L) ∈ iter_matches (rt_index r) fp now ∧ l ∈ L)
  ∧ t ∈ decode_candidates
  ∧ source_epoch_is_current (cl_instance_id l) (cl_instance_epoch l) = true
  ∧ allowed required_source (cl_instance_id l) = true
  ∧ allowed required_target t = true ∧ allowed required_blocks n = true
  ∧ decision n l t = Ok d
  ∧ (forced = true ∨ gain_too_small (estimated_gain_ms d) (rt_safety_margin_ms r) = false).
End router.

(** ** The order on decisions *)

Lemma gain_ge_trans a b c : gain_ge a b = true → gain_ge b c = true → gain_ge a c = true.
Proof.
  destruct a, b, c; simpl; try done. rewrite !Qle_bool_iff. intros ? ?. by eapply Qle_trans.
Qed.

Lemma gain_ge_total a b : gain_ge a b = true ∨ gain_ge b a = true.
Proof.
  destruct a as [a|], b as [b|]; simpl; auto. rewrite !Qle_bool_iff.
  destruct (Qlt_le_dec a b); [right; by apply Qlt_le_weak|by left].
Qed.

#[export] Instance key_before_trans : Transitive key_before.
Proof.
  intros [n1 g1] [n2 g2] [n3 g3]. unfold key_before. simpl.
  intros [?|[-> ?]] [?|[-> ?]]; eauto using gain_ge_trans with lia.
Qed.

#[export] Instance key_before_total : Total key_before.
Proof.
  intros [n1 g1] [n2 g2]. unfold key_before. simpl.
  destruct (Nat.lt_trichotomy n1 n2) as [?|[->|?]]; [auto| |auto].
  destruct (gain_ge_total g1 g2); auto.
Qed.

(** ** What the loops collect *)

Lemma collect_spec {A B} (f : A → result exn (list B)) l :
  (∀ x, x ∈ l → ∃ ys, f x = Ok ys) →
  ∃ zs, collect f l = Ok zs ∧ ∀ z, z ∈ zs ↔ ∃ x ys, x ∈ l ∧ f x = Ok ys ∧ z ∈ ys.
Proof.
  induction l as [|x l IH]; intros Hok; simpl; [exists []; set_solver|].
  destruct (Hok x) as [ys Hx]; [left|]. rewrite Hx.
  destruct IH as (zs & -> & Hz); [intros; apply Hok; by right|].
  exists (ys ++ zs). split; [done|]. intros z. rewrite elem_of_app, Hz. split.
  - intros [?|(x' & ys' & ? & ? & ?)]; [exists x, ys; set_solver|].
    exists x', ys'. split_and!; [by right|done|done].
  - intros (x' & ys' & [->|?]%elem_of_cons & Hx' & ?); [left; congruence|eauto 6].
Qed.

Section router_proofs.
Context (order : gset CacheLocation → list CacheLocation).
Context (r : AffinityRouter) (fp : PromptFingerprint) (targets : list string).
Context (current : string → string → bool) (full suffix : Q).
Context (rs rt : option string) (rb : option nat) (now : Z).
Hypothesis Horder : ∀ L l, l ∈ order L ↔ l ∈ L.
Hypothesis Hbytes : 0 < rt_block_bytes r.

Lemma decision_total n l t : ∃ d, decision r fp full suffix n l t = Ok d
  ∧ cached_prefix_blocks d = n.
Proof.
  unfold decision, transfer_cost_ms. rewrite bool_decide_true by (case_decide; nia).
  eauto.
Qed.

(** What one location contributes for [n] blocks. *)
Lemma from_location_spec n l :
  ∃ ds, from_location r fp targets current full suffix rs rt rb n l = Ok ds
  ∧ ∀ d, d ∈ ds ↔ allowed rs (cl_instance_id l) = true
      ∧ current (cl_instance_id l) (cl_instance_epoch l) = true
      ∧ ∃ t, t ∈ targets ∧ allowed rt t = true
          ∧ decision r fp full suffix n l t = Ok d
          ∧ (forced rs rt rb = true
             ∨ gain_too_small (estimated_gain_ms d) (rt_safety_margin_ms r) = false).
Proof.
  unfold from_location.
  destruct (allowed rs (cl_instance_id l)); simpl; [|exists []; set_solver].
  destruct (current _ _); simpl; [|exists []; set_solver].
  edestruct (collect_spec (λ t, match consider r fp full suffix rs rt rb n l t with
    | Raise e => Raise e | Ok o => Ok (option_list o) end) targets) as (ds & -> & Hds).
  { intros t _. unfold consider. destruct (decision_total n l t) as (d & -> & _).
    destruct (allowed rt t); simpl; eauto. }
  exists ds. split; [done|]. intros d. rewrite Hds. unfold consider. split.
  - intros (t & ys & Ht & Hc & Hd). split_and!; [done|done|]. exists t.
    destruct (allowed rt t); simpl in Hc; [|simplify_eq; set_solver].
    destruct (decision_total n l t) as (d' & Hd' & _). rewrite Hd' in Hc.
    destruct (forced rs rt rb); simpl in Hc;
      [|destruct (gain_too_small _ _) eqn:Hg]; simplify_eq; simpl in Hd;
      [|by apply elem_of_nil in Hd|]; apply list_elem_of_singleton in Hd as ->; naive_solver.
  - intros (_ & _ & t & Ht & Ha & Hd & Hg). exists t, [d]. rewrite Ha, Hd. simpl.
    split_and!; [done| |by left]. destruct Hg as [->| ->]; [done|].
    by rewrite andb_false_r.
Qed.

Lemma from_match_spec n L :
  ∃ ds, from_match order r fp targets current full suffix rs rt rb (n, L) = Ok ds
  ∧ ∀ d, d ∈ ds ↔ allowed rb n = true ∧ ∃ l t, l ∈ L ∧ t ∈ targets
      ∧ current (cl_instance_id l) (cl_instance_epoch l) = true
      ∧ allowed rs (cl_instance_id l) = true ∧ allowed rt t = true
      ∧ decision r fp full suffix n l t = Ok d
      ∧ (forced rs rt rb = true
         ∨ gain_too_small (estimated_gain_ms d) (rt_safety_margin_ms r) = false).
Proof.
  unfold from_match. simpl. destruct (allowed rb n); simpl; [|exists []; set_solver].
  destruct (collect_spec (from_location r fp targets current full suffix rs rt rb n)
    (order L)) as (ds & -> & Hds).
  { intros l _. destruct (from_location_spec n l) as (ds & ? & _). eauto. }
  exists ds. split; [done|]. intros d. rewrite Hds. split.
  - intros (l & ys & Hl%Horder & Hf & Hd).
    destruct (from_location_spec n l) as (ds' & Hf' & Hs). rewrite Hf in Hf'. simplify_eq.
    apply Hs in Hd as (? & ? & t & ? & ? & ? & ?). split; [done|]. by exists l, t.
  - intros (_ & l & t & Hl & ?). destruct (from_location_spec n l) as (ds' & Hf & Hs).
    exists l, ds'. rewrite Horder, Hs. naive_solver.
Qed.

Abbreviation exec n l t d :=
  (executable r fp targets current full suffix rs rt rb now n l t d).

Lemma from_match_executable n L ds d :
  (n, L) ∈ iter_matches (rt_index r) fp now →
  from_match order r fp targets current full suffix rs rt rb (n, L) = Ok ds →
  d ∈ ds ↔ ∃ l t, l ∈ L ∧ exec n l t d.
Proof.
  intros HL Hf. destruct (from_match_spec n L) as (ds' & Hf' & Hs).
  rewrite Hf in Hf'. simplify_eq. rewrite Hs. unfold executable. split.
  - intros (Hb & l & t & Hl & ? & ? & ? & ? & ? & ?). exists l, t. split_and!; eauto.
  - intros (l & t & Hl & _ & ? & ? & ? & ? & Hb & ? & ?). split; [done|]. by exists l, t.
Qed.

Lemma first_decisions_spec ms :
  StronglySorted (λ x y, (y.1 < x.1)%nat) ms →
  (∀ m, m ∈ ms → m ∈ iter_matches (rt_index r) fp now) →
  ∃ ds, first_decisions order r fp targets current full suffix rs rt rb ms = Ok ds
  ∧ (∀ d, d ∈ ds → ∃ l t, exec (cached_prefix_blocks d) l t d)
  ∧ (∀ n L l t d, (n, L) ∈ ms → l ∈ L → exec n l t d →
      ds ≠ [] ∧ ∀ d', d' ∈ ds → (n ≤ cached_prefix_blocks d')%nat
        ∧ (n = cached_prefix_blocks d' → d ∈ ds)).
Proof.
  induction 1 as [|[n L] ms Hs IH Hlt]; intros Hms; simpl.
  { exists []. set_solver. }
  destruct (from_match_spec n L) as (ds & Hf & _). rewrite Hf.
  assert (∀ d, d ∈ ds ↔ ∃ l t, l ∈ L ∧ exec n l t d) as Hd.
  { intros d. apply from_match_executable; [apply Hms; left|done]. }
  destruct ds as [|d0 ds]; cycle 1.
  - exists (d0 :: ds). split; [done|].
    assert (∀ d, d ∈ d0 :: ds → cached_prefix_blocks d = n) as Hn.
    { intros d (l & t & _ & He)%Hd. destruct He as (_ & _ & _ & _ & _ & _ & He & _).
      destruct (decision_total n l t) as (d' & Hd' & <-). congruence. }
    split.
    + intros d Hin. rewrite (Hn d Hin). apply Hd in Hin as (l & t & _ & ?). eauto.
    + intros n' L' l t d HL Hl He. split; [done|]. intros d' Hd'. rewrite (Hn d' Hd').
      apply elem_of_cons in HL as [[= -> ->]|HL].
      * split; [lia|]. intros _. apply Hd. eauto.
      * rewrite Forall_forall in Hlt. specialize (Hlt _ HL). simpl in Hlt. lia.
  - destruct IH as (ds & -> & H1 & H2); [intros; apply Hms; by right|].
    exists ds. split_and!; [done|done|].
    intros n' L' l t d [[= -> ->]|HL]%elem_of_cons Hl He; [|eauto].
    assert (d ∈ ([] : list CachedPrefixDecision)) as []%elem_of_nil. apply Hd. eauto.
Qed.
End router_proofs.

(** ** Properties *)

(** C26: the router raises nothing and returns exactly the executable options
    of the longest cached prefix that has one: every decision is executable
    (fresh match, current source epoch, allowed target, gain above the margin
    unless forced); if any option is executable the list is not empty, no
    option is longer than the decisions, and none of their length is missing;
    and they are in order of decreasing gain. *)
Theorem iter_decisions_longest order r fp targets current full suffix rs rt rb now :
  (∀ L l, l ∈ order L ↔ l ∈ L) → 0 < rt_block_bytes r →
  ∃ ds, iter_decisions order r fp targets current full suffix rs rt rb now = Ok ds
  ∧ (∀ d, d ∈ ds → ∃ l t,
       executable r fp targets current full suffix rs rt rb now (cached_prefix_blocks d) l t d)
  ∧ (∀ n l t d, executable r fp targets current full suffix rs rt rb now n l t d →
       ds ≠ [] ∧ ∀ d', d' ∈ ds → (n ≤ cached_prefix_blocks d')%nat
         ∧ (n = cached_prefix_blocks d' → d ∈ ds))
  ∧ StronglySorted (λ d d', key_before (decision_key d) (decision_key d')) ds.
Proof.
  intros Ho Hb. unfold iter_decisions.
  destruct (first_decisions_spec order r fp targets current full suffix rs rt rb now Ho Hb
    (iter_matches (rt_index r) fp now)) as (ds & -> & H1 & H2);
    [by apply iter_matches_sorted|done|].
  exists (sort_by key_before decision_key ds). split_and!; [done| | |].
  - intros d Hd%elem_of_sort_by. eauto.
  - intros n l t d He. destruct He as [(L & HL & Hl) He].
    destruct (H2 n L l t d HL Hl) as [Hne Hall]; [by split; [eauto|]|]. split.
    + intros Hnil. apply Hne. apply Permutation_nil_r. by rewrite <- Hnil, sort_by_perm.
    + intros d' Hd'%elem_of_sort_by. rewrite elem_of_sort_by. auto.
  - apply (sort_by_sorted key_before decision_key).
Qed.

(** ** A concrete instance *)

Definition demo_router : AffinityRouter :=
  mkAffinityRouter (apply_events ("d0", "e1") demo_events demo_index).2
    (set_link "d0" "d1" (mkLinkInfo "nvlink" 8 (1 # 2)) ∅) 4096 1.

(** Location [d0] holds one block of the prompt; moving it to [d1] and
    prefilling the other five tokens beats a full prefill of 40 ms. *)
Lemma iter_decisions_longest_witness :
  ∃ ds, iter_decisions elements demo_router demo_fp ["d1"; "d0"] (λ _ _, true) 40 2
          None None None 5 = Ok ds
    ∧ (decode_instance <$> ds) = ["d0"; "d1"]
    ∧ (∀ d, d ∈ ds → ∃ l t, executable demo_router demo_fp ["d1"; "d0"] (λ _ _, true) 40 2
          None None None 5 (cached_prefix_blocks d) l t d).
Proof.
  destruct (iter_decisions_longest elements demo_router demo_fp ["d1"; "d0"] (λ _ _, true)
              40 2 None None None 5) as (ds & Hi & Hd & _).
  - intros L l. apply elem_of_elements.
  - reflexivity.
  - exists ds. split; [done|]. split; [|done].
    assert (match iter_decisions elements demo_router demo_fp ["d1"; "d0"] (λ _ _, true) 40 2
              None None None 5 with
            | Ok ds => decode_instance <$> ds | Raise _ => [] end = ["d0"; "d1"]) as Hv
      by (vm_compute; reflexivity).
    by rewrite Hi in Hv.
Defined.
