(* ===== verification/Output.v ===== *)
(** * The gateway's output buffer (gateway/output.py)

    Cumulative decode output per request.  An [OutputState] is a shared
    mutable object: a coroutine that was handed one by [ensure] keeps writing
    to it after the buffer has dropped it, so objects live in a heap and
    [_states] maps request ids to addresses.  Acquiring [state.condition] is
    the one suspension point of [apply_cumulative], [wait_next] and [fail];
    each is split there, and the second half is a step of its own that any
    other calls may precede.  [wait_for] is the half that is enabled only
    when its predicate holds. *)

From S2P Require Import Prelude PyDict Fingerprint SequenceState.
From stdpp Require Import prelude gmap strings.

Local Open Scope Z_scope.

Definition OutputQueryIdentity : Type := string * string * string * string.

Definition output_query_identity (info : option RequestInfo) : option OutputQueryIdentity :=
  match info with
  | None => None
  | Some r =>
      if negb (bool_decide (state r = DECODING) || bool_decide (state r = FINISHED)) then None
      else if truthy (decode_instance r) && truthy (decode_instance_epoch r)
              && truthy (req_id r) && truthy (active_operation_id r)
      then Some (decode_instance r, decode_instance_epoch r, req_id r, active_operation_id r)
      else None
  end.

Record OutputState := mkOutputState {
  out_token_ids : list Z;
  out_terminal : bool;
  out_error : option string }.

Record GatewayOutputBuffer := mkGatewayOutputBuffer {
  active_operation_cap : Z;
  terminal_snapshot_cap : Z;
  ob_heap : gmap nat OutputState;
  ob_states : odict string nat;
  ob_free : list string }.

#[export] Instance GatewayOutputBuffer_eta : Eta GatewayOutputBuffer := λ r,
  mkGatewayOutputBuffer (active_operation_cap r) (terminal_snapshot_cap r) (ob_heap r)
    (ob_states r) (ob_free r).

Definition set_ob_heap (v : gmap nat OutputState) (r : GatewayOutputBuffer) :
  GatewayOutputBuffer := ltac:(with_field r ob_heap v).
Definition set_ob_states (v : odict string nat) (r : GatewayOutputBuffer) :
  GatewayOutputBuffer := ltac:(with_field r ob_states v).
Definition set_ob_free (v : list string) (r : GatewayOutputBuffer) :
  GatewayOutputBuffer := ltac:(with_field r ob_free v).

Definition new_GatewayOutputBuffer (active_cap terminal_cap : Z) :
    result exn GatewayOutputBuffer :=
  if bool_decide (active_cap ≤ 0) || bool_decide (terminal_cap ≤ 0) then Raise ValueError
  else Ok (mkGatewayOutputBuffer active_cap terminal_cap ∅ [] []).

(** [error or state.error], and [bool(state.error)]. *)
Definition or_error (e old : option string) : option string :=
  match e with Some s => if truthy s then e else old | None => old end.
Definition error_set (e : option string) : bool :=
  match e with Some s => truthy s | None => false end.

Definition active_count (b : GatewayOutputBuffer) : Z :=
  Z.of_nat (length (ob_states b)) - Z.of_nat (length (ob_free b)).

(** [ensure]: the address of the request's object. *)
Definition ensure_state (rid : string) : method GatewayOutputBuffer nat := λ b,
  match dget rid (ob_states b) with
  | Some a => (Ok a, b)
  | None =>
      if bool_decide (active_operation_cap b ≤ active_count b)
      then (Raise GatewayOutputCapacity, b)
      else
        let a := fresh (dom (ob_heap b)) in
        (Ok a, set_ob_states (dset rid a (ob_states b))
                 (set_ob_heap (<[a := mkOutputState [] false None]> (ob_heap b)) b))
  end.

(** [while len(free) > cap: popitem(last=False)] *)
Fixpoint evict (cap : Z) (free : list string) (states : odict string nat) :
    list string * odict string nat :=
  match free with
  | [] => ([], states)
  | x :: free' => if bool_decide (cap < Z.of_nat (length free))
                  then evict cap free' (dpop x states) else (free, states)
  end.

Definition mark_resource_free (rid : string) : method GatewayOutputBuffer unit := λ b,
  match dget rid (ob_states b) with
  | None => (Ok tt, b)
  | Some a =>
      match ob_heap b !! a with
      | None => (Ok tt, b)
      | Some st =>
          if negb (out_terminal st) && bool_decide (out_error st = None)
          then (Raise ValueError, b)
          else
            let free := filter (λ x, x ≠ rid) (ob_free b) ++ [rid] in
            let '(free', states') := evict (terminal_snapshot_cap b) free (ob_states b) in
            (Ok tt, set_ob_free free' (set_ob_states states' b))
      end
  end.

Definition state_counts (b : GatewayOutputBuffer) : Z * Z :=
  (active_count b, Z.of_nat (length (ob_free b))).

(** [apply_cumulative] up to the lock: the address to write. *)
Definition apply_begin (rid : string) (tokens : list Z) (seq : Z) (still_current : bool) :
    method GatewayOutputBuffer nat := λ b,
  if negb still_current then (Raise ValueError, b)
  else match ensure_state rid b with
  | (Raise e, b') => (Raise e, b')
  | (Ok a, b') =>
      if bool_decide (seq ≠ Z.of_nat (length tokens)) then (Raise ValueError, b')
      else (Ok a, b')
  end.

(** [apply_cumulative] under the lock, on the object at [a]. *)
Definition apply_commit (a : nat) (tokens : list Z) (terminal : bool) (error : option string)
    (still_current : bool) : method GatewayOutputBuffer bool := λ b,
  if negb still_current then (Raise ValueError, b)
  else match ob_heap b !! a with
  | None => (Raise KeyError, b)
  | Some st =>
      if bool_decide (length tokens < length (out_token_ids st))%nat then (Ok false, b)
      else if bool_decide (take (length (out_token_ids st)) tokens ≠ out_token_ids st)
      then (Raise ValueError, b)
      else
        let changed := bool_decide (length (out_token_ids st) < length tokens)%nat
                       || negb (Bool.eqb terminal (out_terminal st)) in
        (Ok changed, set_ob_heap (<[a := mkOutputState tokens (out_terminal st || terminal)
                                          (or_error error (out_error st))]> (ob_heap b)) b)
  end.

(** Both halves with nothing in between (the lock was free). *)
Definition apply_cumulative (rid : string) (tokens : list Z) (seq : Z) (terminal : bool)
    (error : option string) (still_current : bool) : method GatewayOutputBuffer bool := λ b,
  match apply_begin rid tokens seq still_current b with
  | (Raise e, b') => (Raise e, b')
  | (Ok a, b') => apply_commit a tokens terminal error still_current b'
  end.

(** The predicate of [wait_for]. *)
Definition ready (st : OutputState) (cursor : nat) : bool :=
  bool_decide (cursor < length (out_token_ids st))%nat || out_terminal st
  || error_set (out_error st).

(** What [wait_next] returns from the object at [a]; [None] while it waits. *)
Definition wait_result (a : nat) (cursor : nat) (b : GatewayOutputBuffer) :
    option (list Z * bool * option string) :=
  st ← ob_heap b !! a;
  if ready st cursor
  then Some (drop cursor (out_token_ids st), out_terminal st, out_error st) else None.

Definition snapshot (rid : string) :
    method GatewayOutputBuffer (list Z * bool * option string) := λ b,
  match ensure_state rid b with
  | (Raise e, b') => (Raise e, b')
  | (Ok a, b') =>
      match ob_heap b' !! a with
      | None => (Raise KeyError, b')
      | Some st => (Ok (out_token_ids st, out_terminal st, out_error st), b')
      end
  end.

(** [fail] under the lock. *)
Definition fail_commit (a : nat) (error : string) (b : GatewayOutputBuffer) :
    GatewayOutputBuffer :=
  match ob_heap b !! a with
  | None => b
  | Some st => set_ob_heap (<[a := mkOutputState (out_token_ids st) true
                 (or_error (out_error st) (Some error))]> (ob_heap b)) b
  end.

Definition fail (rid error : string) : method GatewayOutputBuffer unit := λ b,
  match ensure_state rid b with
  | (Raise e, b') => (Raise e, b')
  | (Ok a, b') => (Ok tt, fail_commit a error b')
  end.

(** The authoritative output a decode worker returns to a query. *)
Record OutputReply := mkOutputReply {
  rep_req_id : string;
  rep_instance_epoch : string;
  rep_operation_id : string;
  rep_token_ids : list Z;
  rep_output_seq_no : Z;
  rep_terminal : bool;
  rep_error : option string }.

(** [repair_output_gap] on the reply [value] of the query. *)
Definition repair_output_gap (value : OutputReply) (instance_epoch rid operation_id : string)
    (still_current : bool) : method GatewayOutputBuffer bool := λ b,
  if bool_decide (rep_req_id value ≠ rid)
     || bool_decide (rep_instance_epoch value ≠ instance_epoch)
     || bool_decide (rep_operation_id value ≠ operation_id)
  then (Raise ValueError, b)
  else apply_cumulative rid (rep_token_ids value) (rep_output_seq_no value)
         (rep_terminal value) (rep_error value) still_current b.

(** ** The buffer invariant *)

Record ob_wf (b : GatewayOutputBuffer) : Prop := {
  ow_caps : 0 < active_operation_cap b ∧ 0 < terminal_snapshot_cap b;
  ow_dict : dwf (ob_states b);
  ow_addr : ∀ r a, dget r (ob_states b) = Some a → is_Some (ob_heap b !! a);
  ow_inj : ∀ r r' a, dget r (ob_states b) = Some a → dget r' (ob_states b) = Some a → r = r';
  ow_free : NoDup (ob_free b);
  ow_live : ∀ r, r ∈ ob_free b → ∃ a st, dget r (ob_states b) = Some a
    ∧ ob_heap b !! a = Some st ∧ (out_terminal st = true ∨ out_error st ≠ None);
  ow_active : 0 ≤ active_count b ≤ active_operation_cap b;
  ow_snapshots : Z.of_nat (length (ob_free b)) ≤ terminal_snapshot_cap b }.

(** An object only grows: tokens are appended, the terminal flag and the
    presence of an error are never taken back. *)
Record grows (st st' : OutputState) : Prop := {
  gr_tokens : out_token_ids st `prefix_of` out_token_ids st';
  gr_terminal : out_terminal st = true → out_terminal st' = true;
  gr_error : out_error st ≠ None → out_error st' ≠ None;
  gr_error_set : error_set (out_error st) = true → error_set (out_error st') = true }.

#[export] Instance grows_po : PreOrder grows.
Proof.
  split; [by split|]. intros x y z [] []. split; auto. by etrans.
Qed.

(** Every object of [b] is still in [b'] and has only grown. *)
Definition heap_grows (b b' : GatewayOutputBuffer) : Prop :=
  ∀ a st, ob_heap b !! a = Some st → ∃ st', ob_heap b' !! a = Some st' ∧ grows st st'.

#[export] Instance heap_grows_po : PreOrder heap_grows.
Proof.
  split; [intros b a st H; by exists st|].
  intros b1 b2 b3 H1 H2 a st Ha. destruct (H1 a st Ha) as (s2 & H2' & ?).
  destruct (H2 a s2 H2') as (s3 & ? & ?). exists s3. split; [done|]. by etrans.
Qed.

(** ** Steps *)

Inductive ob_step (b : GatewayOutputBuffer) : GatewayOutputBuffer → Prop :=
| ob_ensure rid : ob_step b (ensure_state rid b).2
| ob_mark rid : ob_step b (mark_resource_free rid b).2
| ob_begin rid tokens seq cur : ob_step b (apply_begin rid tokens seq cur b).2
| ob_commit a tokens terminal error cur :
    ob_step b (apply_commit a tokens terminal error cur b).2
| ob_fail a error : ob_step b (fail_commit a error b).

(** Overwriting an object with a grown one keeps the invariant. *)
Lemma write_object_wf b a st st' :
  ob_wf b → ob_heap b !! a = Some st → grows st st' →
  ob_wf (set_ob_heap (<[a := st']> (ob_heap b)) b)
  ∧ heap_grows b (set_ob_heap (<[a := st']> (ob_heap b)) b).
Proof.
  intros Hwf Ha Hg. split.
  - split; simpl; try apply Hwf.
    + intros r a' Hr. apply lookup_insert_is_Some. destruct (decide (a = a')); [by left|].
      right. split; [done|]. by eapply ow_addr.
    + intros r Hr. destruct (ow_live b Hwf r Hr) as (a' & st0 & Hr' & Hs & Ht).
      destruct (decide (a' = a)) as [->|Hne].
      * exists a, st'. rewrite lookup_insert_eq. split_and!; [done|done|].
        simplify_eq. destruct Ht; [left|right]; by apply Hg.
      * exists a', st0. by rewrite lookup_insert_ne.
  - intros a' s Hs. simpl. destruct (decide (a' = a)) as [->|Hne].
    + exists st'. rewrite lookup_insert_eq. simplify_eq. done.
    + exists s. by rewrite lookup_insert_ne.
Qed.

Lemma ensure_state_wf rid b :
  ob_wf b → ob_wf (ensure_state rid b).2 ∧ heap_grows b (ensure_state rid b).2.
Proof.
  intros Hwf. unfold ensure_state. destruct (dget rid (ob_states b)) eqn:Hr; [done|].
  case_bool_decide as Hcap; [done|]. simpl.
  set (a := fresh (dom (ob_heap b))).
  assert (ob_heap b !! a = None) as Ha by apply not_elem_of_dom, is_fresh.
  split.
  - split; simpl; try apply Hwf.
    + apply dwf_dset, Hwf.
    + intros r a'. rewrite dget_dset. case_decide; [intros [= <-]|intros Hr'].
      * rewrite lookup_insert_eq. eauto.
      * apply lookup_insert_is_Some. destruct (decide (a = a')); [by left|].
        right. split; [done|]. by eapply ow_addr.
    + assert (∀ r, dget r (ob_states b) ≠ Some a) as Hno.
      { intros r Hr'. destruct (ow_addr b Hwf r a Hr') as [? ?]. congruence. }
      intros r r' a'. rewrite !dget_dset. repeat case_decide; subst; try naive_solver.
      apply Hwf.
    + intros r Hin. destruct (ow_live b Hwf r Hin) as (a' & st & Hr' & Hs & Ht).
      exists a', st. rewrite dget_dset_ne by congruence.
      by rewrite lookup_insert_ne by congruence.
    + pose proof (ow_active b Hwf). unfold active_count in *. simpl.
      rewrite dset_fresh by done. rewrite length_app. simpl. lia.
  - intros a' s Hs. exists s. simpl. by rewrite lookup_insert_ne by congruence.
Qed.

Lemma evict_spec cap free states :
  0 ≤ cap → dwf states → NoDup free → (∀ r, r ∈ free → is_Some (dget r states)) →
  let '(free', states') := evict cap free states in
  dwf states' ∧ NoDup free' ∧ (∀ r, r ∈ free' → r ∈ free)
  ∧ (∀ r a, dget r states' = Some a → dget r states = Some a)
  ∧ (∀ r, r ∈ free' → dget r states' = dget r states)
  ∧ (Z.of_nat (length states') - Z.of_nat (length free')
     = Z.of_nat (length states) - Z.of_nat (length free))
  ∧ Z.of_nat (length free') ≤ cap.
Proof.
  intros Hcap. revert states. induction free as [|x free IH]; intros states Hd Hn Hk; simpl.
  { split_and!; try done. }
  case_bool_decide as Hlen; [|split_and!; try done; simpl in *; lia].
  apply NoDup_cons in Hn as [Hx Hn].
  specialize (IH (dpop x states) (dwf_dpop _ _ Hd) Hn).
  destruct (evict cap free (dpop x states)) as [free' states'].
  destruct IH as (? & ? & Hsub & Hg & He & Hl & ?).
  { intros r Hr. rewrite dget_dpop_ne by (by intros ->). apply Hk. by right. }
  split_and!; try done.
  - intros r Hr. right. auto.
  - intros r a Ha. apply Hg in Ha. rewrite dget_dpop in Ha. by case_decide.
  - intros r Hr. rewrite He by done. apply dget_dpop_ne. intros ->. by apply Hx, Hsub.
  - destruct (Hk x) as [a Ha]; [left|]. rewrite Hl.
    pose proof (length_dpop x a states Hd Ha). simpl. lia.
Qed.

Lemma length_filter_ne (x : string) l :
  NoDup l → (length l ≤ S (length (filter (λ y, y ≠ x) l)))%nat.
Proof.
  induction 1 as [|y l Hy Hn IH]; simpl; [lia|]. rewrite filter_cons.
  case_decide as Hyx; simpl; [lia|]. subst y.
  assert (filter (λ y, y ≠ x) l = l) as ->; [|lia].
  clear IH. induction l as [|z l IHl]; [done|]. apply NoDup_cons in Hn as [? ?].
  rewrite filter_cons_True by set_solver. rewrite IHl; set_solver.
Qed.

Lemma NoDup_keys_length (d : odict string nat) (ks : list string) :
  dwf d → NoDup ks → (∀ k, k ∈ ks → is_Some (dget k d)) → (length ks ≤ length d)%nat.
Proof.
  intros Hd Hn Hk. rewrite <- (length_fmap fst d). apply submseteq_length, NoDup_submseteq;
    [done|]. intros k Hin. by apply dget_is_Some, Hk.
Qed.

Lemma mark_resource_free_wf rid b :
  ob_wf b → ob_wf (mark_resource_free rid b).2 ∧ heap_grows b (mark_resource_free rid b).2.
Proof.
  intros Hwf. unfold mark_resource_free.
  destruct (dget rid (ob_states b)) as [a|] eqn:Hr; [|done].
  destruct (ob_heap b !! a) as [st|] eqn:Ha; [|done].
  destruct (negb (out_terminal st) && _) eqn:Hact; [done|].
  assert (out_terminal st = true ∨ out_error st ≠ None) as Hdone.
  { apply andb_false_iff in Hact as [Hact|Hact];
      [left; by apply negb_false_iff|right; by apply bool_decide_eq_false in Hact]. }
  set (free := filter (λ x, x ≠ rid) (ob_free b) ++ [rid]).
  assert (∀ r, r ∈ free ↔ r = rid ∨ r ∈ ob_free b) as Hfree.
  { intros r. unfold free. rewrite elem_of_app, list_elem_of_filter, list_elem_of_singleton.
    destruct (decide (r = rid)); tauto. }
  assert (NoDup free) as Hnd.
  { unfold free. apply NoDup_app. split_and!; [by apply NoDup_filter, Hwf| |].
    - intros x Hx. apply list_elem_of_filter in Hx. set_solver.
    - apply NoDup_singleton. }
  assert (length (ob_free b) ≤ length free ≤ S (length (ob_free b)))%nat as Hlen.
  { unfold free. rewrite length_app. simpl.
    pose proof (length_filter (λ x, x ≠ rid) (ob_free b)).
    pose proof (length_filter_ne rid (ob_free b) (ow_free b Hwf)). lia. }
  assert (∀ r, r ∈ free → is_Some (dget r (ob_states b))) as Hk.
  { intros r [->|Hin]%Hfree; [by rewrite Hr|].
    destruct (ow_live b Hwf r Hin) as (? & ? & ? & _). eauto. }
  assert (length free ≤ length (ob_states b))%nat as Hle.
  { apply NoDup_keys_length; [apply Hwf|done|done]. }
  pose proof (evict_spec (terminal_snapshot_cap b) free (ob_states b)
    ltac:(pose proof (ow_caps b Hwf); lia) (ow_dict b Hwf) Hnd Hk) as Hev.
  destruct (evict _ free (ob_states b)) as [free' states'].
  destruct Hev as (Hd' & Hn' & Hsub & Hg & He & Hl & Hc).
  split; [|intros a' s Hs; by exists s].
  pose proof (ow_active b Hwf) as Hac. unfold active_count in *.
  split; simpl; try done; try apply Hwf.
  - intros r a' Hr'. apply Hg in Hr'. by eapply ow_addr.
  - intros r r' a' H1%Hg H2%Hg. by eapply ow_inj.
  - intros r Hin. rewrite He by done. apply Hsub, Hfree in Hin as [->|Hin].
    + by exists a, st.
    + by apply ow_live.
  - unfold active_count. simpl. lia.
Qed.

Lemma apply_commit_wf a tokens terminal error cur b :
  ob_wf b → ob_wf (apply_commit a tokens terminal error cur b).2
    ∧ heap_grows b (apply_commit a tokens terminal error cur b).2.
Proof.
  intros Hwf. unfold apply_commit. destruct cur; simpl; [|done].
  destruct (ob_heap b !! a) as [st|] eqn:Ha; [|done].
  case_bool_decide; [done|]. case_bool_decide as Hp; [done|]. simpl.
  apply write_object_wf with st; [done|done|]. split; simpl.
  - rewrite <- Hp. apply prefix_take.
  - by intros ->.
  - unfold or_error. by destruct error as [s|]; [destruct (truthy s)|].
  - unfold or_error. by destruct error as [s|]; [destruct (truthy s) eqn:?|].
Qed.

Lemma fail_commit_wf a error b :
  ob_wf b → ob_wf (fail_commit a error b) ∧ heap_grows b (fail_commit a error b).
Proof.
  intros Hwf. unfold fail_commit. destruct (ob_heap b !! a) as [st|] eqn:Ha; [|done].
  apply write_object_wf with st; [done|done|]. split; simpl; try done.
  - unfold or_error. by destruct (out_error st) as [s|]; [destruct (truthy s)|].
  - unfold or_error. destruct (out_error st) as [s|]; simpl; [|done].
    intros Hs. by rewrite Hs.
Qed.

Lemma apply_begin_state rid tokens seq cur b :
  (apply_begin rid tokens seq cur b).2 = b
  ∨ (apply_begin rid tokens seq cur b).2 = (ensure_state rid b).2.
Proof.
  unfold apply_begin. destruct cur; simpl; [|by left]. right.
  destruct (ensure_state rid b) as [[a|e] b']; simpl; [|done]. by case_bool_decide.
Qed.

Lemma ob_step_wf b b' : ob_wf b → ob_step b b' → ob_wf b' ∧ heap_grows b b'.
Proof.
  intros Hwf Hs. destruct Hs as [rid|rid|rid tokens seq cur|a tokens t e cur|a e].
  - by apply ensure_state_wf.
  - by apply mark_resource_free_wf.
  - destruct (apply_begin_state rid tokens seq cur b) as [-> | ->];
      [done|by apply ensure_state_wf].
  - by apply apply_commit_wf.
  - by apply fail_commit_wf.
Qed.

Lemma ob_steps_wf b b' : ob_wf b → rtc ob_step b b' → ob_wf b' ∧ heap_grows b b'.
Proof.
  intros Hwf Hs. induction Hs as [b|b1 b2 b3 H1 _ IH]; [done|].
  destruct (ob_step_wf b1 b2 Hwf H1) as [? ?]. destruct IH as [? ?]; [done|].
  split; [done|]. by etrans.
Qed.

(** ** A reader *)

(** A streaming consumer: the object it waits on, what it has received. *)
Record reader := mkReader { rd_addr : nat; rd_received : list Z }.

Inductive stream_step : GatewayOutputBuffer * reader → GatewayOutputBuffer * reader → Prop :=
| stream_write b b' rd : ob_step b b' → stream_step (b, rd) (b', rd)
| stream_read b a got chunk t e :
    wait_result a (length got) b = Some (chunk, t, e) →
    stream_step (b, mkReader a got) (b, mkReader a (got ++ chunk)).

(** ** Properties *)

(** in every reachable buffer, under any interleaving of the coroutines:
    each request id has one object of its own, the number of active streams
    never exceeds its cap, the snapshots kept for finished streams never
    exceed theirs, and only streams that are terminal or failed are ever
    eligible for eviction. *)
Theorem output_buffer_bounded acap tcap b0 b :
  new_GatewayOutputBuffer acap tcap = Ok b0 → rtc ob_step b0 b → ob_wf b.
Proof.
  unfold new_GatewayOutputBuffer. destruct (bool_decide _ || _) eqn:Hc; [done|].
  intros [= <-] Hs. apply orb_false_iff in Hc as [H1 H2].
  apply bool_decide_eq_false in H1, H2.
  eapply ob_steps_wf; [|done]. split; unfold active_count; simpl; try done; try lia.
  - constructor.
  - constructor.
  - by intros ? ?%elem_of_nil.
Qed.

(** the projected stream is lossless and in order: whatever coroutines run
    between its reads (commits, failures, evictions of the object included),
    what a consumer has received is always a prefix of the object's committed
    tokens; a read brings it level; and it waits only when it is level and
    the stream is neither terminal nor failed. *)
Theorem reader_lossless b a st0 b' rd' :
  ob_wf b → ob_heap b !! a = Some st0 →
  rtc stream_step (b, mkReader a []) (b', rd') →
  rd_addr rd' = a ∧ ∃ st, ob_heap b' !! a = Some st
    ∧ rd_received rd' `prefix_of` out_token_ids st
    ∧ match wait_result a (length (rd_received rd')) b' with
      | Some (chunk, t, e) => rd_received rd' ++ chunk = out_token_ids st
          ∧ t = out_terminal st ∧ e = out_error st
      | None => rd_received rd' = out_token_ids st ∧ out_terminal st = false
          ∧ error_set (out_error st) = false
      end.
Proof.
  intros Hwf Ha Hs.
  assert (∀ x y, rtc stream_step x y → ob_wf x.1 →
    (∃ st, ob_heap x.1 !! a = Some st ∧ rd_received x.2 `prefix_of` out_token_ids st) →
    rd_addr x.2 = a →
    rd_addr y.2 = a ∧ ∃ st, ob_heap y.1 !! a = Some st
      ∧ rd_received y.2 `prefix_of` out_token_ids st) as Hinv.
  { induction 1 as [|x y z Hxy _ IH]; [done|]. intros Hw (st & Hst & Hp) Hrd.
    destruct Hxy as [b1 b2 rd Hstep|b1 a1 got chunk t e Hwait]; simpl in *.
    - destruct (ob_step_wf b1 b2 Hw Hstep) as [? Hg].
      destruct (Hg a st Hst) as (st' & ? & Hg'). apply IH; try done.
      exists st'. split; [done|]. etrans; [done|apply Hg'].
    - subst a1. apply IH; try done. exists st. split; [done|].
      unfold wait_result in Hwait. rewrite Hst in Hwait. simpl in Hwait.
      destruct (ready st (length got)); simplify_eq. simpl.
      destruct Hp as [k Hk]. rewrite Hk, drop_app_length. done. }
  destruct (Hinv _ _ Hs Hwf) as (? & st & Hst & Hp); simpl;
    [by exists st0; split; [|apply prefix_nil]|done|].
  simpl in *. split; [done|]. exists st. split_and!; [done|done|].
  unfold wait_result. rewrite Hst. simpl. destruct Hp as [k Hk].
  destruct (ready st (length (rd_received rd'))) eqn:Hr; simpl.
  - by rewrite Hk, drop_app_length.
  - unfold ready in Hr. rewrite !orb_false_iff in Hr. destruct Hr as [[Hr ?] ?].
    apply bool_decide_eq_false in Hr. rewrite Hk, length_app in Hr.
    destruct k; simpl in Hr; [|lia]. by rewrite Hk, app_nil_r.
Qed.

(** [apply_cumulative] accepts exactly the extensions of what is committed:
    on an existing stream a report shorter than the committed output is
    ignored, one that disagrees with it raises ValueError, and otherwise the
    committed output becomes the report, the terminal flag is or-ed and the
    call says whether anything changed; a sequence number that is not the
    token count raises before anything is written. *)
Theorem apply_cumulative_spec rid tokens seq terminal error b a st :
  dget rid (ob_states b) = Some a → ob_heap b !! a = Some st →
  apply_cumulative rid tokens seq terminal error true b =
  if decide (seq ≠ Z.of_nat (length tokens)) then (Raise ValueError, b)
  else if decide (length tokens < length (out_token_ids st))%nat then (Ok false, b)
  else if decide (out_token_ids st `prefix_of` tokens) then
    (Ok (bool_decide (out_token_ids st ≠ tokens) || negb (Bool.eqb terminal (out_terminal st))),
     set_ob_heap (<[a := mkOutputState tokens (out_terminal st || terminal)
                           (or_error error (out_error st))]> (ob_heap b)) b)
  else (Raise ValueError, b).
Proof.
  intros Hr Ha. unfold apply_cumulative, apply_begin, ensure_state. rewrite Hr. simpl.
  case_decide; [by rewrite bool_decide_true|]. rewrite bool_decide_false by naive_solver.
  unfold apply_commit. simpl. rewrite Ha.
  case_decide as Hlen; [by rewrite bool_decide_true|]. rewrite bool_decide_false by done.
  case_decide as Hp.
  - destruct Hp as [k ->]. rewrite take_app_length. rewrite bool_decide_false by naive_solver.
    do 2 f_equal. f_equal. apply bool_decide_ext. rewrite length_app. split.
    + intros Hl Heq. apply (f_equal length) in Heq. rewrite length_app in Heq. lia.
    + intros Hne. destruct k; [by rewrite app_nil_r in Hne|]. simpl. lia.
  - rewrite bool_decide_true; [done|]. intros Heq. apply Hp. rewrite <- Heq. apply prefix_take.
Qed.

(** ** Concrete instances of the properties *)

Definition demo_buffer : GatewayOutputBuffer := mkGatewayOutputBuffer 2 1 ∅ [] [].
Definition demo_open : GatewayOutputBuffer := (ensure_state "r" demo_buffer).2.
Definition demo_written : GatewayOutputBuffer :=
  (apply_commit 0 [7; 8] false None true demo_open).2.

Lemma demo_open_wf : ob_wf demo_open.
Proof.
  apply ensure_state_wf. split; unfold active_count; simpl; try done; try lia.
  - constructor.
  - constructor.
  - by intros ? ?%elem_of_nil.
Qed.

Lemma output_buffer_bounded_witness : active_count demo_written ≤ 2.
Proof.
  apply (output_buffer_bounded 2 1 demo_buffer demo_written); [reflexivity|].
  eapply rtc_l; [apply (ob_ensure _ "r")|]. apply rtc_once. apply ob_commit.
Defined.

Lemma reader_lossless_witness :
  ∃ st, ob_heap demo_written !! 0%nat = Some st ∧ [7; 8] `prefix_of` out_token_ids st.
Proof.
  destruct (reader_lossless demo_open 0 (mkOutputState [] false None) demo_written
    (mkReader 0 [7; 8])) as (_ & st & Hst & Hp & _).
  - apply demo_open_wf.
  - reflexivity.
  - eapply rtc_l; [apply stream_write, (ob_commit _ 0 [7; 8] false None true)|].
    apply rtc_once, (stream_read _ 0 [] [7; 8] false None). reflexivity.
  - by exists st.
Defined.

Lemma apply_cumulative_spec_witness :
  (apply_cumulative "r" [7; 9] 2 false None true demo_written).1 = Raise ValueError.
Proof.
  rewrite (apply_cumulative_spec "r" [7; 9] 2 false None demo_written 0
             (mkOutputState [7; 8] false None)); [|reflexivity..].
  vm_compute. reflexivity.
Defined.
