(* ===== verification/ReplacementStore.v ===== *)
(** * The durable replacement store (scheduler/replacement_store.py)

    Release decisions for whole-topology replacement, kept in one JSON file.

    The file is the JSON value it parses to.  [canonical] is what the
    [sort_keys] encoding and a later [json.loads] leave of a value: the same
    value with every object's keys in order.  The digest of a value is a
    function of its canonical form; [sha] is [hashlib.sha256(...).hexdigest()]
    of that encoding and nothing is assumed about it.  [repr] and [int_of_str]
    stand for [str(v)] on floats and containers and [int(s)] on strings, which
    only a file this code did not write can reach.

    [_atomic_write] writes a temporary file, renames it over the store and
    syncs the directory; it can raise before the temporary file exists, leave
    it behind, or raise after the rename.  A crash at any point leaves one of
    the same disks, and the next process starts from it.  The lock is
    reentrant and every method holds it, so methods are atomic.  The message
    kept in [_fatal_error] is not modelled, only that there is one. *)

From S2P Require Import Prelude PyDict Json.
From Stdlib Require Import QArith_base.
From stdpp Require Import prelude gmap strings sorting pretty.

Local Open Scope Z_scope.

(** ** Data *)

Record ReplacementReleaseRecord := mkReplacementReleaseRecord {
  rr_cleanup_id : string;
  rr_restart_run_id : string;
  rr_old_operation_digest : string;
  rr_operation_id : string;
  rr_lease_id : string;
  rr_old_resource_kinds : list string;
  rr_decision_digest : string }.

#[export] Instance ReplacementReleaseRecord_eq_dec : EqDecision ReplacementReleaseRecord.
Proof. solve_decision. Defined.

Definition rkey : Type := string * string * string.

Definition rr_key (r : ReplacementReleaseRecord) : rkey :=
  (rr_cleanup_id r, rr_restart_run_id r, rr_old_operation_digest r).

(** The lease a record decides about. *)
Definition rr_lease (r : ReplacementReleaseRecord) : string * string :=
  (rr_operation_id r, rr_lease_id r).

Record ReplacementRunSeal := mkReplacementRunSeal {
  seal_sequence : Z;
  seal_restart_run_id : string;
  seal_old_generation_digest : string;
  seal_new_generation : string;
  seal_decision_digest : string;
  seal_record_root_digest : string;
  seal_record_count : Z }.

#[export] Instance ReplacementRunSeal_eq_dec : EqDecision ReplacementRunSeal.
Proof. solve_decision. Defined.

Record ActiveRun := mkActiveRun {
  ar_restart_run_id : string;
  ar_old_generation_digest : string;
  ar_decision_digest : string }.

#[export] Instance ActiveRun_eq_dec : EqDecision ActiveRun.
Proof. solve_decision. Defined.

(** What a commit makes durable. *)
Record snapshot := mkSnapshot {
  sn_active_run : option ActiveRun;
  sn_records : odict rkey ReplacementReleaseRecord;
  sn_seals : list ReplacementRunSeal;
  sn_next_seal_sequence : Z }.

Record disk := mkDisk { d_file : option json; d_temp : bool }.

Record ReplacementDecisionStore := mkStore {
  max_records_per_run : Z;
  seal_retention : Z;
  st_snapshot : snapshot;
  st_fatal : bool;
  st_disk : disk }.

#[export] Instance ReplacementDecisionStore_eta : Eta ReplacementDecisionStore := λ r,
  mkStore (max_records_per_run r) (seal_retention r) (st_snapshot r) (st_fatal r) (st_disk r).

Definition set_snapshot (v : snapshot) (r : ReplacementDecisionStore) :
  ReplacementDecisionStore := ltac:(with_field r st_snapshot v).
Definition set_fatal (v : bool) (r : ReplacementDecisionStore) :
  ReplacementDecisionStore := ltac:(with_field r st_fatal v).
Definition set_disk (v : disk) (r : ReplacementDecisionStore) :
  ReplacementDecisionStore := ltac:(with_field r st_disk v).

Definition empty_snapshot : snapshot := mkSnapshot None [] [] 1.

(** How [_atomic_write] ends. *)
Inductive write_outcome : Type :=
| write_ok
| write_failed            (* nothing on disk changed *)
| write_left_temp         (* the temporary file stays *)
| write_replaced.         (* renamed, then the directory sync raised *)

(** ** Orders *)

Definition lex {A B} (le1 : A → A → Prop) (le2 : B → B → Prop) (p q : A * B) : Prop :=
  (p.1 ≠ q.1 ∧ le1 p.1 q.1) ∨ (p.1 = q.1 ∧ le2 p.2 q.2).

(** Tuples of strings compare componentwise, first difference first. *)
Definition rkey_le : rkey → rkey → Prop := lex (lex String.le String.le) String.le.

#[export] Instance lex_dec {A B} `{EqDecision A} (le1 : A → A → Prop) (le2 : B → B → Prop)
  `{!RelDecision le1, !RelDecision le2} : RelDecision (lex le1 le2).
Proof. intros p q. unfold lex. apply _. Defined.

#[export] Instance rkey_le_dec : RelDecision rkey_le.
Proof. unfold rkey_le. apply _. Defined.

(** ** JSON *)

Definition record_value (r : ReplacementReleaseRecord) : json :=
  JObj [("cleanup_id", JStr (rr_cleanup_id r));
        ("restart_run_id", JStr (rr_restart_run_id r));
        ("old_operation_digest", JStr (rr_old_operation_digest r));
        ("operation_id", JStr (rr_operation_id r));
        ("lease_id", JStr (rr_lease_id r));
        ("old_resource_kinds", JList (map JStr (rr_old_resource_kinds r)));
        ("decision_digest", JStr (rr_decision_digest r))].

Definition seal_value (s : ReplacementRunSeal) : json :=
  JObj [("seal_sequence", JInt (seal_sequence s));
        ("restart_run_id", JStr (seal_restart_run_id s));
        ("old_topology_generation_digest", JStr (seal_old_generation_digest s));
        ("new_topology_generation", JStr (seal_new_generation s));
        ("decision_digest", JStr (seal_decision_digest s));
        ("record_root_digest", JStr (seal_record_root_digest s));
        ("record_count", JInt (seal_record_count s))].

Definition active_run_value (a : option ActiveRun) : json :=
  match a with
  | None => JNull
  | Some a =>
      JObj [("restart_run_id", JStr (ar_restart_run_id a));
            ("old_topology_generation_digest", JStr (ar_old_generation_digest a));
            ("decision_digest", JStr (ar_decision_digest a))]
  end.

(** [sorted(records.values(), key=lambda record: record.key)] *)
Definition sorted_records (records : odict rkey ReplacementReleaseRecord) :
    list ReplacementReleaseRecord := sort_by rkey_le rr_key (dvalues records).

Definition payload (sn : snapshot) : json :=
  JObj [("active_run", active_run_value (sn_active_run sn));
        ("records", JList (map record_value (sorted_records (sn_records sn))));
        ("seals", JList (map seal_value (sn_seals sn)));
        ("next_seal_sequence", JInt (sn_next_seal_sequence sn))].

Definition STORE_FORMAT_VERSION : Z := 2.

Section store.
Variable sha : json → string.
Variable repr : json → string.
Variable int_of_str : string → option Z.

Implicit Types (s : ReplacementDecisionStore).

Abbreviation digest := (digest sha).
Abbreviation py_str := (py_str repr).

Definition seal_digest (x : ReplacementRunSeal) : string := digest (seal_value x).

Definition py_int (v : json) : result exn Z :=
  match v with
  | JInt z => Ok z
  | JBool b => Ok (if b then 1 else 0)
  | JFloat q => Ok (Z.quot (Qnum q) (Zpos (Qden q)))
  | JStr x => match int_of_str x with Some z => Ok z | None => Raise ValueError end
  | _ => Raise TypeError
  end.

(** The bytes on disk after writing [sn]. *)
Definition encode (sn : snapshot) : json :=
  canonical (JObj [("format_version", JInt STORE_FORMAT_VERSION);
                   ("payload", payload sn);
                   ("payload_digest", JStr (digest (payload sn)))]).

Definition record_root (records : odict rkey ReplacementReleaseRecord) : string :=
  digest (JList (map record_value (sorted_records records))).

(** [_commit_state]: memory moves only after the write returned. *)
Definition commit_state (w : write_outcome) (sn : snapshot) :
    method ReplacementDecisionStore unit := λ s,
  match w with
  | write_ok =>
      (Ok tt, set_snapshot sn (set_disk (mkDisk (Some (encode sn)) (d_temp (st_disk s))) s))
  | write_failed => (Raise ReplacementStoreUnavailable, set_fatal true s)
  | write_left_temp =>
      (Raise ReplacementStoreUnavailable,
       set_fatal true (set_disk (mkDisk (d_file (st_disk s)) true) s))
  | write_replaced =>
      (Raise ReplacementStoreUnavailable,
       set_fatal true (set_disk (mkDisk (Some (encode sn)) (d_temp (st_disk s))) s))
  end.

(** *** Loading *)

Definition parse_record (v : json) : result exn ReplacementReleaseRecord :=
  match v with
  | JObj d =>
      if negb (keys_are d ["cleanup_id"; "restart_run_id"; "old_operation_digest";
                           "operation_id"; "lease_id"; "old_resource_kinds";
                           "decision_digest"]) then Raise ReplacementStoreError
      else match jget "old_resource_kinds" d with
      | JList kinds =>
          match mapM as_str kinds with
          | None => Raise ReplacementStoreError
          | Some ks =>
              let r := mkReplacementReleaseRecord (py_str (jget "cleanup_id" d))
                (py_str (jget "restart_run_id" d)) (py_str (jget "old_operation_digest" d))
                (py_str (jget "operation_id" d)) (py_str (jget "lease_id" d)) ks
                (py_str (jget "decision_digest" d)) in
              if truthy (rr_cleanup_id r) && truthy (rr_restart_run_id r)
                 && truthy (rr_old_operation_digest r) && truthy (rr_operation_id r)
                 && truthy (rr_lease_id r) && truthy (rr_decision_digest r)
              then Ok r else Raise ReplacementStoreError
          end
      | _ => Raise ReplacementStoreError
      end
  | _ => Raise ReplacementStoreError
  end.

Definition parse_seal (v : json) : result exn ReplacementRunSeal :=
  match v with
  | JObj d =>
      if negb (keys_are d ["seal_sequence"; "restart_run_id";
                           "old_topology_generation_digest"; "new_topology_generation";
                           "decision_digest"; "record_root_digest"; "record_count"])
      then Raise ReplacementStoreError
      else match py_int (jget "seal_sequence" d), py_int (jget "record_count" d) with
      | Ok seq, Ok count =>
          let x := mkReplacementRunSeal seq (py_str (jget "restart_run_id" d))
            (py_str (jget "old_topology_generation_digest" d))
            (py_str (jget "new_topology_generation" d)) (py_str (jget "decision_digest" d))
            (py_str (jget "record_root_digest" d)) count in
          if bool_decide (seq ≤ 0) || bool_decide (count < 0)
             || negb (truthy (seal_restart_run_id x))
             || negb (truthy (seal_old_generation_digest x))
             || negb (truthy (seal_new_generation x))
             || negb (truthy (seal_decision_digest x))
             || negb (truthy (seal_record_root_digest x))
          then Raise ReplacementStoreError else Ok x
      | Raise e, _ => Raise e
      | _, Raise e => Raise e
      end
  | _ => Raise ReplacementStoreError
  end.

Definition parse_active_run (v : json) : result exn (option ActiveRun) :=
  match v with
  | JNull => Ok None
  | JObj d =>
      if negb (keys_are d ["restart_run_id"; "old_topology_generation_digest";
                           "decision_digest"]) then Raise ReplacementStoreError
      else Ok (Some (mkActiveRun (py_str (jget "restart_run_id" d))
                       (py_str (jget "old_topology_generation_digest" d))
                       (py_str (jget "decision_digest" d))))
  | _ => Raise ReplacementStoreError
  end.

(** The loop over [payload["records"]]. *)
Fixpoint load_records (vs : list json) (records : odict rkey ReplacementReleaseRecord)
    (leases : list (string * string)) :
    result exn (odict rkey ReplacementReleaseRecord) :=
  match vs with
  | [] => Ok records
  | v :: vs' =>
      match parse_record v with
      | Raise e => Raise e
      | Ok r =>
          if dmem (rr_key r) records then Raise ReplacementStoreError
          else if decide (rr_lease r ∈ leases) then Raise ReplacementStoreError
          else load_records vs' (dset (rr_key r) r records) (rr_lease r :: leases)
      end
  end.

Fixpoint load_seals (vs : list json) : result exn (list ReplacementRunSeal) :=
  match vs with
  | [] => Ok []
  | v :: vs' =>
      match parse_seal v with
      | Raise e => Raise e
      | Ok x => match load_seals vs' with Raise e => Raise e | Ok xs => Ok (x :: xs) end
      end
  end.

(** [any(left.seq >= right.seq for left, right in zip(seals, seals[1:]))] is false. *)
Fixpoint increasing (xs : list ReplacementRunSeal) : bool :=
  match xs with
  | x :: ((y :: _) as xs') => bool_decide (seal_sequence x < seal_sequence y) && increasing xs'
  | _ => true
  end.

(** The checks [_load] makes on the parsed parts. *)
Definition snapshot_valid (max_records retention : Z) (sn : snapshot) : bool :=
  bool_decide (Z.of_nat (length (sn_records sn)) ≤ max_records)
  && match sn_active_run sn with
     | None => bool_decide (sn_records sn = [])
     | Some a =>
         forallb (λ r, bool_decide (rr_restart_run_id r = ar_restart_run_id a))
           (dvalues (sn_records sn))
         && truthy (ar_decision_digest a)
         && forallb (λ r, bool_decide (rr_decision_digest r = ar_decision_digest a))
              (dvalues (sn_records sn))
     end
  && bool_decide (Z.of_nat (length (sn_seals sn)) ≤ retention)
  && increasing (sn_seals sn)
  && bool_decide (NoDup (seal_restart_run_id <$> sn_seals sn))
  && bool_decide (0 < sn_next_seal_sequence sn)
  && match last (sn_seals sn) with
     | None => true
     | Some x => bool_decide (seal_sequence x < sn_next_seal_sequence sn)
     end.

Definition load_payload (max_records retention : Z) (p : odict string json) :
    result exn snapshot :=
  if negb (keys_are p ["active_run"; "records"; "seals"; "next_seal_sequence"])
  then Raise ReplacementStoreError
  else match parse_active_run (jget "active_run" p) with
  | Raise e => Raise e
  | Ok active =>
      match py_iter (jget "records" p), py_iter (jget "seals" p) with
      | Some rs, Some xs =>
          match load_records rs [] [], load_seals xs, py_int (jget "next_seal_sequence" p) with
          | Ok records, Ok seals, Ok next =>
              let sn := mkSnapshot active records seals next in
              if snapshot_valid max_records retention sn then Ok sn
              else Raise ReplacementStoreError
          | Raise e, _, _ => Raise e
          | _, Raise e, _ => Raise e
          | _, _, Raise e => Raise e
          end
      | _, _ => Raise TypeError
      end
  end.

Definition load (max_records retention : Z) (d : disk) : result exn snapshot :=
  if d_temp d then Raise ReplacementStoreError
  else match d_file d with
  | None => Ok empty_snapshot
  | Some (JObj raw) =>
      if negb (keys_are raw ["format_version"; "payload"; "payload_digest"])
      then Raise ReplacementStoreError
      else if negb (py_eqb (jget "format_version" raw) (JInt STORE_FORMAT_VERSION))
      then Raise ReplacementStoreError
      else if negb (py_eqb (jget "payload_digest" raw) (JStr (digest (jget "payload" raw))))
      then Raise ReplacementStoreError
      else match jget "payload" raw with
           | JObj p => load_payload max_records retention p
           | _ => Raise ReplacementStoreError
           end
  | Some _ => Raise ReplacementStoreError
  end.

Definition seal_for_run (run : string) (sn : snapshot) : option ReplacementRunSeal :=
  list_find (λ x, seal_restart_run_id x = run) (sn_seals sn) ≫= λ ix, Some ix.2.

(** [_finish_sealed_gc_after_restart] *)
Definition finish_sealed_gc (w : write_outcome) : method ReplacementDecisionStore unit := λ s,
  let sn := st_snapshot s in
  match sn_active_run sn with
  | None => (Ok tt, s)
  | Some a =>
      match seal_for_run (ar_restart_run_id a) sn with
      | None => (Ok tt, s)
      | Some x =>
          if bool_decide (seal_record_count x ≠ Z.of_nat (length (sn_records sn)))
             || bool_decide (seal_record_root_digest x ≠ record_root (sn_records sn))
             || bool_decide (seal_old_generation_digest x ≠ ar_old_generation_digest a)
             || bool_decide (seal_decision_digest x ≠ ar_decision_digest a)
          then (Raise ReplacementStoreError, s)
          else commit_state w
                 (mkSnapshot None [] (sn_seals sn) (sn_next_seal_sequence sn)) s
      end
  end.

(** The constructor on a disk: any exception makes the store fail closed. *)
Definition open_store (max_records retention : Z) (d : disk) (w : write_outcome) :
    result exn ReplacementDecisionStore :=
  if bool_decide (max_records ≤ 0) then Raise ValueError
  else if bool_decide (retention ≤ 0) then Raise ValueError
  else
    let s0 := mkStore max_records retention empty_snapshot false d in
    match load max_records retention d with
    | Raise _ => Ok (set_fatal true s0)
    | Ok sn =>
        match finish_sealed_gc w (set_snapshot sn s0) with
        | (Ok _, s) => Ok s
        | (Raise _, s) => Ok (set_fatal true s)
        end
    end.

(** *** Reading *)

Definition store_ready s : bool :=
  negb (st_fatal s)
  && bool_decide (Z.of_nat (length (sn_records (st_snapshot s))) < max_records_per_run s).

Definition transition_closed s : bool :=
  negb (st_fatal s) && bool_decide (sn_active_run (st_snapshot s) = None).

Definition active_record_count s : nat := length (sn_records (st_snapshot s)).

Definition require_integrity s : result exn unit :=
  if st_fatal s then Raise ReplacementStoreUnavailable else Ok tt.

Definition validate_requested_run (run old_generation : string)
    (decision : option string) s : result exn unit :=
  if negb (truthy run) || negb (truthy old_generation) then Raise UnknownReplacementRun
  else match sn_active_run (st_snapshot s) with
  | None => Ok tt
  | Some a =>
      if bool_decide (ar_restart_run_id a ≠ run) then Raise UnknownReplacementRun
      else if bool_decide (ar_old_generation_digest a ≠ digest (JStr old_generation))
      then Raise ReplacementConflict
      else match decision with
      | Some d => if bool_decide (ar_decision_digest a ≠ d) then Raise ReplacementConflict
                  else Ok tt
      | None => Ok tt
      end
  end.

Definition exact_completed_run (run old_generation new_generation decision : string) s :
    result exn (option ReplacementRunSeal) :=
  match require_integrity s with
  | Raise e => Raise e
  | Ok _ =>
      match seal_for_run run (st_snapshot s) with
      | None => Ok None
      | Some x =>
          if bool_decide (seal_old_generation_digest x ≠ digest (JStr old_generation))
          then Raise ReplacementConflict
          else if bool_decide (seal_new_generation x ≠ new_generation)
          then Raise ReplacementConflict
          else if bool_decide (seal_decision_digest x ≠ decision)
          then Raise ReplacementConflict
          else Ok (Some x)
      end
  end.

Definition validate_cold_recovery_base (old_generation : string) s : result exn unit :=
  match require_integrity s with
  | Raise e => Raise e
  | Ok _ =>
      let sn := st_snapshot s in
      if bool_decide (sn_active_run sn ≠ None) || bool_decide (sn_records sn ≠ [])
      then Raise ReplacementConflict
      else match last (sn_seals sn) with
      | None => Ok tt
      | Some x => if bool_decide (seal_new_generation x ≠ old_generation)
                  then Raise ReplacementConflict else Ok tt
      end
  end.

Definition validate_active_run (run old_generation decision : string) s : result exn unit :=
  match require_integrity s with
  | Raise e => Raise e
  | Ok _ =>
      if bool_decide (sn_active_run (st_snapshot s) = None) then Raise UnknownReplacementRun
      else validate_requested_run run old_generation (Some decision) s
  end.

Definition lookup_record (r : ReplacementReleaseRecord) (old_generation : string) s :
    result exn (option ReplacementReleaseRecord) :=
  match require_integrity s with
  | Raise e => Raise e
  | Ok _ =>
      match dget (rr_key r) (sn_records (st_snapshot s)) with
      | Some existing =>
          if bool_decide (existing ≠ r) then Raise ReplacementConflict
          else Ok (Some existing)
      | None =>
          match seal_for_run (rr_restart_run_id r) (st_snapshot s) with
          | Some _ => Raise RetiredReplacementRun
          | None =>
              match validate_requested_run (rr_restart_run_id r) old_generation
                      (Some (rr_decision_digest r)) s with
              | Raise e => Raise e
              | Ok _ => Ok None
              end
          end
      end
  end.

(** *** Writing *)

(** [other] decides about the lease of [r] under another key. *)
Definition lease_clash (r other : ReplacementReleaseRecord) : bool :=
  bool_decide (rr_lease other = rr_lease r) && bool_decide (rr_key other ≠ rr_key r).

Definition persist_record (w : write_outcome) (r : ReplacementReleaseRecord)
    (old_generation : string) :
    method ReplacementDecisionStore (ReplacementReleaseRecord * bool) := λ s,
  match lookup_record r old_generation s with
  | Raise e => (Raise e, s)
  | Ok (Some existing) => (Ok (existing, false), s)
  | Ok None =>
      let sn := st_snapshot s in
      if bool_decide (max_records_per_run s ≤ Z.of_nat (length (sn_records sn)))
      then (Raise ReplacementStoreCapacity, s)
      else if existsb (lease_clash r) (dvalues (sn_records sn))
      then (Raise ReplacementConflict, s)
      else
        let active := match sn_active_run sn with
          | Some a => a
          | None => mkActiveRun (rr_restart_run_id r) (digest (JStr old_generation))
                      (rr_decision_digest r) end in
        match commit_state w (mkSnapshot (Some active) (dset (rr_key r) r (sn_records sn))
                (sn_seals sn) (sn_next_seal_sequence sn)) s with
        | (Ok _, s') => (Ok (r, true), s')
        | (Raise e, s') => (Raise e, s')
        end
  end.

(** The loop of [persist_records] on the candidate records and leases. *)
Fixpoint merge_records (rs : list ReplacementReleaseRecord)
    (candidate : odict rkey ReplacementReleaseRecord)
    (leases : odict (string * string) rkey) (changed : bool) :
    result exn (odict rkey ReplacementReleaseRecord * bool) :=
  match rs with
  | [] => Ok (candidate, changed)
  | r :: rs' =>
      match dget (rr_key r) candidate with
      | Some existing =>
          if bool_decide (existing ≠ r) then Raise ReplacementConflict
          else merge_records rs' candidate leases changed
      | None =>
          if match dget (rr_lease r) leases with
             | Some k => bool_decide (k ≠ rr_key r) | None => false end
          then Raise ReplacementConflict
          else merge_records rs' (dset (rr_key r) r candidate)
                 (dset (rr_lease r) (rr_key r) leases) true
      end
  end.

(** [{(record.operation_id, record.lease_id): record.key ...}] *)
Definition leases_of (records : odict rkey ReplacementReleaseRecord) :
    odict (string * string) rkey :=
  foldl (λ d r, dset (rr_lease r) (rr_key r) d) [] (dvalues records).

Definition persist_records (w : write_outcome) (rs : list ReplacementReleaseRecord)
    (run old_generation : string) (decision : option string) :
    method ReplacementDecisionStore (list ReplacementReleaseRecord) := λ s,
  let sn := st_snapshot s in
  let requested := match decision with
    | Some d => if truthy d then d else default "" (rr_decision_digest <$> head rs)
    | None => default "" (rr_decision_digest <$> head rs) end in
  match require_integrity s with
  | Raise e => (Raise e, s)
  | Ok _ =>
      if bool_decide (seal_for_run run sn ≠ None) then (Raise RetiredReplacementRun, s)
      else if negb (truthy requested) then (Raise ReplacementConflict, s)
      else if existsb (λ r, bool_decide (rr_decision_digest r ≠ requested)) rs
      then (Raise ReplacementConflict, s)
      else match validate_requested_run run old_generation (Some requested) s with
      | Raise e => (Raise e, s)
      | Ok _ =>
          if existsb (λ r, bool_decide (rr_restart_run_id r ≠ run)) rs
          then (Raise ReplacementConflict, s)
          else match merge_records rs (sn_records sn) (leases_of (sn_records sn)) false with
          | Raise e => (Raise e, s)
          | Ok (candidate, changed) =>
              if bool_decide (max_records_per_run s < Z.of_nat (length candidate))
              then (Raise ReplacementStoreCapacity, s)
              else
                let stored := omap (λ r, dget (rr_key r) candidate) rs in
                if changed || bool_decide (sn_active_run sn = None) then
                  match commit_state w
                    (mkSnapshot (Some (mkActiveRun run (digest (JStr old_generation)) requested))
                       candidate (sn_seals sn) (sn_next_seal_sequence sn)) s with
                  | (Ok _, s') => (Ok stored, s')
                  | (Raise e, s') => (Raise e, s')
                  end
                else (Ok stored, s)
          end
      end
  end.

(** [[*seals, seal][-retention:]] *)
Definition retain (retention : Z) (xs : list ReplacementRunSeal) : list ReplacementRunSeal :=
  drop (length xs - Z.to_nat retention) xs.

(** [seal_run] commits twice: first the seal beside the segment it closes,
    then without the segment. *)
Definition seal_run (w1 w2 : write_outcome)
    (run old_generation new_generation decision : string) :
    method ReplacementDecisionStore ReplacementRunSeal := λ s,
  let sn := st_snapshot s in
  match require_integrity s with
  | Raise e => (Raise e, s)
  | Ok _ =>
      match seal_for_run run sn with
      | Some x =>
          if bool_decide (seal_old_generation_digest x ≠ digest (JStr old_generation))
             || bool_decide (seal_new_generation x ≠ new_generation)
             || bool_decide (seal_decision_digest x ≠ decision)
          then (Raise ReplacementConflict, s) else (Ok x, s)
      | None =>
          match validate_requested_run run old_generation (Some decision) s with
          | Raise e => (Raise e, s)
          | Ok _ =>
              match sn_active_run sn with
              | None => (Raise UnknownReplacementRun, s)
              | Some a =>
                  let x := mkReplacementRunSeal (sn_next_seal_sequence sn) run
                    (digest (JStr old_generation)) new_generation decision
                    (record_root (sn_records sn)) (Z.of_nat (length (sn_records sn))) in
                  let seals := retain (seal_retention s) (sn_seals sn ++ [x]) in
                  match commit_state w1 (mkSnapshot (Some a) (sn_records sn) seals
                          (seal_sequence x + 1)) s with
                  | (Raise e, s1) => (Raise e, s1)
                  | (Ok _, s1) =>
                      match commit_state w2 (mkSnapshot None [] seals
                              (seal_sequence x + 1)) s1 with
                      | (Raise e, s2) => (Raise e, s2)
                      | (Ok _, s2) => (Ok x, s2)
                      end
                  end
              end
          end
      end
  end.
End store.

(** ** Sorting and canonical form *)

Lemma existsb_bool_false {A} (f : A → bool) l x :
  existsb f l = false → x ∈ l → f x = false.
Proof.
  intros He Hx. destruct (f x) eqn:Hf; [|done]. rewrite <- He. symmetry.
  apply existsb_exists. exists x. split; [by apply list_elem_of_In|done].
Qed.

Section lex.
Context {A B : Type} (le1 : A → A → Prop) (le2 : B → B → Prop).
Context `{!PartialOrder le1, !PartialOrder le2, !EqDecision A}.

#[export] Instance lex_trans : Transitive (lex le1 le2).
Proof.
  intros [a1 b1] [a2 b2] [a3 b3]. unfold lex. simpl.
  intros [[? ?]|[-> ?]] [[? ?]|[-> ?]]; [|by left|by left|right; split; [done|by etrans]].
  destruct (decide (a1 = a3)) as [->|]; [|left; split; [done|by etrans]].
  by destruct (anti_symm le1 a2 a3).
Qed.

#[export] Instance lex_total `{!Total le1, !Total le2} : Total (lex le1 le2).
Proof.
  intros [a1 b1] [a2 b2]. unfold lex. simpl. destruct (decide (a1 = a2)) as [->|].
  - destruct (total le2 b1 b2); auto.
  - destruct (total le1 a1 a2); auto.
Qed.

Lemma lex_antisymm : AntiSymm (=) (lex le1 le2).
Proof.
  intros [a1 b1] [a2 b2]. unfold lex. simpl.
  intros [[Hne ?]|[-> ?]] [[? ?]|[Heq ?]]; try congruence.
  - destruct Hne. by apply (anti_symm le1).
  - f_equal. by apply (anti_symm le2).
Qed.

#[export] Instance lex_po : PartialOrder (lex le1 le2).
Proof.
  split; [split; [|apply _]|apply lex_antisymm]. intros [a b]. right. by split.
Qed.
End lex.

#[export] Instance rkey_le_trans : Transitive rkey_le.
Proof. unfold rkey_le. apply _. Qed.
#[export] Instance rkey_le_total : Total rkey_le.
Proof. unfold rkey_le. apply _. Qed.

Lemma map_id_Forall {A} (f : A → A) l : Forall (λ x, f x = x) l → map f l = l.
Proof. induction 1 as [|x l Hx _ IH]; simpl; [done|]. by rewrite Hx, IH. Qed.

Lemma canonical_idem v : canonical (canonical v) = canonical v.
Proof.
  induction v as [| | | | |l IH|d IH] using json_ind; simpl; try done.
  - f_equal. rewrite map_map. apply map_ext_in. intros x Hx.
    rewrite Forall_forall in IH. by apply IH, list_elem_of_In.
  - f_equal. rewrite map_id_Forall; [apply sort_by_id, sort_by_sorted; apply _|].
    rewrite sort_by_perm. apply Forall_map, Forall_forall. intros [k x] Hx. simpl. f_equal.
    rewrite Forall_forall in IH. by apply (IH (k, x)).
Qed.

(** ** Well-formed snapshots *)

Definition record_ok (r : ReplacementReleaseRecord) : Prop :=
  rr_cleanup_id r ≠ "" ∧ rr_restart_run_id r ≠ "" ∧ rr_old_operation_digest r ≠ ""
  ∧ rr_operation_id r ≠ "" ∧ rr_lease_id r ≠ "" ∧ rr_decision_digest r ≠ "".

Definition seal_ok (x : ReplacementRunSeal) : Prop :=
  0 < seal_sequence x ∧ 0 ≤ seal_record_count x ∧ seal_restart_run_id x ≠ ""
  ∧ seal_old_generation_digest x ≠ "" ∧ seal_new_generation x ≠ ""
  ∧ seal_decision_digest x ≠ "" ∧ seal_record_root_digest x ≠ "".

(** A snapshot the store may hold: records sit under their own key, decide
    about distinct leases and belong to the one active run and decision;
    seals are bounded, in sequence and of distinct runs. *)
Record snap_wf (max_records retention : Z) (sn : snapshot) : Prop := {
  sw_dict : dwf (sn_records sn);
  sw_key : Forall (λ kr, rr_key kr.2 = kr.1) (sn_records sn);
  sw_records : Forall record_ok (dvalues (sn_records sn));
  sw_leases : NoDup (rr_lease <$> dvalues (sn_records sn));
  sw_seals : Forall seal_ok (sn_seals sn);
  sw_valid : snapshot_valid max_records retention sn = true }.

(** Equal up to the order of the record dictionary. *)
Record sn_equiv (sn sn' : snapshot) : Prop := {
  se_active : sn_active_run sn' = sn_active_run sn;
  se_records : sn_records sn' ≡ₚ sn_records sn;
  se_seals : sn_seals sn' = sn_seals sn;
  se_next : sn_next_seal_sequence sn' = sn_next_seal_sequence sn }.

#[export] Instance sn_equiv_equivalence : Equivalence sn_equiv.
Proof.
  split.
  - by intros ?; split.
  - by intros ?? []; split.
  - intros ??? [] []; split; congruence || by etrans.
Qed.

Lemma forallb_perm {A} (f : A → bool) l l' : l ≡ₚ l' → forallb f l = forallb f l'.
Proof.
  induction 1 as [|x l l' _ IH|x y l|l1 l2 l3 _ IH1 _ IH2]; simpl; [done| | |congruence].
  - by rewrite IH.
  - by rewrite !andb_assoc, (andb_comm (f y)).
Qed.

#[export] Instance snapshot_valid_proper m n : Proper (sn_equiv ==> (=)) (snapshot_valid m n).
Proof.
  intros [a r x k] [a' r' x' k'] [Ha Hr Hx Hk]. simpl in *. subst. unfold snapshot_valid. simpl.
  assert (dvalues r' ≡ₚ dvalues r) as Hv by (unfold dvalues; by rewrite Hr).
  rewrite (Permutation_length Hr). do 6 f_equal. destruct a as [a|].
  - by rewrite !(forallb_perm _ _ _ Hv).
  - apply bool_decide_ext. split; intros ->; [by apply Permutation_nil_r|].
    by apply Permutation_nil_r; symmetry.
Qed.

#[export] Instance snap_wf_proper m n : Proper (sn_equiv ==> iff) (snap_wf m n).
Proof.
  assert (∀ sn sn', sn_equiv sn sn' → snap_wf m n sn → snap_wf m n sn') as H.
  { intros sn sn' He [Hd Hk Hr Hl Hs Hv]. pose proof He as [Ha Hp Hx _].
    assert (dvalues (sn_records sn') ≡ₚ dvalues (sn_records sn)) as Hvs
      by (unfold dvalues; by rewrite Hp).
    split; [|by rewrite Hp|by rewrite Hvs|by rewrite Hvs|by rewrite Hx|by rewrite <- He].
    unfold dwf, dkeys in *. by rewrite Hp. }
  intros sn sn' He. split; [by apply H|]. by apply H; symmetry.
Qed.

(** ** Reading back what was written *)

Section roundtrip.
Context (sha : json → string) (repr : json → string) (int_of_str : string → option Z).

Abbreviation digest := (digest sha).
Abbreviation encode := (encode sha).
Abbreviation parse_record := (parse_record repr).
Abbreviation parse_seal := (parse_seal repr int_of_str).
Abbreviation load_records := (load_records repr).
Abbreviation load_seals := (load_seals repr int_of_str).
Abbreviation load := (load sha repr int_of_str).

Lemma digest_canonical v : digest (canonical v) = digest v.
Proof. unfold Json.digest. by rewrite canonical_idem. Qed.

Lemma parse_record_value r :
  record_ok r → parse_record (canonical (record_value r)) = Ok r.
Proof.
  intros (? & ? & ? & ? & ? & ?).
  assert (mapM as_str (map canonical (map JStr (rr_old_resource_kinds r)))
          = Some (rr_old_resource_kinds r)) as Hk.
  { induction (rr_old_resource_kinds r) as [|k ks IH]; simpl; [done|]. by rewrite IH. }
  change (canonical (record_value r)) with
    (JObj [("cleanup_id", JStr (rr_cleanup_id r));
           ("decision_digest", JStr (rr_decision_digest r));
           ("lease_id", JStr (rr_lease_id r));
           ("old_operation_digest", JStr (rr_old_operation_digest r));
           ("old_resource_kinds", JList (map canonical (map JStr (rr_old_resource_kinds r))));
           ("operation_id", JStr (rr_operation_id r));
           ("restart_run_id", JStr (rr_restart_run_id r))]).
  unfold ReplacementStore.parse_record. replace (keys_are _ _) with true by reflexivity.
  change (jget "old_resource_kinds" _) with
    (JList (map canonical (map JStr (rr_old_resource_kinds r)))).
  cbn [negb]. rewrite Hk. cbv zeta. rewrite !(proj2 (truthy_true _)) by done.
  by destruct r.
Qed.

Lemma parse_seal_value x : seal_ok x → parse_seal (canonical (seal_value x)) = Ok x.
Proof.
  intros (? & ? & ? & ? & ? & ? & ?).
  change (canonical (seal_value x)) with
    (JObj [("decision_digest", JStr (seal_decision_digest x));
           ("new_topology_generation", JStr (seal_new_generation x));
           ("old_topology_generation_digest", JStr (seal_old_generation_digest x));
           ("record_count", JInt (seal_record_count x));
           ("record_root_digest", JStr (seal_record_root_digest x));
           ("restart_run_id", JStr (seal_restart_run_id x));
           ("seal_sequence", JInt (seal_sequence x))]).
  unfold ReplacementStore.parse_seal. replace (keys_are _ _) with true by reflexivity.
  change (py_int int_of_str (jget "seal_sequence" _)) with (Ok (E := exn) (seal_sequence x)).
  change (py_int int_of_str (jget "record_count" _)) with
    (Ok (E := exn) (seal_record_count x)).
  cbn [negb]. cbv zeta. rewrite !bool_decide_false by lia.
  rewrite !(proj2 (truthy_true _)) by done. by destruct x.
Qed.

Lemma load_seals_values xs :
  Forall seal_ok xs → load_seals (map canonical (map seal_value xs)) = Ok xs.
Proof.
  induction 1 as [|x xs Hx _ IH]; [done|].
  cbn [map ReplacementStore.load_seals]. by rewrite parse_seal_value, IH.
Qed.

(** The dictionary a list of records builds. *)
Definition by_key (rs : list ReplacementReleaseRecord) :
  odict rkey ReplacementReleaseRecord := (λ r, (rr_key r, r)) <$> rs.

Lemma dkeys_by_key rs : dkeys (by_key rs) = rr_key <$> rs.
Proof. unfold dkeys, by_key. by rewrite <- list_fmap_compose. Qed.

Lemma load_records_values rs acc leases :
  Forall record_ok rs → NoDup (rr_key <$> acc ++ rs) → NoDup (leases ++ (rr_lease <$> rs)) →
  load_records (map canonical (map record_value rs)) (by_key acc) leases
  = Ok (by_key (acc ++ rs)).
Proof.
  intros Hok. revert acc leases. induction Hok as [|r rs Hr _ IH]; intros acc leases Hk Hl.
  { simpl. by rewrite app_nil_r. }
  cbn [map ReplacementStore.load_records]. rewrite parse_record_value by done.
  assert (rr_key r ∉ dkeys (by_key acc)) as Hn.
  { rewrite dkeys_by_key. rewrite fmap_app, fmap_cons in Hk.
    apply NoDup_app in Hk as (_ & Hd & _). intros Hin. by apply (Hd _ Hin); left. }
  rewrite (proj2 (dmem_false _ _)) by by apply dget_None.
  rewrite fmap_cons in Hl. rewrite decide_False.
  2:{ intros Hin. apply NoDup_app in Hl as (_ & Hd & _). by apply (Hd _ Hin); left. }
  rewrite dset_fresh by by apply dget_None.
  replace (by_key acc ++ [(rr_key r, r)]) with (by_key (acc ++ [r]))
    by (unfold by_key; by rewrite fmap_app).
  replace (acc ++ r :: rs) with ((acc ++ [r]) ++ rs) by by rewrite <- app_assoc.
  apply IH; [by rewrite <- app_assoc|].
  simpl. by rewrite Permutation_middle.
Qed.

Lemma by_key_values (d : odict rkey ReplacementReleaseRecord) :
  Forall (λ kr, rr_key kr.2 = kr.1) d → by_key (dvalues d) = d.
Proof.
  unfold by_key, dvalues. induction 1 as [|[k r] d Hk _ IH]; [done|].
  rewrite !fmap_cons, IH. simpl in *. by rewrite Hk.
Qed.

Lemma dvalues_by_key rs : dvalues (by_key rs) = rs.
Proof.
  unfold dvalues, by_key. rewrite <- list_fmap_compose. by apply list_fmap_id.
Qed.

Lemma sorted_records_perm d : sorted_records d ≡ₚ dvalues d.
Proof. apply sort_by_perm. Qed.

(** What reading back [sn] gives: the same, with the records in key order. *)
Definition reloaded (sn : snapshot) : snapshot :=
  mkSnapshot (sn_active_run sn) (by_key (sorted_records (sn_records sn)))
    (sn_seals sn) (sn_next_seal_sequence sn).

Lemma reloaded_equiv m n sn : snap_wf m n sn → sn_equiv sn (reloaded sn).
Proof.
  intros Hwf. split; try done. simpl. rewrite <- (by_key_values (sn_records sn)) by apply Hwf.
  unfold by_key. apply fmap_Permutation. unfold sorted_records. rewrite sort_by_perm.
  fold (by_key (dvalues (sn_records sn))). by rewrite dvalues_by_key.
Qed.

Lemma parse_active_value a :
  parse_active_run repr (canonical (active_run_value a)) = Ok a.
Proof. destruct a as [[]|]; reflexivity. Qed.

Lemma load_encode m n sn :
  snap_wf m n sn → load m n (mkDisk (Some (encode sn)) false) = Ok (reloaded sn).
Proof.
  intros Hwf. unfold ReplacementStore.load. cbn [d_temp d_file].
  change (encode sn) with
    (JObj [("format_version", JInt STORE_FORMAT_VERSION);
           ("payload", canonical (payload sn));
           ("payload_digest", JStr (digest (payload sn)))]).
  cbv beta iota. replace (keys_are _ _) with true by reflexivity.
  change (jget "format_version" _) with (JInt STORE_FORMAT_VERSION).
  change (jget "payload" _) with (canonical (payload sn)).
  change (jget "payload_digest" _) with (JStr (digest (payload sn))).
  rewrite digest_canonical, (proj2 (py_eqb_str _ _)) by done.
  change (py_eqb (JInt STORE_FORMAT_VERSION) (JInt STORE_FORMAT_VERSION)) with true.
  cbn [negb].
  change (canonical (payload sn)) with
    (JObj [("active_run", canonical (active_run_value (sn_active_run sn)));
           ("next_seal_sequence", JInt (sn_next_seal_sequence sn));
           ("records", JList (map canonical
              (map record_value (sorted_records (sn_records sn)))));
           ("seals", JList (map canonical (map seal_value (sn_seals sn))))]).
  cbv beta iota. unfold load_payload. replace (keys_are _ _) with true by reflexivity.
  change (jget "active_run" _) with (canonical (active_run_value (sn_active_run sn))).
  change (py_iter (jget "records" _)) with
    (Some (map canonical (map record_value (sorted_records (sn_records sn))))).
  change (py_iter (jget "seals" _)) with
    (Some (map canonical (map seal_value (sn_seals sn)))).
  change (py_int int_of_str (jget "next_seal_sequence" _)) with
    (Ok (E := exn) (sn_next_seal_sequence sn)).
  cbn [negb]. rewrite parse_active_value, load_seals_values by apply Hwf.
  pose proof (sorted_records_perm (sn_records sn)) as Hp.
  rewrite (load_records_values _ [] []); cycle 1.
  { rewrite Hp. apply Hwf. }
  { simpl. rewrite Hp, <- dkeys_by_key, by_key_values by apply Hwf. apply Hwf. }
  { simpl. rewrite Hp. apply Hwf. }
  cbv zeta. change (mkSnapshot _ _ _ _) with (reloaded sn).
  rewrite <- (snapshot_valid_proper m n sn (reloaded sn)) by by eapply reloaded_equiv.
  by rewrite (sw_valid _ _ _ Hwf).
Qed.
End roundtrip.

(** ** Validity of the snapshots the operations build *)

Definition segment_ok (active : option ActiveRun)
    (records : odict rkey ReplacementReleaseRecord) : Prop :=
  match active with
  | None => records = []
  | Some a => ar_decision_digest a ≠ ""
      ∧ Forall (λ r, rr_restart_run_id r = ar_restart_run_id a
                     ∧ rr_decision_digest r = ar_decision_digest a) (dvalues records)
  end.

Definition seals_ok (retention : Z) (xs : list ReplacementRunSeal) (next : Z) : Prop :=
  Z.of_nat (length xs) ≤ retention ∧ increasing xs = true
  ∧ NoDup (seal_restart_run_id <$> xs) ∧ 0 < next
  ∧ ∀ x, last xs = Some x → seal_sequence x < next.

Lemma snapshot_valid_iff m n sn :
  snapshot_valid m n sn = true ↔
  Z.of_nat (length (sn_records sn)) ≤ m ∧ segment_ok (sn_active_run sn) (sn_records sn)
  ∧ seals_ok n (sn_seals sn) (sn_next_seal_sequence sn).
Proof.
  unfold snapshot_valid, segment_ok, seals_ok. rewrite !andb_true_iff, !bool_decide_eq_true.
  assert (match last (sn_seals sn) with
          | None => true
          | Some x => bool_decide (seal_sequence x < sn_next_seal_sequence sn) end = true
    ↔ ∀ x, last (sn_seals sn) = Some x → seal_sequence x < sn_next_seal_sequence sn) as ->.
  { destruct (last (sn_seals sn)); [rewrite bool_decide_eq_true|]; naive_solver. }
  destruct (sn_active_run sn) as [a|]; [|rewrite bool_decide_eq_true; tauto].
  rewrite !andb_true_iff, truthy_true, !forallb_forall, Forall_forall.
  setoid_rewrite bool_decide_eq_true. setoid_rewrite <- list_elem_of_In. naive_solver.
Qed.

(** A record joins the records: what the guards of the code establish. *)
Record joins (records : odict rkey ReplacementReleaseRecord)
    (r : ReplacementReleaseRecord) : Prop := {
  jn_ok : record_ok r;
  jn_key : dget (rr_key r) records = None;
  jn_lease : rr_lease r ∉ rr_lease <$> dvalues records }.

Record records_wf (records : odict rkey ReplacementReleaseRecord) : Prop := {
  rw_dict : dwf records;
  rw_key : Forall (λ kr, rr_key kr.2 = kr.1) records;
  rw_ok : Forall record_ok (dvalues records);
  rw_leases : NoDup (rr_lease <$> dvalues records) }.

Lemma snap_wf_iff m n sn :
  snap_wf m n sn ↔ records_wf (sn_records sn) ∧ Forall seal_ok (sn_seals sn)
    ∧ snapshot_valid m n sn = true.
Proof. split; [by intros []|by intros ([] & ? & ?)]. Qed.

Lemma joins_wf records r :
  records_wf records → joins records r → records_wf (dset (rr_key r) r records).
Proof.
  intros [Hd Hk Ho Hl] [Hr Hn Hni]. pose proof (dwf_dset (rr_key r) r records Hd) as Hw.
  split; [done|..]; rewrite dset_fresh by done; unfold dvalues in *.
  - apply Forall_app. split; [done|]. by constructor.
  - rewrite fmap_app. apply Forall_app. split; [done|]. by constructor.
  - rewrite !fmap_app. apply NoDup_app. split_and!; [done| |apply NoDup_singleton].
    intros x Hx Hin. apply list_elem_of_singleton in Hin as ->. done.
Qed.

Lemma records_wf_get records k r :
  records_wf records → dget k records = Some r → rr_key r = k.
Proof.
  intros Hwf Hg. apply dget_Some in Hg; [|apply Hwf].
  pose proof (rw_key records Hwf) as Hk. rewrite Forall_forall in Hk. by apply Hk in Hg.
Qed.

(** The lease table of [persist_records] lists every candidate's lease. *)
Definition leases_agree (records : odict rkey ReplacementReleaseRecord)
    (leases : odict (string * string) rkey) : Prop :=
  ∀ l, dget l leases = None → l ∉ rr_lease <$> dvalues records.

Definition leases_sound (records : odict rkey ReplacementReleaseRecord)
    (leases : odict (string * string) rkey) : Prop :=
  ∀ l k, dget l leases = Some k → is_Some (dget k records).

Lemma leases_of_agree records :
  records_wf records →
  leases_agree records (leases_of records) ∧ leases_sound records (leases_of records).
Proof.
  intros Hwf. unfold leases_of.
  assert (∀ rs d, (∀ r, r ∈ rs → r ∈ dvalues records) → leases_sound records d →
    let d' := foldl (λ d r, dset (rr_lease r) (rr_key r) d) d rs in
    (∀ l, dget l d' = None → dget l d = None ∧ l ∉ rr_lease <$> rs)
    ∧ leases_sound records d') as Hgen.
  { induction rs as [|r rs IH]; simpl; intros d Hin Hs.
    { split; [|done]. intros l Hl. split; [done|]. apply not_elem_of_nil. }
    destruct (IH (dset (rr_lease r) (rr_key r) d)) as [H1 H2].
    - intros r' Hr'. apply Hin. by right.
    - intros l k. rewrite dget_dset. case_decide; [|apply Hs]. intros [= <-].
      assert (r ∈ dvalues records) as ([k r'] & -> & Hkr)%list_elem_of_fmap
        by (apply Hin; by left).
      apply dget_Some in Hkr; [|apply Hwf]. simpl.
      rewrite (records_wf_get records k r' Hwf Hkr), Hkr. eauto.
    - split; [|done]. intros l Hl. apply H1 in Hl as [Hl Hni]. rewrite dget_dset in Hl.
      case_decide; [done|]. split; [done|]. by rewrite elem_of_cons; intros [|]. }
  destruct (Hgen (dvalues records) []) as [H1 H2]; [done|by intros ? ?|].
  split; [|done]. intros l Hl. by apply H1.
Qed.

Lemma merge_records_wf rs candidate leases changed candidate' changed' :
  records_wf candidate → leases_agree candidate leases → leases_sound candidate leases →
  Forall record_ok rs →
  merge_records rs candidate leases changed = Ok (candidate', changed') →
  records_wf candidate'
  ∧ (∀ P : ReplacementReleaseRecord → Prop, Forall P (dvalues candidate) → Forall P rs →
       Forall P (dvalues candidate'))
  ∧ (changed' = false → candidate' = candidate ∧ changed = false).
Proof.
  intros Hwf Ha Hs Hok. revert candidate leases changed Hwf Ha Hs.
  induction Hok as [|r rs Hr _ IH]; intros candidate leases changed Hwf Ha Hs Hm; simpl in Hm.
  { by simplify_eq. }
  destruct (dget (rr_key r) candidate) as [e|] eqn:Hk.
  { case_bool_decide; [done|]. destruct (IH _ _ _ Hwf Ha Hs Hm) as (? & HP & ?).
    split_and!; try done. intros P Hc HPr. apply HP; [done|by inversion HPr]. }
  assert (dget (rr_lease r) leases = None) as Hl.
  { destruct (dget (rr_lease r) leases) as [k|] eqn:Hl; [|done].
    case_bool_decide as Hne; [done|]. subst k.
    apply Hs in Hl as [? Hl]. congruence. }
  rewrite Hl in Hm. apply IH in Hm as (? & HP & Hch).
  - split_and!; [done| |intros Hf; by apply Hch in Hf as []].
    intros P Hc HPr. inversion HPr; subst. apply HP; [|done].
    rewrite dset_fresh by done. unfold dvalues in *. rewrite fmap_app.
    apply Forall_app. by repeat constructor.
  - apply joins_wf; [done|]. split; [done|done|]. by apply Ha.
  - intros l. rewrite dget_dset. case_decide as Hlr; [done|]. intros Hn.
    rewrite dset_fresh by done. unfold dvalues. rewrite !fmap_app, elem_of_app.
    intros [Hin|Hin]; [by apply (Ha l)|]. by apply list_elem_of_singleton in Hin.
  - intros l k. rewrite !dget_dset. repeat case_decide; naive_solver.
Qed.

(** ** Seals *)

Lemma increasing_app xs x :
  increasing xs = true → (∀ y, last xs = Some y → seal_sequence y < seal_sequence x) →
  increasing (xs ++ [x]) = true.
Proof.
  induction xs as [|y xs IH]; intros Hi Hl; [done|].
  destruct xs as [|z xs].
  - simpl. rewrite andb_true_r. apply bool_decide_eq_true. by apply Hl.
  - change (increasing ((y :: z :: xs) ++ [x])) with
      (bool_decide (seal_sequence y < seal_sequence z) && increasing ((z :: xs) ++ [x])).
    change (increasing (y :: z :: xs)) with
      (bool_decide (seal_sequence y < seal_sequence z) && increasing (z :: xs)) in Hi.
    apply andb_true_iff in Hi as [-> Hi]. simpl. by apply IH.
Qed.

Lemma increasing_drop k xs : increasing xs = true → increasing (drop k xs) = true.
Proof.
  revert xs. induction k as [|k IH]; intros [|x xs] Hi; try done. simpl. apply IH.
  destruct xs as [|y xs]; [done|]. simpl in Hi. by apply andb_true_iff in Hi as [_ ?].
Qed.

Lemma retain_snoc n xs x :
  0 < n → ∃ ys, retain n (xs ++ [x]) = ys ++ [x] ∧ ys `suffix_of` xs
    ∧ Z.of_nat (length (retain n (xs ++ [x]))) ≤ n.
Proof.
  intros Hn. unfold retain. rewrite length_app. simpl.
  set (k := (length xs + 1 - Z.to_nat n)%nat). exists (drop k xs).
  rewrite drop_app_le by lia. split_and!; [done|apply suffix_drop|].
  rewrite length_app, length_drop. simpl. lia.
Qed.

Lemma seals_ok_snoc n xs next x :
  0 < n → seals_ok n xs next → seal_sequence x = next →
  seal_restart_run_id x ∉ seal_restart_run_id <$> xs →
  seals_ok n (retain n (xs ++ [x])) (next + 1).
Proof.
  intros Hn (Hlen & Hi & Hnd & Hnext & Hlast) Hx Hni.
  assert (increasing (xs ++ [x]) = true) as Hi'.
  { apply increasing_app; [done|]. intros y Hy. rewrite Hx. by apply Hlast. }
  assert (NoDup (seal_restart_run_id <$> xs ++ [x])) as Hnd'.
  { rewrite fmap_app. apply NoDup_app. split_and!; [done| |apply NoDup_singleton].
    intros y Hy Hin. apply list_elem_of_singleton in Hin as ->. done. }
  destruct (retain_snoc n xs x Hn) as (ys & Hr & Hsuf & Hle).
  split_and!; [done|by apply increasing_drop| |lia|].
  - unfold retain. rewrite fmap_drop. by eapply sublist_NoDup; [|apply sublist_drop].
  - intros y. rewrite Hr, last_snoc. intros [= <-]. lia.
Qed.

(** ** The store and its disk *)

Section durability.
Context (sha : json → string).

Abbreviation digest := (digest sha).
Abbreviation encode := (encode sha).
Abbreviation record_root := (record_root sha).
Abbreviation commit_state := (commit_state sha).
Abbreviation persist_record := (persist_record sha).
Abbreviation persist_records := (persist_records sha).
Abbreviation seal_run := (seal_run sha).

(** The snapshot the next process will read from a disk. *)
Definition durable (d : disk) (sn : snapshot) : Prop :=
  match d_file d with None => sn = empty_snapshot | Some v => v = encode sn end.

(** A seal beside the segment it closes describes exactly that segment. *)
Definition gc_ok (sn : snapshot) : Prop :=
  ∀ a x, sn_active_run sn = Some a → seal_for_run (ar_restart_run_id a) sn = Some x →
    seal_record_count x = Z.of_nat (length (sn_records sn))
    ∧ seal_record_root_digest x = record_root (sn_records sn)
    ∧ seal_old_generation_digest x = ar_old_generation_digest a
    ∧ seal_decision_digest x = ar_decision_digest a.

(** The active run is not sealed. *)
Definition unsealed (sn : snapshot) : Prop :=
  ∀ a, sn_active_run sn = Some a → seal_for_run (ar_restart_run_id a) sn = None.

Definition disk_ok (m n : Z) (d : disk) (sn : snapshot) : Prop :=
  durable d sn ∧ snap_wf m n sn ∧ gc_ok sn.

(** The invariant: the disk always holds a well-formed snapshot, and a store
    that has not failed closed agrees with it. *)
Record store_inv (s : ReplacementDecisionStore) : Prop := {
  si_caps : 0 < max_records_per_run s ∧ 0 < seal_retention s;
  si_disk : ∃ sn, disk_ok (max_records_per_run s) (seal_retention s) (st_disk s) sn
    ∧ (st_fatal s = false → d_temp (st_disk s) = false ∧ sn_equiv sn (st_snapshot s)
         ∧ unsealed (st_snapshot s)) }.

Lemma store_inv_wf s :
  store_inv s → st_fatal s = false →
  snap_wf (max_records_per_run s) (seal_retention s) (st_snapshot s)
  ∧ unsealed (st_snapshot s) ∧ d_temp (st_disk s) = false.
Proof.
  intros [_ (sn & (_ & Hwf & _) & Hs)] Hf. destruct (Hs Hf) as (? & He & ?).
  split_and!; try done. by rewrite <- He.
Qed.

Lemma unsealed_gc sn : unsealed sn → gc_ok sn.
Proof. intros Hu a x Ha. by rewrite (Hu a Ha). Qed.

(** A commit leaves a well-formed disk whatever the write does, and moves
    the memory only when it succeeds. *)
Lemma commit_state_spec w sn s r s' :
  disk_ok (max_records_per_run s) (seal_retention s) (st_disk s) sn →
  ∀ sn', snap_wf (max_records_per_run s) (seal_retention s) sn' → gc_ok sn' →
  commit_state w sn' s = (r, s') →
  max_records_per_run s' = max_records_per_run s ∧ seal_retention s' = seal_retention s
  ∧ match r with
    | Ok _ => w = write_ok ∧ st_snapshot s' = sn' ∧ st_fatal s' = st_fatal s
        ∧ st_disk s' = mkDisk (Some (encode sn')) (d_temp (st_disk s))
    | Raise e => w ≠ write_ok ∧ e = ReplacementStoreUnavailable ∧ st_fatal s' = true
        ∧ st_snapshot s' = st_snapshot s
    end
  ∧ ∃ sn'', disk_ok (max_records_per_run s) (seal_retention s) (st_disk s') sn''.
Proof.
  intros Hd sn' Hwf Hgc Hc. destruct w; simplify_eq/=.
  - split_and!; try done. by exists sn'.
  - split_and!; try done. by exists sn.
  - split_and!; try done. by exists sn.
  - split_and!; try done. by exists sn'.
Qed.

Lemma commit_state_inv w sn' s :
  store_inv s → d_temp (st_disk s) = false →
  snap_wf (max_records_per_run s) (seal_retention s) sn' → unsealed sn' →
  store_inv (commit_state w sn' s).2.
Proof.
  intros [Hcaps (sn & Hd & _)] Ht Hwf Hu.
  destruct (commit_state w sn' s) as [r s'] eqn:Hc. simpl.
  pose proof (commit_state_spec w sn s r s' Hd sn' Hwf (unsealed_gc _ Hu) Hc)
    as (Hm & Hn & Hr & sn'' & Hd''). split; rewrite Hm, Hn; [done|].
  destruct r as [u|e].
  - destruct Hr as (_ & Hsn & _ & Hdisk). exists sn'. rewrite Hdisk, Hsn.
    split; [by split_and!; [|done|apply unsealed_gc]|done].
  - destruct Hr as (_ & _ & Hf & _). exists sn''. split; [done|]. by rewrite Hf.
Qed.

(** *** The operations *)

Lemma seal_for_run_None run sn :
  seal_for_run run sn = None ↔ run ∉ seal_restart_run_id <$> sn_seals sn.
Proof.
  unfold seal_for_run. destruct (list_find _ _) as [[i x]|] eqn:Hf; simpl.
  - split; [done|]. intros Hn. apply list_find_Some in Hf as (Hi & Hx & _).
    destruct Hn. apply list_elem_of_fmap. exists x. split; [done|].
    by eapply list_elem_of_lookup_2.
  - split; [|done]. intros _. apply list_find_None in Hf. rewrite Forall_forall in Hf.
    intros (x & Hx & Hin)%list_elem_of_fmap. by apply (Hf x Hin).
Qed.

Lemma validate_Ok run gen d s :
  validate_requested_run sha run gen (Some d) s = Ok tt →
  run ≠ "" ∧ gen ≠ "" ∧ ∀ a, sn_active_run (st_snapshot s) = Some a →
    ar_restart_run_id a = run ∧ ar_old_generation_digest a = digest (JStr gen)
    ∧ ar_decision_digest a = d.
Proof.
  unfold validate_requested_run. destruct (negb (truthy run) || _) eqn:Ht; [done|].
  apply orb_false_iff in Ht as [H1%negb_false_iff%truthy_true H2%negb_false_iff%truthy_true].
  destruct (sn_active_run (st_snapshot s)) as [a|]; [|done].
  repeat case_bool_decide; naive_solver.
Qed.

Lemma lookup_record_None r gen s :
  lookup_record sha r gen s = Ok None →
  st_fatal s = false ∧ dget (rr_key r) (sn_records (st_snapshot s)) = None
  ∧ seal_for_run (rr_restart_run_id r) (st_snapshot s) = None
  ∧ validate_requested_run sha (rr_restart_run_id r) gen (Some (rr_decision_digest r)) s = Ok tt.
Proof.
  unfold lookup_record, require_integrity. destruct (st_fatal s); [done|].
  destruct (dget _ _); [by case_bool_decide|].
  destruct (seal_for_run _ _); [done|].
  destruct (validate_requested_run _ _ _ _ _) as [[]|]; done.
Qed.

Lemma persist_record_inv w r gen s :
  store_inv s → record_ok r → store_inv (persist_record w r gen s).2.
Proof.
  intros Hinv Hr. unfold ReplacementStore.persist_record.
  destruct (lookup_record sha r gen s) as [[e|]|] eqn:Hl; [done| |done].
  apply lookup_record_None in Hl as (Hf & Hk & Hseal & Hv).
  apply validate_Ok in Hv as (Hrun & _ & Hact).
  destruct (store_inv_wf s Hinv Hf) as (Hwf & Hu & Ht).
  case_bool_decide as Hcap; [done|].
  destruct (existsb _ _) eqn:Hclash; [done|].
  set (active := match sn_active_run _ with Some a => a | None => _ end).
  set (sn' := mkSnapshot _ _ _ _).
  assert (ar_restart_run_id active = rr_restart_run_id r
          ∧ ar_decision_digest active = rr_decision_digest r) as [Ha1 Ha2].
  { unfold active. destruct (sn_active_run (st_snapshot s)) as [a|] eqn:Ha; [|done].
    destruct (Hact a) as (? & ? & ?); done. }
  apply snap_wf_iff in Hwf as (Hrw & Hsl & Hval).
  apply snapshot_valid_iff in Hval as (Hlen & Hseg & Hso).
  assert (joins (sn_records (st_snapshot s)) r) as Hj.
  { split; [done|done|]. intros (r' & Hlease & Hin)%list_elem_of_fmap.
    assert (lease_clash r r' = true) as Hc.
    { unfold lease_clash. rewrite Hlease, bool_decide_true by done. simpl.
      apply bool_decide_eq_true. intros Hkey.
      apply list_elem_of_fmap in Hin as ([k r0] & -> & Hkr).
      apply dget_Some in Hkr; [|apply Hrw]. simpl in *.
      rewrite <- Hkey, (records_wf_get _ _ _ Hrw Hkr) in Hk. congruence. }
    assert (existsb (lease_clash r) (dvalues (sn_records (st_snapshot s))) = true); [|congruence].
    apply existsb_exists. exists r'. split; [by apply list_elem_of_In|done]. }
  assert (snap_wf (max_records_per_run s) (seal_retention s) sn') as Hwf'.
  { apply snap_wf_iff. split_and!; [by apply joins_wf|done|].
    apply snapshot_valid_iff. unfold sn'. simpl. split_and!.
    - rewrite dset_fresh, length_app by done. simpl. lia.
    - rewrite Ha2. apply Hr.
    - rewrite dset_fresh by done. unfold dvalues. rewrite fmap_app. apply Forall_app.
      split; [|by repeat constructor]. destruct (sn_active_run (st_snapshot s)) as [a|] eqn:Ha.
      + by destruct Hseg.
      + unfold segment_ok in Hseg. by rewrite Hseg.
    - exact Hso. }
  assert (unsealed sn') as Hu'.
  { intros a [= <-]. by rewrite Ha1. }
  pose proof (commit_state_inv w sn' s Hinv Ht Hwf' Hu') as Hc.
  by destruct (commit_state w sn' s) as [[]].
Qed.

Lemma persist_records_inv w rs run gen d s :
  store_inv s → Forall record_ok rs → store_inv (persist_records w rs run gen d s).2.
Proof.
  intros Hinv Hrs. unfold ReplacementStore.persist_records. cbv zeta.
  set (requested := match d with Some _ => _ | None => _ end).
  unfold require_integrity. destruct (st_fatal s) eqn:Hf; [done|].
  destruct (store_inv_wf s Hinv Hf) as (Hwf & Hu & Ht).
  case_bool_decide as Hseal; [done|].
  destruct (truthy requested) eqn:Hreq; simpl; [|done]. apply truthy_true in Hreq.
  destruct (existsb _ rs) eqn:Hdec; [done|].
  destruct (validate_requested_run _ _ _ _ _) as [[]|] eqn:Hv; [|done].
  apply validate_Ok in Hv as (Hrun & _ & Hact).
  destruct (existsb _ rs) eqn:Hruns in |- *; [done|].
  destruct (merge_records _ _ _ _) as [[candidate changed]|] eqn:Hm; [|done].
  case_bool_decide as Hcap; [done|]. destruct (changed || _) eqn:Hch; [|done].
  set (sn' := mkSnapshot _ _ _ _).
  apply snap_wf_iff in Hwf as (Hrw & Hsl & Hval).
  apply snapshot_valid_iff in Hval as (Hlen & Hseg & Hso).
  destruct (leases_of_agree _ Hrw) as [Hag Hsd].
  destruct (merge_records_wf _ _ _ _ _ _ Hrw Hag Hsd Hrs Hm) as (Hcw & HP & _).
  assert (snap_wf (max_records_per_run s) (seal_retention s) sn') as Hwf'.
  { apply snap_wf_iff. split_and!; [done|done|].
    apply snapshot_valid_iff. unfold sn'. simpl. split_and!; [lia|done| |exact Hso].
    apply HP.
    - destruct (sn_active_run (st_snapshot s)) as [a|] eqn:Ha.
      + destruct (Hact a eq_refl) as (<- & _ & <-). by destruct Hseg.
      + unfold segment_ok in Hseg. rewrite Hseg. constructor.
    - apply Forall_forall. intros r Hr. split.
      + eapply existsb_bool_false in Hruns; [|exact Hr].
        by apply bool_decide_eq_false, dec_stable in Hruns.
      + eapply existsb_bool_false in Hdec; [|exact Hr].
        by apply bool_decide_eq_false, dec_stable in Hdec. }
  assert (unsealed sn') as Hu'.
  { intros a [= <-]. exact Hseal. }
  pose proof (commit_state_inv w sn' s Hinv Ht Hwf' Hu') as Hc.
  by destruct (commit_state w sn' s) as [[]].
Qed.

(** The seal [seal_run] makes, and the two snapshots it commits. *)
Definition new_seal (run gen new_gen decision : string) (sn : snapshot) : ReplacementRunSeal :=
  mkReplacementRunSeal (sn_next_seal_sequence sn) run (digest (JStr gen)) new_gen decision
    (record_root (sn_records sn)) (Z.of_nat (length (sn_records sn))).

Lemma sealed_snapshots m n sn a run gen new_gen decision :
  0 < n → snap_wf m n sn → sn_active_run sn = Some a →
  ar_restart_run_id a = run → ar_old_generation_digest a = digest (JStr gen) →
  ar_decision_digest a = decision → run ≠ "" → new_gen ≠ "" →
  seal_for_run run sn = None →
  let x := new_seal run gen new_gen decision sn in
  let seals := retain n (sn_seals sn ++ [x]) in
  let sn1 := mkSnapshot (Some a) (sn_records sn) seals (seal_sequence x + 1) in
  let sn2 := mkSnapshot None [] seals (seal_sequence x + 1) in
  snap_wf m n sn1 ∧ gc_ok sn1 ∧ snap_wf m n sn2 ∧ unsealed sn2
  ∧ seal_for_run run sn1 = Some x ∧ seal_for_run run sn2 = Some x.
Proof.
  intros Hn Hwf Ha Hrun Hgen Hdec Hr Hng Hseal. cbv zeta.
  apply snap_wf_iff in Hwf as (Hrw & Hsl & Hval).
  apply snapshot_valid_iff in Hval as (Hlen & Hseg & Hso).
  rewrite Ha in Hseg. destruct Hseg as [Hd Hseg].
  set (x := new_seal run gen new_gen decision sn).
  assert (seals_ok n (retain n (sn_seals sn ++ [x])) (seal_sequence x + 1)) as Hso'.
  { apply seals_ok_snoc; [done|done|done|]. by apply seal_for_run_None. }
  assert (seal_ok x) as Hx.
  { destruct Hso as (_ & _ & _ & ? & _). unfold seal_ok, x, new_seal, ReplacementStore.record_root,
      Json.digest; simpl. subst decision. split_and!; try done; lia. }
  destruct (retain_snoc n (sn_seals sn) x Hn) as (ys & Hret & [zs Hzs] & _).
  assert (Forall seal_ok (retain n (sn_seals sn ++ [x]))) as Hsl'.
  { rewrite Hret. rewrite Hzs in Hsl. apply Forall_app in Hsl as [_ ?].
    apply Forall_app. split; [done|]. by apply Forall_singleton. }
  assert (∀ sn', sn_seals sn' = retain n (sn_seals sn ++ [x]) →
    seal_for_run run sn' = Some x) as Hfind.
  { intros sn' Hs. unfold seal_for_run. rewrite Hs, Hret.
    assert (list_find (λ x0, seal_restart_run_id x0 = run) (ys ++ [x])
            = Some (length ys, x)) as ->; [|done].
    apply list_find_Some. rewrite lookup_app_r, Nat.sub_diag by done. split_and!; try done.
    intros j y Hj Hlt Hy. rewrite lookup_app_l in Hj by done.
    apply seal_for_run_None in Hseal. apply Hseal, list_elem_of_fmap. exists y.
    split; [done|]. rewrite Hzs, elem_of_app. right. by eapply list_elem_of_lookup_2. }
  split_and!; try (by apply Hfind).
  - apply snap_wf_iff. split_and!; [done|done|]. by apply snapshot_valid_iff.
  - intros a' x' [= <-]. cbn [sn_records]. rewrite Hrun, Hfind by done.
    intros [= <-]. done.
  - apply snap_wf_iff. split_and!; [|done|].
    + split; simpl; try constructor.
    + apply snapshot_valid_iff. split_and!; simpl; [lia|done|done].
  - by intros a'.
Qed.

(** The states [seal_run] can reach past its guards. *)
Lemma seal_run_fresh w1 w2 run gen new_gen decision s a :
  st_fatal s = false → seal_for_run run (st_snapshot s) = None →
  validate_requested_run sha run gen (Some decision) s = Ok tt →
  sn_active_run (st_snapshot s) = Some a →
  let x := new_seal run gen new_gen decision (st_snapshot s) in
  let seals := retain (seal_retention s) (sn_seals (st_snapshot s) ++ [x]) in
  let sn1 := mkSnapshot (Some a) (sn_records (st_snapshot s)) seals (seal_sequence x + 1) in
  let sn2 := mkSnapshot None [] seals (seal_sequence x + 1) in
  seal_run w1 w2 run gen new_gen decision s =
  match commit_state w1 sn1 s with
  | (Raise e, s1) => (Raise e, s1)
  | (Ok _, s1) => match commit_state w2 sn2 s1 with
                  | (Raise e, s2) => (Raise e, s2)
                  | (Ok _, s2) => (Ok x, s2)
                  end
  end.
Proof.
  intros Hf Hs Hv Ha. cbv zeta. unfold ReplacementStore.seal_run, require_integrity.
  by rewrite Hf, Hs, Hv, Ha.
Qed.

Lemma seal_run_inv w1 w2 run gen new_gen decision s :
  store_inv s → new_gen ≠ "" → store_inv (seal_run w1 w2 run gen new_gen decision s).2.
Proof.
  intros Hinv Hng. destruct (st_fatal s) eqn:Hf.
  { unfold ReplacementStore.seal_run, require_integrity. by rewrite Hf. }
  destruct (seal_for_run run (st_snapshot s)) as [x0|] eqn:Hseal.
  { unfold ReplacementStore.seal_run, require_integrity. rewrite Hf, Hseal.
    by destruct (_ || _). }
  destruct (validate_requested_run sha run gen (Some decision) s) as [[]|] eqn:Hv; cycle 1.
  { unfold ReplacementStore.seal_run, require_integrity. by rewrite Hf, Hseal, Hv. }
  destruct (sn_active_run (st_snapshot s)) as [a|] eqn:Ha; cycle 1.
  { unfold ReplacementStore.seal_run, require_integrity. by rewrite Hf, Hseal, Hv, Ha. }
  rewrite (seal_run_fresh w1 w2 run gen new_gen decision s a Hf Hseal Hv Ha).
  destruct (store_inv_wf s Hinv Hf) as (Hwf & Hu & Ht).
  pose proof (validate_Ok _ _ _ _ Hv) as (Hrun & _ & Hact).
  destruct (Hact a Ha) as (Hr1 & Hr2 & Hr3).
  destruct (sealed_snapshots (max_records_per_run s) (seal_retention s) (st_snapshot s) a run
    gen new_gen decision) as (Hw1 & Hg1 & Hw2 & Hu2 & _ & _); try done; [apply Hinv|].
  cbv zeta in *. set (sn1 := mkSnapshot (Some a) _ _ _) in *.
  set (sn2 := mkSnapshot None _ _ _) in *.
  destruct Hinv as [Hcaps (sn & Hd & _)].
  destruct (commit_state w1 sn1 s) as [r1 s1] eqn:Hc1.
  pose proof (commit_state_spec w1 sn s r1 s1 Hd sn1 Hw1 Hg1 Hc1)
    as (Hm & Hn & Hr & sn'' & Hd'').
  destruct r1 as [u|e]; simpl; cycle 1.
  { destruct Hr as (_ & _ & Hf1 & _). split; rewrite Hm, Hn; [done|].
    exists sn''. split; [done|]. by rewrite Hf1. }
  destruct Hr as (_ & Hs1 & Hf1 & Hd1).
  assert (disk_ok (max_records_per_run s1) (seal_retention s1) (st_disk s1) sn1) as Hd1'.
  { rewrite Hm, Hn, Hd1. by split_and!. }
  destruct (commit_state w2 sn2 s1) as [r2 s2] eqn:Hc2.
  rewrite <- Hm, <- Hn in Hw2.
  pose proof (commit_state_spec w2 sn1 s1 r2 s2 Hd1' sn2 Hw2 (unsealed_gc _ Hu2) Hc2)
    as (Hm2 & Hn2 & Hr & sn3 & Hd3).
  rewrite Hm, Hn in Hd3. destruct r2 as [u2|e2]; simpl; split; rewrite Hm2, Hn2, Hm, Hn; try done.
  - destruct Hr as (_ & Hs2 & _ & Hd2). exists sn2. rewrite Hd2, Hs2, Hd1. simpl.
    rewrite Hm, Hn in Hw2. split; [by split_and!; [|done|apply unsealed_gc]|done].
  - destruct Hr as (_ & _ & Hf2 & _). exists sn3. split; [done|]. by rewrite Hf2.
Qed.

Lemma lookup_fatal r gen s :
  st_fatal s = true → lookup_record sha r gen s = Raise ReplacementStoreUnavailable.
Proof. intros Hf. unfold lookup_record, require_integrity. by rewrite Hf. Qed.

(** No record of a sealed run is ever held. *)
Lemma sealed_run_no_record s run x r :
  store_inv s → st_fatal s = false → seal_for_run run (st_snapshot s) = Some x →
  rr_restart_run_id r = run → dget (rr_key r) (sn_records (st_snapshot s)) = None.
Proof.
  intros Hinv Hf Hx Hr. destruct (store_inv_wf s Hinv Hf) as (Hwf & Hu & _).
  destruct (dget _ _) as [r'|] eqn:Hg; [|done]. exfalso.
  apply snap_wf_iff in Hwf as (Hrw & _ & Hv). apply snapshot_valid_iff in Hv as (_ & Hseg & _).
  pose proof (records_wf_get _ _ _ Hrw Hg) as Hk. apply dget_Some in Hg; [|apply Hrw].
  unfold segment_ok in Hseg. destruct (sn_active_run (st_snapshot s)) as [a|] eqn:Ha.
  - destruct Hseg as [_ Hseg]. rewrite Forall_forall in Hseg. destruct (Hseg r') as [Hrun _].
    { apply list_elem_of_fmap. by exists (rr_key r, r'). }
    specialize (Hu a Ha). unfold rr_key in Hk. simplify_eq. congruence.
  - rewrite Hseg in Hg. by apply elem_of_nil in Hg.
Qed.

Lemma seal_run_seals w1 w2 run gen new_gen decision s x s' :
  store_inv s → new_gen ≠ "" →
  seal_run w1 w2 run gen new_gen decision s = (Ok x, s') →
  st_fatal s' = false ∧ seal_for_run run (st_snapshot s') = Some x
  ∧ seal_old_generation_digest x = digest (JStr gen) ∧ seal_new_generation x = new_gen
  ∧ seal_decision_digest x = decision.
Proof.
  intros Hinv Hng Hs. destruct (st_fatal s) eqn:Hf.
  { unfold ReplacementStore.seal_run, require_integrity in Hs. by rewrite Hf in Hs. }
  destruct (seal_for_run run (st_snapshot s)) as [x0|] eqn:Hseal.
  { unfold ReplacementStore.seal_run, require_integrity in Hs. rewrite Hf, Hseal in Hs.
    repeat case_bool_decide; simplify_eq/=; naive_solver. }
  destruct (validate_requested_run sha run gen (Some decision) s) as [[]|] eqn:Hv; cycle 1.
  { unfold ReplacementStore.seal_run, require_integrity in Hs. by rewrite Hf, Hseal, Hv in Hs. }
  destruct (sn_active_run (st_snapshot s)) as [a|] eqn:Ha; cycle 1.
  { unfold ReplacementStore.seal_run, require_integrity in Hs. by rewrite Hf, Hseal, Hv, Ha in Hs. }
  rewrite (seal_run_fresh w1 w2 run gen new_gen decision s a Hf Hseal Hv Ha) in Hs.
  destruct (store_inv_wf s Hinv Hf) as (Hwf & _ & _).
  pose proof (validate_Ok _ _ _ _ Hv) as (Hrun & _ & Hact).
  destruct (Hact a Ha) as (Hr1 & Hr2 & Hr3).
  destruct (sealed_snapshots (max_records_per_run s) (seal_retention s) (st_snapshot s) a run
    gen new_gen decision) as (_ & _ & _ & _ & _ & Hx); try done; [apply Hinv|].
  cbv zeta in *. destruct w1; simplify_eq/=. destruct w2; simplify_eq/=. done.
Qed.

Lemma seal_run_past_guards w1 w2 run gen new_gen decision s x s' :
  st_fatal s = false → seal_for_run run (st_snapshot s) = None →
  seal_run w1 w2 run gen new_gen decision s = (Ok x, s') →
  ∃ a, validate_requested_run sha run gen (Some decision) s = Ok tt
    ∧ sn_active_run (st_snapshot s) = Some a.
Proof.
  intros Hf Hs Hok. unfold ReplacementStore.seal_run, require_integrity in Hok.
  rewrite Hf, Hs in Hok.
  destruct (validate_requested_run _ _ _ _ _) as [[]|]; [|done].
  destruct (sn_active_run (st_snapshot s)) as [a|]; [|done]. by exists a.
Qed.

Lemma persist_record_stored w r gen s s' :
  persist_record w r gen s = (Ok (r, true), s') →
  st_fatal s' = false ∧ dget (rr_key r) (sn_records (st_snapshot s')) = Some r
  ∧ r ∈ dvalues (sn_records (st_snapshot s')).
Proof.
  unfold ReplacementStore.persist_record.
  destruct (lookup_record sha r gen s) as [[e|]|] eqn:Hl; [done| |done].
  apply lookup_record_None in Hl as (Hf & Hk & _ & _).
  case_bool_decide; [done|]. destruct (existsb _ _); [done|].
  destruct w; simpl; [|done..]. intros [= <-]. simpl. split; [done|].
  rewrite dget_dset_eq. split; [done|]. rewrite dset_fresh by done.
  unfold dvalues. rewrite fmap_app, elem_of_app. right. by left.
Qed.

(** *** Opening a store *)

Context (repr : json → string) (int_of_str : string → option Z).
Abbreviation load := (load sha repr int_of_str).
Abbreviation open_store := (open_store sha repr int_of_str).


Lemma empty_snapshot_wf m n : 0 ≤ m → 0 ≤ n → snap_wf m n empty_snapshot.
Proof.
  intros Hm Hn. apply snap_wf_iff. split_and!; [|constructor|].
  - split; simpl; constructor.
  - apply snapshot_valid_iff. simpl. split_and!; [lia|done|].
    split_and!; simpl; try done; try lia; constructor.
Qed.

Lemma load_disk m n d sn :
  disk_ok m n d sn → d_temp d = false →
  ∃ sn', load m n d = Ok sn' ∧ sn_equiv sn sn'
    ∧ record_root (sn_records sn') = record_root (sn_records sn).
Proof.
  intros (Hd & Hwf & _) Ht. destruct d as [file temp]. simpl in *. subst temp.
  unfold durable in Hd. simpl in Hd. destruct file as [v|].
  - subst v. exists (reloaded sn). split; [by apply load_encode|].
    split; [by eapply reloaded_equiv|].
    unfold ReplacementStore.record_root, sorted_records at 1. simpl. rewrite dvalues_by_key.
    unfold sorted_records at 1. rewrite sort_by_id; [done|].
    apply sort_by_sorted; apply _.
  - subst sn. by exists empty_snapshot.
Qed.

Lemma seal_for_run_equiv run sn sn' :
  sn_equiv sn sn' → seal_for_run run sn' = seal_for_run run sn.
Proof. intros []. unfold seal_for_run. congruence. Qed.

Lemma open_store_inv m n d w sn s :
  disk_ok m n d sn → open_store m n d w = Ok s → store_inv s.
Proof.
  intros Hd Ho. unfold ReplacementStore.open_store in Ho.
  case_bool_decide; [done|]. case_bool_decide; [done|].
  destruct (d_temp d) eqn:Ht.
  { unfold ReplacementStore.load in Ho. rewrite Ht in Ho. simplify_eq.
    split; simpl; [lia|]. by exists sn. }
  destruct (load_disk m n d sn Hd Ht) as (sn' & Hl & He & Hroot). rewrite Hl in Ho.
  pose proof Hd as (Hdur & Hwf & Hgc).
  assert (snap_wf m n sn') as Hwf' by by rewrite <- He.
  set (s0 := set_snapshot sn' (mkStore m n empty_snapshot false d)) in Ho.
  unfold finish_sealed_gc in Ho. simpl in Ho.
  assert (unsealed sn' → store_inv s0) as Hopen.
  { intros Hu. split; simpl; [lia|]. exists sn. by split. }
  destruct (sn_active_run sn') as [a|] eqn:Ha; [|simplify_eq; apply Hopen; intros ? ?; congruence].
  rewrite (seal_for_run_equiv _ _ _ He) in Ho.
  destruct (seal_for_run (ar_restart_run_id a) sn) as [x|] eqn:Hs; cycle 1.
  { simplify_eq. apply Hopen. intros a' [= <-]%(eq_trans (eq_sym Ha)).
    by rewrite (seal_for_run_equiv _ _ _ He). }
  destruct (Hgc a x) as (H1 & H2 & H3 & H4); [by rewrite <- (se_active _ _ He)|done|].
  rewrite H1, (Permutation_length (se_records _ _ He)), Hroot, H2, H3, H4 in Ho.
  rewrite !bool_decide_false in Ho by (intros Hne; by apply Hne). simpl in Ho.
  set (sn2 := mkSnapshot None [] _ _) in Ho.
  assert (snap_wf m n sn2) as Hw2.
  { apply snap_wf_iff in Hwf' as (_ & ? & Hv). apply snapshot_valid_iff in Hv as (_ & _ & ?).
    apply snap_wf_iff. split_and!; [split; simpl; constructor|done|].
    apply snapshot_valid_iff. simpl. split_and!; [lia|done|done]. }
  destruct (commit_state w sn2 s0) as [r s'] eqn:Hc.
  pose proof (commit_state_spec w sn s0 r s' Hd sn2 Hw2 ltac:(by intros ? ?) Hc)
    as (Hm & Hn & Hr & sn3 & Hd3). simpl in *.
  destruct r as [u|e]; simplify_eq; split; simpl; rewrite ?Hm, ?Hn; try (split; lia).
  - destruct Hr as (_ & Hs2 & _ & Hd2). exists sn2. rewrite Hd2, Hs2. simpl.
    split; [by split_and!; [| |intros ? ?]|]. intros _. split_and!; [done|done|by intros ? ?].
  - by exists sn3.
Qed.

(** One call, or a crash and restart, with records and generations that are
    not empty strings (the callers check that). *)
Inductive store_step (s : ReplacementDecisionStore) : ReplacementDecisionStore → Prop :=
| step_persist w r gen : record_ok r → store_step s (persist_record w r gen s).2
| step_persist_batch w rs run gen d :
    Forall record_ok rs → store_step s (persist_records w rs run gen d s).2
| step_seal w1 w2 run gen new_gen decision :
    new_gen ≠ "" → store_step s (seal_run w1 w2 run gen new_gen decision s).2
| step_restart w s' :
    open_store (max_records_per_run s) (seal_retention s) (st_disk s) w = Ok s' →
    store_step s s'.

Lemma store_step_inv s s' : store_inv s → store_step s s' → store_inv s'.
Proof.
  intros Hinv Hs. destruct Hs as [w r gen Hr|w rs run gen d Hr|w1 w2 run gen ng dec Hng|w s' Ho].
  - by apply persist_record_inv.
  - by apply persist_records_inv.
  - by apply seal_run_inv.
  - destruct Hinv as [_ (sn & Hd & _)]. by eapply open_store_inv.
Qed.

Lemma store_steps_inv s s' : store_inv s → rtc store_step s s' → store_inv s'.
Proof. intros Hi Hs. revert Hi. induction Hs; eauto using store_step_inv. Qed.

Lemma fresh_disk_inv m n w s : open_store m n (mkDisk None false) w = Ok s → store_inv s.
Proof.
  intros Ho. assert (0 < m ∧ 0 < n) as [Hm Hn].
  { unfold ReplacementStore.open_store in Ho. repeat case_bool_decide; try done. lia. }
  eapply open_store_inv; [|done]. split_and!; [done|apply empty_snapshot_wf; lia|].
  by intros ? ?.
Qed.

(** A store that has not failed closed reloads to itself. *)
Lemma store_reloads s :
  store_inv s → st_fatal s = false →
  ∃ sn, load (max_records_per_run s) (seal_retention s) (st_disk s) = Ok sn
    ∧ sn_equiv (st_snapshot s) sn.
Proof.
  intros [_ (sn & Hd & Hs)] Hf. destruct (Hs Hf) as (Ht & He & _).
  destruct (load_disk _ _ _ _ Hd Ht) as (sn' & Hl & He' & _). exists sn'.
  split; [done|]. by rewrite <- He.
Qed.

(** Restarting on a sealed segment collects it. *)
Lemma reopen_sealed m n sn a x s' :
  0 < m → 0 < n → snap_wf m n sn → gc_ok sn → sn_active_run sn = Some a →
  seal_for_run (ar_restart_run_id a) sn = Some x →
  open_store m n (mkDisk (Some (encode sn)) false) write_ok = Ok s' →
  st_snapshot s' = mkSnapshot None [] (sn_seals sn) (sn_next_seal_sequence sn)
  ∧ st_fatal s' = false.
Proof.
  intros Hm Hn Hwf Hgc Ha Hx Ho. unfold ReplacementStore.open_store in Ho.
  rewrite !bool_decide_false in Ho by lia.
  destruct (load_disk m n (mkDisk (Some (encode sn)) false) sn) as (sn' & Hl & He & Hroot);
    [by split_and!|done|]. rewrite Hl in Ho. unfold finish_sealed_gc in Ho. simpl in Ho.
  rewrite (se_active _ _ He), Ha, (seal_for_run_equiv _ _ _ He), Hx in Ho.
  destruct (Hgc a x Ha Hx) as (H1 & H2 & H3 & H4).
  rewrite H1, (Permutation_length (se_records _ _ He)), Hroot, H2, H3, H4 in Ho.
  rewrite !bool_decide_false in Ho by (intros Hne; by apply Hne). simpl in Ho. injection Ho as <-. simpl.
  by rewrite (se_seals _ _ He), (se_next _ _ He).
Qed.

(** Restarting with no open segment changes nothing. *)
Lemma reopen_closed m n sn w s' :
  0 < m → 0 < n → snap_wf m n sn → sn_active_run sn = None →
  open_store m n (mkDisk (Some (encode sn)) false) w = Ok s' →
  st_snapshot s' = mkSnapshot None [] (sn_seals sn) (sn_next_seal_sequence sn)
  ∧ st_fatal s' = false.
Proof.
  intros Hm Hn Hwf Ha Ho. unfold ReplacementStore.open_store in Ho.
  rewrite !bool_decide_false in Ho by lia. rewrite load_encode in Ho by done.
  unfold finish_sealed_gc in Ho. simpl in Ho. rewrite Ha in Ho. simplify_eq.
  split; [|done]. simpl. unfold reloaded. rewrite Ha.
  apply snap_wf_iff in Hwf as (_ & _ & Hv). apply snapshot_valid_iff in Hv as (_ & Hseg & _).
  rewrite Ha in Hseg. unfold segment_ok in Hseg. by rewrite Hseg.
Qed.
End durability.

(** ** Properties *)

Section properties.
Context (sha : json → string).

(** the store fails closed: any write that does not return leaves the
    memory as it was and the store unusable, and an unusable store answers
    every call with ReplacementStoreUnavailable and changes nothing. *)
Theorem store_fails_closed w1 w2 r rs gen run d new_gen decision s :
  (∀ sn, w1 ≠ write_ok → ∃ s', commit_state sha w1 sn s = (Raise ReplacementStoreUnavailable, s')
     ∧ st_fatal s' = true ∧ st_snapshot s' = st_snapshot s)
  ∧ (st_fatal s = true →
     persist_record sha w1 r gen s = (Raise ReplacementStoreUnavailable, s)
     ∧ persist_records sha w1 rs run gen d s = (Raise ReplacementStoreUnavailable, s)
     ∧ seal_run sha w1 w2 run gen new_gen decision s = (Raise ReplacementStoreUnavailable, s)
     ∧ exact_completed_run sha run gen new_gen decision s = Raise ReplacementStoreUnavailable
     ∧ store_ready s = false ∧ transition_closed s = false).
Proof.
  split.
  - intros sn Hw. destruct w1; [done|..]; by eexists.
  - intros Hf. unfold persist_record, persist_records, seal_run, exact_completed_run,
      require_integrity, store_ready, transition_closed.
    by rewrite lookup_fatal, Hf.
Qed.

(** a sealed run is final: once [seal_run] returns, sealing again with the
    same evidence returns the same receipt, with other evidence it is a
    conflict, [exact_completed_run] finds the receipt, and no record of the
    run can be looked up or persisted any more; none of these calls writes. *)
Theorem sealed_run_is_final w1 w2 w run gen new_gen decision s x s' r g' :
  store_inv sha s → new_gen ≠ "" →
  seal_run sha w1 w2 run gen new_gen decision s = (Ok x, s') →
  store_inv sha s'
  ∧ (∀ v1 v2 ng d, seal_run sha v1 v2 run gen ng d s' =
       ((if decide (ng = new_gen ∧ d = decision) then Ok x else Raise ReplacementConflict), s'))
  ∧ exact_completed_run sha run gen new_gen decision s' = Ok (Some x)
  ∧ (rr_restart_run_id r = run →
     persist_record sha w r g' s' = (Raise RetiredReplacementRun, s')).
Proof.
  intros Hinv Hng Hs. assert (store_inv sha s') as Hinv'.
  { pose proof (seal_run_inv sha w1 w2 run gen new_gen decision s Hinv Hng) as Hi.
    by rewrite Hs in Hi. }
  destruct (seal_run_seals sha _ _ _ _ _ _ _ _ _ Hinv Hng Hs) as (Hf & Hx & H1 & H2 & H3).
  split_and!; [done| | |].
  - intros v1 v2 ng d. unfold seal_run, require_integrity. rewrite Hf, Hx, H1, H2, H3.
    rewrite (bool_decide_false (_ ≠ digest _ _)) by (intros Hne; by apply Hne). simpl.
    case_decide as Hd.
    + destruct Hd as [-> ->].
      by rewrite !bool_decide_false by (intros Hne; by apply Hne).
    + case_bool_decide; [done|]. case_bool_decide; [done|]. naive_solver.
  - unfold exact_completed_run, require_integrity. rewrite Hf, Hx, H1, H2, H3.
    by rewrite !bool_decide_false by (intros Hne; by apply Hne).
  - intros Hr. unfold persist_record, lookup_record, require_integrity.
    by rewrite Hf, (sealed_run_no_record sha s' run x r Hinv' Hf Hx Hr), Hr, Hx.
Qed.

(** a stored decision is immutable: persisting a record and persisting it
    again returns the stored record without a write, whatever the disk would
    do; a different record under its key, or a record of another key for the
    same lease, is a conflict. *)
Theorem decision_is_immutable w w' r r' gen s s' :
  persist_record sha w r gen s = (Ok (r, true), s') →
  persist_record sha w' r gen s' = (Ok (r, false), s')
  ∧ (rr_key r' = rr_key r → r' ≠ r →
     persist_record sha w' r' gen s' = (Raise ReplacementConflict, s'))
  ∧ (rr_lease r' = rr_lease r → rr_key r' ≠ rr_key r →
     ∀ q, (persist_record sha w' r' gen s').1 ≠ Ok (q, true)).
Proof.
  intros Hp. destruct (persist_record_stored sha w r gen s s' Hp) as (Hf & Hg & Hin).
  split_and!.
  - unfold persist_record, lookup_record, require_integrity. rewrite Hf, Hg.
    by rewrite bool_decide_false by (intros Hne; by apply Hne).
  - intros Hk Hne. unfold persist_record, lookup_record, require_integrity.
    rewrite Hf, Hk, Hg. by rewrite bool_decide_true by congruence.
  - intros Hl Hk q. unfold persist_record.
    destruct (lookup_record sha r' gen s') as [[]|]; [done| |done].
    case_bool_decide; [done|].
    assert (existsb (lease_clash r') (dvalues (sn_records (st_snapshot s'))) = true) as ->; [|done].
    apply existsb_exists. exists r. split; [by apply list_elem_of_In|].
    unfold lease_clash. rewrite Hl. by rewrite !bool_decide_true.
Qed.

Context (repr : json → string) (int_of_str : string → option Z).



(** sealing survives a crash between its two writes: if the seal was
    written beside its segment and the second write did not happen, or
    happened but its directory sync raised, the next process either finishes
    the collection or finds it done, and holds exactly the snapshot an
    uninterrupted [seal_run] leaves. *)
Theorem seal_crash_recovers w2 run gen new_gen decision s x s_ok s' :
  store_inv sha s → new_gen ≠ "" → seal_for_run run (st_snapshot s) = None →
  seal_run sha write_ok write_ok run gen new_gen decision s = (Ok x, s_ok) →
  w2 = write_failed ∨ w2 = write_replaced →
  open_store sha repr int_of_str (max_records_per_run s) (seal_retention s)
    (st_disk (seal_run sha write_ok w2 run gen new_gen decision s).2) write_ok = Ok s' →
  st_fatal s' = false ∧ st_snapshot s' = st_snapshot s_ok
  ∧ seal_for_run run (st_snapshot s') = Some x.
Proof.
  intros Hinv Hng Hseal Hok Hw Ho.
  edestruct seal_run_seals as (Hfok & Hxok & _); [exact Hinv|exact Hng|exact Hok|].
  assert (st_fatal s = false) as Hf.
  { destruct (st_fatal s) eqn:Hf; [|done].
    unfold seal_run, require_integrity in Hok. by rewrite Hf in Hok. }
  destruct (seal_run_past_guards sha write_ok write_ok run gen new_gen decision s x s_ok Hf Hseal Hok)
    as (a & Hv & Ha).
  rewrite (seal_run_fresh sha write_ok write_ok run gen new_gen decision s a Hf Hseal Hv Ha) in Hok.
  rewrite (seal_run_fresh sha write_ok w2 run gen new_gen decision s a Hf Hseal Hv Ha) in Ho.
  destruct (store_inv_wf sha s Hinv Hf) as (Hwf & Hu & Ht).
  pose proof (validate_Ok sha _ _ _ _ Hv) as (Hrun & _ & Hact).
  destruct (Hact a Ha) as (Hr1 & Hr2 & Hr3).
  destruct (sealed_snapshots sha (max_records_per_run s) (seal_retention s) (st_snapshot s) a run
    gen new_gen decision) as (Hw1 & Hg1 & Hw2 & Hu2 & Hx1 & Hx2); try done; [apply Hinv|].
  cbv zeta in *. set (sn1 := mkSnapshot (Some a) _ _ _) in *.
  set (sn2 := mkSnapshot None _ _ _) in *. simpl in Hok, Ho. simplify_eq.
  assert (st_snapshot s' = sn2 ∧ st_fatal s' = false) as [-> ->]; [|done].
  destruct Hw as [-> | ->]; simpl in Ho; rewrite Ht in Ho.
  - eapply (reopen_sealed sha repr int_of_str (max_records_per_run s) (seal_retention s) sn1 a);
      [apply Hinv|apply Hinv|done|done|done|exact Hxok|exact Ho].
  - eapply (reopen_closed sha repr int_of_str (max_records_per_run s) (seal_retention s) sn2);
      [apply Hinv|apply Hinv|done|done|exact Ho].
Qed.
End properties.

(** ** Concrete instances of the properties *)

Definition demo_sha (v : json) : string := "abc".
Definition demo_repr (v : json) : string := "obj".
Definition demo_int (x : string) : option Z := None.
Definition demo_record : ReplacementReleaseRecord :=
  mkReplacementReleaseRecord "c1" "run1" "sha256:ops" "op1" "lease1" ["kv"; "slot"] "sha256:dec".
Definition demo_store : ReplacementDecisionStore :=
  mkStore 8 2 empty_snapshot false (mkDisk None false).
Definition demo_persisted : ReplacementDecisionStore :=
  (persist_record demo_sha write_ok demo_record "gen1" demo_store).2.

Lemma surjective_pairing_ok {A B} (p : A * B) a : p.1 = a → p = (a, p.2).
Proof. by destruct p; simpl; intros ->. Qed.

Lemma demo_persisted_inv : store_inv demo_sha demo_persisted.
Proof.
  apply persist_record_inv; [|done]. eapply (fresh_disk_inv _ demo_repr demo_int 8 2 write_ok).
  reflexivity.
Qed.



Lemma store_fails_closed_witness :
  persist_record demo_sha write_ok demo_record "gen1" (set_fatal true demo_store)
  = (Raise ReplacementStoreUnavailable, set_fatal true demo_store).
Proof.
  apply (store_fails_closed demo_sha write_ok write_ok demo_record [] "gen1" "run1" None
           "gen2" "d" (set_fatal true demo_store)). reflexivity.
Defined.

Lemma seal_crash_recovers_witness :
  ∃ x s', open_store demo_sha demo_repr demo_int 8 2
      (st_disk (seal_run demo_sha write_ok write_failed "run1" "gen1" "gen2" "sha256:dec"
                  demo_persisted).2) write_ok = Ok s'
    ∧ seal_for_run "run1" (st_snapshot s') = Some x.
Proof.
  eexists _, _. split; [vm_compute; reflexivity|].
  eapply (seal_crash_recovers demo_sha demo_repr demo_int write_failed "run1" "gen1" "gen2"
            "sha256:dec" demo_persisted).
  - apply demo_persisted_inv.
  - done.
  - reflexivity.
  - vm_compute. reflexivity.
  - by left.
  - vm_compute. reflexivity.
Defined.

Lemma sealed_run_is_final_witness :
  (persist_record demo_sha write_ok demo_record "gen1"
     (seal_run demo_sha write_ok write_ok "run1" "gen1" "gen2" "sha256:dec" demo_persisted).2).1
  = Raise RetiredReplacementRun.
Proof.
  edestruct (sealed_run_is_final demo_sha write_ok write_ok write_ok "run1" "gen1" "gen2"
    "sha256:dec" demo_persisted) as (_ & _ & _ & Hp).
  - apply demo_persisted_inv.
  - done.
  - apply surjective_pairing_ok. vm_compute. reflexivity.
  - by rewrite Hp.
Defined.

Lemma decision_is_immutable_witness :
  persist_record demo_sha write_failed demo_record "gen1" demo_persisted
  = (Ok (demo_record, false), demo_persisted).
Proof.
  apply (decision_is_immutable demo_sha write_ok write_failed demo_record demo_record "gen1"
           demo_store demo_persisted).
  vm_compute. reflexivity.
Defined.
