(* ===== verification/Reconciler.v ===== *)
(** * The prefix reconciler (router/reconciler.py)

    Keeps the prefix index in step with the workers' caches: a full report
    registers the gateway and gives a snapshot, later events are peeked,
    applied, and acknowledged once applied.

    The workers and the network are a state [E] of which nothing is assumed;
    each RPC is a function of it that returns or raises, and a cancellation is
    an RPC that raises [CancelledError].  The reconciler is driven by one task
    (its owner cancels that task before it builds another), so nothing else
    writes its fields between two awaits.  [dumps] is [json.dumps(...,
    sort_keys=True)], used only to order locations, and [sha] the digest of a
    canonical value; nothing is assumed of either.  The counts fetched for the
    metrics are not kept, but the RPC that fetches them may raise. *)

From S2P Require Import Prelude PyDict Json PrefixIndex.
From stdpp Require Import prelude gmap strings sorting.

Local Open Scope Z_scope.

Record PrefixReport := mkPrefixReport {
  pr_instance_id : string;
  pr_instance_epoch : string;
  pr_snapshot_seq_no : Z;
  pr_locations : list CacheLocation }.

Record PrefixWorldReportEvidence := mkPrefixWorldReportEvidence {
  pe_instance_id : string;
  pe_instance_epoch : string;
  pe_snapshot_seq_no : Z;
  pe_location_count : Z;
  pe_content_digest : string }.

Record PrefixWorldPublication := mkPrefixWorldPublication {
  pub_consumer_id : string;
  pub_generation : string;
  pub_reports : list PrefixWorldReportEvidence }.

(** [d1 == d2] for dictionaries of strings. *)
Definition dict_eqb (d1 d2 : odict string string) : bool :=
  bool_decide ((list_to_map d1 : gmap string string) = list_to_map d2).

Definition matches (p : PrefixWorldPublication) (expected : odict string string) : bool :=
  dict_eqb (dict_of ((λ v, (pe_instance_id v, pe_instance_epoch v)) <$> pub_reports p)) expected.

Section reconciler.
Context {E : Type} (dumps sha : json → string) (uuid : E → string).

(** What the reconciler calls; [resource_counts] is [None] without metrics. *)
Record PrefixDirectoryRPC := mkRPC {
  full_report_and_register : string → string → string → E → result exn PrefixReport * E;
  peek_events : string → string → string → Z → Z → E → result exn (list PrefixEvent) * E;
  ack_events : string → string → string → Z → E → result exn unit * E;
  resource_counts : option (string → E → result exn unit * E) }.

Context (rpc : PrefixDirectoryRPC).

Record PrefixReconciler := mkPrefixReconciler {
  rc_index : PrefixIndex;
  rc_consumer_id : string;
  rc_generation : string;
  rc_owners : odict string (string * Z);
  rc_expected_epochs : odict string string;
  rc_publication : option PrefixWorldPublication;
  rc_env : E }.

#[local] Instance PrefixReconciler_eta : Eta PrefixReconciler := λ r,
  mkPrefixReconciler (rc_index r) (rc_consumer_id r) (rc_generation r) (rc_owners r)
    (rc_expected_epochs r) (rc_publication r) (rc_env r).

Definition set_rc_index (v : PrefixIndex) (r : PrefixReconciler) : PrefixReconciler :=
  ltac:(with_field r rc_index v).
Definition set_generation (v : string) (r : PrefixReconciler) : PrefixReconciler :=
  ltac:(with_field r rc_generation v).
Definition set_owners (v : odict string (string * Z)) (r : PrefixReconciler) : PrefixReconciler :=
  ltac:(with_field r rc_owners v).
Definition set_expected_epochs (v : odict string string) (r : PrefixReconciler) :
  PrefixReconciler := ltac:(with_field r rc_expected_epochs v).
Definition set_publication (v : option PrefixWorldPublication) (r : PrefixReconciler) :
  PrefixReconciler := ltac:(with_field r rc_publication v).
Definition set_env (v : E) (r : PrefixReconciler) : PrefixReconciler :=
  ltac:(with_field r rc_env v).

Definition new_PrefixReconciler (index : PrefixIndex) (consumer_id generation : string) (e : E) :
    PrefixReconciler := mkPrefixReconciler index consumer_id generation [] [] None e.

(** An awaited call, and a call on the index. *)
Definition await {A} (f : E → result exn A * E) : method PrefixReconciler A := λ r,
  let '(x, e) := f (rc_env r) in (x, set_env e r).
Definition index_try {A} (m : method PrefixIndex A) : method PrefixReconciler A := λ r,
  let '(x, p) := m (rc_index r) in (x, set_rc_index p r).
Definition index_do (f : PrefixIndex → PrefixIndex) : method PrefixReconciler unit :=
  modify (λ r, set_rc_index (f (rc_index r)) r).

(** [_report_digest] *)
Definition location_value (l : CacheLocation) : json :=
  JObj [("instance_id", JStr (cl_instance_id l));
        ("instance_epoch", JStr (cl_instance_epoch l));
        ("namespace", JStr (cl_namespace l));
        ("kv_compatibility_id", JStr (cl_kv_compatibility_id l));
        ("request_context_digest", JStr (cl_request_context_digest l));
        ("chain_hash", JInt (cl_chain_hash l));
        ("block_index", JInt (cl_block_index l));
        ("block_id", JInt (cl_block_id l));
        ("prefix_tokens", JInt (cl_prefix_tokens l))].

Definition report_digest (rep : PrefixReport) : string :=
  ("sha256:" +:+ sha (canonical (JObj
     [("instance_id", JStr (pr_instance_id rep));
      ("instance_epoch", JStr (pr_instance_epoch rep));
      ("snapshot_seq_no", JInt (pr_snapshot_seq_no rep));
      ("locations", JList (sort_by String.le dumps (location_value <$> pr_locations rep)))])))%string.

(** [{i: epoch for i, (epoch, _) in self._owners.items()}] *)
Definition owner_epochs (r : PrefixReconciler) : odict string string :=
  (λ kv, (kv.1, kv.2.1)) <$> rc_owners r.

Definition world_ready (expected : odict string string) (r : PrefixReconciler) : bool :=
  dict_eqb (owner_epochs r) expected
  && match rc_publication r with None => false | Some p => matches p expected end.

(** [asyncio.gather]: every call runs to its end, and the first exception is
    the one raised. *)
Fixpoint gather {A B} (f : A → E → result exn B * E) (l : list A) (e : E) :
    result exn (list B) * E :=
  match l with
  | [] => (Ok [], e)
  | a :: l' =>
      let '(x, e1) := f a e in
      let '(xs, e2) := gather f l' e1 in
      (match x, xs with
       | Ok b, Ok bs => Ok (b :: bs)
       | Raise c, _ => Raise c
       | _, Raise c => Raise c
       end, e2)
  end.

(** The loop of [rebuild_world] over [zip(instances, reports)]. *)
Fixpoint check_reports (expected : odict string string)
    (l : list (string * PrefixReport)) (by_instance : odict string PrefixReport) :
    result exn (odict string PrefixReport) :=
  match l with
  | [] => Ok by_instance
  | (requested, rep) :: l' =>
      if bool_decide (pr_instance_id rep ≠ requested) then Raise ValueError
      else match dget requested expected with
      | None => Raise KeyError
      | Some epoch =>
          if bool_decide (pr_instance_epoch rep ≠ epoch) then Raise ValueError
          else if dmem (pr_instance_id rep) by_instance then Raise ValueError
          else check_reports expected l' (dset (pr_instance_id rep) rep by_instance)
      end
  end.

Definition evidence (rep : PrefixReport) : PrefixWorldReportEvidence :=
  mkPrefixWorldReportEvidence (pr_instance_id rep) (pr_instance_epoch rep)
    (pr_snapshot_seq_no rep) (Z.of_nat (length (pr_locations rep))) (report_digest rep).

Definition report_owner (rep : PrefixReport) : Owner := (pr_instance_id rep, pr_instance_epoch rep).

Definition install_entry (rep : PrefixReport) : Owner * Z * list CacheLocation :=
  (report_owner rep, pr_snapshot_seq_no rep, pr_locations rep).

Definition rebuild_world (expected : odict string string) :
    method PrefixReconciler PrefixWorldPublication :=
  if bool_decide (expected = []) then raise ValueError
  else
    let instances := sort_by String.le id (dkeys expected) in
    r ← read;
    reports ← await (gather (λ i, full_report_and_register rpc i (rc_consumer_id r)
                                    (rc_generation r)) instances);
    by_instance ← (λ r, (check_reports expected (zip instances reports) [], r));
    _ ← index_try (install_world_full_reports (install_entry <$> dvalues by_instance)
                     (list_to_set expected));
    _ ← modify (set_owners (dict_of
          ((λ rep, (pr_instance_id rep, (pr_instance_epoch rep, pr_snapshot_seq_no rep)))
             <$> dvalues by_instance)));
    _ ← modify (set_expected_epochs expected);
    match mapM (λ name, dget name by_instance) instances with
    | None => raise KeyError
    | Some ordered =>
        let publication := mkPrefixWorldPublication (rc_consumer_id r) (rc_generation r)
                             (evidence <$> ordered) in
        _ ← modify (set_publication (Some publication));
        mret publication
    end.

Definition rebuild (instance_id : string) : method PrefixReconciler Z :=
  r ← read;
  rep ← await (full_report_and_register rpc instance_id (rc_consumer_id r) (rc_generation r));
  if bool_decide (pr_instance_id rep ≠ instance_id) then raise ValueError
  else
    _ ← index_do (remove_instance instance_id);
    _ ← index_try (install_full_report (report_owner rep) (pr_snapshot_seq_no rep)
                     (pr_locations rep));
    _ ← modify (λ r, set_owners (dset instance_id
          (pr_instance_epoch rep, pr_snapshot_seq_no rep) (rc_owners r)) r);
    _ ← modify (λ r, set_expected_epochs (dset instance_id (pr_instance_epoch rep)
          (rc_expected_epochs r)) r);
    mret (pr_snapshot_seq_no rep).

(** [next(v.snapshot_seq_no for v in publication.reports if ...)]: the
    StopIteration of a missing instance surfaces as a RuntimeError. *)
Definition published_seq (instance_id : string) (p : PrefixWorldPublication) : result exn Z :=
  match filter (λ v, pe_instance_id v = instance_id) (pub_reports p) with
  | v :: _ => Ok (pe_snapshot_seq_no v)
  | [] => Raise RuntimeError
  end.

Definition rebuild_world_for (instance_id : string) (expected : odict string string) :
    method PrefixReconciler Z :=
  publication ← rebuild_world expected;
  (λ r, (published_seq instance_id publication, r)) : method PrefixReconciler Z.

(** [self.index.clear()], [self._owners.clear()] and
    [self.world_publication = None] *)
Definition forget_world : method PrefixReconciler unit :=
  _ ← index_do clear;
  _ ← modify (set_owners []);
  modify (set_publication None).

(** [self.index.remove_instance(i)] and [self._owners.pop(i, None)] *)
Definition forget_instance (instance_id : string) : method PrefixReconciler unit :=
  _ ← index_do (remove_instance instance_id);
  modify (λ r, set_owners (dpop instance_id (rc_owners r)) r).

Definition fresh_generation : method PrefixReconciler unit :=
  modify (λ r, set_generation (uuid (rc_env r)) r).

(** The [except (FullReportRequired, ValueError)] branch of [sync_once]. *)
Definition resynchronise (instance_id : string) : method PrefixReconciler Z :=
  r ← read;
  let expected := if bool_decide (rc_expected_epochs r = []) then owner_epochs r
                  else rc_expected_epochs r in
  if bool_decide (1 < length expected)%nat then
    _ ← forget_world;
    _ ← fresh_generation;
    rebuild_world_for instance_id expected
  else
    _ ← forget_instance instance_id;
    _ ← modify (set_publication None);
    _ ← fresh_generation;
    rebuild instance_id.

(** The [try] of [sync_once]. *)
Definition poll_events (instance_id epoch : string) (cursor limit : Z) :
    method PrefixReconciler Z :=
  r ← read;
  events ← await (peek_events rpc instance_id (rc_consumer_id r) (rc_generation r) cursor limit);
  applied ← index_try (apply_events (instance_id, epoch) events);
  _ ← await (ack_events rpc instance_id (rc_consumer_id r) (rc_generation r) applied);
  _ ← modify (λ r, set_owners (dset instance_id (epoch, applied) (rc_owners r)) r);
  mret applied.

Definition catch_gap {A} (m h : method PrefixReconciler A) : method PrefixReconciler A := λ r,
  match m r with
  | (Raise FullReportRequired, r') | (Raise ValueError, r') => h r'
  | res => res
  end.

Definition fetch_counts (instance_id : string) : method PrefixReconciler unit :=
  match resource_counts rpc with
  | None => mret tt
  | Some f => await (f instance_id)
  end.

Definition sync_once (instance_id : string) (limit : Z) : method PrefixReconciler Z :=
  r ← read;
  if bool_decide (rc_publication r = None ∧ (1 < length (rc_expected_epochs r))%nat)
  then rebuild_world_for instance_id (rc_expected_epochs r)
  else
    _ ← fetch_counts instance_id;
    r ← read;
    match dget instance_id (rc_owners r) with
    | None => rebuild instance_id
    | Some (epoch, cursor) =>
        catch_gap (poll_events instance_id epoch cursor limit) (resynchronise instance_id)
    end.

(** One instance of [run]: every exception but a cancellation is contained,
    and the directory it leaves uncertain is dropped. *)
Definition run_instance (limit : Z) (instance_id : string) : method PrefixReconciler unit := λ r,
  match sync_once instance_id limit r with
  | (Ok _, r') => (Ok tt, r')
  | (Raise CancelledError, r') => (Raise CancelledError, r')
  | (Raise _, r') =>
      if bool_decide (1 < length (rc_expected_epochs r'))%nat then forget_world r'
      else forget_instance instance_id r'
  end.

Fixpoint run_instances (limit : Z) (instances : list string) : method PrefixReconciler unit :=
  match instances with
  | [] => mret tt
  | i :: l => _ ← run_instance limit i; run_instances limit l
  end.

(** [run] for the rounds it gets, with the instances of each. *)
Fixpoint run (limit : Z) (rounds : list (list string)) : method PrefixReconciler unit :=
  match rounds with
  | [] => mret tt
  | instances :: rounds' => _ ← run_instances limit instances; run limit rounds'
  end.
End reconciler.

(** ** What a worker's cache holds *)

(** The gateway stamps a location when it receives it; two receipts of one
    location differ in nothing else. *)
Definition erase (l : CacheLocation) : CacheLocation :=
  mkCacheLocation (cl_instance_id l) (cl_instance_epoch l) (cl_namespace l)
    (cl_kv_compatibility_id l) (cl_request_context_digest l) (cl_chain_hash l)
    (cl_block_index l) (cl_block_id l) (cl_prefix_tokens l) 0.

Definition erase_event (e : PrefixEvent) : PrefixEvent :=
  mkPrefixEvent (ev_kind e) (erase (ev_location e)) (ev_seq_no e).

(** A worker's cache after the first [n] events of its log. *)
Definition cache_at (log : list PrefixEvent) (n : nat) : gset CacheLocation :=
  abs_events (take n log) ∅.

(** What a set of locations says of one worker incarnation. *)
Definition view (o : Owner) (A : gset CacheLocation) : gset CacheLocation :=
  set_map erase (filter (λ l, owner_of l = o) A).

Lemma elem_of_view o A x :
  x ∈ view o A ↔ ∃ l, x = erase l ∧ l ∈ A ∧ owner_of l = o.
Proof. unfold view. rewrite elem_of_map. setoid_rewrite elem_of_filter. naive_solver. Qed.

Lemma view_event o e A :
  owner_of (ev_location e) = o → view o (abs_event e A) = abs_event (erase_event e) (view o A).
Proof.
  intros Ho. apply set_eq. intros x. unfold abs_event. simpl.
  destruct (ev_kind e); simpl; [| |done].
  - rewrite elem_of_union, elem_of_singleton, !elem_of_view.
    setoid_rewrite elem_of_union. setoid_rewrite elem_of_singleton. split.
    + intros (l & -> & [->|?] & ?); eauto.
    + intros [->|(l & -> & ? & ?)]; eauto 6.
  - rewrite elem_of_filter, !elem_of_view. setoid_rewrite elem_of_filter. split.
    + intros (l & -> & [Hv ?] & ?). split; [|eauto]. intros Hx. by apply Hv.
    + intros [Hv (l & -> & ? & ?)]. exists l. split_and!; [done| |done|done].
      intros Hx. by apply Hv.
Qed.

Lemma view_event_other o e A :
  owner_of (ev_location e) ≠ o → view o (abs_event e A) = view o A.
Proof.
  intros Ho. apply set_eq. intros x. rewrite !elem_of_view. unfold abs_event, victim.
  destruct (ev_kind e); [| |done].
  - setoid_rewrite elem_of_union. setoid_rewrite elem_of_singleton. split.
    + intros (l & -> & [->|?] & ?); [done|eauto].
    + intros (l & -> & ? & ?); eauto 6.
  - setoid_rewrite elem_of_filter. split.
    + intros (l & -> & [? ?] & ?); eauto.
    + intros (l & -> & ? & Hl). exists l. split_and!; [done| |done|done].
      intros (_ & ? & _). congruence.
Qed.

Lemma view_events o es A :
  Forall (λ e, owner_of (ev_location e) = o) es →
  view o (abs_events es A) = abs_events (erase_event <$> es) (view o A)
  ∧ ∀ o', o' ≠ o → view o' (abs_events es A) = view o' A.
Proof.
  intros Hes. revert A. induction Hes as [|e es He Hes IH]; intros A; [done|].
  rewrite fmap_cons, !abs_events_cons. destruct (IH (abs_event e A)) as [-> Hother]. split.
  - by rewrite view_event.
  - intros o' Ho'. rewrite Hother by done. apply view_event_other. congruence.
Qed.

(** The events the index acts on are the next ones of the log, when those it
    was sent are events of the log. *)
Definition from_log (log : list PrefixEvent) (e : PrefixEvent) : Prop :=
  1 ≤ ev_seq_no e ∧ log !! Z.to_nat (ev_seq_no e - 1) = Some (erase_event e).

Lemma effective_owner o c es : Forall (λ e, owner_of (ev_location e) = o) (effective o c es).1.
Proof.
  revert c. induction es as [|e es IH]; intros c; simpl; [done|].
  case_decide as Ho; [done|]. case_bool_decide; [done|]. case_bool_decide; [done|].
  specialize (IH (ev_seq_no e)).
  destruct (ev_kind e); [| |done]; destruct (effective o (ev_seq_no e) es); by constructor.
Qed.

Lemma effective_log log o c es c' :
  Forall (λ e, owner_of (ev_location e) = o → from_log log e) es →
  0 ≤ c ≤ Z.of_nat (length log) → (effective o c es).2 = Ok c' →
  c ≤ c' ≤ Z.of_nat (length log)
  ∧ take (Z.to_nat c') log = take (Z.to_nat c) log ++ (erase_event <$> (effective o c es).1).
Proof.
  intros Hes. revert c. induction Hes as [|e es He Hes IH]; intros c Hc; simpl.
  { intros [= <-]. split; [lia|]. by rewrite app_nil_r. }
  case_decide as Ho; [done|]. case_bool_decide; [by apply IH|].
  case_bool_decide as Hseq; [done|].
  destruct (He Ho) as [_ Hl]. pose proof (lookup_lt_Some _ _ _ Hl) as Hlt.
  specialize (IH (ev_seq_no e) ltac:(lia)).
  assert (take (Z.to_nat (ev_seq_no e)) log = take (Z.to_nat c) log ++ [erase_event e]) as Ht.
  { replace (Z.to_nat (ev_seq_no e)) with (S (Z.to_nat c)) by lia.
    apply take_S_r. rewrite <- Hl. f_equal. lia. }
  destruct (ev_kind e); [| |done]; destruct (effective o (ev_seq_no e) es) as [eff r];
    simpl in *; intros Hr; destruct (IH Hr) as [? ->]; (split; [lia|]);
    by rewrite Ht, <- (assoc_L _ _ [_]).
Qed.

Lemma cache_at_mono log log' n :
  log `prefix_of` log' → (n ≤ length log)%nat → cache_at log' n = cache_at log n.
Proof. intros [k ->] ?. unfold cache_at. by rewrite take_app_le. Qed.

Lemma cache_at_step log n n' es :
  take n' log = take n log ++ es → cache_at log n' = abs_events es (cache_at log n).
Proof. unfold cache_at, abs_events. intros ->. by rewrite foldl_app. Qed.

(** ** The contract of the workers, and coherence *)

Definition world_log : Type := Owner → list PrefixEvent.

Definition log_le (g g' : world_log) : Prop := ∀ o, g o `prefix_of` g' o.

#[export] Instance log_le_preorder : PreOrder log_le.
Proof. split; [intros x o; reflexivity|]. intros x y z H1 H2 o. etrans; [apply H1|apply H2]. Qed.

(** A report is the cache at some point of the log. *)
Definition honest_report (g : world_log) (rep : PrefixReport) : Prop :=
  0 ≤ pr_snapshot_seq_no rep ≤ Z.of_nat (length (g (report_owner rep)))
  ∧ set_map erase (list_to_set (pr_locations rep) : gset CacheLocation)
    = cache_at (g (report_owner rep)) (Z.to_nat (pr_snapshot_seq_no rep)).

(** Peeked events are events of the log, in any order and with any gap. *)
Definition honest_events (g : world_log) (es : list PrefixEvent) : Prop :=
  Forall (λ e, from_log (g (owner_of (ev_location e))) e) es.

Record honest {E} (rpc : @PrefixDirectoryRPC E) (log : E → world_log) : Prop := {
  h_full i c g e : let '(x, e') := full_report_and_register rpc i c g e in
    log_le (log e) (log e') ∧ ∀ rep, x = Ok rep → honest_report (log e') rep;
  h_peek i c g n k e : let '(x, e') := peek_events rpc i c g n k e in
    log_le (log e) (log e') ∧ ∀ es, x = Ok es → honest_events (log e') es;
  h_ack i c g n e : log_le (log e) (log (ack_events rpc i c g n e).2);
  h_counts f i e : resource_counts rpc = Some f → log_le (log e) (log (f i e).2) }.

(** The directory is right about the instances [P] holds of: the index is at
    the recorded cursor, says of the incarnation what its cache held there,
    and knows no other incarnation. *)
Record coherent_on (P : string → Prop) (g : world_log) (p : PrefixIndex)
    (owners : odict string (string * Z)) : Prop := {
  co_wf : pi_wf p;
  co_view i e c : P i → dget i owners = Some (e, c) →
    cursor_of (i, e) p = c ∧ 0 ≤ c ≤ Z.of_nat (length (g (i, e)))
    ∧ view (i, e) (abs p) = cache_at (g (i, e)) (Z.to_nat c);
  co_known l : P (cl_instance_id l) → l ∈ abs p →
    ∃ c, dget (cl_instance_id l) owners = Some (cl_instance_epoch l, c) }.

Definition coherent := coherent_on (λ _, True).

Lemma coherent_weaken (P Q : string → Prop) g p ow :
  (∀ i, Q i → P i) → coherent_on P g p ow → coherent_on Q g p ow.
Proof. intros HPQ [? Hv Hk]. split; [done|eauto|eauto]. Qed.

Lemma coherent_mono P g g' p ow :
  log_le g g' → coherent_on P g p ow → coherent_on P g' p ow.
Proof.
  intros Hg [? Hv Hk]. split; [done| |done]. intros i e c HP Hd.
  destruct (Hv i e c HP Hd) as (? & Hc & ->). specialize (Hg (i, e)).
  pose proof (prefix_length _ _ Hg). split_and!; [done|lia|lia|].
  symmetry. apply cache_at_mono; [done|lia].
Qed.

Lemma honest_report_mono g g' rep :
  log_le g g' → honest_report g rep → honest_report g' rep.
Proof.
  intros Hg [Hc Hr]. specialize (Hg (report_owner rep)). pose proof (prefix_length _ _ Hg).
  split; [lia|]. rewrite Hr. symmetry. apply cache_at_mono; [done|lia].
Qed.

Lemma coherent_forget i g p ow :
  coherent_on (λ j, j ≠ i) g p ow → coherent g (remove_instance i p) (dpop i ow).
Proof.
  intros [Hwf Hv Hk]. destruct (remove_instance_spec i p Hwf) as [Hwf' Ha]. split; [done| |].
  - intros j e c _. rewrite dget_dpop. case_decide as Hj; [done|]. intros Hd.
    destruct (Hv j e c Hj Hd) as (Hcur & Hc & Hview). split_and!; [|lia|lia|].
    + rewrite <- Hcur. unfold cursor_of. f_equal. by apply remove_instance_last_seq.
    + rewrite <- Hview, Ha. apply set_eq. intros x. rewrite !elem_of_view.
      setoid_rewrite elem_of_filter. split.
      * intros (l & -> & [_ ?] & ?). eauto.
      * intros (l & -> & ? & Hl). exists l. split_and!; [done| |done|done].
        unfold owner_of in Hl. congruence.
  - intros l _. rewrite Ha, elem_of_filter. intros [Hi Hl]. rewrite dget_dpop_ne by done. eauto.
Qed.

Lemma coherent_empty P g p : coherent_on P g (clear p) [].
Proof. split; [apply init_wf|done|]. intros l _. by rewrite clear_abs. Qed.

Lemma abs_events_other o es A l :
  Forall (λ e, owner_of (ev_location e) = o) es → owner_of l ≠ o →
  l ∈ abs_events es A ↔ l ∈ A.
Proof.
  intros Hes Hl. revert A. induction Hes as [|e es He Hes IH]; intros A; [done|].
  rewrite abs_events_cons, IH. unfold abs_event, victim.
  destruct (ev_kind e); [rewrite elem_of_union, elem_of_singleton|rewrite elem_of_filter|];
    naive_solver.
Qed.

Lemma owned_prefix_owner o ls : Forall (λ l, owner_of l = o) (owned_prefix o ls).1.
Proof.
  induction ls as [|l ls IH]; simpl; [done|]. case_decide; [done|].
  destruct (owned_prefix o ls). by constructor.
Qed.

(** A change of one instance's part of the index leaves the others right. *)
Lemma coherent_except i g p p' ow :
  coherent_on (λ j, j ≠ i) g p ow → pi_wf p' →
  (∀ o, o.1 ≠ i → cursor_of o p' = cursor_of o p) →
  (∀ l, cl_instance_id l ≠ i → l ∈ abs p' ↔ l ∈ abs p) →
  coherent_on (λ j, j ≠ i) g p' ow.
Proof.
  intros [_ Hv Hk] Hwf Hcur Habs. split; [done| |].
  - intros j e c Hj Hd. destruct (Hv j e c Hj Hd) as (<- & Hc & <-).
    split_and!; [by apply Hcur|lia|lia|]. apply set_eq. intros x. rewrite !elem_of_view.
    split; intros (l & -> & Hl & Ho); exists l; (split_and!; [done| |done]).
    all: apply Habs; [unfold owner_of in Ho; congruence|done].
  - intros l Hi Hl. apply Hk; [done|]. by apply Habs.
Qed.

(** ... and the directory is right again once the instance's part is. *)
Lemma coherent_set i e c g p ow :
  coherent_on (λ j, j ≠ i) g p ow →
  cursor_of (i, e) p = c → 0 ≤ c ≤ Z.of_nat (length (g (i, e))) →
  view (i, e) (abs p) = cache_at (g (i, e)) (Z.to_nat c) →
  (∀ l, l ∈ abs p → cl_instance_id l = i → cl_instance_epoch l = e) →
  coherent g p (dset i (e, c) ow).
Proof.
  intros [Hwf Hv Hk] Hcur Hc Hview Hown. split; [done| |].
  - intros j e' c' _. rewrite dget_dset. case_decide as Hj; [|by apply Hv].
    intros [= <- <-]. by subst j.
  - intros l _ Hl. rewrite dget_dset. case_decide as Hi; [|by apply Hk].
    exists c. by rewrite (Hown l).
Qed.

Lemma install_report_coherent i rep g p ow :
  pr_instance_id rep = i → coherent_on (λ j, j ≠ i) g p ow → honest_report g rep →
  let '(x, p') := install_full_report (report_owner rep) (pr_snapshot_seq_no rep)
                    (pr_locations rep) (remove_instance i p) in
  coherent_on (λ j, j ≠ i) g p' ow
  ∧ (is_ok x = true →
     coherent g p' (dset i (pr_instance_epoch rep, pr_snapshot_seq_no rep) ow)).
Proof.
  intros Hi Hco [Hseq Hloc]. pose proof (co_wf _ _ _ _ Hco) as Hwf.
  destruct (remove_instance_spec i p Hwf) as [Hwf1 Ha1].
  pose proof (install_full_report_spec (report_owner rep) (pr_snapshot_seq_no rep)
                (pr_locations rep) _ Hwf1) as Hs.
  destruct (install_full_report _ _ _ _) as [x p']. destruct Hs as (Hx & Hwf' & Ha & Hls).
  pose proof (owned_prefix_owner (report_owner rep) (pr_locations rep)) as Hown.
  rewrite Forall_forall in Hown.
  assert (coherent_on (λ j, j ≠ i) g p' ow) as Hex.
  { apply (coherent_except i g p); [done|done| |].
    - intros o Ho. unfold cursor_of. f_equal. rewrite Hls.
      assert (report_owner rep ≠ o) by (intros <-; by apply Ho).
      destruct (is_ok x); [rewrite lookup_insert_ne by done|rewrite lookup_delete_ne by done];
        by apply remove_instance_last_seq.
    - intros l Hl. rewrite Ha, elem_of_union, elem_of_filter, Ha1, elem_of_filter.
      rewrite elem_of_list_to_set. split.
      + intros [[_ [_ ?]]|Hin]; [done|]. apply Hown in Hin. unfold owner_of, report_owner in Hin.
        congruence.
      + intros Hin. left. split_and!; [|done|done]. unfold owner_of, report_owner. congruence. }
  split; [done|]. intros Hok. destruct x as [[]|]; [|done]. rewrite owned_prefix_all in Ha by done.
  destruct (owned_prefix_Ok (report_owner rep) (pr_locations rep)) as [Hall _].
  specialize (Hall (eq_sym Hx)). rewrite Forall_forall in Hall.
  assert (∀ l, l ∈ abs p' → cl_instance_id l = i → l ∈ pr_locations rep) as Hmine.
  { intros l. rewrite Ha, elem_of_union, elem_of_filter, Ha1, elem_of_filter, elem_of_list_to_set.
    naive_solver. }
  assert (report_owner rep = (i, pr_instance_epoch rep)) as Ho by (unfold report_owner; congruence).
  rewrite Ho in *. apply coherent_set; [done| |done| |].
  - unfold cursor_of. rewrite Hls. simpl. by rewrite lookup_insert_eq.
  - rewrite <- Hloc. apply set_eq. intros y. rewrite elem_of_view, elem_of_map.
    setoid_rewrite elem_of_list_to_set. split.
    + intros (l & -> & Hl & Hol). exists l. split; [done|]. apply Hmine; [done|].
      unfold owner_of in Hol. congruence.
    + intros (l & -> & Hl). exists l. split_and!; [done| |by apply Hall].
      rewrite Ha, elem_of_union, elem_of_list_to_set. by right.
  - intros l Hl Hli. specialize (Hall l (Hmine l Hl Hli)). unfold owner_of in Hall. congruence.
Qed.

Lemma apply_events_coherent i e c es g p ow :
  coherent g p ow → dget i ow = Some (e, c) → honest_events g es →
  let '(x, p') := apply_events (i, e) es p in
  coherent_on (λ j, j ≠ i) g p' ow
  ∧ (∀ c', x = Ok c' → coherent g p' (dset i (e, c') ow)).
Proof.
  intros Hco Hd Hes. pose proof (co_wf _ _ _ _ Hco) as Hwf.
  destruct (co_view _ _ _ _ Hco i e c I Hd) as (Hcur & Hc & Hview).
  pose proof (apply_events_spec (i, e) es p Hwf) as Hs.
  destruct (apply_events (i, e) es p) as [x p']. cbv zeta in Hs. rewrite Hcur in Hs.
  destruct Hs as (Hx & Hwf' & Ha & Hls).
  pose proof (effective_owner (i, e) c es) as Hown.
  assert (coherent_on (λ j, j ≠ i) g p' ow) as Hex.
  { apply (coherent_except i g p); [by apply (coherent_weaken (λ _, True))|done| |].
    - intros o Ho. unfold cursor_of. f_equal. rewrite Hls. destruct x; [|done].
      rewrite lookup_insert_ne; [done|]. by intros <-.
    - intros l Hl. rewrite Ha. apply (abs_events_other (i, e)); [done|].
      unfold owner_of. congruence. }
  split; [done|]. intros c' ->.
  destruct (effective_log (g (i, e)) (i, e) c es c') as [Hc' Htake]; [|done|done|].
  { eapply Forall_impl; [exact Hes|]. simpl. by intros ev Hev <-. }
  apply coherent_set; [done| |lia| |].
  - unfold cursor_of. rewrite Hls. by rewrite lookup_insert_eq.
  - destruct (view_events (i, e) (effective (i, e) c es).1 (abs p) Hown) as [Hv _].
    rewrite Ha, Hv, Hview. symmetry. by apply cache_at_step.
  - intros l Hl Hi. destruct (decide (owner_of l = (i, e))) as [Ho|Ho].
    + unfold owner_of in Ho. congruence.
    + rewrite Ha, (abs_events_other (i, e)) in Hl by done.
      destruct (co_known _ _ _ _ Hco l I Hl) as [? Hk]. congruence.
Qed.

Lemma stage_reports_last_seq reports p p' :
  stage_reports reports p = (Ok tt, p') →
  last_seq p' = foldl (λ m rep, <[rep.1.1 := rep.1.2]> m) (last_seq p) reports.
Proof.
  revert p. induction reports as [|[[o seq] ls] reports IH]; intros p; simpl; [by intros [= <-]|].
  case_decide; [done|]. case_bool_decide; [done|].
  pose proof (λ p ls, add_owned_last_seq o ls p) as Hadd.
  set (p1 := set_forward _ p). specialize (Hadd p1 ls).
  destruct (add_owned o ls p1) as [[[]|] p2]; [|done]. simpl in *. intros Hs.
  rewrite (IH _ Hs). simpl. by rewrite Hadd.
Qed.

Lemma foldl_insert_lookup (reports : list (Owner * Z * list CacheLocation))
    (m : gmap Owner Z) rep :
  NoDup (fst ∘ fst <$> reports) → rep ∈ reports →
  foldl (λ m rep, <[rep.1.1 := rep.1.2]> m) m reports !! rep.1.1 = Some rep.1.2.
Proof.
  assert (∀ l (m : gmap Owner Z) o, o ∉ (fst ∘ fst <$> l : list Owner) →
    foldl (λ m rep, <[rep.1.1 := rep.1.2]> m) m (l : list (Owner * Z * list CacheLocation)) !! o
    = m !! o) as Hout.
  { induction l as [|x l IH]; intros m' o Ho; [done|]. simpl in *.
    apply not_elem_of_cons in Ho as [? ?]. rewrite IH by done. by rewrite lookup_insert_ne. }
  intros Hnd Hin. revert m. induction reports as [|x l IH]; intros m; [by apply not_elem_of_nil in Hin|].
  simpl in *. apply NoDup_cons in Hnd as [Hx Hnd]. apply elem_of_cons in Hin as [->|Hin].
  - rewrite Hout by done. by rewrite lookup_insert_eq.
  - by apply IH.
Qed.

Lemma dget_dict_of {V} (l : list (string * V)) k v :
  dget k (dict_of l) = Some v → (k, v) ∈ l.
Proof.
  unfold dict_of. assert (∀ d, dget k (foldl (λ d kv, dset kv.1 kv.2 d) d l) = Some v →
    (k, v) ∈ l ∨ dget k d = Some v) as H.
  { induction l as [|[k0 v0] l IH]; intros d; simpl; [by right|]. intros Hd.
    apply IH in Hd as [?|Hd]; [left; by right|]. rewrite dget_dset in Hd.
    case_decide; simplify_eq; [left; by left|by right]. }
  intros Hd. by apply H in Hd as [?|?].
Qed.

Lemma dict_of_dget {V} (l : list (string * V)) k v :
  NoDup l.*1 → (k, v) ∈ l → dget k (dict_of l) = Some v.
Proof.
  unfold dict_of. generalize ([] : odict string V).
  induction l as [|[k0 v0] l IH]; intros d Hnd Hin; [by apply not_elem_of_nil in Hin|].
  simpl in *. apply NoDup_cons in Hnd as [Hk0 Hnd]. apply elem_of_cons in Hin as [Heq|Hin].
  - simplify_eq. clear IH. assert (∀ d, dget k0 d = Some v0 →
      dget k0 (foldl (λ d kv, dset kv.1 kv.2 d) d l) = Some v0) as H; [|by apply H, dget_dset_eq].
    induction l as [|[k1 v1] l IHl]; intros d' Hd'; [done|]. simpl in *.
    apply not_elem_of_cons in Hk0 as [? ?]. apply NoDup_cons in Hnd as [_ ?].
    apply IHl; [done|done|]. by rewrite dget_dset_ne.
  - by apply IH.
Qed.

Lemma install_world_coherent reps expected g p :
  NoDup (pr_instance_id <$> reps) → Forall (honest_report g) reps →
  let '(x, p') := install_world_full_reports (install_entry <$> reps) expected p in
  if is_ok x
  then coherent g p' (dict_of ((λ rep, (pr_instance_id rep,
         (pr_instance_epoch rep, pr_snapshot_seq_no rep))) <$> reps))
  else p' = p.
Proof.
  intros Hnd Hhon. rewrite Forall_forall in Hhon.
  pose proof (install_world_spec (install_entry <$> reps) expected p) as Hs.
  pose proof (stage_reports_last_seq (install_entry <$> reps) (clear p)) as Hls.
  unfold install_world_full_reports in *.
  destruct (stage_reports _ (clear p)) as [[[]|] st]; [|done].
  case_decide; [|done]. simpl in *. destruct Hs as [[Hv _] (Hwf & Ha & _)].
  destruct (Hv eq_refl) as [[Hndo Hall] _]. specialize (Hls st eq_refl).
  rewrite Forall_forall in Hall.
  assert (∀ l, l ∈ abs st ↔ ∃ rep, rep ∈ reps ∧ l ∈ pr_locations rep) as Habs.
  { intros l. rewrite Ha. unfold reported. rewrite elem_of_union_list. split.
    - intros (X & ([[o s] ls] & -> & (rep & Heq & Hr)%list_elem_of_fmap)%list_elem_of_fmap & Hl).
      exists rep. split; [done|]. unfold install_entry in Heq. simplify_eq/=.
      by apply elem_of_list_to_set in Hl.
    - intros (rep & Hr & Hl). exists (list_to_set (pr_locations rep)).
      rewrite elem_of_list_to_set. split; [|done]. apply list_elem_of_fmap.
      exists (install_entry rep). split; [done|]. by apply list_elem_of_fmap_2. }
  assert (∀ rep l, rep ∈ reps → l ∈ pr_locations rep → owner_of l = report_owner rep) as Hown.
  { intros rep l Hr. specialize (Hall _ (list_elem_of_fmap_2 install_entry _ _ Hr)).
    destruct Hall as [_ Hall]. rewrite Forall_forall in Hall. apply Hall. }
  assert (∀ r1 r2, r1 ∈ reps → r2 ∈ reps → pr_instance_id r1 = pr_instance_id r2 → r1 = r2)
    as Hinj.
  { intros r1 r2 [n1 H1]%list_elem_of_lookup [n2 H2]%list_elem_of_lookup Heq.
    assert (n1 = n2) as <-; [|congruence]. eapply (NoDup_lookup (pr_instance_id <$> reps));
      [done| |]; rewrite list_lookup_fmap; [by rewrite H1|rewrite H2; simpl; by rewrite Heq]. }
  split; [done| |].
  - intros i e c _ Hd%dget_dict_of. apply list_elem_of_fmap in Hd as (rep & Heq & Hr).
    simplify_eq. destruct (Hhon rep Hr) as [Hc Hloc]. unfold report_owner in *.
    split_and!; [|lia|lia|].
    + unfold cursor_of. rewrite Hls.
      pose proof (foldl_insert_lookup (install_entry <$> reps) ∅ (install_entry rep) Hndo
        (list_elem_of_fmap_2 _ _ _ Hr)) as Hlk. simpl in Hlk. unfold report_owner in Hlk.
      by rewrite Hlk.
    + rewrite <- Hloc. apply set_eq. intros y. rewrite elem_of_view, elem_of_map.
      setoid_rewrite elem_of_list_to_set. setoid_rewrite Habs. split.
      * intros (l & -> & (rep' & Hr' & Hl) & Ho). exists l. split; [done|].
        rewrite (Hown rep' l) in Ho by done. unfold report_owner in Ho. simplify_eq.
        by rewrite (Hinj rep rep').
      * intros (l & -> & Hl). exists l. split_and!; [done|eauto|]. by apply Hown.
  - intros l _ (rep & Hr & Hl)%Habs. pose proof (Hown rep l Hr Hl) as Ho.
    unfold owner_of, report_owner in Ho. exists (pr_snapshot_seq_no rep).
    apply dict_of_dget.
    + by rewrite <- list_fmap_compose.
    + apply list_elem_of_fmap. exists rep. split; [congruence|done].
Qed.

(** ** Every step of the reconciler keeps the directory right *)

Section coherence.
Context {E : Type} (dumps sha : json → string) (uuid : E → string).
Context (rpc : @PrefixDirectoryRPC E) (log : E → world_log) (Hrpc : honest rpc log).

Abbreviation Rec := (@PrefixReconciler E).
Abbreviation rebuild_world := (rebuild_world dumps sha rpc).
Abbreviation rebuild_world_for := (rebuild_world_for dumps sha rpc).
Abbreviation rebuild := (rebuild rpc).
Abbreviation sync_once := (sync_once dumps sha uuid rpc).

Definition right_on (P : string → Prop) (r : Rec) : Prop :=
  coherent_on P (log (rc_env r)) (rc_index r) (rc_owners r).
Definition right : Rec → Prop := right_on (λ _, True).
Definition right_but (i : string) : Rec → Prop := right_on (λ j, j ≠ i).

(** [m] may leave instance [i] uncertain only if it raises. *)
Definition restores {A} (i : string) (m : method Rec A) (r : Rec) : Prop :=
  right_but i (m r).2 ∧ (is_ok (m r).1 = true → right (m r).2).

Lemma right_but_intro i r : right r → right_but i r.
Proof. by apply coherent_weaken. Qed.

Lemma right_env P r e :
  log_le (log (rc_env r)) (log e) → right_on P r → right_on P (set_env e r).
Proof. apply coherent_mono. Qed.

Lemma forget_world_right r : right (forget_world r).2.
Proof. apply coherent_empty. Qed.

Lemma forget_instance_right i r : right_but i r → right (forget_instance i r).2.
Proof. apply coherent_forget. Qed.

Lemma gather_reports c g l e :
  let '(x, e') := gather (λ i, full_report_and_register rpc i c g) l e in
  log_le (log e) (log e')
  ∧ ∀ reps, x = Ok reps → Forall (honest_report (log e')) reps.
Proof.
  revert e. induction l as [|i l IH]; intros e; simpl.
  { split; [done|]. intros reps [= <-]. constructor. }
  pose proof (h_full _ _ Hrpc i c g e) as Hf.
  destruct (full_report_and_register rpc i c g e) as [x e1]. destruct Hf as [Hle Hrep].
  specialize (IH e1). destruct (gather _ l e1) as [xs e2]. destruct IH as [Hle2 Hreps].
  split; [by etrans|]. intros reps. destruct x as [rep|], xs as [reps'|]; try done.
  intros [= <-]. constructor; [|by apply Hreps]. eapply honest_report_mono; [done|by apply Hrep].
Qed.

Lemma check_reports_spec expected l acc d :
  check_reports expected l acc = Ok d →
  dwf acc → Forall (λ kv, pr_instance_id kv.2 = kv.1) acc →
  dwf d ∧ Forall (λ kv, pr_instance_id kv.2 = kv.1) d
  ∧ ∀ rep, rep ∈ dvalues d → rep ∈ dvalues acc ∨ rep ∈ l.*2.
Proof.
  revert acc. induction l as [|[i rep] l IH]; intros acc; simpl.
  { intros [= <-]. auto. }
  case_bool_decide; [done|]. destruct (dget i expected); [|done]. case_bool_decide; [done|].
  destruct (dmem _ acc) eqn:Hm; [done|]. apply dmem_false in Hm. intros Hc Hwf Hk.
  rewrite dset_fresh in Hc by done. destruct (IH _ Hc) as (? & ? & Hin).
  - rewrite <- dset_fresh by done. by apply dwf_dset.
  - apply Forall_app. by repeat constructor.
  - split_and!; [done|done|]. intros rep' Hr. apply Hin in Hr.
    unfold dvalues in *. rewrite fmap_app in Hr. set_solver.
Qed.

Lemma rebuild_world_restores i expected r : right_but i r → restores i (rebuild_world expected) r.
Proof.
  intros Hr. unfold restores, Reconciler.rebuild_world. case_bool_decide; [done|].
  unfold mbind, method_mbind, method_bind, read, await. simpl.
  pose proof (gather_reports (rc_consumer_id r) (rc_generation r)
                (sort_by String.le id (dkeys expected)) (rc_env r)) as Hg.
  destruct (gather _ _ _) as [x e]. destruct Hg as [Hle Hrep].
  apply (right_env _ _ e) in Hr; [|done].
  destruct x as [reps|]; [|done]. specialize (Hrep reps eq_refl).
  destruct (check_reports _ _ _) as [d|] eqn:Hd; [|done].
  apply check_reports_spec in Hd as (Hwf & Hk & Hin); [|by constructor..].
  unfold index_try. simpl.
  pose proof (install_world_coherent (dvalues d) (list_to_set expected) (log e) (rc_index r)) as Hi.
  assert (pr_instance_id <$> dvalues d = dkeys d) as Hkeys.
  { unfold dvalues, dkeys. rewrite <- list_fmap_compose. apply list_fmap_ext.
    intros n kv Hkv. rewrite Forall_forall in Hk. apply Hk. by eapply list_elem_of_lookup_2. }
  specialize (Hi ltac:(by rewrite Hkeys)).
  assert (Forall (honest_report (log e)) (dvalues d)) as Hhon.
  { apply Forall_forall. intros rep [Hn|Hr2]%Hin; [by apply not_elem_of_nil in Hn|].
    rewrite Forall_forall in Hrep. apply Hrep. apply list_elem_of_fmap in Hr2 as ([? ?] & -> & Hz).
    by apply elem_of_zip_r in Hz. }
  specialize (Hi Hhon).
  destruct (install_world_full_reports _ _ _) as [[[]|] p']; simpl in *; [|by subst p'].
  destruct (mapM _ _) as [ordered|]; simpl.
  all: split; [by apply right_but_intro|done].
Qed.

Lemma rebuild_world_for_restores i expected r :
  right_but i r → restores i (rebuild_world_for i expected) r.
Proof.
  intros Hr. destruct (rebuild_world_restores i expected r Hr) as [H1 H2].
  unfold restores, Reconciler.rebuild_world_for, mbind, method_mbind, method_bind.
  destruct (rebuild_world expected r) as [[pub|] r']; simpl in *; [|done].
  split; [done|]. intros _. by apply H2.
Qed.

Lemma rebuild_restores i r : right_but i r → restores i (rebuild i) r.
Proof.
  intros Hr. unfold restores, Reconciler.rebuild, mbind, method_mbind, method_bind, read, await.
  simpl. pose proof (h_full _ _ Hrpc i (rc_consumer_id r) (rc_generation r) (rc_env r)) as Hf.
  destruct (full_report_and_register _ _ _ _ _) as [x e]. destruct Hf as [Hle Hrep].
  apply (right_env _ _ e) in Hr; [|done]. destruct x as [rep|]; [|done].
  case_bool_decide as Hi; [done|].
  pose proof (install_report_coherent i rep _ _ _ Hi Hr (Hrep rep eq_refl)) as Hc.
  unfold index_do, index_try, modify. simpl in *.
  destruct (install_full_report _ _ _ _) as [[[]|] p']; simpl in *; destruct Hc as [Hc1 Hc2];
    [|done]. specialize (Hc2 eq_refl). split; [by apply right_but_intro|done].
Qed.

Lemma poll_events_restores i e c limit r :
  right r → dget i (rc_owners r) = Some (e, c) → restores i (poll_events rpc i e c limit) r.
Proof.
  intros Hr Hd. unfold restores, poll_events, mbind, method_mbind, method_bind, read, await. simpl.
  pose proof (h_peek _ _ Hrpc i (rc_consumer_id r) (rc_generation r) c limit (rc_env r)) as Hp.
  destruct (peek_events _ _ _ _ _ _ _) as [x e1]. destruct Hp as [Hle Hes].
  apply (right_env _ _ e1) in Hr; [|done].
  destruct x as [es|]; [|split; [by apply right_but_intro|done]].
  pose proof (apply_events_coherent i e c es _ _ _ Hr Hd (Hes es eq_refl)) as Ha.
  unfold index_try. simpl in *. destruct (apply_events (i, e) es (rc_index r)) as [x p'].
  destruct Ha as [Ha1 Ha2]. destruct x as [c'|]; [|done]. specialize (Ha2 c' eq_refl). simpl.
  pose proof (h_ack _ _ Hrpc i (rc_consumer_id r) (rc_generation r) c' e1) as Hle2.
  destruct (ack_events _ _ _ _ _ _) as [x e2]. simpl in Hle2.
  apply (coherent_mono _ _ (log e2)) in Ha1, Ha2; [|done..].
  destruct x; simpl; split; try done. by apply right_but_intro.
Qed.

Lemma resynchronise_restores i r :
  right_but i r → restores i (resynchronise dumps sha uuid rpc i) r.
Proof.
  intros Hr. unfold resynchronise, restores, mbind, method_mbind, method_bind, read. simpl.
  case_bool_decide; simpl.
  - by apply rebuild_world_for_restores, right_but_intro, coherent_empty.
  - apply rebuild_restores, right_but_intro. by apply (forget_instance_right i r).
Qed.

Lemma sync_once_restores i limit r : right r → restores i (sync_once i limit) r.
Proof.
  intros Hr. pose proof (right_but_intro i r Hr) as Hb.
  unfold restores, Reconciler.sync_once, mbind, method_mbind, method_bind, read.
  case_bool_decide; [by apply rebuild_world_for_restores|]. unfold fetch_counts.
  assert (∀ f, resource_counts rpc = Some f → ∀ e, log_le (log e) (log (f i e).2)) as Hcnt
    by (intros f Hf e; by apply (h_counts _ _ Hrpc)).
  assert (∀ r, right r →
    restores i (match dget i (rc_owners r) with
      | None => rebuild i
      | Some (epoch, cursor) => catch_gap (poll_events rpc i epoch cursor limit)
                                  (resynchronise dumps sha uuid rpc i) end) r) as Hmain.
  { intros r1 Hr1. unfold restores. destruct (dget i (rc_owners r1)) as [[e c]|] eqn:Hd.
    - destruct (poll_events_restores i e c limit r1 Hr1 Hd) as [H1 H2]. unfold catch_gap.
      destruct (poll_events _ _ _ _ _ r1) as [[v|x] r2]; [done|].
      destruct x; try done; by apply resynchronise_restores.
    - by apply rebuild_restores, right_but_intro. }
  destruct (resource_counts rpc) as [f|]; [|exact (Hmain r Hr)].
  unfold await. specialize (Hcnt f eq_refl (rc_env r)). destruct (f i (rc_env r)) as [x e].
  apply (right_env _ _ e) in Hr; [|done]. destruct x; [exact (Hmain _ Hr)|].
  split; [by apply right_but_intro|done].
Qed.

Lemma run_instance_right limit i r :
  right r → let '(x, r') := run_instance dumps sha uuid rpc limit i r in
  (x = Ok tt ∧ right r') ∨ x = Raise CancelledError.
Proof.
  intros Hr. destruct (sync_once_restores i limit r Hr) as [H1 H2]. unfold run_instance.
  destruct (sync_once i limit r) as [[v|x] r']; simpl in *; [left; auto|].
  assert (let '(x, r1) := if bool_decide (1 < length (rc_expected_epochs r'))%nat
                          then forget_world r' else forget_instance i r' in
          (x = Ok tt ∧ right r1) ∨ x = Raise CancelledError) as Hf.
  { case_bool_decide; left; (split; [done|]).
    - exact (forget_world_right r').
    - exact (forget_instance_right i r' H1). }
  destruct x; first [exact Hf | by right].
Qed.

Lemma run_right limit rounds r :
  right r → let '(x, r') := run dumps sha uuid rpc limit rounds r in
  (x = Ok tt ∧ right r') ∨ x = Raise CancelledError.
Proof.
  assert (∀ l r, right r → let '(x, r') := run_instances dumps sha uuid rpc limit l r in
    (x = Ok tt ∧ right r') ∨ x = Raise CancelledError) as Hl.
  { induction l as [|i l IH]; intros r0 Hr; simpl; [by left|].
    unfold mbind, method_mbind, method_bind. pose proof (run_instance_right limit i r0 Hr) as Hi.
    destruct (run_instance _ _ _ _ _ _ _) as [x r1].
    destruct Hi as [[-> Hr1]| ->]; [by apply IH|by right]. }
  revert r. induction rounds as [|l rounds IH]; intros r Hr; simpl; [by left|].
  unfold mbind, method_mbind, method_bind. specialize (Hl l r Hr).
  destruct (run_instances _ _ _ _ _ _ _) as [x r1].
  destruct Hl as [[-> Hr1]| ->]; [by apply IH|by right].
Qed.
End coherence.

Lemma list_to_map_dget (d : odict string string) k :
  (list_to_map d : gmap string string) !! k = dget k d.
Proof.
  induction d as [|[k' v] d IH]; simpl; [apply lookup_empty|].
  destruct (decide (k = k')) as [->|Hne].
  - by rewrite lookup_insert_eq.
  - by rewrite lookup_insert_ne, IH.
Qed.

Lemma dget_owner_epochs {E} (r : @PrefixReconciler E) i :
  dget i (owner_epochs r) = fst <$> dget i (rc_owners r).
Proof.
  unfold owner_epochs. induction (rc_owners r) as [|[j [e c]] d IH]; simpl; [done|].
  case_decide; [done|apply IH].
Qed.

(** ** Properties *)

(** C7: the directory the router reads is never ahead of, behind or beside
    what the reconciler believes.  Whatever the RPCs raise and whatever gaps,
    duplicates, restarts and failed acknowledgements the event streams show,
    as long as reports and events are those of each incarnation's own event
    log: [run] never ends but by cancellation, and after every number of
    rounds the index is at the recorded cursor of every instance, says of its
    incarnation exactly what that worker's cache held at that cursor, and
    holds no location of any other incarnation; when [world_ready] accepts a
    set of epochs, every location in the index belongs to one of them. *)
Theorem reconciler_tracks_caches {E} dumps sha uuid (rpc : @PrefixDirectoryRPC E) log
    age p0 consumer generation e0 limit rounds x r :
  honest rpc log → new_PrefixIndex age = Ok p0 →
  run dumps sha uuid rpc limit rounds (new_PrefixReconciler p0 consumer generation e0) = (x, r) →
  (x = Ok tt ∨ x = Raise CancelledError)
  ∧ (x = Ok tt →
     (∀ i e n, dget i (rc_owners r) = Some (e, n) →
        cursor_of (i, e) (rc_index r) = n
        ∧ 0 ≤ n ≤ Z.of_nat (length (log (rc_env r) (i, e)))
        ∧ view (i, e) (abs (rc_index r)) = cache_at (log (rc_env r) (i, e)) (Z.to_nat n))
     ∧ (∀ l, l ∈ abs (rc_index r) →
          ∃ n, dget (cl_instance_id l) (rc_owners r) = Some (cl_instance_epoch l, n))
     ∧ ∀ expected, world_ready expected r = true → ∀ l, l ∈ abs (rc_index r) →
         dget (cl_instance_id l) expected = Some (cl_instance_epoch l)).
Proof.
  intros Hrpc Hp Hrun.
  assert (right log (new_PrefixReconciler p0 consumer generation e0)) as H0.
  { unfold new_PrefixIndex in Hp. case_bool_decide; [|done]. injection Hp as <-.
    apply (coherent_empty _ _ (mkPrefixIndex age ∅ ∅ ∅)). }
  pose proof (run_right dumps sha uuid rpc log Hrpc limit rounds _ H0) as Hr.
  rewrite Hrun in Hr. destruct Hr as [[-> Hr]| ->]; [|split; [by right|done]].
  split; [by left|]. intros _. split_and!.
  - intros i e n. by apply (co_view _ _ _ _ Hr).
  - intros l. by apply (co_known _ _ _ _ Hr).
  - intros expected Hready l Hl. apply andb_true_iff in Hready as [Heq _].
    apply bool_decide_eq_true in Heq. rewrite <- list_to_map_dget, <- Heq, list_to_map_dget.
    rewrite dget_owner_epochs. destruct (co_known _ _ _ _ Hr l I Hl) as [n ->]. done.
Qed.

(** ** A concrete world: two workers, each with three events in its log *)

Definition toy_location (i : string) (block : Z) : CacheLocation :=
  mkCacheLocation i "e1" "ns" "kv" "ctx" (100 + block) block block (4 * (block + 1)) 0.
Definition toy_log : world_log := λ o,
  if decide (o.2 = "e1") then
    [mkPrefixEvent hash_added (toy_location o.1 0) 1;
     mkPrefixEvent hash_added (toy_location o.1 1) 2;
     mkPrefixEvent evicted (toy_location o.1 0) 3]
  else [].
(** Each report is the snapshot after the first event. *)
Definition toy_rpc : @PrefixDirectoryRPC nat := mkRPC
  (λ i _ _ e, (Ok (mkPrefixReport i "e1" 1 [toy_location i 0]), e))
  (λ i _ _ after _ e, (Ok (filter (λ ev, after < ev_seq_no ev) (toy_log (i, "e1"))), e))
  (λ _ _ _ _ e, (Ok tt, S e))
  None.

Lemma toy_rpc_honest : honest toy_rpc (λ _, toy_log).
Proof.
  split; simpl; try done.
  - intros i _ _ _. split; [done|]. intros rep [= <-]. split; [simpl; lia|].
    unfold report_owner. simpl. unfold toy_log. simpl. unfold cache_at, abs_events, abs_event. simpl.
    by rewrite !union_empty_r_L, set_map_singleton_L.
  - intros i _ _ n _ _. split; [done|]. intros es [= <-].
    apply Forall_forall. intros ev [_ Hev]%list_elem_of_filter. revert ev Hev.
    apply Forall_forall. unfold toy_log, from_log. simpl. repeat constructor; simpl; lia || done.
Qed.

Lemma reconciler_tracks_caches_witness :
  let '(x, r) := run (λ _, "") (λ _, "") (λ _, "g2") toy_rpc 16
    [["d0"; "d1"]; ["d0"; "d1"]; ["d0"; "d1"]]
    (new_PrefixReconciler (mkPrefixIndex 600 ∅ ∅ ∅) "gw" "g1" 0%nat) in
  x = Ok tt ∧ view ("d0", "e1") (abs (rc_index r)) = cache_at (toy_log ("d0", "e1")) 3.
Proof.
  set (start := run _ _ _ _ _ _ _).
  assert ((start.1, dget "d0" (rc_owners start.2)) = (Ok tt, Some ("e1", 3))) as Hc
    by (vm_compute; reflexivity).
  destruct start as [x r] eqn:Hrun. simpl in Hc. injection Hc as -> Hd.
  destruct (reconciler_tracks_caches (λ _, "") (λ _, "") (λ _, "g2") toy_rpc (λ _, toy_log)
    600 (mkPrefixIndex 600 ∅ ∅ ∅) "gw" "g1" 0%nat 16 _ (Ok tt) r toy_rpc_honest eq_refl Hrun)
    as [_ Hok].
  split; [done|]. destruct (Hok eq_refl) as [Hv _].
  by destruct (Hv _ _ _ Hd) as (_ & _ & ->).
Defined.
