(* ===== verification/ResourceRelease.v ===== *)
(** * Releasing resources on durable evidence (scheduler/resource_release.py)

    The evaluator frees a decode slot only after every endpoint acknowledged
    its finalization, or after a replacement decision is durable.

    [release_endpoint_terminal] awaits one remote finalization per endpoint.
    A coroutine is a value: it either waits for the answer of an endpoint or
    has returned; [release_begin] runs it to its first wait, and [resume]
    from the answer to the next one, so that calls of other coroutines may
    come in between.  The metrics and the correctness gate (unset in
    production) are not modelled.  An acknowledgement is the object the
    worker answered with. *)

From S2P Require Import Prelude PyDict Fingerprint SequenceState Scheduler Json ReplacementStore.
From stdpp Require Import prelude gmap strings sorting.

Local Open Scope Z_scope.

(** ** Data *)

Record EndpointOperationRef := mkEndpointOperationRef {
  ref_topology_generation : string;
  ref_owner_generation : string;
  ref_operation_seq : Z;
  ref_target_instance : string;
  ref_target_worker_epoch : string;
  ref_operation_id : string;
  ref_payload_digest : string }.

#[export] Instance EndpointOperationRef_eq_dec : EqDecision EndpointOperationRef.
Proof. solve_decision. Defined.
#[export] Instance EndpointOperationRef_countable : Countable EndpointOperationRef.
Proof.
  apply (inj_countable' (λ r, (ref_topology_generation r, ref_owner_generation r,
    ref_operation_seq r, ref_target_instance r, ref_target_worker_epoch r, ref_operation_id r,
    ref_payload_digest r)) (λ x, let '(t, o, n, i, e, op, d) := x in
    mkEndpointOperationRef t o n i e op d)).
  by intros [].
Defined.

Record PredicateSnapshot := mkPredicateSnapshot {
  pred_name : string;
  pred_status : string;
  pred_endpoint_ref : EndpointOperationRef;
  pred_resources_held : bool }.

#[export] Instance PredicateSnapshot_eq_dec : EqDecision PredicateSnapshot.
Proof. solve_decision. Defined.

Record EndpointFinalizePlan := mkEndpointFinalizePlan {
  efp_instance_id : string;
  efp_endpoint_refs : list EndpointOperationRef;
  efp_resource_kinds : list string }.

#[export] Instance EndpointFinalizePlan_eq_dec : EqDecision EndpointFinalizePlan.
Proof. solve_decision. Defined.

Record CleanupPlan := mkCleanupPlan {
  cp_cleanup_id : string;
  cp_operation_id : string;
  cp_lease_id : string;
  cp_predicates : list PredicateSnapshot;
  cp_endpoints : list EndpointFinalizePlan }.

#[export] Instance CleanupPlan_eq_dec : EqDecision CleanupPlan.
Proof. solve_decision. Defined.

Record ReplacementEvidence := mkReplacementEvidence {
  re_restart_run_id : string;
  re_old_topology_generation : string;
  re_new_topology_generation : string;
  re_old_termination_proof_digests : list string;
  re_fresh_resource_report_digests : list string;
  re_excluded_old_operation_digest : string;
  re_accepted : bool;
  re_decision_digest : string }.

(** The object a worker answers a finalization with. *)
Definition ack : Type := odict string json.

Record ResourceReleaseEvaluator := mkEvaluator {
  ev_scheduler : PDScheduler;
  ev_store : option ReplacementDecisionStore;
  ev_active_cap : Z;
  ev_terminal_cap : Z;
  ev_acks : odict (string * string) ack;
  ev_active : odict string CleanupPlan;
  ev_completed : odict string (list ack) }.

#[export] Instance ResourceReleaseEvaluator_eta : Eta ResourceReleaseEvaluator := λ r,
  mkEvaluator (ev_scheduler r) (ev_store r) (ev_active_cap r) (ev_terminal_cap r)
    (ev_acks r) (ev_active r) (ev_completed r).

Definition set_scheduler (v : PDScheduler) (r : ResourceReleaseEvaluator) :
  ResourceReleaseEvaluator := ltac:(with_field r ev_scheduler v).
Definition set_store (v : option ReplacementDecisionStore) (r : ResourceReleaseEvaluator) :
  ResourceReleaseEvaluator := ltac:(with_field r ev_store v).
Definition set_acks (v : odict (string * string) ack) (r : ResourceReleaseEvaluator) :
  ResourceReleaseEvaluator := ltac:(with_field r ev_acks v).
Definition set_active (v : odict string CleanupPlan) (r : ResourceReleaseEvaluator) :
  ResourceReleaseEvaluator := ltac:(with_field r ev_active v).
Definition set_completed (v : odict string (list ack)) (r : ResourceReleaseEvaluator) :
  ResourceReleaseEvaluator := ltac:(with_field r ev_completed v).

Definition new_ResourceReleaseEvaluator (sched : PDScheduler) (active_cap terminal_cap : Z)
    (store : option ReplacementDecisionStore) : result exn ResourceReleaseEvaluator :=
  if bool_decide (active_cap ≤ 0) || bool_decide (terminal_cap ≤ 0) then Raise ValueError
  else Ok (mkEvaluator sched store active_cap terminal_cap [] [] []).

(** ** Endpoint-terminal release *)

Definition TERMINAL_PREDICATES : list string := ["COMPLETED"; "FENCED"].

(** [not plan.predicates or any(status not in TERMINAL_PREDICATES)] is false. *)
Definition all_terminal (plan : CleanupPlan) : bool :=
  bool_decide (cp_predicates plan ≠ [])
  && forallb (λ p, bool_decide (pred_status p ∈ TERMINAL_PREDICATES)) (cp_predicates plan).

Definition expected_refs (plan : CleanupPlan) : list EndpointOperationRef :=
  pred_endpoint_ref <$> filter (λ p, pred_resources_held p = true) (cp_predicates plan).
Definition planned_refs (plan : CleanupPlan) : list EndpointOperationRef :=
  concat (efp_endpoint_refs <$> cp_endpoints plan).

(** A coroutine: it returned, or it awaits the endpoint [e]. *)
Inductive coroutine : Type :=
| Returned (r : result exn (option (list ack)))
| Awaiting (plan : CleanupPlan) (e : EndpointFinalizePlan)
    (rest : list EndpointFinalizePlan) (results : list ack).

(** After the last acknowledgement: free the slot and remember the result. *)
Definition finish (plan : CleanupPlan) (results : list ack) (ev : ResourceReleaseEvaluator) :
    coroutine * ResourceReleaseEvaluator :=
  match release_quarantined_decode_slot (cp_operation_id plan) (Some (cp_lease_id plan))
          (Some (cp_cleanup_id plan)) (ev_scheduler ev) with
  | (Raise e, s) => (Returned (Raise e), set_scheduler s ev)
  | (Ok _, s) =>
      (Returned (Ok (Some results)),
       set_completed (dtrim (ev_terminal_cap ev)
                        (dmove_end (cp_cleanup_id plan) results (ev_completed ev)))
         (set_acks (filter (λ ka, ka.1.1 ≠ cp_cleanup_id plan) (ev_acks ev))
            (set_active (dpop (cp_cleanup_id plan) (ev_active ev)) (set_scheduler s ev))))
  end.

(** The loop over the endpoints, up to the first one not yet acknowledged. *)
Fixpoint run_local (plan : CleanupPlan) (endpoints : list EndpointFinalizePlan)
    (results : list ack) (ev : ResourceReleaseEvaluator) :
    coroutine * ResourceReleaseEvaluator :=
  match endpoints with
  | [] => finish plan results ev
  | e :: rest =>
      match dget (cp_cleanup_id plan, efp_instance_id e) (ev_acks ev) with
      | Some a => run_local plan rest (results ++ [a]) ev
      | None => (Awaiting plan e rest results, ev)
      end
  end.

(** [release_endpoint_terminal] up to its first await. *)
Definition release_begin (plan : CleanupPlan) (ev : ResourceReleaseEvaluator) :
    coroutine * ResourceReleaseEvaluator :=
  match dget (cp_cleanup_id plan) (ev_completed ev) with
  | Some completed =>
      (Returned (Ok (Some completed)),
       set_completed (dmove_end (cp_cleanup_id plan) completed (ev_completed ev)) ev)
  | None =>
      if negb (all_terminal plan) then (Returned (Ok None), ev)
      else if negb (forallb (λ x, bool_decide (x ∈ planned_refs plan)) (expected_refs plan))
      then (Returned (Raise ValueError), ev)
      else match dget (cp_cleanup_id plan) (ev_active ev) with
      | Some active =>
          if bool_decide (active ≠ plan) then (Returned (Raise ValueError), ev)
          else run_local plan (cp_endpoints plan) [] ev
      | None =>
          if bool_decide (ev_active_cap ev ≤ Z.of_nat (length (ev_active ev)))
          then (Returned (Raise RuntimeError), ev)
          else run_local plan (cp_endpoints plan) []
                 (set_active (dset (cp_cleanup_id plan) plan (ev_active ev)) ev)
      end
  end.

(** The remote finalization answered. *)
Definition resume (c : coroutine) (answer : result exn ack) (ev : ResourceReleaseEvaluator) :
    coroutine * ResourceReleaseEvaluator :=
  match c with
  | Returned r => (Returned r, ev)
  | Awaiting plan e rest results =>
      match answer with
      | Raise x => (Returned (Raise x), ev)
      | Ok a =>
          run_local plan rest (results ++ [a])
            (set_acks (dset (cp_cleanup_id plan, efp_instance_id e) a (ev_acks ev)) ev)
      end
  end.

(** ** Whole-world replacement *)

Definition require_replacement_store (ev : ResourceReleaseEvaluator) :
    result exn ReplacementDecisionStore :=
  match ev_store ev with
  | None => Raise ReplacementStoreUnavailable
  | Some st => if st_fatal st then Raise ReplacementStoreUnavailable else Ok st
  end.

Definition distinct_four (l : list string) : bool :=
  bool_decide (length l = 4%nat) && bool_decide (NoDup l).

Definition validate_replacement_evidence (e : ReplacementEvidence) : result exn unit :=
  if negb (re_accepted e) then Raise ValueError
  else if bool_decide (re_old_topology_generation e = re_new_topology_generation e)
  then Raise ValueError
  else if negb (distinct_four (re_old_termination_proof_digests e)) then Raise ValueError
  else if negb (distinct_four (re_fresh_resource_report_digests e)) then Raise ValueError
  else if negb (truthy (re_excluded_old_operation_digest e)) || negb (truthy (re_decision_digest e))
  then Raise ValueError
  else Ok tt.

Definition replacement_record (cleanup_id operation_id lease : string) (kinds : list string)
    (e : ReplacementEvidence) : result exn ReplacementReleaseRecord :=
  if negb (truthy cleanup_id) || negb (truthy operation_id) || negb (truthy lease)
  then Raise ValueError
  else Ok (mkReplacementReleaseRecord cleanup_id (re_restart_run_id e)
             (re_excluded_old_operation_digest e) operation_id lease
             (sort_by String.le id (remove_dups kinds)) (re_decision_digest e)).

Definition require_live_quarantined_lease (r : ReplacementReleaseRecord) (s : PDScheduler) :
    result exn unit :=
  match decode_slot_lease (rr_operation_id r) s with
  | None => Raise NoLiveReplacementLease
  | Some l =>
      if bool_decide (lease_id l ≠ rr_lease_id r) || bool_decide (lease_state l ≠ QUARANTINED)
      then Raise NoLiveReplacementLease else Ok tt
  end.

Definition release_local_record (r : ReplacementReleaseRecord) (allow_missing : bool) :
    method PDScheduler unit := λ s,
  match decode_slot_lease (rr_operation_id r) s with
  | None => if allow_missing then (Ok tt, s) else (Raise NoLiveReplacementLease, s)
  | Some l =>
      if bool_decide (lease_id l ≠ rr_lease_id r) then (Raise NoLiveReplacementLease, s)
      else match lease_state l with
      | RELEASED =>
          if bool_decide (lease_release_cleanup_id l ≠ Some (rr_cleanup_id r))
          then (Raise ReplacementConflict, s) else (Ok tt, s)
      | RESERVED | ACTIVE => (Raise NoLiveReplacementLease, s)
      | QUARANTINED =>
          match release_quarantined_decode_slot (rr_operation_id r) (Some (rr_lease_id r))
                  (Some (rr_cleanup_id r)) s with
          | (Raise e, s') => (Raise e, s')
          | (Ok released, s') => if released then (Ok tt, s') else (Raise RuntimeError, s')
          end
      end
  end.

Section replacement.
Variable sha : json → string.

(** Run a store method or a scheduler method on its part of the state. *)
Definition on_store {A} (m : method ReplacementDecisionStore A)
    (st : ReplacementDecisionStore) (ev : ResourceReleaseEvaluator) :
    result exn A * ResourceReleaseEvaluator :=
  let '(r, st') := m st in (r, set_store (Some st') ev).
Definition on_scheduler {A} (m : method PDScheduler A) (ev : ResourceReleaseEvaluator) :
    result exn A * ResourceReleaseEvaluator :=
  let '(r, s) := m (ev_scheduler ev) in (r, set_scheduler s ev).

Definition release_whole_world_replaced (w : write_outcome)
    (cleanup_id operation_id lease : string) (kinds : list string)
    (e : ReplacementEvidence) :
    method ResourceReleaseEvaluator ReplacementReleaseRecord := λ ev,
  match require_replacement_store ev with
  | Raise x => (Raise x, ev)
  | Ok st =>
      match replacement_record cleanup_id operation_id lease kinds e with
      | Raise x => (Raise x, ev)
      | Ok r =>
          match lookup_record sha r (re_old_topology_generation e) st with
          | Raise x => (Raise x, ev)
          | Ok (Some existing) =>
              match on_scheduler (release_local_record existing true) ev with
              | (Raise x, ev') => (Raise x, ev')
              | (Ok _, ev') => (Ok existing, ev')
              end
          | Ok None =>
              match validate_replacement_evidence e,
                    require_live_quarantined_lease r (ev_scheduler ev) with
              | Raise x, _ => (Raise x, ev)
              | Ok _, Raise x => (Raise x, ev)
              | Ok _, Ok _ =>
                  match on_store (persist_record sha w r (re_old_topology_generation e))
                          st ev with
                  | (Raise x, ev1) => (Raise x, ev1)
                  | (Ok (stored, _), ev1) =>
                      match on_scheduler (release_local_record stored false) ev1 with
                      | (Raise x, ev2) => (Raise x, ev2)
                      | (Ok _, ev2) => (Ok stored, ev2)
                      end
                  end
              end
          end
      end
  end.

(** The generator of records of a batch. *)
Fixpoint batch_records (entries : list (string * string * string * list string))
    (e : ReplacementEvidence) : result exn (list ReplacementReleaseRecord) :=
  match entries with
  | [] => Ok []
  | (c, o, l, kinds) :: entries' =>
      match replacement_record c o l kinds e with
      | Raise x => Raise x
      | Ok r => match batch_records entries' e with
                | Raise x => Raise x
                | Ok rs => Ok (r :: rs)
                end
      end
  end.

(** Every record of the batch is stored already or has its lease live. *)
Fixpoint check_batch (rs : list ReplacementReleaseRecord) (gen : string)
    (st : ReplacementDecisionStore) (s : PDScheduler) : result exn unit :=
  match rs with
  | [] => Ok tt
  | r :: rs' =>
      match lookup_record sha r gen st with
      | Raise x => Raise x
      | Ok (Some _) => check_batch rs' gen st s
      | Ok None =>
          match require_live_quarantined_lease r s with
          | Raise x => Raise x
          | Ok _ => check_batch rs' gen st s
          end
      end
  end.

Definition persist_whole_world_replaced_batch (w : write_outcome)
    (entries : list (string * string * string * list string)) (e : ReplacementEvidence) :
    method ResourceReleaseEvaluator (list ReplacementReleaseRecord) := λ ev,
  match require_replacement_store ev with
  | Raise x => (Raise x, ev)
  | Ok st =>
      match validate_replacement_evidence e with
      | Raise x => (Raise x, ev)
      | Ok _ =>
          match batch_records entries e with
          | Raise x => (Raise x, ev)
          | Ok rs =>
              match check_batch rs (re_old_topology_generation e) st (ev_scheduler ev) with
              | Raise x => (Raise x, ev)
              | Ok _ => on_store (persist_records sha w rs (re_restart_run_id e)
                          (re_old_topology_generation e) (Some (re_decision_digest e))) st ev
              end
          end
      end
  end.

Fixpoint release_persisted_replacement_batch (rs : list ReplacementReleaseRecord) :
    method ResourceReleaseEvaluator unit := λ ev,
  match rs with
  | [] => (Ok tt, ev)
  | r :: rs' =>
      match on_scheduler (release_local_record r false) ev with
      | (Raise x, ev') => (Raise x, ev')
      | (Ok _, ev') => release_persisted_replacement_batch rs' ev'
      end
  end.

Definition seal_whole_world_replacement (w1 w2 : write_outcome) (e : ReplacementEvidence) :
    method ResourceReleaseEvaluator ReplacementRunSeal := λ ev,
  match require_replacement_store ev with
  | Raise x => (Raise x, ev)
  | Ok st =>
      match validate_replacement_evidence e with
      | Raise x => (Raise x, ev)
      | Ok _ =>
          if bool_decide (replacement_decode_leases (ev_scheduler ev) ≠ [])
          then (Raise NoLiveReplacementLease, ev)
          else on_store (seal_run sha w1 w2 (re_restart_run_id e)
                 (re_old_topology_generation e) (re_new_topology_generation e)
                 (re_decision_digest e)) st ev
      end
  end.
End replacement.

Definition state_counts (ev : ResourceReleaseEvaluator) : nat * nat * nat * nat :=
  (length (ev_active ev), length (ev_acks ev), length (ev_completed ev),
   match ev_store ev with None => O | Some st => active_record_count st end).

(** ** Coroutines over one evaluator *)

(** The evaluator, the running [release_endpoint_terminal] calls, and every
    acknowledgement the endpoints ever gave. *)
Record rel_sys := mkRelSys {
  rs_ev : ResourceReleaseEvaluator;
  rs_pool : list coroutine;
  rs_acked : list (string * string) }.

Inductive rel_step (x : rel_sys) : rel_sys → Prop :=
| rel_begin plan :
    rel_step x (mkRelSys (release_begin plan (rs_ev x)).2
                  (rs_pool x ++ [(release_begin plan (rs_ev x)).1]) (rs_acked x))
| rel_answer i plan e rest results a :
    rs_pool x !! i = Some (Awaiting plan e rest results) →
    rel_step x
      (mkRelSys (resume (Awaiting plan e rest results) (Ok a) (rs_ev x)).2
         (<[i := (resume (Awaiting plan e rest results) (Ok a) (rs_ev x)).1]> (rs_pool x))
         ((cp_cleanup_id plan, efp_instance_id e) :: rs_acked x))
| rel_failed i plan e rest results err :
    rs_pool x !! i = Some (Awaiting plan e rest results) →
    rel_step x (mkRelSys (rs_ev x) (<[i := Returned (Raise err)]> (rs_pool x)) (rs_acked x)).

(** Other components may change the scheduler at any time. *)
Inductive world_step (x : rel_sys) : rel_sys → Prop :=
| world_release y : rel_step x y → world_step x y
| world_other s : world_step x (mkRelSys (set_scheduler s (rs_ev x)) (rs_pool x) (rs_acked x)).

Definition acked_all (acked : list (string * string)) (plan : CleanupPlan)
    (es : list EndpointFinalizePlan) : Prop :=
  Forall (λ e, (cp_cleanup_id plan, efp_instance_id e) ∈ acked) es.

(** What [release_begin] checks before it starts a plan. *)
Definition plan_safe (plan : CleanupPlan) : Prop :=
  all_terminal plan = true ∧ ∀ r, r ∈ expected_refs plan → r ∈ planned_refs plan.

Definition coroutine_ok (acked : list (string * string)) (c : coroutine) : Prop :=
  match c with
  | Returned _ => True
  | Awaiting plan e rest _ =>
      plan_safe plan ∧ ∃ past, cp_endpoints plan = past ++ e :: rest ∧ acked_all acked plan past
  end.

Record sys_inv (x : rel_sys) : Prop := {
  iv_acks : ∀ k, k ∈ dkeys (ev_acks (rs_ev x)) → k ∈ rs_acked x;
  iv_pool : Forall (coroutine_ok (rs_acked x)) (rs_pool x);
  iv_caps : 0 < ev_active_cap (rs_ev x) ∧ 0 < ev_terminal_cap (rs_ev x);
  iv_active : dwf (ev_active (rs_ev x))
    ∧ Z.of_nat (length (ev_active (rs_ev x))) ≤ ev_active_cap (rs_ev x);
  iv_completed : dwf (ev_completed (rs_ev x))
    ∧ Z.of_nat (length (ev_completed (rs_ev x))) ≤ ev_terminal_cap (rs_ev x) }.

(** The bounds of the evaluator's tables. *)
Definition ev_bounds (ev : ResourceReleaseEvaluator) : Prop :=
  0 < ev_active_cap ev ∧ 0 < ev_terminal_cap ev
  ∧ dwf (ev_active ev) ∧ Z.of_nat (length (ev_active ev)) ≤ ev_active_cap ev
  ∧ dwf (ev_completed ev) ∧ Z.of_nat (length (ev_completed ev)) ≤ ev_terminal_cap ev.

(** What running a coroutine to its next await does. *)
Definition ran_ok (acked : list (string * string)) (plan : CleanupPlan)
    (ev : ResourceReleaseEvaluator) (out : coroutine * ResourceReleaseEvaluator) : Prop :=
  coroutine_ok acked out.1 ∧ ev_bounds out.2
  ∧ (∀ k, k ∈ dkeys (ev_acks out.2) → k ∈ dkeys (ev_acks ev))
  ∧ (ev_scheduler out.2 = ev_scheduler ev
     ∨ plan_safe plan ∧ acked_all acked plan (cp_endpoints plan)
       ∧ ev_scheduler out.2 =
         (release_quarantined_decode_slot (cp_operation_id plan) (Some (cp_lease_id plan))
            (Some (cp_cleanup_id plan)) (ev_scheduler ev)).2).

Lemma finish_ok acked plan results ev :
  plan_safe plan → acked_all acked plan (cp_endpoints plan) → ev_bounds ev →
  ran_ok acked plan ev (finish plan results ev).
Proof.
  intros Hp Ha (Hc1 & Hc2 & Hd & Hl & Hdc & Hlc). unfold finish, ran_ok.
  destruct (release_quarantined_decode_slot _ _ _ _) as [[b|e] s]; simpl.
  - split; [done|]. split; [|split; [|by right]].
    + destruct (dtrim_spec (ev_terminal_cap ev)
        (dmove_end (cp_cleanup_id plan) results (ev_completed ev))) as [? ?];
        [lia|by apply dmove_end_wf|].
      pose proof (length_dpop_le (cp_cleanup_id plan) (ev_active ev)).
      unfold ev_bounds. simpl. split_and!; try done; [by apply dwf_dpop|lia].
    + intros k. unfold dkeys. rewrite !list_elem_of_fmap.
      intros (ka & -> & [_ Hin]%list_elem_of_filter). eauto.
  - by split_and!; try done; right.
Qed.

Lemma run_local_ok acked plan es past results ev :
  plan_safe plan → cp_endpoints plan = past ++ es → acked_all acked plan past →
  (∀ k, k ∈ dkeys (ev_acks ev) → k ∈ acked) → ev_bounds ev →
  ran_ok acked plan ev (run_local plan es results ev).
Proof.
  intros Hp. revert past results. induction es as [|e es IH]; intros past results He Ha Hk Hb; simpl.
  { apply finish_ok; [done| |done]. by rewrite He, app_nil_r. }
  destruct (dget _ (ev_acks ev)) as [a|] eqn:Hg.
  - apply (IH (past ++ [e])); try done; [by rewrite <- app_assoc|].
    apply Forall_app. split; [done|]. apply Forall_singleton, Hk.
    by apply dget_Some_keys in Hg.
  - split; [split; [done|]; by exists past|]. split; [done|]. split; [done|by left].
Qed.

Lemma coroutine_ok_mono acked k c : coroutine_ok acked c → coroutine_ok (k :: acked) c.
Proof.
  destruct c as [r|plan e rest results]; simpl; [done|].
  intros (Hp & past & He & Ha). split; [done|]. exists past. split; [done|].
  eapply Forall_impl; [exact Ha|]. intros ? ?. by right.
Qed.

Lemma sys_inv_bounds x : sys_inv x → ev_bounds (rs_ev x).
Proof. intros []. unfold ev_bounds. tauto. Qed.

Lemma ran_inv x acked plan ev out pool :
  (∀ k, k ∈ dkeys (ev_acks ev) → k ∈ acked) → ran_ok acked plan ev out →
  Forall (coroutine_ok acked) pool → sys_inv x → sys_inv (mkRelSys out.2 pool acked).
Proof.
  intros Hk (Hc & Hb & Ha & _) Hp Hx. destruct Hb as (? & ? & ? & ? & ? & ?).
  split; simpl; auto.
Qed.

Lemma release_begin_ok acked plan ev :
  (∀ k, k ∈ dkeys (ev_acks ev) → k ∈ acked) → ev_bounds ev →
  ran_ok acked plan ev (release_begin plan ev).
Proof.
  intros Hk Hb. unfold release_begin.
  assert (∀ r, ran_ok acked plan ev (Returned r, ev)) as Hret.
  { intros r. split_and!; try done. by left. }
  destruct (dget _ (ev_completed ev)) as [c|] eqn:Hc.
  { destruct Hb as (? & ? & ? & ? & Hd & Hl). split; [done|].
    split; [|by split; [|left]]. unfold ev_bounds. simpl. split_and!; try done.
    - by apply dmove_end_wf.
    - unfold dmove_end. rewrite length_app. simpl.
      pose proof (length_dpop _ _ _ Hd Hc). lia. }
  destruct (all_terminal plan) eqn:Ht; simpl; [|apply Hret].
  destruct (forallb _ _) eqn:Hf; simpl; [|apply Hret].
  assert (plan_safe plan) as Hp.
  { split; [done|]. intros r Hr. rewrite forallb_forall in Hf.
    apply list_elem_of_In, Hf in Hr. by apply bool_decide_eq_true in Hr. }
  destruct (dget _ (ev_active ev)) as [active|] eqn:Hac.
  - case_bool_decide; [apply Hret|]. apply (run_local_ok acked plan _ []); try done.
    constructor.
  - case_bool_decide; [apply Hret|].
    pose proof Hb as (? & ? & Hd & Hl & ? & ?).
    set (ev' := set_active _ ev).
    change (ran_ok acked plan ev' (run_local plan (cp_endpoints plan) [] ev')).
    apply (run_local_ok acked plan _ []); [done|done|constructor|done|].
    unfold ev_bounds. simpl. split_and!; try done; [by apply dwf_dset|].
    rewrite dset_fresh, length_app by done. simpl. lia.
Qed.

Lemma resume_ok acked plan e rest results a ev :
  (∀ k, k ∈ dkeys (ev_acks ev) → k ∈ acked) → ev_bounds ev →
  coroutine_ok acked (Awaiting plan e rest results) →
  let k := (cp_cleanup_id plan, efp_instance_id e) in
  ran_ok (k :: acked) plan (set_acks (dset k a (ev_acks ev)) ev)
    (resume (Awaiting plan e rest results) (Ok a) ev).
Proof.
  intros Hk Hb (Hp & past & He & Ha). cbv zeta. unfold resume.
  apply (run_local_ok _ plan rest (past ++ [e])); [done|by rewrite <- app_assoc| | |done].
  - apply Forall_app. split; [|apply Forall_singleton; by left].
    eapply Forall_impl; [exact Ha|]. intros ? ?. by right.
  - simpl. intros k Hin. apply elem_of_dkeys_dset in Hin as [->|Hin]; [by left|].
    right. by apply Hk.
Qed.

(** One step: the invariant, and what it may do to the scheduler. *)
Lemma rel_step_ok x y :
  sys_inv x → rel_step x y →
  sys_inv y
  ∧ (ev_scheduler (rs_ev y) = ev_scheduler (rs_ev x)
     ∨ ∃ plan, plan_safe plan ∧ acked_all (rs_acked y) plan (cp_endpoints plan)
         ∧ ev_scheduler (rs_ev y) =
           (release_quarantined_decode_slot (cp_operation_id plan) (Some (cp_lease_id plan))
              (Some (cp_cleanup_id plan)) (ev_scheduler (rs_ev x))).2).
Proof.
  intros Hx Hs. pose proof (sys_inv_bounds x Hx) as Hb.
  destruct Hs as [plan|i plan e rest results a Hi|i plan e rest results err Hi].
  - pose proof (release_begin_ok (rs_acked x) plan (rs_ev x) (iv_acks x Hx) Hb) as Hr.
    split; simpl.
    + eapply ran_inv; [apply Hx|exact Hr| |exact Hx].
      apply Forall_app. split; [apply Hx|]. apply Forall_singleton, Hr.
    + destruct Hr as (_ & _ & _ & [?|?]); [by left|right; by exists plan].
  - pose proof (iv_pool x Hx) as Hp. rewrite Forall_lookup in Hp. specialize (Hp _ _ Hi).
    pose proof (resume_ok (rs_acked x) plan e rest results a (rs_ev x) (iv_acks x Hx) Hb Hp) as Hr.
    cbv zeta in Hr. split; cbn [rs_ev rs_acked].
    + eapply ran_inv; [|exact Hr| |exact Hx].
      * simpl. intros k [->|Hin]%elem_of_dkeys_dset; [by left|]. right. by apply Hx.
      * apply Forall_insert; [|apply Hr]. eapply Forall_impl; [apply Hx|].
        intros c. apply coroutine_ok_mono.
    + destruct Hr as (_ & _ & _ & [?|?]); [by left|right; by exists plan].
  - split; [|by left]. destruct Hx as [Ha Hp ? ? ?]. split; simpl; try done.
    by apply Forall_insert.
Qed.

Lemma world_steps_inv x y : sys_inv x → rtc world_step x y → sys_inv y.
Proof.
  intros Hx Hs. induction Hs as [x|x y z Hxy _ IH]; [done|]. apply IH.
  destruct Hxy as [y Hr|s]; [by eapply rel_step_ok|].
  destruct Hx as [? ? ? ? ?]. by split.
Qed.

(** ** Replacement lemmas *)

Lemma dget_equiv {V} (d d' : odict rkey V) k :
  dwf d → d' ≡ₚ d → dget k d' = dget k d.
Proof.
  intros Hd Hp. assert (dwf d') as Hd' by (unfold dwf, dkeys in *; by rewrite Hp).
  destruct (dget k d) as [v|] eqn:Hg.
  - apply dget_Some; [done|]. rewrite Hp. by apply dget_Some.
  - apply dget_None. apply dget_None in Hg. unfold dkeys in *. by rewrite Hp.
Qed.

Lemma replacement_record_fields c o l kinds e r :
  replacement_record c o l kinds e = Ok r →
  rr_cleanup_id r = c ∧ rr_operation_id r = o ∧ rr_lease_id r = l
  ∧ rr_restart_run_id r = re_restart_run_id e
  ∧ rr_old_operation_digest r = re_excluded_old_operation_digest e
  ∧ rr_decision_digest r = re_decision_digest e ∧ c ≠ "" ∧ o ≠ "" ∧ l ≠ "".
Proof.
  unfold replacement_record. destruct (truthy c) eqn:Hc; simpl; [|done].
  destruct (truthy o) eqn:Ho; simpl; [|done]. destruct (truthy l) eqn:Hl; simpl; [|done].
  apply truthy_true in Hc, Ho, Hl. by intros [= <-].
Qed.

Lemma validate_evidence_fields e :
  validate_replacement_evidence e = Ok tt →
  re_excluded_old_operation_digest e ≠ "" ∧ re_decision_digest e ≠ ""
  ∧ re_old_topology_generation e ≠ re_new_topology_generation e.
Proof.
  unfold validate_replacement_evidence. destruct (re_accepted e); simpl; [|done].
  case_bool_decide; [done|]. destruct (distinct_four _); simpl; [|done].
  destruct (distinct_four _); simpl; [|done].
  destruct (truthy (re_excluded_old_operation_digest e)) eqn:H1; simpl; [|done].
  destruct (truthy (re_decision_digest e)) eqn:H2; simpl; [|done].
  by apply truthy_true in H1, H2.
Qed.

Lemma return_slot_leases i s : slot_leases (return_slot i s).2 = slot_leases s.
Proof. unfold return_slot. by repeat case_match. Qed.

Lemma release_quarantined_lease o l c s lease s' :
  dget o (slot_leases s) = Some lease → lease_state lease = QUARANTINED →
  release_quarantined_decode_slot o (Some l) (Some c) s = (Ok true, s') →
  dget o (slot_leases s')
  = Some (set_release_cleanup_id (Some c) (set_lease_state RELEASED lease)).
Proof.
  intros Hl Hs. unfold release_quarantined_decode_slot. rewrite Hl, Hs.
  case_bool_decide; [done|]. set (s1 := put_lease _ _ s).
  pose proof (return_slot_leases (lease_instance_id lease) s1) as Hret.
  unfold mbind, method_mbind, method_bind.
  destruct (return_slot (lease_instance_id lease) s1) as [[]s2]; [|done].
  intros [= <-]. simpl in Hret. rewrite Hret. apply dget_dset_eq.
Qed.

(** Releasing a record's lease twice is releasing it once. *)
Lemma release_local_record_idem r allow s s' :
  release_local_record r allow s = (Ok tt, s') →
  release_local_record r true s' = (Ok tt, s').
Proof.
  unfold release_local_record, decode_slot_lease.
  destruct (dget (rr_operation_id r) (slot_leases s)) as [l|] eqn:Hl; cycle 1.
  { destruct allow; [|done]. intros [= <-]. by rewrite Hl. }
  case_bool_decide as Hid; [done|].
  destruct (lease_state l) eqn:Hst; [done|done| |].
  - case_bool_decide as Hc; [done|]. intros [= <-]. rewrite Hl, Hst.
    by rewrite !bool_decide_false by (intros Hne; by apply Hne).
  - destruct (release_quarantined_decode_slot _ _ _ s) as [[[]|] s1] eqn:Hr; [|done..].
    intros [= <-].
    assert (dget (rr_operation_id r) (slot_leases s1)
            = Some (set_release_cleanup_id (Some (rr_cleanup_id r))
                      (set_lease_state RELEASED l))) as ->.
    { by eapply release_quarantined_lease. }
    simpl. by rewrite !bool_decide_false by (intros Hne; by apply Hne).
Qed.

Section replacement_lemmas.
Context (sha : json → string).

(** What a call that finds no stored record does before it touches the
    scheduler: it stores exactly the record, or raises. *)
Lemma persist_new w r gen st out st' :
  lookup_record sha r gen st = Ok None → persist_record sha w r gen st = (Ok out, st') →
  out = (r, true).
Proof.
  intros Hl. unfold persist_record. rewrite Hl. case_bool_decide; [done|].
  destruct (existsb _ _); [done|]. destruct w; simpl; by intros [= <- _].
Qed.

Lemma lookup_stored r gen st :
  st_fatal st = false → dget (rr_key r) (sn_records (st_snapshot st)) = Some r →
  lookup_record sha r gen st = Ok (Some r).
Proof.
  intros Hf Hg. unfold lookup_record, require_integrity. rewrite Hf, Hg.
  by rewrite bool_decide_false by (intros Hne; by apply Hne).
Qed.

Lemma lookup_found r gen st q :
  lookup_record sha r gen st = Ok (Some q) →
  q = r ∧ st_fatal st = false ∧ dget (rr_key r) (sn_records (st_snapshot st)) = Some r.
Proof.
  unfold lookup_record, require_integrity. destruct (st_fatal st); [done|].
  destruct (dget _ _) as [e|]; [case_bool_decide; naive_solver|].
  destruct (seal_for_run _ _); [done|]. by destruct (validate_requested_run _ _ _ _ _).
Qed.

(** The three ways a call can end. *)
Lemma release_whole_world_cases w c o l kinds e ev res ev' :
  release_whole_world_replaced sha w c o l kinds e ev = (res, ev') →
  (ev_scheduler ev' = ev_scheduler ev ∧ is_ok res = false)
  ∨ ∃ st st' r, ev_store ev = Some st ∧ ev_store ev' = Some st'
    ∧ replacement_record c o l kinds e = Ok r
    ∧ (st' = st ∧ lookup_record sha r (re_old_topology_generation e) st = Ok (Some r)
       ∨ lookup_record sha r (re_old_topology_generation e) st = Ok None
         ∧ validate_replacement_evidence e = Ok tt
         ∧ persist_record sha w r (re_old_topology_generation e) st = (Ok (r, true), st'))
    ∧ ∃ allow res', release_local_record r allow (ev_scheduler ev) = (res', ev_scheduler ev')
        ∧ res = match res' with Ok _ => Ok r | Raise x => Raise x end.
Proof.
  unfold release_whole_world_replaced, require_replacement_store.
  destruct (ev_store ev) as [st|] eqn:Hst; [|intros [= <- <-]; by left].
  destruct (st_fatal st); [intros [= <- <-]; by left|].
  destruct (replacement_record c o l kinds e) as [r|] eqn:Hr; [|intros [= <- <-]; by left].
  destruct (lookup_record sha r _ st) as [[q|]|] eqn:Hl; [| |intros [= <- <-]; by left].
  - pose proof (lookup_found _ _ _ _ Hl) as (-> & _). unfold on_scheduler.
    destruct (release_local_record r true (ev_scheduler ev)) as [res' s'] eqn:Hrel.
    intros Ho. right. exists st, st, r.
    destruct res' as [[]|x]; simplify_eq; split_and!; try done; try (by left);
      exists true; eauto.
  - destruct (validate_replacement_evidence e) as [[]|] eqn:Hv; [|intros [= <- <-]; by left].
    destruct (require_live_quarantined_lease r (ev_scheduler ev)) as [[]|];
      [|intros [= <- <-]; by left].
    unfold on_store. destruct (persist_record sha w r _ st) as [[out|x] st'] eqn:Hp;
      [|intros [= <- <-]; by left].
    pose proof (persist_new w r _ st out st' Hl Hp) as ->. unfold on_scheduler. simpl.
    destruct (release_local_record r false (ev_scheduler ev)) as [res' s'] eqn:Hrel.
    intros Ho. right. exists st, st', r.
    destruct res' as [[]|x]; simplify_eq; split_and!; try done; try (by right);
      exists false; eauto.
Qed.
End replacement_lemmas.

(** ** Properties *)

(** a decode slot is freed through the endpoint path only on evidence.
    Whatever coroutines run and whatever else changes the scheduler, a step
    of [release_endpoint_terminal] either leaves the scheduler alone or frees
    the slot of a plan whose predicates are all terminal, whose held
    resources are all covered by a planned endpoint, and each of whose
    endpoints has acknowledged this very cleanup; the tables of active and
    completed cleanups stay within their caps. *)
Theorem endpoint_release_gated sched acap tcap store ev x y :
  new_ResourceReleaseEvaluator sched acap tcap store = Ok ev →
  rtc world_step (mkRelSys ev [] []) x → rel_step x y →
  ev_bounds (rs_ev y)
  ∧ (ev_scheduler (rs_ev y) = ev_scheduler (rs_ev x)
     ∨ ∃ plan, plan_safe plan ∧ acked_all (rs_acked y) plan (cp_endpoints plan)
         ∧ ev_scheduler (rs_ev y) =
           (release_quarantined_decode_slot (cp_operation_id plan) (Some (cp_lease_id plan))
              (Some (cp_cleanup_id plan)) (ev_scheduler (rs_ev x))).2).
Proof.
  unfold new_ResourceReleaseEvaluator. destruct (_ || _) eqn:Hc; [done|].
  intros [= <-] Hs Hxy. apply orb_false_iff in Hc as [H1 H2].
  apply bool_decide_eq_false in H1, H2.
  assert (sys_inv x) as Hx.
  { eapply world_steps_inv; [|exact Hs]. split; simpl; try done; try lia.
    - split; [constructor|lia].
    - split; [constructor|lia]. }
  destruct (rel_step_ok x y Hx Hxy) as [Hy ?]. split; [by apply sys_inv_bounds|done].
Qed.

(** C27: a replacement release is durable before it is effective: whatever the
    disk does, if the call changes the scheduler then the store has not
    failed, holds the record of this cleanup, operation and lease, and a
    restart would load that record. *)
Theorem replacement_release_is_durable sha repr int_of_str w c o l kinds e ev st res ev' :
  ev_store ev = Some st → store_inv sha st →
  release_whole_world_replaced sha w c o l kinds e ev = (res, ev') →
  ev_scheduler ev' ≠ ev_scheduler ev →
  ∃ st' r sn, ev_store ev' = Some st' ∧ st_fatal st' = false
    ∧ replacement_record c o l kinds e = Ok r
    ∧ dget (rr_key r) (sn_records (st_snapshot st')) = Some r
    ∧ load sha repr int_of_str (max_records_per_run st') (seal_retention st') (st_disk st') = Ok sn
    ∧ dget (rr_key r) (sn_records sn) = Some r.
Proof.
  intros Hst Hinv Hrel Hne.
  apply release_whole_world_cases in Hrel as [[? _]|(st0 & st' & r & Hst0 & Hst' & Hr & Hcase & _)];
    [done|]. rewrite Hst in Hst0. injection Hst0 as <-.
  assert (store_inv sha st' ∧ st_fatal st' = false
          ∧ dget (rr_key r) (sn_records (st_snapshot st')) = Some r) as (Hinv' & Hf & Hg).
  { destruct Hcase as [[-> Hl]|(Hl & Hv & Hp)].
    - apply lookup_found in Hl as (_ & ? & ?). done.
    - pose proof (persist_record_stored sha _ _ _ _ _ Hp) as (? & ? & _). split_and!; try done.
      pose proof (persist_record_inv sha w r (re_old_topology_generation e) st Hinv) as Hi.
      rewrite Hp in Hi. apply Hi.
      apply replacement_record_fields in Hr as (? & ? & ? & Hrun & ? & ? & ? & ? & ?).
      apply validate_evidence_fields in Hv as (? & ? & _).
      apply lookup_record_None in Hl as (_ & _ & _ & Hv).
      apply validate_Ok in Hv as (? & _). unfold record_ok. split_and!; congruence. }
  destruct (store_reloads sha repr int_of_str st' Hinv' Hf) as (sn & Hload & He).
  exists st', r, sn. split_and!; try done. rewrite <- Hg. apply dget_equiv; [|apply He].
  by apply (store_inv_wf sha st' Hinv' Hf).
Qed.

(** a replacement release can be repeated: after a successful call the
    same call, with any behaviour of the disk, returns the same record and
    changes neither the store nor the scheduler. *)
Theorem replacement_release_replay sha w w' c o l kinds e ev r ev' :
  release_whole_world_replaced sha w c o l kinds e ev = (Ok r, ev') →
  ∃ ev'', release_whole_world_replaced sha w' c o l kinds e ev' = (Ok r, ev'')
    ∧ ev_scheduler ev'' = ev_scheduler ev' ∧ ev_store ev'' = ev_store ev'.
Proof.
  intros Hrel.
  apply release_whole_world_cases in Hrel
    as [[_ ?]|(st & st' & r0 & Hst & Hst' & Hr & Hcase & allow & res' & Hloc & Hres)]; [done|].
  destruct res' as [[]|]; simplify_eq.
  assert (st_fatal st' = false ∧ lookup_record sha r0 (re_old_topology_generation e) st'
          = Ok (Some r0)) as [Hf Hl].
  { destruct Hcase as [[-> Hl]|(Hl & Hv & Hp)].
    - by apply lookup_found in Hl as Hl'; destruct Hl' as (_ & ? & _).
    - pose proof (persist_record_stored sha _ _ _ _ _ Hp) as (? & ? & _).
      split; [done|]. by apply lookup_stored. }
  apply release_local_record_idem in Hloc.
  unfold release_whole_world_replaced, require_replacement_store, on_scheduler.
  rewrite Hst', Hf, Hr, Hl, Hloc. by eexists.
Qed.

(** ** Concrete instances of the properties *)

Definition demo_ref : EndpointOperationRef :=
  mkEndpointOperationRef "gen1" "owner" 1 "d1" "e1" "op1" "digest".
Definition demo_ack : ack := [("resources_held_after", JBool false)].
Definition demo_plan : CleanupPlan :=
  mkCleanupPlan "c1" "op1" "lease1"
    [mkPredicateSnapshot "transfer" "FENCED" demo_ref true]
    [mkEndpointFinalizePlan "d1" [demo_ref] ["slot"]].
Definition demo_evaluator : ResourceReleaseEvaluator :=
  mkEvaluator demo_quarantined (Some demo_store) 4 4 [] [] [].
Definition demo_waiting : rel_sys :=
  mkRelSys (release_begin demo_plan demo_evaluator).2
    [(release_begin demo_plan demo_evaluator).1] [].
Definition demo_evidence : ReplacementEvidence :=
  mkReplacementEvidence "run1" "gen1" "gen2" ["a"; "b"; "c"; "d"] ["1"; "2"; "3"; "4"]
    "sha256:ops" true "sha256:dec".

(** The slot of [op1] is free again once its only endpoint has answered. *)
Example demo_release :
  let out := resume (Awaiting demo_plan (mkEndpointFinalizePlan "d1" [demo_ref] ["slot"]) [] [])
               (Ok demo_ack) (rs_ev demo_waiting) in
  out.1 = Returned (Ok (Some [demo_ack]))
  ∧ option_map lease_state (decode_slot_lease "op1" (ev_scheduler out.2)) = Some RELEASED.
Proof. vm_compute. done. Qed.

Definition demo_answered : rel_sys :=
  let c := Awaiting demo_plan (mkEndpointFinalizePlan "d1" [demo_ref] ["slot"]) [] [] in
  let out := resume c (Ok demo_ack) (rs_ev demo_waiting) in
  mkRelSys out.2 (<[0%nat := out.1]> (rs_pool demo_waiting))
    (("c1", "d1") :: rs_acked demo_waiting).

Lemma endpoint_release_gated_witness : ev_bounds (rs_ev demo_answered).
Proof.
  apply (endpoint_release_gated demo_quarantined 4 4 (Some demo_store) demo_evaluator
            demo_waiting demo_answered).
  - reflexivity.
  - apply rtc_once, world_release, (rel_begin (mkRelSys demo_evaluator [] []) demo_plan).
  - apply (rel_answer demo_waiting 0 demo_plan
      (mkEndpointFinalizePlan "d1" [demo_ref] ["slot"]) [] [] demo_ack). vm_compute. reflexivity.
Defined.

Lemma replacement_release_is_durable_witness :
  ∃ st', ev_store (release_whole_world_replaced demo_sha write_ok "c1" "op1" "lease1" ["kv"]
                     demo_evidence demo_evaluator).2 = Some st' ∧ st_fatal st' = false.
Proof.
  destruct (replacement_release_is_durable demo_sha demo_repr demo_int write_ok "c1" "op1"
    "lease1" ["kv"] demo_evidence demo_evaluator demo_store
    (release_whole_world_replaced demo_sha write_ok "c1" "op1" "lease1" ["kv"]
       demo_evidence demo_evaluator).1
    (release_whole_world_replaced demo_sha write_ok "c1" "op1" "lease1" ["kv"]
       demo_evidence demo_evaluator).2) as (st' & r & sn & ? & ? & _).
  - reflexivity.
  - eapply (fresh_disk_inv _ demo_repr demo_int 8 2 write_ok). reflexivity.
  - apply surjective_pairing.
  - intros Heq. apply (f_equal (λ s, option_map lease_state (decode_slot_lease "op1" s))) in Heq.
    vm_compute in Heq. done.
  - by exists st'.
Defined.

Lemma replacement_release_replay_witness :
  is_ok (release_whole_world_replaced demo_sha write_failed "c1" "op1" "lease1" ["kv"]
    demo_evidence
    (release_whole_world_replaced demo_sha write_ok "c1" "op1" "lease1" ["kv"]
       demo_evidence demo_evaluator).2).1 = true.
Proof.
  edestruct (replacement_release_replay demo_sha write_ok write_failed "c1" "op1" "lease1"
    ["kv"] demo_evidence demo_evaluator) as (ev'' & Hr & _).
  - apply surjective_pairing_ok. vm_compute. reflexivity.
  - by rewrite Hr.
Defined.
