(* ===== verification/Cleanup.v ===== *)
(** * Request cleanup (scheduler/main_loop.py, the cleanup half)

    Building and judging the evidence that a request's prefill load and
    decode slot may be given back.

    The components share one [World]; a request is an address into the
    tracker's heap, so every read after an await sees what other coroutines
    wrote.  An awaited RPC is a function of the world: the reply it brings
    and the world the coroutine wakes up in.  Nothing is assumed about
    either, and [w_env] lets the answers depend on everything that came before, so a statement about all such functions covers every reply and
    every interleaving at that await.  The random token and the clock of a
    quarantine are [tok] and [now].  Metrics and logging are not modelled. *)

From stdpp Require Import prelude gmap strings.
From S2P Require Import Prelude PyDict Fingerprint SequenceState Scheduler TransferGovernor Output.

Local Open Scope Z_scope.

Record World := mkWorld {
  w_tracker : RequestTracker;
  w_sched : PDScheduler;
  w_gov : TransferGovernor;
  w_out : option GatewayOutputBuffer;
  (** whatever else awaited calls keep between them *)
  w_env : nat }.

#[export] Instance World_eta : Eta World := λ r,
  mkWorld (w_tracker r) (w_sched r) (w_gov r) (w_out r) (w_env r).

Definition set_tracker (v : RequestTracker) (r : World) : World :=
  ltac:(with_field r w_tracker v).
Definition set_sched (v : PDScheduler) (r : World) : World := ltac:(with_field r w_sched v).
Definition set_gov (v : TransferGovernor) (r : World) : World := ltac:(with_field r w_gov v).
Definition set_out (v : option GatewayOutputBuffer) (r : World) : World :=
  ltac:(with_field r w_out v).

(** ** The evidence lattice *)

Inductive RemoteRequestState : Type :=
| NOT_OWNED | NEVER_DISPATCHED | ABORT_ACK | R_UNCERTAIN | ALREADY_COMPLETED.
Inductive TransferCleanupState : Type :=
| T_NONE | DEFERRED_CANCELLED | FENCED_ACK | T_UNCERTAIN.
Inductive TransferEpochResult : Type :=
| BOTH_CURRENT | SOURCE_CHANGED_TARGET_CURRENT | TARGET_CHANGED.

#[export] Instance RemoteRequestState_eq_dec : EqDecision RemoteRequestState.
Proof. solve_decision. Defined.
#[export] Instance TransferCleanupState_eq_dec : EqDecision TransferCleanupState.
Proof. solve_decision. Defined.
#[export] Instance TransferEpochResult_eq_dec : EqDecision TransferEpochResult.
Proof. solve_decision. Defined.

Record CleanupProof := mkCleanupProof {
  request_state : SeqState;
  p_remote_request_state : RemoteRequestState;
  d_remote_request_state : RemoteRequestState;
  transfer_state : TransferCleanupState;
  transfer_mode : TaskState;
  proof_publish_outcome : string;
  request_owns_p_load : bool;
  request_owns_original_d_slot : bool;
  d_epoch_changed : bool }.

Definition classify_transfer_epochs (r : RequestInfo) (s : PDScheduler) : TransferEpochResult :=
  if negb (epoch_matches (decode_instance r) (decode_instance_epoch r) s) then TARGET_CHANGED
  else if negb (epoch_matches (prefill_instance r) (prefill_instance_epoch r) s)
  then SOURCE_CHANGED_TARGET_CURRENT
  else BOTH_CURRENT.

Definition p_load_releasable (p : CleanupProof) : bool :=
  negb (request_owns_p_load p)
  || bool_decide (p_remote_request_state p ∈ [NOT_OWNED; ALREADY_COMPLETED])
  || (bool_decide (proof_publish_outcome p = "NOT_STARTED")
      && bool_decide (p_remote_request_state p = NEVER_DISPATCHED))
  || (bool_decide (proof_publish_outcome p = "ACKED")
      && bool_decide (p_remote_request_state p = ABORT_ACK)).

Definition proof_valid (p : CleanupProof) : bool :=
  let d_answered := bool_decide (d_remote_request_state p ∈ [ABORT_ACK; R_UNCERTAIN]) in
  let d_never := bool_decide (d_remote_request_state p = NEVER_DISPATCHED) in
  let p_completed := bool_decide (p_remote_request_state p = ALREADY_COMPLETED) in
  let no_transfer := bool_decide (transfer_state p = T_NONE)
                     && bool_decide (transfer_mode p = task_none) in
  match request_state p with
  | WAITING =>
      negb (request_owns_p_load p) && negb (request_owns_original_d_slot p)
      && bool_decide (p_remote_request_state p = NOT_OWNED) && d_never && no_transfer
  | PREFILLING =>
      let p_valid :=
        (bool_decide (proof_publish_outcome p = "NOT_STARTED")
         && bool_decide (p_remote_request_state p = NEVER_DISPATCHED))
        || (bool_decide (proof_publish_outcome p = "ACKED")
            && bool_decide (p_remote_request_state p ∈ [ABORT_ACK; R_UNCERTAIN]))
        || (bool_decide (proof_publish_outcome p = "UNKNOWN")
            && bool_decide (p_remote_request_state p
                              ∈ [NEVER_DISPATCHED; ABORT_ACK; R_UNCERTAIN])) in
      request_owns_p_load p && request_owns_original_d_slot p && p_valid && d_never
      && no_transfer
  | KV_PENDING =>
      negb (request_owns_p_load p) && request_owns_original_d_slot p && p_completed
      && d_answered
      && ((bool_decide (transfer_mode p = task_deferred)
           && bool_decide (transfer_state p = DEFERRED_CANCELLED))
          || (bool_decide (transfer_mode p = task_inflight)
              && bool_decide (transfer_state p ∈ [FENCED_ACK; T_UNCERTAIN])))
  | DECODING =>
      negb (request_owns_p_load p) && request_owns_original_d_slot p && p_completed
      && d_answered && no_transfer
  | RECOMPUTING =>
      negb (request_owns_p_load p) && request_owns_original_d_slot p && p_completed
      && d_answered && bool_decide (transfer_state p = FENCED_ACK)
      && bool_decide (transfer_mode p = task_none)
  | AFFINITY_LOADING | PREFIX_PREFILLING | FINISHED | ABORTED => false
  end.

Definition validate_cleanup_proof (p : CleanupProof) : result exn unit :=
  if proof_valid p then Ok tt else Raise ValueError.

Definition d_slot_releasable (p : CleanupProof) : bool :=
  if negb (request_owns_original_d_slot p) || d_epoch_changed p then false
  else match request_state p with
  | PREFILLING => bool_decide (d_remote_request_state p = NEVER_DISPATCHED)
                  && bool_decide (transfer_state p = T_NONE)
  | KV_PENDING => bool_decide (d_remote_request_state p = ABORT_ACK)
                  && bool_decide (transfer_state p ∈ [DEFERRED_CANCELLED; FENCED_ACK])
  | DECODING => bool_decide (d_remote_request_state p = ABORT_ACK)
                && bool_decide (transfer_state p = T_NONE)
  | RECOMPUTING => bool_decide (d_remote_request_state p = ABORT_ACK)
                   && bool_decide (transfer_state p = FENCED_ACK)
  | _ => false
  end.

(** ** RPC replies *)

(** What a client method may come back with: a dictionary with or without a
    true [success], a plain value, or an exception (a timeout included). *)
Inductive rpc_reply : Type :=
| ReplyDict (success : bool)
| ReplyValue (v : bool)
| ReplyError.

(** [_abort_remote_request] and [_abort_remote_transfer] after the reply. *)
Definition acknowledged (r : rpc_reply) : bool :=
  match r with ReplyDict b | ReplyValue b => b | ReplyError => false end.

(** An await: the reply, and the world it wakes up in. *)
Definition await_rpc : Type := World → rpc_reply * World.

(** ** Methods of the shared world *)

Definition sched_do {A} (f : PDScheduler → A * PDScheduler) : method World A := λ W,
  let '(x, s) := f (w_sched W) in (Ok x, set_sched s W).
Definition sched_try {A} (m : method PDScheduler A) : method World A := λ W,
  let '(x, s) := m (w_sched W) in (x, set_sched s W).
Definition tracker_do {A} (f : RequestTracker → A * RequestTracker) : method World A := λ W,
  let '(x, t) := f (w_tracker W) in (Ok x, set_tracker t W).
Definition tracker_try {A} (m : method RequestTracker A) : method World A := λ W,
  let '(x, t) := m (w_tracker W) in (x, set_tracker t W).
Definition gov_do (f : TransferGovernor → TransferGovernor) : method World unit :=
  modify (λ W, set_gov (f (w_gov W)) W).

Definition request_at (a : handle) (W : World) : option RequestInfo :=
  trk_heap (w_tracker W) !! a.

(** Reading the attributes of the request object; an object a coroutine holds
    is never freed. *)
Definition the_request (a : handle) : method World RequestInfo := λ W,
  match request_at a W with Some r => (Ok r, W) | None => (Raise KeyError, W) end.

(** [await _abort_remote_request(...)] and [await _abort_remote_transfer(...)] *)
Definition abort_remote (rpc : await_rpc) : method World bool := λ W,
  let '(reply, W') := rpc W in (Ok (acknowledged reply), W').

(** [if c: m] *)
Definition when (c : bool) (m : method World unit) : method World unit :=
  if c then m else mret tt.

(** The locals of [_fence_and_abort_request]. *)
Record Fence := mkFence {
  owns_p : bool;
  owns_d : bool;
  p_epoch_changed : bool;
  target_epoch_changed : bool;
  source_changed_target_current : bool;
  p_state : RemoteRequestState;
  d_state : RemoteRequestState;
  f_transfer : TransferCleanupState;
  f_task : TaskState }.

#[export] Instance Fence_eta : Eta Fence := λ f,
  mkFence (owns_p f) (owns_d f) (p_epoch_changed f) (target_epoch_changed f)
    (source_changed_target_current f) (p_state f) (d_state f) (f_transfer f) (f_task f).

Definition set_p_changed (r : Fence) : Fence := ltac:(with_field r p_epoch_changed true).
Definition set_target_changed (r : Fence) : Fence :=
  ltac:(with_field r target_epoch_changed true).
Definition set_source_changed (r : Fence) : Fence :=
  ltac:(with_field r source_changed_target_current true).
Definition set_p_state (v : RemoteRequestState) (r : Fence) : Fence :=
  ltac:(with_field r p_state v).
Definition set_d_state (v : RemoteRequestState) (r : Fence) : Fence :=
  ltac:(with_field r d_state v).
Definition set_transfer (v : TransferCleanupState) (r : Fence) : Fence :=
  ltac:(with_field r f_transfer v).
Definition set_task (v : TaskState) (r : Fence) : Fence := ltac:(with_field r f_task v).

(** [ABORT_ACK if acknowledged else UNCERTAIN] *)
Definition remote_of (ack : bool) : RemoteRequestState :=
  if ack then ABORT_ACK else R_UNCERTAIN.

Definition begin_fence (r : RequestInfo) (s : PDScheduler) (g : TransferGovernor) : Fence :=
  let own_p := bool_decide (state r = PREFILLING) && truthy (prefill_instance r) in
  let own_d := truthy (decode_instance r) && bool_decide (state r ≠ WAITING) in
  mkFence own_p own_d
    (own_p && negb (epoch_matches (prefill_instance r) (prefill_instance_epoch r) s))
    (own_d && negb (epoch_matches (decode_instance r) (decode_instance_epoch r) s))
    false
    (if own_p then NEVER_DISPATCHED
     else if decide (state r = WAITING) then NOT_OWNED else ALREADY_COMPLETED)
    NEVER_DISPATCHED T_NONE
    (task_state (req_id r) (or_none (transfer_operation_id r)) g).

(** The [CleanupProof] built from the locals and the request read then. *)
Definition make_proof (f : Fence) (r : RequestInfo) : CleanupProof :=
  mkCleanupProof (state r) (p_state f) (d_state f) (f_transfer f)
    (if decide (state r = KV_PENDING) then f_task f else task_none)
    (publish_outcome r) (owns_p f) (owns_d f) (target_epoch_changed f).

Section cleanup.
Context (owner_id : string) (tok : World → string) (clock : World → Z).

Definition quarantine (i : string) (uncertain_transfer uncertain_dispatch : option evidence) :
    method World unit :=
  modify (λ W, set_sched
    (quarantine_instance i uncertain_transfer uncertain_dispatch (tok W) (clock W)
       (w_sched W)).2 W).

Definition transition_to (rid : string) (s : SeqState) (kwargs : list attr) :
    method World unit := λ W, tracker_try (transition rid s kwargs (clock W)) W.

Definition prefill_done (i e : string) : method World bool :=
  sched_do (on_prefill_done i (Some e)).
Definition decode_finished (i e : string) : method World bool :=
  sched_try (on_decode_finished i (Some e) None).

Definition quarantine_source_changed_transfer (r : RequestInfo) : method World unit :=
  _ ← quarantine (decode_instance r)
        (Some (owner_id, req_id r, transfer_operation_id r, decode_instance_epoch r)) None;
  gov_do (λ g, (cancel (req_id r) (Some (transfer_operation_id r)) g).2).

(** The outcome of a classification that is not BOTH_CURRENT. *)
Definition epoch_moved (r : RequestInfo) (target : bool) (f : Fence) : method World Fence :=
  if target then
    _ ← gov_do (λ g, (cancel (req_id r) (Some (transfer_operation_id r)) g).2);
    mret (set_target_changed f)
  else
    _ ← quarantine_source_changed_transfer r;
    mret (set_transfer T_UNCERTAIN (set_source_changed f)).

(** The transfer evidence. *)
Definition fence_transfer (rpc_transfer : await_rpc) (a : handle) (f : Fence) :
    method World Fence :=
  r ← the_request a; W ← read;
  match state r with
  | KV_PENDING =>
      if target_epoch_changed f then mret (set_transfer FENCED_ACK f)
      else match f_task f with
      | task_deferred =>
          _ ← gov_do (λ g, (cancel (req_id r) (Some (transfer_operation_id r)) g).2);
          mret (set_transfer DEFERRED_CANCELLED f)
      | task_inflight =>
          match classify_transfer_epochs r (w_sched W) with
          | BOTH_CURRENT =>
              fenced ← abort_remote rpc_transfer;
              r' ← the_request a; W' ← read;
              match classify_transfer_epochs r' (w_sched W') with
              | BOTH_CURRENT =>
                  mret (set_transfer (if fenced : bool then FENCED_ACK else T_UNCERTAIN) f)
              | TARGET_CHANGED => epoch_moved r' true f
              | SOURCE_CHANGED_TARGET_CURRENT => epoch_moved r' false f
              end
          | TARGET_CHANGED => epoch_moved r true f
          | SOURCE_CHANGED_TARGET_CURRENT => epoch_moved r false f
          end
      | task_none => mret (set_transfer T_UNCERTAIN (set_task task_inflight f))
      end
  | RECOMPUTING => mret (set_transfer FENCED_ACK f)
  | _ => mret f
  end.

(** The prefill evidence. *)
Definition fence_prefill (rpc_p : await_rpc) (a : handle) (f : Fence) : method World Fence :=
  if owns_p f && negb (p_epoch_changed f) then
    ack ← abort_remote rpc_p;
    r ← the_request a; W ← read;
    mret (if epoch_matches (prefill_instance r) (prefill_instance_epoch r) (w_sched W)
          then set_p_state (remote_of ack) f else set_p_changed f)
  else mret f.

(** The decode evidence. *)
Definition fence_decode (rpc_d : await_rpc) (a : handle) (f : Fence) : method World Fence :=
  r ← the_request a;
  if negb (target_epoch_changed f) && negb (source_changed_target_current f)
     && bool_decide (state r ∈ [KV_PENDING; RECOMPUTING; DECODING])
  then
    ack ← abort_remote rpc_d;
    r' ← the_request a; W ← read;
    if epoch_matches (decode_instance r') (decode_instance_epoch r') (w_sched W)
    then mret (set_d_state (remote_of ack) f)
    else
      _ ← gov_do (λ g, (cancel (req_id r') (or_none (transfer_operation_id r')) g).2);
      mret (set_target_changed f)
  else mret f.

(** Giving back or fencing the prefill load. *)
Definition settle_prefill (f : Fence) (r : RequestInfo) : method World unit :=
  when (owns_p f && negb (p_epoch_changed f))
    (if p_load_releasable (make_proof f r)
     then _ ← prefill_done (prefill_instance r) (prefill_instance_epoch r); mret tt
     else quarantine (prefill_instance r) None None).

(** Giving back or fencing the decode slot. *)
Definition settle_decode (f : Fence) (r : RequestInfo) : method World unit :=
  when (owns_d f && negb (target_epoch_changed f)
        && negb (source_changed_target_current f))
    (if d_slot_releasable (make_proof f r)
     then _ ← decode_finished (decode_instance r) (decode_instance_epoch r); mret tt
     else
       W ← read;
       quarantine (decode_instance r)
         (if decide (f_transfer f = T_UNCERTAIN)
          then Some (owner_id, req_id r, transfer_operation_id r,
                     instance_epoch (decode_instance r) (w_sched W))
          else None) None).

(** From the proof to the end of [_fence_and_abort_request]. *)
Definition settle (a : handle) (f : Fence) : method World CleanupProof :=
  r ← the_request a;
  _ ← when (negb (p_epoch_changed f) && negb (target_epoch_changed f)
            && negb (source_changed_target_current f))
        (λ W, (validate_cleanup_proof (make_proof f r), W));
  _ ← settle_prefill f r;
  _ ← settle_decode f r;
  _ ← gov_do (finish_request (req_id r));
  mret (make_proof f r).

Definition fence_and_abort_request (rpc_transfer rpc_p rpc_d : await_rpc) (a : handle) :
    method World CleanupProof :=
  r ← the_request a; W ← read;
  f0 ← fence_transfer rpc_transfer a (begin_fence r (w_sched W) (w_gov W));
  f1 ← fence_prefill rpc_p a f0;
  f2 ← fence_decode rpc_d a f1;
  settle a f2.

(** [tracker.get(req.req_id) is req] *)
Definition tracked (a : handle) (r : RequestInfo) (W : World) : bool :=
  bool_decide (get (req_id r) (w_tracker W) = Some a).

(** [if req.state not in {FINISHED, ABORTED}: transition(ABORTED)] *)
Definition abort_if_live (r : RequestInfo) : method World unit :=
  when (bool_decide (state r ∉ [FINISHED; ABORTED])) (transition_to (req_id r) ABORTED []).

(** The block that ends both branches of [_canonical_cleanup]:
    [drop_request] is [released] there, true in the local branch. *)
Definition retire (a : handle) (drop_request : bool) : method World unit :=
  r ← the_request a; W ← read;
  when (tracked a r W)
    (_ ← abort_if_live r;
     when drop_request (_ ← tracker_do (remove (req_id r)); mret tt)).

Definition forget_task (a : handle) (current : option handle) : method World unit :=
  r ← the_request a;
  match current with
  | None => mret tt
  | Some t => modify (λ W, set_tracker (clear_cleanup_task (req_id r) t (w_tracker W)) W)
  end.

(** [cleanup_request(scheduler, req, abort=True)] of the network client:
    any outcome, and any effect on the world. *)
Definition await_cleanup : Type := World → result exn bool * World.

Definition network_cleanup (cleanup_request : await_cleanup) (a : handle) :
    method World unit :=
  r ← the_request a;
  _ ← when (truthy (prefill_instance r))
        (_ ← prefill_done (prefill_instance r) (prefill_instance_epoch r); mret tt);
  released ← (cleanup_request : method World bool);
  r' ← the_request a;
  _ ← when released (gov_do (finish_request (req_id r')));
  retire a released.

(** The branch for a prefill whose publish outcome is UNKNOWN. *)
Definition unknown_publish_cleanup (rpc_p : await_rpc) (a : handle) : method World unit :=
  r ← the_request a; W ← read;
  let current :=
    epoch_matches (prefill_instance r) (prefill_instance_epoch r) (w_sched W) in
  _ ← when current
        (quarantine (prefill_instance r) None
           (Some (owner_id, req_id r, command_id r, prefill_instance_epoch r)));
  _ ← decode_finished (decode_instance r) (decode_instance_epoch r);
  _ ← when current (_ ← abort_remote rpc_p; mret tt);
  r' ← the_request a;
  gov_do (finish_request (req_id r')).

(** The branch for a prefill that was never published. *)
Definition unpublished_cleanup (a : handle) : method World unit :=
  r ← the_request a;
  _ ← prefill_done (prefill_instance r) (prefill_instance_epoch r);
  _ ← decode_finished (decode_instance r) (decode_instance_epoch r);
  gov_do (finish_request (req_id r)).

Definition local_cleanup (rpc_transfer rpc_p rpc_d : await_rpc) (a : handle) :
    method World unit :=
  r ← the_request a;
  if bool_decide (state r = PREFILLING) && bool_decide (publish_outcome r = "UNKNOWN")
  then unknown_publish_cleanup rpc_p a
  else if bool_decide (state r = PREFILLING) && bool_decide (publish_outcome r = "NOT_STARTED")
  then unpublished_cleanup a
  else _ ← fence_and_abort_request rpc_transfer rpc_p rpc_d a; mret tt.

(** [network]: [_uses_week12_network_control(governor)]. *)
Definition canonical_cleanup (network : bool) (rpc_transfer rpc_p rpc_d : await_rpc)
    (cleanup_request : await_cleanup) (current : option handle) (a : handle) :
    method World unit :=
  r ← the_request a; W ← read;
  if negb (tracked a r W) then mret tt
  else
    _ ← (if network then network_cleanup cleanup_request a
         else (_ ← local_cleanup rpc_transfer rpc_p rpc_d a; retire a true));
    forget_task a current.

(** One turn of the loop of [_abort_and_release]. *)
Definition abort_and_release_one (rpc : await_rpc) (prefill : bool) (i : string)
    (a : handle) : method World unit :=
  r ← the_request a; W ← read;
  let e := if prefill then prefill_instance_epoch r else decode_instance_epoch r in
  when (epoch_matches i e (w_sched W))
    (ack ← abort_remote rpc;
     if ack : bool
     then (_ ← (if prefill then prefill_done i e else decode_finished i e); mret tt)
     else quarantine i None None).

Definition abort_and_release (rpc_p rpc_d : await_rpc) (include_prefill : bool)
    (a : handle) : method World unit :=
  r ← the_request a;
  _ ← when (include_prefill && truthy (prefill_instance r))
        (abort_and_release_one rpc_p true (prefill_instance r) a);
  _ ← when (truthy (decode_instance r)) (abort_and_release_one rpc_d false (decode_instance r) a);
  r' ← the_request a;
  gov_do (finish_request (req_id r')).
End cleanup.

(** ** Capacity and evidence *)

(** What the scheduler may still place on an instance. *)
Definition capacity (i : string) (s : PDScheduler) : option Z * option Z :=
  (dget i (prefill_load s), dget i (decode_free_slots s)).

Definition fenced (i : string) (s : PDScheduler) : Prop := is_Some (quarantined s !! i).

(** Some call of the RPC brought a positive acknowledgement. *)
Definition was_acked (rpc : await_rpc) : Prop := ∃ W, acknowledged (rpc W).1 = true.

Lemma method_bind_ok {S A B} (m : method S A) (k : A → method S B) s b s' :
  (m ≫= k) s = (Ok b, s') → ∃ x s1, m s = (Ok x, s1) ∧ k x s1 = (Ok b, s').
Proof.
  unfold mbind, method_mbind, method_bind. destruct (m s) as [[x|e] s1]; [|done]. eauto.
Qed.

Lemma method_bind_run {S A B} (m : method S A) (k : A → method S B) s x s1 :
  m s = (Ok x, s1) → (m ≫= k) s = k x s1.
Proof. unfold mbind, method_mbind, method_bind. by intros ->. Qed.

Lemma read_bind {S B} (k : S → method S B) s : (read ≫= k) s = k s s.
Proof. done. Qed.

Lemma the_request_ok a W r W' :
  the_request a W = (Ok r, W') → request_at a W = Some r ∧ W' = W.
Proof. unfold the_request. destruct (request_at a W); naive_solver. Qed.

Lemma the_request_run a W r :
  request_at a W = Some r → the_request a W = (Ok r, W).
Proof. unfold the_request. by intros ->. Qed.

Lemma quarantine_instance_fenced i t d tok now s :
  fenced i (quarantine_instance i t d tok now s).2.
Proof.
  unfold fenced, quarantine_instance. destruct (quarantined s !! i) eqn:Hq.
  - destruct (known _ _ && known _ _); simpl; rewrite ?lookup_insert_eq, ?Hq; eauto.
  - simpl. rewrite lookup_insert_eq. eauto.
Qed.

Lemma quarantine_instance_other i j t d tok now s :
  j ≠ i → capacity j (quarantine_instance i t d tok now s).2 = capacity j s.
Proof.
  intros Hj. unfold capacity, quarantine_instance. destruct (quarantined s !! i).
  - by destruct (known _ _ && known _ _).
  - simpl. by rewrite !dget_dpop_ne.
Qed.

Lemma quarantine_instance_mono i j t d tok now s :
  fenced j s → fenced j (quarantine_instance i t d tok now s).2.
Proof.
  intros Hj. destruct (decide (j = i)) as [->|Hne]; [apply quarantine_instance_fenced|].
  unfold fenced, quarantine_instance in *. destruct (quarantined s !! i).
  - destruct (known _ _ && known _ _); simpl; [done|]. by rewrite lookup_insert_ne.
  - simpl. by rewrite lookup_insert_ne.
Qed.

Lemma on_prefill_done_other i e j s :
  j ≠ i → capacity j (on_prefill_done i e s).2 = capacity j s.
Proof.
  intros. unfold capacity, on_prefill_done. destruct (epoch_stale _ _ _); [done|].
  destruct (dget i (prefill_load s)); [|done]. simpl. by rewrite dget_dset_ne.
Qed.

Lemma free_one_slot_other i j s : j ≠ i → capacity j (free_one_slot i s).2 = capacity j s.
Proof.
  intros. unfold capacity, free_one_slot. destruct (dget i (decode_free_slots s)); [|done].
  destruct (dget i (decode_max_slots s)); [|done]. case_bool_decide; [done|].
  simpl. by rewrite dget_dset_ne.
Qed.

Lemma on_decode_finished_other i e j s :
  j ≠ i → capacity j (on_decode_finished i e None s).2 = capacity j s.
Proof.
  intros. unfold on_decode_finished. destruct (epoch_stale _ _ _); [done|].
  by apply free_one_slot_other.
Qed.

(** Neither report touches the quarantine table. *)
Lemma reports_keep_quarantine i e s :
  quarantined (on_prefill_done i e s).2 = quarantined s
  ∧ quarantined (on_decode_finished i e None s).2 = quarantined s.
Proof.
  unfold on_prefill_done, on_decode_finished, free_one_slot.
  destruct (epoch_stale _ _ _); [done|].
  destruct (dget i (prefill_load s)), (dget i (decode_free_slots s)),
    (dget i (decode_max_slots s)); try case_bool_decide; done.
Qed.

Lemma finish_request_ledger rid g : gov_wf g → rid ∉ ledger_ids (finish_request rid g).
Proof.
  intros Hwf. unfold finish_request, ledger_ids, cancel. simpl.
  assert (∀ g', deferred g' = (λ kq : string * list TransferTask,
      (kq.1, filter (λ t, matches_task rid None t = false) kq.2)) <$> deferred g →
      rid ∉ task_req_id <$> deferred_tasks g') as Hdef.
  { intros g' Hg'. unfold deferred_tasks. rewrite Hg'. clear.
    induction (deferred g) as [|[k q] d IH]; simpl; [set_solver|].
    rewrite fmap_app, not_elem_of_app. split; [|done].
    intros (t & -> & [Ht _]%list_elem_of_filter)%list_elem_of_fmap.
    unfold matches_task in Ht. simpl in Ht. by rewrite bool_decide_eq_true_2 in Ht. }
  destruct (dget rid (inflight g)) as [t|] eqn:Ht; simpl;
    rewrite not_elem_of_app; (split; [|by apply Hdef]).
  - destruct (ga_key g (gw_acct g Hwf) _ _ Ht) as [-> _].
    rewrite elem_of_dkeys_dpop. tauto.
  - by apply dget_None.
Qed.

(** A step that changes only the scheduler, and its capacity only as said:
    instances in [Rel] may gain capacity, those in [Need] end up fenced, no
    fence is lifted. *)
Record settles (Rel Need : string → Prop) (W W' : World) : Prop := {
  st_tracker : w_tracker W' = w_tracker W;
  st_gov : w_gov W' = w_gov W;
  st_out : w_out W' = w_out W;
  st_capacity : ∀ j, capacity j (w_sched W') = capacity j (w_sched W)
                     ∨ fenced j (w_sched W') ∨ Rel j;
  st_mono : ∀ j, fenced j (w_sched W) → fenced j (w_sched W');
  st_need : ∀ j, Need j → fenced j (w_sched W') }.

Lemma settles_refl W : settles (λ _, False) (λ _, False) W W.
Proof. split; naive_solver. Qed.

Lemma settles_trans R1 N1 R2 N2 W W1 W2 :
  settles R1 N1 W W1 → settles R2 N2 W1 W2 →
  settles (λ j, R1 j ∨ R2 j) (λ j, N1 j ∨ N2 j) W W2.
Proof.
  intros H1 H2. split.
  - by rewrite (st_tracker _ _ _ _ H2), (st_tracker _ _ _ _ H1).
  - by rewrite (st_gov _ _ _ _ H2), (st_gov _ _ _ _ H1).
  - by rewrite (st_out _ _ _ _ H2), (st_out _ _ _ _ H1).
  - intros j. destruct (st_capacity _ _ _ _ H2 j) as [->|[?|?]]; [|tauto..].
    destruct (st_capacity _ _ _ _ H1 j) as [->|[?|?]]; [tauto| |tauto].
    right; left. by eapply st_mono.
  - intros j Hj. eapply st_mono; [done|]. by eapply st_mono.
  - intros j [Hj|Hj]; [eapply st_mono; [done|]|]; by eapply st_need.
Qed.

Lemma settles_weaken (R N R' N' : string → Prop) W W' :
  (∀ j, R j → R' j) → (∀ j, N' j → N j) → settles R N W W' → settles R' N' W W'.
Proof.
  intros HR HN []. split; auto. intros j. destruct (st_capacity0 j) as [|[|]]; auto.
Qed.

Section settling.
Context (owner_id : string) (tok : World → string) (clock : World → Z).

Lemma quarantine_settles i t d W x W' :
  quarantine tok clock i t d W = (x, W') → settles (λ _, False) (eq i) W W'.
Proof.
  intros [= _ <-]. split; try done; simpl.
  - intros j. destruct (decide (j = i)) as [->|]; [right; left|left].
    + apply quarantine_instance_fenced.
    + by apply quarantine_instance_other.
  - intros j. apply quarantine_instance_mono.
  - intros j <-. apply quarantine_instance_fenced.
Qed.

Lemma prefill_done_settles i e W x W' :
  prefill_done i e W = (x, W') → settles (eq i) (λ _, False) W W'.
Proof.
  unfold prefill_done, sched_do.
  pose proof (reports_keep_quarantine i (Some e) (w_sched W)) as [Hq _].
  pose proof (λ j, on_prefill_done_other i (Some e) j (w_sched W)) as Ho.
  destruct (on_prefill_done _ _ _) as [y s]. simpl in *. intros [= _ <-].
  split; try done; simpl.
  - intros j. destruct (decide (j = i)); auto.
  - unfold fenced. by rewrite Hq.
Qed.

Lemma decode_finished_settles i e W x W' :
  decode_finished i e W = (x, W') → settles (eq i) (λ _, False) W W'.
Proof.
  unfold decode_finished, sched_try.
  pose proof (reports_keep_quarantine i (Some e) (w_sched W)) as [_ Hq].
  pose proof (λ j, on_decode_finished_other i (Some e) j (w_sched W)) as Ho.
  destruct (on_decode_finished _ _ _ _) as [y s]. simpl in *. intros [= _ <-].
  split; try done; simpl.
  - intros j. destruct (decide (j = i)); auto.
  - unfold fenced. by rewrite Hq.
Qed.

(** What settling an owned instance does, released or fenced. *)
Definition released_at (i : string) (owned rel : bool) (j : string) : Prop :=
  j = i ∧ owned = true ∧ rel = true.
Definition fenced_at (i : string) (owned rel : bool) (j : string) : Prop :=
  j = i ∧ owned = true ∧ rel = false.

Lemma settle_one_settles i (owned rel : bool) (give : method World bool) (hold : method World unit)
    W x W' :
  (∀ y W', give W = (y, W') → settles (eq i) (λ _, False) W W') →
  (∀ y W', hold W = (y, W') → settles (λ _, False) (eq i) W W') →
  when owned (if rel then (_ ← give; mret tt) else hold) W = (Ok x, W') →
  settles (released_at i owned rel) (fenced_at i owned rel) W W'.
Proof.
  intros Hg Hh. unfold when, released_at, fenced_at. destruct owned; [destruct rel|].
  - intros (b & W1 & Hd & [= _ ->])%method_bind_ok.
    eapply settles_weaken; [..|by eapply Hg]; naive_solver.
  - intros H. eapply settles_weaken; [..|by eapply Hh]; naive_solver.
  - intros [= _ <-]. eapply settles_weaken; [..|apply settles_refl]; naive_solver.
Qed.

Definition p_owned (f : Fence) : bool := owns_p f && negb (p_epoch_changed f).
Definition d_owned (f : Fence) : bool :=
  owns_d f && negb (target_epoch_changed f) && negb (source_changed_target_current f).

Lemma settle_settles a f W proof W' :
  settle owner_id tok clock a f W = (Ok proof, W') →
  ∃ r, request_at a W = Some r ∧ proof = make_proof f r
    ∧ (d_owned f = true → p_epoch_changed f = false → proof_valid proof = true)
    ∧ w_gov W' = finish_request (req_id r) (w_gov W)
    ∧ settles
        (λ j, released_at (prefill_instance r) (p_owned f) (p_load_releasable proof) j
              ∨ released_at (decode_instance r) (d_owned f) (d_slot_releasable proof) j)
        (λ j, fenced_at (prefill_instance r) (p_owned f) (p_load_releasable proof) j
              ∨ fenced_at (decode_instance r) (d_owned f) (d_slot_releasable proof) j)
        W (set_gov (w_gov W) W').
Proof.
  unfold settle. intros (r & W0 & [Hr ->]%the_request_ok & H)%method_bind_ok.
  apply method_bind_ok in H as (? & W1 & Hv & H).
  assert (W1 = W ∧ (d_owned f = true → p_epoch_changed f = false →
                    proof_valid (make_proof f r) = true)) as [-> Hvalid].
  { unfold when, validate_cleanup_proof, d_owned in *.
    destruct (p_epoch_changed f), (target_epoch_changed f), (source_changed_target_current f),
      (proof_valid (make_proof f r)); simpl in *; split;
      first [by injection Hv | by rewrite ?andb_false_r | done]. }
  apply method_bind_ok in H as (? & W2 & Hp & H).
  apply method_bind_ok in H as (? & W3 & Hd & [= <- <-]).
  apply settle_one_settles with (i := prefill_instance r) in Hp;
    [|intros; by eapply prefill_done_settles|intros; by eapply quarantine_settles].
  apply settle_one_settles with (i := decode_instance r) in Hd;
    [|intros; by eapply decode_finished_settles|].
  2: { intros y W'. rewrite read_bind. intros. by eapply quarantine_settles. }
  pose proof (settles_trans _ _ _ _ _ _ _ Hp Hd) as Hs.
  pose proof (st_gov _ _ _ _ Hs) as Hg.
  exists r. split_and!; try done; simpl; [by rewrite Hg|].
  by destruct W3; simpl in *; subst.
Qed.

Lemma epoch_moved_ok r target f W f' W' :
  epoch_moved owner_id tok clock r target f W = (Ok f', W') →
  w_tracker W' = w_tracker W
  ∧ if target then f' = set_target_changed f
    else f' = set_transfer T_UNCERTAIN (set_source_changed f)
         ∧ fenced (decode_instance r) (w_sched W').
Proof.
  destruct target; simpl; intros H.
  - apply method_bind_ok in H as (? & ? & [= _ <-] & [= <- <-]). done.
  - apply method_bind_ok in H as (? & ? & Hq & [= <- <-]).
    apply method_bind_ok in Hq as (? & ? & [= _ <-] & [= _ <-]). simpl.
    split_and!; try done. apply quarantine_instance_fenced.
Qed.

End settling.

(** ** Where the evidence comes from *)

Lemma abort_remote_ok rpc W b W' :
  abort_remote rpc W = (Ok b, W') → b = true → was_acked rpc.
Proof.
  unfold abort_remote. destruct (rpc W) as [reply W1] eqn:Hrpc. intros [= <- <-] Ha.
  exists W. by rewrite Hrpc.
Qed.

Section evidence.
Context (rpc_transfer rpc_p rpc_d : await_rpc).

(** The locals agree with the replies: an acknowledgement is recorded only
    when one arrived. *)
Record fence_inv (r0 : RequestInfo) (f : Fence) : Prop := {
  fi_p : p_state f = ABORT_ACK → was_acked rpc_p;
  fi_d : d_state f = ABORT_ACK → was_acked rpc_d;
  fi_t : f_transfer f = FENCED_ACK →
    was_acked rpc_transfer ∨ target_epoch_changed f = true ∨ state r0 = RECOMPUTING;
  fi_owns_p : owns_p f = true →
    state r0 = PREFILLING ∧ p_state f ∈ [NEVER_DISPATCHED; ABORT_ACK; R_UNCERTAIN];
  fi_source : source_changed_target_current f = true →
    state r0 = KV_PENDING ∧ f_transfer f = T_UNCERTAIN }.

Lemma begin_fence_inv r s g : fence_inv r (begin_fence r s g).
Proof.
  split; simpl; try done.
  - repeat case_match; done.
  - intros [Hs%bool_decide_eq_true Ht]%andb_true_iff. rewrite Ht.
    rewrite (bool_decide_eq_true_2 _ Hs). split; [done|]. simpl. set_solver.
Qed.

Lemma fence_prefill_inv a r0 W f f' W' :
  fence_prefill rpc_p a f W = (Ok f', W') → fence_inv r0 f →
  fence_inv r0 f' ∧ owns_p f' = owns_p f
  ∧ source_changed_target_current f' = source_changed_target_current f
  ∧ (owns_p f = false → W' = W).
Proof.
  unfold fence_prefill. destruct (owns_p f) eqn:Ho; simpl; [|by intros [= <- <-]].
  destruct (p_epoch_changed f); simpl; [by intros [= <- <-]|].
  intros (b & W1 & Hb & H)%method_bind_ok Hinv.
  apply method_bind_ok in H as (r & ? & [Hr ->]%the_request_ok & [= <- <-]).
  destruct Hinv. split; [|by destruct (epoch_matches _ _ _)].
  destruct (epoch_matches _ _ _); split; simpl; auto.
  - destruct b; [|done]. intros _. by eapply abort_remote_ok.
  - intros Hp. split; [by apply fi_owns_p0|]. destruct b; set_solver.
Qed.

Lemma fence_decode_inv a r0 W f f' W' :
  fence_decode rpc_d a f W = (Ok f', W') → fence_inv r0 f →
  fence_inv r0 f' ∧ source_changed_target_current f' = source_changed_target_current f
  ∧ (source_changed_target_current f = true → W' = W).
Proof.
  unfold fence_decode. intros (r & ? & [Hr ->]%the_request_ok & H)%method_bind_ok Hinv.
  destruct (_ && _) eqn:Hc; [|injection H as <- <-; by destruct Hinv].
  apply andb_true_iff in Hc as [[_ Hs%negb_true_iff]%andb_true_iff _].
  apply method_bind_ok in H as (b & W1 & Hb & H).
  apply method_bind_ok in H as (r' & ? & [Hr' ->]%the_request_ok & H).
  rewrite read_bind in H. destruct Hinv. destruct (epoch_matches _ _ _).
  - injection H as <- <-. split_and!; simpl; [|done|congruence].
    split; simpl; auto. destruct b; [|done]. intros _. by eapply abort_remote_ok.
  - apply method_bind_ok in H as (? & ? & [= _ <-] & [= <- <-]).
    split_and!; simpl; [|done|congruence]. split; simpl; auto.
Qed.

Context (owner_id : string) (tok : World → string) (clock : World → Z).

(** What the transfer stage leaves behind; a changed source is already
    fenced. *)
Definition transfer_post (a : handle) (r0 : RequestInfo) (f f' : Fence) (W' : World) : Prop :=
  fence_inv r0 f' ∧ owns_p f' = owns_p f ∧ owns_d f' = owns_d f
  ∧ (source_changed_target_current f' = true →
     ∃ r, request_at a W' = Some r ∧ fenced (decode_instance r) (w_sched W')).

Lemma transfer_post_moved a r0 f r b W f' W' :
  state r0 = KV_PENDING → source_changed_target_current f = false → fence_inv r0 f →
  request_at a W = Some r →
  epoch_moved owner_id tok clock r b f W = (Ok f', W') → transfer_post a r0 f f' W'.
Proof.
  intros Hk Hsrc Hinv Hr [Htr Hb]%epoch_moved_ok. destruct Hinv. destruct b.
  - subst f'. split; [split; simpl; auto|]. split_and!; simpl; [done|done|congruence].
  - destruct Hb as [-> Hf]. split; [split; naive_solver|]. split_and!; simpl; [done|done|].
    intros _. exists r. unfold request_at in *. by rewrite Htr.
Qed.

Lemma transfer_post_set a r0 f v W' :
  (v = FENCED_ACK → was_acked rpc_transfer ∨ target_epoch_changed f = true
                    ∨ state r0 = RECOMPUTING) →
  source_changed_target_current f = false → fence_inv r0 f →
  transfer_post a r0 f (set_transfer v f) W'.
Proof.
  intros Hv Hsrc Hinv. destruct Hinv. split; [split; simpl; auto; congruence|].
  split_and!; simpl; [done|done|congruence].
Qed.

Lemma fence_transfer_inv a r0 W f f' W' :
  request_at a W = Some r0 → source_changed_target_current f = false → fence_inv r0 f →
  fence_transfer owner_id tok clock rpc_transfer a f W = (Ok f', W') →
  transfer_post a r0 f f' W'.
Proof.
  intros Hr Hsrc Hinv. unfold fence_transfer.
  intros (r & ? & [Hr1 ->]%the_request_ok & H)%method_bind_ok.
  rewrite read_bind in H. assert (r = r0) as -> by congruence.
  assert (transfer_post a r0 f f W') as Hid by (split_and!; [done..|congruence]).
  destruct (state r0) eqn:Hk; try by injection H as <- <-.
  - destruct (target_epoch_changed f) eqn:Ht.
    { injection H as <- <-. apply transfer_post_set; naive_solver. }
    destruct (f_task f).
    + destruct (classify_transfer_epochs r0 (w_sched W));
        [|exact (transfer_post_moved _ _ _ _ _ _ _ _ Hk Hsrc Hinv Hr H)..].
      apply method_bind_ok in H as (b & W1 & Hb & H).
      apply method_bind_ok in H as (r & ? & [Hr' ->]%the_request_ok & H).
      rewrite read_bind in H.
      destruct (classify_transfer_epochs r (w_sched W1));
        [|exact (transfer_post_moved _ _ _ _ _ _ _ _ Hk Hsrc Hinv Hr' H)..].
      injection H as <- <-. apply transfer_post_set; [|done..].
      destruct b; [|done]. left. by eapply abort_remote_ok.
    + apply method_bind_ok in H as (? & ? & [= _ <-] & [= <- <-]).
      by apply transfer_post_set.
    + injection H as <- <-. destruct Hinv. split; [split; simpl; auto; congruence|].
      split_and!; simpl; [done|done|congruence].
  - injection H as <- <-. apply transfer_post_set; naive_solver.
Qed.
End evidence.

Lemma p_release_evidence f r rpc_t rpc_p rpc_d r0 :
  fence_inv rpc_t rpc_p rpc_d r0 f → owns_p f = true →
  p_load_releasable (make_proof f r) = true →
  publish_outcome r = "NOT_STARTED" ∨ was_acked rpc_p.
Proof.
  intros Hinv Ho. unfold p_load_releasable. simpl. rewrite Ho. simpl.
  destruct (fi_owns_p _ _ _ _ _ Hinv Ho) as [_ Hp].
  rewrite !orb_true_iff, !andb_true_iff, !bool_decide_eq_true.
  intros [[Hin|[? _]]|[_ Hack]]; [|by left|right; by eapply fi_p].
  apply (bool_decide_eq_true_2 _) in Hp, Hin. by destruct (p_state f).
Qed.

Lemma d_release_evidence f r rpc_t rpc_p rpc_d r0 :
  fence_inv rpc_t rpc_p rpc_d r0 f → d_slot_releasable (make_proof f r) = true →
  target_epoch_changed f = false ∧ f_transfer f ≠ T_UNCERTAIN
  ∧ (state r = PREFILLING ∨ was_acked rpc_d).
Proof.
  intros Hinv. unfold d_slot_releasable. simpl.
  destruct (owns_d f), (target_epoch_changed f); try done. simpl.
  pose proof (fi_d _ _ _ _ _ Hinv) as Hd.
  destruct (state r); try done; rewrite andb_true_iff, !bool_decide_eq_true;
    intros [? Ht]; (split; [done|]); (split; [|by auto]); intros Hu; rewrite Hu in Ht; set_solver.
Qed.


(** The three publish outcomes exclude each other. *)
Lemma outcome_cases (o : string) :
  (bool_decide (o = "NOT_STARTED"), bool_decide (o = "ACKED"), bool_decide (o = "UNKNOWN"))
    ∈ [(true, false, false); (false, true, false); (false, false, true);
       (false, false, false)].
Proof. repeat case_bool_decide; subst; try done; set_solver. Qed.

Lemma proof_valid_exact p :
  proof_valid p = true →
  p_load_releasable p
    = negb (request_owns_p_load p)
      || (negb (bool_decide (proof_publish_outcome p = "UNKNOWN"))
          && negb (bool_decide (p_remote_request_state p = R_UNCERTAIN)))
  ∧ d_slot_releasable p
    = request_owns_original_d_slot p && negb (d_epoch_changed p)
      && negb (bool_decide (d_remote_request_state p = R_UNCERTAIN))
      && negb (bool_decide (transfer_state p = T_UNCERTAIN)).
Proof.
  destruct p as [st ps ds ts tm po op od dc].
  unfold proof_valid, p_load_releasable, d_slot_releasable. simpl.
  pose proof (outcome_cases po) as Hpo. revert Hpo.
  generalize (bool_decide (po = "NOT_STARTED")), (bool_decide (po = "ACKED")),
    (bool_decide (po = "UNKNOWN")).
  intros n k u Hpo.
  assert ((n, k, u) = (true, false, false) ∨ (n, k, u) = (false, true, false)
          ∨ (n, k, u) = (false, false, true) ∨ (n, k, u) = (false, false, false)) as Hpo'
    by set_solver.
  clear Hpo. destruct op, od, st; try discriminate;
    destruct ps; try discriminate; destruct ds; try discriminate;
    destruct ts; try discriminate; destruct tm; try discriminate;
    destruct Hpo' as [[= -> -> ->]|[[= -> -> ->]|[[= -> -> ->]|[= -> -> ->]]]];
    try discriminate; destruct dc; vm_compute; done.
Qed.

(** For a proof that passes [validate_cleanup_proof], the release tests say
    exactly what they should: the prefill load is releasable iff the request
    does not own it or its publish outcome is known and its abort is not
    uncertain; the decode slot is releasable iff the request owns it, its
    epoch has not changed, and neither the decode abort nor the transfer is
    uncertain. *)
Theorem release_evidence_exact p :
  validate_cleanup_proof p = Ok tt →
  (p_load_releasable p = true ↔
     request_owns_p_load p = false
     ∨ (proof_publish_outcome p ≠ "UNKNOWN" ∧ p_remote_request_state p ≠ R_UNCERTAIN))
  ∧ (d_slot_releasable p = true ↔
       request_owns_original_d_slot p = true ∧ d_epoch_changed p = false
       ∧ d_remote_request_state p ≠ R_UNCERTAIN ∧ transfer_state p ≠ T_UNCERTAIN).
Proof.
  unfold validate_cleanup_proof. destruct (proof_valid p) eqn:Hv; [|done]. intros _.
  apply proof_valid_exact in Hv as [-> ->].
  rewrite !orb_true_iff, !andb_true_iff, !negb_true_iff, !bool_decide_eq_false. tauto.
Qed.

Section retiring.
Context (clock : World → Z).

(** What [retire] leaves: the object is no longer tracked when it was to be
    dropped, and a tracked one is in a terminal state. *)
Lemma retire_ok a drop_request W x W' :
  retire clock a drop_request W = (Ok x, W') →
  ∃ r r', request_at a W = Some r ∧ request_at a W' = Some r' ∧ req_id r' = req_id r
    ∧ w_sched W' = w_sched W ∧ w_gov W' = w_gov W ∧ w_out W' = w_out W
    ∧ (drop_request = true → get (req_id r) (w_tracker W') ≠ Some a)
    ∧ (drop_request = false → trk_requests (w_tracker W') = trk_requests (w_tracker W))
    ∧ (get (req_id r) (w_tracker W) = Some a → state r' ∈ [FINISHED; ABORTED]).
Proof.
  unfold retire. intros (r & ? & [Hr ->]%the_request_ok & H)%method_bind_ok.
  rewrite read_bind in H. unfold tracked in H. case_bool_decide as Ht; simpl in H.
  2: { injection H as <- <-. exists r, r. by split_and!. }
  apply method_bind_ok in H as (? & W1 & Hab & H).
  assert (∃ r', request_at a W1 = Some r' ∧ req_id r' = req_id r
    ∧ w_sched W1 = w_sched W ∧ w_gov W1 = w_gov W ∧ w_out W1 = w_out W
    ∧ trk_requests (w_tracker W1) = trk_requests (w_tracker W)
    ∧ state r' ∈ [FINISHED; ABORTED]) as (r' & Hr' & Hid & Hs & Hg & Ho & Htr & Hst).
  { revert Hab. unfold abort_if_live, when. case_bool_decide as Hl.
    - unfold transition_to, tracker_try, transition, lookup_request.
      rewrite Ht. unfold request_at in *. rewrite Hr.
      destruct (validate_transition _ _); [|done]. intros [= _ <-]. simpl.
      exists (transitioned ABORTED [] (clock W) r). rewrite lookup_alter_eq, Hr.
      split_and!; try done. simpl. set_solver.
    - intros [= _ <-]. exists r. by split_and!. }
  exists r, r'. unfold when in H. destruct drop_request.
  - apply method_bind_ok in H as (? & ? & [= _ <-] & [= _ <-]). simpl.
    split_and!; try done. unfold get. simpl. by rewrite dget_dpop_eq.
  - injection H as _ <-. by split_and!.
Qed.

(** Every live state may move to ABORTED, so [retire] never raises. *)
Lemma retire_total a drop_request W r :
  request_at a W = Some r → ∃ W', retire clock a drop_request W = (Ok tt, W').
Proof.
  intros Hr. unfold retire, the_request, mbind, method_mbind, method_bind. rewrite Hr.
  simpl. unfold tracked. case_bool_decide as Ht; simpl; [|by eexists].
  unfold abort_if_live, when. case_bool_decide as Hl; [|destruct drop_request; by eexists].
  unfold transition_to, tracker_try, transition, lookup_request.
  rewrite Ht. unfold request_at in Hr. rewrite Hr.
  replace (validate_transition (state r) ABORTED) with true
    by (destruct (state r); done).
  destruct drop_request; by eexists.
Qed.

Lemma forget_task_ok a current W r x W' :
  request_at a W = Some r → forget_task a current W = (x, W') →
  x = Ok tt ∧ request_at a W' = Some r
  ∧ w_sched W' = w_sched W ∧ w_gov W' = w_gov W ∧ w_out W' = w_out W
  ∧ trk_requests (w_tracker W') = trk_requests (w_tracker W)
  ∧ ∀ t, current = Some t → cleanup_task (req_id r) (w_tracker W') ≠ Some t.
Proof.
  intros Hr. unfold forget_task, the_request, mbind, method_mbind, method_bind. rewrite Hr.
  destruct current as [t|]; [|by intros [= <- <-]].
  intros [= <- <-]. simpl. unfold clear_cleanup_task, cleanup_task, request_at in *.
  case_decide as Hd; simpl.
  - split_and!; try done. intros t' [= <-]. by rewrite dget_dpop_eq.
  - split_and!; try done. by intros t' [= <-].
Qed.
End retiring.

(** A finished [_canonical_cleanup] leaves no residue.  A task whose request
    object has been replaced or removed in the tracker changes nothing at all;
    otherwise, in local mode the object is no longer tracked when the task
    returns, and in both modes the task is no longer registered as the
    request's cleanup, so a later cleanup starts a new one. *)
Theorem canonical_cleanup_retires owner_id tok clock network rpc_transfer rpc_p rpc_d
    cleanup_request current a W r W' :
  request_at a W = Some r →
  canonical_cleanup owner_id tok clock network rpc_transfer rpc_p rpc_d cleanup_request
    current a W = (Ok tt, W') →
  (get (req_id r) (w_tracker W) ≠ Some a → W' = W)
  ∧ (get (req_id r) (w_tracker W) = Some a →
     ∃ r', request_at a W' = Some r'
       ∧ (network = false → get (req_id r') (w_tracker W') ≠ Some a)
       ∧ (∀ t, current = Some t → cleanup_task (req_id r') (w_tracker W') ≠ Some t)).
Proof.
  intros Hr. unfold canonical_cleanup.
  intros (? & ? & [Hr0 ->]%the_request_ok & H)%method_bind_ok. simplify_eq.
  rewrite read_bind in H. unfold tracked in H. case_bool_decide as Ht; simpl in H.
  2: { injection H as <-. by split. }
  split; [done|]. intros _. apply method_bind_ok in H as ([] & W1 & Hm & Hf).
  assert (∃ r1, request_at a W1 = Some r1
    ∧ (network = false → get (req_id r1) (w_tracker W1) ≠ Some a)) as (r1 & Hr1 & Hn).
  { destruct network.
    - unfold network_cleanup in Hm. do 5 apply method_bind_ok in Hm as (? & ? & _ & Hm).
      apply retire_ok in Hm as (? & r1 & _ & Hr1 & _). by exists r1.
    - apply method_bind_ok in Hm as (? & ? & _ & Hm).
      apply retire_ok in Hm as (r2 & r1 & _ & Hr1 & Hid & _ & _ & _ & Hd & _).
      exists r1. split; [done|]. intros _. rewrite Hid. auto. }
  destruct (forget_task_ok a current W1 r1 _ _ Hr1 Hf) as (_ & Hr' & _ & _ & _ & Htr & Hc).
  exists r1. split_and!; [done| |done]. unfold get in *. rewrite Htr. done.
Qed.

Lemma when_prefill_done_run (c : bool) i e W :
  when c (_ ← prefill_done i e; mret tt) W
  = (Ok tt, if c then set_sched (on_prefill_done i (Some e) (w_sched W)).2 W else W).
Proof.
  destruct c; [|done]. unfold when, prefill_done, sched_do, mbind, method_mbind, method_bind.
  by destruct (on_prefill_done _ _ _).
Qed.



(** ** Concrete instances of the properties *)

(** [r0] decodes on [d1]; another request still prefills on [p0]. *)
Definition demo_request (s : SeqState) : RequestInfo :=
  set_state s (foldl setattr (new_RequestInfo "r0" 5)
    [kw_prefill_instance "p0"; kw_prefill_instance_epoch "e0";
     kw_decode_instance "d1"; kw_decode_instance_epoch "f1";
     kw_publish_outcome "ACKED"; kw_transfer_operation_id "op-r0"]).

Definition demo_world (s : SeqState) : World :=
  mkWorld (mkTracker {[0%nat := demo_request s]} [("r0", 0%nat)] [("r0", 7%nat)])
    (pick_decode_instance (Some tt) None 1
       (pick_prefill_instance (Some tt) None demo_scheduler).2).2
    demo_busy None 0%nat.

Definition demo_tok (_ : World) : string := "tok".
Definition demo_clock (_ : World) : Z := 50.
Definition replies (b : bool) : await_rpc := λ W, (ReplyDict b, W).


Lemma release_evidence_exact_witness :
  d_slot_releasable (mkCleanupProof KV_PENDING ALREADY_COMPLETED ABORT_ACK FENCED_ACK
                       task_inflight "ACKED" false true false) = true.
Proof.
  apply (release_evidence_exact
    (mkCleanupProof KV_PENDING ALREADY_COMPLETED ABORT_ACK FENCED_ACK task_inflight "ACKED"
       false true false)); [vm_compute; reflexivity|].
  split_and!; done.
Defined.

Lemma canonical_cleanup_retires_witness :
  let W' := (canonical_cleanup "gw" demo_tok demo_clock false (replies true) (replies true)
               (replies true) (λ W, (Ok true, W)) (Some 7%nat) 0%nat (demo_world DECODING)).2 in
  ∃ r', request_at 0%nat W' = Some r' ∧ get (req_id r') (w_tracker W') ≠ Some 0%nat.
Proof.
  cbv zeta.
  destruct (canonical_cleanup_retires "gw" demo_tok demo_clock false (replies true)
    (replies true) (replies true) (λ W, (Ok true, W)) (Some 7%nat) 0%nat (demo_world DECODING)
    (demo_request DECODING)
    (canonical_cleanup "gw" demo_tok demo_clock false (replies true) (replies true)
       (replies true) (λ W, (Ok true, W)) (Some 7%nat) 0%nat (demo_world DECODING)).2)
    as [_ H].
  - vm_compute. reflexivity.
  - vm_compute. reflexivity.
  - destruct H as (r' & Hr & Hn & _); [vm_compute; reflexivity|].
    exists r'. split; [exact Hr|]. by apply Hn.
Defined.

