(* ===== verification/MainLoop.v ===== *)
(** * The schedule loop (scheduler/main_loop.py, the loop half)

    One tick of [schedule_loop] as the sequence of phases it runs: each
    message handler and each per-request step is a method of the shared
    [World] of Cleanup.v, the phases iterate them, and [tick] composes them.

    What the loop awaits is a parameter: an RPC or a publish is a function of
    the world that brings an outcome and the world the loop wakes up in, and
    joining the canonical cleanup of a request is [join_cleanup], any method
    at all (Cleanup.v's [canonical_cleanup] is one).  Messages carry the
    fields of the worker protocol; a missing field is [None].  The worker
    registry and the transfer client the loop consults may be different ones
    at every consultation: they are functions of the world too.  Metrics,
    logging and the sleep at the end of a tick are left out. *)

From stdpp Require Import prelude gmap strings.
From S2P Require Import Prelude PyDict Fingerprint SequenceState Scheduler TransferGovernor Output Cleanup.

Local Open Scope Z_scope.

(** ** Messages *)

Record Message := mkMessage {
  msg_req_id : option string;
  msg_instance_epoch : option string;
  msg_operation_id : option string;
  msg_kv_size_bytes : option Z;
  msg_block_table : option (list Z);
  (** [None]: absent, or not an [int] (a [bool] included) *)
  msg_first_token : option Z;
  msg_token_ids : option (list Z);
  msg_output_seq_no : option Z }.

(** [msg.get(k) == v] for a string attribute *)
Definition field_is (f : option string) (v : string) : bool := bool_decide (f = Some v).

(** ** Lifting *)

Definition gov_try {A} (m : method TransferGovernor A) : method World A := λ W,
  let '(x, g) := m (w_gov W) in (x, set_gov g W).

Definition out_try {A} (d : A) (m : method GatewayOutputBuffer A) : method World A := λ W,
  match w_out W with
  | None => (Ok d, W)
  | Some b => let '(x, b') := m b in (x, set_out (Some b') W)
  end.

(** An await that brings a value. *)
Definition await_do {A} (f : World → A * World) : method World A := λ W,
  let '(x, W') := f W in (Ok x, W').

(** [try: m except (TypeError, ValueError): h] *)
Definition catch_value {A} (m h : method World A) : method World A := λ W,
  match m W with
  | (Raise ValueError, W') | (Raise TypeError, W') => h W'
  | res => res
  end.

(** [try: m except Exception: pass] *)
Definition swallow (m : method World unit) : method World unit := λ W,
  let '(_, W') := m W in (Ok tt, W').

(** [for x in l: f(x)] *)
Fixpoint for_each {A} (f : A → method World unit) (l : list A) : method World unit :=
  match l with [] => mret tt | x :: l' => _ ← f x; for_each f l' end.

(** [tracker.get(req_id) if req_id is not None else None] *)
Definition find_request (rid : option string) (W : World) : option handle :=
  match rid with None => None | Some s => get s (w_tracker W) end.

Definition update_request (a : handle) (f : RequestInfo → RequestInfo) : method World unit :=
  modify (λ W, set_tracker (update_object a f (w_tracker W)) W).

(** [scheduler.epoch_matches(req.decode_instance, req.decode_instance_epoch)] *)
Definition decode_current (r : RequestInfo) (W : World) : bool :=
  epoch_matches (decode_instance r) (decode_instance_epoch r) (w_sched W).
Definition prefill_current (r : RequestInfo) (W : World) : bool :=
  epoch_matches (prefill_instance r) (prefill_instance_epoch r) (w_sched W).

Definition matches_pending_operation (rid operation_id : string) (W : World) : bool :=
  match lookup_request rid (w_tracker W) with
  | None => false
  | Some (_, r) => bool_decide (state r = KV_PENDING)
                   && bool_decide (transfer_operation_id r = operation_id)
  end.

Definition owns_pending_transfer (rid operation_id : string) (W : World) : bool :=
  matches_pending_operation rid operation_id W && owns rid operation_id (w_gov W).

Section handlers.
Context (network : bool) (tok : World → string) (clock : World → Z).

Abbreviation transition_to := (transition_to clock).

(** The end of [_on_kv_done] and of the output scans: the buffered output
    decides whether a first token was seen and whether decoding is over. *)
Definition follow_output (rid : string) : method World unit :=
  out ← out_try ([], false, None) (snapshot rid);
  let '(tokens, terminal, error) := out in
  W ← read;
  _ ← when (bool_decide (tokens ≠ []))
        (_ ← tracker_do (record_first_token rid (clock W)); mret tt);
  when (terminal || error_set error) (transition_to rid FINISHED []).

Definition on_kv_done (rid operation_id : string) (commit_ref : option handle) :
    method World unit :=
  W ← read;
  match lookup_request rid (w_tracker W) with
  | None => mret tt
  | Some (_, r) =>
      if bool_decide (state r ≠ KV_PENDING)
         || bool_decide (transfer_operation_id r ≠ operation_id)
         || negb (decode_current r W)
      then mret tt
      else
        _ ← when (truthy (active_operation_id r))
              (sched_try (commit_decode_slot (active_operation_id r)));
        _ ← transition_to rid DECODING [kw_target_request_commit_ref commit_ref];
        when (bool_decide (is_Some (w_out W))) (follow_output rid)
  end.

(** Each completion message first finds its request; [guard] is the test of
    the handler on the request and the world. *)
Definition on_message (m : Message) (guard : RequestInfo → World → bool)
    (act : handle → RequestInfo → method World unit) : method World unit :=
  W ← read;
  match find_request (msg_req_id m) W with
  | None => mret tt
  | Some a =>
      r ← the_request a;
      when (guard r W) (act a r)
  end.

(** The fence shared by the decode-side messages. *)
Definition from_decode_epoch (m : Message) (r : RequestInfo) (W : World) : bool :=
  field_is (msg_instance_epoch m) (decode_instance_epoch r) && decode_current r W.
Definition same_operation (m : Message) (r : RequestInfo) : bool :=
  negb network || field_is (msg_operation_id m) (active_operation_id r).

Definition suffix_prefill_done (m : Message) : method World unit :=
  on_message m
    (λ r W, bool_decide (state r = PREFIX_PREFILLING)
            && field_is (msg_operation_id m) (active_operation_id r)
            && from_decode_epoch m r W)
    (λ _ r, transition_to (req_id r) DECODING []).

Definition recompute_done (m : Message) : method World unit :=
  on_message m
    (λ r W, bool_decide (state r = RECOMPUTING) && from_decode_epoch m r W)
    (λ _ r, transition_to (req_id r) DECODING []).

(** [int(msg.get("output_seq_no", -1))] with the cumulative tokens. *)
Definition apply_tokens (rid : string) (tokens : list Z) (seq : Z) (terminal : bool)
    (error : option string) : method World unit :=
  _ ← out_try false (apply_cumulative rid tokens seq terminal error true); mret tt.

Definition first_token (m : Message) : method World unit :=
  on_message m (λ r W, same_operation m r && from_decode_epoch m r W)
    (λ a r,
       _ ← (match msg_token_ids m with
            | None => mret tt
            | Some tokens =>
                catch_value
                  (apply_tokens (req_id r) tokens (default (-1) (msg_output_seq_no m))
                     false None)
                  (mret tt)
            end);
       r' ← the_request a; W ← read;
       when (bool_decide (state r' = DECODING))
         (_ ← tracker_do (record_first_token (req_id r) (clock W)); mret tt)).

(** [request_output] and [repair_output_gap]: the reply to the query, an
    exception, and whether the request and its query identity are unchanged
    at each of the two tests of [still_current]. *)
Definition await_output : Type := World → result exn OutputReply * World.

Definition still_current (a : handle) (identity : OutputQueryIdentity) (W : World) : bool :=
  match request_at a W with
  | None => false
  | Some r => bool_decide (get (req_id r) (w_tracker W) = Some a)
              && bool_decide (output_query_identity (Some r) = Some identity)
  end.

(** The query and the repair of the [except] branch of [decode_progress]. *)
Definition repair_query (query : await_output) (a : handle) (identity : OutputQueryIdentity) :
    method World unit :=
  let '(i, e, rid, op) := identity in
  _ ← out_try ([], false, None) (snapshot rid);
  value ← (query : method World OutputReply);
  W ← read;
  _ ← out_try false (repair_output_gap value e rid op (still_current a identity W));
  mret tt.

(** In network mode: every exception of the repair is swallowed. *)
Definition repair_gap (query : await_output) (a : handle) (r : RequestInfo) :
    method World unit :=
  match output_query_identity (Some r) with
  | None => mret tt
  | Some identity => swallow (repair_query query a identity)
  end.

Definition decode_progress (query : await_output) (m : Message) : method World unit :=
  on_message m
    (λ r W, bool_decide (is_Some (w_out W)) && same_operation m r && from_decode_epoch m r W)
    (λ a r,
       catch_value
         (apply_tokens (req_id r) (default [] (msg_token_ids m))
            (default (-1) (msg_output_seq_no m)) false None)
         (r' ← the_request a; when network (repair_gap query a r'))).

(** [mark_resource_free] when there is a buffer. *)
Definition mark_free (rid : string) : method World unit :=
  out_try tt (mark_resource_free rid).

Definition decode_done (m : Message) : method World unit :=
  on_message m
    (λ r W, bool_decide (state r ∈ [KV_PENDING; DECODING]) && same_operation m r
            && from_decode_epoch m r W)
    (λ a r,
       let tokens := default [] (msg_token_ids m) in
       _ ← catch_value
             (apply_tokens (req_id r) tokens
                (default (Z.of_nat (length tokens)) (msg_output_seq_no m)) true None)
             (apply_tokens (req_id r) [] 0 true (Some "invalid decode_done cursor"));
       r' ← the_request a;
       _ ← when (bool_decide (state r' = DECODING)) (transition_to (req_id r) FINISHED []);
       when (negb network)
         (_ ← sched_try (on_decode_finished (decode_instance r')
                           (Some (decode_instance_epoch r'))
                           (or_none (active_operation_id r')));
          _ ← gov_do (finish_request (req_id r));
          _ ← tracker_do (remove (req_id r));
          mark_free (req_id r))).
End handlers.

(** ** Transfers and recomputes *)

(** [trigger_recompute]: whether the result is anything but [False]. *)
Definition await_recompute : Type := World → result exn bool * World.

Section transfers.
Context {G : Type} `{RoutingGate G} (reg : World → option G) (client : World → TransferTask → bool).
Context (network : bool) (tok : World → string) (clock : World → Z).
Context (join_cleanup : handle → method World unit).

Abbreviation transition_to := (transition_to clock).

Definition trigger_recompute_epoch_fenced (rpc : await_recompute) (a : handle) :
    method World bool :=
  r ← the_request a; W ← read;
  if negb (decode_current r W) then mret false
  else
    ok ← (rpc : method World bool);
    if negb ok then mret false
    else r' ← the_request a; W' ← read; mret (decode_current r' W').

(** What follows a failed transfer or recompute: another recompute within the
    budget, or the cleanup; [started] runs when the recompute is accepted. *)
Definition after_failure (rpc : await_recompute) (a : handle) (started : method World unit) :
    method World unit :=
  r ← the_request a;
  decision ← (λ W, let '(d, g) := on_transfer_failure (req_id r) (w_gov W) in
                   (Ok d, set_gov g W));
  match decision with
  | recompute =>
      W ← read;
      if negb (decode_current r W) then join_cleanup a
      else
        ok ← trigger_recompute_epoch_fenced rpc a;
        if ok : bool then started
        else _ ← gov_do (finish_request (req_id r)); join_cleanup a
  | abort => join_cleanup a
  end.

(** The [TransferTask] the loop builds, at the address [oid]. *)
Definition transfer_task (oid : handle) (m : Message) (r : RequestInfo) : TransferTask :=
  mkTransferTask oid (req_id r) (prefill_instance r) (decode_instance r)
    (default 0 (msg_kv_size_bytes m)) (transfer_operation_id r)
    (prefill_instance_epoch r) (decode_instance_epoch r)
    (default [] (msg_block_table m)) (target_block_table r) (target_request_ref r)
    (token_ids r) (sampling_params r) (msg_first_token m) (correctness_path r) 1 true.

(** [try: submit(task) except TransferDispatchError: ...] *)
Definition submit_or (t : TransferTask) (h : method World unit) : method World unit := λ W,
  match gov_try (submit (reg W) (client W) (clock W) t) W with
  | (Raise TransferDispatchError, W') => h W'
  | res => res
  end.

Definition prefill_done (rpc : await_recompute) (oid : handle) (m : Message) :
    method World unit :=
  on_message m
    (λ r W, bool_decide (state r = PREFILLING)
            && field_is (msg_instance_epoch m) (prefill_instance_epoch r)
            && prefill_current r W)
    (λ a r,
       if network && bool_decide (msg_first_token m = None) then join_cleanup a
       else
         W ← read;
         _ ← transition_to (req_id r) KV_PENDING
               [kw_kv_size_bytes (default 0 (msg_kv_size_bytes m));
                kw_block_table (default [] (msg_block_table m));
                kw_transfer_operation_id
                  (if truthy (active_operation_id r) then active_operation_id r else tok W)];
         _ ← Cleanup.prefill_done (prefill_instance r) (prefill_instance_epoch r);
         r' ← the_request a;
         submit_or (transfer_task oid m r')
           (after_failure rpc a (transition_to (req_id r) RECOMPUTING []))).

(** One request of the KV-timeout scan. *)
Definition kv_timeout (rpc_transfer : await_rpc) (rpc : await_recompute) (a : handle) :
    method World unit :=
  r ← the_request a; W ← read;
  let op := transfer_operation_id r in
  let abandon := (_ ← gov_do (λ g, (cancel (req_id r) (Some op) g).2);
                  after_failure rpc a (transition_to (req_id r) RECOMPUTING [])) in
  if bool_decide (classify_transfer_epochs r (w_sched W) ≠ BOTH_CURRENT) then join_cleanup a
  else if negb (matches_pending_operation (req_id r) op W) then mret tt
  else match task_state (req_id r) (Some op) (w_gov W) with
  | task_inflight =>
      stopped ← abort_remote rpc_transfer;
      r' ← the_request a; W' ← read;
      if negb (owns_pending_transfer (req_id r') op W') then mret tt
      else if bool_decide (classify_transfer_epochs r' (w_sched W') ≠ BOTH_CURRENT)
      then join_cleanup a
      else if negb stopped then join_cleanup a
      else abandon
  | task_none => join_cleanup a
  | task_deferred => abandon
  end.

(** One request of the recompute-timeout scan. *)
Definition recompute_timeout (rpc : await_recompute) (a : handle) : method World unit :=
  r ← the_request a; W ← read;
  if negb (decode_current r W) then join_cleanup a
  else after_failure rpc a
         (W' ← read; update_request a (set_recompute_start (clock W'))).

(** [governor.tick()]: nothing catches what it raises. *)
Definition governor_tick : method World unit := λ W, gov_try (tick (reg W) (client W) (clock W)) W.

(** ** Output queries and terminal sweeps (network mode) *)

Definition reconcile_authoritative_output (query : await_output) (a : handle) :
    method World unit :=
  r ← the_request a;
  match output_query_identity (Some r) with
  | None => raise ValueError
  | Some (i, e, rid, op) =>
      _ ← out_try ([], false, None) (snapshot rid);
      value ← (query : method World OutputReply);
      W ← read;
      if negb (still_current a (i, e, rid, op) W)
         || bool_decide (rep_req_id value ≠ rid)
         || bool_decide (rep_instance_epoch value ≠ e)
         || bool_decide (rep_operation_id value ≠ op)
      then raise ValueError
      else
        _ ← out_try false
              (apply_cumulative rid (rep_token_ids value) (rep_output_seq_no value)
                 (rep_terminal value) (rep_error value) true);
        follow_output clock rid
  end.

(** One DECODING request of the output scan; [interval] in nanoseconds. *)
Definition poll_output (query : await_output) (interval now : Z) (a : handle) :
    method World unit :=
  r ← the_request a;
  out ← out_try ([], false, None) (snapshot (req_id r));
  let '(tokens, terminal, error) := out in
  W ← read;
  _ ← when (bool_decide (tokens ≠ []))
        (_ ← tracker_do (record_first_token (req_id r) (clock W)); mret tt);
  if terminal || error_set error then transition_to (req_id r) FINISHED []
  else
    r' ← the_request a;
    if bool_decide (now - last_output_query_at r' < interval) then mret tt
    else
      _ ← update_request a (set_last_output_query_at now);
      swallow (reconcile_authoritative_output query a).

(** One FINISHED ([aborted = false]) or ABORTED request of the sweeps. *)
Definition sweep_terminal (cleanup_request : await_cleanup) (aborted : bool) (a : handle) :
    method World unit :=
  released ← (cleanup_request : method World bool);
  r ← the_request a;
  when released
    (_ ← gov_do (finish_request (req_id r));
     _ ← tracker_do (remove (req_id r));
     _ ← when aborted (out_try tt (fail (req_id r) "request_aborted"));
     mark_free (req_id r)).

Definition decode_timeout (a : handle) : method World unit := join_cleanup a.

(** ** Dispatching prefills *)

(** The outcome of [prepare_normal_request] on the decode worker. *)
Inductive PrepareOutcome : Type :=
| Prepared (ref : handle) (blocks : list Z)
| PrepareAmbiguous (ref : handle)
| PrepareFailed.

(** How building and publishing the command ended: an exception before the
    publish task existed, one of the publish itself, or a cancellation of the
    loop. *)
Inductive PublishOutcome : Type :=
| Published | PublishNotStarted | PublishFailed | PublishCancelled.

Definition publish_outcome_as (rid outcome : string) : method World unit :=
  tracker_try (set_publish_outcome_of rid outcome).

(** [set_publish_outcome(...)], then the join and the [continue] of the
    [except] branch. *)
Definition publish_failed (rid outcome : string) (a : handle) : method World bool :=
  _ ← publish_outcome_as rid outcome; _ ← join_cleanup a; mret false.

(** An exception of [set_publish_outcome] after a successful publish is
    handled like one of the publish. *)
Definition publish_acked (rid : string) (a : handle) : method World bool := λ W,
  match publish_outcome_as rid "ACKED" W with
  | (Ok _, W') => (Ok true, W')
  | (Raise _, W') => publish_failed rid "UNKNOWN" a W'
  end.

(** The [try] around the publish: [false] when it ended in the [except]
    branch. *)
Definition publish_command (publish : World → PublishOutcome * World) (a : handle) :
    method World bool :=
  r ← the_request a;
  outcome ← await_do publish;
  match outcome with
  | Published => publish_acked (req_id r) a
  | PublishNotStarted => publish_failed (req_id r) "NOT_STARTED" a
  | PublishFailed => publish_failed (req_id r) "UNKNOWN" a
  | PublishCancelled => _ ← publish_failed (req_id r) "UNKNOWN" a; raise CancelledError
  end.

(** [operation_allocator.allocate(...)], stored on the request; [None]: no
    allocator is configured. *)
Definition allocate_ref (allocate : option (World → handle)) (a : handle) :
    method World unit := λ W,
  match allocate with
  | None => (Ok tt, W)
  | Some f => update_request a (set_dispatch_operation_ref (Some (f W))) W
  end.

(** The keyword arguments of the transition to PREFILLING. *)
Definition prefilling_kwargs (owner_id : string) (r : RequestInfo) (p d p_epoch d_epoch : string)
    (lease : option DecodeSlotLease) (ref : option handle) : list attr :=
  [kw_prefill_instance p; kw_decode_instance d;
   kw_prefill_instance_epoch p_epoch; kw_decode_instance_epoch d_epoch;
   kw_command_id (owner_id +:+ ":" +:+ req_id r)%string;
   kw_publish_outcome "NOT_STARTED";
   kw_active_operation_id (if network then req_id r else "");
   kw_decode_slot_lease_id (match lease with Some l => lease_id l | None => "" end);
   kw_target_request_ref ref].

Definition await_prepare : Type := World → PrepareOutcome * World.
Definition await_publish : Type := World → PublishOutcome * World.

(** After the decode target is known: the transition, the operation
    reference and the publish. *)
Definition dispatch_prepared (allocate : option (World → handle))
    (publish : await_publish) (a : handle) (kwargs : list attr) : method World unit :=
  r ← the_request a;
  _ ← transition_to (req_id r) PREFILLING kwargs;
  _ ← allocate_ref allocate a;
  _ ← publish_command publish a;
  mret tt.

(** Network mode: the lease, and the preparation of the decode worker. *)
Definition dispatch_network (owner_id : string) (allocate : option (World → handle))
    (prepare : await_prepare) (publish : await_publish) (a : handle)
    (p d p_epoch d_epoch : string) : method World unit :=
  r ← the_request a; W ← read;
  lease ← sched_try (adopt_picked_decode_slot d (req_id r) (req_id r) (tok W) (clock W));
  outcome ← await_do prepare;
  match outcome with
  | Prepared ref blocks =>
      dispatch_prepared allocate publish a
        (prefilling_kwargs owner_id r p d p_epoch d_epoch (Some lease) (Some ref)
           ++ [kw_target_block_table blocks])
  | PrepareAmbiguous ref =>
      _ ← Cleanup.prefill_done p p_epoch;
      _ ← transition_to (req_id r) PREFILLING
            (prefilling_kwargs owner_id r p d p_epoch d_epoch (Some lease) (Some ref));
      join_cleanup a
  | PrepareFailed =>
      _ ← Cleanup.prefill_done p p_epoch;
      _ ← sched_try (release_decode_slot (req_id r));
      mret tt
  end.

(** One WAITING request; [true]: no prefill instance, the phase ends. *)
Definition dispatch_waiting (owner_id : string)
    (try_start : option await_cleanup)
    (allocate : option (World → handle)) (prepare : await_prepare) (publish : await_publish)
    (a : handle) : method World bool :=
  r ← the_request a;
  started ← (match try_start with
             | Some f =>
                 if bool_decide (is_Some (fingerprint r))
                    && bool_decide (correctness_path r ∉ ["cold"; "seed_d0"; "seed_d1"])
                 then (f : method World bool) else mret false
             | None => mret false
             end);
  if started : bool then mret false
  else
    W0 ← read;
    chosen ← sched_do (pick_prefill_instance (reg W0) (or_none (correctness_source_instance r)));
    match chosen with
    | None => mret true
    | Some p =>
        W ← read;
        target ← sched_do (pick_decode_instance (reg W) (or_none (correctness_target_instance r))
                             (clock W));
        match target with
        | None => _ ← sched_do (on_prefill_done p None); mret false
        | Some d =>
            W' ← read;
            let p_epoch := instance_epoch p (w_sched W') in
            let d_epoch := instance_epoch d (w_sched W') in
            _ ← (if network
                 then dispatch_network owner_id allocate prepare publish a p d p_epoch d_epoch
                 else dispatch_prepared allocate publish a
                        (prefilling_kwargs owner_id r p d p_epoch d_epoch None None
                           ++ [kw_target_block_table []]));
            mret false
        end
    end.

(** [for req in waiting: ...] with its [break]. *)
Fixpoint until_stop (f : handle → method World bool) (l : list handle) : method World unit :=
  match l with
  | [] => mret tt
  | a :: l' => stop ← f a; if stop : bool then mret tt else until_stop f l'
  end.

(** One request of the prefill-timeout scan. *)
Definition prefill_timeout (max_attempts : Z) (publish : await_publish) (a : handle) :
    method World unit :=
  r ← the_request a;
  if bool_decide (max_attempts ≤ dispatch_attempts r) then join_cleanup a
  else
    sent ← publish_command publish a;
    when sent
      (W ← read;
       update_request a (λ r, set_dispatch_attempts (dispatch_attempts r + 1)
                                (set_prefill_start (clock W) r))).

(** The cleanup of a stuck suffix prefill: [None] leaves the request to the
    coordinator's reconciliation, [Some true] is the ABORTED outcome. *)
Definition suffix_timeout (cleanup_suffix : World → result exn (option bool) * World)
    (a : handle) : method World unit :=
  outcome ← (cleanup_suffix : method World (option bool));
  r ← the_request a; W ← read;
  when (bool_decide (outcome = Some true)
        && bool_decide (get (req_id r) (w_tracker W) = Some a))
    (_ ← transition_to (req_id r) ABORTED [];
     _ ← tracker_do (remove (req_id r)); mret tt).
End transfers.

(** ** One tick *)

Record LoopConfig := mkLoopConfig {
  kv_transfer_timeout : Z;
  prefill_timeout_s : Z;
  recompute_timeout_s : Z;
  decode_timeout_s : Z;
  suffix_prefill_timeout : Z;
  max_dispatch_attempts : Z;
  output_query_interval : Z;
  cfg_owner_id : string;
  cfg_network : bool }.

(** Everything a tick awaits.  [aw_try_start] and [aw_suffix] belong to the
    affinity coordinator and are [None] without one. *)
Record Awaits := mkAwaits {
  aw_try_start : option (handle → await_cleanup);
  aw_allocate : option (World → handle);
  aw_prepare : handle → await_prepare;
  aw_publish : handle → await_publish;
  aw_poll : string → World → list Message * World;
  aw_suffix : option (handle → World → result exn (option bool) * World);
  aw_transfer : handle → await_rpc;
  aw_recompute : handle → await_recompute;
  aw_query : handle → await_output;
  aw_cleanup : handle → bool → await_cleanup;
  aw_join : handle → method World unit }.

Section tick.
Context {G : Type} `{RoutingGate G} (reg : World → option G) (client : World → TransferTask → bool).
Context (cfg : LoopConfig) (tok : World → string) (clock : World → Z) (oid : World → handle).
Context (aw : Awaits).

Abbreviation network := (cfg_network cfg).

(** [for msg in await queue.poll(event): handle(msg)] *)
Definition poll_each (event : string) (f : Message → method World unit) : method World unit :=
  msgs ← await_do (aw_poll aw event); for_each f msgs.

(** [for req in scan(tracker): handle(req)]: the list is built once. *)
Definition scan_each (scan : World → list (handle * RequestInfo))
    (f : handle → method World unit) : method World unit :=
  W ← read; for_each f (scan W).*1.

(** The request a message names, for the RPCs its handling awaits. *)
Definition msg_handle (m : Message) (W : World) : handle :=
  default 0%nat (find_request (msg_req_id m) W).

Definition dispatch_phase : method World unit :=
  W ← read;
  until_stop
    (λ a, dispatch_waiting reg network tok clock (aw_join aw) (cfg_owner_id cfg)
            (match aw_try_start aw with Some f => Some (f a) | None => None end)
            (aw_allocate aw) (aw_prepare aw a) (aw_publish aw a) a)
    (if admission_ready (reg W) then (iter_by_state WAITING (w_tracker W)).*1 else []).

Definition prefill_phase : method World unit :=
  _ ← poll_each "suffix_prefill_done" (suffix_prefill_done clock);
  _ ← match aw_suffix aw with
      | None => mret tt
      | Some f => scan_each (λ W, get_stuck_suffix_prefills (suffix_prefill_timeout cfg)
                                    (clock W) (w_tracker W))
                    (λ a, suffix_timeout clock (f a) a)
      end;
  _ ← scan_each (λ W, get_stuck_prefills (prefill_timeout_s cfg) (clock W) (w_tracker W))
        (λ a, prefill_timeout clock (aw_join aw) (max_dispatch_attempts cfg)
                (aw_publish aw a) a);
  poll_each "prefill_done"
    (λ m, W ← read;
          prefill_done reg client network tok clock (aw_join aw)
            (aw_recompute aw (msg_handle m W)) (oid W) m).

Definition transfer_phase : method World unit :=
  _ ← scan_each (λ W, get_stuck_requests (kv_transfer_timeout cfg) (clock W) (w_tracker W))
        (λ a, kv_timeout clock (aw_join aw) (aw_transfer aw a) (aw_recompute aw a) a);
  _ ← poll_each "recompute_done" (recompute_done clock);
  _ ← scan_each (λ W, get_stuck_recomputes (recompute_timeout_s cfg) (clock W) (w_tracker W))
        (λ a, recompute_timeout clock (aw_join aw) (aw_recompute aw a) a);
  governor_tick reg client clock.

Definition decode_phase : method World unit :=
  _ ← poll_each "first_token" (first_token network clock);
  _ ← poll_each "decode_progress"
        (λ m, W ← read; decode_progress network (aw_query aw (msg_handle m W)) m);
  poll_each "decode_done" (decode_done network clock).

Definition terminal_phase : method World unit :=
  _ ← when network
        (W ← read;
         _ ← when (bool_decide (is_Some (w_out W)))
               (scan_each (λ W, iter_by_state DECODING (w_tracker W))
                  (λ a, poll_output clock (aw_query aw a) (output_query_interval cfg)
                          (clock W) a));
         _ ← scan_each (λ W, iter_by_state FINISHED (w_tracker W))
               (λ a, sweep_terminal (aw_cleanup aw a false) false a);
         scan_each (λ W, iter_by_state ABORTED (w_tracker W))
           (λ a, sweep_terminal (aw_cleanup aw a true) true a));
  scan_each (λ W, get_stuck_decodes (decode_timeout_s cfg) (clock W) (w_tracker W))
    (decode_timeout (aw_join aw)).

Definition schedule_tick : method World unit :=
  _ ← dispatch_phase; _ ← prefill_phase; _ ← transfer_phase; _ ← decode_phase;
  terminal_phase.
End tick.

(** [schedule_loop] for as many ticks as it gets: it ends early when a tick
    raises. *)
Fixpoint schedule_loop {G} `{RoutingGate G} (reg : World → option G)
    (client : World → TransferTask → bool) (cfg : LoopConfig) (tok : World → string)
    (clock : World → Z) (oid : World → handle) (ticks : list Awaits) : method World unit :=
  match ticks with
  | [] => mret tt
  | aw :: ticks' =>
      _ ← schedule_tick reg client cfg tok clock oid aw;
      schedule_loop reg client cfg tok clock oid ticks'
  end.

(** ** The invariant of the shared world *)

(** States in which a request may own a transfer. *)
Definition dispatched (s : SeqState) : Prop :=
  s ∈ [KV_PENDING; RECOMPUTING; DECODING; FINISHED; ABORTED].

(** The three tables are well formed, and the governor's ledger holds only
    requests the tracker knows to have been prefilled. *)
Record world_inv (W : World) : Prop := {
  wi_tracker : trk_inv (w_tracker W);
  wi_sched : sched_wf (w_sched W);
  wi_gov : gov_wf (w_gov W);
  wi_ledger : ∀ rid, rid ∈ ledger_ids (w_gov W) →
    ∃ a r, lookup_request rid (w_tracker W) = Some (a, r) ∧ dispatched (state r) }.

(** A method that keeps the invariant, whether it returns or raises. *)
Definition preserves {A} (m : method World A) : Prop := ∀ W, world_inv W → world_inv (m W).2.

Create HintDb loop discriminated.

Lemma preserves_ret {A} (x : A) : preserves (mret x).
Proof. by intros W. Qed.

Lemma preserves_raise {A} e : preserves (raise e : method World A).
Proof. by intros W. Qed.

Lemma preserves_bind {A B} (m : method World A) (k : A → method World B) :
  preserves m → (∀ x, preserves (k x)) → preserves (m ≫= k).
Proof.
  intros Hm Hk W HW. specialize (Hm W HW). unfold mbind, method_mbind, method_bind.
  destruct (m W) as [[x|e] W1]; [by apply Hk|done].
Qed.

Lemma preserves_read {B} (k : World → method World B) :
  (∀ x, preserves (k x)) → preserves (read ≫= k).
Proof. intros Hk W HW. rewrite read_bind. by apply Hk. Qed.

Lemma preserves_request a : preserves (the_request a).
Proof. intros W HW. unfold the_request. by destruct (request_at a W). Qed.

Lemma preserves_when (c : bool) m : preserves m → preserves (when c m).
Proof. intros Hm. destruct c; [done|apply preserves_ret]. Qed.

Lemma preserves_for_each {A} (f : A → method World unit) l :
  (∀ x, preserves (f x)) → preserves (for_each f l).
Proof.
  intros Hf. induction l; simpl; [apply preserves_ret|]. apply preserves_bind; auto.
Qed.

Lemma preserves_until_stop (f : handle → method World bool) l :
  (∀ x, preserves (f x)) → preserves (until_stop f l).
Proof.
  intros Hf. induction l as [|a l IH]; simpl; [apply preserves_ret|].
  apply preserves_bind; [done|]. intros []; [apply preserves_ret|done].
Qed.

Lemma preserves_swallow m : preserves m → preserves (swallow m).
Proof. intros Hm W HW. unfold swallow. specialize (Hm W HW). by destruct (m W). Qed.

Lemma preserves_catch {A} (m h : method World A) :
  preserves m → preserves h → preserves (catch_value m h).
Proof.
  intros Hm Hh W HW. unfold catch_value. specialize (Hm W HW).
  destruct (m W) as [[x|[]] W1]; auto.
Qed.

(** ** The primitives *)

Lemma world_inv_out W b : world_inv W → world_inv (set_out b W).
Proof. by intros []. Qed.

Lemma preserves_out {A} (d : A) m : preserves (out_try d m).
Proof.
  intros W HW. unfold out_try. destruct (w_out W) as [b|]; [|done].
  destruct (m b). by apply world_inv_out.
Qed.

Lemma preserves_sched_do {A} (f : PDScheduler → A * PDScheduler) :
  (∀ s, sched_wf s → sched_wf (f s).2) → preserves (sched_do f).
Proof.
  intros Hf W []. unfold sched_do. specialize (Hf (w_sched W)).
  destruct (f (w_sched W)). split; simpl; auto.
Qed.

Lemma preserves_sched_try {A} (m : method PDScheduler A) :
  (∀ s, sched_wf s → sched_wf (m s).2) → preserves (sched_try m).
Proof.
  intros Hf W []. unfold sched_try. specialize (Hf (w_sched W)).
  destruct (m (w_sched W)). split; simpl; auto.
Qed.

(** A governor step that adds nothing to the ledger. *)
Lemma preserves_gov_do f :
  (∀ g, gov_wf g → gov_wf (f g)) →
  (∀ g rid, gov_wf g → rid ∈ ledger_ids (f g) → rid ∈ ledger_ids g) → preserves (gov_do f).
Proof. intros Hw Hl W []. split; simpl; eauto. Qed.

Lemma preserves_gov_try {A} (m : method TransferGovernor A) :
  (∀ g, gov_wf g → gov_wf (m g).2) →
  (∀ g rid, gov_wf g → rid ∈ ledger_ids (m g).2 → rid ∈ ledger_ids g) → preserves (gov_try m).
Proof.
  intros Hw Hl W []. unfold gov_try. specialize (Hw (w_gov W)).
  specialize (λ rid, Hl (w_gov W) rid). destruct (m (w_gov W)). split; simpl in *; eauto.
Qed.

(** ** The ledger under the governor's operations *)

Lemma elem_of_deferred_tasks g t :
  gov_wf g → t ∈ deferred_tasks g ↔ ∃ d, t ∈ queue_of g d.
Proof.
  intros Hwf. split.
  - unfold deferred_tasks, dvalues.
    intros (q & Hin & (kq & -> & Hkq)%list_elem_of_fmap)%elem_of_concat.
    destruct kq as [d q]. apply dget_Some in Hkq; [|apply Hwf].
    exists d. unfold queue_of. by rewrite Hkq.
  - intros [d Hd]. rewrite (deferred_split d g) by apply Hwf. set_solver.
Qed.

Lemma elem_of_ledger g rid :
  rid ∈ ledger_ids g ↔
  is_Some (dget rid (inflight g)) ∨ ∃ t, t ∈ deferred_tasks g ∧ task_req_id t = rid.
Proof.
  unfold ledger_ids. rewrite elem_of_app, dget_is_Some, list_elem_of_fmap. naive_solver.
Qed.

Lemma cancel_ledger_sub rid op g x :
  x ∈ ledger_ids (cancel rid op g).2 → x ∈ ledger_ids g.
Proof.
  assert (∀ t, t ∈ concat (dvalues ((λ kq : string * list TransferTask,
      (kq.1, filter (λ t, matches_task rid op t = false) kq.2)) <$> deferred g)) →
      t ∈ deferred_tasks g) as Hd.
  { unfold deferred_tasks, dvalues. intros t. induction (deferred g) as [|[k q] d IH]; [done|].
    simpl. rewrite !elem_of_app. intros [[_ ?]%list_elem_of_filter|?]; auto. }
  rewrite !elem_of_ledger. unfold cancel. simpl.
  destruct (dget rid (inflight g)) as [t|] eqn:Ht; [destruct (matches_op op t)|]; simpl;
    (intros [Hi|(t' & Ht' & <-)]; [|right; exists t'; split; [by apply Hd|done]]); left;
    try done.
  rewrite dget_dpop in Hi. case_decide; [by destruct Hi|done].
Qed.

Lemma finish_request_ledger_sub rid g x :
  x ∈ ledger_ids (finish_request rid g) → x ∈ ledger_ids g.
Proof. apply (cancel_ledger_sub rid None g x). Qed.

Lemma finish_request_wf rid g : gov_wf g → gov_wf (finish_request rid g).
Proof. intros Hwf. eapply same_ledger_wf; [by apply (cancel_wf rid None)|done..]. Qed.

Section governor_ledger.
Context {G : Type} `{RoutingGate G} (reg : option G) (client : TransferTask → bool) (now : Z).

Lemma flush_ledger_sub dst g x :
  gov_wf g → x ∈ ledger_ids (flush_deferred reg client now dst g).2 → x ∈ ledger_ids g.
Proof.
  intros Hwf. destruct (flush_deferred reg client now dst g) as [r g'] eqn:Hf. simpl.
  apply flush_deferred_shape in Hf as (Hwf' & _ & sent & q' & Hi & _ & Hq & Ho & Hm); [|done].
  assert (∀ t, t ∈ sent ∨ t ∈ q' → t ∈ queue_of g dst) as Hsub.
  { intros t Ht. destruct r as [[]|e];
      [destruct Hm as [-> _]|destruct Hm as (_ & ? & _ & ->)]; set_solver. }
  rewrite !elem_of_ledger. intros [Hx|(t & Ht & <-)].
  - rewrite Hi in Hx. apply dget_is_Some in Hx. unfold dkeys in Hx.
    rewrite fmap_app in Hx. apply elem_of_app in Hx as [Hx|Hx].
    + left. by apply dget_is_Some.
    + unfold entries in Hx. rewrite <- list_fmap_compose in Hx.
      apply list_elem_of_fmap in Hx as (t & -> & Ht). right. exists t. split; [|done].
      apply elem_of_deferred_tasks; [done|]. exists dst. auto.
  - right. exists t. split; [|done]. apply elem_of_deferred_tasks in Ht as [d Ht]; [|done].
    apply elem_of_deferred_tasks; [done|]. exists d.
    destruct (decide (d = dst)) as [->|Hd]; [apply Hsub; right; by rewrite Hq in Ht|].
    by rewrite Ho in Ht.
Qed.

Lemma tick_loop_ledger_sub dsts g x :
  gov_wf g → x ∈ ledger_ids (tick_loop reg client now dsts g).2 → x ∈ ledger_ids g.
Proof.
  revert g. induction dsts as [|d dsts IH]; intros g Hwf; simpl; [done|].
  destruct (is_drained_queue _); [by apply IH|].
  pose proof (flush_deferred_wf reg client now g d Hwf) as Hwf'.
  pose proof (flush_ledger_sub d g x Hwf) as Hs.
  destruct (flush_deferred reg client now d g) as [[[]|e] g']; simpl in *; auto.
Qed.

Lemma submit_ledger t g x :
  gov_wf g → task_req_id t ∉ ledger_ids g → 0 ≤ task_kv_size t →
  x ∈ ledger_ids (submit reg client now t g).2 → x = task_req_id t ∨ x ∈ ledger_ids g.
Proof.
  intros Hwf Hn Hnn. unfold submit. destruct (can_send_task reg now g t) eqn:Hcs.
  - destruct (dispatch client t g) as [r g'] eqn:Hd. simpl.
    assert (dget (task_req_id t) (inflight g) = None) as Hf.
    { apply dget_None. unfold ledger_ids in Hn. set_solver. }
    apply (dispatch_acct reg client now) in Hd as (_ & Hdef & _ & Hr); try done; [|apply Hwf].
    rewrite !elem_of_ledger. unfold deferred_tasks. rewrite Hdef.
    intros [Hi|Ht]; [|by right; right]. destruct r as [[]|e].
    + destruct Hr as [_ Hr]. rewrite Hr in Hi. apply dget_is_Some in Hi. unfold dkeys in Hi.
      rewrite fmap_app in Hi. apply elem_of_app in Hi as [Hi|Hi]; [|left; set_solver].
      right; left. by apply dget_is_Some.
    + destruct Hr as (_ & _ & Hr). rewrite Hr in Hi. auto.
  - simpl. rewrite !elem_of_ledger. simpl. intros [?|(t' & Ht & <-)]; [by right; left|].
    unfold deferred_tasks in Ht. simpl in Ht. rewrite concat_dset in Ht by apply Hwf.
    rewrite !elem_of_app in Ht. destruct Ht as [[Ht|Ht]|Ht].
    + right; right. exists t'. split; [|done]. apply elem_of_deferred_tasks; eauto.
    + left. by apply list_elem_of_singleton in Ht as ->.
    + right; right. exists t'. split; [|done]. rewrite (deferred_split (task_dst t) g) by apply Hwf.
      apply elem_of_app. by right.
Qed.
End governor_ledger.

(** ** The tracker under the loop's writes *)

Lemma validate_keeps_dispatched s s' :
  validate_transition s s' = true → dispatched s → dispatched s'.
Proof. unfold dispatched. destruct s, s'; simpl; try done; set_solver. Qed.

Lemma lookup_update_object a f tr rid b r :
  lookup_request rid tr = Some (b, r) →
  lookup_request rid (update_object a f tr) = Some (b, if decide (a = b) then f r else r).
Proof.
  rewrite !lookup_request_Some. intros [Hg Hr]. split; [done|]. simpl.
  rewrite lookup_alter. case_decide; subst; by rewrite Hr.
Qed.

Lemma world_inv_update a f W :
  (∀ r, req_id (f r) = req_id r) →
  (∀ r, trk_heap (w_tracker W) !! a = Some r → req_inv r →
        req_inv (f r) ∧ (dispatched (state r) → dispatched (state (f r)))) →
  world_inv W → world_inv (set_tracker (update_object a f (w_tracker W)) W).
Proof.
  intros Hid Hf [Ht Hs Hg Hl]. split; simpl; try done.
  - apply update_object_inv; [done| |done]. intros r Hr Hi. by apply Hf.
  - intros rid (b & r & Hr & Hd)%Hl. exists b. eexists. split; [by apply lookup_update_object|].
    case_decide; [|done]. subst b. apply lookup_request_Some in Hr as [_ Hr].
    apply Hf; [done| |done]. by apply Ht in Hr.
Qed.

Section tracker_writes.
Context (clock : World → Z) (clock_pos : ∀ W, 0 < clock W).

Lemma preserves_transition rid s kw : preserves (transition_to clock rid s kw).
Proof.
  intros W HW. unfold transition_to, tracker_try, transition.
  destruct (lookup_request rid (w_tracker W)) as [[a r]|] eqn:Hl; [|by destruct W].
  destruct (validate_transition (state r) s) eqn:Hv; [|by destruct W].
  apply world_inv_update; [apply transitioned_req_id| |done].
  intros r' Hr' Hi. apply lookup_request_Some in Hl as [_ Hr]. simplify_eq.
  split; [by apply transitioned_req_inv|]. rewrite transitioned_state.
  by apply validate_keeps_dispatched.
Qed.

Lemma preserves_first_token rid W0 :
  preserves (tracker_do (record_first_token rid (clock W0))).
Proof.
  intros W HW. unfold tracker_do, record_first_token.
  destruct (lookup_request rid (w_tracker W)) as [[a r]|] eqn:Hl; [|by destruct W].
  case_decide as Hs; [by destruct W|]. case_decide; [by destruct W|].
  apply world_inv_update; [done| |done]. intros r' Hr' []. apply lookup_request_Some in Hl as [_ Hr].
  simplify_eq. split; [|done]. split; simpl; try done. intros _. rewrite Hs. set_solver.
Qed.
End tracker_writes.

Lemma preserves_publish rid o : preserves (publish_outcome_as rid o).
Proof.
  intros W HW. unfold publish_outcome_as, tracker_try, set_publish_outcome_of.
  case_decide; [|by destruct W]. destruct (get rid (w_tracker W)) as [a|]; [|by destruct W].
  apply world_inv_update; [done| |done]. intros r _ []. split; [by split|done].
Qed.

(** Attribute writes that leave the id, the state and the bookkeeping alone. *)
Lemma preserves_write a f :
  (∀ r, req_id (f r) = req_id r ∧ state (f r) = state r
        ∧ first_token_at (f r) = first_token_at r ∧ finished_at (f r) = finished_at r
        ∧ (dispatch_attempts r ≤ dispatch_attempts (f r))%Z) →
  preserves (update_request a f).
Proof.
  intros Hf W HW. apply world_inv_update; [apply Hf| |done].
  intros r _ [Ha Hn Hft Hfi]. destruct (Hf r) as (_ & Hs & H1 & H2 & H3).
  split; [|by rewrite Hs]. split; rewrite ?Hs, ?H1, ?H2; auto.
  - intros ?%Ha. lia.
  - lia.
Qed.

Lemma preserves_forget a t : preserves (forget_task a t).
Proof.
  intros W HW. unfold forget_task, the_request, mbind, method_mbind, method_bind.
  destruct (request_at a W) as [r|]; [|done]. destruct t as [t|]; [|done]. simpl.
  destruct HW as [Ht Hs Hg Hl]. unfold clear_cleanup_task.
  case_decide; [|by destruct W]. split; simpl; try done.
  destruct Ht as [[? ? ?] ?]. split; [|done]. split; simpl; [done..|by apply dwf_dpop].
Qed.

(** Dropping a request after its work left the ledger. *)
Lemma preserves_drop rid {B} (k : unit → method World B) :
  (∀ x, preserves (k x)) →
  preserves (_ ← gov_do (finish_request rid); _ ← tracker_do (remove rid); k tt).
Proof.
  intros Hk W [Ht Hs Hg Hl]. unfold mbind, method_mbind, method_bind. simpl. apply Hk.
  split; simpl; [|done|by apply finish_request_wf|].
  - by apply (trk_step_inv (w_tracker W)); [apply step_remove|].
  - intros x Hx. assert (x ≠ rid) as Hne.
    { intros ->. by apply finish_request_ledger in Hx. }
    apply finish_request_ledger_sub in Hx. apply Hl in Hx as (a & r & Hr & Hd).
    exists a, r. split; [|done]. apply lookup_request_Some in Hr as [Hr1 Hr2].
    apply lookup_request_Some. split; [|done]. simpl. by rewrite dget_dpop_ne.
Qed.

Lemma preserves_finish rid : preserves (gov_do (finish_request rid)).
Proof.
  apply preserves_gov_do; [apply finish_request_wf|]. intros g x _. apply finish_request_ledger_sub.
Qed.

Lemma preserves_cancel rid op : preserves (gov_do (λ g, (cancel rid op g).2)).
Proof.
  apply preserves_gov_do; [apply cancel_wf|]. intros g x _. apply cancel_ledger_sub.
Qed.

#[export] Hint Resolve preserves_ret preserves_raise preserves_request preserves_out
  preserves_publish preserves_forget preserves_finish preserves_cancel : loop.

(** Walks through a method, one statement at a time. *)
Ltac keeps_step :=
  lazymatch goal with
  | |- ∀ _, _ => intro
  | |- preserves (mbind _ read) => apply preserves_read
  | |- preserves (mbind _ _) => apply preserves_bind
  | |- preserves (when _ _) => apply preserves_when
  | |- preserves (swallow _) => apply preserves_swallow
  | |- preserves (catch_value _ _) => apply preserves_catch
  | |- preserves (for_each _ _) => apply preserves_for_each
  | |- preserves (match ?x with _ => _ end) => destruct x
  | |- preserves _ => solve [auto 3 with loop nocore]
  end.
Ltac keeps := repeat keeps_step.

(** What is asked of an awaited call: it keeps the invariant. *)
Definition keeps_inv {A} (f : World → A * World) : Prop :=
  ∀ W, world_inv W → world_inv (f W).2.

Lemma preserves_await {A} (f : World → A * World) : keeps_inv f → preserves (await_do f).
Proof. intros Hf W HW. unfold await_do. specialize (Hf W HW). by destruct (f W). Qed.

Lemma preserves_abort_remote rpc : keeps_inv rpc → preserves (abort_remote rpc).
Proof. intros Hf W HW. unfold abort_remote. specialize (Hf W HW). by destruct (rpc W). Qed.

#[export] Hint Resolve preserves_await preserves_abort_remote : loop.

Lemma preserves_prefill_done i e : preserves (Cleanup.prefill_done i e).
Proof. apply preserves_sched_do. intros s. apply on_prefill_done_wf. Qed.

Lemma preserves_decode_finished i e : preserves (Cleanup.decode_finished i e).
Proof. apply preserves_sched_try. intros s. apply on_decode_finished_wf. Qed.

Lemma preserves_quarantine tok clock i t d : preserves (quarantine tok clock i t d).
Proof. intros W []. split; simpl; try done. by apply quarantine_instance_wf. Qed.

Lemma preserves_mark_free rid : preserves (mark_free rid).
Proof. apply preserves_out. Qed.

#[export] Hint Resolve preserves_prefill_done preserves_decode_finished preserves_quarantine
  preserves_mark_free : loop.

(** ** Cleanup keeps the invariant *)

Section cleanup_inv.
Context (owner_id : string) (tok : World → string) (clock : World → Z).
Context (clock_pos : ∀ W, 0 < clock W).

#[local] Hint Resolve preserves_transition : loop.

Lemma preserves_fence rpc_transfer rpc_p rpc_d a :
  keeps_inv rpc_transfer → keeps_inv rpc_p → keeps_inv rpc_d →
  preserves (fence_and_abort_request owner_id tok clock rpc_transfer rpc_p rpc_d a).
Proof.
  intros Ht Hp Hd.
  unfold fence_and_abort_request, fence_transfer, fence_prefill, fence_decode, settle,
    epoch_moved, quarantine_source_changed_transfer, settle_prefill, settle_decode.
  keeps. by intros W.
Qed.

(** [retire] when nothing of the request is left in the ledger. *)
Lemma retire_inv a drop_request W :
  world_inv W →
  (drop_request = true → ∀ r, request_at a W = Some r → req_id r ∉ ledger_ids (w_gov W)) →
  world_inv (retire clock a drop_request W).2.
Proof.
  intros HW Hl. unfold retire, the_request, mbind, method_mbind, method_bind.
  destruct (request_at a W) as [r|] eqn:Hr; [|done]. simpl.
  unfold when at 1. destruct (tracked a r W); [|done].
  assert (preserves (abort_if_live clock r)) as Hab by (unfold abort_if_live; keeps).
  specialize (Hab W HW).
  assert (w_gov (abort_if_live clock r W).2 = w_gov W) as Hg.
  { unfold abort_if_live, when, transition_to, tracker_try. case_bool_decide; [|done].
    by destruct (transition _ _ _ _ _). }
  destruct (abort_if_live clock r W) as [[[]|e] W1]; [|done]. simpl in *.
  destruct drop_request; [|done]. simpl. destruct Hab as [Ht Hs Hgw Hle].
  split; simpl; [by apply (trk_step_inv (w_tracker W1)); [apply step_remove|]|done|done|].
  intros x Hx. assert (x ≠ req_id r) as Hne.
  { intros ->. rewrite Hg in Hx. by apply (Hl eq_refl r). }
  apply Hle in Hx as (b & r' & [Hr1 Hr2]%lookup_request_Some & Hd).
  exists b, r'. split; [|done]. apply lookup_request_Some. split; [|done].
  simpl. by rewrite dget_dpop_ne.
Qed.

(** The last thing every branch of the local cleanup does is to clear the
    request's ledger entries. *)
Definition clears (a : handle) (m : method World unit) : Prop :=
  ∀ W x W', world_inv W → m W = (Ok x, W') →
  ∀ r, request_at a W' = Some r → req_id r ∉ ledger_ids (w_gov W').

Lemma clears_bind {A} a (m : method World A) k :
  preserves m → (∀ x, clears a (k x)) → clears a (m ≫= k).
Proof.
  intros Hm Hk W x W' HW (y & W1 & Hy & H)%method_bind_ok.
  apply (Hk y W1 x W'); [|done]. specialize (Hm W HW). by rewrite Hy in Hm.
Qed.

Lemma clears_finish a r0 W x W' :
  world_inv W → request_at a W = Some r0 →
  gov_do (finish_request (req_id r0)) W = (Ok x, W') →
  ∀ r, request_at a W' = Some r → req_id r ∉ ledger_ids (w_gov W').
Proof.
  intros HW Hr [= _ <-] r Hr'. unfold request_at in *. simpl in *. simplify_eq.
  apply finish_request_ledger, HW.
Qed.

Lemma fence_clears rpc_transfer rpc_p rpc_d a :
  keeps_inv rpc_transfer → keeps_inv rpc_p → keeps_inv rpc_d →
  clears a (_ ← fence_and_abort_request owner_id tok clock rpc_transfer rpc_p rpc_d a; mret tt).
Proof.
  intros Ht Hp Hd W x W' HW (proof & W4 & H & [= _ <-])%method_bind_ok.
  unfold fence_and_abort_request in H.
  apply method_bind_ok in H as (r & ? & [Hr ->]%the_request_ok & H).
  rewrite read_bind in H.
  assert (∀ f, clears a (f1 ← fence_prefill rpc_p a f; f2 ← fence_decode rpc_d a f1;
                         _ ← settle owner_id tok clock a f2; mret tt)) as Hclear.
  { intros f. apply clears_bind; [unfold fence_prefill; keeps|]. intros f1.
    apply clears_bind; [unfold fence_decode; keeps|]. intros f2 W1 y W2 HW1.
    intros (pr & W3 & (r1 & Hr1 & _ & _ & Hg & Hs)%settle_settles & [= _ <-])%method_bind_ok.
    intros r2 Hr2. pose proof (st_tracker _ _ _ _ Hs) as Htr. unfold request_at in *.
    simpl in Htr. rewrite Htr in Hr2. simplify_eq. rewrite Hg.
    apply finish_request_ledger, HW1. }
  apply method_bind_ok in H as (f0 & W1 & H0 & H).
  assert (preserves (fence_transfer owner_id tok clock rpc_transfer a
            (begin_fence r (w_sched W) (w_gov W)))) as Hft.
  { unfold fence_transfer, epoch_moved, quarantine_source_changed_transfer. keeps. }
  specialize (Hft W HW). rewrite H0 in Hft.
  apply (Hclear f0 W1 tt W4 Hft). unfold mbind, method_mbind, method_bind in *.
  destruct (fence_prefill rpc_p a f0 W1) as [[f1|] W2]; [|done].
  destruct (fence_decode rpc_d a f1 W2) as [[f2|] W3]; [|done]. by rewrite H.
Qed.

Lemma local_cleanup_clears rpc_transfer rpc_p rpc_d a :
  keeps_inv rpc_transfer → keeps_inv rpc_p → keeps_inv rpc_d →
  clears a (local_cleanup owner_id tok clock rpc_transfer rpc_p rpc_d a).
Proof.
  intros Ht Hp Hd. unfold local_cleanup. apply clears_bind; [keeps|]. intros r.
  destruct (_ && _); [|destruct (_ && _); [|by apply fence_clears]].
  - unfold unknown_publish_cleanup. apply clears_bind; [keeps|]. intros r1 W x W' HW.
    rewrite read_bind. revert HW. apply clears_bind; [keeps|]. intros _.
    apply clears_bind; [keeps|]. intros _. apply clears_bind; [keeps|]. intros _ W1 y W2 HW1.
    intros (r2 & ? & [Hr2 ->]%the_request_ok & H)%method_bind_ok. by eapply clears_finish.
  - unfold unpublished_cleanup. intros W x W' HW.
    intros (r1 & ? & [Hr1 ->]%the_request_ok & H)%method_bind_ok.
    apply method_bind_ok in H as (? & W1 & H1 & H).
    apply method_bind_ok in H as (? & W2 & H2 & H).
    pose proof (preserves_prefill_done (prefill_instance r1) (prefill_instance_epoch r1) W HW)
      as HW1. rewrite H1 in HW1.
    pose proof (preserves_decode_finished (decode_instance r1) (decode_instance_epoch r1) W1 HW1)
      as HW2. rewrite H2 in HW2. simpl in HW2.
    apply prefill_done_settles in H1. apply decode_finished_settles in H2.
    eapply clears_finish; [exact HW2| |exact H]. unfold request_at in *.
    by rewrite (st_tracker _ _ _ _ H2), (st_tracker _ _ _ _ H1).
Qed.

Lemma preserves_local_cleanup rpc_transfer rpc_p rpc_d a :
  keeps_inv rpc_transfer → keeps_inv rpc_p → keeps_inv rpc_d →
  preserves (local_cleanup owner_id tok clock rpc_transfer rpc_p rpc_d a).
Proof.
  intros Ht Hp Hd. pose proof preserves_fence as Hf.
  unfold local_cleanup, unknown_publish_cleanup, unpublished_cleanup. keeps.
Qed.

(** [canonical_cleanup] is a cleanup the loop may join. *)
Lemma preserves_canonical_cleanup network rpc_transfer rpc_p rpc_d cleanup_request current a :
  keeps_inv rpc_transfer → keeps_inv rpc_p → keeps_inv rpc_d →
  preserves cleanup_request →
  preserves (canonical_cleanup owner_id tok clock network rpc_transfer rpc_p rpc_d
               cleanup_request current a).
Proof.
  intros Ht Hp Hd Hc. unfold canonical_cleanup. apply preserves_bind; [keeps|]. intros r.
  apply preserves_read. intros W0. destruct (negb _); [keeps|].
  apply preserves_bind; [|keeps]. destruct network.
  - unfold network_cleanup. do 2 (apply preserves_bind; [keeps|intros ?]).
    apply preserves_bind; [keeps|]. intros released.
    intros W HW. pose proof (preserves_request a W HW) as HW1.
    unfold mbind at 1, method_mbind at 1, method_bind at 1.
    destruct (the_request a W) as [[r'|] W1] eqn:Hr; [|done].
    apply the_request_ok in Hr as [Hr ->].
    assert (∀ W2, world_inv W2 → (released = true → req_id r' ∉ ledger_ids (w_gov W2)) →
      request_at a W2 = Some r' → world_inv (retire clock a released W2).2) as Hret.
    { intros W2 HW2 Hn Hr2. apply retire_inv; [done|]. intros Hx r2 Hr2'. simplify_eq. auto. }
    destruct released; simpl; apply Hret; try done.
    + by apply preserves_finish.
    + intros _. apply finish_request_ledger, HW.
  - intros W HW. pose proof (preserves_local_cleanup _ _ _ a Ht Hp Hd W HW) as HW1.
    pose proof (local_cleanup_clears _ _ _ a Ht Hp Hd W) as Hcl.
    unfold mbind at 1, method_mbind, method_bind.
    destruct (local_cleanup _ _ _ _ _ _ _ W) as [[[]|] W1]; [|done].
    apply retire_inv; [done|]. intros _. by eapply Hcl.
Qed.
End cleanup_inv.

(** ** Handlers keep the invariant *)

Section handlers_inv.
Context (network : bool) (clock : World → Z) (clock_pos : ∀ W, 0 < clock W).

#[local] Hint Resolve preserves_transition preserves_first_token : loop.

Lemma preserves_on_message m guard act :
  (∀ a r, preserves (act a r)) → preserves (on_message m guard act).
Proof. intros Ha. unfold on_message. keeps. Qed.

Lemma preserves_follow_output rid : preserves (follow_output clock rid).
Proof. unfold follow_output. keeps. Qed.

#[local] Hint Resolve preserves_follow_output : loop.

Lemma preserves_commit op : preserves (sched_try (commit_decode_slot op)).
Proof. apply preserves_sched_try. intros s Hs. by apply lease_ops_wf. Qed.

Lemma preserves_on_kv_done rid op ref : preserves (on_kv_done clock rid op ref).
Proof. pose proof preserves_commit. unfold on_kv_done. keeps. Qed.

Lemma preserves_apply_tokens rid tokens seq terminal error :
  preserves (apply_tokens rid tokens seq terminal error).
Proof. unfold apply_tokens. keeps. Qed.

#[local] Hint Resolve preserves_apply_tokens : loop.

Lemma preserves_suffix_prefill_done m : preserves (suffix_prefill_done clock m).
Proof. apply preserves_on_message. keeps. Qed.

Lemma preserves_recompute_done m : preserves (recompute_done clock m).
Proof. apply preserves_on_message. keeps. Qed.

Lemma preserves_first_token_msg m : preserves (first_token network clock m).
Proof. apply preserves_on_message. keeps. Qed.

Lemma preserves_repair_gap query a r : preserves query → preserves (repair_gap query a r).
Proof.
  intros Hq. unfold repair_gap, repair_query. keeps.
Qed.

Lemma preserves_decode_progress query m :
  preserves query → preserves (decode_progress network query m).
Proof.
  intros Hq. pose proof (preserves_repair_gap query) as Hr. apply preserves_on_message. keeps.
Qed.

Lemma preserves_decode_done m : preserves (decode_done network clock m).
Proof.
  assert (∀ i e op, preserves (sched_try (on_decode_finished i e op))) as Hd.
  { intros i e op. apply preserves_sched_try. intros s. apply on_decode_finished_wf. }
  apply preserves_on_message. intros a r. do 2 (apply preserves_bind; [keeps|intros ?]).
  apply preserves_bind; [keeps|intros _]. apply preserves_when, preserves_bind; [keeps|].
  intros _. apply (preserves_drop _ (λ _, mark_free (req_id r))). keeps.
Qed.
End handlers_inv.

(** Submitting a task of a request that is not in the ledger yet. *)
Lemma submit_inv {G} `{RoutingGate G} (reg : option G) client now t a r W :
  world_inv W → task_req_id t ∉ ledger_ids (w_gov W) → 0 ≤ task_kv_size t →
  lookup_request (task_req_id t) (w_tracker W) = Some (a, r) → dispatched (state r) →
  world_inv (gov_try (submit reg client now t) W).2.
Proof.
  intros [Ht Hs Hg Hl] Hn Hnn Hr Hd. unfold gov_try.
  pose proof (submit_wf reg client now (w_gov W) t Hg Hnn Hn) as Hwf.
  pose proof (λ x, submit_ledger reg client now t (w_gov W) x Hg Hn Hnn) as Hle.
  destruct (submit reg client now t (w_gov W)) as [res g]. split; simpl in *; try done.
  intros x [->|Hx]%Hle; eauto.
Qed.

Lemma transition_run clock rid s kw a r W :
  lookup_request rid (w_tracker W) = Some (a, r) → validate_transition (state r) s = true →
  transition_to clock rid s kw W
  = (Ok tt, set_tracker (update_object a (transitioned s kw (clock W)) (w_tracker W)) W).
Proof.
  intros Hl Hv. unfold transition_to, tracker_try, transition. by rewrite Hl, Hv.
Qed.

Lemma prefill_done_run i e W : ∃ b, (Cleanup.prefill_done i e W).1 = Ok b.
Proof.
  unfold Cleanup.prefill_done, sched_do. destruct (on_prefill_done _ _ _). by eexists.
Qed.

Section transfers_inv.
Context {G : Type} `{RoutingGate G} (reg : World → option G).
Context (client : World → TransferTask → bool).
Context (network : bool) (tok : World → string) (clock : World → Z).
Context (clock_pos : ∀ W, 0 < clock W).
Context (join_cleanup : handle → method World unit).
Context (join_inv : ∀ a, preserves (join_cleanup a)).

#[local] Hint Resolve preserves_transition preserves_first_token preserves_follow_output
  join_inv : loop.

Lemma preserves_trigger rpc a : preserves rpc → preserves (trigger_recompute_epoch_fenced rpc a).
Proof. intros Hr. unfold trigger_recompute_epoch_fenced. keeps. Qed.

Lemma failure_inv rid :
  preserves (λ W, let '(d, g) := on_transfer_failure rid (w_gov W) in (Ok d, set_gov g W)).
Proof.
  intros W [Ht Hs Hg Hl]. unfold on_transfer_failure. case_bool_decide; simpl;
    (split; simpl; [done|done| |done]; by eapply same_ledger_wf).
Qed.

Lemma preserves_after_failure rpc a started :
  preserves rpc → preserves started → preserves (after_failure join_cleanup rpc a started).
Proof.
  intros Hr Hs. pose proof preserves_trigger as Htr. unfold after_failure.
  apply preserves_bind; [keeps|]. intros r. apply preserves_bind; [apply failure_inv|]. keeps.
Qed.

#[local] Hint Resolve preserves_after_failure : loop.

Lemma preserves_prefill_done_msg rpc oid m :
  preserves rpc → 0 ≤ default 0 (msg_kv_size_bytes m) →
  preserves (prefill_done reg client network tok clock join_cleanup rpc oid m).
Proof.
  intros Hr Hsize W HW. unfold prefill_done, on_message. rewrite read_bind.
  destruct (find_request (msg_req_id m) W) as [a|] eqn:Hf; [|done].
  unfold mbind at 1, method_mbind at 1, method_bind at 1.
  destruct (the_request a W) as [[r|] W0] eqn:Ha.
  2: { pose proof (preserves_request a W HW) as HW0. by rewrite Ha in HW0. }
  apply the_request_ok in Ha as [Ha ->]. unfold when.
  destruct (_ && _) eqn:Hguard; [|done].
  destruct (network && _); [by apply join_inv|].
  apply andb_true_iff in Hguard as [[Hst%bool_decide_eq_true _]%andb_true_iff _].
  rewrite read_bind. unfold find_request in Hf. destruct (msg_req_id m) as [rid|]; [|done].
  unfold request_at in Ha.
  assert (req_id r = rid) as <-.
  { destruct HW as [[Hwf _] _ _ _]. destruct (wf_objects _ Hwf _ _ Hf) as (r' & ? & ?).
    congruence. }
  assert (lookup_request (req_id r) (w_tracker W) = Some (a, r)) as Hl
    by by apply lookup_request_Some.
  assert (req_id r ∉ ledger_ids (w_gov W)) as Hn.
  { intros Hin. destruct (wi_ledger W HW _ Hin) as (a' & r' & Hl' & Hd). simplify_eq.
    unfold dispatched in Hd. rewrite Hst in Hd. set_solver. }
  match goal with |- context [transition_to clock (req_id r) KV_PENDING ?k] => set (kw := k) end.
  pose proof (preserves_transition clock clock_pos (req_id r) KV_PENDING kw W HW) as HW1.
  assert (validate_transition (state r) KV_PENDING = true) as Hv by by rewrite Hst.
  pose proof (transition_run clock (req_id r) KV_PENDING kw a r W Hl Hv) as Hrun.
  rewrite Hrun in HW1. rewrite (method_bind_run _ _ _ _ _ Hrun).
  simpl in HW1. set (W1 := set_tracker _ W) in *.
  destruct (Cleanup.prefill_done (prefill_instance r) (prefill_instance_epoch r) W1)
    as [b W2] eqn:Hp.
  pose proof (preserves_prefill_done (prefill_instance r) (prefill_instance_epoch r) W1 HW1)
    as HW2. rewrite Hp in HW2. simpl in HW2.
  destruct (prefill_done_run (prefill_instance r) (prefill_instance_epoch r) W1) as [b' Hb'].
  rewrite Hp in Hb'. simpl in Hb'. subst b. rewrite (method_bind_run _ _ _ _ _ Hp).
  apply prefill_done_settles in Hp.
  set (r' := transitioned KV_PENDING kw (clock W) r).
  assert (request_at a W2 = Some r') as Hr2.
  { unfold request_at. rewrite (st_tracker _ _ _ _ Hp). simpl. by rewrite lookup_alter_eq, Ha. }
  rewrite (method_bind_run _ _ _ _ _ (the_request_run _ _ _ Hr2)). unfold submit_or.
  assert (task_req_id (transfer_task oid m r') = req_id r) as Hid
    by apply transitioned_req_id.
  pose proof (submit_inv (reg W2) (client W2) (clock W2) (transfer_task oid m r') a r' W2 HW2)
    as Hsub.
  rewrite Hid, (st_gov _ _ _ _ Hp) in Hsub. specialize (Hsub Hn Hsize).
  assert (world_inv (gov_try (submit (reg W2) (client W2) (clock W2) (transfer_task oid m r')) W2).2)
    as HW3.
  { apply Hsub.
    - apply lookup_request_Some. split; [|exact Hr2]. by rewrite (st_tracker _ _ _ _ Hp).
    - unfold dispatched. subst r'. rewrite transitioned_state. left. }
  destruct (gov_try _ W2) as [[[]|[]] W3]; try done. simpl in HW3.
  apply preserves_after_failure; auto. apply preserves_transition; auto.
Qed.

Lemma preserves_kv_timeout rpc_transfer rpc a :
  keeps_inv rpc_transfer → preserves rpc →
  preserves (kv_timeout clock join_cleanup rpc_transfer rpc a).
Proof. intros Ht Hr. unfold kv_timeout. keeps. Qed.

Lemma preserves_recompute_timeout rpc a :
  preserves rpc → preserves (recompute_timeout clock join_cleanup rpc a).
Proof.
  intros Hr. assert (∀ W a, preserves (update_request a (set_recompute_start (clock W)))) as Hu.
  { intros W b. by apply preserves_write. }
  unfold recompute_timeout. apply preserves_bind; [keeps|]. intros r. apply preserves_read.
  intros W. destruct (negb _); [keeps|]. apply preserves_after_failure; keeps.
Qed.

Lemma preserves_governor_tick : preserves (governor_tick reg client clock).
Proof.
  intros W HW. unfold governor_tick.
  apply preserves_gov_try; [intros g Hg; by apply tick_loop_wf| |done].
  intros g x Hg. by apply tick_loop_ledger_sub.
Qed.

Lemma preserves_reconcile query a :
  preserves query → preserves (reconcile_authoritative_output clock query a).
Proof. intros Hq. unfold reconcile_authoritative_output. keeps. Qed.

Lemma preserves_poll_output query interval now a :
  preserves query → preserves (poll_output clock query interval now a).
Proof.
  intros Hq. pose proof (preserves_reconcile query) as Hr.
  assert (∀ a, preserves (update_request a (set_last_output_query_at now))) as Hu.
  { intros b. by apply preserves_write. }
  unfold poll_output. keeps.
Qed.

Lemma preserves_sweep cleanup_request aborted a :
  preserves cleanup_request → preserves (sweep_terminal cleanup_request aborted a).
Proof.
  intros Hc. unfold sweep_terminal. apply preserves_bind; [keeps|]. intros released.
  apply preserves_bind; [keeps|]. intros r. apply preserves_when.
  apply (preserves_drop _ (λ _, _)). keeps.
Qed.

Lemma preserves_publish_command publish a :
  keeps_inv publish → preserves (publish_command join_cleanup publish a).
Proof.
  intros Hp. assert (∀ rid o, preserves (publish_failed join_cleanup rid o a)) as Hf.
  { intros rid o. unfold publish_failed. keeps. }
  assert (∀ rid, preserves (publish_acked join_cleanup rid a)) as Hacked.
  { intros rid W HW. unfold publish_acked. pose proof (preserves_publish rid "ACKED" W HW) as H1.
    destruct (publish_outcome_as rid "ACKED" W) as [[]  W1]; [done|]. by apply Hf. }
  unfold publish_command. keeps.
Qed.

Lemma preserves_allocate allocate a : preserves (allocate_ref allocate a).
Proof.
  intros W HW. unfold allocate_ref. destruct allocate as [f|]; [|done].
  by apply preserves_write.
Qed.

#[local] Hint Resolve preserves_publish_command preserves_allocate : loop.

Lemma preserves_prefill_timeout n publish a :
  keeps_inv publish → preserves (prefill_timeout clock join_cleanup n publish a).
Proof.
  intros Hp.
  assert (∀ W, preserves (update_request a (λ r, set_dispatch_attempts
            (dispatch_attempts r + 1) (set_prefill_start (clock W) r)))) as Hu.
  { intros W. apply preserves_write. intros r. simpl. split_and!; [done..|lia]. }
  unfold prefill_timeout. keeps.
Qed.

Lemma preserves_dispatch_waiting owner_id try_start allocate prepare publish a :
  (∀ f, try_start = Some f → preserves f) → keeps_inv prepare → keeps_inv publish →
  preserves (dispatch_waiting reg network tok clock join_cleanup owner_id try_start allocate
               prepare publish a).
Proof.
  intros Hs Hprep Hpub.
  assert (∀ kw, preserves (dispatch_prepared clock join_cleanup allocate publish a kw)) as Hdp.
  { intros kw. unfold dispatch_prepared. keeps. }
  assert (∀ p d pe de, preserves (dispatch_network network tok clock join_cleanup owner_id
            allocate prepare publish a p d pe de)) as Hdn.
  { intros p d pe de.
    assert (∀ i rid op t now, preserves (sched_try (adopt_picked_decode_slot i rid op t now))).
    { intros. apply preserves_sched_try. intros s. apply adopt_wf. }
    assert (∀ op, preserves (sched_try (release_decode_slot op))).
    { intros. apply preserves_sched_try. intros s Hw. by apply lease_ops_wf. }
    unfold dispatch_network. keeps. }
  assert (∀ rg req, preserves (sched_do (pick_prefill_instance (G := G) rg req))) as Hpp.
  { intros rg req. apply preserves_sched_do. intros s. apply pick_prefill_wf. }
  assert (∀ rg req now, preserves (sched_do (pick_decode_instance (G := G) rg req now))) as Hpd.
  { intros rg req now. apply preserves_sched_do. intros s. apply pick_decode_wf. }
  assert (∀ p, preserves (sched_do (on_prefill_done p None))) as Hod.
  { intros p. apply preserves_sched_do. intros s. apply on_prefill_done_wf. }
  unfold dispatch_waiting. apply preserves_bind; [keeps|]. intros r.
  apply preserves_bind; [|keeps].
  destruct try_start as [f|]; [|keeps]. destruct (_ && _); [by apply Hs|keeps].
Qed.
End transfers_inv.

(** A stuck suffix prefill was routed by affinity and never handed to the
    governor: when its cleanup answers ABORTED, nothing of it is in the
    ledger. *)
Definition suffix_ok (f : World → result exn (option bool) * World) (a : handle) : Prop :=
  keeps_inv f
  ∧ ∀ W r, world_inv W → (f W).1 = Ok (Some true) → request_at a (f W).2 = Some r →
    req_id r ∉ ledger_ids (w_gov (f W).2).

Lemma abort_remove_inv clock rid W :
  (∀ W, 0 < clock W) → world_inv W → rid ∉ ledger_ids (w_gov W) →
  world_inv ((_ ← transition_to clock rid ABORTED []; _ ← tracker_do (remove rid); mret tt) W).2.
Proof.
  intros Hc HW Hn. unfold mbind, method_mbind, method_bind.
  pose proof (preserves_transition clock Hc rid ABORTED [] W HW) as HW2.
  assert (w_gov (transition_to clock rid ABORTED [] W).2 = w_gov W) as Hg.
  { unfold transition_to, tracker_try. by destruct (transition _ _ _ _ _). }
  destruct (transition_to clock rid ABORTED [] W) as [[[]|e] W2]; [|done]. simpl in *.
  destruct HW2 as [Ht Hs Hgw Hl]. split; simpl;
    [by apply (trk_step_inv (w_tracker W2)); [apply step_remove|]|done|done|].
  intros x Hx. assert (x ≠ rid) as Hne by (intros ->; by rewrite Hg in Hx).
  apply Hl in Hx as (b & r' & [Hr1 Hr2]%lookup_request_Some & Hd).
  exists b, r'. split; [|done]. apply lookup_request_Some. split; [|done].
  simpl. by rewrite dget_dpop_ne.
Qed.

Lemma suffix_timeout_inv clock f a :
  (∀ W, 0 < clock W) → suffix_ok f a → preserves (suffix_timeout clock f a).
Proof.
  intros Hc [Hk Hn] W HW. unfold suffix_timeout. unfold mbind at 1, method_mbind at 1, method_bind at 1.
  specialize (Hk W HW). specialize (Hn W).
  destruct (f W) as [[outcome|e] W1]; [|done]. simpl in *.
  unfold mbind at 1, method_mbind at 1, method_bind at 1.
  unfold the_request. destruct (request_at a W1) as [r|] eqn:Hr; [|done].
  rewrite read_bind. unfold when. destruct (bool_decide (outcome = Some true) && _) eqn:Hb; [|done].
  apply andb_true_iff in Hb as [->%bool_decide_eq_true _].
  apply abort_remove_inv; [done|done|]. by apply Hn.
Qed.

(** The rely of the loop: awaited calls keep the invariant, and a prefill
    report has no negative size. *)
Record awaits_ok (aw : Awaits) : Prop := {
  ok_try_start : ∀ f a, aw_try_start aw = Some f → preserves (f a);
  ok_prepare : ∀ a, keeps_inv (aw_prepare aw a);
  ok_publish : ∀ a, keeps_inv (aw_publish aw a);
  ok_poll : ∀ event W, world_inv W → world_inv (aw_poll aw event W).2
    ∧ Forall (λ m, 0 ≤ default 0 (msg_kv_size_bytes m)) (aw_poll aw event W).1;
  ok_suffix : ∀ f a, aw_suffix aw = Some f → suffix_ok (f a) a;
  ok_transfer : ∀ a, keeps_inv (aw_transfer aw a);
  ok_recompute : ∀ a, preserves (aw_recompute aw a);
  ok_query : ∀ a, preserves (aw_query aw a);
  ok_cleanup : ∀ a b, preserves (aw_cleanup aw a b);
  ok_join : ∀ a, preserves (aw_join aw a) }.

Section tick_inv.
Context {G : Type} `{RoutingGate G} (reg : World → option G).
Context (client : World → TransferTask → bool).
Context (cfg : LoopConfig) (tok : World → string) (clock : World → Z) (oid : World → handle).
Context (clock_pos : ∀ W, 0 < clock W) (aw : Awaits) (aw_ok : awaits_ok aw).

Lemma preserves_poll_each event f :
  (∀ m, 0 ≤ default 0 (msg_kv_size_bytes m) → preserves (f m)) →
  preserves (poll_each aw event f).
Proof.
  intros Hf W HW. destruct (ok_poll aw aw_ok event W HW) as [HW1 Hm].
  unfold poll_each, await_do, mbind, method_mbind, method_bind.
  destruct (aw_poll aw event W) as [msgs W1]. simpl in *. clear HW. revert W1 HW1.
  induction Hm as [|m msgs Hm _ IH]; intros W1 HW1; simpl; [done|].
  specialize (Hf m Hm W1 HW1). unfold mbind, method_mbind, method_bind.
  destruct (f m W1) as [[[]|e] W2]; [by apply IH|done].
Qed.

Lemma preserves_scan_each scan f :
  (∀ a, preserves (f a)) → preserves (scan_each scan f).
Proof. intros Hf. unfold scan_each. keeps. Qed.

#[local] Hint Resolve ok_prepare ok_publish ok_transfer ok_recompute ok_query ok_cleanup
  ok_join : loop.

Lemma preserves_dispatch_phase : preserves (dispatch_phase reg cfg tok clock aw).
Proof.
  unfold dispatch_phase. apply preserves_read. intros W. apply preserves_until_stop.
  intros a. apply preserves_dispatch_waiting; auto with loop.
  destruct (aw_try_start aw) as [f|] eqn:Hf; [|done]. intros g [= <-].
  by apply (ok_try_start aw aw_ok).
Qed.

Lemma preserves_prefill_phase : preserves (prefill_phase reg client cfg tok clock oid aw).
Proof.
  unfold prefill_phase. apply preserves_bind.
  { apply preserves_poll_each. intros m _. by apply preserves_suffix_prefill_done. }
  intros _. apply preserves_bind.
  { destruct (aw_suffix aw) as [f|] eqn:Hf; [|apply preserves_ret].
    apply preserves_scan_each. intros a. apply suffix_timeout_inv; [done|].
    by apply (ok_suffix aw aw_ok). }
  intros _. apply preserves_bind.
  { apply preserves_scan_each. intros a. apply preserves_prefill_timeout; auto with loop. }
  intros _. apply preserves_poll_each. intros m Hm. apply preserves_read. intros W.
  apply preserves_prefill_done_msg; auto with loop.
Qed.

Lemma preserves_transfer_phase : preserves (transfer_phase reg client cfg clock aw).
Proof.
  unfold transfer_phase. apply preserves_bind.
  { apply preserves_scan_each. intros a. apply preserves_kv_timeout; auto with loop. }
  intros _. apply preserves_bind.
  { apply preserves_poll_each. intros m _. by apply preserves_recompute_done. }
  intros _. apply preserves_bind; [|intros _; apply preserves_governor_tick].
  apply preserves_scan_each. intros a. apply preserves_recompute_timeout; auto with loop.
Qed.

Lemma preserves_decode_phase : preserves (decode_phase cfg clock aw).
Proof.
  unfold decode_phase. apply preserves_bind.
  { apply preserves_poll_each. intros m _. by apply preserves_first_token_msg. }
  intros _. apply preserves_bind.
  { apply preserves_poll_each. intros m _. apply preserves_read. intros W.
    apply preserves_decode_progress; auto with loop. }
  intros _. apply preserves_poll_each. intros m _. by apply preserves_decode_done.
Qed.

Lemma preserves_terminal_phase : preserves (terminal_phase cfg clock aw).
Proof.
  unfold terminal_phase. apply preserves_bind.
  - apply preserves_when, preserves_read. intros W. apply preserves_bind.
    { apply preserves_when, preserves_scan_each. intros a.
      apply preserves_poll_output; auto with loop. }
    intros _. apply preserves_bind; [|intros _]; apply preserves_scan_each; intros a;
      apply preserves_sweep; auto with loop.
  - intros _. apply preserves_scan_each. intros a. unfold decode_timeout. auto with loop.
Qed.

Lemma preserves_schedule_tick : preserves (schedule_tick reg client cfg tok clock oid aw).
Proof.
  unfold schedule_tick.
  apply preserves_bind; [apply preserves_dispatch_phase|intros _].
  apply preserves_bind; [apply preserves_prefill_phase|intros _].
  apply preserves_bind; [apply preserves_transfer_phase|intros _].
  apply preserves_bind; [apply preserves_decode_phase|intros _].
  apply preserves_terminal_phase.
Qed.
End tick_inv.


(** ** What the handlers do with a message *)

Lemma on_message_skip m guard act W :
  trk_wf (w_tracker W) →
  (∀ a r, find_request (msg_req_id m) W = Some a → request_at a W = Some r →
     guard r W = false) →
  on_message m guard act W = (Ok tt, W).
Proof.
  intros Hwf Hg. unfold on_message. rewrite read_bind.
  destruct (find_request (msg_req_id m) W) as [a|] eqn:Hf; [|done].
  unfold find_request, get in Hf. destruct (msg_req_id m) as [rid|] eqn:Hm; [|done].
  destruct (wf_objects _ Hwf _ _ Hf) as (r & Hr & _).
  rewrite (method_bind_run _ _ _ _ _ (the_request_run _ _ _ Hr)).
  specialize (Hg a r eq_refl Hr). by rewrite Hg.
Qed.

Lemma on_message_run m guard act W a r :
  find_request (msg_req_id m) W = Some a → request_at a W = Some r → guard r W = true →
  on_message m guard act W = act a r W.
Proof.
  intros Hf Hr Hg. unfold on_message. rewrite read_bind, Hf.
  rewrite (method_bind_run _ _ _ _ _ (the_request_run _ _ _ Hr)). by rewrite Hg.
Qed.

(** A message from another epoch than the assigned one, or for a worker whose
    epoch has moved on. *)
Definition stale_for (assigned : RequestInfo → string) (instance : RequestInfo → string)
    (m : Message) (W : World) : Prop :=
  ∀ a r, find_request (msg_req_id m) W = Some a → request_at a W = Some r →
  msg_instance_epoch m ≠ Some (assigned r)
  ∨ epoch_matches (instance r) (assigned r) (w_sched W) = false.

Lemma stale_decode_guard m W a r :
  stale_for decode_instance_epoch decode_instance m W →
  find_request (msg_req_id m) W = Some a → request_at a W = Some r →
  from_decode_epoch m r W = false.
Proof.
  intros Hst Hf Hr. unfold from_decode_epoch, field_is, decode_current.
  destruct (Hst a r Hf Hr) as [Hne| ->]; [|apply andb_false_r].
  by rewrite bool_decide_eq_false_2.
Qed.

(** Completion messages are fenced by the worker epoch.  A message about a
    request that is not tracked, or that carries another epoch than the one
    the request was assigned in, or that arrives after the worker moved to a
    new epoch, changes nothing: no handler of decode-side messages acts on a
    stale decode epoch, and [prefill_done] does not act on a stale prefill
    epoch. *)
Theorem stale_messages_ignored {G} `{RoutingGate G} (reg : World → option G) client network tok
    clock join query rpc oid m W :
  trk_wf (w_tracker W) →
  (stale_for decode_instance_epoch decode_instance m W →
     suffix_prefill_done clock m W = (Ok tt, W)
     ∧ recompute_done clock m W = (Ok tt, W)
     ∧ first_token network clock m W = (Ok tt, W)
     ∧ decode_progress network query m W = (Ok tt, W)
     ∧ decode_done network clock m W = (Ok tt, W))
  ∧ (stale_for prefill_instance_epoch prefill_instance m W →
     prefill_done reg client network tok clock join rpc oid m W = (Ok tt, W)).
Proof.
  intros Hwf. split.
  - intros Hst. pose proof (stale_decode_guard m W) as Hg.
    split_and!; apply on_message_skip; try done; intros a r Hf Hr;
      rewrite (Hg a r Hst Hf Hr); by rewrite ?andb_false_r.
  - intros Hst. apply on_message_skip; [done|]. intros a r Hf Hr.
    unfold field_is, prefill_current. destruct (Hst a r Hf Hr) as [Hne| ->].
    + rewrite (bool_decide_eq_false_2 _ Hne). by rewrite andb_false_r.
    + by rewrite andb_false_r.
Qed.

(** What reading the buffered output may do to the request it is about. *)
Record follows (rid : string) (a : handle) (r : RequestInfo) (W W' : World) : Prop := {
  fo_sched : w_sched W' = w_sched W;
  fo_gov : w_gov W' = w_gov W;
  fo_request : ∃ r', lookup_request rid (w_tracker W') = Some (a, r')
    ∧ (state r' = state r ∨ state r' = FINISHED)
    ∧ target_request_commit_ref r' = target_request_commit_ref r }.

Lemma follow_output_ok clock rid a r W x W' :
  lookup_request rid (w_tracker W) = Some (a, r) →
  follow_output clock rid W = (Ok x, W') → follows rid a r W W'.
Proof.
  intros Hl. unfold follow_output.
  intros ([[tokens terminal] error] & W1 & H1 & H)%method_bind_ok.
  assert (w_tracker W1 = w_tracker W ∧ w_sched W1 = w_sched W ∧ w_gov W1 = w_gov W)
    as (Ht1 & Hs1 & Hg1).
  { unfold out_try in H1. destruct (w_out W); [|by simplify_eq].
    destruct (snapshot rid _). by simplify_eq. }
  rewrite read_bind in H. apply method_bind_ok in H as (? & W2 & H2 & H).
  assert (follows rid a r W W2) as [Hs2 Hg2 (r2 & Hl2 & Hst2 & Hc2)].
  { rewrite <- Ht1 in Hl. unfold when in H2.
    case_bool_decide; [|injection H2 as _ <-; split; [done..|eauto]].
    apply method_bind_ok in H2 as (b & ? & H2 & [= _ <-]). unfold tracker_do in H2.
    unfold record_first_token in H2. rewrite Hl in H2.
    case_decide as Hd; [|case_decide]; injection H2 as _ <-; (split; [done..|]); simpl; eauto.
    eexists. split; [by apply lookup_update_object|]. case_decide; auto. }
  unfold when in H. destruct (terminal || error_set error).
  - unfold transition_to, tracker_try, transition in H. rewrite Hl2 in H.
    destruct (validate_transition _ _); [|done]. injection H as _ <-.
    split; simpl; [done..|]. eexists. split; [by apply lookup_update_object|].
    rewrite decide_True by done. split; [right; apply transitioned_state|]. done.
  - injection H as _ <-. split; [done..|]. eauto.
Qed.

(** A transfer completion moves exactly its own request to decode.  The
    callback changes nothing unless the request is tracked, waits for this
    very operation, and its decode worker is still in the epoch it was
    assigned in; when it acts and returns, the request it found is decoding,
    or already finished if its buffered output was terminal, and in network
    mode its slot lease is no longer merely reserved. *)
Theorem kv_completion_is_exact clock rid op ref W W' :
  on_kv_done clock rid op ref W = (Ok tt, W') →
  (W' = W
   ∧ ∀ a r, lookup_request rid (w_tracker W) = Some (a, r) →
     ¬ (state r = KV_PENDING ∧ transfer_operation_id r = op ∧ decode_current r W = true))
  ∨ (∃ a r r', lookup_request rid (w_tracker W) = Some (a, r)
     ∧ state r = KV_PENDING ∧ transfer_operation_id r = op ∧ decode_current r W = true
     ∧ request_at a W' = Some r' ∧ state r' ∈ [DECODING; FINISHED]
     ∧ target_request_commit_ref r' = ref
     ∧ w_gov W' = w_gov W
     ∧ (active_operation_id r ≠ "" → ∃ l,
          dget (active_operation_id r) (slot_leases (w_sched W')) = Some l
          ∧ lease_state l ≠ RESERVED)).
Proof.
  unfold on_kv_done. rewrite read_bind.
  destruct (lookup_request rid (w_tracker W)) as [[a r]|] eqn:Hl.
  2: { intros [= <-]. left. split; [done|]. intros a r. congruence. }
  destruct (bool_decide (state r ≠ KV_PENDING) || _ || _) eqn:Hg.
  { intros [= <-]. left. split; [done|]. intros a' r' [= <- <-] (H1 & H2 & H3).
    by rewrite bool_decide_eq_false_2, bool_decide_eq_false_2, H3 in Hg by (intros Hn; auto). }
  apply orb_false_iff in Hg as [[Hst Hop]%orb_false_iff Hcur%negb_false_iff].
  apply bool_decide_eq_false in Hst, Hop. apply dec_stable in Hst, Hop.
  intros (? & W1 & H1 & H)%method_bind_ok. right.
  assert (w_tracker W1 = w_tracker W ∧ w_gov W1 = w_gov W
    ∧ (active_operation_id r ≠ "" → ∃ l,
         dget (active_operation_id r) (slot_leases (w_sched W1)) = Some l
         ∧ lease_state l ≠ RESERVED)) as (Ht1 & Hg1 & Hlease).
  { unfold when in H1. destruct (truthy (active_operation_id r)) eqn:Htr.
    2: { injection H1 as _ <-. apply truthy_false in Htr. by rewrite Htr. }
    unfold sched_try, commit_decode_slot in H1.
    destruct (dget _ _) as [l|] eqn:Hd; [|done]. case_decide as Hr.
    - injection H1 as _ <-. split_and!; [done..|]. intros _. simpl.
      rewrite dget_dset_eq. by eexists.
    - injection H1 as _ <-. split_and!; [done..|]. intros _. by exists l. }
  apply method_bind_ok in H as (? & W2 & H2 & H).
  rewrite <- Ht1 in Hl. rewrite (transition_run _ _ _ _ a r) in H2 by (by rewrite ?Hst).
  injection H2 as _ <-.
  set (r1 := transitioned DECODING [kw_target_request_commit_ref ref] (clock W1) r) in *.
  set (W2 := set_tracker _ W1) in *.
  assert (lookup_request rid (w_tracker W2) = Some (a, r1)) as Hl2.
  { unfold W2. simpl. erewrite lookup_update_object by done. by rewrite decide_True. }
  assert (follows rid a r1 W2 W') as [Hs Hgv (r2 & Hl3 & Hst2 & Hc)].
  { unfold when in H. case_bool_decide; [by eapply follow_output_ok|].
    injection H as <-. split; [done..|]. eauto. }
  exists a, r, r2. split_and!; try done.
  - by apply lookup_request_Some in Hl3 as [_ ?].
  - destruct Hst2 as [-> | ->]; simpl; set_solver.
  - rewrite Hgv. done.
  - by rewrite Hs.
Qed.

(** ** Two ways out of the loop *)

(** A KV completion that wins the race against the timeout's transfer
    abort makes the cleanup raise.  If the request was KV_PENDING with its
    transfer in flight when the cleanup started, and is DECODING, its epochs
    unchanged, when the abort RPC answers (whatever it answers, and whatever
    the decode abort answers), then the evidence combines DECODING with a
    fenced or uncertain transfer, [validate_cleanup_proof] rejects it, and
    [_fence_and_abort_request] raises ValueError with nothing released or
    quarantined and the request still tracked. *)
Theorem completion_race_raises owner_id tok clock rpc_transfer rpc_p rpc_d a W r0 reply W1 r1
    reply2 W2 r2 :
  request_at a W = Some r0 → state r0 = KV_PENDING → decode_instance r0 ≠ "" →
  task_state (req_id r0) (or_none (transfer_operation_id r0)) (w_gov W) = task_inflight →
  classify_transfer_epochs r0 (w_sched W) = BOTH_CURRENT →
  rpc_transfer W = (reply, W1) → request_at a W1 = Some r1 → state r1 = DECODING →
  classify_transfer_epochs r1 (w_sched W1) = BOTH_CURRENT →
  rpc_d W1 = (reply2, W2) → request_at a W2 = Some r2 → state r2 = DECODING →
  decode_current r2 W2 = true →
  fence_and_abort_request owner_id tok clock rpc_transfer rpc_p rpc_d a W
  = (Raise ValueError, W2).
Proof.
  intros Hr0 Hs0 Hd0 Htask Hc0 Ht Hr1 Hs1 Hc1 Hd Hr2 Hs2 Hcur.
  assert (target_epoch_changed (begin_fence r0 (w_sched W) (w_gov W)) = false
          ∧ owns_p (begin_fence r0 (w_sched W) (w_gov W)) = false
          ∧ p_epoch_changed (begin_fence r0 (w_sched W) (w_gov W)) = false
          ∧ f_task (begin_fence r0 (w_sched W) (w_gov W)) = task_inflight
          ∧ source_changed_target_current (begin_fence r0 (w_sched W) (w_gov W)) = false)
    as (Htc & Hop & Hpc & Hft & Hsc).
  { unfold begin_fence. simpl. rewrite Hs0. split_and!; try done.
    unfold classify_transfer_epochs in Hc0. destruct (epoch_matches _ _ _); [|done].
    by rewrite andb_false_r. }
  unfold fence_and_abort_request.
  rewrite (method_bind_run _ _ _ _ _ (the_request_run _ _ _ Hr0)), read_bind.
  set (f := begin_fence r0 (w_sched W) (w_gov W)) in *. clearbody f.
  set (f0 := set_transfer (if acknowledged reply then FENCED_ACK else T_UNCERTAIN) f).
  assert (fence_transfer owner_id tok clock rpc_transfer a f W = (Ok f0, W1)) as Hf0.
  { unfold fence_transfer.
    rewrite (method_bind_run _ _ _ _ _ (the_request_run _ _ _ Hr0)), read_bind.
    rewrite Hs0, Htc, Hft, Hc0.
    rewrite (method_bind_run _ _ W (acknowledged reply) W1)
      by (unfold abort_remote; by rewrite Ht).
    rewrite (method_bind_run _ _ _ _ _ (the_request_run _ _ _ Hr1)), read_bind.
    by rewrite Hc1. }
  rewrite (method_bind_run _ _ _ _ _ Hf0).
  rewrite (method_bind_run _ _ W1 f0 W1) by (unfold fence_prefill; simpl; by rewrite Hop).
  set (f1 := set_d_state (remote_of (acknowledged reply2)) f0).
  assert (fence_decode rpc_d a f0 W1 = (Ok f1, W2)) as Hf1.
  { unfold fence_decode. rewrite (method_bind_run _ _ _ _ _ (the_request_run _ _ _ Hr1)).
    simpl. rewrite Htc, Hsc, Hs1. simpl.
    rewrite (method_bind_run _ _ W1 (acknowledged reply2) W2)
      by (unfold abort_remote; by rewrite Hd).
    rewrite (method_bind_run _ _ _ _ _ (the_request_run _ _ _ Hr2)), read_bind.
    unfold decode_current in Hcur. by rewrite Hcur. }
  rewrite (method_bind_run _ _ _ _ _ Hf1). unfold settle.
  rewrite (method_bind_run _ _ _ _ _ (the_request_run _ _ _ Hr2)).
  unfold mbind, method_mbind, method_bind, when. simpl. rewrite Hpc, Htc, Hsc. simpl.
  unfold validate_cleanup_proof, proof_valid. simpl. rewrite Hs2.
  destruct (acknowledged reply); simpl; by rewrite !andb_false_r.
Qed.

Lemma on_decode_finished_total i e op s :
  sched_wf s → ∃ b s', on_decode_finished i e op s = (Ok b, s').
Proof.
  intros Hwf.
  assert (∀ s', decode_free_slots s' = decode_free_slots s →
    decode_max_slots s' = decode_max_slots s → ∃ b s2, free_one_slot i s' = (Ok b, s2)) as Hfree.
  { intros s' Hf Hm. unfold free_one_slot. rewrite Hf, Hm.
    destruct (dget i (decode_free_slots s)) as [f|] eqn:Hi; [|eauto].
    destruct (sw_free s Hwf i f Hi) as (m & -> & _). case_bool_decide; eauto. }
  unfold on_decode_finished. destruct (epoch_stale _ _ _); [eauto|].
  destruct op as [o|]; [|by apply Hfree]. destruct (truthy o); [|by apply Hfree].
  destruct (dget o (slot_leases s)); [|eauto]. destruct (_ || _); [eauto|]. by apply Hfree.
Qed.

(** A report shorter than the committed output leaves the buffer alone. *)
Lemma short_report_ignored rid tokens terminal error W b oa st :
  w_out W = Some b → dget rid (ob_states b) = Some oa → ob_heap b !! oa = Some st →
  (length tokens < length (out_token_ids st))%nat →
  apply_tokens rid tokens (Z.of_nat (length tokens)) terminal error W = (Ok tt, W).
Proof.
  intros Ho Hd Hst Hlen. unfold apply_tokens, mbind, method_mbind, method_bind, out_try.
  rewrite Ho. unfold apply_cumulative, apply_begin, ensure_state. simpl. rewrite Hd.
  rewrite bool_decide_eq_false_2 by (intros Hn; by apply Hn).
  unfold apply_commit. simpl. rewrite Hst, bool_decide_eq_true_2 by done.
  unfold set_out. rewrite <- Ho. by destruct W.
Qed.

(** In local mode a terminal report shorter than what was streamed ends
    the loop.  [apply_cumulative] ignores such a report, its terminal flag
    included, so [decode_done] finishes and removes the request, and then
    [mark_resource_free] raises ValueError because the stream is neither
    terminal nor failed; nothing in the loop catches it, and the reader of
    the stream is never woken.  (The fallback of the handler for a report it
    rejects is an empty terminal report, with the same effect.) *)
Theorem short_terminal_report_raises clock m W a r b oa st :
  world_inv W → (∀ W, 0 < clock W) →
  find_request (msg_req_id m) W = Some a → request_at a W = Some r → state r = DECODING →
  msg_instance_epoch m = Some (decode_instance_epoch r) → decode_current r W = true →
  w_out W = Some b → dget (req_id r) (ob_states b) = Some oa → ob_heap b !! oa = Some st →
  out_terminal st = false → out_error st = None →
  (length (default [] (msg_token_ids m)) < length (out_token_ids st))%nat →
  msg_output_seq_no m = None →
  ∃ W', decode_done false clock m W = (Raise ValueError, W')
    ∧ w_out W' = Some b ∧ get (req_id r) (w_tracker W') = None.
Proof.
  intros HW Hc Hf Hr Hst Hep Hcur Ho Hd Hob Hter Herr Hlen Hseq.
  unfold find_request in Hf. destruct (msg_req_id m) as [rid|] eqn:Hm; [|done].
  assert (req_id r = rid) as <-.
  { destruct HW as [[Hwf _] _ _ _]. destruct (wf_objects _ Hwf _ _ Hf) as (r' & ? & ?).
    unfold request_at in Hr. congruence. }
  assert (lookup_request (req_id r) (w_tracker W) = Some (a, r)) as Hl
    by by apply lookup_request_Some.
  unfold decode_done.
  rewrite (on_message_run _ _ _ W a r); [|by rewrite Hm|done|].
  2: { unfold same_operation, from_decode_epoch, field_is. rewrite Hst, Hep, Hcur.
       rewrite (bool_decide_eq_true_2 (Some _ = Some _)) by done. vm_compute. done. }
  erewrite (method_bind_run _ _ W tt W).
  2: { unfold catch_value. rewrite Hseq. simpl. by erewrite short_report_ignored. }
  rewrite (method_bind_run _ _ _ _ _ (the_request_run _ _ _ Hr)). rewrite Hst.
  erewrite (method_bind_run _ _ W).
  2: { simpl. apply (transition_run _ _ _ _ a r); [done|by rewrite Hst]. }
  set (W1 := set_tracker _ W).
  destruct (on_decode_finished_total (decode_instance r) (Some (decode_instance_epoch r))
              (or_none (active_operation_id r)) (w_sched W1) (wi_sched W HW)) as (x & s' & Hx).
  simpl. erewrite (method_bind_run _ _ W1 x (set_sched s' W1)).
  2: { unfold sched_try. by rewrite Hx. }
  unfold mbind, method_mbind, method_bind, gov_do, modify, tracker_do, mark_free, out_try. simpl.
  rewrite Ho. unfold mark_resource_free. rewrite Hd, Hob, Hter, Herr. simpl.
  eexists. split_and!; [done|done|]. unfold get. simpl. by rewrite dget_dpop_eq.
Qed.

(** ** Concrete instances of the properties *)

Definition demo_config : LoopConfig :=
  mkLoopConfig 1000 1000 1000 1000 1000 3 50 "gw" false.

(** One WAITING request, the instances of [demo_scheduler]. *)
Definition demo_start : World :=
  mkWorld (mkTracker {[0%nat := new_RequestInfo "r0" 5]} [("r0", 0%nat)] [])
    demo_scheduler demo_governor None 0%nat.

Definition report (epoch : string) (tokens : option (list Z)) : Message :=
  mkMessage (Some "r0") (Some epoch) None (Some 64) (Some [1; 2]) (Some 7) tokens None.

(** Workers that acknowledge everything; the prefill of [r0] completes. *)
Definition demo_awaits : Awaits :=
  mkAwaits None None (λ _ W, (PrepareFailed, W)) (λ _ W, (Published, W))
    (λ event W, (if decide (event = "prefill_done") then [report "e0" None] else [], W))
    None (λ _, replies true) (λ _ W, (Ok true, W)) (λ _ W, (Raise RuntimeError, W))
    (λ _ _ W, (Ok true, W))
    (canonical_cleanup "gw" demo_tok demo_clock false (replies true) (replies true)
       (replies true) (λ W, (Ok true, W)) None).

Lemma demo_clock_pos W : 0 < demo_clock W.
Proof. done. Qed.

Lemma demo_awaits_ok : awaits_ok demo_awaits.
Proof.
  split; simpl; try done; try (by intros ? W HW); try (by intros ? ? W HW).
  - intros event W HW. split; [done|]. case_decide; repeat constructor. simpl. lia.
  - intros a. apply preserves_canonical_cleanup; [apply demo_clock_pos|by intros W..].
Qed.

Lemma demo_governor_wf : gov_wf demo_governor.
Proof.
  apply (same_ledger_wf (init_governor default_governor_config)); [|done..].
  by apply init_governor_wf.
Qed.

(** A tracker with one request. *)
Lemma one_request_inv r tasks :
  req_inv r → dwf tasks →
  trk_inv (mkTracker {[0%nat := r]} [(req_id r, 0%nat)] tasks).
Proof.
  intros Hr Ht. split.
  - split; cbn [trk_requests trk_heap trk_cleanup_tasks]; [|intros rid a|done].
    + repeat constructor. set_solver.
    + cbn [dget]. case_decide as Hd; [|done]. intros [= <-]. subst.
      exists r. by rewrite lookup_singleton_eq.
  - cbn [trk_heap]. intros a r' [_ <-]%lookup_singleton_Some. done.
Qed.

Lemma demo_start_inv : world_inv demo_start.
Proof.
  split.
  - apply (one_request_inv (new_RequestInfo "r0" 5)); [apply new_RequestInfo_inv|apply dwf_nil].
  - apply demo_scheduler_wf.
  - apply demo_governor_wf.
  - intros rid Hin. vm_compute in Hin. by apply not_elem_of_nil in Hin.
Qed.


Lemma demo_request_tracker : trk_inv (w_tracker (demo_world DECODING)).
Proof.
  apply (one_request_inv (demo_request DECODING)).
  - split; simpl; try done; set_solver.
  - repeat constructor. set_solver.
Qed.

Lemma stale_messages_ignored_witness :
  decode_done false demo_clock (report "old" None) (demo_world DECODING)
  = (Ok tt, demo_world DECODING).
Proof.
  apply (stale_messages_ignored (G := unit) (λ _, None) (λ _ _, true) false demo_tok demo_clock
           (λ _, mret tt) (λ W, (Raise RuntimeError, W)) (λ W, (Ok true, W)) 0%nat).
  - apply demo_request_tracker.
  - intros a r Hf Hr. left. vm_compute in Hf. injection Hf as <-. vm_compute in Hr.
    injection Hr as <-. vm_compute. discriminate.
Defined.

Lemma kv_completion_is_exact_witness :
  let W' := (on_kv_done demo_clock "r0" "op-r0" None (demo_world KV_PENDING)).2 in
  ∃ a r', request_at a W' = Some r' ∧ state r' ∈ [DECODING; FINISHED].
Proof.
  cbv zeta.
  destruct (kv_completion_is_exact demo_clock "r0" "op-r0" None (demo_world KV_PENDING)
    (on_kv_done demo_clock "r0" "op-r0" None (demo_world KV_PENDING)).2)
    as [[_ H]|(a & r & r' & _ & _ & _ & _ & Hr & Hs & _)].
  - vm_compute. reflexivity.
  - exfalso. apply (H 0%nat (demo_request KV_PENDING)); vm_compute; [reflexivity|].
    split_and!; reflexivity.
  - exists a, r'. split; assumption.
Defined.

(** The demo governor with [r0]'s transfer in flight. *)
Definition racing_world : World :=
  set_gov (submit (G := unit) None accepting 0
             (mkTransferTask 9 "r0" "p0" "d1" 64 "op-r0" "e0" "f1" [] [] None [] 0%nat None "" 1
                true)
             (set_gov_kv_usage (kv_usage demo_scheduler)
                (set_expected {["d1" := "f1"]} (init_governor default_governor_config)))).2
    (demo_world KV_PENDING).

(** The transfer completes while its abort is awaited. *)
Definition completing : await_rpc := λ W,
  (ReplyDict false, (on_kv_done demo_clock "r0" "op-r0" None W).2).

Lemma completion_race_raises_witness :
  ∃ W2, fence_and_abort_request "gw" demo_tok demo_clock completing (replies true) (replies true)
          0%nat racing_world = (Raise ValueError, W2)
    ∧ get "r0" (w_tracker W2) = Some 0%nat.
Proof.
  eexists. split.
  - eapply (completion_race_raises "gw" demo_tok demo_clock completing (replies true)
              (replies true) 0%nat racing_world); try (vm_compute; reflexivity).
    vm_compute. discriminate.
  - vm_compute. reflexivity.
Defined.

(** [r0] has streamed two tokens when an empty [decode_done] arrives. *)
Definition streamed_world : World :=
  set_out (Some (mkGatewayOutputBuffer 4 4 {[5%nat := mkOutputState [8; 9] false None]}
                   [("r0", 5%nat)] []))
    (set_gov (init_governor default_governor_config) (demo_world DECODING)).

Lemma streamed_world_inv : world_inv streamed_world.
Proof.
  split.
  - apply demo_request_tracker.
  - apply pick_decode_wf, pick_prefill_wf, demo_scheduler_wf.
  - by apply init_governor_wf.
  - intros rid Hin. vm_compute in Hin. by apply not_elem_of_nil in Hin.
Qed.

Lemma short_terminal_report_raises_witness :
  ∃ W', decode_done false demo_clock (report "f1" None) streamed_world = (Raise ValueError, W')
    ∧ get "r0" (w_tracker W') = None.
Proof.
  destruct (short_terminal_report_raises demo_clock (report "f1" None) streamed_world 0%nat
    (demo_request DECODING)
    (mkGatewayOutputBuffer 4 4 {[5%nat := mkOutputState [8; 9] false None]}
       [("r0", 5%nat)] []) 5%nat (mkOutputState [8; 9] false None))
    as (W' & Hrun & _ & Hget); try (vm_compute; reflexivity).
  - apply streamed_world_inv.
  - vm_compute. lia.
  - exists W'. split; [exact Hrun|exact Hget].
Defined.
