(* ===== verification/Loader.v ===== *)
(** * Cached-prefix loading and its compensation (router/loader.py, router/protocol.py)

    A load resolves and pins the prefix on the source worker, prepares the
    target, copies the blocks (or reuses them when source and target are the
    same worker) and commits; [cleanup_load_context] undoes a load from the
    stage it reached.

    A load shares its [PrefixLoadContext] with the affinity coordinator, so
    contexts are objects in a heap, next to the world of the schedule loop and
    the coordinator's own dictionaries.  Every RPC is a function of that state
    that brings a reply or an exception and the state the caller wakes up in;
    a timeout or a cancellation that strikes at an await is that await raising
    it.  The callback [on_change] only reads metrics and is left out. *)

From S2P Require Import Router.
From S2P Require Import Prelude PyDict Fingerprint SequenceState Scheduler Cleanup.
From stdpp Require Import prelude gmap strings.

Local Open Scope Z_scope.

(** ** Protocol values *)

Inductive MappedTransferStatus : Type :=
| MT_PREPARED | MT_RUNNING | MT_COMPLETED | MT_FENCED | MT_UNKNOWN.
Inductive PrefixOperationStatus : Type :=
| OP_PREPARED | OP_COMMITTED | OP_ABORTED | OP_UNKNOWN.

#[export] Instance MappedTransferStatus_eq_dec : EqDecision MappedTransferStatus.
Proof. solve_decision. Defined.
#[export] Instance PrefixOperationStatus_eq_dec : EqDecision PrefixOperationStatus.
Proof. solve_decision. Defined.

Record ResolvedPrefix := mkResolvedPrefix {
  rp_operation_id : string;
  rp_source_epoch : string;
  rp_src_block_ids : list Z }.

Record PreparedPrefix := mkPreparedPrefix {
  pp_operation_id : string;
  pp_mode : string;
  pp_dst_block_ids : list Z }.

Record CachedPrefixPlan := mkCachedPrefixPlan {
  pl_operation_id : string;
  pl_req_id : string;
  pl_source_instance : string;
  pl_target_instance : string;
  pl_source_epoch : string;
  pl_target_epoch : string;
  pl_src_block_ids : list Z;
  pl_dst_block_ids : list Z;
  pl_cached_prefix_tokens : Z;
  pl_namespace : string;
  pl_kv_compatibility_id : string;
  pl_request_context_digest : string;
  pl_token_ids : list Z;
  pl_sampling_params : handle;
  pl_mode : string }.

#[export] Instance CachedPrefixPlan_eta : Eta CachedPrefixPlan := λ r,
  mkCachedPrefixPlan (pl_operation_id r) (pl_req_id r) (pl_source_instance r)
    (pl_target_instance r) (pl_source_epoch r) (pl_target_epoch r) (pl_src_block_ids r)
    (pl_dst_block_ids r) (pl_cached_prefix_tokens r) (pl_namespace r) (pl_kv_compatibility_id r)
    (pl_request_context_digest r) (pl_token_ids r) (pl_sampling_params r) (pl_mode r).

Definition set_dst_block_ids (v : list Z) (r : CachedPrefixPlan) : CachedPrefixPlan :=
  ltac:(with_field r pl_dst_block_ids v).

Record ExpectedPrefixBlock := mkExpectedPrefixBlock {
  eb_block_index : nat;
  eb_chain_hash : Z;
  eb_token_ids : list Z }.

Inductive CleanupAction : Type := CA_ABORTED | CA_COMMITTED | CA_QUARANTINED.

#[export] Instance CleanupAction_eq_dec : EqDecision CleanupAction.
Proof. solve_decision. Defined.

Record CleanupOutcome := mkCleanupOutcome {
  oc_action : CleanupAction;
  oc_target_state : PrefixOperationStatus }.

(** ** Load contexts *)

Inductive Stage : Type :=
| STARTED | RESOLVING | RESOLVED | PREPARING | PREPARED | TRANSFERRING | COMMITTING | COMMITTED.

#[export] Instance Stage_eq_dec : EqDecision Stage.
Proof. solve_decision. Defined.

Record PrefixLoadContext := mkPrefixLoadContext {
  cx_operation_id : string;
  cx_req_id : string;
  cx_source_instance : string;
  cx_target_instance : string;
  cx_stage : Stage;
  cx_plan : option CachedPrefixPlan;
  cx_source_pinned : bool;
  cx_target_pending : bool }.

#[export] Instance PrefixLoadContext_eta : Eta PrefixLoadContext := λ r,
  mkPrefixLoadContext (cx_operation_id r) (cx_req_id r) (cx_source_instance r)
    (cx_target_instance r) (cx_stage r) (cx_plan r) (cx_source_pinned r) (cx_target_pending r).

Definition set_stage (v : Stage) (r : PrefixLoadContext) : PrefixLoadContext :=
  ltac:(with_field r cx_stage v).
Definition set_plan (v : option CachedPrefixPlan) (r : PrefixLoadContext) : PrefixLoadContext :=
  ltac:(with_field r cx_plan v).
Definition set_source_pinned (v : bool) (r : PrefixLoadContext) : PrefixLoadContext :=
  ltac:(with_field r cx_source_pinned v).
Definition set_target_pending (v : bool) (r : PrefixLoadContext) : PrefixLoadContext :=
  ltac:(with_field r cx_target_pending v).

Definition new_PrefixLoadContext (op rid source target : string) : PrefixLoadContext :=
  mkPrefixLoadContext op rid source target STARTED None false false.

(** ** The shared state *)

Record CWorld := mkCWorld {
  cw_world : World;
  (** the context objects, by address *)
  cw_heap : gmap handle PrefixLoadContext;
  (** the coordinator's dictionaries: [_contexts], and the operations that
      have an entry in [_tasks], [_recovery_tasks], [_source_release_tasks] *)
  cw_contexts : odict string handle;
  cw_tasks : gset string;
  cw_recovery : gset string;
  cw_releasing : gset string }.

#[export] Instance CWorld_eta : Eta CWorld := λ r,
  mkCWorld (cw_world r) (cw_heap r) (cw_contexts r) (cw_tasks r) (cw_recovery r) (cw_releasing r).

Definition set_world (v : World) (r : CWorld) : CWorld := ltac:(with_field r cw_world v).
Definition set_heap (v : gmap handle PrefixLoadContext) (r : CWorld) : CWorld :=
  ltac:(with_field r cw_heap v).
Definition set_contexts (v : odict string handle) (r : CWorld) : CWorld :=
  ltac:(with_field r cw_contexts v).
Definition set_tasks (v : gset string) (r : CWorld) : CWorld := ltac:(with_field r cw_tasks v).
Definition set_recovery (v : gset string) (r : CWorld) : CWorld :=
  ltac:(with_field r cw_recovery v).
Definition set_releasing (v : gset string) (r : CWorld) : CWorld :=
  ltac:(with_field r cw_releasing v).

Definition cw_sched (W : CWorld) : PDScheduler := w_sched (cw_world W).

(** A method of the loop's world, and one of its scheduler. *)
Definition in_world {A} (m : method World A) : method CWorld A := λ W,
  let '(x, w) := m (cw_world W) in (x, set_world w W).
Definition on_sched {A} (m : method PDScheduler A) : method CWorld A := in_world (sched_try m).

(** Writing and reading the attributes of a context object. *)
Definition ctx_do (a : handle) (f : PrefixLoadContext → PrefixLoadContext) : method CWorld unit :=
  modify (λ W, set_heap (alter f a (cw_heap W)) W).
Definition the_context (a : handle) : method CWorld PrefixLoadContext := λ W,
  match cw_heap W !! a with Some c => (Ok c, W) | None => (Raise KeyError, W) end.

Definition await (A : Type) : Type := CWorld → result exn A * CWorld.

Record PrefixCacheRPC := mkPrefixCacheRPC {
  (** source, source epoch, operation, expected blocks, the three identities *)
  resolve_prefix : string → string → string → list ExpectedPrefixBlock →
    string → string → string → await (option ResolvedPrefix);
  (** target, target epoch, operation, request, mode, block count, tokens, sampling *)
  prepare_prefix : string → string → string → string → string → nat → list Z → handle →
    await (option PreparedPrefix);
  transfer_cached_prefix : CachedPrefixPlan → await MappedTransferStatus;
  commit_cached_prefix : string → string → CachedPrefixPlan → await unit;
  abort_mapped_prefix : string → string → string → await MappedTransferStatus;
  get_prefix_operation : string → string → await PrefixOperationStatus;
  abort_cached_prefix : string → string → await unit;
  unpin_prefix : string → string → await unit;
  abort_suffix_prefill : string → string → await bool }.

(** ** Loading *)

(** The [expected] list: [chain_hashes[index]] raises outside the list, a
    slice of [token_ids] does not. *)
Definition expected_blocks (fp : PromptFingerprint) (block_count : nat) :
    option (list ExpectedPrefixBlock) :=
  mapM (λ i, h ← fp_chain_hashes fp !! i;
             Some (mkExpectedPrefixBlock i h
                     (take (fp_block_size fp) (drop (i * fp_block_size fp) (fp_token_ids fp)))))
    (seq 0 block_count).

Section loader.
Context (rpc : PrefixCacheRPC).

Definition load_mode (d : Router.CachedPrefixDecision) : string :=
  if bool_decide (Router.source_instance d = Router.decode_instance d)
  then "local_reuse" else "remote_transfer".

(** The plan before the target is prepared. *)
Definition resolved_plan (rid op : string) (fp : PromptFingerprint) (sampling : handle)
    (d : Router.CachedPrefixDecision) (target_epoch : string) (src_blocks : list Z) :
    CachedPrefixPlan :=
  mkCachedPrefixPlan op rid (Router.source_instance d) (Router.decode_instance d)
    (Router.source_epoch d) target_epoch src_blocks [] (Router.cached_prefix_tokens d)
    (fp_namespace fp) (fp_kv_compatibility_id fp) (fp_request_context_digest fp)
    (fp_token_ids fp) sampling (load_mode d).

(** From a prepared target on: the copy, the commit, the source pin. *)
Definition finish_load (a : handle) (op : string) (d : Router.CachedPrefixDecision)
    (plan : CachedPrefixPlan) (defer_source_release : bool) : method CWorld CachedPrefixPlan :=
  _ ← (if bool_decide (load_mode d = "remote_transfer")
       then _ ← ctx_do a (set_stage TRANSFERRING);
            transfer ← (transfer_cached_prefix rpc plan : method CWorld _);
            ensure (bool_decide (transfer = MT_COMPLETED)) PrefixLoadError
       else mret tt);
  _ ← ctx_do a (set_stage COMMITTING);
  _ ← (commit_cached_prefix rpc (Router.decode_instance d) op plan : method CWorld unit);
  _ ← ctx_do a (λ c, set_target_pending false (set_stage COMMITTED c));
  _ ← (if bool_decide (load_mode d = "local_reuse") then ctx_do a (set_source_pinned false)
       else if defer_source_release then mret tt
       else _ ← (unpin_prefix rpc (Router.source_instance d) op : method CWorld unit);
            ctx_do a (set_source_pinned false));
  mret plan.

Definition load_cached_prefix (a : handle) (rid op : string) (fp : PromptFingerprint)
    (sampling : handle) (d : Router.CachedPrefixDecision) (target_epoch : string)
    (defer_source_release : bool) : method CWorld CachedPrefixPlan :=
  let block_count := Router.cached_prefix_blocks d in
  match expected_blocks fp block_count with
  | None => raise IndexError
  | Some expected =>
      _ ← ctx_do a (set_stage RESOLVING);
      resolved ← (resolve_prefix rpc (Router.source_instance d) (Router.source_epoch d) op
                    expected (fp_namespace fp) (fp_kv_compatibility_id fp)
                    (fp_request_context_digest fp) : method CWorld _);
      match resolved with
      | None => raise PrefixLoadError
      | Some res =>
          _ ← ensure (bool_decide (length (rp_src_block_ids res) = block_count)) PrefixLoadError;
          _ ← ctx_do a (λ c, set_stage RESOLVED (set_source_pinned true c));
          let plan := resolved_plan rid op fp sampling d target_epoch (rp_src_block_ids res) in
          _ ← ctx_do a (λ c, set_target_pending true (set_stage PREPARING (set_plan (Some plan) c)));
          prepared ← (prepare_prefix rpc (Router.decode_instance d) target_epoch op rid
                        (load_mode d) block_count (fp_token_ids fp) sampling : method CWorld _);
          match prepared with
          | None => raise PrefixLoadError
          | Some prep =>
              let plan := set_dst_block_ids (pp_dst_block_ids prep) plan in
              _ ← ctx_do a (λ c, set_stage PREPARED (set_plan (Some plan) c));
              finish_load a op d plan defer_source_release
          end
      end
  end.

(** ** Compensation *)

Definition release_reserved_or_quarantined (op : string) : method CWorld unit :=
  W ← read;
  _ ← (match decode_slot_lease op (cw_sched W) with
       | Some lease =>
           if decide (lease_state lease = QUARANTINED)
           then on_sched (release_quarantined_decode_slot op None None)
           else on_sched (release_decode_slot op)
       | None => on_sched (release_decode_slot op)
       end);
  mret tt.

Definition unpin (source op : string) : method CWorld unit := unpin_prefix rpc source op.

(** The three ends of a cleanup. *)
Definition end_committed (source op : string) : method CWorld CleanupOutcome :=
  _ ← on_sched (commit_decode_slot op);
  _ ← unpin source op;
  mret (mkCleanupOutcome CA_COMMITTED OP_COMMITTED).
Definition end_quarantined (op : string) : method CWorld CleanupOutcome :=
  _ ← on_sched (quarantine_decode_slot op);
  mret (mkCleanupOutcome CA_QUARANTINED OP_UNKNOWN).
Definition end_aborted (source op : string) : method CWorld CleanupOutcome :=
  _ ← unpin source op;
  _ ← release_reserved_or_quarantined op;
  mret (mkCleanupOutcome CA_ABORTED OP_ABORTED).

Definition cleanup_mapped_operation (plan : CachedPrefixPlan) : method CWorld CleanupOutcome :=
  let op := pl_operation_id plan in
  let query := (get_prefix_operation rpc (pl_target_instance plan) op : method CWorld _) in
  let abort_target := (abort_cached_prefix rpc (pl_target_instance plan) op : method CWorld unit) in
  if bool_decide (pl_mode plan = "local_reuse") then
    target ← query;
    match target with
    | OP_COMMITTED => end_committed (pl_source_instance plan) op
    | OP_PREPARED => _ ← abort_target; end_aborted (pl_source_instance plan) op
    | OP_UNKNOWN => end_quarantined op
    | OP_ABORTED => end_aborted (pl_source_instance plan) op
    end
  else
    transfer ← (abort_mapped_prefix rpc (pl_source_instance plan) (pl_target_instance plan) op
                  : method CWorld _);
    if bool_decide (transfer = MT_UNKNOWN) then end_quarantined op
    else
      target ← query;
      match target with
      | OP_COMMITTED => end_committed (pl_source_instance plan) op
      | OP_UNKNOWN => end_quarantined op
      | OP_PREPARED =>
          if bool_decide (transfer ∉ [MT_FENCED; MT_COMPLETED]) then end_quarantined op
          else _ ← abort_target; end_aborted (pl_source_instance plan) op
      | OP_ABORTED => end_aborted (pl_source_instance plan) op
      end.

(** The PREPARING and PREPARED stages of [cleanup_load_context]. *)
Definition cleanup_prepared (a : handle) (c : PrefixLoadContext) : method CWorld CleanupOutcome :=
  let op := cx_operation_id c in
  target ← (get_prefix_operation rpc (cx_target_instance c) op : method CWorld _);
  match target with
  | OP_COMMITTED =>
      outcome ← end_committed (cx_source_instance c) op;
      _ ← ctx_do a (λ c, set_target_pending false (set_source_pinned false c));
      mret outcome
  | OP_UNKNOWN => end_quarantined op
  | _ =>
      _ ← (if bool_decide (target = OP_PREPARED)
           then (abort_cached_prefix rpc (cx_target_instance c) op : method CWorld unit)
           else mret tt);
      _ ← ctx_do a (set_target_pending false);
      _ ← unpin (cx_source_instance c) op;
      _ ← ctx_do a (set_source_pinned false);
      _ ← release_reserved_or_quarantined op;
      mret (mkCleanupOutcome CA_ABORTED OP_ABORTED)
  end.

Definition cleanup_load_context (a : handle) : method CWorld CleanupOutcome :=
  c ← the_context a;
  match cx_stage c with
  | STARTED | RESOLVING | RESOLVED => end_aborted (cx_source_instance c) (cx_operation_id c)
  | stage =>
      match cx_plan c with
      | None => raise AssertionError
      | Some plan =>
          if bool_decide (stage ∈ [PREPARING; PREPARED]) then cleanup_prepared a c
          else
            outcome ← cleanup_mapped_operation plan;
            _ ← (if bool_decide (oc_action outcome = CA_QUARANTINED) then mret tt
                 else ctx_do a (λ c, set_target_pending false (set_source_pinned false c)));
            mret outcome
      end
  end.
End loader.

(** ** What a context tells about its load *)

(** The stage is behind the plan: from PREPARING on there is a plan, and it is
    the plan of this operation. *)
Definition ctx_ok (c : PrefixLoadContext) : Prop :=
  cx_stage c ∈ [STARTED; RESOLVING; RESOLVED] ∨
  ∃ plan, cx_plan c = Some plan
    ∧ pl_operation_id plan = cx_operation_id c
    ∧ pl_source_instance plan = cx_source_instance c
    ∧ pl_target_instance plan = cx_target_instance c
    ∧ (pl_mode plan = "local_reuse" ↔ cx_source_instance c = cx_target_instance c).

(** Awaits that leave the context at [a] alone. *)
Definition quiet {A} (a : handle) (f : await A) : Prop :=
  ∀ W, cw_heap (f W).2 !! a = cw_heap W !! a.

Record quiet_rpc (a : handle) (rpc : PrefixCacheRPC) : Prop := {
  q_resolve s e op ex n k d : quiet a (resolve_prefix rpc s e op ex n k d);
  q_prepare t e op rid mode n tk sp : quiet a (prepare_prefix rpc t e op rid mode n tk sp);
  q_transfer p : quiet a (transfer_cached_prefix rpc p);
  q_commit t op p : quiet a (commit_cached_prefix rpc t op p);
  q_unpin s op : quiet a (unpin_prefix rpc s op) }.

Lemma load_mode_cases d :
  (load_mode d = "local_reuse" ∧ Router.source_instance d = Router.decode_instance d)
  ∨ (load_mode d = "remote_transfer" ∧ Router.source_instance d ≠ Router.decode_instance d).
Proof. unfold load_mode. case_bool_decide; auto. Qed.

Lemma load_mode_local d :
  load_mode d = "local_reuse" ↔ Router.source_instance d = Router.decode_instance d.
Proof. destruct (load_mode_cases d) as [[-> ?]|[-> ?]]; naive_solver. Qed.

(** Symbolic execution: the state is a variable, the context is known. *)
Lemma wp_ctx a f c (Q : result exn unit → CWorld → Prop) W :
  cw_heap W !! a = Some c → (∀ W', cw_heap W' !! a = Some (f c) → Q (Ok tt) W') →
  wp (ctx_do a f) Q W.
Proof. intros Hc HQ. apply HQ. simpl. by rewrite lookup_alter_eq, Hc. Qed.

Lemma wp_await {A} a (f : await A) c (Q : result exn A → CWorld → Prop) W :
  quiet a f → cw_heap W !! a = Some c →
  (∀ x W', cw_heap W' !! a = Some c → f W = (x, W') → Q x W') →
  wp (f : method CWorld A) Q W.
Proof.
  intros Hq Hc HQ. specialize (Hq W). unfold wp. destruct (f W) as [x W'] eqn:Hf.
  apply HQ; [|done]. simpl in *. by rewrite Hq.
Qed.

(** What the load leaves in its context, by how it ended. *)
Definition load_end (op rid : string) (d : Router.CachedPrefixDecision)
    (defer : bool) (x : result exn CachedPrefixPlan) (c : PrefixLoadContext) : Prop :=
  cx_operation_id c = op ∧ cx_source_instance c = Router.source_instance d
  ∧ cx_target_instance c = Router.decode_instance d ∧ ctx_ok c
  ∧ match x with
    | Ok plan => cx_stage c = COMMITTED ∧ cx_plan c = Some plan ∧ cx_target_pending c = false
        ∧ pl_req_id plan = rid ∧ length (pl_src_block_ids plan) = Router.cached_prefix_blocks d
        ∧ cx_source_pinned c = (defer && bool_decide
            (Router.source_instance d ≠ Router.decode_instance d))
    | Raise _ =>
        (cx_stage c = COMMITTED → defer = false ∧ cx_source_pinned c = true)
        ∧ (cx_target_pending c = true ↔
             cx_stage c ∈ [PREPARING; PREPARED; TRANSFERRING; COMMITTING])
    end.

Section load.
Context (rpc : PrefixCacheRPC) (a : handle) (Hrpc : quiet_rpc a rpc).

Abbreviation ends op rid d defer :=
  (λ x W', ∃ c, cw_heap W' !! a = Some c ∧ load_end op rid d defer x c).

Lemma finish_load_end op rid d plan defer W c :
  cw_heap W !! a = Some c → cx_stage c = PREPARED → cx_plan c = Some plan →
  cx_target_pending c = true → cx_source_pinned c = true →
  cx_operation_id c = op → cx_source_instance c = Router.source_instance d →
  cx_target_instance c = Router.decode_instance d → ctx_ok c →
  pl_req_id plan = rid → length (pl_src_block_ids plan) = Router.cached_prefix_blocks d →
  wp (finish_load rpc a op d plan defer) (ends op rid d defer) W.
Proof.
  intros Hc Hst Hp Htp Hsp Hop Hsrc Htgt Hok Hrid Hlen.
  assert (∀ c', cx_plan c' = cx_plan c → cx_operation_id c' = cx_operation_id c →
    cx_source_instance c' = cx_source_instance c → cx_target_instance c' = cx_target_instance c →
    ctx_ok c') as Hkeep.
  { intros c' H1 H2 H3 H4. right. rewrite H1, H2, H3, H4.
    destruct Hok as [Hst'|Hok]; [|exact Hok]. rewrite Hst in Hst'.
    by apply (bool_decide_eq_true_2 (PREPARED ∈ _)) in Hst'. }
  unfold finish_load. apply wp_bind.
  apply (wp_mono _ (λ x W', ∃ c', cw_heap W' !! a = Some c' ∧
    c' = set_stage (cx_stage c') c ∧ cx_stage c' ∈ [PREPARED; TRANSFERRING])).
  { destruct (load_mode_cases d) as [[-> _]|[-> _]].
    - apply wp_ret. exists c. split_and!; [done| |rewrite Hst; set_solver]. by destruct c.
    - apply wp_bind. eapply wp_ctx; [done|]. intros W1 H1. apply wp_bind.
      eapply wp_await; [apply Hrpc|done|]. intros x W2 H2 _.
      assert (∃ c', cw_heap W2 !! a = Some c' ∧ c' = set_stage (cx_stage c') c
        ∧ cx_stage c' ∈ [PREPARED; TRANSFERRING]) by (eexists; split_and!; [exact H2|done|set_solver]).
      destruct x; [|done]. by apply wp_ensure. }
  intros x W1 (c1 & H1 & Hc1 & Hs1). destruct x as [[]|e]; cycle 1.
  { exists c1. split; [done|]. rewrite Hc1. unfold load_end. simpl. split_and!; try done.
    - by apply Hkeep.
    - intros Hx. rewrite Hx in Hs1. set_solver.
    - rewrite Htp. set_solver. }
  apply wp_bind. eapply wp_ctx; [done|]. intros W2 H2. apply wp_bind.
  eapply wp_await; [apply Hrpc|done|]. intros x W3 H3 _. rewrite Hc1 in H3. simpl in H3.
  destruct x as [[]|e]; cycle 1.
  { eexists. split; [exact H3|]. unfold load_end. simpl. split_and!; try done; [by apply Hkeep|].
    rewrite Htp. set_solver. }
  apply wp_bind. eapply wp_ctx; [done|]. intros W4 H4. apply wp_bind. simpl in H4.
  destruct (load_mode_cases d) as [[-> Hloc]|[-> Hrem]].
  - rewrite (bool_decide_eq_true_2 ("local_reuse" = _)) by done.
    eapply wp_ctx; [done|]. intros W5 H5. apply wp_ret. eexists. split; [exact H5|].
    unfold load_end. simpl. rewrite (bool_decide_eq_false_2 (_ ≠ _)) by naive_solver.
    split_and!; try done; [by apply Hkeep|by destruct defer].
  - rewrite (bool_decide_eq_false_2 ("remote_transfer" = _)) by done. destruct defer.
    + apply wp_ret, wp_ret. eexists. split; [exact H4|]. unfold load_end. simpl.
      rewrite (bool_decide_eq_true_2 (_ ≠ _)) by done. split_and!; try done. by apply Hkeep.
    + apply wp_bind. eapply wp_await; [apply Hrpc|done|]. intros x W5 H5 _.
      destruct x as [[]|e].
      * eapply wp_ctx; [done|]. intros W6 H6. apply wp_ret. eexists. split; [exact H6|].
        unfold load_end. simpl. split_and!; try done. by apply Hkeep.
      * eexists. split; [exact H5|]. unfold load_end. simpl. split_and!; try done;
          [by apply Hkeep|set_solver].
Qed.

Lemma load_cached_prefix_end rid op fp sampling d target_epoch defer W :
  cw_heap W !! a = Some (new_PrefixLoadContext op rid (Router.source_instance d)
                           (Router.decode_instance d)) →
  wp (load_cached_prefix rpc a rid op fp sampling d target_epoch defer) (ends op rid d defer) W.
Proof.
  intros Hc. unfold load_cached_prefix.
  assert (∀ st p W' e, cw_heap W' !! a = Some (set_source_pinned p (set_stage st
      (new_PrefixLoadContext op rid (Router.source_instance d) (Router.decode_instance d)))) →
    st ∈ [STARTED; RESOLVING; RESOLVED] → ends op rid d defer (Raise e) W') as Hearly.
  { intros st p W' e Hc' Hst. eexists. split; [exact Hc'|]. unfold load_end. simpl.
    split_and!; try done; [by left| |]; set_solver. }
  destruct (expected_blocks fp _) as [expected|].
  2: { apply wp_raise, (Hearly STARTED false); [done|set_solver]. }
  apply wp_bind. eapply wp_ctx; [done|]. intros W1 H1. apply wp_bind.
  eapply wp_await; [apply Hrpc|done|]. intros x W2 H2 _.
  destruct x as [[res|]|e]; cycle 1.
  { apply wp_raise, (Hearly RESOLVING false); [done|set_solver]. }
  { apply (Hearly RESOLVING false); [done|set_solver]. }
  apply wp_bind, wp_ensure; intros Hlen; cycle 1.
  { apply (Hearly RESOLVING false); [done|set_solver]. }
  apply bool_decide_eq_true in Hlen.
  apply wp_bind. eapply wp_ctx; [done|]. intros W3 H3.
  apply wp_bind. eapply wp_ctx; [done|]. intros W4 H4. apply wp_bind.
  eapply wp_await; [apply Hrpc|done|]. intros x W5 H5 _. simpl in H5.
  assert (∀ e, ends op rid d defer (Raise e) W5) as Hprep.
  { intros e. eexists. split; [exact H5|]. unfold load_end. simpl. split_and!; try done; [|set_solver].
    right. eexists. split_and!; try done. apply load_mode_local. }
  destruct x as [[prep|]|e]; [|by apply wp_raise|done].
  apply wp_bind. eapply wp_ctx; [done|]. intros W6 H6. simpl in H6.
  eapply finish_load_end; [exact H6|done..| |done|done].
  right. eexists. split_and!; try done. apply load_mode_local.
Qed.
End load.

(** ** The stage is up to date at every RPC *)

(** The RPC as a worker would see it that refused any call the context's
    stage does not announce. *)
Definition at_stage {A} (a : handle) (st : Stage) (f : await A) : await A := λ W,
  match cw_heap W !! a with
  | Some c => if decide (cx_stage c = st) then f W else (Raise AssertionError, W)
  | None => (Raise AssertionError, W)
  end.

Definition staged (a : handle) (rpc : PrefixCacheRPC) : PrefixCacheRPC := mkPrefixCacheRPC
  (λ s e op ex n k g, at_stage a RESOLVING (resolve_prefix rpc s e op ex n k g))
  (λ t e op rid m n tk sp, at_stage a PREPARING (prepare_prefix rpc t e op rid m n tk sp))
  (λ p, at_stage a TRANSFERRING (transfer_cached_prefix rpc p))
  (λ t op p, at_stage a COMMITTING (commit_cached_prefix rpc t op p))
  (abort_mapped_prefix rpc) (get_prefix_operation rpc) (abort_cached_prefix rpc)
  (λ s op, at_stage a COMMITTED (unpin_prefix rpc s op))
  (abort_suffix_prefill rpc).

(** Two methods agree from a state whose context has a given stage, and leave
    that context's stage as [f] says. *)
Lemma bind_ctx_eq {B} a f c (k k' : method CWorld B) W :
  cw_heap W !! a = Some c →
  (∀ W', cw_heap W' !! a = Some (f c) → k W' = k' W') →
  (_ ← ctx_do a f; k) W = (_ ← ctx_do a f; k') W.
Proof. intros Hc Hk. apply Hk. simpl. by rewrite lookup_alter_eq, Hc. Qed.

Lemma bind_staged_eq {A B} a st (f : await A) c (k k' : A → method CWorld B) W :
  cw_heap W !! a = Some c → cx_stage c = st → quiet a f →
  (∀ v W', cw_heap W' !! a = Some c → k v W' = k' v W') →
  ((at_stage a st f : method CWorld A) ≫= k) W = ((f : method CWorld A) ≫= k') W.
Proof.
  intros Hc Hst Hq Hk. specialize (Hq W). unfold mbind, method_mbind, method_bind, at_stage.
  rewrite Hc, decide_True by done. destruct (f W) as [[v|e] W'] eqn:Hf; [|done].
  apply Hk. simpl in Hq. congruence.
Qed.

Lemma bind_eq {A B} (m m' : method CWorld A) (k k' : A → method CWorld B) W :
  m W = m' W → (∀ v W', m' W = (Ok v, W') → k v W' = k' v W') → (m ≫= k) W = (m' ≫= k') W.
Proof.
  intros Hm Hk. unfold mbind, method_mbind, method_bind. rewrite Hm.
  destruct (m' W) as [[v|] W'] eqn:Hf; [by apply Hk|done].
Qed.

Section staged_load.
Context (rpc : PrefixCacheRPC) (a : handle) (Hrpc : quiet_rpc a rpc).

Lemma finish_load_staged op d plan defer W c :
  cw_heap W !! a = Some c →
  finish_load (staged a rpc) a op d plan defer W = finish_load rpc a op d plan defer W.
Proof.
  intros Hc. unfold finish_load.
  set (copy := λ r : PrefixCacheRPC, if bool_decide (load_mode d = "remote_transfer")
       then _ ← ctx_do a (set_stage TRANSFERRING);
            transfer ← (transfer_cached_prefix r plan : method CWorld _);
            ensure (bool_decide (transfer = MT_COMPLETED)) PrefixLoadError
       else mret tt).
  assert (wp (copy rpc) (λ x W', is_Some (cw_heap W' !! a)) W) as Hafter.
  { unfold copy. case_bool_decide; [|by apply wp_ret].
    apply wp_bind. eapply wp_ctx; [done|]. intros W1 H1. apply wp_bind.
    eapply wp_await; [apply Hrpc|done|]. intros x W2 H2 _. destruct x; [|done].
    by apply wp_ensure. }
  apply (bind_eq (copy (staged a rpc)) (copy rpc)).
  { unfold copy. case_bool_decide; [|done]. apply (bind_ctx_eq a (set_stage TRANSFERRING) c); [done|].
    intros W1 H1. simpl. eapply bind_staged_eq; [done|done|apply Hrpc|done]. }
  intros [] W1 H1. destruct (wp_run _ _ _ _ _ Hafter H1) as [c1 Hc1].
  apply (bind_ctx_eq a (set_stage COMMITTING) c1); [done|]. intros W2 H2. simpl.
  eapply bind_staged_eq; [done|done|apply Hrpc|]. intros [] W3 H3.
  eapply bind_ctx_eq; [done|]. intros W4 H4. simpl in H4. apply bind_eq; [|done].
  case_bool_decide; [done|]. destruct defer; [done|].
  eapply bind_staged_eq; [done|done|apply Hrpc|done].
Qed.
End staged_load.

(** ** Compensation follows the evidence *)

(** The RPC was answered, in some state. *)
Definition replied {A} (f : await A) (v : A) : Prop := ∃ W W', f W = (Ok v, W').

Definition lease_is (st : LeaseState) (op : string) (W : CWorld) : Prop :=
  ∃ l, decode_slot_lease op (cw_sched W) = Some l ∧ lease_state l = st.

(** No live lease is left under the operation. *)
Definition lease_gone (op : string) (W : CWorld) : Prop :=
  ∀ l, decode_slot_lease op (cw_sched W) = Some l → lease_state l = RELEASED.

Lemma release_slot_gone op W :
  wp (release_reserved_or_quarantined op) (λ x W', is_ok x = true → lease_gone op W') W.
Proof.
  unfold release_reserved_or_quarantined. apply wp_bind, wp_read, wp_bind.
  assert (∀ l st c, lease_gone op (set_world (set_sched
    (return_slot (lease_instance_id l) (put_lease op
      (set_release_cleanup_id c (set_lease_state RELEASED l)) st)).2 (cw_world W)) W)) as Hret.
  { intros l st c l'. unfold decode_slot_lease, cw_sched. simpl. unfold return_slot.
    repeat case_match; simpl; rewrite dget_dset_eq; by intros [= <-]. }
  unfold decode_slot_lease. destruct (dget op (slot_leases (cw_sched W))) as [l|] eqn:Hl.
  - case_decide as Hq.
    + unfold wp, on_sched, in_world, sched_try, release_quarantined_decode_slot.
      fold (cw_sched W). rewrite Hl, Hq. unfold mbind, method_mbind, method_bind.
      specialize (Hret l (cw_sched W) None).
      destruct (return_slot _ _) as [[]?]; [|done]. by intros _.
    + unfold wp, on_sched, in_world, sched_try, release_decode_slot.
      fold (cw_sched W). rewrite Hl. destruct (lease_state l) eqn:Hs; try done; simpl.
      * unfold mbind, method_mbind, method_bind. specialize (Hret l (cw_sched W) (lease_release_cleanup_id l)).
        assert (set_release_cleanup_id (lease_release_cleanup_id l) (set_lease_state RELEASED l)
                = set_lease_state RELEASED l) as Heq by by destruct l.
        rewrite Heq in Hret. destruct (return_slot _ _) as [[]?]; [|done]. by intros _.
      * intros _ l' Hl'. unfold decode_slot_lease, cw_sched in Hl'. simpl in Hl'.
        fold (cw_sched W) in Hl'. congruence.
  - unfold wp, on_sched, in_world, sched_try, release_decode_slot.
    fold (cw_sched W). rewrite Hl. simpl. intros _ l'. unfold decode_slot_lease, cw_sched. simpl.
    fold (cw_sched W). congruence.
Qed.

Lemma wp_reply {A} (f : await A) (Q : result exn A → CWorld → Prop) W :
  (∀ v W', replied f v → Q (Ok v) W') → (∀ e W', Q (Raise e) W') → wp (f : method CWorld A) Q W.
Proof.
  intros H1 H2. unfold wp. destruct (f W) as [[v|e] W'] eqn:Hf; [|apply H2].
  apply H1. by exists W, W'.
Qed.

Section cleanup.
Context (rpc : PrefixCacheRPC).

(** What a finished cleanup of the operation has established. *)
Definition cleanup_shown (stage : Stage) (local : bool) (source target op : string)
    (o : CleanupOutcome) (W' : CWorld) : Prop :=
  match oc_action o with
  | CA_ABORTED =>
      lease_gone op W' ∧ replied (unpin_prefix rpc source op) tt
      ∧ (stage ∈ [STARTED; RESOLVING; RESOLVED]
         ∨ replied (get_prefix_operation rpc target op) OP_ABORTED
         ∨ (replied (get_prefix_operation rpc target op) OP_PREPARED
            ∧ replied (abort_cached_prefix rpc target op) tt
            ∧ (stage ∈ [PREPARING; PREPARED] ∨ local = true
               ∨ replied (abort_mapped_prefix rpc source target op) MT_FENCED
               ∨ replied (abort_mapped_prefix rpc source target op) MT_COMPLETED)))
  | CA_COMMITTED =>
      replied (get_prefix_operation rpc target op) OP_COMMITTED
      ∧ replied (unpin_prefix rpc source op) tt
  | CA_QUARANTINED =>
      lease_is QUARANTINED op W'
      ∧ (replied (get_prefix_operation rpc target op) OP_UNKNOWN
         ∨ ∃ t, replied (abort_mapped_prefix rpc source target op) t
             ∧ t ∉ [MT_FENCED; MT_COMPLETED])
  end.

Abbreviation shown stage local source target op :=
  (λ x W', ∀ o, x = Ok o → cleanup_shown stage local source target op o W').

Lemma end_aborted_shown stage local source target op W :
  (stage ∈ [STARTED; RESOLVING; RESOLVED]
   ∨ replied (get_prefix_operation rpc target op) OP_ABORTED
   ∨ (replied (get_prefix_operation rpc target op) OP_PREPARED
      ∧ replied (abort_cached_prefix rpc target op) tt
      ∧ (stage ∈ [PREPARING; PREPARED] ∨ local = true
         ∨ replied (abort_mapped_prefix rpc source target op) MT_FENCED
         ∨ replied (abort_mapped_prefix rpc source target op) MT_COMPLETED))) →
  wp (end_aborted rpc source op) (shown stage local source target op) W.
Proof.
  intros Hev. apply wp_bind, wp_reply; [|done]. intros [] W1 Hun.
  apply wp_bind. eapply wp_mono; [apply release_slot_gone|]. intros [[]|] W2 Hgone; [|done].
  apply wp_ret. intros o [= <-]. unfold cleanup_shown. simpl. auto.
Qed.

Lemma end_committed_shown stage local source target op W :
  replied (get_prefix_operation rpc target op) OP_COMMITTED →
  wp (end_committed rpc source op) (shown stage local source target op) W.
Proof.
  intros Hev. apply wp_bind. unfold wp at 1.
  destruct (on_sched (commit_decode_slot op) W) as [[[]|] W1]; [|done]. simpl.
  apply wp_bind, wp_reply; [|done]. intros [] W2 Hun. apply wp_ret. intros o [= <-].
  by unfold cleanup_shown.
Qed.

Lemma end_quarantined_shown stage local source target op W :
  (replied (get_prefix_operation rpc target op) OP_UNKNOWN
   ∨ ∃ t, replied (abort_mapped_prefix rpc source target op) t ∧ t ∉ [MT_FENCED; MT_COMPLETED]) →
  wp (end_quarantined op) (shown stage local source target op) W.
Proof.
  intros Hev. apply wp_bind. unfold wp at 1, on_sched, in_world, sched_try, quarantine_decode_slot.
  destruct (dget op _) as [l|] eqn:Hl; [|done]. case_decide; [done|]. simpl.
  apply wp_ret. intros o [= <-]. unfold cleanup_shown. simpl. split; [|done].
  eexists. unfold decode_slot_lease, cw_sched. simpl. by rewrite dget_dset_eq.
Qed.

Lemma cleanup_mapped_shown stage plan W :
  wp (cleanup_mapped_operation rpc plan)
     (shown stage (bool_decide (pl_mode plan = "local_reuse")) (pl_source_instance plan)
        (pl_target_instance plan) (pl_operation_id plan)) W.
Proof.
  unfold cleanup_mapped_operation. case_bool_decide as Hm.
  - apply wp_bind, wp_reply; [|done]. intros target W1 Ht. destruct target.
    + apply wp_bind, wp_reply; [|done]. intros [] W2 Hab. apply end_aborted_shown. eauto 8.
    + by apply end_committed_shown.
    + apply end_aborted_shown. auto.
    + apply end_quarantined_shown. auto.
  - apply wp_bind, wp_reply; [|done]. intros tr W1 Htr. case_bool_decide as Hu.
    { apply end_quarantined_shown. right. exists tr. subst tr. split; [done|]. set_solver. }
    apply wp_bind, wp_reply; [|done]. intros target W2 Ht. destruct target.
    + case_bool_decide as Hf; [apply end_quarantined_shown; eauto|].
      apply wp_bind, wp_reply; [|done]. intros [] W3 Hab. apply end_aborted_shown.
      do 2 right. split_and!; [done|done|]. right. right.
      apply elem_of_cons in Hf as [-> | Hf]; [auto|]. apply list_elem_of_singleton in Hf as ->. auto.
    + by apply end_committed_shown.
    + apply end_aborted_shown. auto.
    + apply end_quarantined_shown. auto.
Qed.

Lemma cleanup_prepared_shown a c W :
  cx_stage c ∈ [PREPARING; PREPARED] → ∀ local,
  wp (cleanup_prepared rpc a c)
     (shown (cx_stage c) local (cx_source_instance c) (cx_target_instance c)
        (cx_operation_id c)) W.
Proof.
  intros Hst local. apply wp_bind, wp_reply; [|done]. intros target W1 Ht.
  assert (∀ W0, (target = OP_PREPARED → replied (abort_cached_prefix rpc (cx_target_instance c)
      (cx_operation_id c)) tt) → target = OP_PREPARED ∨ target = OP_ABORTED →
    wp (_ ← ctx_do a (set_target_pending false);
        _ ← unpin rpc (cx_source_instance c) (cx_operation_id c);
        _ ← ctx_do a (set_source_pinned false);
        _ ← release_reserved_or_quarantined (cx_operation_id c);
        mret (mkCleanupOutcome CA_ABORTED OP_ABORTED))
      (shown (cx_stage c) local (cx_source_instance c) (cx_target_instance c)
        (cx_operation_id c)) W0) as Htail.
  { intros W0 Hab Hcase. apply wp_bind, wp_modify, wp_bind, wp_reply; [|done].
    intros [] W2 Hun. apply wp_bind, wp_modify, wp_bind.
    eapply wp_mono; [apply release_slot_gone|]. intros [[]|] W3 Hgone; [|done].
    apply wp_ret. intros o [= <-]. unfold cleanup_shown. simpl.
    split_and!; [by apply Hgone|done|]. destruct Hcase as [->| ->]; auto 8. }
  destruct target.
  - apply wp_bind, wp_reply; [|done]. intros [] W2 Hab. apply Htail; auto.
  - apply wp_bind. eapply wp_mono; [by apply end_committed_shown|].
    intros [o|] W2 Hsh; [|done]. apply wp_bind, wp_modify, wp_ret. intros o' [= <-].
    specialize (Hsh o eq_refl). unfold cleanup_shown in *. destruct (oc_action o); naive_solver.
  - apply wp_bind, wp_ret. apply Htail; auto. done.
  - apply end_quarantined_shown. auto.
Qed.
End cleanup.

(** ** Properties *)

(** A load keeps its context exact.  Started on the fresh context the
    coordinator made for it, and whatever its RPCs answer or raise, the load
    leaves a context whose stage and plan belong together ([ctx_ok], which is
    what [cleanup_load_context] asserts): on success the stage is COMMITTED,
    the plan is the one returned, with as many source blocks as the decision
    promised, no target blocks are pending and the source pin is recorded
    exactly when a remote release was deferred; on failure target blocks are
    recorded as pending exactly in the stages in which the target may hold
    them. *)
Theorem load_leaves_exact_context rpc a rid op fp sampling d target_epoch defer W x W' :
  quiet_rpc a rpc →
  cw_heap W !! a = Some (new_PrefixLoadContext op rid (Router.source_instance d)
                           (Router.decode_instance d)) →
  load_cached_prefix rpc a rid op fp sampling d target_epoch defer W = (x, W') →
  ∃ c, cw_heap W' !! a = Some c ∧ load_end op rid d defer x c.
Proof.
  intros Hq Hc Hrun.
  exact (wp_run _ _ _ _ _ (load_cached_prefix_end rpc a Hq _ _ _ _ _ _ _ _ Hc) Hrun).
Qed.

(** The stage recorded in the context is the one whose RPC is under way,
    at every RPC of a load: a load through workers that refuse any call the
    stage does not announce is the same load. *)
Theorem load_calls_at_stage rpc a rid op fp sampling d target_epoch defer W c :
  quiet_rpc a rpc → cw_heap W !! a = Some c →
  load_cached_prefix (staged a rpc) a rid op fp sampling d target_epoch defer W
  = load_cached_prefix rpc a rid op fp sampling d target_epoch defer W.
Proof.
  intros Hrpc Hc. unfold load_cached_prefix. destruct (expected_blocks fp _) as [ex|]; [|done].
  eapply bind_ctx_eq; [done|]. intros W1 H1.
  eapply bind_staged_eq; [done|done|apply Hrpc|]. intros [res|] W2 H2; [|done].
  apply bind_eq; [done|]. intros [] W3 H3. unfold ensure in H3. case_bool_decide; [|done].
  injection H3 as <-. eapply bind_ctx_eq; [done|]. intros W3 H3.
  eapply bind_ctx_eq; [done|]. intros W4 H4.
  eapply bind_staged_eq; [done|done|apply Hrpc|]. intros [prep|] W5 H5; [|done].
  eapply bind_ctx_eq; [done|]. intros W6 H6. by eapply finish_load_staged.
Qed.


(** ** A concrete load *)

Definition demo_fp : PromptFingerprint :=
  mkPromptFingerprint "ns" "kv" "ctx" [1; 2; 3; 4; 5; 6; 7; 8; 9] [100; 101] 4.
Definition demo_decision : Router.CachedPrefixDecision :=
  Router.mkCachedPrefixDecision "d0" "e0" "d1" 1 4 4096 None.

(** Workers that answer everything; the target still holds the prepared
    operation when it is asked. *)
Definition demo_prefix_rpc (copied : MappedTransferStatus) : PrefixCacheRPC := mkPrefixCacheRPC
  (λ _ e op _ _ _ _ W, (Ok (Some (mkResolvedPrefix op e [7])), W))
  (λ _ _ op _ mode _ _ _ W, (Ok (Some (mkPreparedPrefix op mode [3])), W))
  (λ _ W, (Ok copied, W)) (λ _ _ _ W, (Ok tt, W)) (λ _ _ _ W, (Ok MT_FENCED, W))
  (λ _ _ W, (Ok OP_PREPARED, W)) (λ _ _ W, (Ok tt, W)) (λ _ _ W, (Ok tt, W))
  (λ _ _ W, (Ok true, W)).

Definition demo_cworld : CWorld :=
  let W := demo_world AFFINITY_LOADING in
  mkCWorld (set_sched (put_lease "op1" (mkDecodeSlotLease "tok" "op1" "r0" "d1" RESERVED 0 None)
                         (w_sched W)) W)
    {[0%nat := new_PrefixLoadContext "op1" "r0" "d0" "d1"]} [("op1", 0%nat)] ∅ ∅ ∅.

Definition demo_load (copied : MappedTransferStatus) : method CWorld CachedPrefixPlan :=
  load_cached_prefix (demo_prefix_rpc copied) 0%nat "r0" "op1" demo_fp 0%nat demo_decision "f1" true.

Lemma demo_prefix_rpc_quiet copied a : quiet_rpc a (demo_prefix_rpc copied).
Proof. by split. Qed.

Lemma load_leaves_exact_context_witness :
  ∃ c, cw_heap (demo_load MT_COMPLETED demo_cworld).2 !! 0%nat = Some c
    ∧ cx_stage c = COMMITTED ∧ cx_source_pinned c = true.
Proof.
  destruct (demo_load MT_COMPLETED demo_cworld) as [x W'] eqn:Hrun.
  destruct (load_leaves_exact_context (demo_prefix_rpc MT_COMPLETED) 0%nat "r0" "op1" demo_fp 0%nat
    demo_decision "f1" true demo_cworld x W' (demo_prefix_rpc_quiet _ _) eq_refl Hrun)
    as (c & Hc & _ & _ & _ & _ & Hx).
  assert (is_ok x = true) as Hok.
  { change x with (x, W').1. rewrite <- Hrun. vm_compute. reflexivity. }
  exists c. split; [done|]. destruct x; [|done]. destruct Hx as (Hst & _ & _ & _ & _ & Hpin).
  split; [done|]. rewrite Hpin. reflexivity.
Defined.

Lemma load_calls_at_stage_witness :
  is_ok (load_cached_prefix (staged 0%nat (demo_prefix_rpc MT_COMPLETED)) 0%nat "r0" "op1" demo_fp
           0%nat demo_decision "f1" false demo_cworld).1 = true.
Proof.
  rewrite (load_calls_at_stage (demo_prefix_rpc MT_COMPLETED) 0%nat "r0" "op1" demo_fp 0%nat
    demo_decision "f1" false demo_cworld _ (demo_prefix_rpc_quiet _ _) eq_refl).
  vm_compute. reflexivity.
Defined.

