(* ===== verification/Coordinator.v ===== *)
(** * The affinity coordinator (router/coordinator.py)

    Starts cached-prefix loads without blocking the schedule loop, promotes a
    request whose load committed, and compensates one whose load failed.

    A background task is a method run in one go from the state it was started
    in, except at its awaits, which are functions of the whole state: whatever
    the loop or another task does meanwhile is in them.  The dictionaries of
    running tasks record which operations have one, and their done callbacks
    are operations of their own.  A deadline of [asyncio.wait_for] is an await
    that raises TimeoutError.  Loops bounded by the
    clock ([_cleanup]) or unbounded ([_recover_until_proven] and
    [_release_source_until_proven]) take the number of rounds they get.  The
    calls on the network client that only file references
    ([remember_external_ref], [mark_external_ref_attempted],
    [mark_external_ref_ambiguous]) and its [cleanup_prefix_context] are
    parameters; metrics are left out, and [shutdown] only cancels tasks. *)

From stdpp Require Import prelude gmap strings.
From Stdlib Require Import QArith_base.
From S2P Require Import Router.
From S2P Require Import Prelude PyDict Fingerprint SequenceState Scheduler TransferGovernor.
From S2P Require Import PrefixIndex Output Cleanup MainLoop Loader.

Local Open Scope Z_scope.

Record CoordinatorConfig := mkCoordinatorConfig {
  (** [rpc.week12_network_control is True] *)
  co_network : bool;
  prefill_ms_per_token : Q;
  locality_wait_ms : Z;
  max_affinity_wait_ms : Z }.

(** What the coordinator calls; a synchronous call of another component is a
    method. *)
Record CoordinatorCalls := mkCoordinatorCalls {
  cc_rpc : PrefixCacheRPC;
  cc_cleanup_prefix_context : handle → await CleanupOutcome;
  cc_sleep : await unit;
  cc_publish : string → await unit;
  cc_allocate : option (string → method CWorld handle);
  cc_remember : handle → method CWorld unit;
  cc_mark_attempted : handle → method CWorld unit;
  cc_mark_ambiguous : handle → method CWorld unit }.

Section coordinator.
Context {G : Type} `{RoutingGate G} (reg : World → option G).
Context (op_id lease_tok : CWorld → string) (clock : World → Z).
Context (order : gset CacheLocation → list CacheLocation).
Context (router : CWorld → Router.AffinityRouter) (cfg : CoordinatorConfig).
Context (calls : CoordinatorCalls).

Abbreviation rpc := (cc_rpc calls).
Abbreviation sleep := (cc_sleep calls : method CWorld unit).
Abbreviation transition_to := (λ rid s kw, in_world (transition_to clock rid s kw)).

(** [if c: m] *)
Definition when (c : bool) (m : method CWorld unit) : method CWorld unit :=
  if c then m else mret tt.

(** ** Cleanup with a watchdog *)

(** The lease of a cleanup that raised. *)
Definition quarantine_uncertain (op : string) : method CWorld unit :=
  W ← read;
  match decode_slot_lease op (cw_sched W) with
  | None => mret tt
  | Some lease =>
      when (bool_decide (lease_state lease ∉ [RELEASED; QUARANTINED]))
        (on_sched (quarantine_decode_slot op))
  end.

(** [_cleanup]: [attempts] is how often the body runs before the deadline. *)
Fixpoint cleanup (attempts : nat) (a : handle) : method CWorld (option CleanupOutcome) := λ W,
  match attempts with
  | O => (Ok None, W)
  | S n =>
      match (if co_network cfg then cc_cleanup_prefix_context calls a
             else cleanup_load_context rpc a) W with
      | (Ok outcome, W') => (Ok (Some outcome), W')
      | (Raise CancelledError, W') => (Raise CancelledError, W')
      | (Raise _, W') =>
          (c ← the_context a;
           _ ← quarantine_uncertain (cx_operation_id c);
           _ ← sleep;
           cleanup n a) W'
      end
  end.

(** ** Background tasks *)

(** [_retain_for_recovery]: the task is [recover_until_proven] below. *)
Definition retain_for_recovery (a : handle) : method CWorld unit :=
  c ← the_context a;
  modify (λ W, set_recovery ({[cx_operation_id c]} ∪ cw_recovery W) W).

Definition release_source_in_background (a : handle) : method CWorld unit :=
  c ← the_context a; W ← read;
  when (cx_source_pinned c && bool_decide (cx_operation_id c ∉ cw_releasing W))
    (modify (λ W, set_releasing ({[cx_operation_id c]} ∪ cw_releasing W) W)).

Definition release_source_after_commit (a : handle) : method CWorld unit :=
  if co_network cfg then mret tt else release_source_in_background a.

(** [_release_source_until_proven]: whether the pin is gone after [rounds]. *)
Fixpoint release_source_until_proven (rounds : nat) (a : handle) : method CWorld bool :=
  c ← the_context a;
  if negb (cx_source_pinned c) then mret true
  else match rounds with
  | O => mret false
  | S n =>
      released ← (λ W, match unpin_prefix rpc (cx_source_instance c) (cx_operation_id c) W with
                       | (Ok _, W') => (Ok true, W')
                       | (Raise CancelledError, W') => (Raise CancelledError, W')
                       | (Raise _, W') => (Ok false, W')
                       end) : method CWorld bool;
      if released : bool
      then _ ← ctx_do a (set_source_pinned false); mret true
      else _ ← sleep; release_source_until_proven n a
  end.

Definition pop_context (op : string) : method CWorld unit :=
  modify (λ W, set_contexts (dpop op (cw_contexts W)) W).

(** The done callbacks of the three kinds of tasks. *)
Definition task_done (op : string) : method CWorld unit :=
  modify (λ W, set_tasks (cw_tasks W ∖ {[op]}) W).
Definition recovery_done (op : string) : method CWorld unit :=
  modify (λ W, set_recovery (cw_recovery W ∖ {[op]}) W).
Definition release_done (op : string) : method CWorld unit :=
  modify (λ W, set_releasing (cw_releasing W ∖ {[op]}) W).

(** What a proven cleanup does to the request, if it still owns the load. *)
Definition settle_recovered (rid op : string) (action : CleanupAction) : method CWorld unit :=
  W ← read;
  match lookup_request rid (w_tracker (cw_world W)) with
  | None => mret tt
  | Some (_, r) =>
      when (bool_decide (active_operation_id r = op))
        (match action, state r with
         | CA_ABORTED, AFFINITY_LOADING =>
             transition_to rid WAITING [kw_active_operation_id ""]
         | CA_ABORTED, PREFIX_PREFILLING =>
             _ ← transition_to rid ABORTED [];
             _ ← in_world (tracker_do (remove rid)); mret tt
         | CA_COMMITTED, AFFINITY_LOADING => transition_to rid PREFIX_PREFILLING []
         | _, _ => mret tt
         end)
  end.

(** [_recover_until_proven]: whether it ended within [rounds]. *)
Fixpoint recover_until_proven (rounds attempts : nat) (a : handle) (rid : string) :
    method CWorld bool :=
  match rounds with
  | O => mret false
  | S n =>
      outcome ← cleanup attempts a;
      let again := (_ ← sleep; recover_until_proven n attempts a rid) in
      match outcome with
      | None => again
      | Some o =>
          if bool_decide (oc_action o = CA_QUARANTINED) then again
          else
            c ← the_context a;
            _ ← settle_recovered rid (cx_operation_id c) (oc_action o);
            _ ← pop_context (cx_operation_id c);
            mret true
      end
  end.

(** ** Starting a load *)

(** [{i for i, n in decode_free_slots() if n > 0}], in dictionary order. *)
Definition candidates (s : PDScheduler) : list string :=
  (filter (λ kv : string * Z, 0 < kv.2) (decode_free_slots s)).*1.

Definition should_wait (r : RequestInfo) (W : CWorld) : bool :=
  bool_decide (clock (cw_world W) - arrived_at r
               < Z.min (locality_wait_ms cfg) (max_affinity_wait_ms cfg) * 1000000).

(** [x // block_size if x else None] *)
Definition required_blocks (r : RequestInfo) (fp : PromptFingerprint) : result exn (option nat) :=
  let x := correctness_cached_prefix_tokens r in
  if bool_decide (x = 0) then Ok None
  else if bool_decide (fp_block_size fp = 0%nat) then Raise ZeroDivisionError
  else Ok (Some (Z.to_nat (x `div` Z.of_nat (fp_block_size fp)))).

(** One decision: [true] when its slot was free and the load was started. *)
Definition try_decision (r : RequestInfo) (d : Router.CachedPrefixDecision) : method CWorld bool :=
  W ← read;
  let op := op_id W in
  lease ← on_sched (reserve_decode_slot (reg (cw_world W)) (Router.decode_instance d) (req_id r)
                      op (lease_tok W) (clock (cw_world W)));
  match lease with
  | None => mret false
  | Some l =>
      W ← read;
      _ ← transition_to (req_id r) AFFINITY_LOADING
            [kw_active_operation_id op; kw_decode_slot_lease_id (lease_id l);
             kw_cache_source (Router.source_instance d);
             kw_decode_instance (Router.decode_instance d);
             kw_decode_instance_epoch (instance_epoch (Router.decode_instance d) (cw_sched W));
             kw_cached_prefix_tokens (Router.cached_prefix_tokens d)];
      _ ← modify (λ W, set_tasks ({[op]} ∪ cw_tasks W) W);
      _ ← modify (λ W,
            let a := fresh (dom (cw_heap W)) in
            set_contexts (dset op a (cw_contexts W))
              (set_heap (<[a := new_PrefixLoadContext op (req_id r) (Router.source_instance d)
                                  (Router.decode_instance d)]> (cw_heap W)) W));
      mret true
  end.

Fixpoint try_decisions (r : RequestInfo) (ds : list Router.CachedPrefixDecision) :
    method CWorld bool :=
  match ds with
  | [] => mret false
  | d :: ds' => started ← try_decision r d; if started : bool then mret true else try_decisions r ds'
  end.

Definition try_start (ra : handle) : method CWorld bool :=
  r ← in_world (the_request ra); W ← read;
  if bool_decide (candidates (cw_sched W) = []) then mret false
  else match fingerprint r with
  | None => raise AttributeError
  | Some fp =>
      match required_blocks r fp with
      | Raise e => raise e
      | Ok rb =>
          let per_token := prefill_ms_per_token cfg in
          match Router.iter_decisions order (router W) fp (candidates (cw_sched W))
                  (λ i e, epoch_matches i e (cw_sched W))
                  (inject_Z (Z.of_nat (length (fp_token_ids fp))) * per_token)%Q per_token
                  (or_none (correctness_source_instance r))
                  (or_none (correctness_target_instance r)) rb (clock (cw_world W)) with
          | Raise e => raise e
          | Ok ds =>
              started ← try_decisions r ds;
              if started : bool then mret true
              else if bool_decide (correctness_path r ∈ ["same_instance"; "cross_instance"])
              then mret true
              else W ← read; mret (bool_decide (ds ≠ []) && should_wait r W)
          end
      end
  end.

(** ** One load *)

(** The suffix command: its reference, and the publish. *)
Definition publish_suffix (ra : handle) (d : Router.CachedPrefixDecision) : method CWorld unit :=
  ref ← (match cc_allocate calls with
         | None => mret None
         | Some f =>
             ref ← f (Router.decode_instance d);
             _ ← in_world (update_request ra (set_suffix_operation_ref (Some ref)));
             _ ← when (co_network cfg) (cc_remember calls ref);
             mret (Some ref)
         end);
  _ ← (match ref with
       | Some ref => when (co_network cfg) (cc_mark_attempted calls ref)
       | None => mret tt
       end);
  (λ W, match cc_publish calls (Router.decode_instance d) W with
        | (Ok _, W') => (Ok tt, W')
        | (Raise e, W') =>
            (_ ← (match ref with
                  | Some ref => when (co_network cfg) (cc_mark_ambiguous calls ref)
                  | None => mret tt
                  end); raise e) W'
        end) : method CWorld unit.

(** The request still belongs to the load. *)
Definition still_loading (rid op : string) (W : CWorld) : bool :=
  match lookup_request rid (w_tracker (cw_world W)) with
  | None => false
  | Some (_, r) => bool_decide (state r = AFFINITY_LOADING)
                   && bool_decide (active_operation_id r = op)
  end.

(** The body of the [try] of [_run]. *)
Definition run_body (attempts : nat) (ra a : handle) (rid op : string)
    (d : Router.CachedPrefixDecision) : method CWorld unit :=
  r ← in_world (the_request ra);
  match fingerprint r with
  | None => raise AttributeError
  | Some fp =>
      _ ← load_cached_prefix rpc a rid op fp (sampling_params r) d (decode_instance_epoch r) true;
      W ← read;
      if negb (still_loading rid op W) then _ ← cleanup attempts a; mret tt
      else
        _ ← on_sched (commit_decode_slot op);
        _ ← transition_to rid PREFIX_PREFILLING [];
        _ ← release_source_after_commit a;
        publish_suffix ra d
  end.

(** The three [except] branches of [_run]. *)
Definition run_failed (attempts : nat) (a : handle) (rid op : string) (e : exn) :
    method CWorld unit :=
  match e with
  | CancelledError => _ ← cleanup attempts a; raise CancelledError
  | PrefixLoadError | TimeoutError =>
      outcome ← cleanup attempts a; W ← read;
      match outcome with
      | None => retain_for_recovery a
      | Some o =>
          when (bool_decide (oc_action o = CA_ABORTED) && still_loading rid op W)
            (transition_to rid WAITING [kw_active_operation_id ""])
      end
  | _ =>
      c ← the_context a;
      if decide (cx_stage c = COMMITTED) then release_source_after_commit a
      else
        outcome ← cleanup attempts a;
        match outcome with None => retain_for_recovery a | Some _ => mret tt end
  end.

(** [_run] *)
Definition run_load (attempts : nat) (rid op : string) (d : Router.CachedPrefixDecision) :
    method CWorld unit := λ W,
  match get rid (w_tracker (cw_world W)) with
  | None => (Ok tt, W)
  | Some ra =>
      match dget op (cw_contexts W) with
      | None => (Raise KeyError, W)
      | Some a =>
          match run_body attempts ra a rid op d W with
          | (Ok _, W') => (Ok tt, W')
          | (Raise e, W') => run_failed attempts a rid op e W'
          end
      end
  end.

(** ** Calls of the schedule loop *)

Definition terminal_cleanup_complete (ra : handle) : method CWorld unit :=
  r ← in_world (the_request ra); W ← read;
  match dget (active_operation_id r) (cw_contexts W) with
  | None => mret tt
  | Some a =>
      _ ← pop_context (active_operation_id r);
      ctx_do a (λ c, set_target_pending false (set_source_pinned false c))
  end.

Definition abort_suffix (ra : handle) : method CWorld bool :=
  r ← in_world (the_request ra);
  (λ W, match abort_suffix_prefill rpc (decode_instance r) (active_operation_id r) W with
        | (Raise TimeoutError, W') | (Raise ConnectionError, W') => (Ok false, W')
        | res => res
        end) : method CWorld bool.

Definition cleanup_suffix (attempts : nat) (ra : handle) : method CWorld (option CleanupOutcome) :=
  r ← in_world (the_request ra); W ← read;
  match dget (active_operation_id r) (cw_contexts W) with
  | None => mret None
  | Some a =>
      outcome ← cleanup attempts a;
      match outcome with
      | None => _ ← retain_for_recovery a; mret None
      | Some o =>
          if bool_decide (oc_action o = CA_QUARANTINED)
          then _ ← retain_for_recovery a; mret None
          else c ← the_context a; _ ← pop_context (cx_operation_id c); mret (Some o)
      end
  end.
End coordinator.

(** ** The loop's world under the coordinator *)

(** A method that keeps the invariant of the loop's world. *)
Definition cpreserves {A} (m : method CWorld A) : Prop :=
  ∀ W, world_inv (cw_world W) → world_inv (cw_world (m W).2).

Create HintDb coord discriminated.

Lemma cpreserves_ret {A} (x : A) : cpreserves (mret x).
Proof. by intros W. Qed.
Lemma cpreserves_raise {A} e : cpreserves (raise e : method CWorld A).
Proof. by intros W. Qed.
Lemma cpreserves_read : cpreserves (read : method CWorld CWorld).
Proof. by intros W. Qed.
Lemma cpreserves_context a : cpreserves (the_context a).
Proof. intros W. unfold the_context. by destruct (cw_heap W !! a). Qed.
Lemma cpreserves_ctx_do a f : cpreserves (ctx_do a f).
Proof. by intros W. Qed.
Lemma cpreserves_ensure c e : cpreserves (ensure c e : method CWorld unit).
Proof. intros W. unfold ensure. by destruct c. Qed.

Lemma cpreserves_bind {A B} (m : method CWorld A) (k : A → method CWorld B) :
  cpreserves m → (∀ x, cpreserves (k x)) → cpreserves (m ≫= k).
Proof.
  intros Hm Hk W HW. specialize (Hm W HW). unfold mbind, method_mbind, method_bind.
  destruct (m W) as [[x|e] W1]; [by apply Hk|done].
Qed.

Lemma cpreserves_modify f :
  (∀ W, cw_world (f W) = cw_world W) → cpreserves (modify f).
Proof. intros Hf W HW. simpl. by rewrite Hf. Qed.

Lemma cpreserves_when c m : cpreserves m → cpreserves (when c m).
Proof. intros Hm. destruct c; [done|apply cpreserves_ret]. Qed.

Lemma cpreserves_in_world {A} (m : method World A) : preserves m → cpreserves (in_world m).
Proof.
  intros Hm W HW. unfold in_world. specialize (Hm _ HW). by destruct (m (cw_world W)).
Qed.

Lemma cpreserves_on_sched {A} (m : method PDScheduler A) :
  (∀ s, sched_wf s → sched_wf (m s).2) → cpreserves (on_sched m).
Proof. intros Hm. by apply cpreserves_in_world, preserves_sched_try. Qed.

(** [try: m except BaseException: h] *)
Lemma cpreserves_except {A} (m : method CWorld A) (h : exn → method CWorld unit) :
  cpreserves m → (∀ e, cpreserves (h e)) →
  cpreserves (λ W, match m W with (Ok _, W') => (Ok tt, W') | (Raise e, W') => h e W' end).
Proof.
  intros Hm Hh W HW. specialize (Hm W HW). destruct (m W) as [[x|e] W1]; [done|]. by apply Hh.
Qed.

#[export] Hint Resolve cpreserves_ret cpreserves_raise cpreserves_read cpreserves_context
  cpreserves_ctx_do cpreserves_ensure : coord.

Ltac ckeeps_step :=
  lazymatch goal with
  | |- ∀ _, _ => intro
  | |- cpreserves (mbind _ _) => apply cpreserves_bind
  | |- cpreserves (when _ _) => apply cpreserves_when
  | |- cpreserves (λ W, ?m W) => change (cpreserves m)
  | |- cpreserves (modify _) => apply cpreserves_modify; done
  | |- cpreserves (match ?x with _ => _ end) => destruct x
  | |- cpreserves _ => solve [auto 3 with coord nocore]
  end.
Ltac ckeeps := repeat ckeeps_step.

Record rpc_ok (rpc : PrefixCacheRPC) : Prop := {
  ro_resolve s e op ex n k d : cpreserves (resolve_prefix rpc s e op ex n k d);
  ro_prepare t e op rid mode n tk sp : cpreserves (prepare_prefix rpc t e op rid mode n tk sp);
  ro_transfer p : cpreserves (transfer_cached_prefix rpc p);
  ro_commit t op p : cpreserves (commit_cached_prefix rpc t op p);
  ro_abort_mapped s t op : cpreserves (abort_mapped_prefix rpc s t op);
  ro_status t op : cpreserves (get_prefix_operation rpc t op);
  ro_abort t op : cpreserves (abort_cached_prefix rpc t op);
  ro_unpin s op : cpreserves (unpin_prefix rpc s op);
  ro_suffix t op : cpreserves (abort_suffix_prefill rpc t op) }.

(** The rely of the coordinator: what other tasks do at its awaits keeps the
    invariant. *)
Record calls_ok (calls : CoordinatorCalls) : Prop := {
  ck_rpc : rpc_ok (cc_rpc calls);
  ck_cleanup a : cpreserves (cc_cleanup_prefix_context calls a);
  ck_sleep : cpreserves (cc_sleep calls);
  ck_publish i : cpreserves (cc_publish calls i);
  ck_allocate f i : cc_allocate calls = Some f → cpreserves (f i);
  ck_remember h : cpreserves (cc_remember calls h);
  ck_attempted h : cpreserves (cc_mark_attempted calls h);
  ck_ambiguous h : cpreserves (cc_mark_ambiguous calls h) }.

Section loader_inv.
Context (rpc : PrefixCacheRPC) (Hrpc : rpc_ok rpc).

#[local] Hint Resolve ro_resolve ro_prepare ro_transfer ro_commit ro_abort_mapped ro_status
  ro_abort ro_unpin ro_suffix : coord.

Lemma cpreserves_lease_ops op :
  cpreserves (on_sched (commit_decode_slot op)) ∧ cpreserves (on_sched (quarantine_decode_slot op))
  ∧ cpreserves (on_sched (release_decode_slot op))
  ∧ cpreserves (on_sched (release_quarantined_decode_slot op None None)).
Proof.
  split_and!; apply cpreserves_on_sched; intros s Hs;
    by destruct (lease_ops_wf s Hs) as (? & ? & ? & ? & _).
Qed.

Lemma cpreserves_release op : cpreserves (release_reserved_or_quarantined op).
Proof.
  destruct (cpreserves_lease_ops op) as (? & ? & ? & ?).
  unfold release_reserved_or_quarantined. ckeeps.
Qed.
#[local] Hint Resolve cpreserves_release : coord.

Lemma cpreserves_ends source op :
  cpreserves (end_committed rpc source op) ∧ cpreserves (end_quarantined op)
  ∧ cpreserves (end_aborted rpc source op).
Proof.
  destruct (cpreserves_lease_ops op) as (? & ? & ? & ?).
  unfold end_committed, end_quarantined, end_aborted, unpin. split_and!; ckeeps.
Qed.

Lemma cpreserves_cleanup_load a : cpreserves (cleanup_load_context rpc a).
Proof.
  assert (∀ s op, cpreserves (end_committed rpc s op)) by apply cpreserves_ends.
  assert (∀ op, cpreserves (end_quarantined op)) by (intros; apply (cpreserves_ends "")).
  assert (∀ s op, cpreserves (end_aborted rpc s op)) by apply cpreserves_ends.
  unfold cleanup_load_context, cleanup_prepared, cleanup_mapped_operation, unpin. ckeeps.
Qed.

Lemma cpreserves_load a rid op fp sp d e defer :
  cpreserves (load_cached_prefix rpc a rid op fp sp d e defer).
Proof. unfold load_cached_prefix, finish_load. ckeeps. Qed.
End loader_inv.

Section coordinator_inv.
Context {G : Type} `{RoutingGate G} (reg : World → option G).
Context (op_id lease_tok : CWorld → string) (clock : World → Z).
Context (order : gset CacheLocation → list CacheLocation).
Context (router : CWorld → Router.AffinityRouter) (cfg : CoordinatorConfig).
Context (calls : CoordinatorCalls).
Context (clock_pos : ∀ W, 0 < clock W) (Hcalls : calls_ok calls).

#[local] Hint Resolve ck_cleanup ck_sleep ck_publish ck_remember ck_attempted ck_ambiguous : coord.

Lemma cpreserves_cleanup n a : cpreserves (cleanup cfg calls n a).
Proof.
  induction n as [|n IH]; [by intros W|]. cbn [cleanup].
  assert (cpreserves (if co_network cfg then cc_cleanup_prefix_context calls a
                      else cleanup_load_context (cc_rpc calls) a)) as Hm.
  { destruct (co_network cfg); [by apply ck_cleanup|]. apply cpreserves_cleanup_load, Hcalls. }
  assert (∀ op, cpreserves (quarantine_uncertain op)) as Hq.
  { intros op. destruct (cpreserves_lease_ops op) as (? & ? & ? & ?).
    unfold quarantine_uncertain. ckeeps. }
  assert (cpreserves (c ← the_context a; _ ← quarantine_uncertain (cx_operation_id c);
           _ ← (cc_sleep calls : method CWorld unit); cleanup cfg calls n a)) as Hretry
    by ckeeps.
  intros W HW. specialize (Hm W HW).
  destruct (co_network cfg);
    [destruct (cc_cleanup_prefix_context calls a W) as [[o|e] W1]
    |destruct (cleanup_load_context (cc_rpc calls) a W) as [[o|e] W1]];
    try done; destruct e; try done; by apply Hretry.
Qed.
#[local] Hint Resolve cpreserves_cleanup : coord.

Lemma cpreserves_transition rid s kw : cpreserves (in_world (transition_to clock rid s kw)).
Proof. by apply cpreserves_in_world, preserves_transition. Qed.

Lemma cpreserves_request a : cpreserves (in_world (the_request a)).
Proof. apply cpreserves_in_world, preserves_request. Qed.
#[local] Hint Resolve cpreserves_transition cpreserves_request : coord.

Lemma cpreserves_retain a : cpreserves (retain_for_recovery a).
Proof. unfold retain_for_recovery. ckeeps. Qed.

Lemma cpreserves_release_source a : cpreserves (release_source_after_commit cfg a).
Proof. unfold release_source_after_commit, release_source_in_background. ckeeps. Qed.
#[local] Hint Resolve cpreserves_retain cpreserves_release_source : coord.

Lemma cpreserves_release_until n a : cpreserves (release_source_until_proven calls n a).
Proof.
  induction n as [|n IH]; simpl; [by ckeeps|]. ckeeps.
  intros W HW. pose proof (ro_unpin _ (ck_rpc _ Hcalls) (cx_source_instance x)
    (cx_operation_id x) W HW) as Hu.
  destruct (unpin_prefix _ _ _ W) as [[[]|e] W1]; [done|]. by destruct e.
Qed.

(** A request that is not past its prefill has nothing in the ledger. *)
Lemma undispatched_not_in_ledger W rid a r :
  world_inv W → lookup_request rid (w_tracker W) = Some (a, r) → ¬ dispatched (state r) →
  rid ∉ ledger_ids (w_gov W).
Proof. intros [_ _ _ Hl] Hr Hd (b & r' & Hr' & Hd')%Hl. by simplify_eq. Qed.

Lemma cpreserves_settle rid op action : cpreserves (settle_recovered clock rid op action).
Proof.
  intros W HW. unfold settle_recovered, mbind, method_mbind, method_bind, read.
  destruct (lookup_request rid _) as [[a r]|] eqn:Hr; [|done].
  unfold when. destruct (bool_decide _); [|done].
  pose proof (cpreserves_transition rid WAITING [kw_active_operation_id ""] W HW).
  pose proof (cpreserves_transition rid PREFIX_PREFILLING [] W HW).
  destruct action, (state r) eqn:Hst; try done.
  assert (rid ∉ ledger_ids (w_gov (cw_world W))) as Hn.
  { apply (undispatched_not_in_ledger _ _ a r); [done|done|]. rewrite Hst.
    intros Hd. by apply (bool_decide_eq_true_2 (PREFIX_PREFILLING ∈ _)) in Hd. }
  pose proof (abort_remove_inv clock rid (cw_world W) clock_pos HW Hn) as Hinv.
  unfold mbind, method_mbind, method_bind, in_world in *.
  destruct (transition_to clock rid ABORTED [] (cw_world W)) as [[[]|e] W1]; done.
Qed.
#[local] Hint Resolve cpreserves_settle : coord.

Lemma cpreserves_recover n k a rid : cpreserves (recover_until_proven clock cfg calls n k a rid).
Proof. induction n as [|n IH]; simpl; unfold pop_context; ckeeps. Qed.

Lemma cpreserves_try_decision r d : cpreserves (try_decision reg op_id lease_tok clock r d).
Proof.
  assert (∀ reg i rid op tok now,
    cpreserves (on_sched (reserve_decode_slot (G := G) reg i rid op tok now))).
  { intros. apply cpreserves_on_sched. intros s. apply reserve_decode_slot_wf. }
  unfold try_decision. ckeeps.
Qed.

Lemma cpreserves_try_decisions r ds : cpreserves (try_decisions reg op_id lease_tok clock r ds).
Proof.
  pose proof cpreserves_try_decision. induction ds; simpl; ckeeps.
Qed.
#[local] Hint Resolve cpreserves_try_decisions : coord.

Lemma cpreserves_try_start ra :
  cpreserves (try_start reg op_id lease_tok clock order router cfg ra).
Proof. unfold try_start. ckeeps. Qed.

Lemma cpreserves_publish ra d : cpreserves (publish_suffix cfg calls ra d).
Proof.
  assert (∀ f i, cc_allocate calls = Some f → cpreserves (f i)) as Hal
    by (intros; by eapply ck_allocate).
  assert (∀ h, cpreserves (in_world (update_request ra (set_suffix_operation_ref h)))).
  { intros h. apply cpreserves_in_world, preserves_write. intros r. by destruct r. }
  unfold publish_suffix. destruct (cc_allocate calls) as [f|].
  - specialize (λ i, Hal f i eq_refl). ckeeps; apply cpreserves_except; ckeeps.
  - ckeeps. apply cpreserves_except; ckeeps.
Qed.
#[local] Hint Resolve cpreserves_publish : coord.

Lemma cpreserves_run n rid op d : cpreserves (run_load clock cfg calls n rid op d).
Proof.
  intros W HW. unfold run_load. destruct (get rid _) as [ra|]; [|done].
  destruct (dget op _) as [a|]; [|done].
  assert (cpreserves (run_body clock cfg calls n ra a rid op d)) as Hb.
  { pose proof (cpreserves_load (cc_rpc calls) (ck_rpc _ Hcalls)).
    destruct (cpreserves_lease_ops op) as (? & ? & ? & ?). unfold run_body. ckeeps. }
  assert (∀ e, cpreserves (run_failed clock cfg calls n a rid op e)) as Hf
    by (unfold run_failed; ckeeps).
  specialize (Hb W HW). destruct (run_body _ _ _ _ _ _ _ _ _ W) as [[[]|e] W1]; [done|].
  by apply Hf.
Qed.

Lemma cpreserves_terminal ra : cpreserves (terminal_cleanup_complete ra).
Proof. unfold terminal_cleanup_complete, pop_context. ckeeps. Qed.

Lemma cpreserves_suffix n ra : cpreserves (cleanup_suffix cfg calls n ra).
Proof. unfold cleanup_suffix, pop_context. ckeeps. Qed.

Lemma cpreserves_abort_suffix ra : cpreserves (abort_suffix calls ra).
Proof.
  unfold abort_suffix. ckeeps. intros W HW.
  pose proof (ro_suffix _ (ck_rpc _ Hcalls) (decode_instance x) (active_operation_id x) W HW) as Hu.
  destruct (abort_suffix_prefill _ _ _ W) as [[?|e] W1]; [done|]. by destruct e.
Qed.
End coordinator_inv.

(** ** Properties *)

Section operations.
Context {G : Type} `{RoutingGate G} (reg : World → option G).
Context (op_id lease_tok : CWorld → string) (clock : World → Z).
Context (order : gset CacheLocation → list CacheLocation).
Context (router : CWorld → Router.AffinityRouter) (cfg : CoordinatorConfig).
Context (calls : CoordinatorCalls).

(** What the loop and the background tasks run of the coordinator. *)
Inductive coord_op : Type :=
| OpTryStart (ra : handle)
| OpRun (attempts : nat) (rid op : string) (d : Router.CachedPrefixDecision)
| OpRecover (rounds attempts : nat) (a : handle) (rid : string)
| OpReleaseSource (rounds : nat) (a : handle)
| OpTerminal (ra : handle)
| OpAbortSuffix (ra : handle)
| OpCleanupSuffix (attempts : nat) (ra : handle)
| OpTaskDone (op : string)
| OpRecoveryDone (op : string)
| OpReleaseDone (op : string).

Definition run_op (W : CWorld) (o : coord_op) : CWorld :=
  match o with
  | OpTryStart ra => (try_start reg op_id lease_tok clock order router cfg ra W).2
  | OpRun n rid op d => (run_load clock cfg calls n rid op d W).2
  | OpRecover n k a rid => (recover_until_proven clock cfg calls n k a rid W).2
  | OpReleaseSource n a => (release_source_until_proven calls n a W).2
  | OpTerminal ra => (terminal_cleanup_complete ra W).2
  | OpAbortSuffix ra => (abort_suffix calls ra W).2
  | OpCleanupSuffix n ra => (cleanup_suffix cfg calls n ra W).2
  | OpTaskDone op => (task_done op W).2
  | OpRecoveryDone op => (recovery_done op W).2
  | OpReleaseDone op => (release_done op W).2
  end.
End operations.


(** Some failed loads strand their request.  When the load ends with an
    ordinary exception before the commit (a connection error, say) and the
    cleanup comes to any outcome, or ends with a load error or a timeout and
    the cleanup finds the load committed or quarantined, [_run] returns with
    the state the cleanup left: a request that still owned the load stays
    AFFINITY_LOADING, no recovery task is started for it, and no deadline scan
    of the tracker ever lists it. *)
Theorem failed_load_strands_request clock cfg calls n rid op d W ra a e W1 o W2 :
  get rid (w_tracker (cw_world W)) = Some ra → dget op (cw_contexts W) = Some a →
  run_body clock cfg calls n ra a rid op d W = (Raise e, W1) →
  cleanup cfg calls n a W1 = (Ok (Some o), W2) →
  (e ∈ [PrefixLoadError; TimeoutError] ∧ oc_action o ≠ CA_ABORTED)
  ∨ ((e ∉ [PrefixLoadError; TimeoutError; CancelledError])
     ∧ ∃ c, cw_heap W1 !! a = Some c ∧ cx_stage c ≠ COMMITTED) →
  trk_wf (w_tracker (cw_world W2)) → still_loading rid op W2 = true →
  run_load clock cfg calls n rid op d W = (Ok tt, W2)
  ∧ ∀ timeout now r, req_id r.2 = rid →
      ¬ (r ∈ get_stuck_requests timeout now (w_tracker (cw_world W2))
         ∨ r ∈ get_stuck_prefills timeout now (w_tracker (cw_world W2))
         ∨ r ∈ get_stuck_recomputes timeout now (w_tracker (cw_world W2))
         ∨ r ∈ get_stuck_decodes timeout now (w_tracker (cw_world W2))
         ∨ r ∈ get_stuck_suffix_prefills timeout now (w_tracker (cw_world W2))).
Proof.
  intros Hra Ha Hbody Hclean Hcase Hwf Hstill. split.
  - unfold run_load. rewrite Hra, Ha, Hbody.
    destruct Hcase as [[He Ho]|(He & c & Hc & Hst)].
    + assert (run_failed clock cfg calls n a rid op e
              = run_failed clock cfg calls n a rid op PrefixLoadError) as ->.
      { apply elem_of_cons in He as [->|He]; [done|]. by apply list_elem_of_singleton in He as ->. }
      simpl. unfold mbind, method_mbind, method_bind, read. rewrite Hclean. unfold when.
      by rewrite bool_decide_eq_false_2.
    + assert (run_failed clock cfg calls n a rid op e
              = run_failed clock cfg calls n a rid op ValueError) as ->.
      { destruct e; try done; exfalso; apply He; apply (bool_decide_eq_true_1 _); reflexivity. }
      simpl. unfold mbind, method_mbind, method_bind, the_context. rewrite Hc.
      rewrite decide_False by done. by rewrite Hclean.
  - intros timeout now [b r] Hid. simpl in Hid. unfold still_loading in Hstill.
    destruct (lookup_request rid _) as [[b' r']|] eqn:Hl; [|done].
    apply andb_true_iff in Hstill as [Hst%bool_decide_eq_true _].
    unfold get_stuck_requests, get_stuck_prefills, get_stuck_recomputes, get_stuck_decodes,
      get_stuck_suffix_prefills.
    rewrite !elem_of_collect_sorted by done. rewrite Hid, Hl.
    intros [Hp|[Hp|[Hp|[Hp|Hp]]]]; destruct Hp as [[= -> ->] Hp];
      revert Hp; unfold is_stuck, is_prefill_stuck, is_recompute_stuck, is_decode_stuck,
      is_suffix_prefill_stuck; by rewrite Hst.
Qed.

Lemma request_run ra r W :
  request_at ra (cw_world W) = Some r → in_world (the_request ra) W = (Ok r, W).
Proof. intros Hr. unfold in_world, the_request. rewrite Hr. by destruct W. Qed.

(** A suffix that times out after its load committed is given up on.
    When [cleanup_suffix] comes back with an outcome it has forgotten the
    load's context, so for every later tick of the same request it returns
    [None] at once and changes nothing; and unless that outcome was ABORTED
    the loop did nothing with it, so the request stays PREFIX_PREFILLING with
    its decode slot held until a suffix report arrives, if one ever does. *)
Theorem committed_suffix_is_forgotten cfg calls n m ra r W a o W1 :
  request_at ra (cw_world W) = Some r →
  dget (active_operation_id r) (cw_contexts W) = Some a →
  (∀ c, cw_heap (cleanup cfg calls n a W).2 !! a = Some c →
     cx_operation_id c = active_operation_id r) →
  cleanup_suffix cfg calls n ra W = (Ok (Some o), W1) →
  ∀ W2 r2, cw_contexts W2 = cw_contexts W1 → request_at ra (cw_world W2) = Some r2 →
    active_operation_id r2 = active_operation_id r →
    cleanup_suffix cfg calls m ra W2 = (Ok None, W2).
Proof.
  intros Hr Ha Hop Hrun W2 r2 Hcx Hr2 Hact.
  assert (dget (active_operation_id r) (cw_contexts W1) = None) as Hnone.
  { revert Hrun. unfold cleanup_suffix, mbind, method_mbind, method_bind, read.
    rewrite (request_run _ _ _ Hr), Ha.
    destruct (cleanup cfg calls n a W) as [[[o'|]|] W3]; try done; simpl in Hop.
    - destruct (bool_decide (oc_action o' = CA_QUARANTINED));
        unfold retain_for_recovery, mbind, method_mbind, method_bind, the_context;
        destruct (cw_heap W3 !! a) as [c|]; try done. intros [= _ <-]. simpl.
      rewrite (Hop c) by done. apply dget_dpop_eq.
    - unfold retain_for_recovery, mbind, method_mbind, method_bind, the_context.
      by destruct (cw_heap W3 !! a). }
  unfold cleanup_suffix, mbind, method_mbind, method_bind, read.
  by rewrite (request_run _ _ _ Hr2), Hact, Hcx, Hnone.
Qed.

(** ** A started load *)

(** The state right after a load of [r] for [d] was started under [op]. *)
Record load_started (r : RequestInfo) (ra : handle) (op : string)
    (d : Router.CachedPrefixDecision) (W W' : CWorld) : Prop := {
  ls_free : 0 < free_of (cw_sched W) (Router.decode_instance d);
  ls_slot : free_of (cw_sched W') (Router.decode_instance d)
            = free_of (cw_sched W) (Router.decode_instance d) - 1;
  ls_lease : ∃ l, decode_slot_lease op (cw_sched W') = Some l ∧ lease_state l = RESERVED
    ∧ lease_instance_id l = Router.decode_instance d
    ∧ ∃ r', lookup_request (req_id r) (w_tracker (cw_world W')) = Some (ra, r')
        ∧ state r' = AFFINITY_LOADING ∧ active_operation_id r' = op
        ∧ decode_slot_lease_id r' = lease_id l
        ∧ decode_instance r' = Router.decode_instance d
        ∧ decode_instance_epoch r' = instance_epoch (Router.decode_instance d) (cw_sched W);
  ls_context : ∃ a, dget op (cw_contexts W') = Some a ∧ cw_heap W !! a = None
    ∧ cw_heap W' !! a = Some (new_PrefixLoadContext op (req_id r) (Router.source_instance d)
                                (Router.decode_instance d));
  ls_task : op ∈ cw_tasks W' }.

Section started.
Context {G : Type} `{RoutingGate G} (reg : World → option G).
Context (op_id lease_tok : CWorld → string) (clock : World → Z).

Lemma reserve_fresh rg i rid op tok now s :
  op ≠ "" → dget op (slot_leases s) = None →
  let '(x, s') := reserve_decode_slot (G := G) rg i rid op tok now s in
  (x = Ok None ∧ s' = s)
  ∨ ∃ l, x = Ok (Some l) ∧ 0 < free_of s i ∧ free_of s' i = free_of s i - 1
      ∧ decode_slot_lease op s' = Some l ∧ lease_state l = RESERVED ∧ lease_instance_id l = i
      ∧ instance_epochs s' = instance_epochs s.
Proof.
  intros Hop Hd. unfold reserve_decode_slot. rewrite (proj2 (truthy_true op)), Hd by done.
  destruct (negb _ || _) eqn:Hg; [by left|]. right.
  apply orb_false_iff in Hg as [_ Hfree%bool_decide_eq_false].
  eexists. split; [done|]. unfold free_of, decode_slot_lease in *. simpl.
  rewrite !dget_dset_eq. simpl. split_and!; done || lia.
Qed.

Lemma try_decision_started r ra d W x W' :
  op_id W ≠ "" → dget (op_id W) (slot_leases (cw_sched W)) = None →
  lookup_request (req_id r) (w_tracker (cw_world W)) = Some (ra, r) → state r = WAITING →
  try_decision reg op_id lease_tok clock r d W = (x, W') →
  (x = Ok false ∧ W' = W) ∨ (x = Ok true ∧ load_started r ra (op_id W) d W W').
Proof.
  intros Hop Hd Hr Hst. unfold try_decision, mbind, method_mbind, method_bind, read.
  pose proof (reserve_fresh (reg (cw_world W)) (Router.decode_instance d) (req_id r) (op_id W)
    (lease_tok W) (clock (cw_world W)) (cw_sched W) Hop Hd) as Hres.
  unfold on_sched, in_world, sched_try. fold (cw_sched W).
  destruct (reserve_decode_slot _ _ _ _ _ _ _) as [y s'].
  destruct Hres as [[-> ->]|(l & -> & Hpos & Hfree & Hl & Hls & Hli & Hep)].
  { intros [= <- <-]. left. split; [done|]. by destruct W as [[]]. }
  cbn [fst snd].
  rewrite (transition_run clock (req_id r) AFFINITY_LOADING _ ra r); [|done|by rewrite Hst].
  intros [= <- <-]. right. split; [done|]. split; simpl.
  - done.
  - done.
  - exists l. split_and!; [done|done|done|]. eexists. split.
    { apply lookup_request_Some in Hr as [Hg Hh]. apply lookup_request_Some. simpl.
      split; [exact Hg|]. by rewrite lookup_alter_eq, Hh. }
    unfold cw_sched. simpl. unfold instance_epoch. rewrite Hep. by split_and!.
  - eexists. split; [apply dget_dset_eq|]. split; [|apply lookup_insert_eq].
    apply not_elem_of_dom, is_fresh.
  - set_solver.
Qed.
End started.

(** Starting a load is all or nothing.  Called for a tracked WAITING
    request, with a fresh operation id, [try_start] either changes nothing at
    all (whether it reports that the request should wait or may be dispatched
    cold), or it returns true having started exactly one load: one of the
    decode instance's free slots is now held by a RESERVED lease under the
    operation, the request is AFFINITY_LOADING and carries that operation,
    lease, instance and the instance's epoch, and the operation has a task and
    a fresh context, in the state from which the load runs. *)
Theorem try_start_is_atomic {G} `{RoutingGate G} (reg : World → option G) op_id lease_tok clock
    order router cfg ra r W x W' :
  op_id W ≠ "" → dget (op_id W) (slot_leases (cw_sched W)) = None →
  request_at ra (cw_world W) = Some r →
  get (req_id r) (w_tracker (cw_world W)) = Some ra → state r = WAITING →
  try_start reg op_id lease_tok clock order router cfg ra W = (x, W') →
  W' = W ∨ (x = Ok true ∧ ∃ d, load_started r ra (op_id W) d W W').
Proof.
  intros Hop Hd Hr Hg Hst. unfold try_start, mbind, method_mbind, method_bind.
  rewrite (request_run _ _ _ Hr). unfold read. cbv beta iota.
  destruct (bool_decide (candidates _ = [])); [intros [= _ <-]; by left|].
  destruct (fingerprint r) as [fp|]; [|intros [= _ <-]; by left].
  destruct (required_blocks r fp) as [rb|]; [|intros [= _ <-]; by left].
  destruct (Router.iter_decisions _ _ _ _ _ _ _ _ _ _ _) as [ds|]; [|intros [= _ <-]; by left].
  assert (∀ y W1, try_decisions reg op_id lease_tok clock r ds W = (y, W1) →
    (y = Ok false ∧ W1 = W) ∨ (y = Ok true ∧ ∃ d, load_started r ra (op_id W) d W W1)) as Hds.
  { assert (lookup_request (req_id r) (w_tracker (cw_world W)) = Some (ra, r)) as Hl
      by by apply lookup_request_Some.
    clear -Hop Hd Hl Hst. induction ds as [|d ds IH]; intros y W1; simpl.
    { intros [= <- <-]. by left. }
    unfold mbind, method_mbind, method_bind.
    destruct (try_decision _ _ _ _ r d W) as [z W2] eqn:Ht.
    apply (try_decision_started reg op_id lease_tok clock r ra) in Ht; [|done..].
    destruct Ht as [[-> ->]|[-> Hs]]; [apply IH|]. intros [= <- <-]. right. eauto. }
  destruct (try_decisions _ _ _ _ r ds W) as [y W1].
  destruct (Hds y W1 eq_refl) as [[-> ->]|[-> Hs]].
  - destruct (bool_decide (correctness_path r ∈ _)); intros [= _ <-]; by left.
  - intros [= <- <-]. by right.
Qed.

(** ** A concrete load: one request, its prefix cached on [d1] *)

Definition with_fingerprint (r : RequestInfo) : RequestInfo :=
  ltac:(with_field r fingerprint (Some demo_fp)).

Definition loading_request (s : SeqState) : RequestInfo :=
  set_state s (foldl setattr (with_fingerprint (new_RequestInfo "r0" 5))
    [kw_active_operation_id "op1"; kw_decode_instance "d1"; kw_decode_instance_epoch "f1"]).

Definition start_world (r : RequestInfo) : World :=
  mkWorld (mkTracker {[0%nat := r]} [("r0", 0%nat)] []) demo_scheduler demo_governor None 0%nat.

Definition demo_router (_ : CWorld) : Router.AffinityRouter :=
  Router.mkAffinityRouter
    (add_location (mkCacheLocation "d1" "f1" "ns" "kv" "ctx" 100 0 3 4 40)
       (mkPrefixIndex 600 ∅ ∅ ∅)) ∅ 1024 0.

Definition demo_coordinator : CoordinatorConfig := mkCoordinatorConfig false (1 # 20) 20 100.

Definition demo_calls_of (rpc : PrefixCacheRPC) : CoordinatorCalls :=
  mkCoordinatorCalls rpc (λ _ W, (Raise RuntimeError, W)) (λ W, (Ok tt, W)) (λ _ W, (Ok tt, W))
    None (λ _, mret tt) (λ _, mret tt) (λ _, mret tt).

Definition waiting_world : CWorld :=
  mkCWorld (start_world (with_fingerprint (new_RequestInfo "r0" 5))) ∅ [] ∅ ∅ ∅.

Definition demo_try_start : method CWorld bool :=
  try_start (G := unit) (λ _, None) (λ _, "op1") (λ _, "tok") demo_clock elements demo_router
    demo_coordinator 0%nat.

Lemma demo_calls_ok copied : calls_ok (demo_calls_of (demo_prefix_rpc copied)).
Proof. split; [split|..]; intros; first [done|by intros W HW]. Qed.

Lemma waiting_world_inv : world_inv (cw_world waiting_world).
Proof.
  split.
  - apply (one_request_inv (with_fingerprint (new_RequestInfo "r0" 5))); [|apply dwf_nil].
    split; simpl; done || set_solver.
  - apply demo_scheduler_wf.
  - apply demo_governor_wf.
  - intros rid Hin. vm_compute in Hin. by apply not_elem_of_nil in Hin.
Qed.


Lemma try_start_is_atomic_witness :
  ∃ d, load_started (with_fingerprint (new_RequestInfo "r0" 5)) 0%nat "op1" d
         waiting_world (demo_try_start waiting_world).2.
Proof.
  destruct (demo_try_start waiting_world) as [x W'] eqn:Hrun.
  assert (dget "op1" (cw_contexts W') = Some 0%nat) as Hctx.
  { change W' with (x, W').2. rewrite <- Hrun. vm_compute. reflexivity. }
  destruct (try_start_is_atomic (G := unit) (λ _, None) (λ _, "op1") (λ _, "tok") demo_clock
    elements demo_router demo_coordinator 0%nat (with_fingerprint (new_RequestInfo "r0" 5))
    waiting_world x W') as [->|[_ Hs]]; [done|vm_compute; reflexivity..|exact Hrun| |exact Hs].
  clear Hrun. vm_compute in Hctx. discriminate Hctx.
Defined.

(** A worker that cannot be reached for the resolve, and answers the unpin. *)
Definition unreachable_rpc : PrefixCacheRPC :=
  let r := demo_prefix_rpc MT_COMPLETED in
  mkPrefixCacheRPC (λ _ _ _ _ _ _ _ W, (Raise ConnectionError, W)) (prepare_prefix r)
    (transfer_cached_prefix r) (commit_cached_prefix r) (abort_mapped_prefix r)
    (get_prefix_operation r) (abort_cached_prefix r) (unpin_prefix r) (abort_suffix_prefill r).

Definition loading_world (s : SeqState) (st : Stage) : CWorld :=
  let W := start_world (loading_request s) in
  mkCWorld (set_sched (put_lease "op1" (mkDecodeSlotLease "tok" "op1" "r0" "d1" RESERVED 0 None)
                         (w_sched W)) W)
    {[0%nat := set_plan (Some (resolved_plan "r0" "op1" demo_fp 0%nat demo_decision "f1" []))
        (set_stage st (new_PrefixLoadContext "op1" "r0" "d0" "d1"))]}
    [("op1", 0%nat)] {["op1"]} ∅ ∅.

Lemma loading_tracker_wf s st : trk_wf (w_tracker (cw_world (loading_world s st))).
Proof.
  split; cbn; [repeat constructor; set_solver| |constructor].
  intros rid a. case_decide as Hd; [|done]. intros [= <-]. subst. eexists.
  rewrite lookup_singleton_eq. done.
Qed.

Lemma pair_fst {A B} (p : A * B) x : p.1 = x → p = (x, p.2).
Proof. by destruct p as [? ?]; intros <-. Qed.

(** The run of a load whose resolve never reaches the worker, in two halves. *)
Definition stranded_start : CWorld := loading_world AFFINITY_LOADING STARTED.

Definition stranded_body : CWorld :=
  (run_body demo_clock demo_coordinator (demo_calls_of unreachable_rpc) 1 0%nat 0%nat "r0" "op1"
     demo_decision stranded_start).2.

Definition stranded_after : CWorld :=
  (cleanup demo_coordinator (demo_calls_of unreachable_rpc) 1 0%nat stranded_body).2.

Lemma stranded_raises :
  run_body demo_clock demo_coordinator (demo_calls_of unreachable_rpc) 1 0%nat 0%nat "r0" "op1"
    demo_decision stranded_start = (Raise ConnectionError, stranded_body).
Proof. unfold stranded_body. apply pair_fst. vm_compute. reflexivity. Qed.

Lemma stranded_cleans :
  cleanup demo_coordinator (demo_calls_of unreachable_rpc) 1 0%nat stranded_body
  = (Ok (Some (mkCleanupOutcome CA_ABORTED OP_ABORTED)), stranded_after).
Proof. unfold stranded_after. apply pair_fst. vm_compute. reflexivity. Qed.

Lemma stranded_stage : ∃ c, cw_heap stranded_body !! 0%nat = Some c ∧ cx_stage c ≠ COMMITTED.
Proof.
  assert (cx_stage <$> cw_heap stranded_body !! 0%nat = Some RESOLVING) as Hst
    by (vm_compute; reflexivity).
  apply fmap_Some in Hst as (c & Hc & Hst). exists c. split; [exact Hc|]. by rewrite <- Hst.
Qed.

Lemma stranded_tracker_wf : trk_wf (w_tracker (cw_world stranded_after)).
Proof.
  assert (w_tracker (cw_world stranded_after) = w_tracker (cw_world stranded_start)) as ->
    by (vm_compute; reflexivity).
  apply loading_tracker_wf.
Qed.

Lemma stranded_lease_gone : lease_gone "op1" stranded_after.
Proof.
  assert (lease_state <$> decode_slot_lease "op1" (cw_sched stranded_after) = Some RELEASED) as Hst
    by (vm_compute; reflexivity).
  intros l Hl. rewrite Hl in Hst. by injection Hst.
Qed.

Lemma failed_load_strands_request_witness :
  let W' := (run_load demo_clock demo_coordinator (demo_calls_of unreachable_rpc) 1 "r0" "op1"
               demo_decision stranded_start).2 in
  still_loading "r0" "op1" W' = true ∧ lease_gone "op1" W' ∧ cw_recovery W' = ∅.
Proof.
  assert (get "r0" (w_tracker (cw_world stranded_start)) = Some 0%nat) as Hget
    by (vm_compute; reflexivity).
  assert (dget "op1" (cw_contexts stranded_start) = Some 0%nat) as Hctx by (vm_compute; reflexivity).
  assert (still_loading "r0" "op1" stranded_after = true) as Hstill by (vm_compute; reflexivity).
  destruct (failed_load_strands_request demo_clock demo_coordinator
    (demo_calls_of unreachable_rpc) 1 "r0" "op1" demo_decision stranded_start 0%nat 0%nat
    ConnectionError stranded_body (mkCleanupOutcome CA_ABORTED OP_ABORTED) stranded_after
    Hget Hctx stranded_raises stranded_cleans) as [Hrun _].
  - right. split; [apply (bool_decide_eq_true_1 (_ ∉ _)); vm_compute; reflexivity|].
    exact stranded_stage.
  - exact stranded_tracker_wf.
  - exact Hstill.
  - intros W'. unfold W'. rewrite Hrun. split; [exact Hstill|].
    split; [exact stranded_lease_gone|vm_compute; reflexivity].
Defined.

(** The target reports the commit when the suffix times out. *)
Definition committed_rpc : PrefixCacheRPC :=
  let r := demo_prefix_rpc MT_COMPLETED in
  mkPrefixCacheRPC (resolve_prefix r) (prepare_prefix r) (transfer_cached_prefix r)
    (commit_cached_prefix r) (λ _ _ _ W, (Ok MT_COMPLETED, W)) (λ _ _ W, (Ok OP_COMMITTED, W))
    (abort_cached_prefix r) (unpin_prefix r) (abort_suffix_prefill r).

Definition suffix_cleanup : CWorld → result exn (option CleanupOutcome) * CWorld :=
  cleanup_suffix demo_coordinator (demo_calls_of committed_rpc) 1 0%nat.

Definition suffix_start : CWorld := loading_world PREFIX_PREFILLING COMMITTED.

Definition suffix_after : CWorld := (suffix_cleanup suffix_start).2.

Lemma suffix_commits :
  cleanup_suffix demo_coordinator (demo_calls_of committed_rpc) 1 0%nat suffix_start
  = (Ok (Some (mkCleanupOutcome CA_COMMITTED OP_COMMITTED)), suffix_after).
Proof. unfold suffix_after, suffix_cleanup. apply pair_fst. vm_compute. reflexivity. Qed.

Lemma suffix_operation c :
  cw_heap (cleanup demo_coordinator (demo_calls_of committed_rpc) 1 0%nat suffix_start).2 !! 0%nat
  = Some c → cx_operation_id c = "op1".
Proof.
  assert (cx_operation_id <$> cw_heap (cleanup demo_coordinator (demo_calls_of committed_rpc) 1
    0%nat suffix_start).2 !! 0%nat = Some "op1") as Hop by (vm_compute; reflexivity).
  intros Hc. rewrite Hc in Hop. by injection Hop.
Qed.

Lemma committed_suffix_is_forgotten_witness :
  suffix_cleanup suffix_after = (Ok None, suffix_after)
  ∧ state <$> request_at 0%nat (cw_world suffix_after) = Some PREFIX_PREFILLING.
Proof.
  split; [|vm_compute; reflexivity].
  assert (request_at 0%nat (cw_world suffix_start) = Some (loading_request PREFIX_PREFILLING))
    as Hr by (vm_compute; reflexivity).
  assert (dget "op1" (cw_contexts suffix_start) = Some 0%nat) as Hctx by (vm_compute; reflexivity).
  assert (request_at 0%nat (cw_world suffix_after) = Some (loading_request PREFIX_PREFILLING))
    as Hr' by (vm_compute; reflexivity).
  exact (committed_suffix_is_forgotten demo_coordinator (demo_calls_of committed_rpc) 1 1 0%nat
    (loading_request PREFIX_PREFILLING) suffix_start 0%nat
    (mkCleanupOutcome CA_COMMITTED OP_COMMITTED) suffix_after Hr Hctx suffix_operation
    suffix_commits suffix_after (loading_request PREFIX_PREFILLING) eq_refl Hr' eq_refl).
Defined.

