(* ===== verification/Termination.v ===== *)
(** * Evidence of terminated processes (gateway/termination_authority.py)

    A restart is accepted only with one record per old worker that proves its
    process ended: the Kubernetes transition that was observed, its order and
    its digests, all under a digest of the record itself.

    A record is the JSON object it arrives as.  [sha] is the hexadecimal
    SHA-256 of the canonical text of a value. *)

From S2P Require Import Prelude PyDict Json.
From stdpp Require Import prelude gmap strings.
From Stdlib Require Import Ascii.

Local Open Scope Z_scope.

Definition TERMINATION_RECORD_FIELDS : list string :=
  ["logical_instance_id"; "topology_generation"; "pod_uid"; "node_uid"; "container_name";
   "captured_container_id"; "process_generation"; "watch_start_resource_version";
   "observed_resource_version"; "deletion_resource_version"; "restart_count_before";
   "restart_count_observed"; "termination_source"; "termination_event_type";
   "deletion_event_type"; "terminated"; "adjacent_current_container_id";
   "pod_deletion_observed"; "raw_pod_json_sha256"; "termination_raw_observation_sequence";
   "deletion_raw_pod_json_sha256"; "deletion_raw_observation_sequence"; "observation_sha256"].
Definition TERMINATED_FIELDS : list string :=
  ["exit_code"; "reason"; "signal"; "started_at"; "finished_at"].

(** The fields that must be non-empty strings. *)
Definition text_fields : list string :=
  ["logical_instance_id"; "topology_generation"; "pod_uid"; "node_uid"; "container_name";
   "captured_container_id"; "process_generation"; "watch_start_resource_version";
   "observed_resource_version"; "deletion_resource_version"; "termination_source";
   "termination_event_type"; "deletion_event_type"; "raw_pod_json_sha256";
   "deletion_raw_pod_json_sha256"].

(** [_SHA256.fullmatch] *)
Definition is_hex (c : ascii) : bool :=
  let n := Ascii.nat_of_ascii c in
  (bool_decide (48 ≤ n ≤ 57) || bool_decide (97 ≤ n ≤ 102))%nat.
Definition is_sha256 (s : string) : bool :=
  let cs := String.list_ascii_of_string s in
  bool_decide (take 7 cs = String.list_ascii_of_string "sha256:")
  && bool_decide (length (drop 7 cs) = 64%nat)
  && forallb is_hex (drop 7 cs).

(** [_text] and [_integer] *)
Definition text (record : odict string json) (field : string) (allow_empty : bool) :
    result exn string :=
  match jget field record with
  | JStr s => _ ← need (allow_empty || truthy s); mret s
  | _ => Raise ValueError
  end.
Definition integer (record : odict string json) (field : string) (minimum : Z) : result exn Z :=
  match jget field record with
  | JInt z => _ ← need (bool_decide (minimum ≤ z)); mret z
  | _ => Raise ValueError
  end.

(** [str(record[field])] of a field that was checked to be a string. *)
Definition str_of (record : odict string json) (field : string) : string :=
  default "" (as_str (jget field record)).

Section authority.
Variable sha : json → string.

(** The record without its own digest. *)
Definition unsealed_part (record : odict string json) : odict string json :=
  dpop "observation_sha256" record.

Definition termination_observation_digest (record : odict string json) : result exn string :=
  _ ← need (keys_are record TERMINATION_RECORD_FIELDS);
  mret (digest sha (JObj (unsealed_part record))).

(** The [terminated] object. *)
Definition validate_terminated (v : json) : result exn unit :=
  match v with
  | JObj terminated =>
      _ ← need (keys_are terminated TERMINATED_FIELDS);
      _ ← integer terminated "exit_code" 0;
      _ ← text terminated "reason" true;
      _ ← text terminated "started_at" false;
      _ ← text terminated "finished_at" false;
      match jget "signal" terminated with
      | JNull => mret tt
      | JInt z => need (bool_decide (0 ≤ z))
      | _ => Raise ValueError
      end
  | _ => Raise ValueError
  end.

(** Where the termination was read, against the restart counts. *)
Definition validate_source (record : odict string json) (before observed : Z) :
    result exn unit :=
  let source := str_of record "termination_source" in
  let adjacent := jget "adjacent_current_container_id" record in
  if bool_decide (source = "state.terminated") then
    _ ← need (bool_decide (observed = before));
    need (bool_decide (adjacent = JNull))
  else if bool_decide (source = "lastState.terminated") then
    _ ← need (bool_decide (observed = before + 1));
    match adjacent with
    | JStr a => need (truthy a && bool_decide (a ≠ str_of record "captured_container_id"))
    | _ => Raise ValueError
    end
  else Raise ValueError.

Definition validate_termination_record (value : json) (expected_generation : option string) :
    result exn (odict string json) :=
  match value with
  | JObj record =>
      _ ← need (keys_are record TERMINATION_RECORD_FIELDS);
      expected_digest ← termination_observation_digest record;
      _ ← need (py_eqb (jget "observation_sha256" record) (JStr expected_digest));
      _ ← mapR (λ field, text record field false) text_fields;
      _ ← need (py_eqb (jget "container_name" record) (JStr "worker"));
      _ ← match expected_generation with
          | None => mret tt
          | Some g => need (py_eqb (jget "topology_generation" record) (JStr g))
          end;
      _ ← need (py_eqb (jget "termination_event_type" record) (JStr "MODIFIED"));
      _ ← need (py_eqb (jget "deletion_event_type" record) (JStr "DELETED"));
      _ ← need (is_True_obj (jget "pod_deletion_observed" record));
      before ← integer record "restart_count_before" 0;
      observed ← integer record "restart_count_observed" 0;
      termination_sequence ← integer record "termination_raw_observation_sequence" 1;
      deletion_sequence ← integer record "deletion_raw_observation_sequence" 1;
      _ ← need (bool_decide (termination_sequence < deletion_sequence));
      _ ← need (is_sha256 (str_of record "raw_pod_json_sha256"));
      _ ← need (is_sha256 (str_of record "deletion_raw_pod_json_sha256"));
      let watch := str_of record "watch_start_resource_version" in
      _ ← need (bool_decide (watch ≠ str_of record "observed_resource_version")
                && bool_decide (watch ≠ str_of record "deletion_resource_version"));
      _ ← validate_terminated (jget "terminated" record);
      _ ← validate_source record before observed;
      mret record
  | _ => Raise ValueError
  end.

Definition seal_termination_record (payload : odict string json) :
    result exn (odict string json) :=
  _ ← need (keys_are payload (filter (λ k, k ≠ "observation_sha256") TERMINATION_RECORD_FIELDS));
  let record := dset "observation_sha256" (JStr "") payload in
  seal ← termination_observation_digest record;
  validate_termination_record (JObj (dset "observation_sha256" (JStr seal) record)) None.

(** [int(value[field])] of a field that was checked to be an integer. *)
Definition int_of (record : odict string json) (field : string) : Z :=
  default 0 (as_int (jget field record)).

Definition raw_sequences (records : list (odict string json)) : list Z :=
  concat ((λ r, [int_of r "termination_raw_observation_sequence";
                 int_of r "deletion_raw_observation_sequence"]) <$> records).

Definition validate_termination_records (values : list json) (expected_generation : string)
    (expected_members : gset string) : result exn (list (odict string json)) :=
  records ← mapR (λ value, validate_termination_record value (Some expected_generation)) values;
  let attrs := λ field, list_to_set (C := gset string) ((λ r, str_of r field) <$> records) in
  _ ← need (bool_decide (length records = 4%nat)
            && bool_decide (attrs "logical_instance_id" = expected_members));
  _ ← need (bool_decide (size (attrs "pod_uid") = 4%nat)
            && bool_decide (size (attrs "captured_container_id") = 4%nat));
  _ ← need (bool_decide (size (list_to_set (C := gset Z) (raw_sequences records))
                         = length (raw_sequences records)));
  mret records.
End authority.

(** ** What an accepted record says *)

(** The observed [state] of the container: it ended in place, or the kubelet
    had started exactly one successor, which is another container. *)
Definition exit_observed (r : odict string json) : Prop :=
  ∃ before observed, 0 ≤ before
    ∧ jget "restart_count_before" r = JInt before
    ∧ jget "restart_count_observed" r = JInt observed
    ∧ ((jget "termination_source" r = JStr "state.terminated" ∧ observed = before
        ∧ jget "adjacent_current_container_id" r = JNull)
       ∨ (jget "termination_source" r = JStr "lastState.terminated" ∧ observed = before + 1
          ∧ ∃ next, jget "adjacent_current_container_id" r = JStr next ∧ next ≠ ""
              ∧ jget "captured_container_id" r ≠ JStr next)).

(** The shape of the [terminated] object. *)
Definition exit_status (v : json) : Prop :=
  ∃ d code reason started finished, v = JObj d ∧ keys_are d TERMINATED_FIELDS = true
    ∧ jget "exit_code" d = JInt code ∧ 0 ≤ code
    ∧ jget "reason" d = JStr reason
    ∧ jget "started_at" d = JStr started ∧ started ≠ ""
    ∧ jget "finished_at" d = JStr finished ∧ finished ≠ ""
    ∧ (jget "signal" d = JNull ∨ ∃ n, jget "signal" d = JInt n ∧ 0 ≤ n).

Record Terminated (sha : json → string) (generation : option string) (r : odict string json) :
    Prop := {
  tm_fields : keys_are r TERMINATION_RECORD_FIELDS = true;
  tm_seal : jget "observation_sha256" r = JStr (digest sha (JObj (unsealed_part r)));
  tm_text : ∀ k, k ∈ text_fields → jget k r = JStr (str_of r k) ∧ str_of r k ≠ "";
  tm_worker : jget "container_name" r = JStr "worker";
  tm_generation : ∀ g, generation = Some g → jget "topology_generation" r = JStr g;
  tm_modified : jget "termination_event_type" r = JStr "MODIFIED";
  tm_deleted : jget "deletion_event_type" r = JStr "DELETED";
  tm_gone : jget "pod_deletion_observed" r = JBool true;
  tm_order : ∃ m n, jget "termination_raw_observation_sequence" r = JInt m
    ∧ jget "deletion_raw_observation_sequence" r = JInt n ∧ 1 ≤ m < n;
  tm_raw : is_sha256 (str_of r "raw_pod_json_sha256") = true
    ∧ is_sha256 (str_of r "deletion_raw_pod_json_sha256") = true;
  tm_version : jget "watch_start_resource_version" r ≠ jget "observed_resource_version" r
    ∧ jget "watch_start_resource_version" r ≠ jget "deletion_resource_version" r;
  tm_status : exit_status (jget "terminated" r);
  tm_exit : exit_observed r }.

(** *** The checks one by one *)

Create HintDb checks discriminated.
#[export] Hint Resolve only_need only_Ok : checks.

Ltac only_value :=
  repeat match goal with
  | |- only_value_error (mbind _ _) => apply only_bind; [|intros ? _]
  | |- only_value_error (mret _) => apply only_Ok
  | |- only_value_error (Raise ValueError) => by intros ? [=]
  | |- only_value_error (match ?x with None => _ | Some _ => _ end) => destruct x
  | |- only_value_error _ => solve [auto with checks]
  end.

Lemma is_True_obj_true v : is_True_obj v = true ↔ v = JBool true.
Proof. destruct v as [|[]| | | | |]; simpl; naive_solver. Qed.

Lemma text_Ok r k e s : text r k e = Ok s ↔ jget k r = JStr s ∧ (e = true ∨ s ≠ "").
Proof.
  unfold text. destruct (jget k r) as [| | | |s'| |]; try naive_solver.
  rewrite need_then, orb_true_iff, truthy_true. split.
  - intros [? [= <-]]. done.
  - intros [[= <-] ?]. done.
Qed.

Lemma integer_Ok r k m z : integer r k m = Ok z ↔ jget k r = JInt z ∧ m ≤ z.
Proof.
  unfold integer. destruct (jget k r); try naive_solver.
  rewrite need_then, bool_decide_eq_true. split.
  - intros [? [= <-]]. done.
  - intros [[= <-] ?]. done.
Qed.

Lemma str_of_text r k s : jget k r = JStr s → str_of r k = s.
Proof. unfold str_of. by intros ->. Qed.

Lemma texts_Ok r l :
  (∃ ss, mapR (λ field, text r field false) l = Ok ss)
  ↔ ∀ k, k ∈ l → jget k r = JStr (str_of r k) ∧ str_of r k ≠ "".
Proof.
  setoid_rewrite mapR_Ok. split.
  - intros [ss Hss]. intros k Hk. apply list_elem_of_lookup in Hk as [i Hi].
    destruct (Forall2_lookup_l _ _ _ _ _ Hss Hi) as (s & _ & [Hs [|Hne]]%text_Ok); [done|].
    by rewrite (str_of_text _ _ _ Hs).
  - intros Hall. exists (str_of r <$> l). apply Forall2_fmap_r, Forall_Forall2_diag, Forall_forall.
    intros k Hk. destruct (Hall k Hk). apply text_Ok. by split; [|right].
Qed.

Lemma validate_terminated_Ok v x : validate_terminated v = Ok x ↔ exit_status v.
Proof.
  unfold validate_terminated, exit_status. destruct v as [| | | | | |d]; try naive_solver.
  assert (match jget "signal" d with
    | JNull => mret tt | JInt z => need (bool_decide (0 ≤ z)) | _ => Raise ValueError end = Ok x
    ↔ jget "signal" d = JNull ∨ ∃ n, jget "signal" d = JInt n ∧ 0 ≤ n) as Hsig.
  { destruct (jget "signal" d); try (destruct x; naive_solver).
    rewrite need_Ok, bool_decide_eq_true. naive_solver. }
  rewrite need_then, bind_Ok. split.
  - intros (Hk & code & [Hcode ?]%integer_Ok & HR).
    apply bind_Ok in HR as (reason & [? _]%text_Ok & HR).
    apply bind_Ok in HR as (started & [? [|?]]%text_Ok & HR); [done|].
    apply bind_Ok in HR as (finished & [? [|?]]%text_Ok & HR); [done|].
    apply Hsig in HR. by exists d, code, reason, started, finished.
  - intros (d' & code & reason & started & finished & [= <-] & ? & ? & ? & ? & ? & ? & ? & ? & ?).
    split; [done|]. exists code. split; [by apply integer_Ok|].
    apply bind_Ok. exists reason. split; [apply text_Ok; auto|].
    apply bind_Ok. exists started. split; [apply text_Ok; auto|].
    apply bind_Ok. exists finished. split; [apply text_Ok; auto|]. by apply Hsig.
Qed.

Lemma validate_source_Ok r before observed x :
  jget "termination_source" r = JStr (str_of r "termination_source") →
  jget "captured_container_id" r = JStr (str_of r "captured_container_id") →
  jget "restart_count_before" r = JInt before → 0 ≤ before →
  jget "restart_count_observed" r = JInt observed →
  validate_source r before observed = Ok x ↔ exit_observed r.
Proof.
  intros Hs Hc Hb Hb0 Ho. unfold validate_source, exit_observed. split.
  - intros Hv. exists before, observed. split_and!; try done. revert Hv.
    case_bool_decide as Hst; [|case_bool_decide as Hlast; [|done]].
    + rewrite need_then, need_Ok, !bool_decide_eq_true. intros [-> Hadj]. left.
      by rewrite Hs, Hst.
    + rewrite need_then, bool_decide_eq_true. intros [-> Hadj]. right. rewrite Hs, Hlast.
      destruct (jget "adjacent_current_container_id" r) as [| | | |a| |]; try done.
      rewrite need_Ok, andb_true_iff, truthy_true, bool_decide_eq_true in Hadj.
      destruct Hadj as [? Hne]. split_and!; try done. exists a. rewrite Hc.
      split_and!; [done|done|congruence].
  - intros (b & o & _ & Hb' & Ho' & Hcase). rewrite Hb in Hb'. injection Hb' as <-.
    rewrite Ho in Ho'. injection Ho' as <-.
    destruct Hcase as [(Hsrc & -> & Hadj)|(Hsrc & -> & a & Hadj & Ha & Hne)];
      rewrite (str_of_text _ _ _ Hsrc), Hadj.
    + rewrite bool_decide_eq_true_2 by done. rewrite need_then, need_Ok, !bool_decide_eq_true. done.
    + rewrite bool_decide_eq_false_2, bool_decide_eq_true_2 by done.
      rewrite need_then, need_Ok, andb_true_iff, truthy_true, !bool_decide_eq_true.
      split_and!; try done. congruence.
Qed.

Lemma seal_Ok sha r x :
  termination_observation_digest sha r = Ok x
  ↔ keys_are r TERMINATION_RECORD_FIELDS = true ∧ x = digest sha (JObj (unsealed_part r)).
Proof.
  unfold termination_observation_digest. rewrite need_then. split.
  - by intros [? [= <-]].
  - by intros [? ->].
Qed.

Ltac text_field := apply (bool_decide_eq_true_1 (_ ∈ text_fields)); vm_compute; reflexivity.

Lemma validate_record_sound sha v g r :
  validate_termination_record sha v g = Ok r → v = JObj r ∧ Terminated sha g r.
Proof.
  destruct v as [| | | | | |r']; try done. simpl.
  rewrite need_then. intros (Hf & H). apply bind_Ok in H as (dg & [_ ->]%seal_Ok & H).
  rewrite need_then, py_eqb_str in H. destruct H as (Hseal & H).
  apply bind_Ok in H as (ss & Hss & H).
  assert (∀ k, k ∈ text_fields → jget k r' = JStr (str_of r' k) ∧ str_of r' k ≠ "") as Ht
    by (apply texts_Ok; eauto).
  rewrite need_then, py_eqb_str in H. destruct H as (Hw & H).
  apply bind_Ok in H as ([] & Hg & H).
  rewrite !need_then, !py_eqb_str, is_True_obj_true in H. destruct H as (Hm & Hd & Hgone & H).
  apply bind_Ok in H as (b & [Hb Hb0]%integer_Ok & H).
  apply bind_Ok in H as (o & [Ho _]%integer_Ok & H).
  apply bind_Ok in H as (m & [Hms Hm1]%integer_Ok & H).
  apply bind_Ok in H as (n & [Hns _]%integer_Ok & H).
  rewrite !need_then, andb_true_iff, !bool_decide_eq_true in H.
  destruct H as (Hmn & Hr1 & Hr2 & [Hv1 Hv2] & H).
  apply bind_Ok in H as ([] & Hstat%validate_terminated_Ok & H).
  apply bind_Ok in H as ([] & Hsrc & [= <-]). split; [done|].
  apply validate_source_Ok in Hsrc; try done; [|apply Ht; text_field..].
  split; try done.
  - intros g' ->. by apply need_Ok, py_eqb_str in Hg.
  - exists m, n. split_and!; done || lia.
  - assert (∀ k, k ∈ text_fields → jget k r' = JStr (str_of r' k)) as Ht1 by apply Ht.
    rewrite !Ht1 by text_field. split; congruence.
Qed.

Lemma validate_record_complete sha g r :
  Terminated sha g r → validate_termination_record sha (JObj r) g = Ok r.
Proof.
  intros [Hf Hseal Ht Hw Hg Hm Hd Hgone (m & n & Hms & Hns & Hmn) [Hr1 Hr2] [Hv1 Hv2] Hstat Hex].
  simpl. rewrite need_then. split; [done|]. apply bind_Ok. eexists. split; [by apply seal_Ok|].
  rewrite need_then, py_eqb_str. split; [done|].
  apply bind_Ok. destruct (proj2 (texts_Ok r text_fields) Ht) as [ss Hss]. exists ss. split; [done|].
  rewrite need_then, py_eqb_str. split; [done|]. apply bind_Ok. exists tt. split.
  { destruct g as [g|]; [|done]. apply need_Ok, py_eqb_str. auto. }
  rewrite !need_then, !py_eqb_str, is_True_obj_true. split_and!; try done.
  pose proof Hex as (b & o & Hb0 & Hb & Ho & Hcase).
  apply bind_Ok. exists b. split; [by apply integer_Ok|].
  apply bind_Ok. exists o. split; [apply integer_Ok; split; [done|]; destruct Hcase; lia|].
  apply bind_Ok. exists m. split; [apply integer_Ok; split; [done|lia]|].
  apply bind_Ok. exists n. split; [apply integer_Ok; split; [done|lia]|].
  assert (∀ k, k ∈ text_fields → jget k r = JStr (str_of r k)) as Ht1 by apply Ht.
  rewrite !Ht1 in Hv1, Hv2 by text_field.
  rewrite !need_then, andb_true_iff, !bool_decide_eq_true. split_and!; try done; try lia;
    try congruence.
  apply bind_Ok. exists tt. split; [by apply validate_terminated_Ok|].
  apply bind_Ok. exists tt. split; [|done].
  apply validate_source_Ok; try done; apply Ht; text_field.
Qed.

(** *** Only [ValueError] is raised *)

Lemma only_text r k e : only_value_error (text r k e).
Proof. unfold text. destruct (jget k r); only_value. Qed.
Lemma only_integer r k m : only_value_error (integer r k m).
Proof. unfold integer. destruct (jget k r); only_value. Qed.
Lemma only_mapR {A B} (f : A → result exn B) l :
  (∀ x, only_value_error (f x)) → only_value_error (mapR f l).
Proof. intros Hf. induction l; simpl; only_value. Qed.
Lemma only_seal sha r : only_value_error (termination_observation_digest sha r).
Proof. unfold termination_observation_digest. only_value. Qed.
#[export] Hint Resolve only_text only_integer only_mapR only_seal : checks.

Lemma only_terminated v : only_value_error (validate_terminated v).
Proof.
  destruct v as [| | | | | |d]; simpl; only_value. destruct (jget "signal" d); only_value.
Qed.
Lemma only_source r b o : only_value_error (validate_source r b o).
Proof.
  unfold validate_source. case_bool_decide; [only_value|]. case_bool_decide; only_value.
  destruct (jget _ _); only_value.
Qed.
#[export] Hint Resolve only_terminated only_source : checks.

Lemma only_validate_record sha v g : only_value_error (validate_termination_record sha v g).
Proof.
  destruct v; unfold validate_termination_record; only_value.
Qed.

(** [validate_termination_record] accepts exactly the records that prove a
    terminated process: every field present and none besides, sealed under the
    digest of the rest, of a worker container of the expected generation, with
    the MODIFIED observation before the DELETED one, and with restart counts
    that fit the place the termination was read from.  Everything else,
    whatever its JSON shape, raises ValueError. *)
Theorem termination_record_exact sha v g :
  (∀ r, validate_termination_record sha v g = Ok r ↔ v = JObj r ∧ Terminated sha g r)
  ∧ only_value_error (validate_termination_record sha v g).
Proof.
  split.
  - intros r. split; [apply validate_record_sound|]. intros [-> ?]. by apply validate_record_complete.
  - apply only_validate_record.
Qed.

(** [str(value[field]) for value in records] *)
Definition names (records : list (odict string json)) (field : string) : list string :=
  (λ r, str_of r field) <$> records.

Lemma distinct_four (l : list string) :
  length l = 4%nat → size (list_to_set l : gset string) = 4%nat ↔ NoDup l.
Proof. intros <-. apply size_list_to_set_NoDup. Qed.

Lemma validate_records_iff sha values g members records :
  size members = 4%nat →
  validate_termination_records sha values g members = Ok records ↔
  values = JObj <$> records
  ∧ Forall (Terminated sha (Some g)) records
  ∧ length records = 4%nat
  ∧ list_to_set (names records "logical_instance_id") = members
  ∧ NoDup (names records "logical_instance_id")
  ∧ NoDup (names records "pod_uid")
  ∧ NoDup (names records "captured_container_id")
  ∧ NoDup (raw_sequences records).
Proof.
  intros Hm. unfold validate_termination_records. rewrite bind_Ok.
  assert (∀ rs, mapR (λ v, validate_termination_record sha v (Some g)) values = Ok rs
    ↔ values = JObj <$> rs ∧ Forall (Terminated sha (Some g)) rs) as Hmap.
  { intros rs. rewrite mapR_Ok. split.
    - induction 1 as [|v r vs rs Hv _ [-> ?]]; [done|].
      apply validate_record_sound in Hv as [-> ?]. by split; [|constructor].
    - intros [-> Hall]. apply Forall2_fmap_l, Forall_Forall2_diag.
      eapply Forall_impl; [exact Hall|]. intros r. apply validate_record_complete. }
  setoid_rewrite Hmap.
  assert (∀ rs, length rs = 4%nat → ∀ k, length (names rs k) = 4%nat) as Hlen
    by (intros; unfold names; by rewrite length_fmap).
  split.
  - intros (rs & [Hv Hall] & HR). rewrite !need_then, !andb_true_iff, !bool_decide_eq_true in HR.
    destruct HR as ([H4 Hset] & [Hp Hc] & Hq & [= ->]).
    split_and!; try done; [..|by apply size_list_to_set_NoDup];
      apply distinct_four; auto. by rewrite <- Hset in Hm.
  - intros (Hv & Hall & H4 & Hset & Hn & Hp & Hc & Hq). exists records. split; [done|].
    rewrite !need_then, !andb_true_iff, !bool_decide_eq_true. split_and!; try done.
    + by apply distinct_four; [apply Hlen|].
    + by apply distinct_four; [apply Hlen|].
    + by apply size_list_to_set_NoDup.
Qed.

(** C30: A restart is accepted only when the whole old world is proven gone.
    [validate_termination_records] returns exactly when the values are four
    valid records of the expected generation, one for each expected member and
    for no one else, of four different pods and four different containers, and
    no raw observation is used twice, neither by two records nor as both the
    termination and the deletion of one. *)
Theorem termination_records_prove_world sha values g members records :
  size members = 4%nat →
  validate_termination_records sha values g members = Ok records ↔
  values = JObj <$> records
  ∧ Forall (Terminated sha (Some g)) records
  ∧ length records = 4%nat
  ∧ list_to_set (names records "logical_instance_id") = members
  ∧ NoDup (names records "logical_instance_id")
  ∧ NoDup (names records "pod_uid")
  ∧ NoDup (names records "captured_container_id")
  ∧ NoDup (raw_sequences records).
Proof. apply validate_records_iff. Qed.

(** ** Sealing *)

Lemma dset_obs_fresh (p : odict string json) v w :
  dget "observation_sha256" p = None →
  dset "observation_sha256" w (dset "observation_sha256" v p) = p ++ [("observation_sha256", w)].
Proof. intros Hn. rewrite dset_dset. by apply dset_fresh. Qed.

Lemma payload_unsealed p :
  keys_are p (filter (λ k, k ≠ "observation_sha256") TERMINATION_RECORD_FIELDS) = true →
  dget "observation_sha256" p = None.
Proof.
  unfold keys_are. rewrite bool_decide_eq_true. intros Hk. apply dget_None. intros Hin.
  assert ("observation_sha256" ∈ (list_to_set (dkeys p) : gset string)) as Hs by set_solver.
  rewrite Hk in Hs. set_solver.
Qed.

Lemma sealed_keys p v :
  keys_are p (filter (λ k, k ≠ "observation_sha256") TERMINATION_RECORD_FIELDS) = true →
  keys_are (dset "observation_sha256" v p) TERMINATION_RECORD_FIELDS = true.
Proof.
  intros Hp. rewrite (dset_fresh _ _ _ (payload_unsealed _ Hp)). revert Hp. unfold keys_are.
  rewrite !bool_decide_eq_true. unfold dkeys. rewrite fmap_app, list_to_set_app_L.
  intros ->. apply set_eq. intros k. set_solver.
Qed.

Lemma seal_record_Ok sha p r :
  seal_termination_record sha p = Ok r
  ↔ keys_are p (filter (λ k, k ≠ "observation_sha256") TERMINATION_RECORD_FIELDS) = true
    ∧ r = p ++ [("observation_sha256", JStr (digest sha (JObj p)))]
    ∧ Terminated sha None r.
Proof.
  unfold seal_termination_record. rewrite need_then, bind_Ok.
  split.
  - intros (Hp & x & [_ ->]%seal_Ok & [Hr HT]%validate_record_sound).
    pose proof (payload_unsealed _ Hp) as Hn. injection Hr as Hr.
    rewrite (dset_obs_fresh p _ _ Hn) in Hr. unfold unsealed_part in Hr.
    rewrite dpop_dset, (dpop_fresh _ p) in Hr by done. by subst r.
  - intros (Hp & -> & HT). split; [done|]. pose proof (payload_unsealed _ Hp) as Hn.
    eexists. split; [apply seal_Ok; split; [by apply sealed_keys|done]|].
    unfold unsealed_part. rewrite dpop_dset, (dpop_fresh _ p) by done.
    rewrite (dset_obs_fresh p) by done. by apply validate_record_complete.
Qed.

(** A record is what its fields and its digested part are. *)
Lemma Terminated_ext sha g r r' :
  (∀ k, dget k r' = dget k r) → unsealed_part r' = unsealed_part r →
  Terminated sha g r → Terminated sha g r'.
Proof.
  intros Hd Hu [? ? Ht ? ? ? ? ? ? ? ? ? ?].
  assert (∀ k, jget k r' = jget k r) as Hj by (intros k; unfold jget; by rewrite Hd).
  assert (∀ k, str_of r' k = str_of r k) as Hs by (intros k; unfold str_of; by rewrite Hj).
  split; unfold exit_observed; repeat setoid_rewrite Hj; repeat setoid_rewrite Hs; rewrite ?Hu;
    try done. by rewrite (keys_are_ext r).
Qed.

(** Sealing is the inverse of dropping the seal, and a seal cannot be moved
    to other evidence.  A sealed payload comes back unchanged with the digest
    of itself, and the record validates; a valid record sealed again is the
    same record, up to the place of the digest; two valid records with the
    same seal have the same contents unless their digests collide. *)
Theorem seal_roundtrip sha :
  (∀ p r, seal_termination_record sha p = Ok r →
     unsealed_part r = p ∧ validate_termination_record sha (JObj r) None = Ok r)
  ∧ (∀ r, dwf r → validate_termination_record sha (JObj r) None = Ok r →
     ∃ r', seal_termination_record sha (unsealed_part r) = Ok r' ∧ r' ≡ₚ r)
  ∧ (∀ r r' g g', validate_termination_record sha (JObj r) g = Ok r →
     validate_termination_record sha (JObj r') g' = Ok r' →
     jget "observation_sha256" r = jget "observation_sha256" r' →
     canonical (JObj (unsealed_part r)) = canonical (JObj (unsealed_part r'))
     ∨ (sha (canonical (JObj (unsealed_part r))) = sha (canonical (JObj (unsealed_part r')))
        ∧ canonical (JObj (unsealed_part r)) ≠ canonical (JObj (unsealed_part r')))).
Proof.
  split_and!.
  - intros p r (Hp & -> & HT)%seal_record_Ok. split; [|by apply validate_record_complete].
    unfold unsealed_part. rewrite <- (dset_fresh _ _ _ (payload_unsealed _ Hp)), dpop_dset.
    apply dpop_fresh. by apply payload_unsealed.
  - intros r Hwf [_ HT]%validate_record_sound.
    set (r' := dmove_end "observation_sha256" (JStr (digest sha (JObj (unsealed_part r)))) r).
    assert (∀ k, dget k r' = dget k r) as Hd.
    { intros k. unfold r'. rewrite dget_dmove_end by done. case_decide as Hk; [|done]. subst k.
      pose proof (tm_seal _ _ _ HT) as Hs. unfold jget in Hs.
      destruct (dget _ r) as [v|] eqn:Hv; [|done]. simpl in Hs. congruence. }
    assert (unsealed_part r' = unsealed_part r) as Hu.
    { unfold r', unsealed_part, dmove_end. rewrite <- dset_fresh by apply dget_dpop_eq.
      rewrite dpop_dset. apply dpop_fresh, dget_dpop_eq. }
    exists r'. split.
    + apply seal_record_Ok. split_and!; [|done|by eapply Terminated_ext].
      pose proof (tm_fields _ _ _ HT) as Hf. unfold keys_are in *.
      rewrite bool_decide_eq_true in *. unfold unsealed_part. rewrite dkeys_dpop.
      apply set_eq. intros k. rewrite !elem_of_list_to_set, !list_elem_of_filter.
      rewrite <- !(elem_of_list_to_set (C := gset string)), Hf. done.
    + unfold r', dmove_end. rewrite <- dset_fresh by apply dget_dpop_eq.
      rewrite dset_perm by (by apply dwf_dpop). rewrite (dpop_fresh _ (dpop _ r)) by apply dget_dpop_eq.
      rewrite <- (dset_perm _ _ r) by done. rewrite dset_id; [done|]. rewrite <- Hd. unfold r'.
      rewrite dget_dmove_end by done. by rewrite decide_True.
  - intros r r' g g' [_ HT]%validate_record_sound [_ HT']%validate_record_sound Heq.
    rewrite (tm_seal _ _ _ HT), (tm_seal _ _ _ HT') in Heq. unfold digest in Heq.
    injection Heq as Heq. destruct (decide (canonical (JObj (unsealed_part r))
      = canonical (JObj (unsealed_part r')))); auto.
Qed.

(** ** Concrete instances of the properties *)

Definition toy_digest : string :=
  "sha256:0123456789abcdef0123456789abcdef0123456789abcdef0123456789abcdef".

(** The evidence collected for one worker: it ended in place. *)
Definition demo_payload (name : string) (seq : Z) : odict string json :=
  [("logical_instance_id", JStr name); ("topology_generation", JStr "gen1");
   ("pod_uid", JStr ("pod-" +:+ name)); ("node_uid", JStr "node");
   ("container_name", JStr "worker"); ("captured_container_id", JStr ("cri-" +:+ name));
   ("process_generation", JStr "1"); ("watch_start_resource_version", JStr "10");
   ("observed_resource_version", JStr "11"); ("deletion_resource_version", JStr "12");
   ("restart_count_before", JInt 0); ("restart_count_observed", JInt 0);
   ("termination_source", JStr "state.terminated");
   ("termination_event_type", JStr "MODIFIED"); ("deletion_event_type", JStr "DELETED");
   ("terminated", JObj [("exit_code", JInt 0); ("reason", JStr ""); ("signal", JNull);
                        ("started_at", JStr "t0"); ("finished_at", JStr "t1")]);
   ("adjacent_current_container_id", JNull); ("pod_deletion_observed", JBool true);
   ("raw_pod_json_sha256", JStr toy_digest);
   ("termination_raw_observation_sequence", JInt seq);
   ("deletion_raw_pod_json_sha256", JStr toy_digest);
   ("deletion_raw_observation_sequence", JInt (seq + 1))].

(** A stand-in for SHA-256 that depends on one field. *)
Definition toy_sha (v : json) : string :=
  match v with JObj d => str_of d "logical_instance_id" | _ => "" end.

Definition demo_sealed (sha : json → string) (name : string) (seq : Z) : odict string json :=
  demo_payload name seq
    ++ [("observation_sha256", JStr (digest sha (JObj (demo_payload name seq))))].
Definition demo_records (sha : json → string) : list (odict string json) :=
  [demo_sealed sha "p0" 1; demo_sealed sha "p1" 3; demo_sealed sha "d0" 5; demo_sealed sha "d1" 7].

Example demo_seals :
  seal_termination_record toy_sha (demo_payload "p0" 1) = Ok (demo_sealed toy_sha "p0" 1).
Proof. vm_compute. reflexivity. Qed.

Example demo_tampered :
  validate_termination_record toy_sha (JObj (dset "logical_instance_id" (JStr "p1")
    (demo_sealed toy_sha "p0" 1))) None = Raise ValueError.
Proof. vm_compute. reflexivity. Qed.

Lemma termination_records_prove_world_witness :
  NoDup (names (demo_records toy_sha) "pod_uid") ∧ Forall (Terminated toy_sha (Some "gen1")) (demo_records toy_sha).
Proof.
  destruct (termination_records_prove_world toy_sha (JObj <$> demo_records toy_sha) "gen1"
    {["p0"; "p1"; "d0"; "d1"]} (demo_records toy_sha)) as [Hv _].
  - vm_compute. reflexivity.
  - destruct Hv as (_ & HT & _ & _ & _ & Hp & _); [vm_compute; reflexivity|]. by split.
Defined.
