(* ===== verification/TopologyAdmin.v ===== *)
(** * Accepting a replacement world (gateway/topology_admin.py)

    The ledger that decides whether a restarted set of workers may replace the
    published one.  A request body is the JSON object it arrives as;
    [body["x"]] raises KeyError when the key is missing.  Registries are
    objects compared by identity, so they live in a heap by address.

    [sha] and [sha_raw] are the hexadecimal SHA-256 of the canonical text of a
    value, with and without ASCII escaping; [repr] is the text Python gives of
    floats, lists and objects; [now] is the clock a report is received at.
    The dataclass [PairCapability] takes field values of any type; the registry's
    model has them typed, so what it makes of a value with other
    types is the parameter [untyped_capability]. *)

From S2P Require Import Prelude PyDict Json WorkerRegistry Termination.
From stdpp Require Import prelude gmap strings.

Local Open Scope Z_scope.

(** ** Worker identities on the wire *)

Definition WORKER_IDENTITY_STRING_FIELDS : list string :=
  ["instance_id"; "role"; "topology_generation"; "pod_uid"; "process_generation";
   "rpc_endpoint"; "topology_digest"; "kv_compatibility_id"].
Definition WORKER_IDENTITY_FIELDS : list string :=
  ["instance_id"; "role"; "topology_generation"; "pod_uid"; "process_generation";
   "rpc_endpoint"; "global_rank"; "topology_digest"; "kv_compatibility_id"].
Definition WORKER_IDENTITY_WIRE_FIELDS : list string :=
  WORKER_IDENTITY_FIELDS ++ ["instance_epoch"].

Definition parse_worker_identity (value : json) : result exn WorkerIdentity :=
  match value with
  | JObj d =>
      _ ← need (forallb (λ f, dmem f d) WORKER_IDENTITY_FIELDS);
      _ ← need (forallb (λ k, bool_decide (k ∈ WORKER_IDENTITY_WIRE_FIELDS)) (dkeys d));
      _ ← need (forallb (λ f, bool_decide (is_Some (as_str (jget f d))))
                  WORKER_IDENTITY_STRING_FIELDS);
      match jget "global_rank" d with
      | JInt rank =>
          let w := mkWorkerIdentity (str_of d "instance_id") (str_of d "role")
            (str_of d "topology_generation") (str_of d "pod_uid")
            (str_of d "process_generation") (str_of d "rpc_endpoint") rank
            (str_of d "topology_digest") (str_of d "kv_compatibility_id") in
          _ ← (if dmem "instance_epoch" d
               then match jget "instance_epoch" d with
                    | JStr e => need (bool_decide (e = wi_instance_epoch w))
                    | _ => Raise ValueError
                    end
               else mret tt);
          mret w
      | _ => Raise ValueError
      end
  | _ => Raise ValueError
  end.

Definition worker_identity_wire (w : WorkerIdentity) : odict string json :=
  [("instance_id", JStr (wi_instance_id w)); ("role", JStr (wi_role w));
   ("topology_generation", JStr (wi_topology_generation w));
   ("pod_uid", JStr (wi_pod_uid w));
   ("process_generation", JStr (wi_process_generation w));
   ("rpc_endpoint", JStr (wi_rpc_endpoint w)); ("global_rank", JInt (wi_global_rank w));
   ("topology_digest", JStr (wi_topology_digest w));
   ("kv_compatibility_id", JStr (wi_kv_compatibility_id w));
   ("instance_epoch", JStr (wi_instance_epoch w))].

(** ** The ledger *)

Record RestartRunRecord := mkRestartRunRecord {
  rn_restart_run_id : string;
  rn_old_topology_generation : string;
  rn_new_topology_generation : string;
  rn_termination_proof_digests : list string;
  rn_fresh_resource_report_digests : list string;
  rn_pair_probe_digests : list string;
  rn_decision_digest : string;
  rn_accepted : bool }.

#[export] Instance RestartRunRecord_eq_dec : EqDecision RestartRunRecord.
Proof. solve_decision. Defined.

Definition registry_id : Type := nat.

Record TopologyAcceptanceLedger := mkLedger {
  lg_heap : gmap registry_id WorkerRegistry;
  lg_registry : registry_id;
  lg_cap : Z;
  lg_records : odict string RestartRunRecord }.

#[export] Instance TopologyAcceptanceLedger_eta : Eta TopologyAcceptanceLedger := λ r,
  mkLedger (lg_heap r) (lg_registry r) (lg_cap r) (lg_records r).

Definition set_lg_heap (v : gmap registry_id WorkerRegistry) (r : TopologyAcceptanceLedger) :
  TopologyAcceptanceLedger := ltac:(with_field r lg_heap v).
Definition set_lg_registry (v : registry_id) (r : TopologyAcceptanceLedger) :
  TopologyAcceptanceLedger := ltac:(with_field r lg_registry v).
Definition set_lg_records (v : odict string RestartRunRecord) (r : TopologyAcceptanceLedger) :
  TopologyAcceptanceLedger := ltac:(with_field r lg_records v).

Definition new_TopologyAcceptanceLedger (heap : gmap registry_id WorkerRegistry)
    (registry : registry_id) (cap : Z) : result exn TopologyAcceptanceLedger :=
  _ ← need (bool_decide (0 < cap)); mret (mkLedger heap registry cap []).

(** [self.registry], and the generation a registry publishes. *)
Definition lg_active (L : TopologyAcceptanceLedger) : option WorkerRegistry :=
  lg_heap L !! lg_registry L.
Definition generation_of (a : registry_id) (L : TopologyAcceptanceLedger) : option string :=
  expected_topology_generation <$> lg_heap L !! a.

(** [body[k]] *)
Definition item (k : string) (body : odict string json) : result exn json :=
  match dget k body with Some v => Ok v | None => Raise KeyError end.

(** [for x in v] *)
Definition iterate (v : json) : result exn (list json) :=
  match py_iter v with Some l => Ok l | None => Raise TypeError end.

(** One element of the sequence given to [dict()]. *)
Definition dict_entry (v : json) : result exn (json * json) :=
  l ← iterate v;
  match l with
  | [k; x] => match k with JList _ | JObj _ => Raise TypeError | _ => mret (k, x) end
  | _ => Raise ValueError
  end.

(** [dict(v)] whose keys must be the four members. *)
Definition reports_of (v : json) : result exn (odict string json) :=
  d ← match v with
      | JObj d => mret d
      | _ =>
          l ← iterate v;
          kvs ← mapR dict_entry l;
          match mapM (λ kv : json * json, (λ s, (s, kv.2)) <$> as_str kv.1) kvs with
          | Some d => mret (dict_of d)
          | None => Raise ValueError
          end
      end;
  _ ← need (bool_decide (list_to_set (dkeys d) = dom EXPECTED_MEMBERS));
  mret d.

Definition CAPABILITY_FIELDS : list string :=
  ["pair_id"; "source_epoch"; "target_epoch"; "transport"; "probe_generation"; "probe_passed";
   "evidence_path"].

Definition typed_capability (d : odict string json) : option PairCapability :=
  pair_id ← as_str (jget "pair_id" d);
  source_epoch ← as_str (jget "source_epoch" d);
  target_epoch ← as_str (jget "target_epoch" d);
  transport ← as_str (jget "transport" d);
  probe_generation ← as_str (jget "probe_generation" d);
  probe_passed ← match jget "probe_passed" d with JBool b => Some b | _ => None end;
  evidence_path ← as_str (jget "evidence_path" d);
  Some (mkPairCapability pair_id source_epoch target_epoch transport probe_generation
          probe_passed evidence_path).

Section ledger.
Context (sha sha_raw : json → string) (repr : json → string).
Context (untyped_capability : odict string json → result exn PairCapability).
Context (now : string → Z).

Implicit Types (L : TopologyAcceptanceLedger).

Abbreviation py_str := (py_str repr).

(** [PairCapability] called with the fields of [value] *)
Definition capability_of (value : json) : result exn PairCapability :=
  match value with
  | JObj d =>
      if negb (keys_are d CAPABILITY_FIELDS) then Raise TypeError
      else match typed_capability d with
      | Some cap => Ok cap
      | None => untyped_capability d
      end
  | _ => Raise TypeError
  end.

Definition validate_physical_termination_records (body : odict string json) :
    result exn (list (odict string json)) :=
  match jget "termination_records" body, jget "old_topology_generation" body with
  | JList values, JStr old_generation =>
      _ ← need (truthy old_generation);
      validate_termination_records sha_raw values old_generation (dom EXPECTED_MEMBERS)
  | _, _ => Raise ValueError
  end.

(** The loop over [terminations]: the proof is of the old member's process. *)
Definition bind_termination (old : gmap string WorkerIdentity) (value : odict string json) :
    result exn unit :=
  match old !! str_of value "logical_instance_id" with
  | None => Raise KeyError
  | Some w =>
      _ ← need (bool_decide (str_of value "pod_uid" = wi_pod_uid w));
      need (bool_decide (str_of value "process_generation" = wi_process_generation w))
  end.

(** The loop over [identities]: the pod is a new one. *)
Definition fresh_pod (old : gmap string WorkerIdentity) (w : WorkerIdentity) : result exn unit :=
  match old !! wi_instance_id w with
  | None => Raise KeyError
  | Some w' => need (bool_decide (wi_pod_uid w ≠ wi_pod_uid w'))
  end.

Definition parse_identities (body : odict string json) (old : gmap string WorkerIdentity)
    (new_generation : string) : result exn (list WorkerIdentity) :=
  v ← item "identities" body;
  match v with
  | JList values =>
      _ ← need (bool_decide (length values = 4%nat));
      identities ← mapR parse_worker_identity values;
      _ ← need (bool_decide (list_to_set (wi_instance_id <$> identities)
                             = dom EXPECTED_MEMBERS));
      _ ← need (forallb (λ w, bool_decide (wi_topology_generation w = new_generation))
                  identities);
      _ ← mapR (fresh_pod old) identities;
      mret identities
  | _ => Raise ValueError
  end.

(** The capabilities, each with the value it came from. *)
Definition parse_capabilities (body : odict string json) :
    result exn (list (PairCapability * json)) :=
  v ← item "pair_capabilities" body;
  values ← iterate v;
  caps ← mapR capability_of values;
  _ ← need (bool_decide (length caps = 5%nat)
            && bool_decide (list_to_set (pc_pair_id <$> caps) = EXPECTED_PAIRS));
  mret (zip caps values).

(** [{str(x) for x in values}] without repetitions *)
Definition unique_ids (values : list json) : result exn (gset string) :=
  let ids := list_to_set (py_str <$> values) : gset string in
  _ ← need (bool_decide (size ids = length values)); mret ids.

(** The operations and resources of the old world. *)
Definition old_ids (body : odict string json) : result exn (gset string * gset string) :=
  match dget "old_operation_ids" body, dget "old_resource_ids" body with
  | Some (JList operations), Some (JList resources) =>
      ops ← unique_ids operations; res ← unique_ids resources; mret (ops, res)
  | _, _ => Raise ValueError
  end.

(** [{str(x) for x in report.get(k, ())}] *)
Definition report_ids (k : string) (report : odict string json) : result exn (gset string) :=
  match dget k report with
  | None => mret ∅
  | Some v => l ← iterate v; mret (list_to_set (py_str <$> l))
  end.

(** [sorted(ids)] as the value a report is compared with. *)
Definition sorted_ids (ids : gset string) : json :=
  JList (JStr <$> sort_by String.le id (elements ids)).

(** What a report may not mention, and must exclude. *)
Definition excludes (old : gset string * gset string) (report : odict string json) :
    result exn unit :=
  operation_ids ← report_ids "operation_ids" report;
  resource_ids ← report_ids "resource_ids" report;
  _ ← need (bool_decide (operation_ids ∩ old.1 = ∅) && bool_decide (resource_ids ∩ old.2 = ∅));
  _ ← need (py_eqb (jget "excluded_operation_ids" report) (sorted_ids old.1));
  need (py_eqb (jget "excluded_resource_ids" report) (sorted_ids old.2)).

(** The loop over [reports]. *)
Fixpoint install_reports (reports : odict string json) (old : gset string * gset string)
    (candidate : WorkerRegistry) : result exn WorkerRegistry :=
  match reports with
  | [] => mret candidate
  | (instance, JObj report) :: rest =>
      let '(accepted, candidate') :=
        update_resource_report instance report None (now instance) candidate in
      _ ← need accepted;
      _ ← excludes old report;
      install_reports rest old candidate'
  | _ => Raise AttributeError
  end.

(** The registry of the new world, with [active]'s requirements. *)
Definition build_candidate (active : WorkerRegistry) (new_generation : string)
    (identities : list WorkerIdentity) (caps : list PairCapability)
    (reports : odict string json) (old : gset string * gset string) :
    result exn WorkerRegistry :=
  empty ← new_WorkerRegistry new_generation (expected_kv_compatibility_id active)
            (expected_model_profile active) (require_gpudirect_rdma active)
            (resource_report_stale_after active);
  match install_world identities caps empty with
  | (Raise e, _) => Raise e
  | (Ok false, _) => Raise ValueError
  | (Ok true, candidate) => install_reports reports old candidate
  end.

(** [stage] for a run that is not in the ledger. *)
Definition stage_new (body : odict string json) (run_id decision_digest : string)
    (active : WorkerRegistry) : result exn (RestartRunRecord * WorkerRegistry) :=
  v ← item "old_topology_generation" body;
  let old_generation := py_str v in
  _ ← need (bool_decide (old_generation = expected_topology_generation active));
  v ← item "new_topology_generation" body;
  let new_generation := py_str v in
  _ ← need (bool_decide (new_generation ≠ old_generation));
  terminations ← validate_physical_termination_records body;
  _ ← mapR (bind_termination (members active)) terminations;
  identities ← parse_identities body (members active) new_generation;
  caps ← parse_capabilities body;
  v ← item "resource_reports" body;
  reports ← reports_of v;
  old ← old_ids body;
  candidate ← build_candidate active new_generation identities caps.*1 reports old;
  mret (mkRestartRunRecord run_id old_generation new_generation
          ((λ r, digest sha (JObj r)) <$> terminations)
          ((λ kv, digest sha kv.2) <$> sort_by String.le fst reports)
          ((λ cv, digest sha cv.2) <$> sort_by String.le (λ cv, pc_pair_id cv.1) caps)
          decision_digest true,
        candidate).

Definition stage (body : odict string json) :
    method TopologyAcceptanceLedger (RestartRunRecord * registry_id * bool) := λ L,
  match item "restart_run_id" body with
  | Raise e => (Raise e, L)
  | Ok v =>
      let run_id := py_str v in
      let decision_digest := digest sha (JObj body) in
      match dget run_id (lg_records L) with
      | Some existing =>
          if bool_decide (rn_decision_digest existing ≠ decision_digest)
          then (Raise ValueError, L)
          else (Ok (existing, lg_registry L, true),
                set_lg_records (dmove_end run_id existing (lg_records L)) L)
      | None =>
          match lg_active L with
          | None => (Raise AttributeError, L)
          | Some active =>
              match stage_new body run_id decision_digest active with
              | Raise e => (Raise e, L)
              | Ok (record, candidate) =>
                  let a := fresh (dom (lg_heap L)) in
                  (Ok (record, a, false), set_lg_heap (<[a := candidate]> (lg_heap L)) L)
              end
          end
      end
  end.

(** [self.records[run] = record], moved to the end, and the oldest dropped. *)
Definition remember (record : RestartRunRecord) (L : TopologyAcceptanceLedger) :
    TopologyAcceptanceLedger :=
  set_lg_records (dtrim (lg_cap L) (dmove_end (rn_restart_run_id record) record (lg_records L))) L.

Definition commit (record : RestartRunRecord) (candidate : registry_id) :
    method TopologyAcceptanceLedger unit := λ L,
  match dget (rn_restart_run_id record) (lg_records L) with
  | Some existing =>
      if bool_decide (existing ≠ record) || bool_decide (lg_registry L ≠ candidate)
      then (Raise ValueError, L) else (Ok tt, L)
  | None =>
      if bool_decide (generation_of (lg_registry L) L ≠ Some (rn_old_topology_generation record))
      then (Raise ValueError, L)
      else if bool_decide (generation_of candidate L ≠ Some (rn_new_topology_generation record))
      then (Raise ValueError, L)
      else (Ok tt, set_lg_registry candidate (remember record L))
  end.

Definition is_committed (record : RestartRunRecord) L : bool :=
  bool_decide (dget (rn_restart_run_id record) (lg_records L) = Some record)
  && bool_decide (generation_of (lg_registry L) L = Some (rn_new_topology_generation record)).

Definition recover_committed_run (record : RestartRunRecord) :
    method TopologyAcceptanceLedger unit := λ L,
  match dget (rn_restart_run_id record) (lg_records L) with
  | Some existing =>
      if bool_decide (existing ≠ record) then (Raise ValueError, L)
      else (Ok tt, set_lg_records (dmove_end (rn_restart_run_id record) existing (lg_records L)) L)
  | None =>
      if bool_decide (generation_of (lg_registry L) L ≠ Some (rn_new_topology_generation record))
      then (Raise ValueError, L)
      else if bool_decide (rn_old_topology_generation record = rn_new_topology_generation record)
      then (Raise ValueError, L)
      else (Ok tt, remember record L)
  end.

Definition rollback (record : RestartRunRecord) (candidate old_registry : registry_id) :
    method TopologyAcceptanceLedger unit := λ L,
  if bool_decide (dget (rn_restart_run_id record) (lg_records L) ≠ Some record) then (Ok tt, L)
  else if bool_decide (lg_registry L ≠ candidate) then (Raise ValueError, L)
  else (Ok tt, set_lg_registry old_registry
                 (set_lg_records (dpop (rn_restart_run_id record) (lg_records L)) L)).

Definition accept (body : odict string json) :
    method TopologyAcceptanceLedger (RestartRunRecord * registry_id) :=
  x ← stage body;
  let '(record, candidate, replay) := x in
  _ ← (if replay : bool then mret tt else commit record candidate);
  mret (record, candidate).
End ledger.

(** ** Identities: parse and print *)

Lemma wire_keys w : dkeys (worker_identity_wire w) = 
  ["instance_id"; "role"; "topology_generation"; "pod_uid"; "process_generation";
   "rpc_endpoint"; "global_rank"; "topology_digest"; "kv_compatibility_id"; "instance_epoch"].
Proof. done. Qed.

Lemma wire_key k x w : dget k (worker_identity_wire w) = Some x → k ∈ WORKER_IDENTITY_WIRE_FIELDS.
Proof.
  intros Hk. apply dget_Some_keys in Hk. rewrite wire_keys in Hk. revert Hk.
  unfold WORKER_IDENTITY_WIRE_FIELDS, WORKER_IDENTITY_FIELDS. set_solver.
Qed.

(** [v] says nothing but [w], and everything of it. *)
Definition says (v : json) (w : WorkerIdentity) : Prop :=
  ∃ d, v = JObj d
    ∧ (∀ k x, dget k d = Some x → dget k (worker_identity_wire w) = Some x)
    ∧ (∀ k, k ∈ WORKER_IDENTITY_FIELDS → is_Some (dget k d)).

(** The string fields are fields, and are printed as strings. *)
Lemma string_fields k w :
  k ∈ WORKER_IDENTITY_STRING_FIELDS →
  k ∈ WORKER_IDENTITY_FIELDS ∧ is_Some (as_str (jget k (worker_identity_wire w))).
Proof.
  revert k. apply Forall_forall. unfold WORKER_IDENTITY_STRING_FIELDS.
  repeat (apply Forall_cons; split; [split; [|by eexists]|]); [..|by apply Forall_nil];
    apply (bool_decide_eq_true_1 (_ ∈ WORKER_IDENTITY_FIELDS)); vm_compute; reflexivity.
Qed.

Ltac identity_field := apply (bool_decide_eq_true_1 (_ ∈ WORKER_IDENTITY_FIELDS));
  vm_compute; reflexivity.

Lemma parse_complete v w : says v w → parse_worker_identity v = Ok w.
Proof.
  intros (d & -> & Hsub & Hall). unfold parse_worker_identity.
  assert (∀ k, k ∈ WORKER_IDENTITY_FIELDS → dget k d = dget k (worker_identity_wire w)) as Hf.
  { intros k [x Hx]%Hall. by rewrite Hx, (Hsub _ _ Hx). }
  assert (∀ k, k ∈ WORKER_IDENTITY_FIELDS → jget k d = jget k (worker_identity_wire w)) as Hj
    by (intros k Hk; unfold jget; by rewrite Hf).
  assert (∀ k, k ∈ WORKER_IDENTITY_FIELDS → str_of d k = str_of (worker_identity_wire w) k) as Hs
    by (intros k Hk; unfold str_of; by rewrite Hj).
  rewrite !need_then. split_and!.
  - apply forallb_forall. intros k Hk%list_elem_of_In. apply dmem_true, dget_is_Some. auto.
  - apply forallb_forall. intros k Hk%list_elem_of_In. apply bool_decide_eq_true.
    apply dget_is_Some in Hk as [x Hx]. by eapply wire_key, Hsub.
  - apply forallb_forall. intros k Hk%list_elem_of_In. apply bool_decide_eq_true.
    destruct (string_fields k w Hk) as [Hk' Hw]. by rewrite Hj.
  - rewrite Hj, !Hs by identity_field. simpl. unfold str_of. simpl.
    apply bind_Ok. exists tt. split; [|by destruct w].
    destruct (dmem "instance_epoch" d) eqn:Hm; [|done].
    apply dmem_true, dget_is_Some in Hm as [x Hx]. unfold jget. rewrite Hx. simpl.
    apply Hsub in Hx. injection Hx as <-. apply need_Ok. by apply bool_decide_eq_true.
Qed.

Lemma parse_sound v w : parse_worker_identity v = Ok w → says v w.
Proof.
  destruct v as [| | | | | |d]; try done. unfold parse_worker_identity.
  rewrite !need_then, !forallb_forall. setoid_rewrite bool_decide_eq_true.
  setoid_rewrite dmem_true. setoid_rewrite <- dget_is_Some. setoid_rewrite <- list_elem_of_In.
  intros (Hall & Hkeys & Hstr & HR). exists d. split; [done|]. split; [|exact Hall].
  assert (∀ k, k ∈ WORKER_IDENTITY_STRING_FIELDS → dget k d = Some (JStr (str_of d k))) as Hs.
  { intros k Hk. destruct (Hstr k Hk) as [s Hs]. unfold str_of. rewrite Hs. simpl.
    unfold jget in Hs. destruct (dget k d) as [[]|]; naive_solver. }
  destruct (Hall "global_rank") as [gr Hgr]; [identity_field|].
  unfold jget in HR at 1. rewrite Hgr in HR. simpl in HR.
  destruct gr as [| |rank| | | |]; try done.
  apply bind_Ok in HR as ([] & Hep & [= <-]).
  intros k x Hk. pose proof (Hkeys k (proj1 (dget_is_Some _ _) (ex_intro _ x Hk))) as Hin.
  destruct (decide (k ∈ WORKER_IDENTITY_STRING_FIELDS)) as [Hsf|Hsf].
  - rewrite Hs in Hk by done. injection Hk as <-. revert Hsf. clear.
    revert k. apply Forall_forall. unfold WORKER_IDENTITY_STRING_FIELDS.
    repeat (apply Forall_cons; split; [reflexivity|]). by apply Forall_nil.
  - assert (k = "global_rank" ∨ k = "instance_epoch") as [-> | ->].
    { revert Hin Hsf. unfold WORKER_IDENTITY_WIRE_FIELDS, WORKER_IDENTITY_STRING_FIELDS,
        WORKER_IDENTITY_FIELDS. clear. set_solver. }
    + rewrite Hgr in Hk. by injection Hk as <-.
    + assert (dmem "instance_epoch" d = true) as Hm by (apply dmem_true, dget_is_Some; eauto).
      rewrite Hm in Hep. unfold jget in Hep. rewrite Hk in Hep. simpl in Hep.
      destruct x as [| | | |e| |]; try done. apply need_Ok, bool_decide_eq_true in Hep.
      by rewrite Hep.
Qed.

(** Worker identities survive the wire.  What [worker_identity_wire]
    prints is parsed back to the same identity; and [parse_worker_identity]
    returns an identity exactly for the objects that hold all nine fields and
    agree with what is printed of it on every key they have, so that an
    unknown key, a missing or mistyped field or a wrong derived epoch is
    refused, always with a ValueError. *)
Theorem identity_wire_roundtrip :
  (∀ w, parse_worker_identity (JObj (worker_identity_wire w)) = Ok w)
  ∧ (∀ v w, parse_worker_identity v = Ok w ↔ says v w)
  ∧ (∀ v, only_value_error (parse_worker_identity v)).
Proof.
  split_and!.
  - intros w. apply parse_complete. exists (worker_identity_wire w). split; [done|].
    split; [done|]. apply Forall_forall. unfold WORKER_IDENTITY_FIELDS.
    repeat (apply Forall_cons; split; [by eexists|]). by apply Forall_nil.
  - split; [apply parse_sound|apply parse_complete].
  - intros v. destruct v as [| | | | | |d]; unfold parse_worker_identity; only_value.
    destruct (jget "global_rank" d); only_value.
    destruct (dmem "instance_epoch" d); only_value. destruct (jget "instance_epoch" d); only_value.
Qed.

(** ** What a staged replacement has been shown *)

Section proven.
Context (sha sha_raw : json → string) (repr : json → string).
Context (untyped_capability : odict string json → result exn PairCapability).
Context (now : string → Z).

(** The registries differ in what was reported to them only. *)
Definition same_world (r r' : WorkerRegistry) : Prop :=
  expected_topology_generation r' = expected_topology_generation r
  ∧ expected_kv_compatibility_id r' = expected_kv_compatibility_id r
  ∧ expected_model_profile r' = expected_model_profile r
  ∧ require_gpudirect_rdma r' = require_gpudirect_rdma r
  ∧ resource_report_stale_after r' = resource_report_stale_after r
  ∧ reg_state r' = reg_state r ∧ members r' = members r ∧ capabilities r' = capabilities r.

Lemma same_world_refl r : same_world r r.
Proof. done. Qed.
Lemma same_world_trans r1 r2 r3 : same_world r1 r2 → same_world r2 r3 → same_world r1 r3.
Proof.
  intros (?&?&?&?&?&?&?&?) (?&?&?&?&?&?&?&?). unfold same_world. split_and!; by etrans.
Qed.

Lemma update_report_same i rep at_ t r :
  same_world r (update_resource_report i rep at_ t r).2.
Proof. unfold update_resource_report. by repeat case_match. Qed.

(** [r] holds a report of [i], received at [now i], that excludes [old]. *)
Definition reported (old : gset string * gset string) (i : string) (r : WorkerRegistry) : Prop :=
  ∃ signal rep, resources r !! i = Some signal ∧ rs_received_at signal = Some (now i)
    ∧ rs_report signal = Some rep ∧ excludes repr old rep = Ok tt.

Lemma install_reports_spec reports old r r' :
  install_reports repr now reports old r = Ok r' →
  same_world r r' ∧ ∀ i, i ∈ dkeys reports ∨ reported old i r → reported old i r'.
Proof.
  revert r. induction reports as [|[i v] reports IH]; intros r; simpl.
  { intros [= <-]. split; [done|]. intros i [?%elem_of_nil|?]; done. }
  destruct v as [| | | | | |rep]; try done.
  destruct (update_resource_report i rep None (now i) r) as [acc r1] eqn:Hu.
  rewrite need_then. intros [-> HR]. apply bind_Ok in HR as ([] & Hex & HR).
  apply IH in HR as [Hs Hrep].
  pose proof (update_report_same i rep None (now i) r) as Hs1. rewrite Hu in Hs1.
  split; [by eapply same_world_trans|]. intros j Hj. apply Hrep.
  assert (resources r1 = <[i := mkResourceSignal (freshness r 0)
    (wi_instance_epoch <$> members r !! i) (Some (now i)) (Some rep) (Some 0)]> (resources r)) as Hr1.
  { revert Hu. unfold update_resource_report. destruct (members r !! i) as [w|]; [|done].
    destruct (negb _); [done|]. simpl. rewrite bool_decide_eq_false_2 by lia.
    intros [= <-]. simpl. replace (Z.max 0 (now i - now i)) with 0 by lia. done. }
  destruct (decide (j = i)) as [->|Hne].
  - right. eexists _, rep. rewrite Hr1, lookup_insert_eq. done.
  - destruct Hj as [[->|Hj]%elem_of_cons|Hj]; [done|by left|]. right.
    destruct Hj as (sg & rp & Hsg & Hrest). exists sg, rp.
    by rewrite Hr1, lookup_insert_ne.
Qed.

Lemma build_candidate_spec active gen ids caps reports old c :
  build_candidate repr now active gen ids caps reports old = Ok c →
  expected_topology_generation c = gen
  ∧ expected_kv_compatibility_id c = expected_kv_compatibility_id active
  ∧ expected_model_profile c = expected_model_profile active
  ∧ require_gpudirect_rdma c = require_gpudirect_rdma active
  ∧ resource_report_stale_after c = resource_report_stale_after active
  ∧ 0 < resource_report_stale_after c
  ∧ reg_state c = READY ∧ members c = by_id ids
  ∧ World c (members c) (capabilities c)
  ∧ ∀ i, i ∈ dkeys reports → reported old i c.
Proof.
  unfold build_candidate. intros (e & He & HR)%bind_Ok. unfold new_WorkerRegistry in He.
  case_bool_decide; [done|]. case_bool_decide as Hst; [done|]. injection He as <-.
  unfold install_world in HR.
  destruct (world_valid _ (by_id ids) (by_pair caps)) as [[]|] eqn:Hv; try done.
  apply world_valid_spec in Hv.
  apply install_reports_spec in HR as [(Hg & Hk & Hp & Hq & Hs & Hst' & Hm & Hc) Hrep].
  simpl in *. rewrite Hg, Hk, Hp, Hq, Hs, Hst', Hm, Hc. split_and!; try done; try lia.
  - by eapply world_static; [..|exact Hv].
  - intros i Hi. apply Hrep. by left.
Qed.

Lemma parse_identities_spec body old gen ids :
  parse_identities body old gen = Ok ids →
  ∀ i w', by_id ids !! i = Some w' →
    ∃ w, old !! i = Some w ∧ wi_pod_uid w' ≠ wi_pod_uid w.
Proof.
  unfold parse_identities. intros (v & _ & HR)%bind_Ok. destruct v as [| | | | |vs|]; try done.
  rewrite need_then in HR. destruct HR as [_ HR].
  apply bind_Ok in HR as (ids' & _ & HR). rewrite !need_then in HR. destruct HR as (_ & _ & HR).
  apply bind_Ok in HR as (us & Hfresh & [= <-]). intros i w' Hi.
  pose proof (by_id_key _ _ _ Hi) as <-. apply by_id_elem, list_elem_of_lookup in Hi as [n Hn].
  apply mapR_Ok in Hfresh. destruct (Forall2_lookup_l _ _ _ _ _ Hfresh Hn) as ([] & _ & Hf).
  unfold fresh_pod in Hf. destruct (old !! wi_instance_id w') as [w|] eqn:Hw; [|done].
  apply need_Ok, bool_decide_eq_true in Hf. eauto.
Qed.

(** The old worker [w] of instance [i] is proven gone by a record of [records],
    and the new world has another pod in its place, whose report is current and
    excludes the old operations and resources. *)
Definition worker_replaced (records : list (odict string json)) (old : gset string * gset string)
    (gen : string) (candidate : WorkerRegistry) (i : string) (w : WorkerIdentity) : Prop :=
  (∃ r, r ∈ records ∧ Terminated sha_raw (Some gen) r
     ∧ str_of r "logical_instance_id" = i ∧ str_of r "pod_uid" = wi_pod_uid w
     ∧ str_of r "process_generation" = wi_process_generation w)
  ∧ (∃ w', members candidate !! i = Some w' ∧ wi_pod_uid w' ≠ wi_pod_uid w)
  ∧ can_admit candidate (now i) i = true
  ∧ reported old i candidate.

Record proven_replacement (body : odict string json) (active candidate : WorkerRegistry) : Prop := {
  pv_generation : expected_topology_generation candidate ≠ expected_topology_generation active;
  pv_requirements : expected_kv_compatibility_id candidate = expected_kv_compatibility_id active
    ∧ expected_model_profile candidate = expected_model_profile active
    ∧ require_gpudirect_rdma candidate = require_gpudirect_rdma active
    ∧ resource_report_stale_after candidate = resource_report_stale_after active;
  pv_world : reg_state candidate = READY
    ∧ World candidate (members candidate) (capabilities candidate);
  pv_workers : ∃ records old, jget "termination_records" body = JList (JObj <$> records)
    ∧ old_ids repr body = Ok old
    ∧ ∀ i, is_Some (EXPECTED_MEMBERS !! i) → ∃ w, members active !! i = Some w
        ∧ worker_replaced records old (expected_topology_generation active) candidate i w }.

Lemma reported_admitted old i c :
  reported old i c → reg_state c = READY → 0 < resource_report_stale_after c →
  can_admit c (now i) i = true.
Proof.
  intros (sg & rep & Hsg & Hat & _) Hst Hpos. unfold can_admit, resource_signal.
  rewrite Hsg, Hat, Hst. simpl. unfold freshness.
  rewrite (bool_decide_eq_true_2 (_ ≤ _)) by lia. done.
Qed.

Lemma validate_physical_spec body records :
  validate_physical_termination_records sha_raw body = Ok records →
  ∃ gen, jget "old_topology_generation" body = JStr gen
    ∧ jget "termination_records" body = JList (JObj <$> records)
    ∧ Forall (Terminated sha_raw (Some gen)) records
    ∧ ∀ i, is_Some (EXPECTED_MEMBERS !! i) →
        ∃ r, r ∈ records ∧ str_of r "logical_instance_id" = i.
Proof.
  unfold validate_physical_termination_records.
  destruct (jget "termination_records" body) as [| | | | |vs|]; try done.
  destruct (jget "old_topology_generation" body) as [| | | |gen| |]; try done.
  rewrite need_then. intros [_ HR]. apply validate_records_iff in HR; [|vm_compute; reflexivity].
  destruct HR as (-> & HT & _ & Hn & _). exists gen. split_and!; try done.
  intros i Hi%elem_of_dom. rewrite <- Hn, elem_of_list_to_set in Hi. unfold names in Hi.
  apply list_elem_of_fmap in Hi as (r & -> & Hr). eauto.
Qed.

Lemma bind_terminations old records us :
  mapR (bind_termination old) records = Ok us →
  ∀ r, r ∈ records → ∃ w, old !! str_of r "logical_instance_id" = Some w
    ∧ str_of r "pod_uid" = wi_pod_uid w
    ∧ str_of r "process_generation" = wi_process_generation w.
Proof.
  intros Hm%mapR_Ok r [n Hn]%list_elem_of_lookup.
  destruct (Forall2_lookup_l _ _ _ _ _ Hm Hn) as ([] & _ & Hb). unfold bind_termination in Hb.
  destruct (old !! _) as [w|]; [|done]. rewrite need_then, need_Ok, !bool_decide_eq_true in Hb.
  naive_solver.
Qed.

Lemma reports_of_keys v d :
  reports_of v = Ok d → ∀ i, is_Some (EXPECTED_MEMBERS !! i) → i ∈ dkeys d.
Proof.
  unfold reports_of. intros (d' & _ & HR)%bind_Ok. rewrite need_then, bool_decide_eq_true in HR.
  destruct HR as [Hd [= <-]]. intros i Hi%elem_of_dom. rewrite <- Hd in Hi.
  by apply elem_of_list_to_set in Hi.
Qed.

Lemma stage_new_proven body run dd active record candidate :
  stage_new sha sha_raw repr untyped_capability now body run dd active = Ok (record, candidate) →
  rn_restart_run_id record = run ∧ rn_decision_digest record = dd
  ∧ rn_old_topology_generation record = expected_topology_generation active
  ∧ rn_new_topology_generation record = expected_topology_generation candidate
  ∧ proven_replacement body active candidate.
Proof.
  unfold stage_new. intros (vo & Hvo & HR)%bind_Ok. rewrite need_then, bool_decide_eq_true in HR.
  destruct HR as [Hold HR]. apply bind_Ok in HR as (vn & _ & HR).
  rewrite need_then, bool_decide_eq_true in HR. destruct HR as [Hne HR].
  apply bind_Ok in HR as (records & Hrec & HR). apply bind_Ok in HR as (us & Hbind & HR).
  apply bind_Ok in HR as (ids & Hids & HR). apply bind_Ok in HR as (caps & _ & HR).
  apply bind_Ok in HR as (vr & _ & HR). apply bind_Ok in HR as (reports & Hrep & HR).
  apply bind_Ok in HR as (old & Hids_old & HR). apply bind_Ok in HR as (c & Hc & HR).
  injection HR as <- <-. simpl. rewrite Hold in *.
  apply build_candidate_spec in Hc as (Hg & Hk & Hp & Hq & Hs & Hpos & Hst & Hm & Hw & Hr).
  split_and!; try done. split; [congruence|done|done|].
  apply validate_physical_spec in Hrec as (gen & Hgen & Hlist & HT & Hall).
  assert (gen = expected_topology_generation active) as ->.
  { unfold item in Hvo. unfold jget in Hgen. destruct (dget _ body); [|done].
    injection Hvo as ->. simpl in Hgen. subst vo. done. }
  exists records, old. split_and!; try done. intros i Hi.
  destruct (Hall i Hi) as (r & Hin & <-).
  destruct (bind_terminations _ _ _ Hbind r Hin) as (w & Hw1 & Hpod & Hproc).
  exists w. split; [done|]. rewrite Forall_forall in HT.
  pose proof (Hr _ (reports_of_keys _ _ Hrep _ Hi)) as Hreported.
  split_and!; [by exists r; auto| |by eapply reported_admitted|done].
  destruct (proj2 (w_members _ _ _ Hw _) Hi) as [w' Hw']. exists w'. split; [done|].
  rewrite Hm in Hw'. destruct (parse_identities_spec _ _ _ _ Hids _ _ Hw') as (w0 & Hw0 & Hfresh).
  rewrite Hw1 in Hw0. by injection Hw0 as <-.
Qed.
End proven.

(** C28: A replacement world is staged only on complete proof, and staging
    publishes nothing.  When [stage] returns a new candidate, the ledger is as
    before but for the candidate in the heap; the record names the active
    generation and the candidate's, which differ; the candidate is a valid
    READY world under the active registry's requirements; and for each of the
    four members the old process is proven terminated by a sealed record bound
    to its pod and process, the new pod is another one, and its resource
    report is current and excludes every old operation and resource. *)
Theorem staged_replacement_is_proven sha sha_raw repr untyped now body L record a L' :
  stage sha sha_raw repr untyped now body L = (Ok (record, a, false), L') →
  ∃ active candidate, lg_active L = Some active
    ∧ (a ∉ dom (lg_heap L)) ∧ L' = set_lg_heap (<[a := candidate]> (lg_heap L)) L
    ∧ rn_decision_digest record = digest sha (JObj body)
    ∧ rn_old_topology_generation record = expected_topology_generation active
    ∧ rn_new_topology_generation record = expected_topology_generation candidate
    ∧ proven_replacement sha_raw repr now body active candidate.
Proof.
  unfold stage. destruct (item _ body) as [v|]; [|done].
  destruct (dget _ (lg_records L)) as [ex|]; [by case_bool_decide|].
  destruct (lg_active L) as [active|]; [|done].
  destruct (stage_new _ _ _ _ _ _ _ _ _) as [[rec c]|] eqn:Hs; [|done].
  intros [= <- <- <-]. apply stage_new_proven in Hs as (_ & Hd & Ho & Hn & Hp).
  exists active, c. split_and!; try done. apply is_fresh.
Qed.

(** ** The ledger over time *)

Record ledger_wf (L : TopologyAcceptanceLedger) : Prop := {
  lw_dict : dwf (lg_records L);
  lw_keys : ∀ k r, dget k (lg_records L) = Some r → rn_restart_run_id r = k;
  lw_cap : 0 < lg_cap L;
  lw_bound : Z.of_nat (length (lg_records L)) ≤ lg_cap L;
  lw_active : is_Some (lg_active L);
  lw_registries : map_Forall (λ _, reg_wf) (lg_heap L) }.

Lemma remember_wf record L :
  ledger_wf L → ledger_wf (remember record L)
  ∧ ∃ d, d `suffix_of` dpop (rn_restart_run_id record) (lg_records L)
      ∧ lg_records (remember record L) = d ++ [(rn_restart_run_id record, record)].
Proof.
  intros [Hd Hk Hc Hb Ha Hr].
  assert (dwf (dmove_end (rn_restart_run_id record) record (lg_records L))) as Hmv
    by by apply dmove_end_wf.
  destruct (dtrim_spec (lg_cap L) _ ltac:(lia) Hmv) as [Hw Hle]. split; [split; try done|].
  - intros k r Hkr. apply (dget_suffix _ _ _ _ Hmv (dtrim_suffix _ _)) in Hkr.
    rewrite dget_dmove_end in Hkr by done. case_decide; naive_solver.
  - by apply dtrim_last.
Qed.

Lemma move_end_wf L k r :
  ledger_wf L → dget k (lg_records L) = Some r →
  ledger_wf (set_lg_records (dmove_end k r (lg_records L)) L).
Proof.
  intros [Hd Hk Hc Hb Ha Hr] Hkr. split; simpl; try done.
  - by apply dmove_end_wf.
  - intros k' r'. rewrite dget_dmove_end by done. case_decide; naive_solver.
  - unfold dmove_end. rewrite length_app. pose proof (length_dpop k r _ Hd Hkr). simpl. lia.
Qed.

Lemma commit_wf record a L : ledger_wf L → is_Some (lg_heap L !! a) → ledger_wf (commit record a L).2.
Proof.
  intros Hwf Ha. unfold commit. destruct (dget _ (lg_records L)) as [ex|].
  { by destruct (_ || _). }
  do 2 (case_bool_decide; [done|]). simpl.
  destruct (remember_wf record L Hwf) as [[? ? ? ? ? ?] _]. by split.
Qed.

(** Publishing what was just staged succeeds. *)
Lemma commit_staged record a L :
  dget (rn_restart_run_id record) (lg_records L) = None →
  generation_of (lg_registry L) L = Some (rn_old_topology_generation record) →
  generation_of a L = Some (rn_new_topology_generation record) →
  commit record a L = (Ok tt, set_lg_registry a (remember record L)).
Proof.
  intros Hn Ho Hg. unfold commit. rewrite Hn. rewrite !bool_decide_eq_false_2; naive_solver.
Qed.

Lemma dmove_end_last (d : odict string RestartRunRecord) k r :
  dget k d = None → dget k (d ++ [(k, r)]) = Some r ∧ dmove_end k r (d ++ [(k, r)]) = d ++ [(k, r)].
Proof.
  intros Hn. rewrite <- (dset_fresh k r d Hn). split; [apply dget_dset_eq|].
  unfold dmove_end. rewrite dpop_dset, (dpop_fresh k d Hn). by rewrite dset_fresh.
Qed.

Section reachable.
Context (sha sha_raw : json → string) (repr : json → string).
Context (untyped_capability : odict string json → result exn PairCapability).
Context (now : string → Z).

Abbreviation stage := (stage sha sha_raw repr untyped_capability now).
Abbreviation accept := (accept sha sha_raw repr untyped_capability now).

(** The operations, with any arguments, and what the rest of the gateway does
    to the registries between them. *)
Inductive ledger_step (L : TopologyAcceptanceLedger) : TopologyAcceptanceLedger → Prop :=
| ls_stage body : ledger_step L (stage body L).2
| ls_accept body : ledger_step L (accept body L).2
| ls_commit record a : is_Some (lg_heap L !! a) → ledger_step L (commit record a L).2
| ls_recover record : ledger_step L (recover_committed_run record L).2
| ls_rollback record a old : is_Some (lg_heap L !! old) →
    ledger_step L (rollback record a old L).2
| ls_registry a r r' : lg_heap L !! a = Some r → reg_step r r' →
    ledger_step L (set_lg_heap (<[a := r']> (lg_heap L)) L).

Lemma install_reports_wf reports old r r' :
  install_reports repr now reports old r = Ok r' → reg_wf r → reg_wf r'.
Proof.
  revert r. induction reports as [|[i v] reports IH]; intros r; simpl; [by intros [= <-]|].
  destruct v as [| | | | | |rep]; try done.
  pose proof (update_report_wf i rep None (now i) r) as Hu.
  destruct (update_resource_report _ _ _ _ r) as [acc r1]. rewrite need_then.
  intros [_ HR] Hr. apply bind_Ok in HR as ([] & _ & HR). by eapply IH, Hu.
Qed.

Lemma stage_new_wf body run dd active record c :
  stage_new sha sha_raw repr untyped_capability now body run dd active = Ok (record, c) → reg_wf c.
Proof.
  unfold stage_new, build_candidate. intros HR.
  repeat first [apply bind_Ok in HR as (? & ? & HR) | rewrite need_then in HR; destruct HR as [_ HR]].
  injection HR as _ <-. rename select (new_WorkerRegistry _ _ _ _ _ ≫= _ = Ok _) into Hb.
  apply bind_Ok in Hb as (e & He & Hb).
  assert (reg_wf e) as Hwf.
  { unfold new_WorkerRegistry in He. repeat case_bool_decide; try done. injection He as <-. by split. }
  match type of Hb with match install_world ?ids ?caps e with _ => _ end = _ =>
    pose proof (install_world_wf ids caps e Hwf); destruct (install_world ids caps e) as [[[]|] c1] end;
    try done. by eapply install_reports_wf.
Qed.

Lemma stage_wf body L : ledger_wf L → ledger_wf (stage body L).2.
Proof.
  intros Hwf. unfold TopologyAdmin.stage. destruct (item _ body) as [v|]; [|done].
  destruct (dget _ (lg_records L)) as [ex|] eqn:Hg.
  { case_bool_decide; [done|]. by apply move_end_wf. }
  pose proof (lw_active L Hwf) as [active Hact]. rewrite Hact.
  destruct (stage_new _ _ _ _ _ _ _ _ _) as [[rec c]|] eqn:Hs; [|done]. simpl.
  destruct Hwf as [? ? ? ? ? Hr]. split; try done; simpl.
  - unfold lg_active in *. simpl. rewrite lookup_insert_ne; [done|].
    intros Heq. eapply (is_fresh (dom (lg_heap L))). rewrite Heq. by apply elem_of_dom.
  - apply map_Forall_insert_2; [|done]. by eapply stage_new_wf.
Qed.

(** What [stage] returns for a new run. *)
Lemma stage_new_shape body L record a L' :
  stage body L = (Ok (record, a, false), L') →
  ∃ v active candidate, dget "restart_run_id" body = Some v ∧ lg_active L = Some active
    ∧ rn_restart_run_id record = py_str repr v ∧ dget (rn_restart_run_id record) (lg_records L) = None
    ∧ rn_decision_digest record = digest sha (JObj body)
    ∧ rn_old_topology_generation record = expected_topology_generation active
    ∧ rn_new_topology_generation record = expected_topology_generation candidate
    ∧ expected_topology_generation candidate ≠ expected_topology_generation active
    ∧ (a ∉ dom (lg_heap L)) ∧ L' = set_lg_heap (<[a := candidate]> (lg_heap L)) L.
Proof.
  unfold TopologyAdmin.stage, item. destruct (dget "restart_run_id" body) as [v|]; [|done].
  destruct (dget _ (lg_records L)) as [ex|] eqn:Hg; [by case_bool_decide|].
  destruct (lg_active L) as [active|]; [|done].
  destruct (stage_new _ _ _ _ _ _ _ _ _) as [[rec c]|] eqn:Hs; [|done].
  intros [= <- <- <-]. apply stage_new_proven in Hs as (Hr & Hd & Ho & Hn & Hp).
  exists v, active, c. rewrite Hr. split_and!; try done; [apply Hp|apply is_fresh].
Qed.

Lemma staged_generations body L record a L' :
  ledger_wf L → stage body L = (Ok (record, a, false), L') →
  lg_registry L' = lg_registry L ∧ lg_records L' = lg_records L ∧ lg_cap L' = lg_cap L
  ∧ a ≠ lg_registry L
  ∧ generation_of (lg_registry L) L' = Some (rn_old_topology_generation record)
  ∧ generation_of a L' = Some (rn_new_topology_generation record)
  ∧ rn_new_topology_generation record ≠ rn_old_topology_generation record
  ∧ dget (rn_restart_run_id record) (lg_records L) = None.
Proof.
  intros Hwf (v & active & c & _ & Hact & _ & Hnone & _ & Ho & Hn & Hne & Hf & ->)%stage_new_shape.
  assert (a ≠ lg_registry L) as Ha.
  { intros ->. apply Hf, elem_of_dom. unfold lg_active in Hact. eauto. }
  unfold generation_of. simpl. rewrite lookup_insert_eq, lookup_insert_ne by done.
  unfold lg_active in Hact. rewrite Hact. simpl. split_and!; try done; congruence.
Qed.

Lemma accept_cases body L record a L' :
  ledger_wf L → accept body L = (Ok (record, a), L') →
  ledger_wf L' ∧ lg_registry L' = a
  ∧ ∃ v d, dget "restart_run_id" body = Some v ∧ rn_restart_run_id record = py_str repr v
      ∧ rn_decision_digest record = digest sha (JObj body)
      ∧ dget (rn_restart_run_id record) d = None
      ∧ lg_records L' = d ++ [(rn_restart_run_id record, record)].
Proof.
  intros Hwf. unfold TopologyAdmin.accept, mbind, method_mbind, method_bind.
  pose proof (stage_wf body L Hwf) as Hwf1.
  destruct (stage body L) as [[[[rec c] replay]|] L1] eqn:Hs; [|done]. destruct replay.
  - intros [= <- <- <-]. split; [done|]. revert Hs. unfold TopologyAdmin.stage, item.
    destruct (dget "restart_run_id" body) as [v|]; [|done].
    destruct (dget _ (lg_records L)) as [ex|] eqn:Hg; cycle 1.
    { destruct (lg_active L); [|done]. by destruct (stage_new _ _ _ _ _ _ _ _ _) as [[]|]. }
    case_bool_decide as Hdd; [done|]. intros [= <- <- <-]. split; [done|].
    pose proof (lw_keys L Hwf _ _ Hg) as Hk.
    exists v, (dpop (py_str repr v) (lg_records L)). rewrite Hk. split_and!; try done.
    apply dget_dpop_eq.
  - destruct (staged_generations _ _ _ _ _ Hwf Hs) as (Hr & Hrec & Hc & Ha & Ho & Hn & Hne & Hnone).
    rewrite commit_staged by congruence. intros [= <- <- <-]. simpl.
    destruct (remember_wf rec L1 Hwf1) as [Hwf2 (d & Hsuf & Hd)].
    apply stage_new_shape in Hs as (v & active & cand & Hv & _ & Hrun & _ & Hdd & _ & _ & _ & _ & ->).
    split; [|split; [done|]].
    + destruct Hwf2 as [? ? ? ? ? ?]. split; try done. unfold lg_active. simpl.
      rewrite lookup_insert_eq. eauto.
    + exists v, d. split_and!; try done. apply dget_None. intros Hin. destruct Hsuf as [d0 Hd0].
      assert (rn_restart_run_id rec ∈ dkeys (dpop (rn_restart_run_id rec) (lg_records L))) as Hin'.
      { simpl in Hd0. rewrite Hd0. unfold dkeys in *. rewrite fmap_app. set_solver. }
      apply elem_of_dkeys_dpop in Hin'. naive_solver.
Qed.

Lemma accept_registered body v L record d :
  dget "restart_run_id" body = Some v → rn_restart_run_id record = py_str repr v →
  dget (rn_restart_run_id record) d = None →
  lg_records L = d ++ [(rn_restart_run_id record, record)] →
  accept body L = if decide (rn_decision_digest record = digest sha (JObj body))
                  then (Ok (record, lg_registry L), L) else (Raise ValueError, L).
Proof.
  intros Hv Hrun Hn Hrec. destruct (dmove_end_last d _ record Hn) as [Hg Hm].
  unfold TopologyAdmin.accept, mbind, method_mbind, method_bind, TopologyAdmin.stage, item.
  rewrite Hv, <- Hrun, Hrec, Hg. case_decide as Hd.
  - rewrite bool_decide_eq_false_2 by naive_solver. rewrite Hm. destruct L. simpl in *. by rewrite Hrec.
  - by rewrite bool_decide_eq_true_2.
Qed.

Lemma ledger_step_wf L L' : ledger_wf L → ledger_step L L' → ledger_wf L'.
Proof.
  intros Hwf [body|body|record a Ha|record|record a old Ho|a r r' Hr Hs].
  - by apply stage_wf.
  - destruct (accept body L) as [[[rec a]|e] L1] eqn:Hacc; [by eapply accept_cases|]. revert Hacc.
    unfold TopologyAdmin.accept, mbind, method_mbind, method_bind.
    pose proof (stage_wf body L Hwf) as Hwf1.
    destruct (stage body L) as [[[[rec c] replay]|] L2] eqn:Hst; [|by intros [= _ <-]].
    destruct replay; [done|].
    destruct (staged_generations _ _ _ _ _ Hwf Hst) as (Hr & Hrec & _ & _ & Ho & Hn & _ & Hnone).
    by rewrite commit_staged by congruence.
  - by apply commit_wf.
  - unfold recover_committed_run. destruct (dget _ (lg_records L)) as [ex|] eqn:Hg.
    + case_bool_decide; [done|]. by apply move_end_wf.
    + do 2 (case_bool_decide; [done|]). by apply remember_wf.
  - unfold rollback. do 2 (case_bool_decide; [done|]). destruct Hwf as [? Hk ? ? ? ?]. simpl.
    split; simpl; try done.
    + by apply dwf_dpop.
    + intros k r. rewrite dget_dpop. case_decide; [done|]. apply Hk.
    + pose proof (length_dpop_le (rn_restart_run_id record) (lg_records L)). lia.
  - destruct Hwf as [? ? ? ? [r0 Hact] Hreg]. split; try done; simpl.
    + unfold lg_active in *. simpl. destruct (decide (a = lg_registry L)) as [->|].
      * rewrite lookup_insert_eq. eauto.
      * rewrite lookup_insert_ne by done. eauto.
    + apply map_Forall_insert_2; [|done]. eapply reg_step_wf; [|done]. by eapply Hreg.
Qed.
End reachable.

(** A commit staged against the generation that was just replaced. *)
Lemma loser_raises r1 r2 a1 a2 L d :
  dwf (lg_records L) → d `suffix_of` dpop (rn_restart_run_id r1) (lg_records L) →
  lg_records (remember r1 L) = d ++ [(rn_restart_run_id r1, r1)] →
  rn_restart_run_id r1 ≠ rn_restart_run_id r2 →
  dget (rn_restart_run_id r2) (lg_records L) = None →
  generation_of a1 L ≠ Some (rn_old_topology_generation r2) →
  let L' := set_lg_registry a1 (remember r1 L) in
  commit r2 a2 L' = (Raise ValueError, L').
Proof.
  intros Hwf Hsuf Hd Hne Hnone Hgen. unfold commit.
  assert (dget (rn_restart_run_id r2) (lg_records (remember r1 L)) = None) as Hn.
  { rewrite Hd. apply dget_None. unfold dkeys. rewrite fmap_app.
    intros [Hin|Hin]%elem_of_app; [|set_solver].
    destruct Hsuf as [d0 Hd0]. assert (rn_restart_run_id r2 ∈ dkeys (lg_records L)) as Hk.
    { assert (rn_restart_run_id r2 ∈ dkeys (dpop (rn_restart_run_id r1) (lg_records L))) as Hk'.
      { rewrite Hd0. unfold dkeys. rewrite fmap_app. set_solver. }
      apply elem_of_dkeys_dpop in Hk'. naive_solver. }
    apply dget_is_Some in Hk as [x Hx]. congruence. }
  simpl. simpl in Hn. rewrite Hn. by rewrite bool_decide_eq_true_2.
Qed.

(** The ledger's invariant.  Whatever sequence of operations a new ledger
    goes through (staging, accepting, publishing, recovering and rolling back
    with any arguments, and registries changing in between), there is a
    published registry, every registry satisfies the registry's own invariant,
    so a READY one is a valid world, and the ledger remembers at most its cap
    of runs, each under its own run id. *)
Theorem ledger_reachable_inv sha sha_raw repr untyped now heap reg cap L0 L :
  new_TopologyAcceptanceLedger heap reg cap = Ok L0 →
  is_Some (heap !! reg) → map_Forall (λ _, reg_wf) heap →
  rtc (ledger_step sha sha_raw repr untyped now) L0 L →
  ledger_wf L.
Proof.
  unfold new_TopologyAcceptanceLedger. rewrite need_then, bool_decide_eq_true.
  intros [Hc [= <-]] Hr Hh Hsteps.
  assert (ledger_wf (mkLedger heap reg cap [])) as Hwf
    by (split; simpl; try done; [apply dwf_nil|lia]).
  induction Hsteps as [|L1 L2 L3 Hs _ IH]; [done|]. by eapply IH, ledger_step_wf.
Qed.

(** A restart run is accepted once.  After [accept] returned, the accepted
    registry is the published one; the same body again returns the same record
    and registry and changes nothing, and another body under the same run id
    (with another digest) is refused and changes nothing. *)
Theorem accept_is_once_only sha sha_raw repr untyped now body L record a L' :
  ledger_wf L → accept sha sha_raw repr untyped now body L = (Ok (record, a), L') →
  lg_registry L' = a
  ∧ accept sha sha_raw repr untyped now body L' = (Ok (record, a), L')
  ∧ ∀ body', dget "restart_run_id" body' = dget "restart_run_id" body →
      digest sha (JObj body') ≠ digest sha (JObj body) →
      accept sha sha_raw repr untyped now body' L' = (Raise ValueError, L').
Proof.
  intros Hwf Hacc.
  destruct (accept_cases _ _ _ _ _ _ _ _ _ _ Hwf Hacc)
    as (_ & Ha & v & d & Hv & Hrun & Hdd & Hn & Hrec).
  split; [done|]. split.
  - rewrite (accept_registered _ _ _ _ _ body v L' record d) by done.
    rewrite decide_True by done. by rewrite Ha.
  - intros body' Hsame Hdiff. rewrite Hv in Hsame.
    rewrite (accept_registered _ _ _ _ _ body' v L' record d) by done.
    by rewrite decide_False by congruence.
Qed.

(** C29: Of two replacements staged against the same world one is published.
    Whichever of two candidates staged for different runs is committed first
    becomes the active registry, and committing the other then raises
    ValueError and changes nothing. *)
Theorem one_replacement_wins sha sha_raw repr untyped now b1 b2 L r1 a1 L1 r2 a2 L2 :
  ledger_wf L →
  stage sha sha_raw repr untyped now b1 L = (Ok (r1, a1, false), L1) →
  stage sha sha_raw repr untyped now b2 L1 = (Ok (r2, a2, false), L2) →
  rn_restart_run_id r1 ≠ rn_restart_run_id r2 →
  (∃ L3, commit r1 a1 L2 = (Ok tt, L3) ∧ lg_registry L3 = a1
     ∧ commit r2 a2 L3 = (Raise ValueError, L3))
  ∧ (∃ L3, commit r2 a2 L2 = (Ok tt, L3) ∧ lg_registry L3 = a2
     ∧ commit r1 a1 L3 = (Raise ValueError, L3)).
Proof.
  intros Hwf Hs1 Hs2 Hne.
  assert (ledger_wf L1) as Hwf1
    by (pose proof (stage_wf sha sha_raw repr untyped now b1 L Hwf) as H1; by rewrite Hs1 in H1).
  assert (ledger_wf L2) as Hwf2
    by (pose proof (stage_wf sha sha_raw repr untyped now b2 L1 Hwf1) as H2; by rewrite Hs2 in H2).
  destruct (staged_generations _ _ _ _ _ _ _ _ _ _ Hwf Hs1)
    as (Hr1 & Hrec1 & _ & Ha1 & Ho1 & Hn1 & Hd1 & Hnone1).
  destruct (staged_generations _ _ _ _ _ _ _ _ _ _ Hwf1 Hs2)
    as (Hr2 & Hrec2 & _ & Ha2 & Ho2 & Hn2 & Hd2 & Hnone2).
  assert (rn_old_topology_generation r1 = rn_old_topology_generation r2) as Hold
    by (rewrite Hr1 in Ho2; apply stage_new_shape in Hs2
          as (_ & _ & c2 & _ & _ & _ & _ & _ & _ & _ & _ & Hf & ->);
        unfold generation_of in *; simpl in Ho2; rewrite lookup_insert_ne in Ho2 by congruence;
        congruence).
  assert (generation_of a1 L2 = Some (rn_new_topology_generation r1)) as Hn1'.
  { apply stage_new_shape in Hs2 as (_ & _ & c2 & _ & _ & _ & _ & _ & _ & _ & _ & Hf & ->).
    unfold generation_of in *. simpl. rewrite lookup_insert_ne; [done|]. intros ->.
    apply Hf, elem_of_dom. destruct (lg_heap L1 !! a1); [by eexists|done]. }
  rewrite Hrec1 in *.
  split.
  - eexists. split; [apply commit_staged; congruence|]. split; [done|].
    destruct (remember_wf r1 L2 Hwf2) as [_ (d & Hsuf & Hd)].
    apply (loser_raises r1 r2 a1 a2 L2 d); try done; [apply Hwf2|congruence..].
  - eexists. split; [apply commit_staged; congruence|]. split; [done|].
    destruct (remember_wf r2 L2 Hwf2) as [_ (d & Hsuf & Hd)].
    apply (loser_raises r2 r1 a2 a1 L2 d); try done; [apply Hwf2|congruence..].
Qed.

(** Rolling back a publication restores the ledger.  For a freshly staged
    run, [commit] succeeds and [rollback] to the old registry then succeeds;
    the active registry and the heap are as before the commit, and so are the
    remembered runs, except that a ledger filled to its cap has forgotten its
    oldest run. *)
Theorem rollback_undoes_commit sha sha_raw repr untyped now body L record a L1 :
  ledger_wf L → stage sha sha_raw repr untyped now body L = (Ok (record, a, false), L1) →
  ∃ L2 L3, commit record a L1 = (Ok tt, L2)
    ∧ is_committed record L2 = true
    ∧ rollback record a (lg_registry L) L2 = (Ok tt, L3)
    ∧ lg_registry L3 = lg_registry L ∧ lg_heap L3 = lg_heap L1
    ∧ lg_records L3 = if bool_decide (Z.of_nat (length (lg_records L)) < lg_cap L)
                      then lg_records L else drop 1 (lg_records L).
Proof.
  intros Hwf Hs.
  destruct (staged_generations _ _ _ _ _ _ _ _ _ _ Hwf Hs)
    as (Hr & Hrec & Hcap & Ha & Ho & Hn & Hne & Hnone).
  set (run := rn_restart_run_id record) in *.
  assert (lg_records (remember record L1)
    = (if bool_decide (Z.of_nat (length (lg_records L)) < lg_cap L)
       then lg_records L else drop 1 (lg_records L)) ++ [(run, record)]) as Hd.
  { simpl. rewrite Hrec, Hcap. unfold dmove_end. fold run. rewrite (dpop_fresh _ _ Hnone).
    pose proof (lw_bound L Hwf). case_bool_decide.
    - apply dtrim_fits. rewrite length_app. simpl. lia.
    - destruct (lg_records L) as [|kv d]; [simpl in *; pose proof (lw_cap L Hwf); lia|].
      simpl in *. rewrite bool_decide_eq_true_2 by (rewrite length_app; simpl; lia).
      rewrite drop_0. apply dtrim_fits. rewrite length_app. simpl. lia. }
  assert (dget run (if bool_decide (Z.of_nat (length (lg_records L)) < lg_cap L)
    then lg_records L else drop 1 (lg_records L)) = None) as Hnone'.
  { case_bool_decide; [done|]. apply dget_None. intros Hin. apply dget_None in Hnone. apply Hnone.
    unfold dkeys in *. destruct (lg_records L); [done|]. simpl in *. rewrite drop_0 in Hin. by right. }
  destruct (dmove_end_last _ _ record Hnone') as [Hget _].
  eexists _, _. split; [apply commit_staged; [fold run|..]; congruence|].
  split.
  { unfold is_committed. fold run. rewrite andb_true_iff, !bool_decide_eq_true.
    split; [|done]. change (dget run (lg_records (remember record L1)) = Some record).
    by rewrite Hd. }
  split.
  { unfold rollback. fold run.
    change (lg_records (set_lg_registry a (remember record L1))) with (lg_records (remember record L1)).
    rewrite Hd, Hget. by rewrite !bool_decide_eq_false_2 by (intros Hx; by apply Hx). }
  split_and!; [done|done|]. simpl. rewrite <- (dset_fresh _ _ _ Hnone'), dpop_dset.
  by apply dpop_fresh.
Qed.

(** ** Concrete instances of the properties *)

Definition new_member (name role : string) (rank : Z) : WorkerIdentity :=
  mkWorkerIdentity name role "gen2" ("new-" +:+ name) "1" ("http://" +:+ name) rank
    "digest2" "kv1".
Definition new_pair (s t : string) : json :=
  JObj [("pair_id", JStr (s +:+ "--" +:+ t)); ("source_epoch", JStr ("new-" +:+ s +:+ ":1"));
        ("target_epoch", JStr ("new-" +:+ t +:+ ":1")); ("transport", JStr "NCCL_SOCKET");
        ("probe_generation", JStr "probe2"); ("probe_passed", JBool true);
        ("evidence_path", JStr "evidence")].
Definition new_report (name : string) : json :=
  JObj [("instance_epoch", JStr ("new-" +:+ name +:+ ":1")); ("complete", JBool true);
        ("resources", JObj []); ("operation_ids", JList [JStr "op9"]);
        ("excluded_operation_ids", JList [JStr "op1"; JStr "op2"]);
        ("excluded_resource_ids", JList [])].

(** A stand-in for SHA-256. *)
Definition one_sha (v : json) : string := "s".

Definition demo_body (run : string) : odict string json :=
  [("restart_run_id", JStr run); ("old_topology_generation", JStr "gen1");
   ("new_topology_generation", JStr "gen2");
   ("termination_records", JList (JObj <$> demo_records one_sha));
   ("identities", JList ((λ w, JObj (worker_identity_wire w)) <$>
      [new_member "p0" "prefill" 0; new_member "p1" "prefill" 1;
       new_member "d0" "decode" 2; new_member "d1" "decode" 3]));
   ("pair_capabilities", JList [new_pair "p0" "d0"; new_pair "p0" "d1"; new_pair "p1" "d0";
      new_pair "p1" "d1"; new_pair "d0" "d1"]);
   ("resource_reports", JObj ((λ n, (n, new_report n)) <$> ["p0"; "p1"; "d0"; "d1"]));
   ("old_operation_ids", JList [JStr "op2"; JStr "op1"]); ("old_resource_ids", JList [])].

Definition demo_str (v : json) : string := "obj".
Definition no_untyped (d : odict string json) : result exn PairCapability := Raise TypeError.
Definition demo_ledger : TopologyAcceptanceLedger := mkLedger {[0%nat := demo_ready]} 0%nat 2 [].
Definition demo_stage (run : string) :=
  stage one_sha one_sha demo_str no_untyped (λ _, 5) (demo_body run).
Definition demo_accept (run : string) :=
  accept one_sha one_sha demo_str no_untyped (λ _, 5) (demo_body run).

Lemma demo_ready_wf : reg_wf demo_ready.
Proof.
  apply install_world_wf. by split.
Qed.

Lemma demo_ledger_wf : ledger_wf demo_ledger.
Proof.
  split; simpl; try done.
  - apply dwf_nil.
  - apply map_Forall_singleton, demo_ready_wf.
Qed.

Lemma demo_active : lg_active demo_ledger = Some demo_ready.
Proof. apply lookup_singleton_eq. Qed.

(** A state and what one of its runs returned, as one equation. *)
Lemma run_eq {S A} (m : method S A) s x : (m s).1 = Ok x → m s = (Ok x, (m s).2).
Proof. by destruct (m s) as [? ?]; intros <-. Qed.

Definition demo_record (run : string) : RestartRunRecord :=
  mkRestartRunRecord run "gen1" "gen2" (repeat "sha256:s" 4) (repeat "sha256:s" 4)
    (repeat "sha256:s" 5) "sha256:s" true.

(** The two stagings the instances below are about. *)
Definition demo_staged : TopologyAcceptanceLedger := (demo_stage "run1" demo_ledger).2.

Lemma demo_run1 : demo_stage "run1" demo_ledger = (Ok (demo_record "run1", 1%nat, false), demo_staged).
Proof. unfold demo_staged. apply run_eq. vm_compute. reflexivity. Qed.

Lemma demo_run2 :
  demo_stage "run2" demo_staged
  = (Ok (demo_record "run2", 2%nat, false), (demo_stage "run2" demo_staged).2).
Proof. apply run_eq. vm_compute. reflexivity. Qed.

Lemma demo_accepted :
  demo_accept "run1" demo_ledger = (Ok (demo_record "run1", 1%nat), (demo_accept "run1" demo_ledger).2).
Proof.
  apply run_eq. unfold demo_accept, accept, mbind, method_mbind, method_bind.
  pose proof demo_run1 as Hs. unfold demo_stage in Hs. rewrite Hs.
  destruct (staged_generations _ _ _ _ _ _ _ _ _ _ demo_ledger_wf Hs)
    as (Hr & Hrec & _ & _ & Ho & Hn & _ & Hnone).
  by rewrite commit_staged by congruence.
Qed.

Lemma staged_replacement_is_proven_witness :
  ∃ candidate, proven_replacement one_sha demo_str (λ _, 5) (demo_body "run1") demo_ready candidate
    ∧ expected_topology_generation candidate = "gen2".
Proof.
  destruct (staged_replacement_is_proven _ _ _ _ _ _ _ _ _ _ demo_run1)
    as (active & c & Hact & _ & _ & _ & _ & Hn & Hp).
  rewrite demo_active in Hact. apply (inj Some) in Hact as <-. exists c. split; [exact Hp|].
  rewrite <- Hn. reflexivity.
Defined.

Lemma ledger_reachable_inv_witness : ledger_wf (demo_accept "run1" demo_ledger).2.
Proof.
  apply (ledger_reachable_inv one_sha one_sha demo_str no_untyped (λ _, 5) {[0%nat := demo_ready]}
    0%nat 2 demo_ledger).
  - reflexivity.
  - by exists demo_ready.
  - apply map_Forall_singleton, demo_ready_wf.
  - apply rtc_once, ls_accept.
Defined.

Lemma accept_is_once_only_witness :
  let L' := (demo_accept "run1" demo_ledger).2 in
  lg_registry L' = 1%nat ∧ demo_accept "run1" L' = (Ok (demo_record "run1", 1%nat), L').
Proof.
  destruct (accept_is_once_only _ _ _ _ _ _ _ _ _ _ demo_ledger_wf demo_accepted)
    as (Hr & Hagain & _).
  split; [exact Hr|exact Hagain].
Defined.

Lemma one_replacement_wins_witness :
  ∃ L2 L3, commit (demo_record "run1") 1%nat L2 = (Ok tt, L3)
    ∧ commit (demo_record "run2") 2%nat L3 = (Raise ValueError, L3).
Proof.
  destruct (one_replacement_wins _ _ _ _ _ _ _ _ _ _ _ _ _ _ demo_ledger_wf demo_run1 demo_run2)
    as [(L3 & Hc & _ & Hl) _].
  - discriminate.
  - exists (demo_stage "run2" demo_staged).2, L3. split; [exact Hc|exact Hl].
Defined.

Lemma rollback_undoes_commit_witness :
  ∃ L2 L3, commit (demo_record "run1") 1%nat demo_staged = (Ok tt, L2)
    ∧ rollback (demo_record "run1") 1%nat 0%nat L2 = (Ok tt, L3) ∧ lg_records L3 = [].
Proof.
  destruct (rollback_undoes_commit _ _ _ _ _ _ _ _ _ _ demo_ledger_wf demo_run1)
    as (L2 & L3 & Hc & _ & Hb & _ & _ & Hr).
  exists L2, L3. split; [exact Hc|]. split; [exact Hb|]. exact Hr.
Defined.
