(* ===== verification/HttpRpc.v ===== *)
(** * Exact-reference HTTP operations (router/http_rpc.py)

    Every mutation of a worker carries the reference of the operation it
    belongs to, and every answer is classified before the control path sees
    it: a value, a refusal of the worker, or an ambiguous loss.

    The wire ([httpx.AsyncClient.request]), the correctness hook, SHA-256 and
    the text of nested values are parameters.  An await is a function of the
    client and of everything else ([W]): nothing is assumed about what it
    answers or changes.  Metrics, timings and the text of error messages are
    not modelled; the diagnostics that reach the log are. *)

From S2P Require Import Prelude PyDict Json ResourceRelease.
From stdpp Require Import prelude gmap strings pretty.
From Stdlib Require Import Ascii.

Local Open Scope Z_scope.

(** ** Exceptions of the client *)

Inductive rpc_exn : Type :=
| InferRPCError (status_code : Z) (code : string)
| AmbiguousRPCError (endpoint_ref : option EndpointOperationRef)
| PyError (e : exn).

(** A coroutine of the control path over the state [S]. *)
Definition rpc (S A : Type) : Type := S → result rpc_exn A * S.
#[export] Instance rpc_mret {S} : MRet (rpc S) := λ A a s, (Ok a, s).
#[export] Instance rpc_mbind {S} : MBind (rpc S) := λ A B k m s,
  match m s with (Ok a, s') => k a s' | (Raise e, s') => (Raise e, s') end.
Definition throw {S A} (e : rpc_exn) : rpc S A := λ s, (Raise e, s).
Definition get {S} : rpc S S := λ s, (Ok s, s).
Definition update {S} (f : S → S) : rpc S unit := λ s, (Ok tt, f s).
(** A synchronous validator called from a coroutine. *)
Definition lift {S A} (r : result exn A) : rpc S A := λ s,
  match r with Ok a => (Ok a, s) | Raise e => (Raise (PyError e), s) end.

(** ** References *)

(** [asdict(ref)] *)
Definition ref_json (r : EndpointOperationRef) : odict string json :=
  [("topology_generation", JStr (ref_topology_generation r));
   ("owner_generation", JStr (ref_owner_generation r));
   ("operation_seq", JInt (ref_operation_seq r));
   ("target_instance", JStr (ref_target_instance r));
   ("target_worker_epoch", JStr (ref_target_worker_epoch r));
   ("operation_id", JStr (ref_operation_id r));
   ("payload_digest", JStr (ref_payload_digest r))].

(** The constructor with its [__post_init__]. *)
Definition new_EndpointOperationRef (r : EndpointOperationRef) : result exn EndpointOperationRef :=
  if bool_decide (0 < ref_operation_seq r) && truthy (ref_payload_digest r)
  then Ok r else Raise AssertionError.

(** ** Codes that may be logged *)

Definition INVALID_RPC_ERROR_CODE : string := "<invalid-error-code>".
Definition MAX_LOGGED_RPC_ERROR_CODE_LENGTH : nat := 64.
Definition LOGGABLE_RPC_ERROR_CODES : list string :=
  ["CONFLICT"; "FENCED_WORKER_EPOCH"; "HTTP_ERROR"; "INVALID_OUTPUT"; "INVALID_RESPONSE";
   "INVALID_SCHEMA"; "NOT_FOUND"; "NOT_READY"; "PRECONDITION_FAILED"; "REGISTRY_CAPACITY";
   "REGISTRY_ERROR"; "REQUEST_OUTPUT_NOT_FOUND"; "RETIRED_OWNER"; "STALE_OPERATION";
   "UNAVAILABLE"; "UNKNOWN_OWNER"; "WORKER_NOT_READY"].

(** [[A-Z][A-Z0-9_]*], the whole string *)
Definition is_upper_char (c : ascii) : bool :=
  let n := Ascii.nat_of_ascii c in bool_decide (65 ≤ n ≤ 90)%nat.
Definition is_code_char (c : ascii) : bool :=
  let n := Ascii.nat_of_ascii c in
  is_upper_char c || bool_decide (48 ≤ n ≤ 57)%nat || bool_decide (n = 95%nat).
Definition rpc_error_code_pattern (s : string) : bool :=
  match String.list_ascii_of_string s with
  | c :: cs => is_upper_char c && forallb is_code_char cs
  | [] => false
  end.

Definition safe_rpc_error_code (value : string) : string :=
  if negb (bool_decide (1 ≤ String.length value ≤ MAX_LOGGED_RPC_ERROR_CODE_LENGTH)%nat)
  then INVALID_RPC_ERROR_CODE
  else if negb (rpc_error_code_pattern value) then INVALID_RPC_ERROR_CODE
  else if bool_decide (value ∉ LOGGABLE_RPC_ERROR_CODES) then INVALID_RPC_ERROR_CODE
  else value.

(** ** Finalization payloads and snapshots *)

Definition RELEASE_SNAPSHOT_FIELDS : list string :=
  ["cleanup_id"; "operation_id"; "lease_id"; "endpoint_epoch"; "released_resource_kinds";
   "released_counts"; "resources_held_after"; "payload_digest"].

(** [sorted(set(l))] *)
Definition sorted_set (l : list string) : list string := sort_by String.le id (remove_dups l).

Definition jstrs (l : list string) : json := JList (JStr <$> l).

(** The keyword arguments of a finalization. *)
Record Finalize := mkFinalize {
  fin_cleanup_id : string;
  fin_operation_id : string;
  fin_lease_id : string;
  fin_endpoint_refs : list EndpointOperationRef;
  fin_resource_kinds : list string }.

(** One item of [released_counts]. *)
Definition parse_count (item : json) : result exn (string * Z) :=
  match item with
  | JList [JStr kind; JInt n] =>
      _ ← need (truthy kind && bool_decide (0 ≤ n)); mret (kind, n)
  | _ => Raise ValueError
  end.

Section client.
Variable sha : json → string.
Variable repr : json → string.

Definition finalize_release_body (f : Finalize) : odict string json :=
  [("cleanup_id", JStr (fin_cleanup_id f)); ("operation_id", JStr (fin_operation_id f));
   ("lease_id", JStr (fin_lease_id f));
   ("endpoint_refs", JList ((λ r, JObj (ref_json r)) <$> fin_endpoint_refs f));
   ("resource_kinds", jstrs (sorted_set (fin_resource_kinds f)));
   ("release_basis", JStr "ENDPOINT_TERMINAL")].
Definition finalize_digest (f : Finalize) : string := digest sha (JObj (finalize_release_body f)).
Definition finalize_release_payload (f : Finalize) : odict string json :=
  dset "payload_digest" (JStr (finalize_digest f)) (finalize_release_body f).

(** [expected_endpoint_epoch or endpoint_refs[0].target_worker_epoch] *)
Definition release_epoch (expected : option string) (refs : list EndpointOperationRef) : string :=
  match expected with
  | Some e => if truthy e then e else default "" (ref_target_worker_epoch <$> head refs)
  | None => default "" (ref_target_worker_epoch <$> head refs)
  end.

Definition bound_ref (instance_id epoch operation_id : string) (r : EndpointOperationRef) : bool :=
  bool_decide (ref_target_instance r = instance_id)
  && bool_decide (ref_target_worker_epoch r = epoch)
  && bool_decide (ref_operation_id r = operation_id).

Definition validate_release_snapshot (value : odict string json) (instance_id : string)
    (f : Finalize) (expected_epoch : option string) : result exn (odict string json) :=
  _ ← need (keys_are value RELEASE_SNAPSHOT_FIELDS);
  _ ← need (bool_decide (fin_endpoint_refs f ≠ []));
  let epoch := release_epoch expected_epoch (fin_endpoint_refs f) in
  _ ← need (truthy epoch);
  _ ← need (forallb (bound_ref instance_id epoch (fin_operation_id f)) (fin_endpoint_refs f));
  let kinds := sorted_set (fin_resource_kinds f) in
  _ ← need (bool_decide (kinds ≠ []));
  _ ← need (py_eqb (jget "cleanup_id" value) (JStr (fin_cleanup_id f))
            && py_eqb (jget "operation_id" value) (JStr (fin_operation_id f))
            && py_eqb (jget "lease_id" value) (JStr (fin_lease_id f))
            && py_eqb (jget "endpoint_epoch" value) (JStr epoch)
            && py_eqb (jget "payload_digest" value) (JStr (finalize_digest f))
            && bool_decide (jget "resources_held_after" value = JBool false)
            && py_eqb (jget "released_resource_kinds" value) (jstrs kinds));
  match jget "released_counts" value with
  | JList items =>
      counts ← mapR parse_count items;
      _ ← need (bool_decide (counts.*1 = kinds)
                && bool_decide (length (dict_of counts) = length counts));
      mret value
  | _ => Raise ValueError
  end.

(** ** The client *)

(** What a failed or recovered attempt leaves in the log. *)
Inductive diagnostic : Type :=
| AttemptFailed (instance_id method path : string) (retry_index : Z)
    (http_status : option Z) (error_code : option string)
| RetryRecovered (instance_id method path : string) (retry_index http_status prior : Z).

Record HttpInferClient := mkHttpInferClient {
  hc_endpoints : odict string string;
  hc_failure_counts : odict (string * string * string) Z;
  hc_log : list diagnostic }.

Definition set_counts (v : odict (string * string * string) Z) (c : HttpInferClient) :
  HttpInferClient := mkHttpInferClient (hc_endpoints c) v (hc_log c).
Definition add_log (d : diagnostic) (c : HttpInferClient) : HttpInferClient :=
  mkHttpInferClient (hc_endpoints c) (hc_failure_counts c) (hc_log c ++ [d]).

(** [value.rstrip] of slashes *)
Fixpoint lstrip_slash (cs : list ascii) : list ascii :=
  match cs with
  | c :: cs' => if bool_decide (c = "/"%char) then lstrip_slash cs' else cs
  | [] => []
  end.
Definition rstrip_slash (s : string) : string :=
  String.string_of_list_ascii
    (reverse (lstrip_slash (reverse (String.list_ascii_of_string s)))).

Definition new_HttpInferClient (endpoints : odict string string) (timeout_s : Z) :
    result exn HttpInferClient :=
  if bool_decide (endpoints ≠ []) && bool_decide (0 < timeout_s)
  then Ok (mkHttpInferClient (prod_map id rstrip_slash <$> endpoints) [] [])
  else Raise AssertionError.

(** [s.split(sep)] on characters: always at least one part. *)
Fixpoint split_chars (sep : ascii) (cs : list ascii) : list (list ascii) :=
  match cs with
  | [] => [[]]
  | c :: cs' =>
      if bool_decide (c = sep) then [] :: split_chars sep cs'
      else match split_chars sep cs' with
           | part :: parts => (c :: part) :: parts
           | [] => [[c]]
           end
  end.
Definition split (sep : ascii) (s : string) : list string :=
  String.string_of_list_ascii <$> split_chars sep (String.list_ascii_of_string s).

(** The label under which a path is counted and logged. *)
Definition metric_endpoint (path : string) : string :=
  let base := default "" (head (split "?"%char path)) in
  if bool_decide (base = "/v1/operations") then "/v1/operations"
  else if bool_decide (base = "/v1/prefix/events") then "/v1/prefix/events"
  else
    let parts := split "/"%char base in
    let is_under (root : string) := bool_decide (take 2 (drop 1 parts) = ["v1"; root]) in
    let action := default "" (parts !! 4%nat) in
    if bool_decide (5 ≤ length parts)%nat && is_under "requests"
       && bool_decide (action ∈ ["abort"; "output"])
    then "/v1/requests/{operation_id}/" +:+ action
    else if bool_decide (5 ≤ length parts)%nat && is_under "transfers"
            && bool_decide (action = "abort")
    then "/v1/transfers/{operation_id}/abort"
    else if bool_decide (5 ≤ length parts)%nat && is_under "owners"
            && bool_decide (action = "retire")
    then "/v1/owners/{owner_generation}/retire"
    else if bool_decide (length parts = 4%nat) && (is_under "requests" || is_under "transfers")
    then "/" +:+ default "" (parts !! 1%nat) +:+ "/" +:+ default "" (parts !! 2%nat)
         +:+ "/{operation_id}"
    else if bool_decide (length parts = 5%nat)
            && bool_decide (take 3 (drop 1 parts) = ["v1"; "prefix"; "status"])
    then "/v1/prefix/status/{operation_id}"
    else base.

(** What the wire brings: a transport error, another exception, or a response
    whose body may fail to decode. *)
Inductive wire_outcome : Type :=
| TransportError
| OtherError (e : exn)
| Response (status_code : Z) (body : option json).

Record wire_request := mkWireRequest {
  wr_method : string;
  wr_url : string;
  wr_body : option json }.

Context {W : Type}.
Variable wire : wire_request → HttpInferClient * W → wire_outcome * (HttpInferClient * W).
(** The installed correctness hook; [None] in production. *)
Variable hook : option (odict string json → HttpInferClient * W → bool * (HttpInferClient * W)).

Definition url (instance_id path : string) (c : HttpInferClient) : result exn string :=
  match dget instance_id (hc_endpoints c) with
  | Some base => Ok (base +:+ path)
  | None => Raise ValueError
  end.

Definition await_wire (r : wire_request) : rpc (HttpInferClient * W) wire_outcome := λ s,
  let '(o, s') := wire r s in (Ok o, s').

(** [record_failure]: the index read before the await is the one that counts. *)
Definition record_failure (instance_id mth path : string) (retry_index : Z)
    (http_status : option Z) (error_code : option string) : rpc (HttpInferClient * W) unit :=
  update (λ s,
    (add_log (AttemptFailed instance_id mth path retry_index http_status error_code)
       (set_counts (dset (instance_id, mth, path) (retry_index + 1) (hc_failure_counts s.1)) s.1),
     s.2)).

(** [str(json_body.get(k) or ...)] with the empty string *)
Definition body_str (body : odict string json) (k : string) : json :=
  JStr (py_str_or_empty repr (jget k body)).

Definition hook_details (instance_id path : string) (ref : EndpointOperationRef)
    (body : option json) (status : Z) (value : odict string json) : odict string json :=
  let base :=
    [("checkpoint", JStr "after_infer_success_before_control_observe");
     ("instance_id", JStr instance_id); ("path", JStr path);
     ("endpoint_ref", JObj (ref_json ref));
     ("request_digest", JStr (digest sha (default JNull body)));
     ("response_status", JInt status);
     ("response_digest", JStr (digest sha (JObj value)))] in
  match body with
  | Some (JObj b) =>
      if bool_decide (path = "/v1/cleanup/finalize") then
        base ++ [("cleanup_id", body_str b "cleanup_id");
                 ("cleanup_operation_id", body_str b "operation_id");
                 ("cleanup_lease_id", body_str b "lease_id");
                 ("cleanup_payload_digest", body_str b "payload_digest")]
      else base
  | _ => base
  end.

(** The hook runs after a successful mutation and may discard the answer. *)
Definition run_hook (mth instance_id path : string) (body : option json)
    (ref : option EndpointOperationRef) (status : Z) (value : odict string json) :
    rpc (HttpInferClient * W) bool := λ s,
  match hook, ref with
  | Some h, Some r =>
      if bool_decide (mth = "POST") then
        let '(discard, s') := h (hook_details instance_id path r body status value) s in
        (Ok discard, s')
      else (Ok false, s)
  | _, _ => (Ok false, s)
  end.

(** The counter of a key that succeeds is dropped. *)
Definition record_success (instance_id mth path : string) (retry_index status : Z) :
    rpc (HttpInferClient * W) unit :=
  update (λ s,
    let key := (instance_id, mth, path) in
    let prior := default 0 (dget key (hc_failure_counts s.1)) in
    let c := set_counts (dpop key (hc_failure_counts s.1)) s.1 in
    (if bool_decide (prior = 0) then c
     else add_log (RetryRecovered instance_id mth path retry_index status prior) c, s.2)).

(** [_request] once the wire answered. *)
Definition classify (mth instance_id path : string) (body : option json)
    (ref : option EndpointOperationRef) (retry_index : Z) (o : wire_outcome) :
    rpc (HttpInferClient * W) (odict string json) :=
  let label := metric_endpoint path in
  let failure := record_failure instance_id mth label retry_index in
  match o with
  | TransportError => _ ← failure None None; throw (AmbiguousRPCError ref)
  | OtherError e => throw (PyError e)
  | Response status answer =>
      if bool_decide (400 ≤ status) then
        match default (JObj []) answer with
        | JObj b =>
            let code := py_str repr (default (JStr "HTTP_ERROR") (dget "code" b)) in
            _ ← failure (Some status) (Some (safe_rpc_error_code code));
            throw (InferRPCError status code)
        | _ => throw (PyError AttributeError)
        end
      else match answer with
      | None => _ ← failure (Some status) None; throw (PyError ValueError)
      | Some (JObj value) =>
          discard ← run_hook mth instance_id path body ref status value;
          if (discard : bool)
          then _ ← failure (Some status) None; throw (AmbiguousRPCError ref)
          else _ ← record_success instance_id mth label retry_index status; mret value
      | Some _ =>
          _ ← failure (Some status) (Some "INVALID_RESPONSE");
          throw (InferRPCError status "INVALID_RESPONSE")
      end
  end.

Definition request (mth instance_id path : string) (body : option json)
    (ref : option EndpointOperationRef) : rpc (HttpInferClient * W) (odict string json) :=
  s ← get;
  let retry_index :=
    default 0 (dget (instance_id, mth, metric_endpoint path) (hc_failure_counts s.1)) in
  target ← lift (url instance_id path s.1);
  o ← await_wire (mkWireRequest mth target body);
  classify mth instance_id path body ref retry_index o.

End client.

(** ** The operations of a worker

    Every operation goes through the client's one request coroutine; a class
    carries it, so that its users do not depend on the wire. *)
Class InferClient (S : Type) : Type :=
  client_request : string → string → string → option json → option EndpointOperationRef →
    rpc S (odict string json).

Definition http_client (sha repr : json → string) {W : Type}
    (wire : wire_request → HttpInferClient * W → wire_outcome * (HttpInferClient * W))
    (hook : option (odict string json → HttpInferClient * W → bool * (HttpInferClient * W))) :
    InferClient (HttpInferClient * W) := request sha repr wire hook.

(** What the users of a client rely on: a lost answer names the reference the
    caller gave. *)
Class ClientLaws (S : Type) `{InferClient S} : Prop :=
  ambiguous_ref mth i path body ref (s s' : S) x :
    client_request mth i path body ref s = (Raise (AmbiguousRPCError x), s') → x = ref.

Section operations.
Context {S : Type} `{InferClient S}.

Definition get_identity (i : string) := client_request "GET" i "/v1/identity" None None.
Definition get_capabilities (i : string) := client_request "GET" i "/v1/capabilities" None None.
Definition get_resources (i : string) := client_request "GET" i "/v1/resources" None None.
Definition activate_owner (i owner : string) :=
  client_request "POST" i "/v1/owners/activate" (Some (JObj [("owner_generation", JStr owner)])) None.
Definition owner_status (i : string) := client_request "GET" i "/v1/owners/status" None None.
Definition retire_owner (i owner : string) :=
  client_request "POST" i ("/v1/owners/" +:+ owner +:+ "/retire") None None.
Definition list_operations (i owner : string) :=
  client_request "GET" i ("/v1/operations?owner_generation=" +:+ owner) None None.
Definition request_output (i req_id : string) (after_seq : Z) :=
  client_request "GET" i ("/v1/requests/" +:+ req_id +:+ "/output?after_seq=" +:+ pretty after_seq)
    None None.

Definition envelope (ref : EndpointOperationRef) (payload : odict string json) : json :=
  JObj [("schema_version", JInt 1); ("endpoint_ref", JObj (ref_json ref)); ("payload", JObj payload)].
Definition mutate (i path : string) (ref : EndpointOperationRef) (payload : odict string json) :=
  client_request "POST" i path (Some (envelope ref payload)) (Some ref).
Definition prepare_request (i : string) (ref : EndpointOperationRef) (p : odict string json) :=
  mutate i "/v1/requests/prepare" ref p.
Definition prepare_receive (i : string) (ref : EndpointOperationRef) (p : odict string json) :=
  mutate i "/v1/transfers/prepare-receive" ref p.
Definition start_transfer (i : string) (ref : EndpointOperationRef) (p : odict string json) :=
  mutate i "/v1/transfers/start" ref p.
Definition prefix_mutation (i action : string) (ref : EndpointOperationRef)
    (p : odict string json) : rpc S (odict string json) :=
  if bool_decide (action ∈ ["resolve"; "prepare"; "commit"])
  then mutate i ("/v1/prefix/" +:+ action) ref p
  else throw (PyError AssertionError).

Definition abort_call (i path : string) (ref : EndpointOperationRef) (reason : string) :=
  client_request "POST" i path
    (Some (JObj [("target_operation_ref", JObj (ref_json ref)); ("reason", JStr reason)]))
    (Some ref).
Definition abort_request (i : string) (ref : EndpointOperationRef) (reason : string) :=
  abort_call i ("/v1/requests/" +:+ ref_operation_id ref +:+ "/abort") ref reason.
Definition abort_transfer (i : string) (ref : EndpointOperationRef) (reason : string) :=
  abort_call i ("/v1/transfers/" +:+ ref_operation_id ref +:+ "/abort") ref reason.
Definition operation_status (i kind operation_id : string) :
    rpc S (odict string json) :=
  if bool_decide (kind ∈ ["requests"; "transfers"])
  then client_request "GET" i ("/v1/" +:+ kind +:+ "/" +:+ operation_id) None None
  else throw (PyError AssertionError).
Definition operation_ref_status (i : string) (ref : EndpointOperationRef) :=
  client_request "POST" i "/v1/operations/status" (Some (JObj (ref_json ref))) (Some ref).
Definition finalize_release (sha : json → string) (i : string) (f : Finalize) :
    rpc S (odict string json) :=
  value ← client_request "POST" i "/v1/cleanup/finalize" (Some (JObj (finalize_release_payload sha f)))
            (head (fin_endpoint_refs f));
  lift (validate_release_snapshot sha value i f None).
End operations.

(** ** The sequence allocator *)

Record EndpointSequenceAllocator := mkAllocator {
  al_topology_generation : string;
  al_owner_generation : string;
  al_next : odict string Z }.

Definition new_EndpointSequenceAllocator (topology owner : string) :
    result exn EndpointSequenceAllocator :=
  if truthy topology && truthy owner then Ok (mkAllocator topology owner [])
  else Raise AssertionError.

Definition next_seq (instance : string) (a : EndpointSequenceAllocator) : Z :=
  default 1 (dget instance (al_next a)).

Definition allocate (sha : json → string) (instance epoch operation_id : string)
    (payload : odict string json) : method EndpointSequenceAllocator EndpointOperationRef := λ a,
  let sequence := next_seq instance a in
  let a' := mkAllocator (al_topology_generation a) (al_owner_generation a)
              (dset instance (sequence + 1) (al_next a)) in
  (new_EndpointOperationRef
     (mkEndpointOperationRef (al_topology_generation a) (al_owner_generation a) sequence
        instance epoch operation_id (digest sha (JObj payload))), a').

(** ** Allocation *)

(** A run of allocations, in the order they are made. *)
Fixpoint allocate_all (sha : json → string)
    (rs : list (string * string * string * odict string json)) :
    method EndpointSequenceAllocator (list EndpointOperationRef) :=
  match rs with
  | [] => mret []
  | (instance, epoch, op, payload) :: rs' =>
      ref ← allocate sha instance epoch op payload;
      refs ← allocate_all sha rs';
      mret (ref :: refs)
  end.

(** No sequence number in use is handed out again. *)
Definition alloc_inv (a : EndpointSequenceAllocator) : Prop :=
  ∀ i n, dget i (al_next a) = Some n → 0 < n.

Lemma alloc_inv_next a i : alloc_inv a → 0 < next_seq i a.
Proof. intros Ha. unfold next_seq. destruct (dget i (al_next a)) eqn:E; simpl; [eauto|lia]. Qed.

Lemma digest_truthy sha v : truthy (digest sha v) = true.
Proof. by apply truthy_true. Qed.

(** An allocation never fails, and moves the counter of its instance by one. *)
Lemma allocate_spec sha i e op p a :
  alloc_inv a →
  ∃ a', allocate sha i e op p a
        = (Ok (mkEndpointOperationRef (al_topology_generation a) (al_owner_generation a)
                 (next_seq i a) i e op (digest sha (JObj p))), a')
    ∧ alloc_inv a'
    ∧ al_topology_generation a' = al_topology_generation a
    ∧ al_owner_generation a' = al_owner_generation a
    ∧ ∀ j, next_seq j a' = if decide (j = i) then next_seq i a + 1 else next_seq j a.
Proof.
  intros Ha. pose proof (alloc_inv_next _ i Ha). eexists. split_and!.
  - unfold allocate, new_EndpointOperationRef. cbn [ref_operation_seq ref_payload_digest].
    by rewrite bool_decide_true, digest_truthy.
  - intros j n. simpl. rewrite dget_dset. case_decide; [intros [= <-]; lia|apply Ha].
  - done.
  - done.
  - intros j. unfold next_seq at 1. simpl. rewrite dget_dset. by case_decide.
Qed.

(** The sequence numbers given to one instance. *)
Definition seqs_of (i : string) (refs : list EndpointOperationRef) : list Z :=
  ref_operation_seq <$> filter (λ r, ref_target_instance r = i) refs.

Lemma allocate_all_spec sha rs a :
  alloc_inv a →
  ∃ refs a', allocate_all sha rs a = (Ok refs, a') ∧ alloc_inv a'
    ∧ (λ r, (ref_target_instance r, ref_target_worker_epoch r, ref_operation_id r)) <$> refs
      = rs.*1
    ∧ ∀ i, seqs_of i refs = seqZ (next_seq i a) (Z.of_nat (length (seqs_of i refs)))
           ∧ next_seq i a' = next_seq i a + Z.of_nat (length (seqs_of i refs)).
Proof.
  revert a. induction rs as [|[[[i e] op] p] rs IH]; intros a Ha.
  - exists [], a. split_and!; try done. intros j. split; [done|simpl; lia].
  - destruct (allocate_spec sha i e op p a Ha) as (a1 & Hal & Ha1 & _ & _ & Hn).
    destruct (IH a1 Ha1) as (refs & a2 & Hall & Ha2 & Hids & Hseq).
    eexists (_ :: refs), a2. split.
    { cbn [allocate_all]. unfold mbind, method_mbind, method_bind. rewrite Hal, Hall. done. }
    split_and!; [done|by rewrite fmap_cons, Hids|].
    intros j. specialize (Hseq j) as [Hs Hx]. unfold seqs_of in *. rewrite filter_cons, Hn in *.
    simpl. destruct (decide (j = i)) as [->|Hne].
    + rewrite decide_True by done. cbn [fmap list_fmap length ref_operation_seq].
      split; [|lia]. rewrite Nat2Z.inj_succ, seqZ_cons by lia. f_equal. rewrite Hs at 1.
      f_equal; lia.
    + rewrite decide_False by congruence. done.
Qed.

(** ** Snapshots *)

(** The snapshot a worker sends for the finalization [f]. *)
Definition snapshot_json (sha : json → string) (f : Finalize) (epoch : string)
    (counts : list (string * Z)) : odict string json :=
  [("cleanup_id", JStr (fin_cleanup_id f)); ("operation_id", JStr (fin_operation_id f));
   ("lease_id", JStr (fin_lease_id f)); ("endpoint_epoch", JStr epoch);
   ("released_resource_kinds", jstrs (sorted_set (fin_resource_kinds f)));
   ("released_counts", JList ((λ c, JList [JStr c.1; JInt c.2]) <$> counts));
   ("resources_held_after", JBool false);
   ("payload_digest", JStr (finalize_digest sha f))].

(** [v] answers [f]: up to the order of its keys it is the snapshot of [f] for
    the worker [i], with a count for every kind of resource. *)
Definition answers (sha : json → string) (i : string) (f : Finalize) (expected : option string)
    (v : odict string json) : Prop :=
  ∃ counts, let epoch := release_epoch expected (fin_endpoint_refs f) in
    fin_endpoint_refs f ≠ [] ∧ epoch ≠ "" ∧ fin_resource_kinds f ≠ []
    ∧ Forall (λ r, ref_target_instance r = i ∧ ref_target_worker_epoch r = epoch
                   ∧ ref_operation_id r = fin_operation_id f) (fin_endpoint_refs f)
    ∧ counts.*1 = sorted_set (fin_resource_kinds f)
    ∧ Forall (λ c, c.1 ≠ "" ∧ 0 ≤ c.2) counts
    ∧ dequiv v (snapshot_json sha f epoch counts).

Lemma parse_count_Ok item c :
  parse_count item = Ok c ↔ item = JList [JStr c.1; JInt c.2] ∧ c.1 ≠ "" ∧ 0 ≤ c.2.
Proof.
  destruct c as [k n]. unfold parse_count. split.
  - repeat case_match; try done. rewrite need_then, andb_true_iff, truthy_true, bool_decide_eq_true.
    intros [[] [= -> ->]]. done.
  - simpl. intros (-> & Hk & Hn). apply truthy_true in Hk. by rewrite Hk, bool_decide_true.
Qed.

Lemma mapR_counts items counts :
  mapR parse_count items = Ok counts
  ↔ items = (λ c, JList [JStr c.1; JInt c.2]) <$> counts
    ∧ Forall (λ c, c.1 ≠ "" ∧ 0 ≤ c.2) counts.
Proof.
  rewrite mapR_Ok. split.
  - induction 1 as [|x c items counts [-> ?]%parse_count_Ok _ [-> ?]];
    [done|]. split; [done|by constructor].
  - intros [-> Hc]. induction Hc as [|c counts ? _ IH]; constructor; [|done]. by apply parse_count_Ok.
Qed.

Lemma length_dict_of {V} (l : list (string * V)) : NoDup l.*1 → length (dict_of l) = length l.
Proof.
  unfold dict_of. intros Hn.
  assert (∀ d : odict string V, (∀ k, k ∈ l.*1 → dget k d = None) →
    length (foldl (λ d kv, dset kv.1 kv.2 d) d l) = (length d + length l)%nat) as Hg;
    [|by rewrite Hg by done].
  induction l as [|[k v] l IH]; intros d Hd; simpl; [lia|].
  apply NoDup_cons in Hn as [Hk Hn]. rewrite IH; [|done|].
  - rewrite dset_fresh, length_app by (apply Hd; set_solver). simpl. lia.
  - intros k' Hk'. rewrite dget_dset_ne by (by intros ->). apply Hd. simpl. set_solver.
Qed.

Lemma sorted_set_NoDup l : NoDup (sorted_set l).
Proof. unfold sorted_set. rewrite sort_by_perm. apply NoDup_remove_dups. Qed.
Lemma elem_of_sorted_set x l : x ∈ sorted_set l ↔ x ∈ l.
Proof. unfold sorted_set. by rewrite elem_of_sort_by, elem_of_remove_dups. Qed.
Lemma sorted_set_nil l : sorted_set l = [] ↔ l = [].
Proof.
  split; [|by intros ->]. intros Hl. destruct l as [|x l]; [done|].
  assert (x ∈ sorted_set (x :: l)) as Hx by (rewrite elem_of_sorted_set; set_solver).
  rewrite Hl in Hx. set_solver.
Qed.

Lemma bound_refs i epoch op refs :
  forallb (bound_ref i epoch op) refs = true
  ↔ Forall (λ r, ref_target_instance r = i ∧ ref_target_worker_epoch r = epoch
                 ∧ ref_operation_id r = op) refs.
Proof.
  induction refs as [|r refs IH]; simpl; [done|].
  unfold bound_ref at 1. rewrite Forall_cons, !andb_true_iff, !bool_decide_eq_true, IH. tauto.
Qed.

(** An object with the fields of a snapshot is known by its fields. *)
Lemma snapshot_dequiv sha f epoch counts v :
  keys_are v RELEASE_SNAPSHOT_FIELDS = true
  ∧ (∀ k, k ∈ RELEASE_SNAPSHOT_FIELDS → jget k v = jget k (snapshot_json sha f epoch counts))
  ↔ dequiv v (snapshot_json sha f epoch counts).
Proof. apply (fields_dequiv (snapshot_json sha f epoch counts)). repeat constructor; discriminate. Qed.

Lemma validate_release_snapshot_iff sha v i f e v' :
  validate_release_snapshot sha v i f e = Ok v' ↔ v' = v ∧ answers sha i f e v.
Proof.
  unfold validate_release_snapshot, answers. cbv zeta.
  set (epoch := release_epoch e (fin_endpoint_refs f)).
  rewrite !need_then, !andb_true_iff, !py_eqb_str, truthy_true, bound_refs.
  rewrite !bool_decide_eq_true. unfold jstrs at 1. rewrite py_eqb_strs. split.
  - intros (Hk & Hr & He & Hb & Hs & Hf & Hc). destruct_and!.
    destruct (jget "released_counts" v) as [|?|?|?|?|items|?] eqn:Hi; try done.
    apply bind_Ok in Hc as (counts & [-> Hpos]%mapR_counts & HR).
    rewrite need_then, andb_true_iff, !bool_decide_eq_true in HR.
    destruct HR as ((Hkinds & _) & [= <-]). split; [done|]. exists counts.
    split_and!; try done; [by rewrite sorted_set_nil in Hs|].
    apply snapshot_dequiv. split; [done|]. intros k Hin. unfold RELEASE_SNAPSHOT_FIELDS in Hin.
    repeat (apply elem_of_cons in Hin as [->|Hin]; [done|]). by apply not_elem_of_nil in Hin.
  - intros (-> & counts & Hr & He & Hn & Hb & Hkinds & Hpos & [Hk Hj]%snapshot_dequiv).
    assert (∀ k, k ∈ RELEASE_SNAPSHOT_FIELDS → jget k v = jget k (snapshot_json sha f epoch counts))
      as Hj' by done.
    rewrite !Hj by (apply (bool_decide_eq_true_1 (_ ∈ _)); vm_compute; reflexivity).
    split_and!; try done; [by rewrite sorted_set_nil|].
    change (jget "released_counts" (snapshot_json sha f epoch counts))
      with (JList ((λ c, JList [JStr c.1; JInt c.2]) <$> counts)). cbv iota beta.
    apply bind_Ok. exists counts. split; [by apply mapR_counts|].
    rewrite need_then, andb_true_iff, !bool_decide_eq_true. split_and!; try done.
    apply length_dict_of. rewrite Hkinds. apply sorted_set_NoDup.
Qed.

(** ** Answers *)

(** The log shows no text of a worker: only known codes. *)
Definition clean_diagnostic (d : diagnostic) : Prop :=
  match d with
  | AttemptFailed _ _ _ _ _ (Some code) =>
      code ∈ INVALID_RPC_ERROR_CODE :: LOGGABLE_RPC_ERROR_CODES
  | _ => True
  end.

Lemma loggable_codes_match :
  Forall (λ c, rpc_error_code_pattern c = true ∧ (1 ≤ String.length c ≤ 64)%nat)
    LOGGABLE_RPC_ERROR_CODES.
Proof. apply (bool_decide_eq_true_1 (Forall _ _)). vm_compute. reflexivity. Qed.

Lemma safe_rpc_error_code_spec v :
  safe_rpc_error_code v
  = if bool_decide (v ∈ LOGGABLE_RPC_ERROR_CODES) then v else INVALID_RPC_ERROR_CODE.
Proof.
  unfold safe_rpc_error_code, MAX_LOGGED_RPC_ERROR_CODE_LENGTH.
  destruct (bool_decide (v ∈ LOGGABLE_RPC_ERROR_CODES)) eqn:Hv.
  - apply bool_decide_eq_true in Hv.
    destruct (proj1 (Forall_forall _ _) loggable_codes_match v Hv) as [Hp Hl].
    by rewrite Hp, bool_decide_true, bool_decide_false by auto.
  - apply bool_decide_eq_false in Hv. rewrite (bool_decide_true (v ∉ _)) by done.
    by repeat case_match.
Qed.

Lemma safe_rpc_error_code_clean v :
  safe_rpc_error_code v ∈ INVALID_RPC_ERROR_CODE :: LOGGABLE_RPC_ERROR_CODES.
Proof. rewrite safe_rpc_error_code_spec. case_bool_decide; [by right|left]. Qed.

Section answers.
Context (sha repr : json → string) {W : Type}.
Context (wire : wire_request → HttpInferClient * W → wire_outcome * (HttpInferClient * W)).
Context (hook : option (odict string json → HttpInferClient * W → bool * (HttpInferClient * W))).
Abbreviation state := (HttpInferClient * W)%type.

(** How the answer [r] of a call relates to what the wire brought. *)
Definition explains (mth i path : string) (body : option json) (ref : option EndpointOperationRef)
    (o : wire_outcome) (r : result rpc_exn (odict string json)) : Prop :=
  match r with
  | Ok v => ∃ status, o = Response status (Some (JObj v)) ∧ status < 400
  | Raise (AmbiguousRPCError x) =>
      x = ref ∧ (o = TransportError
                 ∨ (hook ≠ None ∧ ref ≠ None ∧ mth = "POST"
                    ∧ ∃ status v, o = Response status (Some (JObj v)) ∧ status < 400))
  | Raise (InferRPCError status code) =>
      (∃ answer b, o = Response status answer ∧ 400 ≤ status ∧ default (JObj []) answer = JObj b
                   ∧ code = py_str repr (default (JStr "HTTP_ERROR") (dget "code" b)))
      ∨ (∃ v, o = Response status (Some v) ∧ status < 400 ∧ as_obj v = None
              ∧ code = "INVALID_RESPONSE")
  | Raise (PyError e) =>
      o = OtherError e
      ∨ (∃ status, o = Response status None ∧ status < 400 ∧ e = ValueError)
      ∨ (∃ status v, o = Response status (Some v) ∧ 400 ≤ status ∧ as_obj v = None
                     ∧ e = AttributeError)
  end.

Lemma classify_explains mth i path body ref n o (s : state) :
  explains mth i path body ref o (classify sha repr hook mth i path body ref n o s).1.
Proof.
  unfold classify. destruct o as [|e|status answer]; simpl; [by auto|by auto|].
  case_bool_decide as Hst.
  - destruct (default (JObj []) answer) as [| | | | | |b] eqn:Hb; simpl.
    all: try (destruct answer as [v|]; simpl in Hb; [|done]; subst v; right; right; eauto 10).
    left. eauto 10.
  - destruct answer as [v|]; simpl; [|right; left; eauto with lia].
    destruct v as [| | | | | |value]; simpl.
    all: try (right; eexists; split_and!; [reflexivity|lia|done|done]).
    unfold mbind, rpc_mbind, run_hook. destruct hook as [h|] eqn:Hh.
    + destruct ref as [r|]; [|simpl; eauto with lia].
      case_bool_decide as Hm; [|simpl; eauto with lia].
      destruct (h _ s) as [[] s1]; simpl; [|eauto with lia].
      split; [done|]. right. split_and!; [congruence|congruence|done|]. exists status, value. split; [done|lia].
    + simpl. eauto with lia.
Qed.

(** What a call of [request] does before the wire answers. *)
Lemma request_eq mth i path body ref (s : state) :
  request sha repr wire hook mth i path body ref s
  = match url i path s.1 with
    | Raise e => (Raise (PyError e), s)
    | Ok target =>
        let '(o, s1) := wire (mkWireRequest mth target body) s in
        classify sha repr hook mth i path body ref
          (default 0 (dget (i, mth, metric_endpoint path) (hc_failure_counts s.1))) o s1
    end.
Proof.
  unfold request, mbind, rpc_mbind, get, lift, await_wire.
  destruct (url i path s.1); [|done]. by destruct (wire _ s).
Qed.

(** The counter of attempts and the log after an answer. *)
Definition counted (mth i path : string) (n : Z) (s' : state)
    (r : result rpc_exn (odict string json)) : Prop :=
  let count := dget (i, mth, metric_endpoint path) (hc_failure_counts s'.1) in
  match r with
  | Ok _ => count = None
  | Raise (AmbiguousRPCError _) | Raise (InferRPCError _ _) => count = Some (n + 1)
  | Raise (PyError _) => True
  end.

Lemma classify_counted mth i path body ref n o (s : state) :
  counted mth i path n (classify sha repr hook mth i path body ref n o s).2
    (classify sha repr hook mth i path body ref n o s).1.
Proof.
  unfold classify, counted, mbind, rpc_mbind, record_failure, record_success, update, throw.
  destruct o as [|e|status answer]; simpl; [by rewrite dget_dset_eq|done|].
  destruct (bool_decide (400 ≤ status)).
  { destruct (default (JObj []) answer); simpl; try done. by rewrite dget_dset_eq. }
  destruct answer as [[| | | | | |value]|]; simpl; rewrite ?dget_dset_eq; try done.
  destruct (run_hook sha repr hook mth i path body ref status value s) as [[[]|e] s1] eqn:Hr; simpl.
  - by rewrite dget_dset_eq.
  - case_bool_decide; simpl; by rewrite dget_dpop_eq.
  - unfold run_hook in Hr. repeat case_match; naive_solver.
Qed.

Lemma request_Ok mth i path body ref (s s' : state) v :
  request sha repr wire hook mth i path body ref s = (Ok v, s') →
  ∃ target status s1, url i path s.1 = Ok target
    ∧ wire (mkWireRequest mth target body) s = (Response status (Some (JObj v)), s1)
    ∧ status < 400.
Proof.
  rewrite request_eq. destruct (url i path s.1) as [target|]; [|done].
  destruct (wire _ s) as [o s1] eqn:Hw. intros Hc.
  pose proof (classify_explains mth i path body ref
    (default 0 (dget (i, mth, metric_endpoint path) (hc_failure_counts s.1))) o s1) as He.
  rewrite Hc in He. destruct He as (status & -> & ?). eauto 6.
Qed.


(** A finalization is accepted only as the answer to its own request: when
    [finalize_release] returns, the worker answered this very payload with an
    object that is, up to the order of its keys, the snapshot of this cleanup,
    operation, lease, epoch and digest, holding nothing, with one count for
    every kind of resource that was asked for, and every reference names this
    worker, its epoch and the operation. *)
Theorem finalize_is_bound i f (s s' : state) v :
  finalize_release (H := http_client sha repr wire hook) sha i f s = (Ok v, s') →
  answers sha i f None v
  ∧ ∃ target status s1,
      url i "/v1/cleanup/finalize" s.1 = Ok target ∧ status < 400
      ∧ wire (mkWireRequest "POST" target (Some (JObj (finalize_release_payload sha f)))) s
        = (Response status (Some (JObj v)), s1).
Proof.
  unfold finalize_release, client_request, http_client, mbind, rpc_mbind.
  destruct (request sha repr wire hook _ _ _ _ _ s) as [[value|e] s1] eqn:Hr; [|done].
  unfold lift. destruct (validate_release_snapshot sha value i f None) as [v'|e] eqn:Hv; [|done].
  intros [= -> ->]. apply validate_release_snapshot_iff in Hv as [-> Ha].
  split; [done|]. apply request_Ok in Hr as (target & status & s2 & Hu & Hw & Hst). eauto 8.
Qed.

Lemma http_client_laws : ClientLaws (H := http_client sha repr wire hook) state.
Proof.
  intros mth i path body ref s s' x. unfold client_request, http_client. rewrite request_eq.
  destruct (url i path s.1) as [target|]; [|done]. destruct (wire _ s) as [o s1]. intros Hc.
  pose proof (classify_explains mth i path body ref
    (default 0 (dget (i, mth, metric_endpoint path) (hc_failure_counts s.1))) o s1) as He.
  rewrite Hc in He. by destruct He.
Qed.
End answers.

(** The check of a release snapshot accepts exactly the answers to the
    request: it returns the object it was given precisely when that object is
    the snapshot of the request, for the expected epoch of the worker. *)
Theorem release_snapshot_exact sha v i f e v' :
  validate_release_snapshot sha v i f e = Ok v' ↔ v' = v ∧ answers sha i f e v.
Proof. apply validate_release_snapshot_iff. Qed.

Lemma seqs_of_NoDup refs :
  (∀ i, NoDup (seqs_of i refs)) →
  NoDup ((λ r, (ref_target_instance r, ref_operation_seq r)) <$> refs).
Proof.
  induction refs as [|r refs IH]; intros Hn; simpl; constructor.
  - intros (r' & [= Hi Hs] & Hr')%list_elem_of_fmap. specialize (Hn (ref_target_instance r)).
    unfold seqs_of in Hn. rewrite filter_cons, decide_True in Hn by done.
    apply NoDup_cons in Hn as [Hn _]. apply Hn, list_elem_of_fmap. exists r'.
    split; [done|]. by apply list_elem_of_filter.
  - apply IH. intros i. specialize (Hn i). unfold seqs_of in *. rewrite filter_cons in Hn.
    case_decide; [|done]. by apply NoDup_cons in Hn as [_ Hn].
Qed.

(** An owner never uses a sequence number of a worker twice.  However its
    allocations interleave over the workers, none fails, each reference names
    the worker, epoch and operation it was asked for, the numbers of one
    worker are 1, 2, 3, ... in the order of allocation, and no two references
    agree on worker and number. *)
Theorem allocations_are_dense sha topology owner rs :
  ∃ refs a', allocate_all sha rs (mkAllocator topology owner []) = (Ok refs, a')
    ∧ (λ r, (ref_target_instance r, ref_target_worker_epoch r, ref_operation_id r)) <$> refs
      = rs.*1
    ∧ (∀ i, seqs_of i refs = seqZ 1 (Z.of_nat (length (seqs_of i refs))))
    ∧ NoDup ((λ r, (ref_target_instance r, ref_operation_seq r)) <$> refs).
Proof.
  destruct (allocate_all_spec sha rs (mkAllocator topology owner [])) as
    (refs & a' & Hal & _ & Hids & Hs); [by intros i n|].
  exists refs, a'. split_and!; try done.
  - intros i. by destruct (Hs i) as [? _].
  - apply seqs_of_NoDup. intros i. destruct (Hs i) as [-> _]. apply NoDup_seqZ.
Qed.

(** ** A worker that answers *)

Definition demo_sha (v : json) : string := "00".
Definition demo_repr (v : json) : string := "".
Definition demo_finalize : Finalize :=
  mkFinalize "c" "op1" "l" [mkEndpointOperationRef "gen1" "owner" 1 "d1" "e1" "op1" "digest"]
    ["TARGET_PENDING"].
Definition demo_answer : odict string json :=
  snapshot_json demo_sha demo_finalize "e1" [("TARGET_PENDING", 3)].
Definition demo_wire (r : wire_request) (s : HttpInferClient * unit) :
    wire_outcome * (HttpInferClient * unit) := (Response 200 (Some (JObj demo_answer)), s).
Definition demo_client : HttpInferClient := mkHttpInferClient [("d1", "http://d1")] [] [].

Lemma finalize_is_bound_witness :
  answers demo_sha "d1" demo_finalize None demo_answer.
Proof.
  apply (finalize_is_bound demo_sha demo_repr demo_wire None "d1" demo_finalize
           (demo_client, tt) (demo_client, tt)).
  vm_compute. reflexivity.
Defined.
