(* ===== verification/NetworkRpc.v ===== *)
(** * The network control client: its tables (router/network_rpc.py)

    [NetworkControlRPC] remembers every reference it hands to a worker until
    the operation has no resources left anywhere.  This file holds its state
    and the methods that run without awaiting: allocation under a capacity,
    marking references, retiring operations, evidence and its owners, and the
    parsers of what workers report. *)

From S2P Require Import Prelude PyDict Json ResourceRelease HttpRpc.
From stdpp Require Import prelude gmap strings.

Local Open Scope Z_scope.

(** ** Parsing references *)

Definition ENDPOINT_REF_FIELDS : list string :=
  ["topology_generation"; "owner_generation"; "operation_seq"; "target_instance";
   "target_worker_epoch"; "operation_id"; "payload_digest"].

(** [if not c: raise RuntimeError] *)
Definition require (c : bool) : result exn unit := if c then Ok tt else Raise RuntimeError.

(** A field that must be a non-empty string. *)
Definition ref_text (v : odict string json) (field : string) : result exn string :=
  match jget field v with
  | JStr s => _ ← require (truthy s); mret s
  | _ => Raise RuntimeError
  end.

Definition parse_endpoint_ref (value : json) : result exn EndpointOperationRef :=
  match value with
  | JObj v =>
      _ ← require (keys_are v ENDPOINT_REF_FIELDS);
      topology ← ref_text v "topology_generation";
      owner ← ref_text v "owner_generation";
      instance ← ref_text v "target_instance";
      epoch ← ref_text v "target_worker_epoch";
      operation ← ref_text v "operation_id";
      payload ← ref_text v "payload_digest";
      match jget "operation_seq" v with
      | JInt seq =>
          _ ← require (bool_decide (0 < seq));
          new_EndpointOperationRef
            (mkEndpointOperationRef topology owner seq instance epoch operation payload)
      | _ => Raise RuntimeError
      end
  | _ => Raise RuntimeError
  end.

(** ** Facts of a finished transfer *)

Definition terminal_transfer_facts (source target : odict string json) :
    result exn (Z * bool * bool) :=
  _ ← require (py_eqb (jget "state" source) (JStr "COMPLETED")
               && py_eqb (jget "state" target) (JStr "COMPLETED"));
  match jget "result" source, jget "result" target with
  | JObj source_result, JObj target_result =>
      match jget "completed_bytes" source_result with
      | JInt source_bytes =>
          _ ← require (bool_decide (0 < source_bytes)
                       && py_eqb (JInt source_bytes) (jget "completed_bytes" target_result));
          let work := is_True_obj (jget "work_terminal" source_result)
                      && is_True_obj (jget "work_terminal" target_result) in
          let cuda := is_True_obj (jget "cuda_terminal" source_result)
                      && is_True_obj (jget "cuda_terminal" target_result) in
          _ ← require (work && cuda);
          mret (source_bytes, work, cuda)
      | _ => Raise RuntimeError
      end
  | _, _ => Raise RuntimeError
  end.

(** ** State *)

(** Kind, worker and operation of a remembered reference. *)
Definition ref_key : Type := string * string * string.
Definition key_operation (k : ref_key) : string := k.2.

Record NetworkControlRPC := mkNetworkControlRPC {
  nc_allocator : EndpointSequenceAllocator;
  nc_worker_epochs : odict string string;
  nc_query_interval : Z;
  nc_operation_timeout : Z;
  nc_block_size : Z;
  nc_block_bytes : Z;
  nc_active_cap : Z;
  nc_terminal_cap : Z;
  nc_clock_epoch : string;
  nc_refs : odict ref_key EndpointOperationRef;
  nc_attempted : gset EndpointOperationRef;
  nc_ambiguous : gset EndpointOperationRef;
  (** whether the transfer task of an operation is done *)
  nc_normal_tasks : odict string bool;
  nc_request_metadata : odict (string * string) (odict string json);
  nc_cleanup_plans : odict string CleanupPlan;
  nc_retired : odict string unit;
  nc_evidence : odict string (odict string json);
  nc_required : gset string;
  nc_operations : gset string;
  nc_owners : odict string string;
  nc_poisoned : bool }.

#[export] Instance NetworkControlRPC_eta : Eta NetworkControlRPC := λ r,
  mkNetworkControlRPC (nc_allocator r) (nc_worker_epochs r) (nc_query_interval r)
    (nc_operation_timeout r) (nc_block_size r) (nc_block_bytes r) (nc_active_cap r)
    (nc_terminal_cap r) (nc_clock_epoch r) (nc_refs r) (nc_attempted r) (nc_ambiguous r)
    (nc_normal_tasks r) (nc_request_metadata r) (nc_cleanup_plans r) (nc_retired r)
    (nc_evidence r) (nc_required r) (nc_operations r) (nc_owners r) (nc_poisoned r).

Definition set_allocator (v : EndpointSequenceAllocator) (r : NetworkControlRPC) :
  NetworkControlRPC := ltac:(with_field r nc_allocator v).
Definition set_refs (v : odict ref_key EndpointOperationRef) (r : NetworkControlRPC) :
  NetworkControlRPC := ltac:(with_field r nc_refs v).
Definition set_attempted (v : gset EndpointOperationRef) (r : NetworkControlRPC) :
  NetworkControlRPC := ltac:(with_field r nc_attempted v).
Definition set_ambiguous (v : gset EndpointOperationRef) (r : NetworkControlRPC) :
  NetworkControlRPC := ltac:(with_field r nc_ambiguous v).
Definition set_normal_tasks (v : odict string bool) (r : NetworkControlRPC) :
  NetworkControlRPC := ltac:(with_field r nc_normal_tasks v).
Definition set_request_metadata (v : odict (string * string) (odict string json))
  (r : NetworkControlRPC) : NetworkControlRPC := ltac:(with_field r nc_request_metadata v).
Definition set_cleanup_plans (v : odict string CleanupPlan) (r : NetworkControlRPC) :
  NetworkControlRPC := ltac:(with_field r nc_cleanup_plans v).
Definition set_retired (v : odict string unit) (r : NetworkControlRPC) :
  NetworkControlRPC := ltac:(with_field r nc_retired v).
Definition set_evidence (v : odict string (odict string json)) (r : NetworkControlRPC) :
  NetworkControlRPC := ltac:(with_field r nc_evidence v).
Definition set_required (v : gset string) (r : NetworkControlRPC) :
  NetworkControlRPC := ltac:(with_field r nc_required v).
Definition set_operations (v : gset string) (r : NetworkControlRPC) :
  NetworkControlRPC := ltac:(with_field r nc_operations v).
Definition set_owners (v : odict string string) (r : NetworkControlRPC) :
  NetworkControlRPC := ltac:(with_field r nc_owners v).
Definition set_poisoned (v : bool) (r : NetworkControlRPC) :
  NetworkControlRPC := ltac:(with_field r nc_poisoned v).

Definition new_NetworkControlRPC (allocator : EndpointSequenceAllocator)
    (worker_epochs : odict string string)
    (query_interval operation_timeout block_size block_bytes active_cap terminal_cap : Z)
    (clock_epoch : string) : result exn NetworkControlRPC :=
  if bool_decide (active_cap ≤ 0) || bool_decide (terminal_cap ≤ 0) then Raise ValueError
  else Ok (mkNetworkControlRPC allocator worker_epochs query_interval operation_timeout
             block_size block_bytes active_cap terminal_cap clock_epoch
             [] ∅ ∅ [] [] [] [] [] ∅ ∅ [] false).

(** ** References and their capacity *)

(** [{key[2] for key in self._refs}] *)
Definition active_operations (n : NetworkControlRPC) : gset string :=
  list_to_set (key_operation <$> dkeys (nc_refs n)).

Definition ensure_operation_capacity (op : string) (n : NetworkControlRPC) : result exn unit :=
  _ ← require (negb (dmem op (nc_retired n)));
  require (negb (bool_decide (op ∉ active_operations n)
                 && bool_decide (nc_active_cap n ≤ Z.of_nat (size (active_operations n))))).

(** A check that reads the object and raises. *)
Definition checked {S A} (f : S → result exn A) : method S A := λ s, (f s, s).

Definition remember_external_ref (kind instance op : string) (ref : EndpointOperationRef) :
    method NetworkControlRPC unit :=
  _ ← checked (ensure_operation_capacity op);
  modify (λ n, set_refs (dset (kind, instance, op) ref (nc_refs n)) n).

Definition mark_ref_attempted (ref : EndpointOperationRef) (n : NetworkControlRPC) :
    NetworkControlRPC := set_attempted ({[ref]} ∪ nc_attempted n) n.
Definition mark_ref_ambiguous (ref : EndpointOperationRef) (n : NetworkControlRPC) :
    NetworkControlRPC :=
  set_ambiguous ({[ref]} ∪ nc_ambiguous n) (mark_ref_attempted ref n).
Definition ref_requires_cleanup (ref : EndpointOperationRef) (n : NetworkControlRPC) : bool :=
  bool_decide (ref ∈ nc_attempted n) || bool_decide (ref ∈ nc_ambiguous n).

(** [ref in self._refs.values()] *)
Definition remembered (ref : EndpointOperationRef) (n : NetworkControlRPC) : result exn unit :=
  require (bool_decide (ref ∈ dvalues (nc_refs n))).
Definition mark_external_ref_attempted (ref : EndpointOperationRef) :
    method NetworkControlRPC unit :=
  _ ← checked (remembered ref); modify (mark_ref_attempted ref).
Definition mark_external_ref_ambiguous (ref : EndpointOperationRef) :
    method NetworkControlRPC unit :=
  _ ← checked (remembered ref); modify (mark_ref_ambiguous ref).

(** [self.worker_epochs[instance]] *)
Definition worker_epoch (instance : string) (n : NetworkControlRPC) : result exn string :=
  match dget instance (nc_worker_epochs n) with Some e => Ok e | None => Raise KeyError end.

Section tables.
Variable sha : json → string.
Variable repr : json → string.

Definition run_allocator (instance epoch op : string) (payload : odict string json) :
    method NetworkControlRPC EndpointOperationRef := λ n,
  let '(r, a) := allocate sha instance epoch op payload (nc_allocator n) in
  (r, set_allocator a n).

Definition allocate_ref (kind instance op : string) (payload : odict string json) :
    method NetworkControlRPC EndpointOperationRef :=
  _ ← checked (ensure_operation_capacity op);
  epoch ← checked (worker_epoch instance);
  ref ← run_allocator instance epoch op payload;
  _ ← modify (λ n, set_refs (dset (kind, instance, op) ref (nc_refs n)) n);
  mret ref.

(** [max(1, math.ceil(tokens / block_size))] for a positive block size *)
Definition block_count (tokens block_size : Z) : Z :=
  Z.max 1 ((tokens + block_size - 1) `div` block_size).

(** [{**base, **extra}] *)
Definition merged (base extra : odict string json) : odict string json :=
  foldl (λ d kv, dset kv.1 kv.2 d) base extra.

Definition normal_request_payload (req_id : string) (token_ids : list Z)
    (sampling_params event_subjects : odict string json) (n : NetworkControlRPC) :
    odict string json :=
  merged
    [("req_id", JStr req_id); ("mode", JStr "remote_transfer");
     ("block_count", JInt (block_count (Z.of_nat (length token_ids)) (nc_block_size n)));
     ("token_ids", JList (JInt <$> token_ids)); ("sampling_params", JObj sampling_params);
     ("held_resource_kinds", JList [JStr "TARGET_PENDING"])] event_subjects.

(** [prepare_normal_request] up to its await: the reference is remembered,
    described and marked before the worker can see it. *)
Definition begin_normal_request (target target_epoch req_id : string) (token_ids : list Z)
    (sampling_params event_subjects prefix_identity : odict string json) :
    method NetworkControlRPC (EndpointOperationRef * odict string json) :=
  epoch ← checked (worker_epoch target);
  _ ← ensure (bool_decide (epoch = target_epoch)) ValueError;
  n ← read;
  let payload := normal_request_payload req_id token_ids sampling_params event_subjects n in
  ref ← allocate_ref "request.prepare" target req_id payload;
  _ ← modify (λ n, set_request_metadata
                     (dset (target, req_id) (merged event_subjects prefix_identity)
                        (nc_request_metadata n)) n);
  _ ← modify (mark_ref_attempted ref);
  mret (ref, payload).

(** ** Evidence and its owners *)

Definition bind_correctness_operation (op req : string) : method NetworkControlRPC unit :=
  n ← read;
  if bool_decide (req ∉ nc_operations n) then mret tt
  else
    let owner := dget op (nc_owners n) in
    _ ← ensure (match owner with Some o => bool_decide (o = req) | None => true end) RuntimeError;
    _ ← ensure (match owner with
                | None => bool_decide (Z.of_nat (length (nc_owners n)) < nc_active_cap n)
                | Some _ => true end) RuntimeError;
    modify (λ n, set_owners (dset op req (nc_owners n)) n).

Definition discard_correctness_request_if_unowned (req : string) (n : NetworkControlRPC) :
    NetworkControlRPC :=
  if bool_decide (req ∈ nc_required n) then n
  else if bool_decide (req ∈ dvalues (nc_owners n)) then n
  else if bool_decide (req ∈ key_operation <$> dkeys (nc_refs n)) then n
  else set_operations (nc_operations n ∖ {[req]}) n.

Definition require_request_evidence (req : string) : method NetworkControlRPC unit :=
  n ← read;
  _ ← ensure (negb (bool_decide (req ∉ nc_operations n)
                    && bool_decide (nc_active_cap n ≤ Z.of_nat (size (nc_operations n)))))
        RuntimeError;
  modify (λ n, set_operations ({[req]} ∪ nc_operations n)
                 (set_required ({[req]} ∪ nc_required n) n)).

Definition cancel_request_evidence (req : string) (n : NetworkControlRPC) : NetworkControlRPC :=
  discard_correctness_request_if_unowned req (set_required (nc_required n ∖ {[req]}) n).

Definition store_request_evidence (req : string) (evidence : odict string json)
    (n : NetworkControlRPC) : NetworkControlRPC :=
  let n := discard_correctness_request_if_unowned req
             (set_required (nc_required n ∖ {[req]})
                (set_evidence (dset req evidence (nc_evidence n)) n)) in
  set_evidence (dtrim (nc_terminal_cap n) (dmove_end req evidence (nc_evidence n))) n.

Definition request_evidence (req : string) (n : NetworkControlRPC) :
    option (odict string json) := dget req (nc_evidence n).

(** ** Retiring an operation *)

Definition retire_tables (op : string) (n : NetworkControlRPC) : NetworkControlRPC :=
  set_normal_tasks (dpop op (nc_normal_tasks n))
    (set_cleanup_plans (filter (λ kv, cp_operation_id kv.2 ≠ op) (nc_cleanup_plans n))
       (set_request_metadata (filter (λ kv, kv.1.2 ≠ op) (nc_request_metadata n))
          (set_ambiguous (filter (λ r, ref_operation_id r ≠ op) (nc_ambiguous n))
             (set_attempted (filter (λ r, ref_operation_id r ≠ op) (nc_attempted n))
                (set_refs (filter (λ kv, key_operation kv.1 ≠ op) (nc_refs n))
                   (set_owners (dpop op (nc_owners n)) n)))))).

(** [task is None or task.done()] *)
Definition task_idle (op : string) (n : NetworkControlRPC) : bool :=
  default true (dget op (nc_normal_tasks n)).

(** The correctness request an operation belongs to, itself when it has no owner. *)
Definition owner_or_self (op : string) (n : NetworkControlRPC) : string :=
  default op (dget op (nc_owners n)).
Definition retired_state (op : string) (n : NetworkControlRPC) : NetworkControlRPC :=
  let n' := discard_correctness_request_if_unowned (owner_or_self op n) (retire_tables op n) in
  set_retired (dtrim (nc_terminal_cap n') (dmove_end op tt (nc_retired n'))) n'.

Definition retire_operation (op : string) : method NetworkControlRPC unit := λ n,
  if task_idle op n then (Ok tt, retired_state op n) else (Raise RuntimeError, n).

Definition state_counts (n : NetworkControlRPC) : odict string Z :=
  [("active_operations", Z.of_nat (size (active_operations n)));
   ("refs", Z.of_nat (length (nc_refs n)));
   ("request_metadata", Z.of_nat (length (nc_request_metadata n)));
   ("cleanup_plans", Z.of_nat (length (nc_cleanup_plans n)));
   ("retired_operations", Z.of_nat (length (nc_retired n)))].

(** ** Transfer tasks *)

(** [transfer_task] starts at most one task per operation. *)
Definition start_task (op : string) (n : NetworkControlRPC) : bool * NetworkControlRPC :=
  if dmem op (nc_normal_tasks n) then (false, n)
  else (true, set_normal_tasks (dset op false (nc_normal_tasks n)) n).
(** The task ends, and later its callback forgets it. *)
Definition task_ends (op : string) (n : NetworkControlRPC) : NetworkControlRPC :=
  if dmem op (nc_normal_tasks n) then set_normal_tasks (dset op true (nc_normal_tasks n)) n else n.
Definition task_forgotten (op : string) (n : NetworkControlRPC) : NetworkControlRPC :=
  set_normal_tasks (dpop op (nc_normal_tasks n)) n.
(** [quiesce] joins every task before it clears the table. *)
Definition quiesce (n : NetworkControlRPC) : NetworkControlRPC := set_normal_tasks [] n.

(** No target is reset in place. *)
Definition reset_to_waiting (instance req_id : string) : bool := false.

(** ** The response-loss hook *)

Definition SOURCE_ENDPOINT_KINDS : list string :=
  ["prefix.resolve"; "request.source"; "transfer.source"].
Definition TARGET_ENDPOINT_KINDS : list string :=
  ["prefix.commit"; "prefix.prepare"; "request.commit"; "request.prepare"; "suffix";
   "transfer.target"].

(** The kinds under which exactly this reference is known. *)
Definition ref_kinds (instance : string) (ref : EndpointOperationRef) (n : NetworkControlRPC) :
    list string :=
  ((λ kv, kv.1.1.1) <$> filter (λ kv, kv.1.1.2 = instance ∧ kv.2 = ref) (nc_refs n))
  ++ (plan ← dvalues (nc_cleanup_plans n);
      pred_name <$> filter (λ p, pred_endpoint_ref p = ref ∧ ref_target_instance ref = instance)
        (cp_predicates plan)).
Definition correctness_ref_kind (instance : string) (ref : EndpointOperationRef)
    (n : NetworkControlRPC) : option string :=
  match remove_dups (ref_kinds instance ref n) with [k] => Some k | _ => None end.

Definition hook_role (path : string) (kind : option string) : option string :=
  if bool_decide (path = "/v1/transfers/prepare-receive") then
    if bool_decide (kind = Some "transfer.target") then Some "target" else None
  else if bool_decide (path = "/v1/transfers/start") then
    if bool_decide (kind = Some "transfer.source") then Some "source" else None
  else if bool_decide (path = "/v1/cleanup/finalize") then
    match kind with
    | Some k =>
        if bool_decide (k ∈ SOURCE_ENDPOINT_KINDS) then Some "source"
        else if bool_decide (k ∈ TARGET_ENDPOINT_KINDS) then Some "target" else None
    | None => None
    end
  else None.

(** What the hook observed, when the mutation belongs to a request under test. *)
Definition hook_observed (details : odict string json) (n : NetworkControlRPC) :
    option (odict string json) :=
  match jget "endpoint_ref" details with
  | JObj d =>
      match parse_endpoint_ref (JObj d) with
      | Raise _ => None
      | Ok ref =>
          let path := py_str_or_empty repr (jget "path" details) in
          let instance := py_str_or_empty repr (jget "instance_id" details) in
          if negb (truthy instance) || bool_decide (ref_target_instance ref ≠ instance) then None
          else
            let op := if bool_decide (path = "/v1/cleanup/finalize")
                      then py_str_or_empty repr (jget "cleanup_operation_id" details)
                      else ref_operation_id ref in
            req ← dget op (nc_owners n);
            if bool_decide (req ∉ nc_operations n) then None
            else
              role ← hook_role path (correctness_ref_kind instance ref n);
              Some (dset "route_role" (JStr role) (dset "request_id" (JStr req) details))
      end
  | _ => None
  end.
End tables.

(** ** What the tables promise *)

Record net_inv (n : NetworkControlRPC) : Prop := {
  ni_caps : 0 < nc_active_cap n ∧ 0 < nc_terminal_cap n;
  ni_alloc : alloc_inv (nc_allocator n);
  ni_active : Z.of_nat (size (active_operations n)) ≤ nc_active_cap n;
  ni_retired : dwf (nc_retired n) ∧ Z.of_nat (length (nc_retired n)) ≤ nc_terminal_cap n;
  ni_fresh : ∀ op, op ∈ dkeys (nc_retired n) → op ∉ active_operations n;
  ni_ambiguous : nc_ambiguous n ⊆ nc_attempted n;
  ni_required : nc_required n ⊆ nc_operations n;
  ni_owned : ∀ req, req ∈ dvalues (nc_owners n) → req ∈ nc_operations n;
  ni_owners : dwf (nc_owners n) ∧ Z.of_nat (length (nc_owners n)) ≤ nc_active_cap n;
  ni_operations : Z.of_nat (size (nc_operations n)) ≤ nc_active_cap n;
  ni_evidence : dwf (nc_evidence n) ∧ Z.of_nat (length (nc_evidence n)) ≤ nc_terminal_cap n;
  ni_metadata : ∀ k, k ∈ dkeys (nc_request_metadata n) → k.2 ∈ active_operations n }.

(** The calls that change the tables, in any order. *)
Inductive net_op : Type :=
| OpAllocate (kind instance op : string) (payload : odict string json)
| OpBeginNormal (target epoch req_id : string) (token_ids : list Z)
    (sampling subjects identity : odict string json)
| OpRemember (kind instance op : string) (ref : EndpointOperationRef)
| OpAttempted (ref : EndpointOperationRef)
| OpAmbiguous (ref : EndpointOperationRef)
| OpExternalAttempted (ref : EndpointOperationRef)
| OpExternalAmbiguous (ref : EndpointOperationRef)
| OpBind (op req : string)
| OpRequire (req : string)
| OpCancel (req : string)
| OpStoreEvidence (req : string) (evidence : odict string json)
| OpPlan (cleanup_id : string) (plan : CleanupPlan)
| OpRetire (op : string)
| OpStartTask (op : string)
| OpTaskEnds (op : string)
| OpTaskForgotten (op : string)
| OpQuiesce
| OpPoison.

Definition net_exec (sha : json → string) (o : net_op) (n : NetworkControlRPC) :
    NetworkControlRPC :=
  match o with
  | OpAllocate k i op p => (allocate_ref sha k i op p n).2
  | OpBeginNormal t e r ts sp su id => (begin_normal_request sha t e r ts sp su id n).2
  | OpRemember k i op ref => (remember_external_ref k i op ref n).2
  | OpAttempted ref => mark_ref_attempted ref n
  | OpAmbiguous ref => mark_ref_ambiguous ref n
  | OpExternalAttempted ref => (mark_external_ref_attempted ref n).2
  | OpExternalAmbiguous ref => (mark_external_ref_ambiguous ref n).2
  | OpBind op req => (bind_correctness_operation op req n).2
  | OpRequire req => (require_request_evidence req n).2
  | OpCancel req => cancel_request_evidence req n
  | OpStoreEvidence req ev => store_request_evidence req ev n
  | OpPlan c plan => set_cleanup_plans (dset c plan (nc_cleanup_plans n)) n
  | OpRetire op => (retire_operation op n).2
  | OpStartTask op => (start_task op n).2
  | OpTaskEnds op => task_ends op n
  | OpTaskForgotten op => task_forgotten op n
  | OpQuiesce => quiesce n
  | OpPoison => set_poisoned true n
  end.

Definition net_run (sha : json → string) (ops : list net_op) (n : NetworkControlRPC) :
    NetworkControlRPC := foldl (λ n o, net_exec sha o n) n ops.

(** *** Step lemmas *)

Lemma require_Ok c x : require c = Ok x ↔ c = true.
Proof. destruct c, x; naive_solver. Qed.

Lemma active_insert kind i op r n :
  active_operations (set_refs (dset (kind, i, op) r (nc_refs n)) n)
  = {[op]} ∪ active_operations n.
Proof.
  apply set_eq. intros x. unfold active_operations. simpl.
  rewrite elem_of_union, elem_of_singleton, !elem_of_list_to_set, !list_elem_of_fmap.
  setoid_rewrite elem_of_dkeys_dset. unfold key_operation. split.
  - intros ([[k' i'] op'] & -> & [[= -> -> ->]|?]); [by left|right]. by exists (k', i', op').
  - intros [->|(k & -> & ?)]; [exists (kind, i, op)|exists k]; naive_solver.
Qed.

Lemma capacity_Ok op n :
  ensure_operation_capacity op n = Ok tt
  ↔ (op ∉ dkeys (nc_retired n))
    ∧ ((op ∈ active_operations n) ∨ Z.of_nat (size (active_operations n)) < nc_active_cap n).
Proof.
  unfold ensure_operation_capacity. destruct (dmem op (nc_retired n)) eqn:Hm; simpl.
  - apply dmem_true in Hm. naive_solver.
  - apply dmem_false, dget_None in Hm.
    rewrite require_Ok, negb_true_iff, andb_false_iff, !bool_decide_eq_false, Z.nle_gt.
    split; [intros [?|?]; split; auto; left; by apply dec_stable|tauto].
Qed.

(** Remembering one more reference within the capacity. *)
Lemma insert_ref_inv kind i op r n :
  net_inv n → ensure_operation_capacity op n = Ok tt →
  net_inv (set_refs (dset (kind, i, op) r (nc_refs n)) n).
Proof.
  intros [] [Hret Hcap]%capacity_Ok. split; try done; rewrite ?active_insert.
  - destruct (decide (op ∈ active_operations n)) as [Hin|Hni].
    + by replace ({[op]} ∪ active_operations n) with (active_operations n) by set_solver.
    + rewrite size_union, size_singleton by set_solver. destruct Hcap; [done|]. simpl in *. lia.
  - simpl. intros x Hx. specialize (ni_fresh0 x Hx). set_solver.
  - simpl. intros k Hk. specialize (ni_metadata0 k Hk). set_solver.
Qed.

Lemma discard_inv req n :
  net_inv n → net_inv (discard_correctness_request_if_unowned req n).
Proof.
  intros Hn. unfold discard_correctness_request_if_unowned.
  case_bool_decide; [done|]. case_bool_decide as Ho; [done|]. case_bool_decide; [done|].
  destruct Hn. split; try done; simpl.
  - set_solver.
  - intros r Hr. specialize (ni_owned0 r Hr). apply elem_of_difference. split; [done|].
    rewrite elem_of_singleton. by intros ->.
  - pose proof (subseteq_size (nc_operations n ∖ {[req]}) (nc_operations n) ltac:(set_solver)). lia.
Qed.

Lemma unrequire_inv req n : net_inv n → net_inv (set_required (nc_required n ∖ {[req]}) n).
Proof. intros []. split; try done. simpl. set_solver. Qed.

Lemma evidence_inv d n :
  net_inv n → dwf d → Z.of_nat (length d) ≤ nc_terminal_cap n → net_inv (set_evidence d n).
Proof. by intros []; split. Qed.

Lemma store_evidence_inv req ev n : net_inv n → net_inv (store_request_evidence req ev n).
Proof.
  intros Hn. unfold store_request_evidence. cbv zeta.
  (* the table may exceed its cap by one until the trim *)
  assert (net_inv (discard_correctness_request_if_unowned req
            (set_required (nc_required n ∖ {[req]}) n))) as Hd by auto using discard_inv, unrequire_inv.
  set (d := dset req ev (nc_evidence n)).
  assert (discard_correctness_request_if_unowned req
            (set_required (nc_required n ∖ {[req]}) (set_evidence d n))
          = set_evidence d (discard_correctness_request_if_unowned req
              (set_required (nc_required n ∖ {[req]}) n))) as ->.
  { unfold discard_correctness_request_if_unowned. simpl. by repeat case_bool_decide. }
  set (n1 := discard_correctness_request_if_unowned req _) in *. simpl.
  assert (dwf (dmove_end req ev d)) as Hw.
  { apply dmove_end_wf, dwf_dset. apply ni_evidence, Hn. }
  destruct (dtrim_spec (nc_terminal_cap n1) _ ltac:(pose proof (ni_caps _ Hd); lia) Hw).
  by apply (evidence_inv (dtrim (nc_terminal_cap n1) (dmove_end req ev d)) n1).
Qed.

Lemma elem_of_dkeys_filter {K V} (P : K * V → Prop) `{!∀ x, Decision (P x)} (d : list (K * V)) k :
  k ∈ (filter P d).*1 ↔ ∃ v, (k, v) ∈ d ∧ P (k, v).
Proof.
  rewrite list_elem_of_fmap. split.
  - intros ([k' v] & -> & [HP Hin]%list_elem_of_filter). eauto.
  - intros (v & Hin & HP). exists (k, v). split; [done|]. by apply list_elem_of_filter.
Qed.

Lemma elem_of_active op n : op ∈ active_operations n ↔ ∃ k, k ∈ dkeys (nc_refs n) ∧ k.2 = op.
Proof.
  unfold active_operations, key_operation.
  rewrite elem_of_list_to_set, list_elem_of_fmap. naive_solver.
Qed.

Lemma active_retired op n : active_operations (retire_tables op n) = active_operations n ∖ {[op]}.
Proof.
  apply set_eq. intros x. rewrite elem_of_difference, elem_of_singleton, !elem_of_active.
  unfold dkeys. simpl. setoid_rewrite elem_of_dkeys_filter. unfold key_operation. simpl. split.
  - intros (k & (v & Hin & Hne) & <-). split; [|done]. exists k. split; [|done].
    apply list_elem_of_fmap. by exists (k, v).
  - intros [(k & ([k' v] & -> & Hin)%list_elem_of_fmap & <-) Hne]. exists k'. simpl in *. eauto.
Qed.

Lemma retire_tables_inv op n : net_inv n → net_inv (retire_tables op n).
Proof.
  intros []. split; try done; rewrite ?active_retired.
  - pose proof (subseteq_size (active_operations n ∖ {[op]}) (active_operations n)
                  ltac:(set_solver)). simpl. lia.
  - intros x Hx. specialize (ni_fresh0 x Hx). set_solver.
  - simpl. intros r. rewrite !elem_of_filter. set_solver.
  - simpl. intros r Hr. apply ni_owned0. unfold dvalues, dpop in *.
    apply list_elem_of_fmap in Hr as (kv & -> & [_ Hin]%list_elem_of_filter).
    apply list_elem_of_fmap. eauto.
  - simpl. destruct ni_owners0. split; [by apply dwf_dpop|]. pose proof (length_dpop_le op (nc_owners n)). lia.
  - simpl. unfold dkeys. intros k (v & Hin & Hne)%elem_of_dkeys_filter. simpl in Hne.
    apply elem_of_difference. rewrite elem_of_singleton. split; [|done]. apply ni_metadata0.
    apply list_elem_of_fmap. by exists (k, v).
Qed.

Lemma elem_of_dkeys_dmove_end {V} k k' (v : V) d :
  k ∈ dkeys (dmove_end k' v d) → k = k' ∨ k ∈ dkeys d.
Proof.
  unfold dmove_end, dkeys. rewrite fmap_app, elem_of_app. intros [Hk|Hk]; [right|left].
  - change (k ∈ dkeys (dpop k' d)) in Hk. by apply elem_of_dkeys_dpop in Hk as [].
  - simpl in Hk. set_solver.
Qed.

Lemma dkeys_suffix {V} (d d' : odict string V) k : d' `suffix_of` d → k ∈ dkeys d' → k ∈ dkeys d.
Proof. intros [d0 ->]. unfold dkeys. rewrite fmap_app, elem_of_app. by right. Qed.

Lemma set_retired_inv op n :
  net_inv n → op ∉ active_operations n →
  net_inv (set_retired (dtrim (nc_terminal_cap n) (dmove_end op tt (nc_retired n))) n).
Proof.
  intros [] Hop. assert (dwf (dmove_end op tt (nc_retired n))) as Hw.
  { by apply dmove_end_wf, ni_retired0. }
  destruct (dtrim_spec (nc_terminal_cap n) _ ltac:(lia) Hw).
  split; try done. simpl. intros x Hx.
  apply (dkeys_suffix _ _ _ (dtrim_suffix (nc_terminal_cap n) _)) in Hx.
  by apply elem_of_dkeys_dmove_end in Hx as [->|?]; [|apply ni_fresh0].
Qed.

Lemma active_discard r m :
  active_operations (discard_correctness_request_if_unowned r m) = active_operations m.
Proof. unfold discard_correctness_request_if_unowned. by repeat case_bool_decide. Qed.

Lemma retire_operation_inv op n : net_inv n → net_inv (retire_operation op n).2.
Proof.
  intros Hn. unfold retire_operation. destruct (task_idle op n); [|done]. simpl. unfold retired_state.
  apply set_retired_inv; [auto using discard_inv, retire_tables_inv|].
  rewrite active_discard, active_retired. set_solver.
Qed.

Lemma allocate_ref_cases sha kind i op p n :
  net_inv n →
  match allocate_ref sha kind i op p n with
  | (Ok ref, n') =>
      ensure_operation_capacity op n = Ok tt ∧ net_inv n'
      ∧ ref_target_instance ref = i ∧ ref_operation_id ref = op
      ∧ ref_operation_seq ref = next_seq i (nc_allocator n)
      ∧ dget i (nc_worker_epochs n) = Some (ref_target_worker_epoch ref)
      ∧ n' = set_refs (dset (kind, i, op) ref (nc_refs n)) (set_allocator (nc_allocator n') n)
  | (Raise _, n') => n' = n
  end.
Proof.
  intros Hn. unfold allocate_ref, mbind, method_mbind, method_bind, checked, run_allocator, modify.
  destruct (ensure_operation_capacity op n) as [[]|] eqn:Hc; [|done].
  unfold worker_epoch. destruct (dget i (nc_worker_epochs n)) as [e|] eqn:He; [|done].
  destruct (allocate_spec sha i e op p (nc_allocator n) (ni_alloc _ Hn)) as
    (a & -> & Ha & _ & _ & _). simpl. split_and!; try done.
  apply (insert_ref_inv kind i op _ (set_allocator a n)); [|done]. by destruct Hn; split.
Qed.

Lemma mark_attempted_inv ref n : net_inv n → net_inv (mark_ref_attempted ref n).
Proof. intros []. split; try done. simpl. set_solver. Qed.
Lemma mark_ambiguous_inv ref n : net_inv n → net_inv (mark_ref_ambiguous ref n).
Proof. intros []. split; try done. simpl. set_solver. Qed.
Lemma set_normal_tasks_inv d n : net_inv n → net_inv (set_normal_tasks d n).
Proof. by intros []; split. Qed.
Lemma set_cleanup_plans_inv d n : net_inv n → net_inv (set_cleanup_plans d n).
Proof. by intros []; split. Qed.
Lemma set_poisoned_inv b n : net_inv n → net_inv (set_poisoned b n).
Proof. by intros []; split. Qed.

Create HintDb netw discriminated.
#[export] Hint Resolve mark_attempted_inv mark_ambiguous_inv set_normal_tasks_inv
  set_cleanup_plans_inv set_poisoned_inv store_evidence_inv discard_inv unrequire_inv
  retire_operation_inv : netw.

Lemma metadata_inv k v n :
  net_inv n → k.2 ∈ active_operations n →
  net_inv (set_request_metadata (dset k v (nc_request_metadata n)) n).
Proof.
  intros [] Hk. split; try done. simpl. intros k' [->|?]%elem_of_dkeys_dset; [done|]. by apply ni_metadata0.
Qed.

Lemma allocate_ref_inv sha kind i op p n : net_inv n → net_inv (allocate_ref sha kind i op p n).2.
Proof.
  intros Hn. pose proof (allocate_ref_cases sha kind i op p n Hn) as Hc.
  destruct (allocate_ref sha kind i op p n) as [[] ?]; simpl; [by destruct_and!|by subst].
Qed.

Lemma begin_normal_inv sha t e r ts sp su id n :
  net_inv n → net_inv (begin_normal_request sha t e r ts sp su id n).2.
Proof.
  intros Hn. unfold begin_normal_request, mbind, method_mbind, method_bind, checked, ensure, read,
    modify.
  destruct (worker_epoch t n); [|done]. case_bool_decide; [|done].
  set (p := normal_request_payload r ts sp su n).
  pose proof (allocate_ref_cases sha "request.prepare" t r p n Hn) as Hc.
  destruct (allocate_ref sha "request.prepare" t r p n) as [[ref|] n1]; simpl; [|by subst].
  destruct Hc as (_ & Hn1 & _ & _ & _ & _ & Heq). apply mark_attempted_inv, metadata_inv; [done|].
  pose proof (active_insert "request.prepare" t r ref (set_allocator (nc_allocator n1) n)) as Ha.
  change (nc_refs (set_allocator (nc_allocator n1) n)) with (nc_refs n) in Ha.
  rewrite <- Heq in Ha. rewrite Ha. simpl. set_solver.
Qed.

Lemma remember_inv kind i op ref n : net_inv n → net_inv (remember_external_ref kind i op ref n).2.
Proof.
  intros Hn. unfold remember_external_ref, mbind, method_mbind, method_bind, checked, modify.
  destruct (ensure_operation_capacity op n) as [[]|] eqn:Hc; [|done]. by apply insert_ref_inv.
Qed.

Lemma external_inv ref n :
  net_inv n → net_inv (mark_external_ref_attempted ref n).2
              ∧ net_inv (mark_external_ref_ambiguous ref n).2.
Proof.
  intros Hn. unfold mark_external_ref_attempted, mark_external_ref_ambiguous, mbind, method_mbind,
    method_bind, checked, modify.
  destruct (remembered ref n); simpl; auto with netw.
Qed.

Lemma bind_inv op req n : net_inv n → net_inv (bind_correctness_operation op req n).2.
Proof.
  intros Hn. unfold bind_correctness_operation, mbind, method_mbind, method_bind, read, ensure, modify.
  case_bool_decide as Hreq; [done|].
  destruct (dget op (nc_owners n)) as [o|] eqn:Ho; simpl.
  - case_bool_decide; [|done]. subst o. simpl. rewrite (dset_id op) by done. by destruct Hn; split.
  - case_bool_decide as Hlen; [|done]. destruct Hn. destruct ni_owners0 as [Hw ?].
    split; try done; simpl; rewrite (dset_fresh op) by done.
    + intros r. unfold dvalues. rewrite fmap_app, elem_of_app. intros [?|Hr]; [by apply ni_owned0|].
      simpl in Hr. by apply list_elem_of_singleton in Hr as ->.
    + rewrite <- (dset_fresh op) by done. split; [by apply dwf_dset|].
      rewrite dset_fresh, length_app by done. simpl. lia.
Qed.

Lemma require_evidence_inv req n : net_inv n → net_inv (require_request_evidence req n).2.
Proof.
  intros Hn. unfold require_request_evidence, mbind, method_mbind, method_bind, read, ensure, modify.
  destruct (bool_decide (req ∉ nc_operations n)) eqn:Hreq; simpl.
  - apply bool_decide_eq_true in Hreq. case_bool_decide as Hsz; [done|]. simpl. destruct Hn.
    split; try done; simpl; [set_solver|set_solver|].
    rewrite size_union, size_singleton by set_solver. lia.
  - apply bool_decide_eq_false, dec_stable in Hreq. destruct Hn.
    split; try done; simpl; [set_solver|set_solver|].
    by replace ({[req]} ∪ nc_operations n) with (nc_operations n) by set_solver.
Qed.
#[export] Hint Resolve allocate_ref_inv begin_normal_inv remember_inv bind_inv
  require_evidence_inv : netw.

Lemma net_exec_inv sha o n : net_inv n → net_inv (net_exec sha o n).
Proof.
  intros Hn. destruct o; simpl; auto with netw.
  - by apply external_inv.
  - by apply external_inv.
  - unfold cancel_request_evidence. auto with netw.
  - unfold start_task. case_match; simpl; auto with netw.
  - unfold task_ends. case_match; auto with netw.
  - unfold task_forgotten. auto with netw.
  - unfold quiesce. auto with netw.
Qed.

(** *** The retired operations *)

(** [op] retired, and at most [k] others retired after it. *)
Definition recent (op : string) (k : nat) (n : NetworkControlRPC) : Prop :=
  ∃ d1 d2, nc_retired n = d1 ++ (op, tt) :: d2 ∧ (length d2 ≤ k)%nat.

Lemma dtrim_keeps {V} cap (d1 d2 : odict string V) x :
  Z.of_nat (S (length d2)) ≤ cap → ∃ d1', dtrim cap (d1 ++ x :: d2) = d1' ++ x :: d2.
Proof.
  intros Hc. induction d1 as [|y d1 IH]; simpl.
  - exists []. rewrite bool_decide_false; [done|]. lia.
  - case_bool_decide; [apply IH|]. by exists (y :: d1).
Qed.

Lemma discard_frame r m :
  nc_retired (discard_correctness_request_if_unowned r m) = nc_retired m
  ∧ nc_terminal_cap (discard_correctness_request_if_unowned r m) = nc_terminal_cap m.
Proof. unfold discard_correctness_request_if_unowned. by repeat case_bool_decide. Qed.

Lemma retired_state_retired op n :
  nc_retired (retired_state op n) = dtrim (nc_terminal_cap n) (dmove_end op tt (nc_retired n)).
Proof.
  unfold retired_state. cbv zeta.
  destruct (discard_frame (owner_or_self op n) (retire_tables op n)) as [Hr Hc].
  cbn [nc_retired set_retired]. rewrite Hr, Hc. done.
Qed.

Lemma set_retired_cap d n : nc_terminal_cap (set_retired d n) = nc_terminal_cap n.
Proof. done. Qed.

Lemma retired_state_cap op n : nc_terminal_cap (retired_state op n) = nc_terminal_cap n.
Proof.
  unfold retired_state. cbv zeta.
  destruct (discard_frame (owner_or_self op n) (retire_tables op n)) as [_ Hc].
  by rewrite set_retired_cap, Hc.
Qed.

(** What a successful retirement leaves in the table of retired operations. *)
Lemma retired_next op n n' :
  retire_operation op n = (Ok tt, n') →
  nc_retired n' = dtrim (nc_terminal_cap n) (dmove_end op tt (nc_retired n)).
Proof.
  unfold retire_operation. destruct (task_idle op n); [|done].
  intros [= <-]. apply retired_state_retired.
Qed.

Lemma retire_terminal_cap op n : nc_terminal_cap (retire_operation op n).2 = nc_terminal_cap n.
Proof. unfold retire_operation. destruct (task_idle op n); [apply retired_state_cap|done]. Qed.

Lemma retire_recent op n n' :
  net_inv n → retire_operation op n = (Ok tt, n') → recent op 0 n'.
Proof.
  intros Hn Hr%retired_next. unfold recent. rewrite Hr. unfold dmove_end.
  destruct (dtrim_keeps (nc_terminal_cap n) (dpop op (nc_retired n)) [] (op, tt)) as [d1 ->].
  { pose proof (ni_caps _ Hn). simpl. lia. }
  by exists d1, [].
Qed.

Lemma retire_keeps_recent op op' k n :
  Z.of_nat (S (S k)) ≤ nc_terminal_cap n → recent op k n →
  recent op (S k) (retire_operation op' n).2.
Proof.
  intros Hk (d1 & d2 & Hr & Hl).
  destruct (retire_operation op' n) as [[[]|e] n'] eqn:He; simpl.
  - apply retired_next in He. unfold recent. rewrite He, Hr. unfold dmove_end.
    destruct (decide (op' = op)) as [->|Hne].
    + destruct (dtrim_keeps (nc_terminal_cap n) (dpop op (d1 ++ (op, tt) :: d2)) [] (op, tt))
        as [d ->]; [simpl; lia|]. exists d, []. split; [done|simpl; lia].
    + unfold dpop. rewrite filter_app, filter_cons_True by (simpl; congruence).
      rewrite <- (assoc_L (++)), <- app_comm_cons.
      destruct (dtrim_keeps (nc_terminal_cap n) (filter (λ kv, kv.1 ≠ op') d1)
        (filter (λ kv, kv.1 ≠ op') d2 ++ [(op', tt)]) (op, tt)) as [d ->].
      { rewrite length_app. simpl. pose proof (length_filter (λ kv, kv.1 ≠ op') d2). lia. }
      eexists _, _. split; [done|]. rewrite length_app. simpl.
      pose proof (length_filter (λ kv, kv.1 ≠ op') d2). lia.
  - unfold retire_operation in He. destruct (task_idle op' n); simplify_eq. exists d1, d2. split; [done|lia].
Qed.

Definition is_retire (o : net_op) : bool := match o with OpRetire _ => true | _ => false end.
Definition retirements (ops : list net_op) : nat := length (filter (λ o, is_retire o = true) ops).

Lemma allocate_frame sha kind i op p n :
  nc_retired (allocate_ref sha kind i op p n).2 = nc_retired n
  ∧ nc_terminal_cap (allocate_ref sha kind i op p n).2 = nc_terminal_cap n.
Proof.
  unfold allocate_ref, mbind, method_mbind, method_bind, checked, run_allocator, modify.
  destruct (ensure_operation_capacity op n); [|done]. destruct (worker_epoch i n); [|done].
  by destruct (allocate sha i _ op p (nc_allocator n)) as [[] ?].
Qed.

Lemma begin_normal_frame sha t e r ts sp su id n :
  nc_retired (begin_normal_request sha t e r ts sp su id n).2 = nc_retired n
  ∧ nc_terminal_cap (begin_normal_request sha t e r ts sp su id n).2 = nc_terminal_cap n.
Proof.
  unfold begin_normal_request, mbind, method_mbind, method_bind, checked, ensure, read, modify.
  destruct (worker_epoch t n); [|done]. case_bool_decide; [|done].
  set (p := normal_request_payload r ts sp su n).
  pose proof (allocate_frame sha "request.prepare" t r p n) as Hf.
  by destruct (allocate_ref sha "request.prepare" t r p n) as [[] n1].
Qed.

Lemma net_exec_frame sha o n :
  is_retire o = false → nc_retired (net_exec sha o n) = nc_retired n
                        ∧ nc_terminal_cap (net_exec sha o n) = nc_terminal_cap n.
Proof.
  intros Ho. destruct o; try done; simpl.
  - apply allocate_frame.
  - apply begin_normal_frame.
  - unfold remember_external_ref, mbind, method_mbind, method_bind, checked, modify.
    by destruct (ensure_operation_capacity op n).
  - unfold mark_external_ref_attempted, mbind, method_mbind, method_bind, checked, modify.
    by destruct (remembered ref n).
  - unfold mark_external_ref_ambiguous, mbind, method_mbind, method_bind, checked, modify.
    by destruct (remembered ref n).
  - unfold bind_correctness_operation, mbind, method_mbind, method_bind, read, ensure, modify.
    case_bool_decide; [done|]. destruct (dget op (nc_owners n)); by case_bool_decide.
  - unfold require_request_evidence, mbind, method_mbind, method_bind, read, ensure, modify.
    by destruct (negb _).
  - apply (discard_frame req (set_required (nc_required n ∖ {[req]}) n)).
  - unfold store_request_evidence. cbv zeta.
    by destruct (discard_frame req (set_required (nc_required n ∖ {[req]})
                   (set_evidence (dset req evidence (nc_evidence n)) n))).
  - unfold start_task. by destruct (dmem op (nc_normal_tasks n)).
  - unfold task_ends. by destruct (dmem op (nc_normal_tasks n)).
Qed.

Lemma net_run_recent sha ops op k n :
  net_inv n → recent op k n → Z.of_nat (S (k + retirements ops)) ≤ nc_terminal_cap n →
  net_inv (net_run sha ops n) ∧ recent op (k + retirements ops) (net_run sha ops n).
Proof.
  revert k n. induction ops as [|o ops IH]; intros k n Hn Hr Hk.
  - simpl. unfold retirements. simpl. by rewrite Nat.add_0_r.
  - unfold net_run, retirements in *. simpl. rewrite filter_cons in Hk |- *.
    pose proof (net_exec_inv sha o n Hn) as Hn'.
    destruct (is_retire o) eqn:Ho.
    + rewrite decide_True in Hk |- * by done. simpl in Hk |- *.
      rewrite Nat.add_succ_r in Hk |- *. destruct o as [| | | | | | | | | | | |op'| | | | |]; try done.
      apply (IH (S k)); [done| |cbn [net_exec]; rewrite retire_terminal_cap; lia].
      cbn [net_exec]. apply retire_keeps_recent; [lia|done].
    + rewrite decide_False in Hk |- * by done. destruct (net_exec_frame sha o n Ho) as [Hf Hc].
      apply IH; [done| |by rewrite Hc]. unfold recent. by rewrite Hf.
Qed.

Lemma new_net_inv topology owner epochs qi ot bs bb acap tcap clk n :
  new_NetworkControlRPC (mkAllocator topology owner []) epochs qi ot bs bb acap tcap clk = Ok n →
  net_inv n.
Proof.
  unfold new_NetworkControlRPC. intros Hn.
  destruct (bool_decide (acap ≤ 0)) eqn:H1, (bool_decide (tcap ≤ 0)) eqn:H2; try done.
  apply bool_decide_eq_false in H1, H2. injection Hn as <-.
  split; try done; cbn; try set_solver; try (split; [apply dwf_nil|]);
    try change (Z.of_nat (size (∅ : gset string)) ≤ acap); rewrite ?size_empty; simpl; lia.
Qed.

Lemma net_run_inv sha ops n : net_inv n → net_inv (net_run sha ops n).
Proof.
  revert n. unfold net_run. induction ops as [|o ops IH]; intros n Hn; simpl; [done|].
  by apply IH, net_exec_inv.
Qed.

(** C17: The tables of the network client stay within their bounds.  However
    its methods are called, in any order and whatever they raise: at most
    [active_operation_cap] operations have references, at most
    [terminal_snapshot_cap] retired operations and evidence records are kept,
    no retired operation has a reference, a reference whose outcome is unknown
    counts as attempted, a request whose evidence is required or owned by an
    operation stays under test, and metadata is kept for active operations
    only. *)
Theorem net_tables_inv sha topology owner a epochs qi ot bs bb acap tcap clk n ops :
  new_EndpointSequenceAllocator topology owner = Ok a →
  new_NetworkControlRPC a epochs qi ot bs bb acap tcap clk = Ok n →
  net_inv (net_run sha ops n).
Proof.
  unfold new_EndpointSequenceAllocator. intros Ha Hn.
  destruct (truthy topology && truthy owner); [|done]. injection Ha as <-.
  eapply net_run_inv, new_net_inv, Hn.
Qed.

(** A retired operation stays closed.  Once an operation was retired, no
    sequence of calls with fewer than [terminal_snapshot_cap] retirements in
    it can give the operation a reference again: it has none, and every
    attempt to allocate or to remember one raises and changes nothing. *)
Theorem retired_is_fenced sha n op n1 ops :
  net_inv n →
  retire_operation op n = (Ok tt, n1) →
  Z.of_nat (retirements ops) < nc_terminal_cap n1 →
  let n2 := net_run sha ops n1 in
  (op ∉ active_operations n2)
  ∧ (∀ kind i p, allocate_ref sha kind i op p n2 = (Raise RuntimeError, n2))
  ∧ (∀ kind i ref, remember_external_ref kind i op ref n2 = (Raise RuntimeError, n2)).
Proof.
  intros Hn Hr Hk n2. pose proof (retire_recent _ _ _ Hn Hr) as Hrec.
  pose proof (retire_operation_inv op n Hn) as Hn1. rewrite Hr in Hn1.
  destruct (net_run_recent sha ops op 0 n1 Hn1 Hrec ltac:(simpl; lia)) as [Hn2 (d1 & d2 & Hd & _)].
  fold n2 in Hn2, Hd. assert (op ∈ dkeys (nc_retired n2)) as Hin.
  { rewrite Hd. unfold dkeys. rewrite fmap_app. set_solver. }
  assert (ensure_operation_capacity op n2 = Raise RuntimeError) as Hcap.
  { unfold ensure_operation_capacity. apply dmem_true in Hin. by rewrite Hin. }
  split; [by apply (ni_fresh _ Hn2)|].
  unfold allocate_ref, remember_external_ref, mbind, method_mbind, method_bind, checked.
  by rewrite Hcap.
Qed.

(** ** Parsing gives back what was sent *)

(** What [__post_init__] and the allocator leave of a reference. *)
Definition ref_wf (r : EndpointOperationRef) : Prop :=
  ref_topology_generation r ≠ "" ∧ ref_owner_generation r ≠ "" ∧ 0 < ref_operation_seq r
  ∧ ref_target_instance r ≠ "" ∧ ref_target_worker_epoch r ≠ "" ∧ ref_operation_id r ≠ ""
  ∧ ref_payload_digest r ≠ "".

Lemma require_then {A} c (k : result exn A) y : (_ ← require c; k) = Ok y ↔ c = true ∧ k = Ok y.
Proof. destruct c; simpl; naive_solver. Qed.

Lemma ref_text_Ok v field s : ref_text v field = Ok s ↔ jget field v = JStr s ∧ s ≠ "".
Proof.
  unfold ref_text. split.
  - case_match; try done. rewrite require_then, truthy_true. by intros [? [= ->]].
  - intros [-> Hs%truthy_true]. by rewrite Hs.
Qed.

Lemma ref_json_dequiv r v :
  keys_are v ENDPOINT_REF_FIELDS = true
  ∧ (∀ k, k ∈ ENDPOINT_REF_FIELDS → jget k v = jget k (ref_json r)) ↔ dequiv v (ref_json r).
Proof. apply (fields_dequiv (ref_json r)). repeat constructor; discriminate. Qed.

Lemma parse_endpoint_ref_iff v r :
  parse_endpoint_ref v = Ok r ↔ ref_wf r ∧ ∃ d, v = JObj d ∧ dequiv d (ref_json r).
Proof.
  unfold parse_endpoint_ref. split.
  - destruct v as [| | | | | |d]; try done. rewrite require_then.
    intros [Hk HR]. repeat (apply bind_Ok in HR as (? & [? ?]%ref_text_Ok & HR)).
    destruct (jget "operation_seq" d) as [| |seq| | | |] eqn:Hs; try done.
    rewrite require_then, bool_decide_eq_true in HR. destruct HR as [Hpos HR].
    unfold new_EndpointOperationRef in HR. case_match; [|done]. injection HR as <-.
    split; [done|]. exists d. split; [done|]. apply ref_json_dequiv. split; [done|].
    intros k Hin. unfold ENDPOINT_REF_FIELDS in Hin.
    repeat (apply elem_of_cons in Hin as [->|Hin]; [done|]). by apply not_elem_of_nil in Hin.
  - intros [(? & ? & Hpos & ? & ? & ? & Hd) (d & -> & [Hk Hj]%ref_json_dequiv)].
    assert (∀ k, k ∈ ENDPOINT_REF_FIELDS → jget k d = jget k (ref_json r)) as Hj' by done.
    rewrite require_then. split; [done|].
    assert (∀ k s, k ∈ ENDPOINT_REF_FIELDS → jget k (ref_json r) = JStr s → s ≠ "" →
                   ref_text d k = Ok s) as Hf by (intros; apply ref_text_Ok; by rewrite Hj).
    repeat (apply bind_Ok; eexists; split;
      [eapply Hf; [apply (bool_decide_eq_true_1 (_ ∈ _)); vm_compute; reflexivity|reflexivity|done]|]).
    rewrite (Hj "operation_seq") by (apply (bool_decide_eq_true_1 (_ ∈ _)); vm_compute; reflexivity).
    change (jget "operation_seq" (ref_json r)) with (JInt (ref_operation_seq r)). cbv iota beta.
    rewrite require_then, bool_decide_eq_true. split; [done|].
    unfold new_EndpointOperationRef. simpl. apply truthy_true in Hd.
    rewrite bool_decide_true, Hd by done. by destruct r.
Qed.

(** A reference survives the wire: parsing accepts an object precisely
    when it is, up to the order of its keys, the encoding of a well-formed
    reference, and returns that reference; the encoding of a well-formed
    reference parses back to it. *)
Theorem endpoint_ref_roundtrip :
  (∀ v r, parse_endpoint_ref v = Ok r
          ↔ ref_wf r ∧ ∃ d, v = JObj d ∧ dequiv d (ref_json r))
  ∧ (∀ r, ref_wf r ↔ parse_endpoint_ref (JObj (ref_json r)) = Ok r).
Proof.
  split; [apply parse_endpoint_ref_iff|]. intros r. rewrite parse_endpoint_ref_iff.
  split; [|by intros [? _]]. intros Hr. split; [done|]. by exists (ref_json r).
Qed.

(** What the facts of a finished transfer say of its two terminal reports. *)
Definition transfer_finished (source target : odict string json) (bytes : Z) : Prop :=
  jget "state" source = JStr "COMPLETED" ∧ jget "state" target = JStr "COMPLETED" ∧ 0 < bytes
  ∧ ∃ sr tr, jget "result" source = JObj sr ∧ jget "result" target = JObj tr
    ∧ jget "completed_bytes" sr = JInt bytes
    ∧ py_eqb (JInt bytes) (jget "completed_bytes" tr) = true
    ∧ Forall (λ d, jget "work_terminal" d = JBool true ∧ jget "cuda_terminal" d = JBool true) [sr; tr].

Lemma is_True_obj_iff v : is_True_obj v = true ↔ v = JBool true.
Proof. destruct v as [|[]| | | | |]; naive_solver. Qed.

Lemma terminal_transfer_facts_Ok source target x :
  terminal_transfer_facts source target = Ok x
  ↔ ∃ bytes, x = (bytes, true, true) ∧ transfer_finished source target bytes.
Proof.
  unfold terminal_transfer_facts, transfer_finished.
  rewrite require_then, andb_true_iff, !py_eqb_str. split.
  - intros [[Hs Ht] HR]. destruct (jget "result" source) as [| | | | | |sr], (jget "result" target)
      as [| | | | | |tr]; try done.
    destruct (jget "completed_bytes" sr) as [| |bytes| | | |] eqn:Hb; try done.
    rewrite !require_then, !andb_true_iff, !is_True_obj_iff, bool_decide_eq_true in HR.
    destruct HR as ([Hpos Heq] & [[Hw1 Hw2] [Hc1 Hc2]] & [= <-]).
    exists bytes. rewrite Hw1, Hw2, Hc1, Hc2. simpl. split; [done|].
    split_and!; try done. exists sr, tr. by repeat constructor.
  - intros (bytes & -> & Hs & Ht & Hpos & sr & tr & -> & -> & -> & Heq & Hall).
    apply Forall_cons in Hall as [[Hw1 Hc1] Hall]. apply Forall_cons in Hall as [[Hw2 Hc2] _].
    split; [done|]. rewrite !require_then, !andb_true_iff, !is_True_obj_iff, bool_decide_eq_true.
    by rewrite Hw1, Hw2, Hc1, Hc2.
Qed.

(** ** Concrete instances *)

Definition demo_net : NetworkControlRPC :=
  mkNetworkControlRPC (mkAllocator "gen1" "owner" []) [("p1", "e0"); ("d1", "e1")] 50 30000 256 64 2 2
    "clk" [] ∅ ∅ [] [] [] [] [] ∅ ∅ [] false.

Lemma net_tables_inv_witness :
  net_inv (net_run demo_sha [OpAllocate "request.prepare" "d1" "r1" []; OpRetire "r1"] demo_net).
Proof.
  apply (net_tables_inv demo_sha "gen1" "owner" (mkAllocator "gen1" "owner" [])
           [("p1", "e0"); ("d1", "e1")] 50 30000 256 64 2 2 "clk"); reflexivity.
Defined.

Lemma demo_net_inv : net_inv demo_net.
Proof. eapply (new_net_inv "gen1" "owner" _ _ _ _ _ 2 2). reflexivity. Qed.

Lemma retired_is_fenced_witness :
  allocate_ref demo_sha "request.prepare" "d1" "r1" []
    (net_run demo_sha [OpRetire "r2"] (retired_state "r1" demo_net))
  = (Raise RuntimeError, net_run demo_sha [OpRetire "r2"] (retired_state "r1" demo_net)).
Proof.
  apply (retired_is_fenced demo_sha demo_net "r1" (retired_state "r1" demo_net) [OpRetire "r2"]).
  - apply demo_net_inv.
  - reflexivity.
  - vm_compute. reflexivity.
Defined.
