(* ===== verification/Sequencer.v ===== *)
(** * Mapped transfers and the launch sequencer (router/network_rpc.py)

    The gateway launches one NCCL pair at a time: a lock is held from the
    first mutation of a pair to the terminal proof of both of its endpoints,
    and any failure in between poisons the sequencer for good.

    A transfer is a coroutine: [pair_step] and [job_step] run it from an
    answer to its next await, and the system of this file interleaves any
    number of them.  Answers, times and cancellations are arbitrary inputs.
    [gated] says whether a correctness gate is installed.  When [gather]
    raises, the other waiter keeps polling; it only reads, so it is not kept.
    Metrics are not modelled. *)

From S2P Require Import Prelude PyDict SequenceState Json ResourceRelease Loader HttpRpc NetworkRpc.
From stdpp Require Import prelude gmap strings.

Local Open Scope Z_scope.

(** ** One pair *)

Record pair := mkPair {
  pr_source : string;
  pr_source_ref : EndpointOperationRef;
  pr_source_payload : odict string json;
  pr_target : string;
  pr_target_ref : EndpointOperationRef;
  pr_target_payload : odict string json }.

(** [_wait_terminal] of one endpoint. *)
Inductive waiter : Type :=
| Querying (deadline : Z)
| Sleeping (deadline : Z)
| Terminal (value : odict string json).

(** What [_run_nccl_pair] awaits. *)
Inductive pair_pc : Type :=
| AtLock
| AtPrepare
| AtReconcileTarget
| AtCheckpointBefore
| AtStart
| AtReconcileSource
| AtCheckpointAfter
| AtWait (target source : waiter).

Inductive side : Type := Target | Source.

#[export] Instance side_eq_dec : EqDecision side.
Proof. solve_decision. Defined.

Inductive input : Type :=
| Acquired
| Answer (r : result rpc_exn (odict string json))
| Passed (r : result exn unit)
| Polled (s : side) (r : result rpc_exn (odict string json))
| Woke (s : side)
| Cancelled.

Inductive pair_out : Type :=
| Continue (pc : pair_pc)
| Return (r : result rpc_exn (odict string json * odict string json)).

Section pairs.
Variable repr : json → string.
Variable gated : bool.

(** [_reconcile_ambiguous_transfer_mutation] after the query answered. *)
Definition reconcile_check (ref : EndpointOperationRef) (value : odict string json) :
    result exn unit :=
  _ ← require (py_eqb (jget "endpoint_ref" value) (JObj (ref_json ref)));
  let state := py_str repr (default (JStr "UNKNOWN") (dget "state" value)) in
  _ ← require (bool_decide (state ∈ ["PREPARED"; "RUNNING"; "UNKNOWN"; "COMPLETED"]));
  match jget "result" value with
  | JObj result =>
      _ ← require (truthy (py_str_or_empty repr (jget "pair_id" result)));
      _ ← require (match jget "completed_bytes" result with
                   | JInt z => bool_decide (0 < z) | _ => false end);
      _ ← require (match jget "work_terminal" result with JBool _ => true | _ => false end);
      require (match jget "cuda_terminal" result with JBool _ => true | _ => false end)
  | _ => Raise RuntimeError
  end.

(** A failure between the mutations and the terminal proof. *)
Definition poison (e : rpc_exn) (n : NetworkControlRPC) : pair_out * NetworkControlRPC :=
  (Return (Raise e), set_poisoned true n).

(** [str(source_payload.get("req_id") or ...) in self._correctness_required] *)
Definition under_test (p : pair) (n : NetworkControlRPC) : bool :=
  bool_decide (py_str_or_empty repr (jget "req_id" (pr_source_payload p)) ∈ nc_required n).

Definition start_source (p : pair) (n : NetworkControlRPC) : pair_out * NetworkControlRPC :=
  (Continue AtStart, mark_ref_attempted (pr_source_ref p) n).
Definition target_accepted (p : pair) (n : NetworkControlRPC) : pair_out * NetworkControlRPC :=
  if under_test p n && gated then (Continue AtCheckpointBefore, n) else start_source p n.
Definition start_waiting (now : Z) (n : NetworkControlRPC) : pair_out * NetworkControlRPC :=
  let deadline := now + nc_operation_timeout n in
  (Continue (AtWait (Querying deadline) (Querying deadline)), n).
Definition source_accepted (p : pair) (now : Z) (n : NetworkControlRPC) :
    pair_out * NetworkControlRPC :=
  if under_test p n && gated then (Continue AtCheckpointAfter, n) else start_waiting now n.

(** The answer of a mutation: accepted, lost, or refused. *)
Definition mutation_answer (ref : EndpointOperationRef) (reconcile : pair_pc)
    (accepted : NetworkControlRPC → pair_out * NetworkControlRPC)
    (r : result rpc_exn (odict string json)) (n : NetworkControlRPC) :
    pair_out * NetworkControlRPC :=
  match r with
  | Ok _ => accepted n
  | Raise (AmbiguousRPCError x) =>
      let n := mark_ref_ambiguous ref n in
      if bool_decide (x = Some ref) then (Continue reconcile, n) else poison (PyError RuntimeError) n
  | Raise e => poison e n
  end.

Definition reconcile_answer (ref : EndpointOperationRef)
    (accepted : NetworkControlRPC → pair_out * NetworkControlRPC)
    (r : result rpc_exn (odict string json)) (n : NetworkControlRPC) :
    pair_out * NetworkControlRPC :=
  match r with
  | Ok value =>
      match reconcile_check ref value with
      | Ok _ => accepted n
      | Raise e => poison (PyError e) n
      end
  | Raise e => poison e n
  end.

(** One iteration of [_wait_terminal]; [value.get("state") in {...}] needs a
    hashable value. *)
Definition poll (deadline now : Z) (value : odict string json) : result exn waiter :=
  match jget "state" value with
  | JList _ | JObj _ => Raise TypeError
  | v =>
      if py_eqb v (JStr "COMPLETED") then Ok (Terminal value)
      else if py_eqb v (JStr "FENCED") then Raise RuntimeError
      else if bool_decide (deadline ≤ now) then Raise TimeoutError
      else Ok (Sleeping deadline)
  end.

Definition both (target source : waiter) (n : NetworkControlRPC) : pair_out * NetworkControlRPC :=
  match target, source with
  | Terminal t, Terminal s =>
      match terminal_transfer_facts s t with
      | Ok _ => (Return (Ok (t, s)), n)
      | Raise e => poison (PyError e) n
      end
  | _, _ => (Continue (AtWait target source), n)
  end.

(** A waiter of [gather] moves. *)
Definition waiter_step (i : input) (sd : side) (w : waiter) (now : Z) :
    option (result rpc_exn waiter) :=
  match i, w with
  | Polled sd' r, Querying deadline =>
      if decide (sd' = sd) then Some
        (match r with
         | Ok value => match poll deadline now value with
                       | Ok w' => Ok w' | Raise e => Raise (PyError e) end
         | Raise e => Raise e
         end)
      else None
  | Woke sd', Sleeping deadline => if decide (sd' = sd) then Some (Ok (Querying deadline)) else None
  | _, _ => None
  end.

(** [_run_nccl_pair] from an input at time [now] to its next await; [None]
    when it does not await that input. *)
Definition pair_step (p : pair) (pc : pair_pc) (i : input) (now : Z) (n : NetworkControlRPC) :
    option (pair_out * NetworkControlRPC) :=
  match pc, i with
  | AtLock, Cancelled => Some (Return (Raise (PyError CancelledError)), n)
  | AtLock, Acquired =>
      Some (if nc_poisoned n then (Return (Raise (PyError RuntimeError)), n)
            else (Continue AtPrepare, mark_ref_attempted (pr_target_ref p) n))
  | AtLock, _ => None
  | _, Cancelled => Some (poison (PyError CancelledError) n)
  | AtPrepare, Answer r =>
      Some (mutation_answer (pr_target_ref p) AtReconcileTarget (target_accepted p) r n)
  | AtReconcileTarget, Answer r =>
      Some (reconcile_answer (pr_target_ref p) (target_accepted p) r n)
  | AtCheckpointBefore, Passed r =>
      Some (match r with Ok _ => start_source p n | Raise e => poison (PyError e) n end)
  | AtStart, Answer r =>
      Some (mutation_answer (pr_source_ref p) AtReconcileSource (source_accepted p now) r n)
  | AtReconcileSource, Answer r =>
      Some (reconcile_answer (pr_source_ref p) (source_accepted p now) r n)
  | AtCheckpointAfter, Passed r =>
      Some (match r with Ok _ => start_waiting now n | Raise e => poison (PyError e) n end)
  | AtWait t s, _ =>
      match waiter_step i Target t now, waiter_step i Source s now with
      | Some (Raise e), _ => Some (poison e n)
      | Some (Ok t'), _ => Some (both t' s n)
      | None, Some (Raise e) => Some (poison e n)
      | None, Some (Ok s') => Some (both t s' n)
      | None, None => None
      end
  | _, _ => None
  end.
End pairs.

(** ** Transfers *)

Inductive job : Type :=
| Normal (task : TransferTask)
| Cached (plan : CachedPrefixPlan).

Definition job_operation (j : job) : string :=
  match j with Normal t => task_operation_id t | Cached p => pl_operation_id p end.
Definition job_request (j : job) : string :=
  match j with Normal t => task_req_id t | Cached p => pl_req_id p end.
Definition job_source (j : job) : string :=
  match j with Normal t => task_src t | Cached p => pl_source_instance p end.
Definition job_target (j : job) : string :=
  match j with Normal t => task_dst t | Cached p => pl_target_instance p end.

Definition jints (l : list Z) : json := JList (JInt <$> l).

(** The [mapping] of a normal transfer and of a cached one. *)
Definition normal_mapping (t : TransferTask) : odict string json :=
  [("req_id", JStr (task_req_id t)); ("source_instance", JStr (task_src t));
   ("source_epoch", JStr (task_src_epoch t)); ("target_instance", JStr (task_dst t));
   ("target_epoch", JStr (task_dst_epoch t)); ("src_block_ids", jints (task_src_block_ids t));
   ("dst_block_ids", jints (task_dst_block_ids t)); ("kv_size_bytes", JInt (task_kv_size t))].
Definition cached_mapping (p : CachedPrefixPlan) (block_bytes : Z) : odict string json :=
  [("req_id", JStr (pl_req_id p)); ("source_instance", JStr (pl_source_instance p));
   ("source_epoch", JStr (pl_source_epoch p)); ("target_instance", JStr (pl_target_instance p));
   ("target_epoch", JStr (pl_target_epoch p)); ("src_block_ids", jints (pl_src_block_ids p));
   ("dst_block_ids", jints (pl_dst_block_ids p)); ("namespace", JStr (pl_namespace p));
   ("kv_compatibility_id", JStr (pl_kv_compatibility_id p));
   ("request_context_digest", JStr (pl_request_context_digest p));
   ("kv_size_bytes", JInt (Z.of_nat (length (pl_src_block_ids p)) * block_bytes))].
Definition job_payloads (j : job) (n : NetworkControlRPC) :
    odict string json * odict string json :=
  match j with
  | Normal t =>
      (normal_mapping t,
       normal_mapping t
       ++ [("held_resource_kinds", JList [JStr "SOURCE_RETAIN"; JStr "TRANSFER_BYTES"])])
  | Cached p => let m := cached_mapping p (nc_block_bytes n) in (m, m)
  end.

(** What a transfer needs once its pair is terminal. *)
Record moved := mkMoved {
  mv_pair : pair;
  mv_target_terminal : odict string json;
  mv_source_terminal : odict string json;
  mv_started : Z;
  mv_ended : Z }.

Inductive job_pc : Type :=
| Pairing (started : Z) (p : pair) (pc : pair_pc)
| Committing (m : moved) (ref : EndpointOperationRef) (payload : odict string json)
| QueryingCommit (m : moved) (ref : EndpointOperationRef) (payload : odict string json)
    (lost : option EndpointOperationRef)
| Recommitting (m : moved) (ref : EndpointOperationRef)
| JobReturned (r : result rpc_exn MappedTransferStatus).

Section jobs.
Variable sha : json → string.
Variable repr : json → string.
Variable gated : bool.

(** Both references are remembered before the pair waits for the lock. *)
Definition begin_pair (j : job) : method NetworkControlRPC pair :=
  n ← read;
  let '(target_payload, source_payload) := job_payloads j n in
  target_ref ← allocate_ref sha "transfer.target" (job_target j) (job_operation j) target_payload;
  source_ref ← allocate_ref sha "transfer.source" (job_source j) (job_operation j) source_payload;
  _ ← bind_correctness_operation (job_operation j) (job_request j);
  mret (mkPair (job_source j) source_ref source_payload (job_target j) target_ref target_payload).

Definition begin_job (j : job) (now : Z) (n : NetworkControlRPC) : job_pc * NetworkControlRPC :=
  match begin_pair j n with
  | (Ok p, n') => (Pairing now p AtLock, n')
  | (Raise e, n') => (JobReturned (Raise (PyError e)), n')
  end.

Definition opt_int (o : option Z) : json := from_option JInt JNull o.

Definition commit_payload (t : TransferTask) (target_ref : EndpointOperationRef)
    (n : NetworkControlRPC) : odict string json :=
  merged
    [("req_id", JStr (task_req_id t)); ("transfer_operation_id", JStr (task_operation_id t));
     ("namespace", JStr ""); ("kv_compatibility_id", JStr ""); ("request_context_digest", JStr "");
     ("cached_prefix_tokens", JInt (Z.of_nat (length (task_token_ids t))));
     ("first_token", opt_int (task_first_token t));
     ("transfer_endpoint_ref", JObj (ref_json target_ref));
     ("operation_id", JStr (task_operation_id t))]
    (default [] (dget (task_dst t, task_req_id t) (nc_request_metadata n))).

(** The evidence of a finished transfer. *)
Definition transfer_evidence (j : job) (m : moved) (bytes : Z) (work cuda : bool)
    (clock_epoch : string) : odict string json :=
  let '(path, src_blocks, dst_blocks, cached, suffix) :=
    match j with
    | Normal t => (if truthy (task_correctness_path t) then task_correctness_path t else "cold",
                   task_src_block_ids t, task_dst_block_ids t, 0, Z.of_nat (length (task_token_ids t)))
    | Cached p => ("cross_instance", pl_src_block_ids p, pl_dst_block_ids p,
                   pl_cached_prefix_tokens p,
                   Z.of_nat (length (pl_token_ids p)) - pl_cached_prefix_tokens p)
    end in
  [("request_id", JStr (job_request j)); ("operation_id", JStr (job_operation j));
   ("path", JStr path);
   ("route", JObj [("source", JStr (job_source j)); ("target", JStr (job_target j))]);
   ("src_block_ids", jints src_blocks); ("dst_block_ids", jints dst_blocks);
   ("cached_prefix_tokens", JInt cached); ("suffix_tokens", JInt suffix);
   ("completed_bytes", JInt bytes); ("work_terminal", JBool work); ("cuda_terminal", JBool cuda);
   ("gateway_clock_epoch", JStr clock_epoch);
   ("transfer_started_ns", JInt (mv_started m)); ("transfer_terminal_ns", JInt (mv_ended m));
   ("source_endpoint_ref", JObj (ref_json (pr_source_ref (mv_pair m))));
   ("target_endpoint_ref", JObj (ref_json (pr_target_ref (mv_pair m))));
   ("source_terminal", JObj (mv_source_terminal m)); ("target_terminal", JObj (mv_target_terminal m))].

Definition wants_evidence (j : job) (n : NetworkControlRPC) : bool :=
  match j with Normal t => truthy (task_correctness_path t) | Cached _ => false end
  || bool_decide (job_request j ∈ nc_required n).

(** The last lines of a transfer: evidence, then the callback or the status. *)
Definition finish_job (j : job) (m : moved) (n : NetworkControlRPC) : job_pc * NetworkControlRPC :=
  if wants_evidence j n then
    match terminal_transfer_facts (mv_source_terminal m) (mv_target_terminal m) with
    | Ok (bytes, work, cuda) =>
        (JobReturned (Ok MT_COMPLETED),
         store_request_evidence (job_request j)
           (transfer_evidence j m bytes work cuda (nc_clock_epoch n)) n)
    | Raise e => (JobReturned (Raise (PyError e)), n)
    end
  else (JobReturned (Ok MT_COMPLETED), n).

(** A normal transfer commits the request on the target; a cached one is done. *)
Definition after_pair (j : job) (m : moved) (n : NetworkControlRPC) : job_pc * NetworkControlRPC :=
  match j with
  | Cached _ => finish_job j m n
  | Normal t =>
      let payload := commit_payload t (pr_target_ref (mv_pair m)) n in
      match allocate_ref sha "request.commit" (task_dst t) (task_req_id t) payload n with
      | (Ok ref, n') => (Committing m ref payload, mark_ref_attempted ref n')
      | (Raise e, n') => (JobReturned (Raise (PyError e)), n')
      end
  end.

(** A cached transfer turns a lost answer into an unknown status. *)
Definition pair_failed (j : job) (e : rpc_exn) : job_pc :=
  JobReturned (match j, e with
               | Cached _, AmbiguousRPCError _ => Ok MT_UNKNOWN
               | _, _ => Raise e
               end).

Definition job_step (j : job) (pc : job_pc) (i : input) (now : Z) (n : NetworkControlRPC) :
    option (job_pc * NetworkControlRPC) :=
  match pc, i with
  | Pairing started p ppc, _ =>
      match pair_step repr gated p ppc i now n with
      | None => None
      | Some (Continue ppc', n') => Some (Pairing started p ppc', n')
      | Some (Return (Raise e), n') => Some (pair_failed j e, n')
      | Some (Return (Ok (t, s)), n') => Some (after_pair j (mkMoved p t s started now) n')
      end
  | JobReturned _, _ => None
  | _, Cancelled => Some (JobReturned (Raise (PyError CancelledError)), n)
  | Committing m ref payload, Answer r =>
      Some (match r with
            | Ok _ => finish_job j m n
            | Raise (AmbiguousRPCError x) =>
                (QueryingCommit m ref payload x, mark_ref_ambiguous ref n)
            | Raise e => (JobReturned (Raise e), n)
            end)
  | QueryingCommit m ref payload lost, Answer r =>
      Some (match r with
            | Raise e => (JobReturned (Raise e), n)
            | Ok value =>
                let state := py_str repr (default (JStr "UNKNOWN") (dget "state" value)) in
                if bool_decide (state = "COMPLETED") then finish_job j m n
                else if bool_decide (state ∈ ["RUNNING"; "PREPARED"])
                then (Recommitting m ref, mark_ref_attempted ref n)
                else (JobReturned (Raise (AmbiguousRPCError lost)), n)
            end)
  | Recommitting m ref, Answer r =>
      Some (match r with Ok _ => finish_job j m n | Raise e => (JobReturned (Raise e), n) end)
  | _, _ => None
  end.

(** ** Many transfers at once *)

(** What a transfer sends to the workers, and how its pair ends. *)
Inductive launch : Type :=
| Sends (j : nat) (s : side)
| Finished (j : nat) (source target : odict string json)
| Broke (j : nat).

Record seq_sys := mkSeqSys {
  sq_net : NetworkControlRPC;
  (** who holds [_nccl_sequence_lock] *)
  sq_lock : option nat;
  sq_jobs : list (job * job_pc);
  sq_log : list launch }.

(** Which mutations of a pair that holds the lock were sent. *)
Definition pair_side (pc : pair_pc) : option side :=
  match pc with
  | AtLock => None
  | AtPrepare | AtReconcileTarget | AtCheckpointBefore => Some Target
  | AtStart | AtReconcileSource | AtCheckpointAfter | AtWait _ _ => Some Source
  end.
Definition inside (pc : job_pc) : option side :=
  match pc with Pairing _ _ ppc => pair_side ppc | _ => None end.

(** What a step of the pair [k] from [ppc] sends or ends. *)
Definition pair_log (k : nat) (ppc : pair_pc) (out : pair_out) : list launch :=
  match ppc, out with
  | AtLock, Continue _ => [Sends k Target]
  | AtLock, Return _ => []
  | _, Continue AtStart => [Sends k Source]
  | _, Continue _ => []
  | _, Return (Ok (t, s)) => [Finished k s t]
  | _, Return (Raise _) => [Broke k]
  end.

(** The lock is held from the first await inside to the return of the pair. *)
Definition lock_after (k : nat) (ppc : pair_pc) (out : pair_out) (lock : option nat) : option nat :=
  match out, ppc with
  | Continue _, _ => Some k
  | Return _, AtLock => lock
  | Return _, _ => None
  end.

(** The lock goes to any of its waiters when it is free; other methods of the
    client may run between two steps, and none of them writes the poison. *)
Inductive seq_step (x : seq_sys) : seq_sys → Prop :=
| seq_begin j now pc n :
    begin_job j now (sq_net x) = (pc, n) →
    seq_step x (mkSeqSys n (sq_lock x) (sq_jobs x ++ [(j, pc)]) (sq_log x))
| seq_pair k j started p ppc i now out n' pc' n :
    sq_jobs x !! k = Some (j, Pairing started p ppc) →
    (i = Acquired → sq_lock x = None) →
    pair_step repr gated p ppc i now (sq_net x) = Some (out, n') →
    job_step j (Pairing started p ppc) i now (sq_net x) = Some (pc', n) →
    seq_step x (mkSeqSys n (lock_after k ppc out (sq_lock x)) (<[k := (j, pc')]> (sq_jobs x))
                  (sq_log x ++ pair_log k ppc out))
| seq_commit k j pc i now pc' n :
    sq_jobs x !! k = Some (j, pc) →
    (∀ started p ppc, pc ≠ Pairing started p ppc) →
    job_step j pc i now (sq_net x) = Some (pc', n) →
    seq_step x (mkSeqSys n (sq_lock x) (<[k := (j, pc')]> (sq_jobs x)) (sq_log x))
| seq_other n :
    nc_poisoned n = nc_poisoned (sq_net x) →
    seq_step x (mkSeqSys n (sq_lock x) (sq_jobs x) (sq_log x)).
End jobs.

(** ** The abstract launcher

    One pair at a time: target, source, both terminal, next.  After a break
    nothing is sent. *)
Inductive phase : Type :=
| Idle
| Open (j : nat) (s : side)
| Broken.

Definition launcher (ph : phase) (l : launch) : option phase :=
  match ph, l with
  | Idle, Sends j Target => Some (Open j Target)
  | Open j Target, Sends j' Source => if decide (j = j') then Some (Open j Source) else None
  | Open j Source, Finished j' _ _ => if decide (j = j') then Some Idle else None
  | Open j _, Broke j' => if decide (j = j') then Some Broken else None
  | _, _ => None
  end.
Fixpoint launches (ph : phase) (log : list launch) : option phase :=
  match log with
  | [] => Some ph
  | l :: log' => match launcher ph l with Some ph' => launches ph' log' | None => None end
  end.

Lemma launches_app ph log1 log2 :
  launches ph (log1 ++ log2)
  = match launches ph log1 with Some ph' => launches ph' log2 | None => None end.
Proof.
  revert ph. induction log1 as [|l log1 IH]; intros ph; simpl; [done|]. by destruct (launcher ph l).
Qed.

(** A pair is recorded as finished only on the terminal proof of both ends. *)
Definition proven (l : launch) : Prop :=
  match l with Finished _ s t => ∃ bytes, transfer_finished s t bytes | _ => True end.

Section invariant.
Context (sha repr : json → string) (gated : bool).

(** What a step of a pair that holds the lock may do. *)
Definition pair_post (s : side) (n : NetworkControlRPC) (out : pair_out * NetworkControlRPC) : Prop :=
  match out with
  | (Continue AtStart, n') => s = Target ∧ nc_poisoned n' = nc_poisoned n
  | (Continue ppc, n') => pair_side ppc = Some s ∧ nc_poisoned n' = nc_poisoned n
  | (Return (Ok (t, sr)), n') =>
      s = Source ∧ nc_poisoned n' = nc_poisoned n ∧ ∃ bytes, transfer_finished sr t bytes
  | (Return (Raise _), n') => nc_poisoned n' = true
  end.

Lemma poison_post s n n' e : pair_post s n (poison e n').
Proof. done. Qed.

Lemma accepted_post p now n n' :
  nc_poisoned n' = nc_poisoned n →
  pair_post Target n (target_accepted repr gated p n')
  ∧ pair_post Source n (source_accepted repr gated p now n').
Proof.
  intros Hn. unfold target_accepted, source_accepted, start_source, start_waiting.
  by destruct (under_test repr p n' && gated).
Qed.

Lemma mutation_post s ref pc k r n :
  pair_side pc = Some s → pc ≠ AtStart →
  (∀ n', nc_poisoned n' = nc_poisoned n → pair_post s n (k n')) →
  pair_post s n (mutation_answer ref pc k r n).
Proof.
  intros Hs Hne Hk. unfold mutation_answer. destruct r as [v|[st c|x|e]]; try done; [by apply Hk|].
  case_bool_decide; [|apply poison_post]. by destruct pc.
Qed.

Lemma reconcile_post s ref k r n :
  (∀ n', nc_poisoned n' = nc_poisoned n → pair_post s n (k n')) →
  pair_post s n (reconcile_answer repr ref k r n).
Proof.
  intros Hk. unfold reconcile_answer. destruct r as [v|e]; [|done].
  destruct (reconcile_check repr ref v); [by apply Hk|done].
Qed.

Lemma both_post t s n : pair_post Source n (both t s n).
Proof.
  unfold both. destruct t as [| |tv]; try done. destruct s as [| |sv]; try done.
  destruct (terminal_transfer_facts sv tv) eqn:Hf; [|done].
  apply terminal_transfer_facts_Ok in Hf as (bytes & _ & Hfin). split_and!; eauto.
Qed.

Lemma pair_step_post p ppc i now n out s :
  pair_side ppc = Some s → pair_step repr gated p ppc i now n = Some out → pair_post s n out.
Proof.
  intros Hs Hp. destruct (match i with Cancelled => true | _ => false end) eqn:Hi.
  { destruct i; try done. destruct ppc; try done; injection Hp as <-; done. }
  destruct ppc as [| | | | | | |tw sw]; try done; injection Hs as <-.
  7: { unfold pair_step in Hp.
       destruct (waiter_step i Target tw now) as [[]|], (waiter_step i Source sw now) as [[]|],
         i; try done; injection Hp as <-; try apply both_post; done. }
  all: destruct i as [|r|r|sd r|sd|]; try done; injection Hp as <-.
  - apply mutation_post; [done|done|]. intros n' Hn. by apply (accepted_post p now).
  - apply reconcile_post. intros n' Hn. by apply (accepted_post p now).
  - by destruct r.
  - apply mutation_post; [done|done|]. intros n' Hn. by apply accepted_post.
  - apply reconcile_post. intros n' Hn. by apply accepted_post.
  - by destruct r.
Qed.

(** *** Nothing else writes the poison *)

Lemma allocate_poison k i op pl n :
  nc_poisoned (allocate_ref sha k i op pl n).2 = nc_poisoned n.
Proof.
  unfold allocate_ref, mbind, method_mbind, method_bind, checked, run_allocator, modify.
  destruct (ensure_operation_capacity op n); [|done]. destruct (worker_epoch i n); [|done].
  by destruct (allocate sha i _ op pl (nc_allocator n)) as [[] ?].
Qed.

Lemma bind_poison op req n :
  nc_poisoned (bind_correctness_operation op req n).2 = nc_poisoned n.
Proof.
  unfold bind_correctness_operation, mbind, method_mbind, method_bind, read, ensure, modify.
  case_bool_decide; [done|]. destruct (dget op (nc_owners n)); by case_bool_decide.
Qed.

Lemma discard_poison r n :
  nc_poisoned (discard_correctness_request_if_unowned r n) = nc_poisoned n.
Proof. unfold discard_correctness_request_if_unowned. by repeat case_bool_decide. Qed.

Lemma set_evidence_poison d n : nc_poisoned (set_evidence d n) = nc_poisoned n.
Proof. done. Qed.

Lemma store_poison req ev n : nc_poisoned (store_request_evidence req ev n) = nc_poisoned n.
Proof. unfold store_request_evidence. cbv zeta. by rewrite set_evidence_poison, discard_poison. Qed.

Lemma begin_job_poison j now n pc n' :
  begin_job sha j now n = (pc, n') → nc_poisoned n' = nc_poisoned n ∧ inside pc = None.
Proof.
  unfold begin_job, begin_pair, mbind, method_mbind, method_bind, read.
  destruct (job_payloads j n) as [tp sp].
  pose proof (allocate_poison "transfer.target" (job_target j) (job_operation j) tp n) as H1.
  destruct (allocate_ref sha "transfer.target" _ _ _ n) as [[tr|] n1]; simpl in H1;
    [|intros Heq; by simplify_eq].
  pose proof (allocate_poison "transfer.source" (job_source j) (job_operation j) sp n1) as H2.
  destruct (allocate_ref sha "transfer.source" _ _ _ n1) as [[sr|] n2]; simpl in H2;
    [|intros Heq; simplify_eq; split; [congruence|done]].
  pose proof (bind_poison (job_operation j) (job_request j) n2) as H3.
  destruct (bind_correctness_operation _ _ n2) as [[u|e] n3]; simpl in H3;
    intros Heq; cbv [mret method_mret method_ret] in Heq; simplify_eq; (split; [congruence|done]).
Qed.

Lemma finish_job_poison j m n :
  nc_poisoned (finish_job j m n).2 = nc_poisoned n ∧ inside (finish_job j m n).1 = None.
Proof.
  unfold finish_job. destruct (wants_evidence j n); [|done].
  destruct (terminal_transfer_facts _ _) as [[[]]|]; [|done]. split; [|done]. apply store_poison.
Qed.

Lemma after_pair_poison j m n :
  nc_poisoned (after_pair sha j m n).2 = nc_poisoned n ∧ inside (after_pair sha j m n).1 = None.
Proof.
  unfold after_pair. destruct j as [t|p]; [|apply finish_job_poison].
  pose proof (allocate_poison "request.commit" (task_dst t) (task_req_id t)
    (commit_payload t (pr_target_ref (mv_pair m)) n) n) as Ha.
  by destruct (allocate_ref sha "request.commit" _ _ _ n) as [[] ?].
Qed.

(** A transfer past its pair does not touch the sequencer. *)
Lemma commit_poison j pc i now n pc' n' :
  (∀ started p ppc, pc ≠ Pairing started p ppc) →
  job_step sha repr gated j pc i now n = Some (pc', n') →
  nc_poisoned n' = nc_poisoned n ∧ inside pc = None ∧ inside pc' = None.
Proof.
  intros Hp Hs. destruct pc as [st p ppc|m ref pl|m ref pl lost|m ref|]; [by destruct (Hp st p ppc)|..];
    try done; destruct i as [|r|r|sd r|sd|]; try done; simpl in Hs; simplify_eq; try done.
  all: pose proof (finish_job_poison j m n) as [Hf1 Hf2].
  all: destruct r as [v|[st c|x|e]]; repeat case_bool_decide; simplify_eq; try done.
  all: match goal with Heq : finish_job _ _ _ = _ |- _ => rewrite Heq in Hf1, Hf2 end; done.
Qed.

(** *** The invariant *)

Definition phase_of (ph : phase) (x : seq_sys) : Prop :=
  match ph with
  | Idle => sq_lock x = None ∧ nc_poisoned (sq_net x) = false
  | Open k s => sq_lock x = Some k ∧ nc_poisoned (sq_net x) = false
                ∧ ∃ j pc, sq_jobs x !! k = Some (j, pc) ∧ inside pc = Some s
  | Broken => sq_lock x = None ∧ nc_poisoned (sq_net x) = true
  end.

Record seq_inv (x : seq_sys) (ph : phase) : Prop := {
  si_log : launches Idle (sq_log x) = Some ph;
  si_phase : phase_of ph x;
  si_inside : ∀ k j pc s, sq_jobs x !! k = Some (j, pc) → inside pc = Some s → ph = Open k s;
  si_proven : Forall proven (sq_log x) }.

(** The coroutine [k] moved outside the lock, or another client method ran. *)
Lemma seq_inv_quiet x ph n jobs :
  seq_inv x ph → nc_poisoned n = nc_poisoned (sq_net x) →
  (∀ k s, (∃ j pc, jobs !! k = Some (j, pc) ∧ inside pc = Some s)
          ↔ (∃ j pc, sq_jobs x !! k = Some (j, pc) ∧ inside pc = Some s)) →
  seq_inv (mkSeqSys n (sq_lock x) jobs (sq_log x)) ph.
Proof.
  intros [Hl Hp Hi Hf] Hn Hj. split; try done.
  - destruct ph; simpl in *; rewrite Hn; try done. destruct Hp as (? & ? & Hp). split_and!; try done.
    by apply Hj.
  - simpl. intros k j pc s H1 H2. destruct (proj1 (Hj k s)) as (j' & pc' & ? & ?); eauto.
Qed.

Lemma inside_insert_quiet (jobs : list (job * job_pc)) k j pc pc' :
  jobs !! k = Some (j, pc) → inside pc = None → inside pc' = None →
  ∀ k0 s, (∃ j0 pc0, <[k := (j, pc')]> jobs !! k0 = Some (j0, pc0) ∧ inside pc0 = Some s)
          ↔ (∃ j0 pc0, jobs !! k0 = Some (j0, pc0) ∧ inside pc0 = Some s).
Proof.
  intros Hk Hpc Hpc' k0 s. destruct (decide (k = k0)) as [<-|Hne].
  - rewrite list_lookup_insert_eq by eauto using lookup_lt_Some. naive_solver.
  - by rewrite list_lookup_insert_ne.
Qed.

Lemma lookup_job_update (jobs : list (job * job_pc)) k jp k0 j0 pc0 :
  <[k := jp]> jobs !! k0 = Some (j0, pc0) → (k0 = k ∧ (j0, pc0) = jp) ∨ (k0 ≠ k ∧ jobs !! k0 = Some (j0, pc0)).
Proof.
  destruct (decide (k0 = k)) as [->|Hne]; [|rewrite list_lookup_insert_ne by done; auto].
  intros Hl. left. split; [done|]. rewrite list_lookup_insert_eq in Hl; [congruence|].
  apply lookup_lt_Some in Hl. by rewrite length_insert in Hl.
Qed.

(** The holder of the lock moved: its new phase decides. *)
Lemma seq_inv_holder x ph k j pc n lock log pc' ph' :
  seq_inv x ph → sq_jobs x !! k = Some (j, pc) →
  (∀ k0 j0 pc0 s0, k0 ≠ k → sq_jobs x !! k0 = Some (j0, pc0) → inside pc0 ≠ Some s0) →
  launches ph log = Some ph' → Forall proven log →
  (∀ s, inside pc' = Some s → ph' = Open k s) →
  phase_of ph' (mkSeqSys n lock (<[k := (j, pc')]> (sq_jobs x)) (sq_log x ++ log)) →
  seq_inv (mkSeqSys n lock (<[k := (j, pc')]> (sq_jobs x)) (sq_log x ++ log)) ph'.
Proof.
  intros [Hl _ _ Hf] Hk Ho Hlog Hpr Hin Hph. split; try done; simpl.
  - by rewrite launches_app, Hl.
  - intros k0 j0 pc0 s0 [[-> [= -> ->]]|[Hne Hj]]%lookup_job_update Hs; [by apply Hin|].
    by destruct (Ho k0 j0 pc0 s0 Hne Hj).
  - by apply Forall_app.
Qed.

(** The steps of a pair that waits for the lock. *)
Lemma waiting_step_inv x ph k j started p i now out n' pc' n :
  seq_inv x ph → sq_jobs x !! k = Some (j, Pairing started p AtLock) →
  (i = Acquired → sq_lock x = None) →
  pair_step repr gated p AtLock i now (sq_net x) = Some (out, n') →
  job_step sha repr gated j (Pairing started p AtLock) i now (sq_net x) = Some (pc', n) →
  ∃ ph', seq_inv (mkSeqSys n (lock_after k AtLock out (sq_lock x)) (<[k := (j, pc')]> (sq_jobs x))
                    (sq_log x ++ pair_log k AtLock out)) ph'.
Proof.
  intros Hinv Hk Hlock Hp Hs. unfold job_step in Hs. rewrite Hp in Hs.
  assert ((∃ e, out = Return (Raise e) ∧ n' = sq_net x)
          ∨ (i = Acquired ∧ nc_poisoned (sq_net x) = false ∧ out = Continue AtPrepare
             ∧ n' = mark_ref_attempted (pr_target_ref p) (sq_net x)))
    as [(e & -> & ->)|(-> & Hpo & -> & ->)].
  { destruct i as [|r|r|sd r|sd|]; try done; simpl in Hp; [|left; simplify_eq; eauto].
    destruct (nc_poisoned (sq_net x)); simplify_eq; [left|right]; eauto. }
  - exists ph. simplify_eq. simpl. rewrite app_nil_r. apply seq_inv_quiet; [done|done|].
    by eapply inside_insert_quiet.
  - simplify_eq. specialize (Hlock eq_refl). simpl.
    assert (ph = Idle) as ->.
    { pose proof (si_phase _ _ Hinv) as Hph. destruct ph; simpl in Hph; [done| |];
        destruct_and!; congruence. }
    exists (Open k Target). eapply seq_inv_holder; try done.
    + intros k0 j0 pc0 s0 _ Hj Hi. by pose proof (si_inside _ _ Hinv k0 j0 pc0 s0 Hj Hi).
    + by repeat constructor.
    + by intros s [= <-].
    + simpl. split_and!; try done. exists j, (Pairing started p AtPrepare). split; [|done].
      apply list_lookup_insert_eq. by eapply lookup_lt_Some.
Qed.

(** The steps of a pair that holds the lock. *)
Lemma holding_step_inv x ph k j started p ppc i now out n' pc' n s :
  seq_inv x ph → sq_jobs x !! k = Some (j, Pairing started p ppc) → pair_side ppc = Some s →
  pair_step repr gated p ppc i now (sq_net x) = Some (out, n') →
  job_step sha repr gated j (Pairing started p ppc) i now (sq_net x) = Some (pc', n) →
  ∃ ph', seq_inv (mkSeqSys n (lock_after k ppc out (sq_lock x)) (<[k := (j, pc')]> (sq_jobs x))
                    (sq_log x ++ pair_log k ppc out)) ph'.
Proof.
  intros Hinv Hk Hside Hp Hs. unfold job_step in Hs. rewrite Hp in Hs.
  pose proof (si_inside _ _ Hinv k j _ s Hk Hside) as ->.
  destruct (si_phase _ _ Hinv) as (Hlock & Hpo & _).
  apply (pair_step_post _ _ _ _ _ _ _ Hside) in Hp as Hpost.
  assert (∀ k0 j0 pc0 s0, k0 ≠ k → sq_jobs x !! k0 = Some (j0, pc0) → inside pc0 ≠ Some s0) as Ho.
  { intros k0 j0 pc0 s0 Hne Hj Hi. pose proof (si_inside _ _ Hinv k0 j0 pc0 s0 Hj Hi). congruence. }
  assert (<[k := (j, pc')]> (sq_jobs x) !! k = Some (j, pc')) as Hl.
  { apply list_lookup_insert_eq. by eapply lookup_lt_Some. }
  assert (ppc ≠ AtLock) as Hna by (by intros ->).
  destruct out as [ppc'|[[t sr]|e]].
  - injection Hs as <- <-. replace (lock_after k ppc (Continue ppc') (sq_lock x)) with (Some k) by done.
    destruct (match ppc' with AtStart => true | _ => false end) eqn:Hst.
    + destruct ppc'; try done. destruct Hpost as [-> Hn]. exists (Open k Source).
      replace (pair_log k ppc (Continue AtStart)) with [Sends k Source] by (by destruct ppc).
      eapply seq_inv_holder; try done; simpl.
      * by rewrite decide_True.
      * by repeat constructor.
      * by intros s' [= <-].
      * split_and!; [done|congruence|eauto].
    + assert (pair_side ppc' = Some s ∧ nc_poisoned n' = nc_poisoned (sq_net x)) as [Hs' Hn]
        by (by destruct ppc').
      exists (Open k s). replace (pair_log k ppc (Continue ppc')) with (@nil launch)
        by (by destruct ppc, ppc').
      eapply seq_inv_holder; try done; simpl.
      * intros s'. rewrite Hs'. by intros [= <-].
      * split_and!; [done|congruence|eauto].
  - destruct Hpost as (-> & Hn & Hfin). injection Hs as Hs.
    pose proof (after_pair_poison j (mkMoved p t sr started now) n') as [Ha1 Ha2].
    rewrite Hs in Ha1, Ha2. simpl in Ha1, Ha2. exists Idle.
    replace (pair_log k ppc (Return (Ok (t, sr)))) with [Finished k sr t] by (by destruct ppc).
    replace (lock_after k ppc (Return (Ok (t, sr))) (sq_lock x)) with (@None nat) by (by destruct ppc).
    eapply seq_inv_holder; try done; simpl.
    + by rewrite decide_True.
    + by repeat constructor.
    + intros s'. by rewrite Ha2.
    + split; [done|congruence].
  - injection Hs as <- <-. exists Broken.
    replace (pair_log k ppc (Return (Raise e))) with [Broke k] by (by destruct ppc).
    replace (lock_after k ppc (Return (Raise e)) (sq_lock x)) with (@None nat) by (by destruct ppc).
    eapply seq_inv_holder; try done; simpl.
    + by destruct s; rewrite decide_True.
    + by repeat constructor.
Qed.

Lemma seq_step_inv x y ph :
  seq_inv x ph → seq_step sha repr gated x y → ∃ ph', seq_inv y ph'.
Proof.
  intros Hinv Hstep. destruct Hstep as [j now pc n Hb|k j started p ppc i now out n' pc' n Hk Hlk Hp Hs
    |k j pc i now pc' n Hk Hnp Hs|n Hn].
  - apply begin_job_poison in Hb as [Hn Hin]. exists ph. apply seq_inv_quiet; [done|done|].
    intros k s. destruct (decide (k < length (sq_jobs x))%nat).
    + by rewrite lookup_app_l.
    + rewrite lookup_app_r by lia. rewrite (lookup_ge_None_2 (sq_jobs x)) by lia.
      destruct (k - length (sq_jobs x))%nat; simpl; naive_solver congruence.
  - destruct (pair_side ppc) as [s|] eqn:Hside.
    + by eapply holding_step_inv.
    + destruct ppc; try done. by eapply waiting_step_inv.
  - destruct (commit_poison _ _ _ _ _ _ _ Hnp Hs) as (Hn & H1 & H2). exists ph.
    apply seq_inv_quiet; [done|done|]. by apply inside_insert_quiet with (pc := pc).
  - exists ph. by apply seq_inv_quiet.
Qed.
End invariant.

Lemma seq_reachable sha repr gated n x :
  nc_poisoned n = false → rtc (seq_step sha repr gated) (mkSeqSys n None [] []) x →
  ∃ ph, seq_inv x ph.
Proof.
  intros Hn Hr. assert (∃ ph, seq_inv (mkSeqSys n None [] []) ph) as H0.
  { exists Idle. by split. }
  revert H0. induction Hr as [|x y z Hs _ IH]; [done|]. intros [ph Hinv]. apply IH.
  by eapply seq_step_inv.
Qed.

Lemma launches_broken log ph : launches Broken log = Some ph → log = [] ∧ ph = Broken.
Proof. destruct log as [|[]]; simpl; naive_solver. Qed.

(** Without its end, a pair stays open or broke. *)
Lemma launches_open j s log ph :
  launches (Open j s) log = Some ph → (∀ sr t, Finished j sr t ∉ log) →
  ph = Broken ∨ ∃ s', ph = Open j s'.
Proof.
  revert s. induction log as [|l log IH]; intros s Hl Hn; [naive_solver|]. cbn [launches] in Hl.
  destruct (launcher (Open j s) l) as [ph1|] eqn:Hs; [|done].
  assert ((∃ s1, ph1 = Open j s1) ∨ (ph1 = Broken)) as [[s1 ->]| ->].
  { destruct s, l as [j' [|]|j' sr t|j']; simpl in Hs; try done; case_decide; simplify_eq; eauto.
    destruct (Hn sr t). by left. }
  - eapply IH; [done|]. intros sr t Hin. apply (Hn sr t). by right.
  - left. by apply launches_broken in Hl as [_ ->].
Qed.

Definition ends (j : nat) (l : launch) : bool :=
  match l with Finished j' _ _ => bool_decide (j' = j) | _ => false end.

Lemma launches_split ph log1 l log2 ph' :
  launches ph (log1 ++ l :: log2) = Some ph' →
  ∃ ph1 ph2, launches ph log1 = Some ph1 ∧ launcher ph1 l = Some ph2 ∧ launches ph2 log2 = Some ph'.
Proof.
  rewrite launches_app. destruct (launches ph log1) as [ph1|] eqn:H1; [|done]. simpl.
  destruct (launcher ph1 l) as [ph2|] eqn:H2; [|done]. eauto.
Qed.

(** C8: Pairs are launched one at a time, each after the proof of the one
    before.  However the transfers, their answers, time-outs and
    cancellations interleave: what is sent to the workers is a run of the
    abstract launcher, between the mutations of two different pairs lies the
    end of the first one, a pair ends only when both endpoints reported
    COMPLETED with the same positive number of bytes and terminal work and
    CUDA facts, and after a pair broke nothing is ever sent and the
    sequencer is poisoned. *)
Theorem launches_are_serial sha repr gated n x :
  nc_poisoned n = false →
  rtc (seq_step sha repr gated) (mkSeqSys n None [] []) x →
  (∃ ph, launches Idle (sq_log x) = Some ph ∧ (ph = Broken ↔ nc_poisoned (sq_net x) = true))
  ∧ (∀ j s j' s' log1 log2 log3,
       sq_log x = log1 ++ Sends j s :: log2 ++ Sends j' s' :: log3 → j ≠ j' →
       ∃ sr t, Finished j sr t ∈ log2)
  ∧ (∀ j sr t, Finished j sr t ∈ sq_log x → ∃ bytes, transfer_finished sr t bytes)
  ∧ (∀ j log1 log2, sq_log x = log1 ++ Broke j :: log2 → log2 = []).
Proof.
  intros Hn [ph [Hl Hp _ Hf]]%seq_reachable; [|done]. split_and!.
  - exists ph. split; [done|]. destruct ph; simpl in Hp; destruct_and!; naive_solver congruence.
  - intros j s j' s' log1 log2 log3 Heq Hne. rewrite Heq in Hl.
    apply launches_split in Hl as (ph1 & ph2 & _ & Hs & Hl).
    apply launches_split in Hl as (ph3 & ph4 & Hl2 & Hs2 & _).
    assert (ph2 = Open j s) as ->.
    { destruct ph1 as [|k []|], s; simpl in Hs; try case_decide; simplify_eq; done. }
    destruct (decide (Exists (λ l, ends j l = true) log2)) as [Hex|Hno].
    + apply Exists_exists in Hex as ([|j0 sr t|] & Hin & Hj); try done.
      apply bool_decide_eq_true in Hj as ->. eauto.
    + exfalso. apply launches_open in Hl2 as [->|[s2 ->]].
      * done.
      * destruct s2, s'; simpl in Hs2; try case_decide; simplify_eq; done.
      * intros sr t Hin. apply Hno, Exists_exists. eexists. split; [done|]. by apply bool_decide_eq_true.
  - intros j sr t Hin. by apply (proj1 (Forall_forall _ _) Hf) in Hin.
  - intros j log1 log2 Heq. rewrite Heq in Hl.
    apply launches_split in Hl as (ph1 & ph2 & _ & Hs & Hl).
    assert (ph2 = Broken) as ->.
    { destruct ph1 as [|k []|]; simpl in Hs; try case_decide; simplify_eq; done. }
    by apply launches_broken in Hl as [-> _].
Qed.

(** ** Running transfers *)

Inductive command : Type :=
| Begin (j : job) (now : Z)
| Feed (k : nat) (i : input) (now : Z).

Section exec.
Context (sha repr : json → string) (gated : bool).

(** One step of the system, when it is allowed. *)
Definition exec (c : command) (x : seq_sys) : option seq_sys :=
  match c with
  | Begin j now =>
      let '(pc, n) := begin_job sha j now (sq_net x) in
      Some (mkSeqSys n (sq_lock x) (sq_jobs x ++ [(j, pc)]) (sq_log x))
  | Feed k i now =>
      '(j, pc) ← sq_jobs x !! k;
      '(pc', n) ← job_step sha repr gated j pc i now (sq_net x);
      match pc with
      | Pairing _ p ppc =>
          '(out, _) ← pair_step repr gated p ppc i now (sq_net x);
          match i, sq_lock x with
          | Acquired, Some _ => None
          | _, _ => Some (mkSeqSys n (lock_after k ppc out (sq_lock x))
                            (<[k := (j, pc')]> (sq_jobs x)) (sq_log x ++ pair_log k ppc out))
          end
      | _ => Some (mkSeqSys n (sq_lock x) (<[k := (j, pc')]> (sq_jobs x)) (sq_log x))
      end
  end.
Fixpoint exec_all (cs : list command) (x : seq_sys) : option seq_sys :=
  match cs with [] => Some x | c :: cs' => exec c x ≫= exec_all cs' end.

Lemma exec_step c x y : exec c x = Some y → seq_step sha repr gated x y.
Proof.
  destruct c as [j now|k i now]; simpl.
  - destruct (begin_job sha j now (sq_net x)) as [pc n] eqn:Hb. intros [= <-]. by econstructor.
  - destruct (sq_jobs x !! k) as [[j pc]|] eqn:Hk; [|done]. simpl.
    destruct (job_step sha repr gated j pc i now (sq_net x)) as [[pc' n]|] eqn:Hs; [|done]. simpl.
    destruct pc as [st p ppc| | | |].
    + destruct (pair_step repr gated p ppc i now (sq_net x)) as [[out n']|] eqn:Hp; [|done]. simpl.
      intros He. assert ((i = Acquired → sq_lock x = None) ∧
        y = mkSeqSys n (lock_after k ppc out (sq_lock x)) (<[k := (j, pc')]> (sq_jobs x))
              (sq_log x ++ pair_log k ppc out)) as [Hl ->].
      { destruct i, (sq_lock x); try done; by injection He as <-. }
      by eapply seq_pair.
    + intros [= <-]. by eapply seq_commit.
    + intros [= <-]. by eapply seq_commit.
    + intros [= <-]. by eapply seq_commit.
    + intros [= <-]. by eapply seq_commit.
Qed.

Lemma exec_reaches cs x y : exec_all cs x = Some y → rtc (seq_step sha repr gated) x y.
Proof.
  revert x. induction cs as [|c cs IH]; intros x; simpl; [by intros [= <-]|].
  destruct (exec c x) as [x1|] eqn:Hx; [|done]. intros Hy. eapply rtc_l; [by eapply exec_step|].
  by apply IH.
Qed.
End exec.

(** Two transfers: the first completes while the second waits for the lock,
    the second is refused by its target. *)
Definition demo_plan (op : string) : CachedPrefixPlan :=
  mkCachedPrefixPlan op op "p1" "d1" "e0" "e1" [1] [2] 256 "ns" "kv" "ctx" [7] 0 "remote_transfer".
Definition demo_done : odict string json :=
  [("state", JStr "COMPLETED");
   ("result", JObj [("completed_bytes", JInt 64); ("work_terminal", JBool true);
                    ("cuda_terminal", JBool true)])].
Definition demo_commands : list command :=
  [Begin (Cached (demo_plan "op1")) 0; Begin (Cached (demo_plan "op2")) 0;
   Feed 0 Acquired 1; Feed 0 (Answer (Ok [])) 2; Feed 0 (Answer (Ok [])) 3;
   Feed 0 (Polled Target (Ok [("state", JStr "RUNNING")])) 4; Feed 0 (Polled Source (Ok demo_done)) 5;
   Feed 0 (Woke Target) 6; Feed 0 (Polled Target (Ok demo_done)) 7;
   Feed 1 Acquired 8; Feed 1 (Answer (Raise (InferRPCError 409 "CONFLICT"))) 9].
Definition demo_start : seq_sys := mkSeqSys demo_net None [] [].
Definition demo_end : seq_sys :=
  default demo_start (exec_all demo_sha demo_repr false demo_commands demo_start).

Lemma demo_reached : exec_all demo_sha demo_repr false demo_commands demo_start = Some demo_end.
Proof.
  assert (match exec_all demo_sha demo_repr false demo_commands demo_start with
          | Some _ => true | None => false end = true) as Hs by (vm_compute; reflexivity).
  unfold demo_end. by destruct (exec_all _ _ _ _ _).
Qed.
Lemma demo_log :
  sq_log demo_end = [Sends 0 Target; Sends 0 Source; Finished 0 demo_done demo_done;
                     Sends 1 Target; Broke 1].
Proof. vm_compute. reflexivity. Qed.

Lemma launches_are_serial_witness :
  nc_poisoned (sq_net demo_start) = false
  ∧ ∃ sr t, Finished 0 sr t ∈ [Finished 0 demo_done demo_done].
Proof.
  split; [reflexivity|].
  apply (launches_are_serial demo_sha demo_repr false demo_net demo_end) with
    (j := 0%nat) (s := Source) (j' := 1%nat) (s' := Target) (log1 := [Sends 0 Target]) (log3 := [Broke 1]).
  - reflexivity.
  - apply (exec_reaches _ _ _ demo_commands), demo_reached.
  - apply demo_log.
  - discriminate.
Defined.
