(* ===== verification/NetworkOps.v ===== *)
(** * The network control client: its coroutines (router/network_rpc.py)

    The prefix operations, the preparation of a normal request and the two
    cleanups of [NetworkControlRPC], over the exact-reference client.

    An await is a function of the whole world, so the answers and whatever
    other coroutines do meanwhile are arbitrary.  [call] is the request
    coroutine of the client.  The two requests of a [gather] are made one
    after the other.  The events of the correctness gate and the metrics are
    not modelled. *)

From S2P Require Import Prelude PyDict SequenceState Scheduler Json ReplacementStore ResourceRelease.
From S2P Require Import PrefixIndex Reconciler Loader HttpRpc NetworkRpc.
From stdpp Require Import prelude gmap strings pretty.

Local Open Scope Z_scope.

(** ** The world *)

Record Gate := mkGate {
  g_net : NetworkControlRPC;
  (** the evaluator, with the scheduler it works on *)
  g_eval : ResourceReleaseEvaluator;
  (** [self.release_evaluator is not None] *)
  g_installed : bool;
  (** whatever else awaited calls keep between them *)
  g_env : nat }.
Definition NetWorld : Type := HttpInferClient * Gate.

Definition set_net (n : NetworkControlRPC) (W : NetWorld) : NetWorld :=
  (W.1, mkGate n (g_eval W.2) (g_installed W.2) (g_env W.2)).
Definition set_eval (e : ResourceReleaseEvaluator) (W : NetWorld) : NetWorld :=
  (W.1, mkGate (g_net W.2) e (g_installed W.2) (g_env W.2)).
Definition net (W : NetWorld) : NetworkControlRPC := g_net W.2.
Definition evaluator (W : NetWorld) : ResourceReleaseEvaluator := g_eval W.2.

(** A synchronous method of the client, and one of the scheduler. *)
Definition on_net {A} (m : method NetworkControlRPC A) : rpc NetWorld A := λ W,
  let '(r, n) := m (net W) in lift r (set_net n W).
Definition on_sched {A} (m : method PDScheduler A) : rpc NetWorld A := λ W,
  let '(r, s) := m (ev_scheduler (evaluator W)) in
  lift r (set_eval (set_scheduler s (evaluator W)) W).

(** [except AmbiguousRPCError] *)
Definition catch_ambiguous {A} (m : rpc NetWorld A)
    (h : option EndpointOperationRef → rpc NetWorld A) : rpc NetWorld A := λ W,
  match m W with (Raise (AmbiguousRPCError x), W') => h x W' | out => out end.

(** [except Exception]: a cancellation is not one. *)
Definition attempt {S A} (m : rpc S A) : rpc S (option A) := λ W,
  match m W with
  | (Ok a, W') => (Ok (Some a), W')
  | (Raise (PyError CancelledError), W') => (Raise (PyError CancelledError), W')
  | (Raise _, W') => (Ok None, W')
  end.

(** A mutation whose lost answer leaves its reference ambiguous. *)
Definition tracked (ref : EndpointOperationRef) (m : rpc NetWorld (odict string json)) :
    rpc NetWorld (odict string json) :=
  catch_ambiguous m (λ x, _ ← on_net (modify (mark_ref_ambiguous ref));
                          throw (AmbiguousRPCError x)).

(** ** Reading answers *)

(** [(v or {})] where [.get] follows *)
Definition or_dict (v : json) : result exn (odict string json) :=
  if py_bool v then match v with JObj d => Ok d | _ => Raise AttributeError end else Ok [].

(** [k in v] for a string [k] *)
Definition py_contains (k : string) (v : json) : result exn bool :=
  match v with
  | JObj d => Ok (dmem k d)
  | JList l => Ok (existsb (λ x, py_eqb x (JStr k)) l)
  | JStr s => Ok (match String.index 0 k s with Some _ => true | None => false end)
  | _ => Raise TypeError
  end.

(** A value as the element of a set of strings. *)
Definition hashable (v : json) : result exn json :=
  match v with JList _ | JObj _ => Raise TypeError | _ => Ok v end.

Definition is_state (s : string) (v : json) : bool := py_eqb v (JStr s).

(** [value.get("state") in {"COMPLETED", "FENCED"}] *)
Definition in_terminal (value : odict string json) : result exn bool :=
  v ← hashable (jget "state" value); mret (is_state "COMPLETED" v || is_state "FENCED" v).

(** ** Driving the release evaluator

    [release_endpoint_terminal] of an evaluator kept in the state: each round
    awaits one remote finalization; one round per endpoint is enough. *)
Section driver.
Context {S : Type} (ev_of : S → ResourceReleaseEvaluator).
Context (put_ev : ResourceReleaseEvaluator → S → S).
Context (remote : CleanupPlan → EndpointFinalizePlan → rpc S ack).

Fixpoint drive (rounds : nat) (c : coroutine) : rpc S (option (list ack)) :=
  match c with
  | Returned r => lift r
  | Awaiting plan e _ _ =>
      match rounds with
      | O => throw (PyError RuntimeError)
      | Datatypes.S rounds' => λ s,
          match remote plan e s with
          | (Raise x, s1) => (Raise x, s1)
          | (Ok a, s1) =>
              let '(c', ev) := resume c (Ok a) (ev_of s1) in drive rounds' c' (put_ev ev s1)
          end
      end
  end.

Definition release_with (plan : CleanupPlan) : rpc S (option (list ack)) := λ s,
  let '(c, ev) := release_begin plan (ev_of s) in
  drive (length (cp_endpoints plan)) c (put_ev ev s).
End driver.

Section network.
Variable sha : json → string.
Variable repr : json → string.
Variable int_of_str : string → option Z.
Variable clock : NetWorld → Z.
Context `{InferClient NetWorld}.

(** [str(value.get("state", "UNKNOWN"))] *)
Definition state_text (value : odict string json) : string :=
  py_str repr (default (JStr "UNKNOWN") (dget "state" value)).

(** ** Normal requests *)

Definition prepare_normal_request (target target_epoch req_id : string) (token_ids : list Z)
    (sampling subjects identity : odict string json) :
    rpc NetWorld (EndpointOperationRef * list Z) :=
  '(ref, payload) ← on_net (begin_normal_request sha target target_epoch req_id token_ids
                              sampling subjects identity);
  response ← tracked ref (prepare_request target ref payload);
  result ← lift (or_dict (jget "result" response));
  blocks ← lift (py_tuple (default (JList []) (dget "dst_block_ids" result)));
  ids ← lift (mapR (py_int int_of_str) blocks);
  mret (ref, ids).

(** ** Cached prefixes *)

(** [self.worker_epochs[i] != epoch] *)
Definition check_epoch (i epoch : string) : method NetworkControlRPC unit :=
  e ← checked (worker_epoch i); ensure (bool_decide (e = epoch)) ValueError.

(** Allocate, mark, send. *)
Definition begin_mutation (kind i op : string) (payload : odict string json) :
    method NetworkControlRPC EndpointOperationRef :=
  ref ← allocate_ref sha kind i op payload;
  _ ← modify (mark_ref_attempted ref);
  mret ref.

Definition block_json (b : ExpectedPrefixBlock) : json :=
  JObj [("block_index", JInt (Z.of_nat (eb_block_index b))); ("chain_hash", JInt (eb_chain_hash b));
        ("token_ids", JList (JInt <$> eb_token_ids b))].

Definition resolve_prefix (source source_epoch op : string) (blocks : list ExpectedPrefixBlock)
    (identity : odict string json) : rpc NetWorld (option (string * string * list json)) :=
  _ ← on_net (check_epoch source source_epoch);
  let payload := merged identity [("expected_blocks", JList (block_json <$> blocks));
                                  ("held_resource_kinds", JList [JStr "SOURCE_PIN"])] in
  ref ← on_net (begin_mutation "prefix.resolve" source op payload);
  value ← tracked ref (prefix_mutation source "resolve" ref payload);
  result ← lift (or_dict (jget "result" value));
  if py_bool (jget "miss" result) then mret None
  else ids ← lift (subscript (JObj result) "src_block_ids" ≫= py_tuple);
       mret (Some (op, source_epoch, ids)).

Definition prepare_prefix (target target_epoch op req_id mode : string) (token_ids : list Z)
    (kwargs : odict string json) : rpc NetWorld (option (string * string * list json)) :=
  _ ← on_net (check_epoch target target_epoch);
  let payload :=
    merged (merged [("req_id", JStr req_id)] (dset "mode" (JStr mode) kwargs))
      [("token_ids", JList (JInt <$> token_ids));
       ("held_resource_kinds",
        JList (if bool_decide (mode = "remote_transfer") then [JStr "TARGET_PENDING"] else []))] in
  ref ← on_net (begin_mutation "prefix.prepare" target op payload);
  value ← tracked ref (prefix_mutation target "prepare" ref payload);
  let result := if py_bool (jget "result" value) then jget "result" value else JObj [] in
  if is_state "FENCED" (jget "state" value) then mret None
  else
    m ← lift (subscript result "mode");
    ids ← lift (subscript result "dst_block_ids" ≫= py_tuple);
    mret (Some (op, py_str repr m, ids)).

Definition commit_prefix_payload (target op : string) (plan : CachedPrefixPlan)
    (n : NetworkControlRPC) : result exn (odict string json) :=
  let base := [("namespace", JStr (pl_namespace plan));
               ("kv_compatibility_id", JStr (pl_kv_compatibility_id plan));
               ("request_context_digest", JStr (pl_request_context_digest plan));
               ("cached_prefix_tokens", JInt (pl_cached_prefix_tokens plan));
               ("mode", JStr (pl_mode plan))] in
  if bool_decide (pl_mode plan = "remote_transfer") then
    match dget ("transfer.target", target, op) (nc_refs n) with
    | None => Raise RuntimeError
    | Some r => Ok (base ++ [("transfer_operation_id", JStr (ref_operation_id r));
                             ("transfer_endpoint_ref", JObj (ref_json r))])
    end
  else Ok base.

Definition local_evidence (plan : CachedPrefixPlan) (ref : EndpointOperationRef)
    (clock_epoch : string) : odict string json :=
  [("request_id", JStr (pl_req_id plan)); ("operation_id", JStr (pl_operation_id plan));
   ("path", JStr "same_instance");
   ("route", JObj [("source", JStr (pl_source_instance plan));
                   ("target", JStr (pl_target_instance plan))]);
   ("src_block_ids", JList []); ("dst_block_ids", JList []);
   ("cached_prefix_tokens", JInt (pl_cached_prefix_tokens plan));
   ("suffix_tokens", JInt (Z.of_nat (length (pl_token_ids plan)) - pl_cached_prefix_tokens plan));
   ("completed_bytes", JInt 0); ("work_terminal", JBool true); ("cuda_terminal", JBool true);
   ("gateway_clock_epoch", JStr clock_epoch); ("transfer_started_ns", JNull);
   ("transfer_terminal_ns", JNull); ("commit_endpoint_ref", JObj (ref_json ref))].

Definition commit_cached_prefix (target op : string) (plan : CachedPrefixPlan) :
    rpc NetWorld unit :=
  payload ← on_net (checked (commit_prefix_payload target op plan));
  ref ← on_net (begin_mutation "prefix.commit" target op payload);
  _ ← tracked ref (prefix_mutation target "commit" ref payload);
  on_net (modify (λ n,
    if bool_decide (pl_mode plan = "local_reuse") && bool_decide (pl_req_id plan ∈ nc_required n)
    then store_request_evidence (pl_req_id plan) (local_evidence plan ref (nc_clock_epoch n)) n
    else n)).

(** Both aborts are made whatever the first one answers. *)
Definition abort_mapped_prefix (source target op : string) : rpc NetWorld MappedTransferStatus :=
  W ← get;
  match dget ("transfer.source", source, op) (nc_refs (net W)),
        dget ("transfer.target", target, op) (nc_refs (net W)) with
  | Some sr, Some tr =>
      s ← attempt (abort_transfer source sr "mapped prefix abort");
      t ← attempt (abort_transfer target tr "mapped prefix abort");
      match s, t with
      | Some s, Some t =>
          s ← lift (hashable (jget "state" s));
          t ← lift (hashable (jget "state" t));
          if is_state "COMPLETED" s && is_state "COMPLETED" t then mret MT_COMPLETED
          else if (is_state "COMPLETED" s || is_state "FENCED" s)
                  && (is_state "COMPLETED" t || is_state "FENCED" t) then mret MT_FENCED
          else mret MT_UNKNOWN
      | _, _ => mret MT_UNKNOWN
      end
  | _, _ => mret MT_UNKNOWN
  end.

Definition get_prefix_operation (target op : string) : rpc NetWorld PrefixOperationStatus :=
  value ← client_request "GET" target ("/v1/prefix/status/" +:+ op) None None;
  let state := py_str repr (jget "state" value) in
  if bool_decide (state = "FENCED") then mret OP_ABORTED
  else
    let result := if py_bool (jget "result" value) then jget "result" value else JObj [] in
    committed ← lift (if bool_decide (state = "COMPLETED") then py_contains "seq_id" result
                      else Ok false);
    if (committed : bool) then mret OP_COMMITTED
    else if bool_decide (state ∈ ["PREPARED"; "RUNNING"; "COMPLETED"]) then mret OP_PREPARED
    else mret OP_UNKNOWN.

Definition abort_cached_prefix (target op : string) : rpc NetWorld unit :=
  W ← get;
  match dget ("prefix.prepare", target, op) (nc_refs (net W)) with
  | None => mret tt
  | Some ref => _ ← abort_call target "/v1/prefix/abort" ref "prefix abort"; mret tt
  end.

Definition unpin_finalize (op : string) (ref : EndpointOperationRef) : Finalize :=
  mkFinalize ("prefix-unpin:" +:+ op) op ("prefix:" +:+ op) [ref] ["SOURCE_PIN"].

Definition unpin_prefix (source op : string) : rpc NetWorld unit :=
  W ← get;
  match dget ("prefix.resolve", source, op) (nc_refs (net W)) with
  | None => mret tt
  | Some ref =>
      catch_ambiguous (_ ← finalize_release sha source (unpin_finalize op ref); mret tt)
        (λ x, snapshot ← operation_ref_status source ref;
              terminal ← lift (in_terminal snapshot);
              if (terminal : bool) && bool_decide (jget "resources_held" snapshot = JBool false)
              then mret tt else throw (AmbiguousRPCError x))
  end.

Definition abort_suffix_prefill (target op : string) : rpc NetWorld bool :=
  W ← get;
  match dget ("suffix", target, op) (nc_refs (net W)) with
  | None => mret false
  | Some ref => value ← abort_request target ref "suffix timeout"; lift (in_terminal value)
  end.

Definition get_prefix_resource_counts (i : string) : rpc NetWorld (Z * Z) :=
  value ← get_resources i;
  resources ← lift (or_dict (jget "resources" value));
  pins ← lift (py_int int_of_str (default (JInt 0) (dget "SOURCE_PIN" resources)));
  pending ← lift (py_int int_of_str (default (JInt 0) (dget "TARGET_PENDING" resources)));
  mret (pins, pending).

(** ** Reports of cached prefixes *)

Definition text_at (v : json) (k : string) : result exn string :=
  x ← subscript v k; mret (py_str repr x).
Definition int_at (v : json) (k : string) : result exn Z :=
  x ← subscript v k; py_int int_of_str x.

Definition cache_location (v : json) (received_at : Z) : result exn CacheLocation :=
  instance ← text_at v "instance_id"; epoch ← text_at v "instance_epoch";
  namespace ← text_at v "namespace"; kv ← text_at v "kv_compatibility_id";
  ctx ← text_at v "request_context_digest"; chain ← int_at v "chain_hash";
  index ← int_at v "block_index"; block ← int_at v "block_id";
  tokens ← int_at v "prefix_tokens";
  mret (mkCacheLocation instance epoch namespace kv ctx chain index block tokens received_at).

Definition full_report_and_register (i consumer generation : string) : rpc NetWorld PrefixReport :=
  value ← client_request "POST" i "/v1/prefix/reports/register"
    (Some (JObj [("consumer_id", JStr consumer); ("generation", JStr generation)])) None;
  W ← get;
  let v := JObj value in
  instance ← lift (text_at v "instance_id");
  epoch ← lift (text_at v "instance_epoch");
  seq ← lift (int_at v "snapshot_seq_no");
  items ← lift (subscript v "locations" ≫= py_tuple);
  locations ← lift (mapR (λ item, cache_location item (clock W)) items);
  mret (mkPrefixReport instance epoch seq locations).

Definition kind_of (k : string) : event_kind :=
  if bool_decide (k = "hash_added") then hash_added
  else if bool_decide (k = "evicted") then evicted else other_kind k.

Definition prefix_event (item : json) (received_at : Z) : result exn PrefixEvent :=
  kind ← text_at item "kind"; location ← cache_location item received_at;
  seq ← int_at item "seq_no";
  mret (mkPrefixEvent (kind_of kind) location seq).

Definition peek_events (i consumer generation : string) (after_seq limit : Z) :
    rpc NetWorld (list PrefixEvent) :=
  value ← client_request "GET" i
    ("/v1/prefix/events?consumer_id=" +:+ consumer +:+ "&generation=" +:+ generation
     +:+ "&after_seq=" +:+ pretty after_seq +:+ "&limit=" +:+ pretty limit) None None;
  W ← get;
  items ← lift (py_tuple (default (JList []) (dget "events" value)));
  lift (mapR (λ item, prefix_event item (clock W)) items).

Definition ack_events (i consumer generation : string) (up_to_seq : Z) : rpc NetWorld unit :=
  _ ← client_request "POST" i "/v1/prefix/events/ack"
    (Some (JObj [("consumer_id", JStr consumer); ("generation", JStr generation);
                 ("up_to_seq", JInt up_to_seq)])) None;
  mret tt.

(** ** Cleanup *)

(** Kind, worker and reference of an operation that must be terminal. *)
Definition candidate : Type := string * string * EndpointOperationRef.
Definition cand_kind (c : candidate) : string := c.1.1.
Definition cand_instance (c : candidate) : string := c.1.2.
Definition cand_ref (c : candidate) : EndpointOperationRef := c.2.

(** The references of [op] that a worker may have seen. *)
Definition open_candidates (op : string) (n : NetworkControlRPC) : list candidate :=
  (λ kv, (kv.1.1.1, kv.1.1.2, kv.2))
  <$> filter (λ kv, key_operation kv.1 = op ∧ ref_requires_cleanup kv.2 n = true) (nc_refs n).

(** [{(instance, ref.operation_seq): candidate}.values()] *)
Definition dedup_candidates (cs : list candidate) : list candidate :=
  dvalues (foldl (λ d c, dset (cand_instance c, ref_operation_seq (cand_ref c)) c d)
             ([] : odict (string * Z) candidate) cs).

(** The abort of a candidate; only the query after it counts. *)
Definition abort_prefix_candidate (c : candidate) : rpc NetWorld (odict string json) :=
  if String.prefix "transfer." (cand_kind c)
  then abort_transfer (cand_instance c) (cand_ref c) "prefix cleanup"
  else if bool_decide (cand_kind c = "suffix")
  then abort_request (cand_instance c) (cand_ref c) "prefix cleanup"
  else abort_call (cand_instance c) "/v1/prefix/abort" (cand_ref c) "prefix cleanup".
Definition abort_normal_candidate (c : candidate) : rpc NetWorld (odict string json) :=
  if String.prefix "transfer." (cand_kind c)
  then abort_transfer (cand_instance c) (cand_ref c) "normal request cleanup"
  else abort_request (cand_instance c) (cand_ref c) "normal request cleanup".
Fixpoint abort_all (abort : candidate → rpc NetWorld (odict string json)) (cs : list candidate) :
    rpc NetWorld unit :=
  match cs with
  | [] => mret tt
  | c :: cs' => _ ← attempt (abort c); abort_all abort cs'
  end.

Definition is_terminal (value : odict string json) : bool :=
  bool_decide (state_text value ∈ ["COMPLETED"; "FENCED"]).

(** Query every candidate by its exact reference; [None] as soon as one does
    not answer or is not terminal. *)
Fixpoint query_all (cs : list candidate) :
    rpc NetWorld (option (list (candidate * odict string json))) :=
  match cs with
  | [] => mret (Some [])
  | c :: cs' =>
      answer ← attempt (operation_ref_status (cand_instance c) (cand_ref c));
      match answer with
      | None => mret None
      | Some value =>
          if is_terminal value then
            rest ← query_all cs';
            mret ((λ l, (c, value) :: l) <$> rest)
          else mret None
      end
  end.

(** ** The plan *)

Definition held (value : odict string json) : bool := py_bool (jget "resources_held" value).
Definition held_kinds (value : odict string json) : result exn (list string) :=
  items ← py_tuple (default (JList []) (dget "held_resource_kinds" value));
  mret (map (py_str repr) items).

Definition predicate_of (s : candidate * odict string json) : PredicateSnapshot :=
  mkPredicateSnapshot (cand_kind s.1) (state_text s.2) (cand_ref s.1) (held s.2).

(** [grouped.setdefault(instance, []).append(...)] *)
Definition group (d : odict string (list (EndpointOperationRef * list string)))
    (i : string) (x : EndpointOperationRef * list string) :
    odict string (list (EndpointOperationRef * list string)) :=
  dset i (default [] (dget i d) ++ [x]) d.
Fixpoint group_held (snaps : list (candidate * odict string json))
    (d : odict string (list (EndpointOperationRef * list string))) :
    result exn (odict string (list (EndpointOperationRef * list string))) :=
  match snaps with
  | [] => Ok d
  | (c, value) :: snaps' =>
      if held value then
        kinds ← held_kinds value;
        group_held snaps' (group d (cand_instance c) (cand_ref c, kinds))
      else group_held snaps' d
  end.

Definition endpoint_of (kv : string * list (EndpointOperationRef * list string)) :
    EndpointFinalizePlan :=
  mkEndpointFinalizePlan kv.1 kv.2.*1 (sorted_set (concat kv.2.*2)).

Definition build_plan (cleanup_id op lease : string) (sorted : bool)
    (snaps : list (candidate * odict string json)) : result exn CleanupPlan :=
  grouped ← group_held snaps [];
  mret (mkCleanupPlan cleanup_id op lease (predicate_of <$> snaps)
          (endpoint_of <$> (if sorted then sort_by String.le fst grouped else grouped))).

(** A plan is built once per cleanup and replayed afterwards. *)
Definition plan_for (cleanup_id op lease : string) (sorted : bool)
    (snaps : list (candidate * odict string json)) : method NetworkControlRPC CleanupPlan :=
  n ← read;
  match dget cleanup_id (nc_cleanup_plans n) with
  | Some plan => mret plan
  | None =>
      plan ← checked (λ _, build_plan cleanup_id op lease sorted snaps);
      _ ← modify (λ n, set_cleanup_plans (dset cleanup_id plan (nc_cleanup_plans n)) n);
      mret plan
  end.

(** ** Running the evaluator *)

Definition finalize_of (plan : CleanupPlan) (e : EndpointFinalizePlan) : Finalize :=
  mkFinalize (cp_cleanup_id plan) (cp_operation_id plan) (cp_lease_id plan)
    (efp_endpoint_refs e) (efp_resource_kinds e).

(** The evaluator of the world, with [client.finalize_release] as its remote
    finalization. *)
Definition release_endpoint_terminal (plan : CleanupPlan) : rpc NetWorld (option (list ack)) :=
  release_with evaluator set_eval
    (λ plan e, finalize_release sha (efp_instance_id e) (finalize_of plan e)) plan.

(** ** The two cleanups *)

Definition lease_of (op : string) (W : NetWorld) : option DecodeSlotLease :=
  decode_slot_lease op (ev_scheduler (evaluator W)).

Definition quarantine (op : string) (lease : DecodeSlotLease) : rpc NetWorld unit :=
  if bool_decide (lease_state lease ≠ QUARANTINED) then on_sched (quarantine_decode_slot op)
  else mret tt.

Definition quarantined_outcome : CleanupOutcome := mkCleanupOutcome CA_QUARANTINED OP_UNKNOWN.

Definition cleanup_prefix_context (op : string) : rpc NetWorld CleanupOutcome :=
  W ← get;
  _ ← lift (require (g_installed W.2));
  match lease_of op W with
  | None => throw (PyError ValueError)
  | Some lease =>
      _ ← quarantine op lease;
      W ← get;
      let cs := open_candidates op (net W) in
      _ ← abort_all abort_prefix_candidate cs;
      answers ← query_all cs;
      match answers with
      | None => mret quarantined_outcome
      | Some snaps =>
          plan ← on_net (plan_for ("prefix-cleanup:" +:+ op) op (lease_id lease) false snaps);
          released ← release_endpoint_terminal plan;
          match released with
          | None => mret quarantined_outcome
          | Some _ => _ ← on_net (retire_operation op); mret (mkCleanupOutcome CA_ABORTED OP_ABORTED)
          end
      end
  end.

(** The fields of the request that [cleanup_request] reads before it awaits. *)
Record CleanupSubject := mkCleanupSubject {
  cs_req_id : string;
  cs_active_operation_id : string;
  cs_prefill_instance : string;
  cs_dispatch_ref : option EndpointOperationRef }.
Definition subject_operation (r : CleanupSubject) : string :=
  if truthy (cs_active_operation_id r) then cs_active_operation_id r else cs_req_id r.
Definition request_candidates (r : CleanupSubject) (n : NetworkControlRPC) : list candidate :=
  dedup_candidates
    (match cs_dispatch_ref r with
     | Some ref => [("request.source", cs_prefill_instance r, ref)]
     | None => [] end ++ open_candidates (subject_operation r) n).

Definition cleanup_request (r : CleanupSubject) (abort : bool) : rpc NetWorld bool :=
  let op := subject_operation r in
  W ← get;
  _ ← lift (require (g_installed W.2));
  match lease_of op W with
  | None => throw (PyError ValueError)
  | Some lease =>
      if bool_decide (lease_state lease = RELEASED) then mret true
      else
        _ ← quarantine op lease;
        W ← get;
        if negb (task_idle op (net W)) then mret false
        else
          let cs := request_candidates r (net W) in
          if bool_decide (cs = []) then mret false
          else
            _ ← (if abort then abort_all abort_normal_candidate cs else mret tt);
            answers ← query_all cs;
            match answers with
            | None => mret false
            | Some snaps =>
                plan ← on_net (plan_for ("normal-cleanup:" +:+ op) op (lease_id lease) true snaps);
                released ← attempt (release_endpoint_terminal plan);
                match released with
                | Some (Some _) => _ ← on_net (retire_operation op); mret true
                | _ => mret false
                end
            end
  end.
End network.

(** ** Reading a run *)

Lemma rpc_bind_Ok {S A B} (m : rpc S A) (k : A → rpc S B) s y s' :
  (m ≫= k) s = (Ok y, s') ↔ ∃ x s1, m s = (Ok x, s1) ∧ k x s1 = (Ok y, s').
Proof.
  unfold mbind, rpc_mbind. destruct (m s) as [[x|e] s1]; split; try done.
  - eauto.
  - by intros (x' & s1' & [= <- <-] & ?).
  - by intros (x' & s1' & ? & ?).
Qed.

Lemma lift_Ok {S A} (r : result exn A) (s s' : S) x : lift r s = (Ok x, s') ↔ r = Ok x ∧ s' = s.
Proof. unfold lift. destruct r; naive_solver. Qed.

Lemma on_net_Ok {A} (m : method NetworkControlRPC A) W x W' :
  on_net m W = (Ok x, W') ↔ ∃ n, m (net W) = (Ok x, n) ∧ W' = set_net n W.
Proof.
  unfold on_net. destruct (m (net W)) as [r n]. rewrite lift_Ok. naive_solver.
Qed.

Lemma attempt_Some {S A} (m : rpc S A) W x W' :
  attempt m W = (Ok (Some x), W') ↔ m W = (Ok x, W').
Proof.
  unfold attempt. destruct (m W) as [[y|[st c|z|e]] W1]; try naive_solver.
  destruct e; naive_solver.
Qed.

(** *** The evaluator *)

(** How many finalizations a coroutine still waits for. *)
Definition awaits (c : coroutine) : nat :=
  match c with Returned _ => 0 | Awaiting _ _ rest _ => S (length rest) end.

Lemma run_local_awaits plan es rs ev : (awaits (run_local plan es rs ev).1 ≤ length es)%nat.
Proof.
  revert rs. induction es as [|e es IH]; intros rs; simpl.
  - unfold finish. destruct (release_quarantined_decode_slot _ _ _ _) as [[] ?]; simpl; lia.
  - destruct (dget _ (ev_acks ev)); simpl; [|lia]. specialize (IH (rs ++ [a])). lia.
Qed.

Lemma release_begin_awaits plan ev :
  (awaits (release_begin plan ev).1 ≤ length (cp_endpoints plan))%nat.
Proof.
  unfold release_begin. destruct (dget _ (ev_completed ev)); [simpl; lia|].
  destruct (negb (all_terminal plan)); [simpl; lia|].
  destruct (negb _); [simpl; lia|].
  destruct (dget _ (ev_active ev)); (case_bool_decide; [simpl; lia|]); apply run_local_awaits.
Qed.

(** A coroutine that returns a value ended by freeing the slot. *)
Lemma run_local_returned plan es rs ev x ev' :
  run_local plan es rs ev = (Returned (Ok x), ev') →
  ∃ acks, x = Some acks ∧ finish plan acks ev = (Returned (Ok x), ev').
Proof.
  revert rs. induction es as [|e es IH]; intros rs; simpl.
  - intros Hf. exists rs. split; [|done]. unfold finish in Hf.
    destruct (release_quarantined_decode_slot _ _ _ _) as [[] ?]; naive_solver.
  - destruct (dget _ (ev_acks ev)); [apply IH|done].
Qed.

Lemma run_local_plan plan es rs ev p e rest rs' ev' :
  run_local plan es rs ev = (Awaiting p e rest rs', ev') → p = plan.
Proof.
  revert rs. induction es as [|e0 es IH]; intros rs; simpl.
  - unfold finish. by destruct (release_quarantined_decode_slot _ _ _ _) as [[] ?].
  - destruct (dget _ _); [apply IH|]. intros Heq. by injection Heq.
Qed.

Section runs.
Context {S : Type} (ev_of : S → ResourceReleaseEvaluator).
Context (put_ev : ResourceReleaseEvaluator → S → S).
Context (remote : CleanupPlan → EndpointFinalizePlan → rpc S ack).
Hypothesis ev_put : ∀ ev s, ev_of (put_ev ev s) = ev.

Lemma drive_returned n r W x W' :
  drive ev_of put_ev remote n (Returned r) W = (Ok x, W') → r = Ok x ∧ W' = W.
Proof. destruct n; apply lift_Ok. Qed.

Lemma drive_rounds n m c W :
  (awaits c ≤ n)%nat → (awaits c ≤ m)%nat → drive ev_of put_ev remote n c W = drive ev_of put_ev remote m c W.
Proof.
  revert m c W. induction n as [|n IH]; intros m [r|plan e rest rs] W Hn Hm; simpl in *;
    try lia; destruct m as [|m]; simpl; try done; try lia.
  destruct (remote _ _ W) as [[a|x] W1]; [|done].
  match goal with |- context [run_local ?p ?es ?l ?ev0] =>
    pose proof (run_local_awaits p es l ev0) as Hl; destruct (run_local p es l ev0) as [c' ev] end. simpl in Hl. apply IH; lia.
Qed.

(** The last thing a completed release does is to free the slot of its plan,
    unless the same cleanup had completed before. *)
Definition released_last (plan : CleanupPlan) (W W' : S) (acks : list ack) : Prop :=
  dget (cp_cleanup_id plan) (ev_completed (ev_of W)) = Some acks
  ∨ all_terminal plan = true
    ∧ (∀ ref, ref ∈ expected_refs plan → ref ∈ planned_refs plan)
    ∧ ∃ ev, finish plan acks ev = (Returned (Ok (Some acks)), ev_of W').

Lemma drive_Some n c W acks W' plan :
  match c with Returned _ => False | Awaiting p _ _ _ => p = plan end →
  drive ev_of put_ev remote n c W = (Ok (Some acks), W') →
  ∃ ev, finish plan acks ev = (Returned (Ok (Some acks)), ev_of W').
Proof.
  revert c W. induction n as [|n IH]; intros [r|p e rest rs] W Hc Hd; try done. subst p.
  simpl in Hd. destruct (remote _ _ W) as [[a|x] W1]; [|done].
  match type of Hd with context [run_local ?p ?es ?l ?ev0] =>
    destruct (run_local p es l ev0) as [c' ev] eqn:Hr end.
  destruct c' as [r|p' e' rest' rs'].
  - apply drive_returned in Hd as [-> ->].
    apply run_local_returned in Hr as (acks' & [= <-] & Hf). rewrite ev_put. eauto.
  - eapply IH; [|done]. by eapply run_local_plan.
Qed.

Lemma release_Some plan W acks W' :
  release_with ev_of put_ev remote plan W = (Ok (Some acks), W') → released_last plan W W' acks.
Proof.
  unfold release_with, released_last, release_begin.
  destruct (dget _ (ev_completed (ev_of W))) as [done|] eqn:Hdone.
  { intros Hd. left. by apply drive_returned in Hd as [[= ->] _]. }
  destruct (all_terminal plan) eqn:Hat; simpl;
    [|intros Hd; by apply drive_returned in Hd as [? _]].
  destruct (forallb _ (expected_refs plan)) eqn:Hex; simpl;
    [|intros Hd; by apply drive_returned in Hd as [? _]].
  intros Hd. right. split; [done|]. split.
  { intros ref Hin. rewrite forallb_forall in Hex. apply list_elem_of_In in Hin.
    specialize (Hex ref Hin). by apply bool_decide_eq_true in Hex. }
  assert (∀ ev0, (let '(c, ev) := run_local plan (cp_endpoints plan) [] ev0 in
            drive ev_of put_ev remote (length (cp_endpoints plan)) c (put_ev ev W)) = (Ok (Some acks), W') →
          ∃ ev, finish plan acks ev = (Returned (Ok (Some acks)), ev_of W')) as Hrun.
  { intros ev0. destruct (run_local plan (cp_endpoints plan) [] ev0) as [c ev] eqn:Hr. intros Hdr.
    destruct c as [r|p e rest rs].
    - apply drive_returned in Hdr as [-> ->].
      apply run_local_returned in Hr as (acks' & [= <-] & Hf). rewrite ev_put. eauto.
    - eapply drive_Some; [|done]. by eapply run_local_plan. }
  destruct (dget _ (ev_active (ev_of W))) as [active|].
  - case_bool_decide; [by apply drive_returned in Hd as [? _]|].
    by eapply Hrun.
  - case_bool_decide; [by apply drive_returned in Hd as [? _]|].
    by eapply Hrun.
Qed.
End runs.

(** *** The plan *)

Section plans.
Context (repr : json → string).
Implicit Types (snaps : list (candidate * odict string json)).

(** What a snapshot adds to the plan, when it still holds something. *)
Definition held_entry (s : candidate * odict string json) :
    option (string * (EndpointOperationRef * list string)) :=
  if held s.2 then
    match held_kinds repr s.2 with
    | Ok ks => Some (cand_instance s.1, (cand_ref s.1, ks))
    | Raise _ => None
    end
  else None.
Definition entries (i : string) snaps : list (EndpointOperationRef * list string) :=
  (filter (λ x, x.1 = i) (omap held_entry snaps)).*2.

Lemma group_held_spec snaps d d' :
  dwf d → group_held repr snaps d = Ok d' →
  dwf d'
  ∧ (∀ i, default [] (dget i d') = default [] (dget i d) ++ entries i snaps)
  ∧ (∀ i, dget i d = None → dget i d' = Some [] → False)
  ∧ Forall (λ s, held s.2 = true → ∃ ks, held_kinds repr s.2 = Ok ks) snaps.
Proof.
  revert d. induction snaps as [|[c v] snaps IH]; intros d Hw Hg.
  - injection Hg as <-. split_and!; [done| |naive_solver|constructor].
    intros i. by rewrite app_nil_r.
  - cbn [group_held] in Hg. destruct (held v) eqn:Hh.
    + apply bind_Ok in Hg as (ks & Hks & Hg).
      assert (dwf (group d (cand_instance c) (cand_ref c, ks))) as Hw1 by (by apply dwf_dset).
      destruct (IH _ Hw1 Hg) as (Hw' & Hd & Hn & Hf). split_and!; [done| | |].
      * intros i. rewrite Hd. unfold group, entries. rewrite dget_dset. simpl.
        assert (held_entry (c, v) = Some (cand_instance c, (cand_ref c, ks))) as He.
        { unfold held_entry. simpl. by rewrite Hh, Hks. }
        rewrite He, filter_cons. simpl.
        destruct (decide (i = cand_instance c)) as [->|Hne].
        -- rewrite decide_True by done. simpl. by rewrite <- (assoc_L (++)).
        -- by rewrite decide_False by congruence.
      * intros i Hi Hi'. destruct (decide (i = cand_instance c)) as [->|Hne].
        -- specialize (Hd (cand_instance c)). rewrite Hi' in Hd. unfold group in Hd.
           rewrite dget_dset_eq in Hd. simpl in Hd. symmetry in Hd.
           apply app_eq_nil in Hd as [Hd _]. by apply app_eq_nil in Hd as [_ ?].
        -- apply (Hn i); [|done]. unfold group. by rewrite dget_dset_ne.
      * constructor; [|done]. intros _. eauto.
    + destruct (IH _ Hw Hg) as (Hw' & Hd & Hn & Hf). split_and!; [done| |done|].
      * intros i. rewrite Hd. unfold entries. simpl.
        assert (held_entry (c, v) = None) as -> by (unfold held_entry; simpl; by rewrite Hh). done.
      * constructor; [|done]. simpl. by rewrite Hh.
Qed.

Lemma elem_of_entries i ref ks snaps :
  (ref, ks) ∈ entries i snaps
  ↔ ∃ c v, (c, v) ∈ snaps ∧ held v = true ∧ cand_instance c = i ∧ cand_ref c = ref
           ∧ held_kinds repr v = Ok ks.
Proof.
  unfold entries. rewrite list_elem_of_fmap. split.
  - intros ([i' x] & Heq & [Hi Hin]%list_elem_of_filter). simpl in *. subst.
    apply list_elem_of_omap in Hin as ([c v] & Hin & He). unfold held_entry in He. simpl in He.
    destruct (held v) eqn:Hh; [|done]. destruct (held_kinds repr v) as [ks'|] eqn:Hk; [|done].
    simplify_eq. exists c, v. done.
  - intros (c & v & Hin & Hh & <- & <- & Hk). exists (cand_instance c, (cand_ref c, ks)).
    split; [done|]. apply list_elem_of_filter. split; [done|]. apply list_elem_of_omap.
    exists (c, v). split; [done|]. unfold held_entry. simpl. by rewrite Hh, Hk.
Qed.

(** The plan of a cleanup: one predicate per queried reference, and for every
    worker that still holds something one finalization with exactly the
    references it holds and all of their kinds. *)
Record plan_exact (cleanup_id op lease : string) snaps (plan : CleanupPlan) : Prop := {
  pe_id : cp_cleanup_id plan = cleanup_id;
  pe_operation : cp_operation_id plan = op;
  pe_lease : cp_lease_id plan = lease;
  pe_predicates : cp_predicates plan = predicate_of repr <$> snaps;
  pe_instances : NoDup (efp_instance_id <$> cp_endpoints plan);
  pe_refs : ∀ i ref,
    (∃ e, e ∈ cp_endpoints plan ∧ efp_instance_id e = i ∧ ref ∈ efp_endpoint_refs e)
    ↔ (∃ c v, (c, v) ∈ snaps ∧ held v = true ∧ cand_instance c = i ∧ cand_ref c = ref);
  pe_kinds : ∀ e k, e ∈ cp_endpoints plan →
    k ∈ efp_resource_kinds e
    ↔ ∃ c v ks, (c, v) ∈ snaps ∧ held v = true ∧ cand_instance c = efp_instance_id e
                ∧ held_kinds repr v = Ok ks ∧ k ∈ ks }.

Lemma build_plan_exact cid op lease sorted snaps plan :
  build_plan repr cid op lease sorted snaps = Ok plan → plan_exact cid op lease snaps plan.
Proof.
  unfold build_plan. intros (grouped & Hg & [= <-])%bind_Ok.
  apply group_held_spec in Hg as (Hw & Hd & Hn & Hf); [|apply dwf_nil].
  assert ((if sorted then sort_by String.le fst grouped else grouped) ≡ₚ grouped) as Hp
    by (destruct sorted; [apply sort_by_perm|done]).
  set (l := if sorted then sort_by String.le fst grouped else grouped) in *.
  assert (∀ i xs, (i, xs) ∈ l ↔ xs = entries i snaps ∧ xs ≠ []) as Hl.
  { intros i xs. rewrite Hp, <- (dget_Some i xs) by done. specialize (Hd i). simpl in Hd.
    split.
    - intros Hi. rewrite Hi in Hd. simpl in Hd. split; [done|]. intros ->. by apply (Hn i).
    - intros [-> Hne]. destruct (dget i grouped); simpl in Hd; congruence. }
  assert (∀ e, e ∈ (endpoint_of <$> l) ↔
    e = endpoint_of (efp_instance_id e, entries (efp_instance_id e) snaps)
    ∧ entries (efp_instance_id e) snaps ≠ []) as He.
  { intros e. rewrite list_elem_of_fmap. split.
    - intros ([i xs] & -> & [-> Hne]%Hl). done.
    - intros [Heq Hne]. exists (efp_instance_id e, entries (efp_instance_id e) snaps). by rewrite Hl. }
  split; simpl; try done.
  - rewrite <- list_fmap_compose. change (efp_instance_id ∘ endpoint_of) with (@fst string (list (EndpointOperationRef * list string))).
    by rewrite Hp.
  - intros i ref. split.
    + intros (e & [Heq _]%He & <- & Href). rewrite Heq in Href. simpl in Href.
      apply list_elem_of_fmap in Href as ([ref' ks] & -> & Hin).
      apply elem_of_entries in Hin as (c & v & ? & ? & ? & ? & _). eauto 10.
    + intros (c & v & Hin & Hh & Hi & Hr).
      destruct (proj1 (Forall_forall _ _) Hf (c, v) Hin Hh) as [ks Hks].
      assert ((ref, ks) ∈ entries i snaps) as Hent by (apply elem_of_entries; eauto 10).
      exists (endpoint_of (i, entries i snaps)). rewrite He. simpl. split_and!; try done.
      * intros Hnil. rewrite Hnil in Hent. by apply not_elem_of_nil in Hent.
      * apply list_elem_of_fmap. by exists (ref, ks).
  - intros e k [Heq _]%He. rewrite Heq at 1. simpl. rewrite elem_of_sorted_set, elem_of_concat. split.
    + intros (ks & Hk & ([ref ks'] & -> & Hin)%list_elem_of_fmap).
      apply elem_of_entries in Hin as (c & v & ? & ? & ? & ? & ?). eauto 10.
    + intros (c & v & ks & Hin & Hh & Hi & Hks & Hk). exists ks. split; [done|].
      apply list_elem_of_fmap. exists (cand_ref c, ks). split; [done|].
      apply elem_of_entries. eauto 10.
Qed.

(** Such a plan passes the checks of the evaluator. *)
Lemma plan_exact_safe cid op lease snaps plan :
  plan_exact cid op lease snaps plan → snaps ≠ [] →
  Forall (λ s, is_terminal repr s.2 = true) snaps → plan_safe plan.
Proof.
  intros [_ _ _ Hpr _ Hrefs _] Hne Ht. split.
  - unfold all_terminal. rewrite Hpr, andb_true_iff, bool_decide_eq_true. split.
    { by destruct snaps. }
    apply forallb_forall. intros p Hp%list_elem_of_In. apply bool_decide_eq_true.
    apply list_elem_of_fmap in Hp as ([c v] & -> & Hin). simpl.
    pose proof (proj1 (Forall_forall _ _) Ht _ Hin) as Hs. by apply bool_decide_eq_true in Hs.
  - intros r. unfold expected_refs, planned_refs. rewrite Hpr.
    intros (p & -> & [Hh ([c v] & -> & Hin)%list_elem_of_fmap]%list_elem_of_filter)%list_elem_of_fmap.
    destruct (proj2 (Hrefs (cand_instance c) (cand_ref c))) as (e & He & _ & Hr); [eauto 10|].
    apply elem_of_concat. exists (efp_endpoint_refs e). split; [done|].
    apply list_elem_of_fmap. eauto.
Qed.
End plans.

(** *** The cleanups *)

Section cleanups.
Context (sha repr : json → string) `{InferClient NetWorld}.

(** Every candidate was asked for by its exact reference, one after the other,
    and each answer was terminal. *)
Inductive queried : list candidate → NetWorld → list (candidate * odict string json) →
    NetWorld → Prop :=
| queried_nil W : queried [] W [] W
| queried_cons c cs W v W1 snaps W2 :
    operation_ref_status (cand_instance c) (cand_ref c) W = (Ok v, W1) →
    is_terminal repr v = true →
    queried cs W1 snaps W2 →
    queried (c :: cs) W ((c, v) :: snaps) W2.

Lemma query_all_Some cs W snaps W' :
  query_all repr cs W = (Ok (Some snaps), W') → queried cs W snaps W'.
Proof.
  revert W snaps. induction cs as [|c cs IH]; intros W snaps Hq.
  - injection Hq as <- <-. constructor.
  - cbn [query_all] in Hq. apply rpc_bind_Ok in Hq as ([v|] & W1 & Ha & Hq); [|done].
    rewrite attempt_Some in Ha. destruct (is_terminal repr v) eqn:Ht; [|done].
    apply rpc_bind_Ok in Hq as ([rest|] & W2 & Hr & Hq); [|done].
    injection Hq as <- <-. eapply queried_cons; [exact Ha|exact Ht|by apply IH].
Qed.

Lemma queried_terminal cs W snaps W' :
  queried cs W snaps W' → Forall (λ s, is_terminal repr s.2 = true) snaps ∧ snaps.*1 = cs.
Proof.
  induction 1 as [|c cs W v W1 snaps W2 _ Ht _ [IH <-]]; [done|]. split; [by constructor|done].
Qed.

(** The end of a cleanup of [op] under [lease]: the candidates [cs] were found
    terminal, the plan is the one of an earlier attempt or exactly what the
    answers ask for, the evaluator freed the slot of the plan last, and the
    operation was retired. *)
Definition released_on_proof (cleanup_id op lease : string) (cs : list candidate)
    (W W' : NetWorld) : Prop :=
  ∃ snaps W1 plan n W2 acks,
    queried cs W snaps W1
    ∧ (dget cleanup_id (nc_cleanup_plans (net W1)) = Some plan ∧ n = net W1
       ∨ plan_exact repr cleanup_id op lease snaps plan
         ∧ n = set_cleanup_plans (dset cleanup_id plan (nc_cleanup_plans (net W1))) (net W1))
    ∧ released_last evaluator plan (set_net n W1) W2 acks
    ∧ task_idle op (net W2) = true
    ∧ W' = set_net (retired_state op (net W2)) W2.

Lemma plan_for_Ok cid op lease sorted snaps n plan n' :
  plan_for repr cid op lease sorted snaps n = (Ok plan, n') →
  (dget cid (nc_cleanup_plans n) = Some plan ∧ n' = n)
  ∨ (plan_exact repr cid op lease snaps plan
     ∧ n' = set_cleanup_plans (dset cid plan (nc_cleanup_plans n)) n).
Proof.
  unfold plan_for, mbind, method_mbind, method_bind, read, checked, modify.
  destruct (dget cid (nc_cleanup_plans n)) as [p|] eqn:Hp; [intros [= <- <-]; by left|].
  destruct (build_plan repr cid op lease sorted snaps) as [p|] eqn:Hb; [|done].
  intros [= <- <-]. right. split; [|done]. by eapply build_plan_exact.
Qed.

Lemma retire_Ok op n n' :
  retire_operation op n = (Ok tt, n') → task_idle op n = true ∧ n' = retired_state op n.
Proof. unfold retire_operation. destruct (task_idle op n); naive_solver. Qed.

(** What the cleanups do once every candidate has answered. *)
Lemma cleanup_end cid op lease sorted cs W snaps W1 plan W2 acks W3 W4 :
  queried cs W snaps W1 →
  on_net (plan_for repr cid op lease sorted snaps) W1 = (Ok plan, W2) →
  release_endpoint_terminal sha plan W2 = (Ok (Some acks), W3) →
  on_net (retire_operation op) W3 = (Ok tt, W4) →
  released_on_proof cid op lease cs W W4.
Proof.
  intros Hq (n & Hp%plan_for_Ok & ->)%on_net_Ok Hr%(release_Some evaluator set_eval _ (λ _ _, eq_refl))
    (n3 & [Hidle ->]%retire_Ok & ->)%on_net_Ok.
  exists snaps, W1, plan, n, W3, acks. done.
Qed.


(** A cached prefix is reported aborted only on the same proof: every
    reference of the operation a worker may have seen was found terminal, the
    plan covers what is held, the slot was freed last, and the operation was
    retired; in every other case the cleanup leaves the slot quarantined or
    raises. *)
Theorem prefix_cleanup_on_proof op W W' outcome :
  cleanup_prefix_context sha repr op W = (Ok outcome, W') →
  outcome = quarantined_outcome
  ∨ outcome = mkCleanupOutcome CA_ABORTED OP_ABORTED
    ∧ ∃ lease W1 W2, lease_of op W = Some lease ∧ quarantine op lease W = (Ok tt, W1)
        ∧ released_on_proof ("prefix-cleanup:" +:+ op) op (lease_id lease)
            (open_candidates op (net W1)) W2 W'.
Proof.
  unfold cleanup_prefix_context. intros (W0 & W0' & [= <- <-] & Hc)%rpc_bind_Ok.
  apply rpc_bind_Ok in Hc as ([] & W0 & [_ ->]%lift_Ok & Hc).
  destruct (lease_of op W) as [lease|] eqn:Hl; [|done].
  apply rpc_bind_Ok in Hc as ([] & W1 & Hqu & Hc). apply rpc_bind_Ok in Hc as (x & y & [= <- <-] & Hc).
  apply rpc_bind_Ok in Hc as ([] & W2 & _ & Hc).
  apply rpc_bind_Ok in Hc as ([snaps|] & W3 & Hq & Hc);
    [|injection Hc as <-; by left].
  apply query_all_Some in Hq.
  apply rpc_bind_Ok in Hc as (plan & W4 & Hp & Hc).
  apply rpc_bind_Ok in Hc as ([acks|] & W5 & Hr & Hc); [|injection Hc as <-; by left].
  apply rpc_bind_Ok in Hc as ([] & W6 & Hret & [= <- <-]). right. split; [done|].
  exists lease, W1, W2. split_and!; try done. by eapply cleanup_end.
Qed.
End cleanups.

(** *** Mutations *)

Lemma elem_of_dvalues_dset {K V} `{EqDecision K} (k : K) (v : V) d : v ∈ dvalues (dset k v d).
Proof.
  apply list_elem_of_fmap. exists (k, v). split; [done|]. apply dget_Some_1, dget_dset_eq.
Qed.

(** The reference is in the tables and counts as attempted. *)
Definition ref_known (ref : EndpointOperationRef) (n : NetworkControlRPC) : Prop :=
  ref ∈ dvalues (nc_refs n) ∧ ref ∈ nc_attempted n.

#[export] Instance ref_known_dec ref n : Decision (ref_known ref n).
Proof. unfold ref_known. apply _. Defined.

Lemma allocate_ref_remembers sha kind i op p n ref n' :
  allocate_ref sha kind i op p n = (Ok ref, n') → ref ∈ dvalues (nc_refs n').
Proof.
  unfold allocate_ref, mbind, method_mbind, method_bind, checked, run_allocator, modify.
  destruct (ensure_operation_capacity op n); [|done]. destruct (worker_epoch i n); [|done].
  destruct (allocate sha i _ op p (nc_allocator n)) as [[r|] ?]; [|done].
  intros [= <- <-]. apply elem_of_dvalues_dset.
Qed.

Lemma begin_mutation_known sha kind i op p n ref n' :
  begin_mutation sha kind i op p n = (Ok ref, n') → ref_known ref n'.
Proof.
  unfold begin_mutation, mbind, method_mbind, method_bind, modify.
  destruct (allocate_ref sha kind i op p n) as [[r|] n1] eqn:Ha; [|done].
  intros [= <- <-]. split; [by apply allocate_ref_remembers in Ha|]. simpl. set_solver.
Qed.

Lemma begin_normal_known sha t e r ts sp su id n ref pl n' :
  begin_normal_request sha t e r ts sp su id n = (Ok (ref, pl), n') → ref_known ref n'.
Proof.
  unfold begin_normal_request, mbind, method_mbind, method_bind, checked, ensure, read, modify.
  destruct (worker_epoch t n); [|done]. case_bool_decide; [|done].
  destruct (allocate_ref sha "request.prepare" t r _ n) as [[r0|] n1] eqn:Ha; [|done].
  intros [= <- <- <-]. split; [by apply allocate_ref_remembers in Ha|]. simpl. set_solver.
Qed.

(** A client that refuses to carry a reference the tables do not know. *)
Definition guarded (call : InferClient NetWorld) : InferClient NetWorld :=
  λ mth i path body ref W,
    match ref with
    | Some r => if decide (ref_known r (net W)) then call mth i path body ref W
                else (Raise (PyError AssertionError), W)
    | None => call mth i path body None W
    end.

(** A lost answer is marked before its caller sees the exception. *)
Definition marks_losses {A} (m : rpc NetWorld A) : Prop :=
  ∀ W x W', m W = (Raise (AmbiguousRPCError x), W') →
  ∃ ref, x = Some ref ∧ ref ∈ nc_ambiguous (net W').

Lemma marks_bind {A B} (m : rpc NetWorld A) (k : A → rpc NetWorld B) :
  marks_losses m → (∀ a, marks_losses (k a)) → marks_losses (m ≫= k).
Proof.
  intros Hm Hk W x W'. unfold mbind, rpc_mbind.
  destruct (m W) as [[a|e] W1] eqn:Hr; [by apply Hk|]. intros [= -> ->]. eauto.
Qed.
Lemma marks_lift {A} (r : result exn A) : marks_losses (lift r).
Proof. intros W x W'. unfold lift. by destruct r. Qed.
Lemma marks_on_net {A} (m : method NetworkControlRPC A) : marks_losses (on_net m).
Proof. intros W x W'. unfold on_net. destruct (m (net W)). apply marks_lift. Qed.
Lemma marks_ret {A} (a : A) : marks_losses (mret a).
Proof. by intros W x W'. Qed.

Create HintDb losses discriminated.
#[export] Hint Resolve marks_bind marks_lift marks_on_net marks_ret : losses.

Section mutations.
Context (sha repr : json → string) (int_of_str : string → option Z).
Context `{Hcl : InferClient NetWorld} `{!ClientLaws NetWorld}.

Lemma marks_tracked ref m :
  (∀ W x W', m W = (Raise (AmbiguousRPCError x), W') → x = Some ref) →
  marks_losses (tracked ref m).
Proof.
  intros Hm W x W'. unfold tracked, catch_ambiguous.
  destruct (m W) as [[v|[st c|y|e]] W1] eqn:Hr; try done.
  intros Heq. injection Heq as <- <-. apply Hm in Hr as ->. exists ref. split; [done|].
  simpl. set_solver.
Qed.

Lemma marks_mutate i path ref p : marks_losses (tracked ref (mutate i path ref p)).
Proof. apply marks_tracked. intros W x W'. apply ambiguous_ref. Qed.

Lemma marks_prefix i action ref p : marks_losses (tracked ref (prefix_mutation i action ref p)).
Proof.
  unfold prefix_mutation. case_bool_decide; [apply marks_mutate|].
  apply marks_tracked. by intros W x W'.
Qed.
Hint Resolve marks_mutate marks_prefix : losses.

Lemma guarded_mutate i path ref p W :
  ref_known ref (net W) → mutate (H := guarded Hcl) i path ref p W = mutate i path ref p W.
Proof.
  intros Hk. unfold mutate, client_request, guarded. by rewrite decide_True.
Qed.

Lemma guarded_prefix i action ref p W :
  ref_known ref (net W) →
  prefix_mutation (H := guarded Hcl) i action ref p W = prefix_mutation i action ref p W.
Proof.
  intros Hk. unfold prefix_mutation. case_bool_decide; [by apply guarded_mutate|done].
Qed.

(** Two coroutines that agree after every way the first part may succeed. *)
Lemma rpc_bind_ext {A B} (m : rpc NetWorld A) (k k' : A → rpc NetWorld B) W :
  (∀ a W1, m W = (Ok a, W1) → k a W1 = k' a W1) → (m ≫= k) W = (m ≫= k') W.
Proof.
  intros Hk. unfold mbind, rpc_mbind. destruct (m W) as [[a|e] W1] eqn:Hm; [by apply Hk|done].
Qed.

Lemma tracked_ext ref m m' W : m W = m' W → tracked ref m W = tracked ref m' W.
Proof. intros Hm. unfold tracked, catch_ambiguous. by rewrite Hm. Qed.

Lemma rpc_bind_fst {A B} (m m' : rpc NetWorld A) (k : A → rpc NetWorld B) W :
  m W = m' W → (m ≫= k) W = (m' ≫= k) W.
Proof. intros Hm. unfold mbind, rpc_mbind. by rewrite Hm. Qed.

Lemma begin_then kind i op p W ref W1 :
  on_net (begin_mutation sha kind i op p) W = (Ok ref, W1) → ref_known ref (net W1).
Proof. intros (n & Hb%begin_mutation_known & ->)%on_net_Ok. done. Qed.

(** C24: No reference reaches a worker before the tables know it, and no lost
    answer goes unmarked.  With a client that refuses to carry a reference
    that is not remembered and marked as attempted, the preparation of a
    request and the resolve, prepare and commit of a prefix behave exactly as
    with the real one; and when one of them raises an ambiguous loss, the
    loss names a reference that is marked ambiguous. *)
Theorem mutations_are_tracked :
  (∀ t e r ts sp su id W,
     prepare_normal_request (H := guarded Hcl) sha int_of_str t e r ts sp su id W
     = prepare_normal_request sha int_of_str t e r ts sp su id W)
  ∧ (∀ s e op bs id W, resolve_prefix (H := guarded Hcl) sha s e op bs id W
                       = resolve_prefix sha s e op bs id W)
  ∧ (∀ t e op r m ts kw W, prepare_prefix (H := guarded Hcl) sha repr t e op r m ts kw W
                           = prepare_prefix sha repr t e op r m ts kw W)
  ∧ (∀ t op plan W, commit_cached_prefix (H := guarded Hcl) sha t op plan W
                    = commit_cached_prefix sha t op plan W)
  ∧ (∀ t e r ts sp su id,
       marks_losses (prepare_normal_request sha int_of_str t e r ts sp su id))
  ∧ (∀ s e op bs id, marks_losses (resolve_prefix sha s e op bs id))
  ∧ (∀ t e op r m ts kw, marks_losses (prepare_prefix sha repr t e op r m ts kw))
  ∧ (∀ t op plan, marks_losses (commit_cached_prefix sha t op plan)).
Proof.
  split_and!; intros.
  - apply rpc_bind_ext. intros [ref pl] W1 (n & Hb%begin_normal_known & ->)%on_net_Ok.
    apply rpc_bind_fst, tracked_ext. by apply guarded_mutate.
  - apply rpc_bind_ext. intros _ W1 _. apply rpc_bind_ext. intros ref W2 Hb%begin_then.
    apply rpc_bind_fst, tracked_ext. by apply guarded_prefix.
  - apply rpc_bind_ext. intros _ W1 _. apply rpc_bind_ext. intros ref W2 Hb%begin_then.
    apply rpc_bind_fst, tracked_ext. by apply guarded_prefix.
  - apply rpc_bind_ext. intros pl W1 _. apply rpc_bind_ext. intros ref W2 Hb%begin_then.
    apply rpc_bind_fst, tracked_ext. by apply guarded_prefix.
  - unfold prepare_normal_request. apply marks_bind; [auto with losses|]. intros [ref pl].
    apply marks_bind; [apply marks_mutate|]. intros v. auto 10 with losses.
  - unfold resolve_prefix. apply marks_bind; [auto with losses|]. intros _.
    apply marks_bind; [auto with losses|]. intros ref. apply marks_bind; [apply marks_prefix|].
    intros v. apply marks_bind; [auto with losses|]. intros result. case_match; auto with losses.
  - unfold prepare_prefix. apply marks_bind; [auto with losses|]. intros _.
    apply marks_bind; [auto with losses|]. intros ref. apply marks_bind; [apply marks_prefix|].
    intros v. destruct (is_state "FENCED" (jget "state" v)); auto 10 with losses.
  - unfold commit_cached_prefix. apply marks_bind; [auto with losses|]. intros pl.
    apply marks_bind; [auto with losses|]. intros ref. apply marks_bind; [apply marks_prefix|].
    auto with losses.
Qed.
End mutations.

(** *** Unpinning *)

Section unpin.
Context (sha : json → string) `{InferClient NetWorld}.

Lemma finalize_release_answers i f W v W' :
  finalize_release sha i f W = (Ok v, W') → answers sha i f None v.
Proof.
  intros (value & W1 & _ & [Hv _]%lift_Ok)%rpc_bind_Ok.
  by apply validate_release_snapshot_iff in Hv as [-> ?].
Qed.

Lemma in_terminal_true v :
  in_terminal v = Ok true ↔ jget "state" v = JStr "COMPLETED" ∨ jget "state" v = JStr "FENCED".
Proof.
  unfold in_terminal. split.
  - intros (x & Hx & [= Hor])%bind_Ok.
    assert (x = jget "state" v) as -> by (unfold hashable in Hx; by destruct (jget "state" v); simplify_eq).
    by rewrite orb_true_iff in Hor; unfold is_state in Hor; rewrite !py_eqb_str in Hor.
  - by intros [-> | ->].
Qed.

(** A source pin counts as gone only on proof: when unpinning returns,
    the operation never resolved on that source, or the worker answered the
    finalization of exactly this reference, or the answer was lost and the
    query of the same reference showed it terminal and holding nothing.
    In every other case the loss reaches the caller, who replays the same
    finalization. *)
Theorem unpin_only_on_proof source op W W' :
  unpin_prefix sha source op W = (Ok tt, W') →
  dget ("prefix.resolve", source, op) (nc_refs (net W)) = None ∧ W' = W
  ∨ ∃ ref, dget ("prefix.resolve", source, op) (nc_refs (net W)) = Some ref
    ∧ ((∃ v, finalize_release sha source (unpin_finalize op ref) W = (Ok v, W')
             ∧ answers sha source (unpin_finalize op ref) None v)
       ∨ (∃ x W1 v, finalize_release sha source (unpin_finalize op ref) W
                    = (Raise (AmbiguousRPCError x), W1)
            ∧ operation_ref_status source ref W1 = (Ok v, W')
            ∧ (jget "state" v = JStr "COMPLETED" ∨ jget "state" v = JStr "FENCED")
            ∧ jget "resources_held" v = JBool false)).
Proof.
  unfold unpin_prefix. intros (W0 & W0' & [= <- <-] & Hu)%rpc_bind_Ok.
  destruct (dget ("prefix.resolve", source, op) (nc_refs (net W))) as [ref|];
    [right; exists ref; split; [done|]|left; by injection Hu].
  unfold catch_ambiguous in Hu.
  destruct ((_ ← finalize_release sha source (unpin_finalize op ref); mret tt) W) as [r W1] eqn:Hf.
  unfold mbind, rpc_mbind in Hf.
  destruct (finalize_release sha source (unpin_finalize op ref) W) as [[v|e] W2] eqn:Hfin.
  - injection Hf as <- <-. injection Hu as <-. left. exists v. split; [done|].
    by apply finalize_release_answers in Hfin.
  - injection Hf as <- <-. destruct e as [st c|x|e]; try done.
    apply rpc_bind_Ok in Hu as (v & W3 & Hs & Hu).
    apply rpc_bind_Ok in Hu as (b & W4 & [Hb ->]%lift_Ok & Hu).
    destruct b; simpl in Hu; [|done]. case_bool_decide as Hh; [|done]. injection Hu as <-.
    right. exists x, W2, v. split_and!; try done. by apply in_terminal_true.
Qed.
End unpin.

(** ** Concrete instances *)

Definition demo_status : odict string json :=
  [("state", JStr "FENCED"); ("resources_held", JBool false)].
Definition fenced_wire (r : wire_request) (W : NetWorld) : wire_outcome * NetWorld :=
  (Response 200 (Some (JObj demo_status)), W).
Definition lossy_wire (r : wire_request) (W : NetWorld) : wire_outcome * NetWorld :=
  (if bool_decide (wr_url r = "http://d1/v1/operations/status")
   then Response 200 (Some (JObj demo_status)) else TransportError, W).
Definition demo_http (w : wire_request → NetWorld → wire_outcome * NetWorld) :
    InferClient NetWorld := http_client demo_sha demo_repr w None.

(** One reference of [op1] is known on [d1]. *)
Definition demo_world (kind : string) : NetWorld :=
  (demo_client,
   mkGate (mark_ref_attempted ResourceRelease.demo_ref
             (set_refs [((kind, "d1", "op1"), ResourceRelease.demo_ref)] demo_net))
     ResourceRelease.demo_evaluator true 0).
Definition demo_subject : CleanupSubject := mkCleanupSubject "op1" "" "p1" None.

Abbreviation demo_cleanup :=
  (cleanup_request (H := demo_http fenced_wire) demo_sha demo_repr demo_subject true).
Definition demo_cleaned : NetWorld := (demo_cleanup (demo_world "transfer.target")).2.
Lemma demo_cleanup_ran : demo_cleanup (demo_world "transfer.target") = (Ok true, demo_cleaned).
Proof. unfold demo_cleaned. apply surjective_pairing_ok. vm_compute. reflexivity. Qed.


Abbreviation demo_prefix_cleanup :=
  (cleanup_prefix_context (H := demo_http fenced_wire) demo_sha demo_repr "op1").
Definition demo_prefix_cleaned : NetWorld := (demo_prefix_cleanup (demo_world "prefix.resolve")).2.
Lemma demo_prefix_ran :
  demo_prefix_cleanup (demo_world "prefix.resolve")
  = (Ok (mkCleanupOutcome CA_ABORTED OP_ABORTED), demo_prefix_cleaned).
Proof. unfold demo_prefix_cleaned. apply surjective_pairing_ok. vm_compute. reflexivity. Qed.

Lemma prefix_cleanup_on_proof_witness :
  ∃ lease, lease_of "op1" (demo_world "prefix.resolve") = Some lease.
Proof.
  destruct (prefix_cleanup_on_proof (H := demo_http fenced_wire) demo_sha demo_repr "op1"
    (demo_world "prefix.resolve") demo_prefix_cleaned (mkCleanupOutcome CA_ABORTED OP_ABORTED)
    demo_prefix_ran) as [Heq|(_ & lease & _ & _ & Hl & _)]; [discriminate Heq|].
  exists lease. exact Hl.
Defined.

Lemma mutations_are_tracked_witness :
  marks_losses (resolve_prefix (H := demo_http lossy_wire) demo_sha "d1" "e1" "op2" [] []).
Proof.
  destruct (mutations_are_tracked (Hcl := demo_http lossy_wire) demo_sha demo_repr (λ _, None)
    (ClientLaws0 := http_client_laws demo_sha demo_repr lossy_wire None))
    as (_ & _ & _ & _ & _ & Hr & _).
  exact (Hr "d1" "e1" "op2" [] []).
Defined.

Abbreviation demo_unpin :=
  (unpin_prefix (H := demo_http lossy_wire) demo_sha "d1" "op1").
Definition demo_unpinned : NetWorld := (demo_unpin (demo_world "prefix.resolve")).2.
Lemma demo_unpin_ran : demo_unpin (demo_world "prefix.resolve") = (Ok tt, demo_unpinned).
Proof. unfold demo_unpinned. apply surjective_pairing_ok. vm_compute. reflexivity. Qed.

(** The answer to the finalization is lost, and the query settles it. *)
Lemma unpin_only_on_proof_witness :
  ∃ ref v, answers demo_sha "d1" (unpin_finalize "op1" ref) None v
           ∨ jget "resources_held" v = JBool false.
Proof.
  destruct (unpin_only_on_proof (H := demo_http lossy_wire) demo_sha "d1" "op1"
    (demo_world "prefix.resolve") demo_unpinned demo_unpin_ran)
    as [[Hn _]|(ref & _ & [(v & _ & Ha)|(x & W1 & v & _ & _ & _ & Hh)])].
  - discriminate Hn.
  - exists ref, v. left. exact Ha.
  - exists ref, v. right. exact Hh.
Defined.
