(* ===== verification/Takeover.v ===== *)
(** * Replacing the owner of the workers (router/network_rpc.py)

    A new gateway takes over the operations of the one before it: it lists
    what the old owner left on every worker, proves each operation terminal
    by its exact reference, has what is still held finalized, checks that
    nothing is left, and only then retires the old owner everywhere and
    activates itself.

    The function runs alone, before admission opens.  [S] is the state the
    client runs in, with its clock; [sleep] waits.  The loops of the last
    phase take fuel: [None] is a loop that is still running.  Of an exception
    only its own class counts, not the causes it is chained to. *)

From S2P Require Import Prelude PyDict Scheduler Json ResourceRelease HttpRpc NetworkRpc NetworkOps.
From stdpp Require Import prelude gmap strings sorting.

Local Open Scope Z_scope.

(** ** Evidence *)

Record ParsedOperationSnapshot := mkParsed {
  ps_ref : EndpointOperationRef;
  ps_state : string;
  ps_held : bool;
  ps_kinds : list string }.

Record OwnerTakeoverListEvidence := mkListEvidence {
  le_instance_id : string;
  le_instance_epoch : string;
  le_owner_generation : string;
  le_complete : bool;
  le_endpoint_refs : list EndpointOperationRef;
  le_operations : list ParsedOperationSnapshot;
  le_report_digest : string }.

Record OwnerTakeoverQueryEvidence := mkQueryEvidence {
  qe_instance_id : string;
  qe_instance_epoch : string;
  qe_owner_generation : string;
  qe_operation_id : string;
  qe_ref : EndpointOperationRef;
  qe_state : string;
  qe_held : bool;
  qe_kinds : list string }.

Record OwnerTakeoverFinalizeEvidence := mkFinalizeEvidence {
  fe_instance_id : string;
  fe_refs : list EndpointOperationRef;
  (** the fields of the validated snapshot *)
  fe_snapshot : odict string json }.

Record OwnerTakeoverOperationAudit := mkOperationAudit {
  oa_instance_id : string;
  oa_old_owner : string;
  oa_ref : EndpointOperationRef;
  oa_listed_state : string;
  oa_query_confirmed : bool;
  oa_terminal_state : string;
  oa_abort_attempted : bool;
  oa_held_before : bool;
  oa_kinds : list string;
  oa_finalize_acknowledged : bool;
  oa_query : OwnerTakeoverQueryEvidence;
  oa_finalize : option OwnerTakeoverFinalizeEvidence }.

Record OwnerTakeoverAudit := mkAudit {
  ta_new_owner : string;
  ta_instances : list string;
  ta_old_owners : list (string * string);
  ta_lists : list OwnerTakeoverListEvidence;
  ta_operations : list OwnerTakeoverOperationAudit;
  ta_finalized : list string;
  ta_retired : list (string * string);
  ta_activated : list string;
  ta_confirmed : list (string * string) }.

(** ** Reports *)

Definition OPERATION_STATES : list string :=
  ["PREPARED"; "RUNNING"; "COMPLETED"; "FENCED"; "UNKNOWN"].
Definition terminal_state (s : string) : bool := bool_decide (s ∈ ["COMPLETED"; "FENCED"]).

(** A list of distinct non-empty strings. *)
Definition parse_kinds (v : json) : result exn (list string) :=
  match v with
  | JList items =>
      kinds ← mapR (λ item, match item with
                            | JStr s => _ ← require (truthy s); mret s
                            | _ => Raise RuntimeError end) items;
      _ ← require (bool_decide (NoDup kinds));
      mret kinds
  | _ => Raise RuntimeError
  end.

Definition parse_operation_snapshot (value : json) (instance owner epoch : string)
    (expected : option EndpointOperationRef) : result exn ParsedOperationSnapshot :=
  match value with
  | JObj d =>
      ref ← parse_endpoint_ref (jget "endpoint_ref" d);
      _ ← require (match expected with Some r => bool_decide (ref = r) | None => true end);
      _ ← require (bool_decide (ref_target_instance ref = instance)
                   && bool_decide (ref_owner_generation ref = owner)
                   && bool_decide (ref_target_worker_epoch ref = epoch)
                   && truthy (ref_operation_id ref));
      match jget "state" d, jget "resources_held" d with
      | JStr state, JBool resources_held =>
          _ ← require (bool_decide (state ∈ OPERATION_STATES));
          kinds ← parse_kinds (jget "held_resource_kinds" d);
          _ ← require (bool_decide (resources_held = bool_decide (kinds ≠ [])));
          mret (mkParsed ref state resources_held (sort_by String.le id kinds))
      | _, _ => Raise RuntimeError
      end
  | _ => Raise RuntimeError
  end.

Definition parse_complete_operation_report (report : odict string json)
    (instance owner epoch : string) (max_entries : option Z) :
    result exn (list ParsedOperationSnapshot) :=
  _ ← require (is_True_obj (jget "complete" report));
  _ ← require (py_eqb (jget "instance_epoch" report) (JStr epoch));
  match jget "operations" report with
  | JList operations =>
      _ ← require (match max_entries with
                   | Some m => bool_decide (Z.of_nat (length operations) ≤ m) | None => true end);
      mapR (λ v, parse_operation_snapshot v instance owner epoch None) operations
  | _ => Raise RuntimeError
  end.

(** The order of the list evidence: the seven fields one after the other. *)
Definition string_lt (a b : string) : bool := String.ltb a b.
Definition then_by (lt eq rest : bool) : bool := lt || (eq && rest).
Definition ref_leb (a b : EndpointOperationRef) : bool :=
  let by_text (f : EndpointOperationRef → string) rest :=
    then_by (string_lt (f a) (f b)) (bool_decide (f a = f b)) rest in
  by_text ref_target_instance
    (then_by (bool_decide (ref_operation_seq a < ref_operation_seq b))
       (bool_decide (ref_operation_seq a = ref_operation_seq b))
       (by_text ref_operation_id (by_text ref_payload_digest (by_text ref_owner_generation
          (by_text ref_target_worker_epoch (by_text ref_topology_generation true)))))).
Definition ref_le (a b : EndpointOperationRef) : Prop := ref_leb a b = true.
#[export] Instance ref_le_dec a b : Decision (ref_le a b).
Proof. unfold ref_le. apply _. Defined.

Definition snapshot_value (p : ParsedOperationSnapshot) : json :=
  JObj [("endpoint_ref", JObj (ref_json (ps_ref p))); ("state", JStr (ps_state p));
        ("resources_held", JBool (ps_held p)); ("held_resource_kinds", jstrs (ps_kinds p))].

Definition operation_list_evidence (sha : json → string) (instance owner epoch : string)
    (operations : list ParsedOperationSnapshot) : OwnerTakeoverListEvidence :=
  let ordered := sort_by ref_le ps_ref operations in
  mkListEvidence instance epoch owner true (ps_ref <$> ordered) ordered
    (digest sha (JObj [("instance_epoch", JStr epoch); ("complete", JBool true);
                       ("operations", JList (snapshot_value <$> ordered))])).

(** ** The sweep *)

(** An old owner on a worker, with the epoch of the worker. *)
Record Old := mkOld {
  old_instance : string;
  old_owner : string;
  old_epoch : string }.

(** A listed operation, the answer of its exact query, and whether an abort
    was sent before. *)
Record Swept := mkSwept {
  sw_old : Old;
  sw_listed : ParsedOperationSnapshot;
  sw_snapshot : ParsedOperationSnapshot;
  sw_abort_attempted : bool }.

Section takeover.
Context (sha repr : json → string) {S : Type} `{InferClient S}.

Fixpoint each {A B} (f : A → rpc S B) (l : list A) : rpc S (list B) :=
  match l with
  | [] => mret []
  | x :: l' => y ← f x; ys ← each f l'; mret (y :: ys)
  end.

(** The owner a worker reports, unless it has none or already the new one. *)
Definition prior_owner (new_owner : string) (v : odict string json) : result exn (option string) :=
  owner ← hashable (jget "active_owner" v);
  mret (match owner with
        | JNull => None
        | JStr s => if bool_decide (s = new_owner) then None else Some s
        | x => Some (py_str repr x)
        end).

Definition read_prior (i : string) : rpc S (string * odict string json) :=
  v ← owner_status i; mret (i, v).
Fixpoint old_owners (new_owner : string) (statuses : list (string * odict string json)) :
    result exn (list (string * string)) :=
  match statuses with
  | [] => Ok []
  | (i, v) :: statuses' =>
      o ← prior_owner new_owner v;
      rest ← old_owners new_owner statuses';
      Ok (match o with Some x => (i, x) :: rest | None => rest end)
  end.

Definition read_identity (io : string * string) : rpc S Old :=
  identity ← get_identity io.1;
  _ ← lift (require (py_eqb (jget "instance_id" identity) (JStr io.1)));
  epoch ← lift (ref_text identity "instance_epoch");
  mret (mkOld io.1 io.2 epoch).

(** The complete reports, within one budget of entries. *)
Fixpoint read_reports (olds : list Old) (remaining : Z) :
    rpc S (list (Old * list ParsedOperationSnapshot)) :=
  match olds with
  | [] => mret []
  | o :: olds' =>
      raw ← list_operations (old_instance o) (old_owner o);
      report ← lift (parse_complete_operation_report raw (old_instance o) (old_owner o)
                       (old_epoch o) (Some remaining));
      rest ← read_reports olds' (remaining - Z.of_nat (length report));
      mret ((o, report) :: rest)
  end.

(** [except Exception as exc: raise RuntimeError from exc] *)
Definition or_runtime {A} (m : rpc S A) : rpc S A :=
  r ← attempt m; match r with Some a => mret a | None => throw (PyError RuntimeError) end.

Definition sweep_one (entry : Old * ParsedOperationSnapshot) : rpc S Swept :=
  let '(o, listed) := entry in
  let ref := ps_ref listed in
  let abort := negb (terminal_state (ps_state listed)) in
  _ ← (if abort then attempt (abort_request (old_instance o) ref "replacement orphan sweep")
       else mret None);
  value ← or_runtime (operation_ref_status (old_instance o) ref);
  snapshot ← lift (parse_operation_snapshot (JObj value) (old_instance o) (old_owner o)
                     (old_epoch o) (Some ref));
  _ ← lift (require (terminal_state (ps_state snapshot)));
  mret (mkSwept o listed snapshot abort).

(** [snapshots_by_operation.setdefault(op, []).append(...)] *)
Definition by_operation (swept : list Swept) : odict string (list Swept) :=
  foldl (λ d s, let op := ref_operation_id (ps_ref (sw_listed s)) in
                dset op (default [] (dget op d) ++ [s]) d) [] swept.

(** ** Finalization of what is still held *)

Definition swept_candidate (s : Swept) : candidate :=
  (old_instance (sw_old s), old_instance (sw_old s), ps_ref (sw_listed s)).

Definition group_swept (swept : list Swept) :
    odict string (list (EndpointOperationRef * list string)) :=
  foldl (λ d s, if ps_held (sw_snapshot s)
                then group d (old_instance (sw_old s))
                       (ps_ref (sw_listed s), ps_kinds (sw_snapshot s))
                else d) [] swept.

Definition orphan_plan (owner_key op : string) (swept : list Swept) : CleanupPlan :=
  let id := "orphan:" +:+ owner_key +:+ ":" +:+ op in
  mkCleanupPlan id op id
    ((λ s, mkPredicateSnapshot (old_instance (sw_old s)) (ps_state (sw_snapshot s))
             (ps_ref (sw_listed s)) (ps_held (sw_snapshot s))) <$> swept)
    (endpoint_of <$> sort_by String.le fst (group_swept swept)).

(** The evaluator of the takeover has no local slot to free. *)
Definition no_local_slot : PDScheduler :=
  mkPDScheduler default_scheduler_config [] [] [] [] ∅ ∅ ∅ ∅.
Definition takeover_evaluator : ResourceReleaseEvaluator :=
  mkEvaluator no_local_slot None 512 4096 [] [] [].

Definition epoch_of (olds : list Old) (i : string) : option string :=
  old_epoch <$> find (λ o, bool_decide (old_instance o = i)) olds.

(** [finalize_remote]: the answer is checked again, against the epoch the
    worker reported. *)
Definition finalize_remote (olds : list Old) (plan : CleanupPlan) (e : EndpointFinalizePlan) :
    rpc (ResourceReleaseEvaluator * S) ack := λ es,
  let f := finalize_of plan e in
  let '(r, s) := (value ← finalize_release sha (efp_instance_id e) f;
                  lift (validate_release_snapshot sha value (efp_instance_id e) f
                          (epoch_of olds (efp_instance_id e)))) es.2 in
  (r, (es.1, s)).

Definition release_orphan (olds : list Old) (plan : CleanupPlan) :
    rpc (ResourceReleaseEvaluator * S) (option (list ack)) :=
  release_with fst (λ ev es, (ev, es.2)) (finalize_remote olds) plan.

(** One of the three attempts; the evidence of every reference it finalized. *)
Definition finalize_attempt (olds : list Old) (plan : CleanupPlan) :
    rpc (ResourceReleaseEvaluator * S)
      (list (EndpointOperationRef * OwnerTakeoverFinalizeEvidence)) :=
  result ← release_orphan olds plan;
  match result with
  | Some acks =>
      _ ← lift (require (bool_decide (length acks = length (cp_endpoints plan))));
      mret (concat (zip_with (λ e a,
              (λ r, (r, mkFinalizeEvidence (efp_instance_id e) (efp_endpoint_refs e) a))
              <$> efp_endpoint_refs e) (cp_endpoints plan) acks))
  | None => throw (PyError RuntimeError)
  end.
Fixpoint finalize_tries (tries : nat) (olds : list Old) (plan : CleanupPlan) :
    rpc (ResourceReleaseEvaluator * S)
      (list (EndpointOperationRef * OwnerTakeoverFinalizeEvidence)) :=
  match tries with
  | O => throw (PyError RuntimeError)
  | Datatypes.S tries' =>
      r ← attempt (finalize_attempt olds plan);
      match r with Some evidence => mret evidence | None => finalize_tries tries' olds plan end
  end.

(** The operations that hold something, one after the other. *)
Fixpoint finalize_orphans (olds : list Old) (owner_key : string)
    (ops : list (string * list Swept)) :
    rpc (ResourceReleaseEvaluator * S)
      (list (string * list (EndpointOperationRef * OwnerTakeoverFinalizeEvidence))) :=
  match ops with
  | [] => mret []
  | (op, swept) :: ops' =>
      if bool_decide (group_swept swept = []) then finalize_orphans olds owner_key ops'
      else
        evidence ← finalize_tries 3 olds (orphan_plan owner_key op swept);
        rest ← finalize_orphans olds owner_key ops';
        mret ((op, evidence) :: rest)
  end.
Definition in_takeover {A} (m : rpc (ResourceReleaseEvaluator * S) A) : rpc S A := λ s,
  let '(r, (_, s')) := m (takeover_evaluator, s) in (r, s').

(** ["+".join(sorted(set(owners))) or "none"] *)
Definition owner_key_of (olds : list Old) : string :=
  let key := String.concat "+" (sorted_set (old_owner <$> olds)) in
  if truthy key then key else "none".

(** Held ownership is gone before any owner changes. *)
Definition recheck (report : Old * list ParsedOperationSnapshot) : rpc S unit :=
  let '(o, before) := report in
  raw ← list_operations (old_instance o) (old_owner o);
  operations ← lift (parse_complete_operation_report raw (old_instance o) (old_owner o)
                       (old_epoch o) None);
  _ ← lift (require (bool_decide (list_to_set (ps_ref <$> operations)
                                  =@{gset EndpointOperationRef} list_to_set (ps_ref <$> before))));
  _ ← lift (require (negb (existsb ps_held operations)));
  _ ← lift (require (forallb (λ p, terminal_state (ps_state p)) operations));
  mret tt.

Definition listed_entries (reports : list (Old * list ParsedOperationSnapshot)) :
    list (Old * ParsedOperationSnapshot) :=
  concat (map (λ r, map (λ p, (r.1, p)) r.2) reports).
Definition listed_refs (reports : list (Old * list ParsedOperationSnapshot)) :
    list EndpointOperationRef := map (λ e, ps_ref e.2) (listed_entries reports).

Record Sweep := mkSweep {
  sp_instances : list string;
  sp_olds : list Old;
  sp_reports : list (Old * list ParsedOperationSnapshot);
  sp_swept : list Swept;
  sp_finalized : list (string * list (EndpointOperationRef * OwnerTakeoverFinalizeEvidence)) }.

(** Everything [activate_replacement_owner] does before it changes an owner. *)
Definition sweep (instances : list string) (new_owner : string)
    (max_audit_entries retry_interval : Z) : rpc S Sweep :=
  _ ← lift (need (bool_decide (instances ≠ []) && bool_decide (NoDup instances)));
  _ ← lift (need (bool_decide (0 < max_audit_entries)));
  _ ← lift (need (bool_decide (0 < retry_interval)));
  let ordered := sort_by String.le id instances in
  statuses ← each read_prior ordered;
  owners ← lift (old_owners new_owner statuses);
  _ ← lift (require (bool_decide (length (remove_dups owners.*2) ≤ 1)%nat));
  olds ← each read_identity owners;
  reports ← read_reports olds max_audit_entries;
  _ ← lift (require (bool_decide (NoDup (listed_refs reports))));
  swept ← each sweep_one (listed_entries reports);
  finalized ← in_takeover (finalize_orphans olds (owner_key_of olds) (by_operation swept));
  _ ← each recheck reports;
  mret (mkSweep ordered olds reports swept finalized).

(** ** Changing the owner *)

(** A coroutine with fuel: [None] when it is still running. *)
Definition tk (A : Type) : Type := S → option (result rpc_exn A * S).
#[local] Instance tk_mret : MRet tk := λ A a s, Some (Ok a, s).
#[local] Instance tk_mbind : MBind tk := λ A B k m s,
  match m s with
  | Some (Ok a, s') => k a s'
  | Some (Raise e, s') => Some (Raise e, s')
  | None => None
  end.
Definition once {A} (m : rpc S A) : tk A := λ s, Some (m s).

Context (clock : S → Z) (sleep : Z → S → S).

(** [active_owner] of a status *)
Definition active_owner (v : odict string json) : result exn (option string) :=
  match dget "active_owner" v with
  | None => Raise RuntimeError
  | Some JNull => Ok None
  | Some (JStr s) => if truthy s then Ok (Some s) else Raise RuntimeError
  | Some _ => Raise RuntimeError
  end.

Definition retryable_owner_error (e : rpc_exn) : bool :=
  match e with
  | AmbiguousRPCError _ | PyError ConnectionError | PyError TimeoutError => true
  | InferRPCError status _ => bool_decide (status = 409 ∨ status = 503)
  | PyError _ => false
  end.

Section reconcile.
Context (deadline retry_interval : Z) (new_owner : string).

Definition require_remaining : rpc S Z := λ s,
  let remaining := deadline - clock s in
  if bool_decide (remaining ≤ 0) then (Raise (PyError RuntimeError), s) else (Ok remaining, s).
Definition retry_pause : rpc S unit :=
  remaining ← require_remaining; update (sleep (Z.min retry_interval remaining)).

(** [None] after a retryable error and its pause. *)
Definition or_pause {A} (m : rpc S A) : rpc S (option A) := λ s,
  match m s with
  | (Ok a, s1) => (Ok (Some a), s1)
  | (Raise e, s1) =>
      if retryable_owner_error e then (_ ← retry_pause; mret None) s1 else (Raise e, s1)
  end.

Fixpoint read_owner (fuel : nat) (i : string) : tk (option string) :=
  match fuel with
  | O => λ _, None
  | Datatypes.S fuel' =>
      r ← once (_ ← require_remaining;
                or_pause (v ← owner_status i; lift (active_owner v)));
      match r with Some o => mret o | None => read_owner fuel' i end
  end.

Definition mutate_owner (m : rpc S (odict string json)) : rpc S unit :=
  _ ← require_remaining; _ ← or_pause m; mret tt.

Fixpoint retire_loop (fuel : nat) (i owner : string) : tk unit :=
  match fuel with
  | O => λ _, None
  | Datatypes.S fuel' =>
      observed ← read_owner fuel' i;
      match observed with
      | None => mret tt
      | Some o =>
          if bool_decide (o = new_owner) then mret tt
          else if bool_decide (o ≠ owner) then once (throw (PyError RuntimeError))
          else _ ← once (mutate_owner (retire_owner i owner)); retire_loop fuel' i owner
      end
  end.

(** Whether the new owner was activated by this loop. *)
Fixpoint activate_loop (fuel : nat) (i : string) (expected_old : option string)
    (activated : bool) : tk bool :=
  match fuel with
  | O => λ _, None
  | Datatypes.S fuel' =>
      observed ← read_owner fuel' i;
      match observed with
      | None =>
          _ ← once (mutate_owner (activate_owner i new_owner));
          activate_loop fuel' i expected_old true
      | Some o =>
          if bool_decide (o = new_owner) then mret activated
          else if bool_decide (Some o = expected_old)
          then _ ← once (mutate_owner (retire_owner i o));
               activate_loop fuel' i expected_old activated
          else once (throw (PyError RuntimeError))
      end
  end.

Fixpoint retire_all (fuel : nat) (olds : list Old) : tk unit :=
  match olds with
  | [] => mret tt
  | o :: olds' =>
      _ ← retire_loop fuel (old_instance o) (old_owner o); retire_all fuel olds'
  end.
Definition owner_of (olds : list Old) (i : string) : option string :=
  old_owner <$> find (λ o, bool_decide (old_instance o = i)) olds.
Fixpoint activate_all (fuel : nat) (olds : list Old) (instances : list string) :
    tk (list string) :=
  match instances with
  | [] => mret []
  | i :: instances' =>
      activated ← activate_loop fuel i (owner_of olds i) false;
      rest ← activate_all fuel olds instances';
      mret (if (activated : bool) then i :: rest else rest)
  end.
Fixpoint confirm_all (fuel : nat) (instances : list string) : tk (list (string * string)) :=
  match instances with
  | [] => mret []
  | i :: instances' =>
      o ← read_owner fuel i;
      rest ← confirm_all fuel instances';
      mret ((i, default "" o) :: rest)
  end.

(** Retire everywhere, activate everywhere, confirm everywhere. *)
Definition reconcile (fuel : nat) (olds : list Old) (instances : list string) :
    tk (list string * list (string * string)) :=
  _ ← retire_all fuel (sort_by String.le old_instance olds);
  activated ← activate_all fuel olds instances;
  confirmed ← confirm_all fuel instances;
  _ ← once (lift (require (forallb (λ io, bool_decide (io.2 = new_owner)) confirmed)));
  mret (activated, confirmed).
End reconcile.

(** ** The audit *)

Definition query_evidence (s : Swept) : OwnerTakeoverQueryEvidence :=
  mkQueryEvidence (old_instance (sw_old s)) (old_epoch (sw_old s))
    (ref_owner_generation (ps_ref (sw_listed s))) (ref_operation_id (ps_ref (sw_listed s)))
    (ps_ref (sw_listed s)) (ps_state (sw_snapshot s)) (ps_held (sw_snapshot s))
    (ps_kinds (sw_snapshot s)).

(** The last evidence recorded for a reference. *)
Definition finalize_evidence_of (r : EndpointOperationRef)
    (l : list (EndpointOperationRef * OwnerTakeoverFinalizeEvidence)) :
    option OwnerTakeoverFinalizeEvidence :=
  foldl (λ acc x, if decide (x.1 = r) then Some x.2 else acc) None l.

Definition operation_audit (finalized : list (EndpointOperationRef * OwnerTakeoverFinalizeEvidence))
    (s : Swept) : OwnerTakeoverOperationAudit :=
  let ref := ps_ref (sw_listed s) in
  let q := query_evidence s in
  mkOperationAudit (old_instance (sw_old s)) (old_owner (sw_old s)) ref (ps_state (sw_listed s))
    (bool_decide (qe_ref q = ref) && bool_decide (qe_operation_id q = ref_operation_id ref)
     && bool_decide (qe_owner_generation q = ref_owner_generation ref))
    (ps_state (sw_snapshot s)) (sw_abort_attempted s) (ps_held (sw_snapshot s))
    (ps_kinds (sw_snapshot s)) (bool_decide (is_Some (finalize_evidence_of ref finalized)))
    q (finalize_evidence_of ref finalized).

Definition audit_of (new_owner : string) (sp : Sweep) (activated : list string)
    (confirmed : list (string * string)) : OwnerTakeoverAudit :=
  let finalized := concat (sp_finalized sp).*2 in
  let pairs := (λ o, (old_instance o, old_owner o)) <$> sp_olds sp in
  mkAudit new_owner (sp_instances sp) (sort_by String.le fst pairs)
    (sort_by String.le le_instance_id
       ((λ r, operation_list_evidence sha (old_instance r.1) (old_owner r.1) (old_epoch r.1) r.2)
        <$> sp_reports sp))
    (operation_audit finalized
     <$> concat ((λ ol, sort_by String.le (λ s, old_instance (sw_old s)) ol.2)
                 <$> sort_by String.le fst (by_operation (sp_swept sp))))
    (sort_by String.le id (sp_finalized sp).*1) (sort_by String.le fst pairs)
    (sort_by String.le id activated) confirmed.

Definition activate_replacement_owner (fuel : nat) (instances : list string) (new_owner : string)
    (max_audit_entries : Z) (reconcile_deadline : option Z) (retry_interval : Z) :
    tk OwnerTakeoverAudit :=
  sp ← once (sweep instances new_owner max_audit_entries retry_interval);
  now ← once (λ s, (Ok (clock s), s));
  let deadline := default (now + 120 * 10 ^ 9) reconcile_deadline in
  '(activated, confirmed) ← reconcile deadline retry_interval new_owner fuel (sp_olds sp)
                              (sp_instances sp);
  mret (audit_of new_owner sp activated confirmed).
End takeover.

(** ** No owner changes before the proof *)

Lemma rpc_bind_eq {S A B} (m m' : rpc S A) (k k' : A → rpc S B) s :
  (∀ s, m s = m' s) → (∀ a s, k a s = k' a s) → (m ≫= k) s = (m' ≫= k') s.
Proof. intros Hm Hk. unfold mbind, rpc_mbind. rewrite Hm. by destruct (m' s) as [[] ?]. Qed.

Lemma attempt_eq {S A} (m m' : rpc S A) s : m s = m' s → attempt m s = attempt m' s.
Proof. intros Hm. unfold attempt. by rewrite Hm. Qed.

Section guard.
Context (sha repr : json → string) {S : Type} `{Hcl : InferClient S}.

(** A client that refuses to change an owner. *)
Definition keeps_owners : InferClient S := λ mth i path body ref s,
  if bool_decide (mth = "POST") && String.prefix "/v1/owners/" path
  then (Raise (PyError AssertionError), s)
  else client_request mth i path body ref s.

Abbreviation K := keeps_owners.

Lemma keeps_get i path body ref s :
  client_request (InferClient := K) "GET" i path body ref s = client_request "GET" i path body ref s.
Proof. done. Qed.

Lemma keeps_abort i ref reason s :
  abort_request (H := K) i ref reason s = abort_request i ref reason s.
Proof. done. Qed.
Lemma keeps_status i ref s :
  operation_ref_status (H := K) i ref s = operation_ref_status i ref s.
Proof. done. Qed.
Lemma keeps_finalize i f s : finalize_release (H := K) sha i f s = finalize_release sha i f s.
Proof. by apply rpc_bind_eq. Qed.

Lemma each_eq {A B} (f g : A → rpc S B) l s :
  (∀ x s, f x s = g x s) → each f l s = each g l s.
Proof.
  intros Hf. revert s. induction l as [|x l IH]; intros s; [done|]. simpl.
  apply rpc_bind_eq; [done|]. intros y s'. by apply rpc_bind_eq.
Qed.

Lemma drive_eq {T} ev_of put_ev (r r' : CleanupPlan → EndpointFinalizePlan → rpc T ack) n c s :
  (∀ p e s, r p e s = r' p e s) → drive ev_of put_ev r n c s = drive ev_of put_ev r' n c s.
Proof.
  intros Hr. revert c s. induction n as [|n IH]; intros [x|plan e rest rs] s; simpl; try done.
  rewrite Hr. destruct (r' plan e s) as [[a|x] s1]; [|done]. by destruct (run_local _ _ _ _).
Qed.

Lemma keeps_read_reports olds remaining s :
  read_reports (H := K) olds remaining s = read_reports olds remaining s.
Proof.
  revert remaining s. induction olds as [|o olds IH]; intros remaining s; [done|]. simpl.
  apply rpc_bind_eq; [done|]. intros raw s1. apply rpc_bind_eq; [done|]. intros report s2.
  by apply rpc_bind_eq.
Qed.

Lemma keeps_sweep_one e s : sweep_one (H := K) e s = sweep_one e s.
Proof.
  destruct e as [o listed]. simpl. apply rpc_bind_eq.
  { intros s1. by destruct (negb _). }
  intros _ s1. apply rpc_bind_eq; [|done]. intros s2. by apply rpc_bind_eq.
Qed.

Lemma keeps_tries n olds plan s :
  finalize_tries (H := K) sha n olds plan s = finalize_tries sha n olds plan s.
Proof.
  assert (∀ s, finalize_attempt (H := K) sha olds plan s = finalize_attempt sha olds plan s) as Ha.
  { intros s0. apply rpc_bind_eq; [|done]. intros [ev s1]. unfold release_orphan, release_with.
    destruct (release_begin plan _) as [c ev']. apply drive_eq. intros p e [ev0 s2].
    unfold finalize_remote. simpl.
    rewrite (rpc_bind_eq (finalize_release (H := K) sha (efp_instance_id e) (finalize_of p e))
      (finalize_release sha (efp_instance_id e) (finalize_of p e)) _ _ s2
      (keeps_finalize _ _) (λ _ _, eq_refl)). done. }
  revert s. induction n as [|n IH]; intros s; [done|]. simpl. apply rpc_bind_eq.
  - intros s1. by apply attempt_eq.
  - intros [ev|] s1; [done|apply IH].
Qed.

Lemma keeps_orphans olds key ops s :
  finalize_orphans (H := K) sha olds key ops s = finalize_orphans sha olds key ops s.
Proof.
  revert s. induction ops as [|[op swept] ops IH]; intros s; [done|]. cbn [finalize_orphans].
  case_bool_decide; [apply IH|]. apply rpc_bind_eq; [apply keeps_tries|].
  intros ev s1. by apply rpc_bind_eq.
Qed.

(** No owner changes before the proof is complete.  Listing, sweeping,
    finalizing and checking again behave exactly as with a client that
    refuses every call that retires or activates an owner: when the sweep
    raises, every worker still has the owner it had. *)
Theorem sweep_changes_no_owner instances new_owner max_entries interval s :
  sweep (H := keeps_owners) sha repr instances new_owner max_entries interval s
  = sweep sha repr instances new_owner max_entries interval s.
Proof.
  unfold sweep. do 3 (apply rpc_bind_eq; [done|]; intros _ ?). cbv zeta.
  apply rpc_bind_eq; [done|]. intros statuses ?. apply rpc_bind_eq; [done|]. intros owners ?.
  apply rpc_bind_eq; [done|]. intros _ ?. apply rpc_bind_eq; [done|]. intros olds ?.
  apply rpc_bind_eq; [apply keeps_read_reports|]. intros reports ?.
  apply rpc_bind_eq; [done|]. intros _ ?.
  apply rpc_bind_eq; [intros ?; apply each_eq, keeps_sweep_one|]. intros swept ?.
  apply rpc_bind_eq.
  { intros sx. unfold in_takeover. by rewrite keeps_orphans. }
  intros finalized ?. by apply rpc_bind_eq.
Qed.
End guard.

(** ** Where acknowledgements come from

    An evaluator that starts empty only ever returns answers of the remote
    finalization, each for the endpoint of the plan it was asked for. *)
Section answers.
Context {S : Type} (ev_of : S → ResourceReleaseEvaluator).
Context (put_ev : ResourceReleaseEvaluator → S → S).
Context (remote : CleanupPlan → EndpointFinalizePlan → rpc S ack).
Hypothesis ev_put : ∀ ev s, ev_of (put_ev ev s) = ev.
Hypothesis ev_remote : ∀ p e s, ev_of (remote p e s).2 = ev_of s.
(** The plans in use: an identifier names one plan, an instance one endpoint
    of it. *)
Context (known : CleanupPlan → Prop).
Hypothesis known_id : ∀ p q, known p → known q → cp_cleanup_id p = cp_cleanup_id q → p = q.
Hypothesis known_endpoint : ∀ p e e', known p → e ∈ cp_endpoints p → e' ∈ cp_endpoints p →
  efp_instance_id e = efp_instance_id e' → e = e'.

Definition answered (p : CleanupPlan) (e : EndpointFinalizePlan) (a : ack) : Prop :=
  ∃ s s', remote p e s = (Ok a, s').
Definition all_answered (p : CleanupPlan) (acks : list ack) : Prop :=
  Forall2 (answered p) (cp_endpoints p) acks.

Definition answers_ok (ev : ResourceReleaseEvaluator) : Prop :=
  (∀ p e a, known p → e ∈ cp_endpoints p →
     ((cp_cleanup_id p, efp_instance_id e), a) ∈ ev_acks ev → answered p e a)
  ∧ (∀ p acks, known p → (cp_cleanup_id p, acks) ∈ ev_completed ev → all_answered p acks).

Definition coroutine_answers (p : CleanupPlan) (c : coroutine) : Prop :=
  match c with
  | Returned (Ok (Some acks)) => all_answered p acks
  | Returned _ => True
  | Awaiting q e rest results =>
      q = p ∧ ∃ past, cp_endpoints p = past ++ e :: rest ∧ Forall2 (answered p) past results
  end.

Lemma completed_answers p acks ev (d : odict string (list ack)) :
  known p → all_answered p acks → answers_ok ev →
  (∀ x, x ∈ d → x = (cp_cleanup_id p, acks) ∨ x ∈ ev_completed ev) →
  ∀ q acks', known q → (cp_cleanup_id q, acks') ∈ d → all_answered q acks'.
Proof.
  intros Hp Ha [_ Hok] Hd q acks' Hq [[= Hid ->]|Hin]%Hd; [|by eapply Hok].
  by rewrite (known_id q p Hq Hp Hid).
Qed.

Lemma elem_of_dmove_end {V} k (v : V) (d : odict string V) x : x ∈ dmove_end k v d → x = (k, v) ∨ x ∈ d.
Proof.
  unfold dmove_end, dpop. rewrite elem_of_app, list_elem_of_singleton, list_elem_of_filter. tauto.
Qed.

Lemma finish_answers p acks ev c ev' :
  known p → all_answered p acks → answers_ok ev → finish p acks ev = (c, ev') →
  answers_ok ev' ∧ coroutine_answers p c.
Proof.
  intros Hp Ha Hok. unfold finish.
  destruct (release_quarantined_decode_slot _ _ _ _) as [[b|x] sch]; intros [= <- <-];
    (split; [|done]); [|exact Hok]. split; cbn [ev_acks ev_completed set_completed set_acks].
  - intros q e a Hq He [_ Hin]%list_elem_of_filter. by eapply (proj1 Hok).
  - eapply completed_answers; [done..|]. intros x Hin. apply elem_of_dmove_end.
    destruct (dtrim_suffix (ev_terminal_cap ev) (dmove_end (cp_cleanup_id p) acks (ev_completed ev)))
      as [k Hk]. rewrite Hk. apply elem_of_app. by right.
Qed.

Lemma run_local_answers p es past results ev c ev' :
  known p → answers_ok ev → cp_endpoints p = past ++ es → Forall2 (answered p) past results →
  run_local p es results ev = (c, ev') → answers_ok ev' ∧ coroutine_answers p c.
Proof.
  intros Hp Hok. revert past results. induction es as [|e es IH]; intros past results Hes Hpast.
  - simpl. apply finish_answers; [done| |done]. unfold all_answered.
    by rewrite Hes, app_nil_r.
  - simpl. destruct (dget _ (ev_acks ev)) as [a|] eqn:Ha.
    + apply (IH (past ++ [e])); [by rewrite Hes, <- app_assoc|]. apply Forall2_app; [done|].
      repeat constructor. apply dget_Some_1 in Ha. eapply (proj1 Hok); [done| |done].
      rewrite Hes. apply elem_of_app. right. by left.
    + intros [= <- <-]. split; [done|]. simpl. eauto.
Qed.

Lemma elem_of_dset {K V} `{EqDecision K} k (v : V) (d : odict K V) x :
  x ∈ dset k v d → x = (k, v) ∨ x ∈ d.
Proof.
  induction d as [|[k' v'] d IH]; simpl; [rewrite list_elem_of_singleton; by left|].
  case_decide; rewrite !elem_of_cons; tauto.
Qed.

Lemma acks_answers p e a ev :
  known p → e ∈ cp_endpoints p → answered p e a → answers_ok ev →
  answers_ok (set_acks (dset (cp_cleanup_id p, efp_instance_id e) a (ev_acks ev)) ev).
Proof.
  intros Hp He Ha [Hacks Hdone]. split; [|exact Hdone].
  intros q e' a' Hq He'. cbn [ev_acks set_acks]. intros [[= Hid Hi ->]|Hin]%elem_of_dset;
    [|by eapply Hacks].
  apply known_id in Hid as ->; [|done..]. by rewrite (known_endpoint p e' e).
Qed.

Lemma returned_answers p x s r s' :
  coroutine_answers p (Returned x) → answers_ok (ev_of s) → lift x s = (r, s') →
  answers_ok (ev_of s') ∧ ∀ acks, r = Ok (Some acks) → all_answered p acks.
Proof.
  intros Hc Hok Hl. destruct x as [o|e]; injection Hl as <- <-; (split; [done|]); [|done].
  intros acks [= ->]. exact Hc.
Qed.

Lemma drive_answers p n c s r s' :
  known p → coroutine_answers p c → answers_ok (ev_of s) →
  drive ev_of put_ev remote n c s = (r, s') →
  answers_ok (ev_of s') ∧ ∀ acks, r = Ok (Some acks) → all_answered p acks.
Proof.
  intros Hp. revert c s. induction n as [|n IH]; intros [x|q e rest results] s Hc Hok; simpl;
    try by apply returned_answers.
  { intros [= <- <-]. by split. }
  destruct Hc as [-> (past & Hes & Hpast)].
  pose proof (ev_remote p e s) as Hev. destruct (remote p e s) as [[a|x] s1] eqn:Hrem; simpl in Hev.
  2: { intros [= <- <-]. rewrite Hev. by split. }
  assert (e ∈ cp_endpoints p) as He by (rewrite Hes; apply elem_of_app; right; by left).
  assert (answered p e a) as Ha by by exists s, s1.
  destruct (run_local p rest (results ++ [a]) _) as [c' ev] eqn:Hrun.
  apply (run_local_answers p rest (past ++ [e])) in Hrun as [Hok' Hc'].
  - apply IH; [done|]. by rewrite ev_put.
  - done.
  - rewrite Hev. by apply acks_answers.
  - by rewrite Hes, <- app_assoc.
  - apply Forall2_app; [done|]. by repeat constructor.
Qed.

Lemma release_answers p s r s' :
  known p → answers_ok (ev_of s) → release_with ev_of put_ev remote p s = (r, s') →
  answers_ok (ev_of s') ∧ ∀ acks, r = Ok (Some acks) → all_answered p acks.
Proof.
  intros Hp Hok. unfold release_with. destruct (release_begin p (ev_of s)) as [c ev] eqn:Hb.
  assert (answers_ok ev ∧ coroutine_answers p c) as [Hev Hc]; [|by apply drive_answers; rewrite ?ev_put].
  revert Hb. unfold release_begin. destruct (dget _ (ev_completed (ev_of s))) as [acks|] eqn:Hd.
  { apply dget_Some_1 in Hd. intros [= <- <-]. assert (all_answered p acks) by by eapply Hok.
    split; [|done]. split; [apply Hok|]. eapply completed_answers; [done..|].
    intros x. apply elem_of_dmove_end. }
  destruct (negb _); [by intros [= <- <-]|]. destruct (negb _); [by intros [= <- <-]|].
  destruct (dget _ (ev_active (ev_of s))); (case_bool_decide; [by intros [= <- <-]|]);
    by apply (run_local_answers p (cp_endpoints p) []).
Qed.
End answers.

(** ** What a sweep proves *)

Lemma parse_snapshot_Ok v i owner epoch expected p :
  parse_operation_snapshot v i owner epoch expected = Ok p →
  ref_target_instance (ps_ref p) = i ∧ ref_owner_generation (ps_ref p) = owner
  ∧ ref_target_worker_epoch (ps_ref p) = epoch ∧ ref_wf (ps_ref p)
  ∧ (∀ r, expected = Some r → ps_ref p = r) ∧ ps_state p ∈ OPERATION_STATES
  ∧ (ps_held p = true ↔ ps_kinds p ≠ []).
Proof.
  unfold parse_operation_snapshot. destruct v as [| | | | | |d]; try done.
  intros (ref & Hr%parse_endpoint_ref_iff & HR)%bind_Ok. rewrite !require_then in HR.
  destruct HR as (He & Hb & HR). rewrite !andb_true_iff, !bool_decide_eq_true in Hb.
  destruct (jget "state" d) as [| | | |state| |]; try done.
  destruct (jget "resources_held" d) as [|h| | | | |]; try done.
  rewrite require_then, bool_decide_eq_true in HR. destruct HR as [Hs HR].
  apply bind_Ok in HR as (kinds & _ & HR). rewrite require_then, bool_decide_eq_true in HR.
  destruct HR as [Hh HR]. injection HR as <-. destruct Hr as [Hwf _].
  destruct Hb as [[[? ?] ?] _]. simpl. split_and!; try done.
  - intros r ->. by apply bool_decide_eq_true in He.
  - rewrite Hh, bool_decide_eq_true.
    assert (sort_by String.le id kinds ≡ₚ kinds) as Hp by apply sort_by_perm.
    split; intros Hne Hnil; apply Hne.
    + rewrite Hnil in Hp. by apply Permutation_nil in Hp.
    + subst kinds. done.
Qed.

(** A parsed snapshot: bound to the instance, owner and epoch it was asked
    for, in a known state, with the kinds sorted and held exactly when there
    are some. *)
Definition snapshot_wf (instance owner epoch : string) (p : ParsedOperationSnapshot) : Prop :=
  ref_wf (ps_ref p) ∧ ref_target_instance (ps_ref p) = instance
  ∧ ref_owner_generation (ps_ref p) = owner ∧ ref_target_worker_epoch (ps_ref p) = epoch
  ∧ ps_state p ∈ OPERATION_STATES ∧ (ps_held p = bool_decide (ps_kinds p ≠ []))
  ∧ NoDup (ps_kinds p) ∧ Forall (λ k, k ≠ "") (ps_kinds p)
  ∧ StronglySorted String.le (ps_kinds p).

Lemma parse_kinds_iff v kinds :
  parse_kinds v = Ok kinds ↔ v = jstrs kinds ∧ NoDup kinds ∧ Forall (λ k, k ≠ "") kinds.
Proof.
  assert (∀ items, mapR (λ item, match item with
      | JStr s => _ ← require (truthy s); mret s | _ => Raise RuntimeError end) items = Ok kinds
    ↔ items = JStr <$> kinds ∧ Forall (λ k, k ≠ "") kinds) as Hm.
  { intros items. rewrite mapR_Ok. split.
    - induction 1 as [|x k items ks Hx _ [-> IH]]; [done|]. destruct x as [| | | |s| |]; try done.
      rewrite require_then, truthy_true in Hx. destruct Hx as [Hs [= ->]]. by split; [|constructor].
    - intros [-> Hk]. induction Hk as [|k ks Hk _ IH]; simpl; constructor; [|done].
      by rewrite require_then, truthy_true. }
  unfold parse_kinds, jstrs. destruct v as [| | | | |items|]; try (split; [done|by intros [? _]]).
  split.
  - intros (ks & Hks & HR)%bind_Ok. rewrite require_then, bool_decide_eq_true in HR.
    destruct HR as [Hnd [= ->]]. apply Hm in Hks as [-> ?]. done.
  - intros ([= ->] & Hnd & Hk). rewrite (proj2 (Hm _)) by done. simpl. by rewrite bool_decide_true.
Qed.

Lemma parsed_snapshot_wf v i owner epoch expected p :
  parse_operation_snapshot v i owner epoch expected = Ok p → snapshot_wf i owner epoch p.
Proof.
  intros Hp. pose proof (parse_snapshot_Ok _ _ _ _ _ _ Hp) as (? & ? & ? & ? & _ & ? & Hh).
  revert Hp. unfold parse_operation_snapshot. destruct v as [| | | | | |d]; try done.
  intros (ref & _ & HR)%bind_Ok. rewrite !require_then in HR. destruct HR as (_ & _ & HR).
  destruct (jget "state" d); try done. destruct (jget "resources_held" d); try done.
  rewrite require_then in HR. destruct HR as [_ HR].
  apply bind_Ok in HR as (kinds & (_ & Hnd & Hk)%parse_kinds_iff & HR).
  rewrite require_then in HR. destruct HR as [_ [= <-]]. unfold snapshot_wf. simpl in *.
  split_and!; try done.
  - apply eq_bool_prop_intro. rewrite bool_decide_spec. split; [intros Hb; apply Hh|intros Hb].
    + by destruct b.
    + by rewrite (proj2 Hh Hb).
  - by rewrite sort_by_perm.
  - by rewrite sort_by_perm.
  - exact (sort_by_sorted String.le id kinds).
Qed.

Lemma snapshot_value_parses i owner epoch p :
  snapshot_wf i owner epoch p →
  parse_operation_snapshot (snapshot_value p) i owner epoch None = Ok p.
Proof.
  intros (Hwf & Hi & Ho & He & Hst & Hh & Hnd & Hk & Hs). unfold parse_operation_snapshot, snapshot_value.
  change (jget "endpoint_ref" _) with (JObj (ref_json (ps_ref p))).
  assert (parse_endpoint_ref (JObj (ref_json (ps_ref p))) = Ok (ps_ref p)) as ->.
  { apply parse_endpoint_ref_iff. split; [done|]. by exists (ref_json (ps_ref p)). }
  cbn [mbind result_mbind]. rewrite !require_then. split; [done|]. split.
  { rewrite !andb_true_iff, !bool_decide_eq_true, truthy_true. split_and!; try done. apply Hwf. }
  change (jget "state" _) with (JStr (ps_state p)).
  change (jget "resources_held" _) with (JBool (ps_held p)).
  change (jget "held_resource_kinds" _) with (jstrs (ps_kinds p)).
  cbn iota. rewrite require_then. split; [by apply bool_decide_eq_true|].
  rewrite (proj2 (parse_kinds_iff _ _)) by done. cbn [mbind result_mbind].
  rewrite require_then, sort_by_id by done. split; [by apply bool_decide_eq_true|]. by destruct p.
Qed.

(** C36: What a complete report may contain.  Every entry of a report that is
    accepted is bound to the asked instance, owner generation and epoch, has a
    well-formed reference and a known state, distinct non-empty kinds in
    order, and holds something exactly when it names a kind; there are at
    most as many entries as allowed; and every such list, written the way
    the evidence writes it, is accepted again as itself. *)
Theorem operation_reports_typed instance owner epoch max_entries :
  let fits (l : list ParsedOperationSnapshot) :=
    match max_entries with Some m => Z.of_nat (length l) ≤ m | None => True end in
  (∀ report ops, parse_complete_operation_report report instance owner epoch max_entries = Ok ops →
     Forall (snapshot_wf instance owner epoch) ops ∧ fits ops)
  ∧ (∀ ops, Forall (snapshot_wf instance owner epoch) ops → fits ops →
     parse_complete_operation_report
       [("instance_epoch", JStr epoch); ("complete", JBool true);
        ("operations", JList (snapshot_value <$> ops))] instance owner epoch max_entries = Ok ops).
Proof.
  intros fits. unfold parse_complete_operation_report. split.
  - intros report ops. rewrite !require_then. intros (_ & _ & HR).
    destruct (jget "operations" report) as [| | | | |l|]; try done.
    rewrite require_then in HR. destruct HR as [Hm HR]. apply mapR_Ok in HR as Hl. split.
    + clear -Hl. induction Hl; constructor; [by eapply parsed_snapshot_wf|done].
    + unfold fits. apply Forall2_length in Hl. rewrite <- Hl.
      destruct max_entries; [by apply bool_decide_eq_true in Hm|done].
  - intros ops Hops Hfits. rewrite !require_then. split; [done|]. split.
    { by apply py_eqb_str. }
    change (jget "operations" _) with (JList (snapshot_value <$> ops)). cbn iota.
    rewrite require_then. split.
    { unfold fits in Hfits. destruct max_entries; [|done]. rewrite length_fmap. by apply bool_decide_eq_true. }
    apply mapR_Ok, Forall2_fmap_l, Forall_Forall2_diag. eapply Forall_impl; [done|].
    intros p. apply snapshot_value_parses.
Qed.

Section proof.
Context (sha repr : json → string) {S : Type} `{Hcl : InferClient S}.

Lemma each_Ok {A B} (f : A → rpc S B) l s ys s' :
  each f l s = (Ok ys, s') → Forall2 (λ x y, ∃ s1 s2, f x s1 = (Ok y, s2)) l ys.
Proof.
  revert s ys s'. induction l as [|x l IH]; intros s ys s'.
  - intros [= <- _]. constructor.
  - intros (y & s1 & Hx & Hr)%rpc_bind_Ok. apply rpc_bind_Ok in Hr as (ys' & s2 & Hys & [= <- _]).
    constructor; [by exists s, s1|]. by eapply IH.
Qed.

(** The exact query of the reference was answered with a terminal state of
    this very reference. *)
Definition swept_ok (w : Swept) : Prop :=
  let o := sw_old w in
  ps_ref (sw_snapshot w) = ps_ref (sw_listed w)
  ∧ terminal_state (ps_state (sw_snapshot w)) = true
  ∧ ref_target_instance (ps_ref (sw_listed w)) = old_instance o
  ∧ ref_owner_generation (ps_ref (sw_listed w)) = old_owner o
  ∧ ref_target_worker_epoch (ps_ref (sw_listed w)) = old_epoch o
  ∧ ∃ s1 s2 v, operation_ref_status (old_instance o) (ps_ref (sw_listed w)) s1 = (Ok v, s2)
      ∧ parse_operation_snapshot (JObj v) (old_instance o) (old_owner o) (old_epoch o)
          (Some (ps_ref (sw_listed w))) = Ok (sw_snapshot w).

Lemma sweep_one_Ok e s w s' :
  sweep_one e s = (Ok w, s') → (sw_old w, sw_listed w) = e ∧ swept_ok w.
Proof.
  destruct e as [o listed]. intros (x & s1 & _ & Hr)%rpc_bind_Ok.
  apply rpc_bind_Ok in Hr as (v & s2 & Hv & Hr). apply rpc_bind_Ok in Hv as ([v'|] & s3 & Ha & Hv); [|done].
  injection Hv as <- <-. rewrite attempt_Some in Ha.
  apply rpc_bind_Ok in Hr as (p & s4 & [Hp ->]%lift_Ok & Hr).
  apply rpc_bind_Ok in Hr as ([] & s5 & [Ht ->]%lift_Ok & [= <- _]).
  apply require_Ok in Ht. apply parse_snapshot_Ok in Hp as Hps.
  destruct Hps as (Hi & How & Hep & _ & Hexp & _ & _). specialize (Hexp _ eq_refl).
  split; [done|]. unfold swept_ok. simpl. rewrite <- Hexp. split_and!; try done.
  rewrite Hexp. by exists s1, s3, v'.
Qed.

(** The last report of the worker: the same references, all terminal, none
    holding anything. *)
Definition left_clean (instance owner epoch : string) (refs : list EndpointOperationRef) : Prop :=
  ∃ s1 s2 raw ops, list_operations instance owner s1 = (Ok raw, s2)
    ∧ parse_complete_operation_report raw instance owner epoch None = Ok ops
    ∧ (∀ ref, ref ∈ ps_ref <$> ops ↔ ref ∈ refs)
    ∧ Forall (λ p, ps_held p = false ∧ terminal_state (ps_state p) = true) ops.

Lemma recheck_Ok o before s u s' :
  recheck (o, before) s = (Ok u, s') →
  left_clean (old_instance o) (old_owner o) (old_epoch o) (ps_ref <$> before).
Proof.
  intros (raw & s1 & Hraw & Hr)%rpc_bind_Ok.
  apply rpc_bind_Ok in Hr as (ops & s2 & [Hops ->]%lift_Ok & Hr).
  apply rpc_bind_Ok in Hr as ([] & s3 & [Hset ->]%lift_Ok & Hr).
  apply rpc_bind_Ok in Hr as ([] & s4 & [Hheld ->]%lift_Ok & Hr).
  apply rpc_bind_Ok in Hr as ([] & s5 & [Hterm ->]%lift_Ok & _).
  apply require_Ok in Hset, Hheld, Hterm. apply bool_decide_eq_true in Hset.
  exists s, s1, raw, ops. split_and!; try done.
  - intros ref. rewrite <- !(elem_of_list_to_set (C := gset EndpointOperationRef)). by rewrite Hset.
  - apply Forall_forall. intros p Hp%list_elem_of_In. split.
    + apply negb_true_iff in Hheld. destruct (ps_held p) eqn:Hh; [|done].
      rewrite <- not_true_iff_false, existsb_exists in Hheld. destruct Hheld. eauto.
    + rewrite forallb_forall in Hterm. by apply Hterm.
Qed.

(** *** Finalization *)

(** The references grouped so far. *)
Definition grouped_ref (d : odict string (list (EndpointOperationRef * list string)))
    (ref : EndpointOperationRef) : Prop := ∃ i l, dget i d = Some l ∧ ref ∈ l.*1.

Lemma group_keeps d i x ref : grouped_ref d ref → grouped_ref (group d i x) ref.
Proof.
  intros (j & l & Hd & Hin). unfold group. destruct (decide (j = i)) as [->|Hne].
  - exists i, (l ++ [x]). rewrite dget_dset_eq, Hd. split; [done|].
    rewrite fmap_app, elem_of_app. by left.
  - exists j, l. by rewrite dget_dset_ne.
Qed.

Lemma group_adds d i x : grouped_ref (group d i x) x.1.
Proof.
  eexists i, _. unfold group. rewrite dget_dset_eq. split; [done|].
  rewrite fmap_app, elem_of_app. right. simpl. set_solver.
Qed.

Lemma group_swept_refs swept w :
  w ∈ swept → ps_held (sw_snapshot w) = true → grouped_ref (group_swept swept) (ps_ref (sw_listed w)).
Proof.
  unfold group_swept.
  set (f := λ (d : odict string (list (EndpointOperationRef * list string))) s,
    if ps_held (sw_snapshot s) then group d (old_instance (sw_old s))
      (ps_ref (sw_listed s), ps_kinds (sw_snapshot s)) else d).
  assert (∀ l d ref, grouped_ref d ref → grouped_ref (foldl f d l) ref) as Hk.
  { induction l as [|x l IH]; intros d ref Hg; simpl; [done|]. apply IH. unfold f.
    destruct (ps_held (sw_snapshot x)); [by apply group_keeps|done]. }
  generalize (@nil (string * list (EndpointOperationRef * list string))).
  induction swept as [|x swept IH]; intros d Hin Hh; [by apply not_elem_of_nil in Hin|].
  apply elem_of_cons in Hin as [->|Hin]; simpl; [|by apply IH].
  apply Hk. unfold f. rewrite Hh. apply (group_adds d _ (ps_ref (sw_listed x), ps_kinds (sw_snapshot x))).
Qed.

Lemma finalize_attempt_refs olds plan s ev s' e ref :
  finalize_attempt sha olds plan s = (Ok ev, s') →
  e ∈ cp_endpoints plan → ref ∈ efp_endpoint_refs e → ref ∈ ev.*1.
Proof.
  intros (r & s1 & _ & Hr)%rpc_bind_Ok He Href. destruct r as [acks|]; [|done].
  apply rpc_bind_Ok in Hr as ([] & s2 & [Hlen ->]%lift_Ok & [= <- _]).
  apply require_Ok, bool_decide_eq_true in Hlen.
  apply list_elem_of_lookup in He as [k Hk].
  destruct (lookup_lt_is_Some_2 acks k) as [a Ha].
  { rewrite Hlen. by eapply lookup_lt_Some. }
  apply list_elem_of_fmap. exists (ref, mkFinalizeEvidence (efp_instance_id e) (efp_endpoint_refs e) a).
  split; [done|]. apply elem_of_concat.
  exists ((λ r, (r, mkFinalizeEvidence (efp_instance_id e) (efp_endpoint_refs e) a))
          <$> efp_endpoint_refs e). split.
  - apply list_elem_of_fmap. by exists ref.
  - apply list_elem_of_lookup. exists k. rewrite lookup_zip_with, Hk. simpl. by rewrite Ha.
Qed.

Lemma finalize_tries_refs n olds plan s ev s' e ref :
  finalize_tries sha n olds plan s = (Ok ev, s') →
  e ∈ cp_endpoints plan → ref ∈ efp_endpoint_refs e → ref ∈ ev.*1.
Proof.
  revert s. induction n as [|n IH]; intros s; [done|]. cbn [finalize_tries].
  intros (r & s1 & Hr & Ht)%rpc_bind_Ok He Href. destruct r as [ev'|].
  - injection Ht as -> ->. rewrite attempt_Some in Hr. by eapply finalize_attempt_refs.
  - by eapply IH.
Qed.

Lemma orphan_plan_refs key op swept w :
  w ∈ swept → ps_held (sw_snapshot w) = true →
  group_swept swept ≠ []
  ∧ ∃ e, e ∈ cp_endpoints (orphan_plan key op swept) ∧ ps_ref (sw_listed w) ∈ efp_endpoint_refs e.
Proof.
  intros Hin Hh. destruct (group_swept_refs swept w Hin Hh) as (i & l & Hd & Hr). split.
  { intros Hnil. by rewrite Hnil in Hd. }
  exists (endpoint_of (i, l)). split; [|done]. simpl. apply list_elem_of_fmap. exists (i, l).
  split; [done|]. rewrite elem_of_sort_by. by apply dget_Some_1.
Qed.

Lemma finalize_orphans_refs olds key ops s l s' op swept w :
  finalize_orphans sha olds key ops s = (Ok l, s') →
  (op, swept) ∈ ops → w ∈ swept → ps_held (sw_snapshot w) = true →
  ∃ ev, (op, ev) ∈ l ∧ ps_ref (sw_listed w) ∈ ev.*1.
Proof.
  revert s l. induction ops as [|[op' swept'] ops IH]; intros s l Hf Hin Hw Hh;
    [by apply not_elem_of_nil in Hin|].
  cbn [finalize_orphans] in Hf. case_bool_decide as Hg.
  - apply elem_of_cons in Hin as [[= -> ->]|Hin]; [|by eapply IH].
    by destruct (orphan_plan_refs key op' swept' w Hw Hh).
  - apply rpc_bind_Ok in Hf as (ev & s1 & Hev & Hf). apply rpc_bind_Ok in Hf as (rest & s2 & Hrest & [= <- <-]).
    apply elem_of_cons in Hin as [[= -> ->]|Hin].
    + destruct (orphan_plan_refs key op' swept' w Hw Hh) as (_ & e & He & Href).
      exists ev. split; [by left|]. by eapply finalize_tries_refs.
    + destruct (IH _ _ Hrest Hin Hw Hh) as (ev' & ? & ?). exists ev'. split; [by right|done].
Qed.

Lemma by_operation_elem swept w :
  w ∈ swept ↔ ∃ op l, (op, l) ∈ by_operation swept ∧ w ∈ l.
Proof.
  unfold by_operation.
  set (f := λ (d : odict string (list Swept)) s, let op := ref_operation_id (ps_ref (sw_listed s)) in
    dset op (default [] (dget op d) ++ [s]) d).
  assert (∀ l d, dwf d → dwf (foldl f d l) ∧
    ∀ w, (∃ op l', dget op (foldl f d l) = Some l' ∧ w ∈ l')
         ↔ (∃ op l', dget op d = Some l' ∧ w ∈ l') ∨ w ∈ l) as Hg.
  { clear. induction l as [|x l IH]; intros d Hd; simpl.
    { split; [done|]. intros w. split; [auto|]. intros [?|?%not_elem_of_nil]; done. }
    set (op := ref_operation_id (ps_ref (sw_listed x))).
    destruct (IH (f d x)) as [Hw Hiff]; [by apply dwf_dset|]. split; [done|]. intros w.
    rewrite Hiff, elem_of_cons. unfold f. fold op.
    assert ((∃ op' l', dget op' (dset op (default [] (dget op d) ++ [x]) d) = Some l' ∧ w ∈ l')
            ↔ (∃ op' l', dget op' d = Some l' ∧ w ∈ l') ∨ w = x) as ->; [|tauto].
    split.
    - intros (op' & l' & Hl & Hin). rewrite dget_dset in Hl. case_decide as Heq; [|eauto].
      injection Hl as <-. apply elem_of_app in Hin as [Hin|Hin%list_elem_of_singleton]; [|by right].
      left. destruct (dget op d) as [l0|] eqn:Ho; simpl in Hin; [eauto|by apply not_elem_of_nil in Hin].
    - intros [(op' & l' & Hl & Hin)| ->].
      + destruct (decide (op' = op)) as [->|Hne].
        * eexists op, _. rewrite dget_dset_eq. split; [done|]. rewrite Hl. apply elem_of_app. by left.
        * exists op', l'. by rewrite dget_dset_ne.
      + eexists op, _. rewrite dget_dset_eq. split; [done|]. apply elem_of_app. right.
        by apply list_elem_of_singleton. }
  destruct (Hg swept [] dwf_nil) as [Hw Hiff]. rewrite <- (right_id False (∨) (w ∈ swept)).
  specialize (Hiff w). setoid_rewrite (dget_Some _ _ _ Hw) in Hiff. rewrite Hiff. simpl.
  split; [intros [?|[]]; by right|]. intros [(op & l & ? & _)|?]; [done|by left].
Qed.

(** *** The evidence of a finalization *)

(** The worker answered the finalization of exactly these references, and the
    answer is the snapshot that passed validation. *)
Definition acknowledged (f : OwnerTakeoverFinalizeEvidence) : Prop :=
  ∃ fin epoch s1 s2 value, fin_endpoint_refs fin = fe_refs f
    ∧ finalize_release sha (fe_instance_id f) fin s1 = (Ok value, s2)
    ∧ validate_release_snapshot sha value (fe_instance_id f) fin epoch = Ok (fe_snapshot f).
Definition evidence_ok
    (x : EndpointOperationRef * OwnerTakeoverFinalizeEvidence) : Prop :=
  x.1 ∈ fe_refs x.2 ∧ acknowledged x.2.

Lemma group_swept_wf swept : dwf (group_swept swept).
Proof.
  unfold group_swept.
  assert (∀ d : odict string (list (EndpointOperationRef * list string)), dwf d → dwf (foldl (λ d s,
    if ps_held (sw_snapshot s) then group d (old_instance (sw_old s))
      (ps_ref (sw_listed s), ps_kinds (sw_snapshot s)) else d) d swept)) as Hg; [|by apply Hg, dwf_nil].
  induction swept as [|w swept IH]; intros d Hd; simpl; [done|]. apply IH.
  destruct (ps_held _); [by apply dwf_dset|done].
Qed.

Lemma by_operation_wf swept : dwf (by_operation swept).
Proof.
  unfold by_operation.
  assert (∀ d : odict string (list Swept), dwf d → dwf (foldl (λ d s,
    let op := ref_operation_id (ps_ref (sw_listed s)) in
    dset op (default [] (dget op d) ++ [s]) d) d swept)) as Hg; [|by apply Hg, dwf_nil].
  induction swept as [|w swept IH]; intros d Hd; simpl; [done|]. by apply IH, dwf_dset.
Qed.

Section finalization.
Context (olds : list Old) (key : string) (all : odict string (list Swept)) (all_wf : dwf all).

Definition orphan_of (p : CleanupPlan) : Prop :=
  ∃ op swept, (op, swept) ∈ all ∧ p = orphan_plan key op swept.

Lemma orphan_id p q : orphan_of p → orphan_of q → cp_cleanup_id p = cp_cleanup_id q → p = q.
Proof.
  intros (op & l & Hin & ->) (op' & l' & Hin' & ->) Hid. simpl in Hid.
  do 3 apply (inj (String.append _)) in Hid. subst op'.
  apply (dget_Some _ _ _ all_wf) in Hin, Hin'. congruence.
Qed.

Lemma orphan_endpoint p e e' :
  orphan_of p → e ∈ cp_endpoints p → e' ∈ cp_endpoints p →
  efp_instance_id e = efp_instance_id e' → e = e'.
Proof.
  intros (op & l & _ & ->). simpl.
  intros ([i x] & -> & Hx)%list_elem_of_fmap ([i' x'] & -> & Hx')%list_elem_of_fmap Hi. simpl in Hi.
  subst i'. rewrite elem_of_sort_by in Hx, Hx'.
  apply (dget_Some _ _ _ (group_swept_wf l)) in Hx, Hx'. congruence.
Qed.

Abbreviation ok es := (answers_ok (finalize_remote sha olds) orphan_of es.1).

Lemma remote_keeps p e es : (finalize_remote sha olds p e es).2.1 = es.1.
Proof. unfold finalize_remote. cbv zeta. by case_match. Qed.

Lemma answered_evidence p e a r :
  answered (finalize_remote sha olds) p e a → r ∈ efp_endpoint_refs e →
  evidence_ok (r, mkFinalizeEvidence (efp_instance_id e) (efp_endpoint_refs e) a).
Proof.
  intros (es & es' & He) Hr. split; [done|]. unfold finalize_remote in He. cbv zeta in He.
  case_match eqn:Hx. injection He as -> _.
  apply rpc_bind_Ok in Hx as (value & s1 & Hv & [Hval _]%lift_Ok).
  eexists (finalize_of p e), _, es.2, s1, value. done.
Qed.

Lemma attempt_evidence p es r es' :
  orphan_of p → ok es → finalize_attempt sha olds p es = (r, es') →
  ok es' ∧ ∀ ev, r = Ok ev → Forall (evidence_ok) ev.
Proof.
  intros Hp Hok. unfold finalize_attempt, mbind, rpc_mbind.
  destruct (release_orphan sha olds p es) as [x es1] eqn:Hx.
  pose proof (release_answers fst (λ ev es, (ev, es.2)) (finalize_remote sha olds) (λ _ _, eq_refl)
    remote_keeps orphan_of orphan_id orphan_endpoint p es x es1 Hp Hok Hx) as [Hok1 Hacks].
  destruct x as [[acks|]|x]; try by (intros [= <- <-]).
  specialize (Hacks _ eq_refl). unfold lift, require. destruct (bool_decide _); simpl;
    [|by intros [= <- <-]].
  intros [= <- <-]. split; [done|]. intros ev [= <-]. apply Forall_concat. clear Hx.
  induction Hacks as [|e a es0 acks Ha _ IH]; simpl; constructor; [|exact IH].
  apply Forall_fmap, Forall_forall. intros ref Hin. by apply (answered_evidence p).
Qed.

Lemma tries_evidence n p es r es' :
  orphan_of p → ok es → finalize_tries sha n olds p es = (r, es') →
  ok es' ∧ ∀ ev, r = Ok ev → Forall (evidence_ok) ev.
Proof.
  intros Hp. revert es. induction n as [|n IH]; intros es Hok; cbn [finalize_tries].
  { intros [= <- <-]. by split. }
  unfold attempt, mbind, rpc_mbind. destruct (finalize_attempt sha olds p es) as [x es1] eqn:Hx.
  apply attempt_evidence in Hx as [Hok1 Hev]; [|done..].
  destruct x as [ev|x]; [intros [= <- <-]; by split|].
  destruct x as [| |[]]; try by apply IH. intros [= <- <-]. by split.
Qed.

Lemma orphans_evidence ops es r es' :
  (∀ x, x ∈ ops → x ∈ all) → ok es → finalize_orphans sha olds key ops es = (Ok r, es') →
  Forall (evidence_ok) (concat r.*2).
Proof.
  revert es r es'. induction ops as [|[op swept] ops IH]; intros es r es' Hall Hok.
  { intros [= <- _]. constructor. }
  cbn [finalize_orphans].
  assert (∀ x, x ∈ ops → x ∈ all) as Hall' by (intros x Hx; apply Hall; by right).
  case_bool_decide; [by apply IH|].
  intros (ev & es1 & Hev & Hr)%rpc_bind_Ok. apply rpc_bind_Ok in Hr as (rest & es2 & Hrest & [= <- _]).
  apply tries_evidence in Hev as [Hok1 Hev]; [|eexists op, swept; split; [apply Hall; by left|done]|done].
  simpl. apply Forall_app. split; [by apply Hev|by eapply IH].
Qed.
End finalization.

(** *** The whole sweep *)

Lemma report_of_each olds m s reports s' :
  read_reports olds m s = (Ok reports, s') → reports.*1 = olds.
Proof.
  revert m s reports s'. induction olds as [|o olds IH]; intros m s reports s'; [by intros [= <- _]|].
  intros (raw & s1 & _ & Hr)%rpc_bind_Ok. apply rpc_bind_Ok in Hr as (rep & s2 & _ & Hr).
  apply rpc_bind_Ok in Hr as (rest & s3 & Hrest & [= <- _]). simpl. f_equal. by eapply IH.
Qed.

Record swept_all (instances : list string) (sp : Sweep) : Prop := {
  sa_instances : sp_instances sp = sort_by String.le id instances;
  sa_clean : Forall (λ r, left_clean (old_instance r.1) (old_owner r.1) (old_epoch r.1)
                            (ps_ref <$> r.2)) (sp_reports sp);
  sa_swept : Forall swept_ok (sp_swept sp);
  sa_entries : (λ w, (sw_old w, sw_listed w)) <$> sp_swept sp = listed_entries (sp_reports sp);
  sa_evidence : Forall evidence_ok (concat (sp_finalized sp).*2);
  sa_held w : w ∈ sp_swept sp → ps_held (sw_snapshot w) = true →
    ps_ref (sw_listed w) ∈ (concat (sp_finalized sp).*2).*1 }.

Lemma sweep_Ok instances new_owner m interval s sp s' :
  sweep sha repr instances new_owner m interval s = (Ok sp, s') → swept_all instances sp.
Proof.
  unfold sweep. intros (? & ? & _ & Hr)%rpc_bind_Ok. apply rpc_bind_Ok in Hr as (? & ? & _ & Hr).
  apply rpc_bind_Ok in Hr as (? & ? & _ & Hr). cbv zeta in Hr.
  apply rpc_bind_Ok in Hr as (? & ? & _ & Hr). apply rpc_bind_Ok in Hr as (? & ? & _ & Hr).
  apply rpc_bind_Ok in Hr as (? & ? & _ & Hr). apply rpc_bind_Ok in Hr as (olds & ? & _ & Hr).
  apply rpc_bind_Ok in Hr as (reports & ? & Hrep & Hr). apply rpc_bind_Ok in Hr as (? & ? & _ & Hr).
  apply rpc_bind_Ok in Hr as (swept & ? & Hsw%each_Ok & Hr).
  apply rpc_bind_Ok in Hr as (fin & s1 & Hfin & Hr).
  apply rpc_bind_Ok in Hr as (? & ? & Hck%each_Ok & [= <- _]).
  unfold in_takeover in Hfin. destruct (finalize_orphans _ _ _ _ _) as [r [ev s2]] eqn:Hf.
  injection Hfin as -> _. split; simpl.
  - done.
  - clear -Hck. induction Hck as [|[o ops] u reports us (s1 & s2 & Hu) _ IH]; constructor; [|done].
    by eapply recheck_Ok.
  - clear -Hsw. induction Hsw as [|e w es ws (s1 & s2 & Hw) _ IH]; constructor; [|done].
    by eapply sweep_one_Ok.
  - clear -Hsw. induction Hsw as [|e w es ws (s1 & s2 & Hw) _ IH]; [done|]. rewrite fmap_cons, IH.
    f_equal. by eapply sweep_one_Ok.
  - eapply (orphans_evidence olds _ (by_operation swept)); [apply by_operation_wf|done| |done].
    split; [intros ????? Hin|intros ??? Hin]; by apply not_elem_of_nil in Hin.
  - intros w Hw Hh. apply by_operation_elem in Hw as (op & l & Hin & Hw).
    destruct (finalize_orphans_refs _ _ _ _ _ _ _ _ _ Hf Hin Hw Hh) as (evs & Hevs & Href).
    apply list_elem_of_fmap in Href as (y & Hy & Hyin). rewrite Hy. apply list_elem_of_fmap_2.
    apply elem_of_concat. exists evs. split; [done|]. by apply (list_elem_of_fmap_2 snd) in Hevs.
Qed.

(** *** The audit *)

Lemma finalize_evidence_of_Some r (l : list (EndpointOperationRef * OwnerTakeoverFinalizeEvidence)) :
  r ∈ l.*1 → ∃ f, finalize_evidence_of r l = Some f ∧ (r, f) ∈ l.
Proof.
  unfold finalize_evidence_of. induction l as [|[r' f] l IH] using rev_ind.
  - intros Hin. by apply not_elem_of_nil in Hin.
  - rewrite foldl_app, fmap_app, elem_of_app. simpl. case_decide as Hr; [intros _|].
    + subst r'. exists f. split; [done|]. apply elem_of_app. right. by left.
    + intros [Hin|Hin%list_elem_of_singleton]; [|done]. destruct (IH Hin) as (f' & ? & ?).
      exists f'. split; [done|]. apply elem_of_app. by left.
Qed.

Definition audited (oa : OwnerTakeoverOperationAudit) : Prop :=
  let ref := oa_ref oa in
  ref_target_instance ref = oa_instance_id oa ∧ ref_owner_generation ref = oa_old_owner oa
  ∧ terminal_state (oa_terminal_state oa) = true
  ∧ (∃ s1 s2 v p, operation_ref_status (oa_instance_id oa) ref s1 = (Ok v, s2)
       ∧ parse_operation_snapshot (JObj v) (oa_instance_id oa) (oa_old_owner oa)
           (ref_target_worker_epoch ref) (Some ref) = Ok p
       ∧ ps_state p = oa_terminal_state oa ∧ ps_held p = oa_held_before oa)
  ∧ (oa_held_before oa = true → ∃ f, oa_finalize oa = Some f ∧ ref ∈ fe_refs f ∧ acknowledged f).

Lemma audit_operations new_owner sp activated confirmed oa :
  oa ∈ ta_operations (audit_of sha new_owner sp activated confirmed) ↔
  ∃ w, w ∈ sp_swept sp ∧ oa = operation_audit (concat (sp_finalized sp).*2) w.
Proof.
  simpl. rewrite list_elem_of_fmap. setoid_rewrite elem_of_concat.
  setoid_rewrite (by_operation_elem (sp_swept sp)). split.
  - intros (w & -> & l & Hw & ([op l'] & -> & Hl)%list_elem_of_fmap). simpl in Hw.
    rewrite elem_of_sort_by in Hl. rewrite elem_of_sort_by in Hw. by eauto 6.
  - intros (w & (op & l & Hl & Hw) & ->). exists w. split; [done|].
    exists (sort_by String.le (λ s, old_instance (sw_old s)) l). split; [by rewrite elem_of_sort_by|].
    apply list_elem_of_fmap. exists (op, l). split; [done|]. by rewrite elem_of_sort_by.
Qed.

Lemma sweep_audited instances sp w :
  swept_all instances sp → w ∈ sp_swept sp →
  audited (operation_audit (concat (sp_finalized sp).*2) w).
Proof.
  intros Hsa Hw. pose proof (sa_swept _ _ Hsa) as Hs. rewrite Forall_forall in Hs.
  destruct (Hs w Hw) as (_ & Ht & Hi & Ho & He & s1 & s2 & v & Hv & Hp). unfold audited. simpl.
  split_and!; [done..| |].
  - rewrite He. by exists s1, s2, v, (sw_snapshot w).
  - intros Hh. destruct (finalize_evidence_of_Some _ _ (sa_held _ _ Hsa w Hw Hh)) as (f & Hf & Hin).
    exists f. split; [done|]. pose proof (sa_evidence _ _ Hsa) as Hev. rewrite Forall_forall in Hev.
    exact (Hev _ Hin).
Qed.

Lemma sweep_lists instances new_owner sp activated confirmed le :
  swept_all instances sp → le ∈ ta_lists (audit_of sha new_owner sp activated confirmed) →
  left_clean (le_instance_id le) (le_owner_generation le) (le_instance_epoch le) (le_endpoint_refs le)
  ∧ ∀ ref, ref ∈ le_endpoint_refs le → ∃ w, w ∈ sp_swept sp ∧ ps_ref (sw_listed w) = ref.
Proof.
  intros Hsa. simpl. rewrite elem_of_sort_by. intros ([o ops] & -> & Hr)%list_elem_of_fmap. simpl.
  pose proof (sa_clean _ _ Hsa) as Hc. rewrite Forall_forall in Hc. split.
  - destruct (Hc _ Hr) as (s1 & s2 & raw & ops' & ? & ? & Hrefs & ?). exists s1, s2, raw, ops'.
    split_and!; try done. intros ref. rewrite Hrefs. simpl. rewrite !list_elem_of_fmap.
    by setoid_rewrite elem_of_sort_by.
  - intros ref (p & -> & Hp)%list_elem_of_fmap. rewrite elem_of_sort_by in Hp.
    assert ((o, p) ∈ listed_entries (sp_reports sp)) as Hin.
    { apply elem_of_concat. exists (map (λ p, (o, p)) ops). split.
      - by apply (list_elem_of_fmap_2 (λ p, (o, p))).
      - by apply (list_elem_of_fmap_2 (λ r, map (λ p, (r.1, p)) r.2)) in Hr. }
    rewrite <- (sa_entries _ _ Hsa) in Hin. apply list_elem_of_fmap in Hin as (w & [= -> ->] & Hw).
    by exists w.
Qed.
End proof.

(** ** What a takeover proves *)

#[local] Existing Instance tk_mret.
#[local] Existing Instance tk_mbind.

Lemma tk_bind_Ok {S A B} (m : tk A) (k : A → tk B) (s : S) b s' :
  (m ≫= k) s = Some (Ok b, s') → ∃ a s1, m s = Some (Ok a, s1) ∧ k a s1 = Some (Ok b, s').
Proof.
  unfold mbind, tk_mbind. destruct (m s) as [[[a|e] s1]|]; try done. by exists a, s1.
Qed.

Section owners.
Context (sha repr : json → string) {S : Type} `{Hcl : InferClient S}.
Context (clock : S → Z) (sleep : Z → S → S).

Lemma confirm_all_keys deadline interval fuel instances s l s' :
  confirm_all clock sleep deadline interval fuel instances s = Some (Ok l, s') → l.*1 = instances.
Proof.
  revert s l s'. induction instances as [|i instances IH]; intros s l s'; [by intros [= <- _]|].
  intros (o & s1 & _ & Hr)%tk_bind_Ok. apply tk_bind_Ok in Hr as (rest & s2 & Hrest & [= <- _]).
  simpl. f_equal. by eapply IH.
Qed.

Lemma reconcile_Ok deadline interval new_owner fuel olds instances s activated confirmed s' :
  reconcile clock sleep deadline interval new_owner fuel olds instances s
  = Some (Ok (activated, confirmed), s') →
  confirmed = (λ i, (i, new_owner)) <$> instances.
Proof.
  intros (? & ? & _ & Hr)%tk_bind_Ok. apply tk_bind_Ok in Hr as (a & s1 & _ & Hr).
  apply tk_bind_Ok in Hr as (c & s2 & <-%confirm_all_keys & Hr).
  apply tk_bind_Ok in Hr as ([] & s3 & Hall & [= _ ->]).
  injection Hall as Hall. apply lift_Ok in Hall as [Hall%require_Ok _].
  rewrite forallb_forall in Hall. rewrite <- list_fmap_compose.
  apply list_eq_Forall2, Forall2_fmap_r, Forall2_same_length_lookup_2; [done|].
  intros k [i o] y Hx Hy. rewrite Hx in Hy. injection Hy as <-. simpl. f_equal.
  apply list_elem_of_lookup_2, list_elem_of_In in Hx. specialize (Hall _ Hx).
  by apply bool_decide_eq_true in Hall.
Qed.

End owners.

(** ** The loops end

    [twp Q E m s]: run from [s], the coroutine [m] ends, with a value that
    satisfies [Q] or with an exception in a state that satisfies [E]. *)
Section twp.
Context {S : Type}.

Definition twp {A} (Q : A → S → Prop) (E : S → Prop) (m : tk A) (s : S) : Prop :=
  match m s with
  | Some (Ok a, s') => Q a s'
  | Some (Raise _, s') => E s'
  | None => False
  end.

Lemma twp_mono {A} (Q Q' : A → S → Prop) E m s :
  twp Q E m s → (∀ a s', Q a s' → Q' a s') → twp Q' E m s.
Proof. unfold twp. destruct (m s) as [[[] ?]|]; auto. Qed.
Lemma twp_bind {A B} (Q : B → S → Prop) E (m : tk A) (k : A → tk B) s :
  twp (λ a s', twp Q E (k a) s') E m s → twp Q E (m ≫= k) s.
Proof. unfold twp, mbind, tk_mbind. by destruct (m s) as [[[] ?]|]. Qed.
Lemma twp_seq {A B} (P : A → S → Prop) (Q : B → S → Prop) E (m : tk A) (k : A → tk B) s :
  twp P E m s → (∀ a s', P a s' → twp Q E (k a) s') → twp Q E (m ≫= k) s.
Proof. intros Hm Hk. apply twp_bind. by eapply twp_mono. Qed.
Lemma twp_once {A B} (Q : B → S → Prop) E (m : rpc S A) (k : A → rpc S B) s :
  twp (λ a s', twp Q E (once (k a)) s') E (once m) s → twp Q E (once (m ≫= k)) s.
Proof. unfold twp, once, mbind, rpc_mbind. by destruct (m s) as [[] ?]. Qed.
End twp.

(** Workers that cooperate: they report their owner, retire and activate it,
    but some calls fail in a way that invites a retry, before or after they
    took effect; [faults] bounds how many still will. *)
Section cooperation.
Context {S : Type} `{Hcl : InferClient S} (clock : S → Z) (sleep : Z → S → S).
Context (owner_at : S → string → option string) (faults : S → nat) (new_owner : string).

Definition fault {A} (s : S) (r : result rpc_exn A) (s' : S) : Prop :=
  (∃ e, r = Raise e ∧ retryable_owner_error e = true) ∧ (faults s' < faults s)%nat.
Definition success {A} (s : S) (r : result rpc_exn A) (s' : S) : Prop :=
  (∃ a, r = Ok a) ∧ (faults s' ≤ faults s)%nat.
Definition elsewhere (i : string) (s s' : S) : Prop :=
  ∀ j, j ≠ i → owner_at s' j = owner_at s j.

Class Cooperating : Prop := {
  coop_sleep d s j : owner_at (sleep d s) j = owner_at s j;
  coop_sleep_faults d s : faults (sleep d s) = faults s;
  coop_status i s r s' : owner_status i s = (r, s') →
    (∀ j, owner_at s' j = owner_at s j)
    ∧ (fault s r s' ∨ success s r s' ∧ ∀ v, r = Ok v → active_owner v = Ok (owner_at s i));
  coop_retire i o s r s' : owner_at s i = Some o → retire_owner i o s = (r, s') →
    elsewhere i s s'
    ∧ ((fault s r s' ∨ success s r s') ∧ owner_at s' i = None
       ∨ fault s r s' ∧ owner_at s' i = Some o);
  coop_activate i s r s' : owner_at s i = None → activate_owner i new_owner s = (r, s') →
    elsewhere i s s'
    ∧ ((fault s r s' ∨ success s r s') ∧ owner_at s' i = Some new_owner
       ∨ fault s r s' ∧ owner_at s' i = None) }.
End cooperation.
Arguments coop_sleep_faults {S Hcl sleep owner_at faults new_owner} _ d s.
Arguments coop_status {S Hcl sleep owner_at faults new_owner} _ i s r s' _.
Arguments coop_retire {S Hcl sleep owner_at faults new_owner} _ i o s r s' _ _.
Arguments coop_activate {S Hcl sleep owner_at faults new_owner} _ i s r s' _ _.

Section live.
Context {S : Type} `{Hcl : InferClient S} (clock : S → Z) (sleep : Z → S → S).
Context (owner_at : S → string → option string) (faults : S → nat) (new_owner : string).
Context `{Hcoop : !Cooperating sleep owner_at faults new_owner}.
Context (deadline interval : Z).

(** The only way to fail. *)
Abbreviation late := (λ s, deadline ≤ clock s).
Definition same (s s' : S) : Prop :=
  (∀ j, owner_at s' j = owner_at s j) ∧ (faults s' ≤ faults s)%nat.

Lemma live_remaining s : twp (λ _ s', s' = s) late (once (require_remaining clock deadline)) s.
Proof. unfold twp, once, require_remaining. case_bool_decide; [simpl; lia|done]. Qed.

(** A call that succeeds or invites a retry: afterwards the owners are those
    the call left. *)
Lemma live_or_pause {A} (m : rpc S A) s r s1 :
  m s = (r, s1) → (∃ a, r = Ok a) ∨ (∃ e, r = Raise e ∧ retryable_owner_error e = true) →
  twp (λ o s', same s1 s' ∧ match o with Some a => r = Ok a | None => ∃ e, r = Raise e end)
    late (once (or_pause clock sleep deadline interval m)) s.
Proof.
  intros Hm Hr. unfold twp, once, or_pause. rewrite Hm.
  destruct Hr as [[a ->]|(e & -> & He)]; [by repeat split|]. rewrite He.
  unfold retry_pause, require_remaining, mbind, rpc_mbind. case_bool_decide; simpl; [lia|].
  split; [|by eexists]. split; [intros j; by apply Hcoop|]. by rewrite (coop_sleep_faults Hcoop).
Qed.

Lemma live_read fuel i s :
  (faults s < fuel)%nat →
  twp (λ o s', o = owner_at s i ∧ same s s') late (read_owner clock sleep deadline interval fuel i) s.
Proof.
  revert s. induction fuel as [|fuel IH]; intros s Hf; [lia|]. cbn [read_owner].
  destruct (owner_status i s) as [r s1] eqn:Hst. destruct (coop_status Hcoop i s r s1 Hst) as [Ho Hr].
  eapply (twp_seq (λ o s', (∀ j, owner_at s' j = owner_at s j) ∧ match o with
    | Some x => x = owner_at s i ∧ (faults s' ≤ faults s)%nat | None => (faults s' < faults s)%nat end)).
  { apply twp_once. eapply twp_mono; [apply live_remaining|]. intros _ s' ->.
    set (m := v ← owner_status i; lift (active_owner v)).
    assert (∃ r1, m s = (r1, s1) ∧ (fault faults s r1 s1 ∨ r1 = Ok (owner_at s i) ∧ (faults s1 ≤ faults s)%nat))
      as (r1 & Hm & Hr1).
    { unfold m, mbind, rpc_mbind. rewrite Hst. destruct Hr as [Hfault|[[[v ->] Hle] Hv]].
      - destruct Hfault as [(e & -> & He) Hlt]. exists (Raise e). split; [done|]. left.
        split; [by exists e|done].
      - unfold lift. rewrite (Hv v eq_refl). eexists. split; [done|]. by right. }
    eapply twp_mono; [eapply live_or_pause; [exact Hm|]|].
    - destruct Hr1 as [[? _]|[-> _]]; eauto.
    - intros o s' [[Ho' Hf'] Hcase]. split; [intros j; by rewrite Ho'|].
      destruct Hr1 as [[(e & -> & _) Hlt]|[-> Hle]], o as [o|]; try done.
      + lia.
      + injection Hcase as ->. split; [done|lia].
      + by destruct Hcase. }
  intros [o|] s' [Ho' Hcase]; [by destruct Hcase|].
  eapply twp_mono; [apply IH; lia|]. intros o s2 (-> & Ho2 & Hf2).
  split; [by rewrite Ho'|]. split; [intros j; by rewrite Ho2|lia].
Qed.

(** *** Progress *)

(** How far a worker is from the new owner. *)
Definition stage (s : S) (i : string) : nat :=
  match owner_at s i with
  | None => 1
  | Some o => if decide (o = new_owner) then 0 else 2
  end.
Definition work (s : S) (i : string) : nat := faults s + stage s i.

Lemma work_same s s' i : same s s' → (work s' i ≤ work s i)%nat.
Proof. intros [Ho Hf]. unfold work, stage. rewrite Ho. lia. Qed.

Section with_olds.
Context (olds : list Old).

(** Nobody but the old and the new owner is active. *)
Definition allowed (s : S) : Prop :=
  ∀ i, owner_at s i = None ∨ owner_at s i = Some new_owner ∨ owner_at s i = owner_of olds i.
Definition forward (s s' : S) : Prop :=
  (∀ i, owner_at s i = Some new_owner → owner_at s' i = Some new_owner)
  ∧ allowed s' ∧ (faults s' ≤ faults s)%nat.

Lemma forward_same s s' : allowed s → same s s' → forward s s'.
Proof.
  intros Ha [Ho Hf]. split_and!; [intros i; by rewrite Ho| |done]. intros i. rewrite Ho. apply Ha.
Qed.
Lemma forward_trans s s' s'' : forward s s' → forward s' s'' → forward s s''.
Proof. intros (H1 & _ & ?) (H2 & ? & ?). split_and!; [auto|done|lia]. Qed.

(** A mutation of the owner of [i]: it took effect, or it failed. *)
Lemma live_mutate (m : rpc S (odict string json)) i o s :
  allowed s → owner_at s i ≠ Some new_owner → (o = None ∨ o = Some new_owner) →
  (∀ r s1, m s = (r, s1) → elsewhere owner_at i s s1
     ∧ ((fault faults s r s1 ∨ success faults s r s1) ∧ owner_at s1 i = o
        ∨ fault faults s r s1 ∧ owner_at s1 i = owner_at s i)) →
  (o = None → owner_at s i ≠ None) →
  twp (λ _ s', forward s s' ∧ (work s' i < work s i)%nat) late
    (once (mutate_owner clock sleep deadline interval m)) s.
Proof.
  intros Ha Hne Ho Hm Hback. destruct (m s) as [r s1] eqn:Hms. destruct (Hm r s1 eq_refl) as [Helse Hr].
  unfold mutate_owner. apply twp_once. eapply twp_mono; [apply live_remaining|]. intros _ s' ->.
  apply twp_once. eapply twp_mono; [eapply live_or_pause; [exact Hms|]|].
  { destruct Hr as [[[[He _]|[Hok _]] _]|[[He _] _]]; auto. }
  intros x s' [[Hs' Hf'] _]. change (forward s s' ∧ (work s' i < work s i)%nat).
  assert ((owner_at s' i = o ∧ (faults s' ≤ faults s)%nat)
          ∨ owner_at s' i = owner_at s i ∧ (faults s' < faults s)%nat) as Hcase.
  { rewrite Hs'. unfold fault, success in Hr. destruct Hr as [[[[_ ?]|[_ ?]] ?]|[[_ ?] ?]];
      [left|left|right]; (split; [done|lia]). }
  split.
  - split_and!.
    + intros j Hj. destruct (decide (j = i)) as [->|Hji]; [done|]. by rewrite Hs', Helse.
    + intros j. destruct (decide (j = i)) as [->|Hji].
      * destruct Hcase as [[-> _]|[-> _]]; [tauto|apply Ha].
      * rewrite Hs', Helse by done. apply Ha.
    + lia.
  - unfold work, stage. destruct Hcase as [[-> ?]|[-> ?]]; [|lia].
    destruct Ho as [->| ->]; destruct (owner_at s i) as [o'|]; repeat case_decide; try lia; naive_solver.
Qed.

Lemma live_retire i o s :
  allowed s → owner_at s i = Some o → o ≠ new_owner →
  twp (λ _ s', forward s s' ∧ (work s' i < work s i)%nat) late
    (once (mutate_owner clock sleep deadline interval (retire_owner i o))) s.
Proof.
  intros Ha Hi Hne. apply (live_mutate _ _ None); [done|congruence|by left| |congruence].
  intros r s1 Hr. rewrite Hi. by apply (coop_retire Hcoop).
Qed.
Lemma live_activate i s :
  allowed s → owner_at s i = None →
  twp (λ _ s', forward s s' ∧ (work s' i < work s i)%nat) late
    (once (mutate_owner clock sleep deadline interval (activate_owner i new_owner))) s.
Proof.
  intros Ha Hi. apply (live_mutate _ _ (Some new_owner)); [done|congruence|by right| |congruence].
  intros r s1 Hr. rewrite Hi. by apply (coop_activate Hcoop).
Qed.

Lemma live_retire_loop fuel i owner s :
  owner_of olds i = Some owner → allowed s → (work s i + 1 < fuel)%nat →
  twp (λ _ s', forward s s') late
    (retire_loop clock sleep deadline interval new_owner fuel i owner) s.
Proof.
  intros Hown. revert s. induction fuel as [|fuel IH]; intros s Ha Hf; [lia|]. cbn [retire_loop].
  eapply twp_seq; [apply live_read; unfold work in Hf; lia|]. intros o s1 [-> Hs].
  pose proof (forward_same _ _ Ha Hs) as Hfw. pose proof (work_same _ _ i Hs).
  destruct (owner_at s i) as [o|] eqn:Hi; [|done]. case_bool_decide as Hnew; [done|].
  assert (o = owner) as -> by (destruct (Ha i) as [Hx|[Hx|Hx]]; congruence).
  rewrite bool_decide_false by tauto.
  eapply twp_seq; [apply live_retire; [apply Hfw|by rewrite (proj1 Hs)|done]|].
  intros _ s2 [Hfw2 ?]. eapply twp_mono; [apply IH; [apply Hfw2|lia]|]. intros ? s3 Hfw3.
  by eapply forward_trans, forward_trans.
Qed.

Lemma live_activate_loop fuel i b s :
  allowed s → (work s i + 1 < fuel)%nat →
  twp (λ _ s', forward s s' ∧ owner_at s' i = Some new_owner) late
    (activate_loop clock sleep deadline interval new_owner fuel i (owner_of olds i) b) s.
Proof.
  revert s b. induction fuel as [|fuel IH]; intros s b Ha Hf; [lia|]. cbn [activate_loop].
  eapply twp_seq; [apply live_read; unfold work in Hf; lia|]. intros o s1 [-> Hs].
  pose proof (forward_same _ _ Ha Hs) as Hfw. pose proof (work_same _ _ i Hs).
  assert (∀ b' s2, forward s1 s2 ∧ (work s2 i < work s1 i)%nat →
    twp (λ _ s', forward s s' ∧ owner_at s' i = Some new_owner) late
      (activate_loop clock sleep deadline interval new_owner fuel i (owner_of olds i) b') s2) as Hnext.
  { intros b' s2 [Hfw2 ?]. eapply twp_mono; [apply IH; [apply Hfw2|lia]|]. intros ? s3 [Hfw3 ?].
    split; [|done]. by eapply forward_trans, forward_trans. }
  destruct (owner_at s i) as [o|] eqn:Hi.
  - case_bool_decide as Hnew.
    { split; [done|]. by rewrite (proj1 Hs), Hi, Hnew. }
    rewrite bool_decide_true by (destruct (Ha i) as [Hx|[Hx|Hx]]; congruence).
    eapply twp_seq; [apply live_retire; [apply Hfw|by rewrite (proj1 Hs)|done]|]. intros ? s2 Hs2. by apply Hnext.
  - eapply twp_seq; [apply live_activate; [apply Hfw|by rewrite (proj1 Hs)]|]. intros ? s2 Hs2. by apply Hnext.
Qed.

Lemma work_bound s i : (work s i ≤ faults s + 2)%nat.
Proof. unfold work, stage. destruct (owner_at s i); [case_decide|]; lia. Qed.

Lemma live_retire_all fuel l s :
  (∀ o, o ∈ l → owner_of olds (old_instance o) = Some (old_owner o)) → allowed s →
  (faults s + 3 < fuel)%nat →
  twp (λ _ s', forward s s') late (retire_all clock sleep deadline interval new_owner fuel l) s.
Proof.
  intros Hl Ha Hf. revert s Ha Hf. induction l as [|o l IH]; intros s Ha Hf.
  { by apply forward_same. }
  cbn [retire_all]. pose proof (work_bound s (old_instance o)).
  eapply twp_seq; [apply live_retire_loop; [apply Hl; by left|done|lia]|]. intros ? s1 Hfw.
  pose proof Hfw as (_ & Ha1 & ?).
  eapply twp_mono; [apply IH; [|done|lia]|]; [intros o' Ho'; apply Hl; by right|].
  intros ? s2 Hfw2. exact (forward_trans _ _ _ Hfw Hfw2).
Qed.

Lemma live_activate_all fuel l s :
  allowed s → (faults s + 3 < fuel)%nat →
  twp (λ _ s', forward s s' ∧ ∀ i, i ∈ l → owner_at s' i = Some new_owner) late
    (activate_all clock sleep deadline interval new_owner fuel olds l) s.
Proof.
  revert s. induction l as [|i l IH]; intros s Ha Hf.
  { split; [by apply forward_same|]. intros i Hi. by apply not_elem_of_nil in Hi. }
  cbn [activate_all]. pose proof (work_bound s i).
  eapply twp_seq; [apply live_activate_loop; [done|lia]|]. intros b s1 [Hfw Hi].
  pose proof Hfw as (_ & Ha1 & ?). eapply twp_seq; [apply IH; [done|lia]|]. intros rest s2 [Hfw2 Hl].
  split; [by eapply forward_trans|]. intros j [->|Hj]%elem_of_cons; [|by apply Hl].
  by apply (proj1 Hfw2).
Qed.

Lemma live_confirm_all fuel l s :
  (∀ i, i ∈ l → owner_at s i = Some new_owner) → (faults s < fuel)%nat →
  twp (λ c s', same s s' ∧ c = (λ i, (i, new_owner)) <$> l) late
    (confirm_all clock sleep deadline interval fuel l) s.
Proof.
  revert s. induction l as [|i l IH]; intros s Hl Hf; [done|]. cbn [confirm_all].
  eapply twp_seq; [by apply live_read|]. intros o s1 [-> [Ho Hfs]].
  eapply twp_seq; [apply IH; [|lia]|].
  { intros j Hj. rewrite Ho. apply Hl. by right. }
  intros c s2 [[Ho2 ?] ->]. split; [split; [intros j; by rewrite Ho2|lia]|].
  by rewrite (Hl i) by (by left).
Qed.

Lemma live_reconcile fuel instances s :
  (∀ o, o ∈ olds → owner_of olds (old_instance o) = Some (old_owner o)) → allowed s →
  (faults s + 4 ≤ fuel)%nat →
  twp (λ r s', r.2 = (λ i, (i, new_owner)) <$> instances
      ∧ ∀ i, i ∈ instances → owner_at s' i = Some new_owner) late
    (reconcile clock sleep deadline interval new_owner fuel olds instances) s.
Proof.
  intros Hold Ha Hf. unfold reconcile.
  eapply twp_seq; [apply live_retire_all; [|done|lia]|].
  { intros o Ho. rewrite elem_of_sort_by in Ho. by apply Hold. }
  intros ? s1 (_ & Ha1 & ?). eapply twp_seq; [apply live_activate_all; [done|lia]|].
  intros act s2 [(_ & _ & ?) Hnew]. eapply twp_seq; [apply live_confirm_all; [done|lia]|].
  intros c s3 [[Ho _] ->]. apply twp_bind. unfold twp, once, lift, require.
  rewrite (proj2 (forallb_forall _ _)).
  { split; [done|]. intros i Hi. rewrite Ho. by apply Hnew. }
  intros x (i & -> & _)%list_elem_of_In%list_elem_of_fmap. by apply bool_decide_eq_true.
Qed.
End with_olds.

Lemma owner_of_elem olds o :
  NoDup (old_instance <$> olds) → o ∈ olds → owner_of olds (old_instance o) = Some (old_owner o).
Proof.
  unfold owner_of. induction olds as [|o' olds IH]; intros Hnd Hin; [by apply not_elem_of_nil in Hin|].
  rewrite fmap_cons, NoDup_cons in Hnd. destruct Hnd as [Hni Hnd]. simpl.
  apply elem_of_cons in Hin as [->|Hin]; [by rewrite bool_decide_true|].
  rewrite bool_decide_false; [by apply IH|]. intros Heq. apply Hni. rewrite Heq.
  by apply list_elem_of_fmap_2.
Qed.

(** C15: The takeover completes when the workers cooperate.  Each worker has no
    owner, its listed old owner or the new one; it reports, retires and
    activates owners as asked, but any call may fail retryably, before or
    after it took effect, finitely often.  Then, with four turns of each loop
    more than there are faults, the reconciliation ends, and it ends with
    the new owner active and confirmed on every worker unless the deadline
    has passed: nothing else makes it fail. *)
Theorem reconcile_is_live olds fuel instances s :
  NoDup (old_instance <$> olds) → allowed olds s → (faults s + 4 ≤ fuel)%nat →
  ∃ r s', reconcile clock sleep deadline interval new_owner fuel olds instances s = Some (r, s')
    ∧ (deadline ≤ clock s'
       ∨ ∃ activated, r = Ok (activated, (λ i, (i, new_owner)) <$> instances)
           ∧ ∀ i, i ∈ instances → owner_at s' i = Some new_owner).
Proof.
  intros Hnd Ha Hf.
  pose proof (live_reconcile olds fuel instances s (λ o Ho, owner_of_elem olds o Hnd Ho) Ha Hf) as Hwp.
  unfold twp in Hwp. destruct (reconcile _ _ _ _ _ _ _ _ s) as [[[[act c]|e] s']|]; [| |done];
    eexists _, s'; (split; [done|]); [right|by left].
  destruct Hwp as [Hc ?]. simpl in Hc. subst c. eauto.
Qed.
End live.

(** Time passes during every call and every pause: then the deadline alone
    ends the loops, whatever the workers answer. *)
Section timed.
Context {S : Type} `{Hcl : InferClient S} (clock : S → Z) (sleep : Z → S → S).
Hypothesis call_takes_time : ∀ mth i path body ref s,
  clock s < clock (client_request mth i path body ref s).2.
Hypothesis sleep_waits : ∀ d s, clock s + d ≤ clock (sleep d s).
Context (deadline interval : Z) (new_owner : string).
Hypothesis interval_pos : 0 < interval.

Abbreviation any := (λ _ : S, True).
Definition time_left (s : S) : nat := Z.to_nat (deadline - clock s).

Lemma ends_remaining s :
  twp (λ _ s', s' = s ∧ clock s < deadline) any (once (require_remaining clock deadline)) s.
Proof. unfold twp, once, require_remaining. case_bool_decide; simpl; [done|]. split; [done|lia]. Qed.

Lemma ends_or_pause {A} (m : rpc S A) s :
  clock s < clock (m s).2 →
  twp (λ _ s', clock s < clock s') any (once (or_pause clock sleep deadline interval m)) s.
Proof.
  intros Hm. unfold twp, once, or_pause. destruct (m s) as [[a|e] s1]; simpl in Hm; [done|].
  destruct (retryable_owner_error e); [|done].
  unfold retry_pause, require_remaining, mbind, rpc_mbind. case_bool_decide; simpl; [done|].
  pose proof (sleep_waits (Z.min interval (deadline - clock s1)) s1). lia.
Qed.

Lemma ends_mutate m s :
  clock s < clock (m s).2 →
  twp (λ _ s', clock s < clock s' ∧ (time_left s' < time_left s)%nat) any
    (once (mutate_owner clock sleep deadline interval m)) s.
Proof.
  intros Hm. unfold mutate_owner. apply twp_once. eapply twp_mono; [apply ends_remaining|].
  intros ? s' [-> ?]. apply twp_once. eapply twp_mono; [by apply ends_or_pause|].
  intros ? s1 Hs. change (clock s < clock s1 ∧ (time_left s1 < time_left s)%nat). simpl in Hs. unfold time_left. lia.
Qed.

Lemma ends_read fuel i s :
  (time_left s < fuel)%nat →
  twp (λ _ s', clock s < clock s' ∧ (time_left s' < time_left s)%nat) any
    (read_owner clock sleep deadline interval fuel i) s.
Proof.
  revert s. induction fuel as [|fuel IH]; intros s Hf; [lia|]. cbn [read_owner].
  eapply (twp_seq (λ _ s', clock s < clock s' ∧ (time_left s' < time_left s)%nat)).
  { apply twp_once. eapply twp_mono; [apply ends_remaining|]. intros ? s' [-> ?].
    eapply twp_mono; [apply ends_or_pause|].
    - unfold mbind, rpc_mbind, owner_status. pose proof (call_takes_time "GET" i "/v1/owners/status" None None s).
      destruct (client_request _ _ _ _ _ s) as [[] s1]; [|done]. unfold lift. by destruct (active_owner _).
    - intros ? s1 Hs. simpl in Hs. unfold time_left. lia. }
  intros [o|] s1 [? ?]; [done|]. eapply twp_mono; [apply IH; lia|]. intros ? s2 [? ?]. lia.
Qed.

Abbreviation later s := (λ _ s', clock s ≤ clock s').

Lemma ends_retire_loop fuel i owner s :
  (time_left s + 1 < fuel)%nat →
  twp (later s) any (retire_loop clock sleep deadline interval new_owner fuel i owner) s.
Proof.
  revert s. induction fuel as [|fuel IH]; intros s Hf; [lia|]. cbn [retire_loop].
  eapply twp_seq; [apply ends_read; lia|]. intros o s1 [? ?].
  assert (clock s ≤ clock s1) by lia. destruct o as [o|]; [|done].
  case_bool_decide; [done|]. case_bool_decide; [done|].
  eapply twp_seq; [apply ends_mutate, call_takes_time|]. intros ? s2 [? ?].
  eapply twp_mono; [apply IH; lia|]. intros ? s3 Hs. simpl in *. lia.
Qed.

Lemma ends_activate_loop fuel i expected b s :
  (time_left s + 1 < fuel)%nat →
  twp (later s) any (activate_loop clock sleep deadline interval new_owner fuel i expected b) s.
Proof.
  revert s b. induction fuel as [|fuel IH]; intros s b Hf; [lia|]. cbn [activate_loop].
  eapply twp_seq; [apply ends_read; lia|]. intros o s1 [? ?].
  assert (clock s ≤ clock s1) by lia.
  assert (∀ b' s2, clock s1 < clock s2 ∧ (time_left s2 < time_left s1)%nat →
    twp (later s) any (activate_loop clock sleep deadline interval new_owner fuel i expected b') s2) as Hnext.
  { intros b' s2 [? ?]. eapply twp_mono; [apply IH; lia|]. intros ? s3 Hs. simpl in *. lia. }
  destruct o as [o|].
  - case_bool_decide; [done|]. case_bool_decide; [|done].
    eapply twp_seq; [apply ends_mutate, call_takes_time|]. intros ? s2 Hs. by apply Hnext.
  - eapply twp_seq; [apply ends_mutate, call_takes_time|]. intros ? s2 Hs. by apply Hnext.
Qed.

Lemma left_later s s' : clock s ≤ clock s' → (time_left s' ≤ time_left s)%nat.
Proof. unfold time_left. lia. Qed.

(** A loop over a list whose every turn ends. *)
Lemma ends_retire_all fuel l s :
  (time_left s + 1 < fuel)%nat →
  twp (later s) any (retire_all clock sleep deadline interval new_owner fuel l) s.
Proof.
  revert s. induction l as [|o l IH]; intros s Hf; [unfold twp; simpl; lia|]. cbn [retire_all].
  eapply twp_seq; [by apply ends_retire_loop|]. intros ? s1 Hs. simpl in Hs.
  pose proof (left_later _ _ Hs). eapply twp_mono; [apply IH; lia|]. intros ? s2 Hs2. simpl in *. lia.
Qed.
Lemma ends_activate_all fuel olds l s :
  (time_left s + 1 < fuel)%nat →
  twp (later s) any (activate_all clock sleep deadline interval new_owner fuel olds l) s.
Proof.
  revert s. induction l as [|i l IH]; intros s Hf; [unfold twp; simpl; lia|]. cbn [activate_all].
  eapply twp_seq; [by apply ends_activate_loop|]. intros b s1 Hs. simpl in Hs.
  pose proof (left_later _ _ Hs). eapply twp_seq; [apply IH; lia|]. intros ? s2 Hs2.
  unfold twp. simpl in *. lia.
Qed.
Lemma ends_confirm_all fuel l s :
  (time_left s < fuel)%nat →
  twp (later s) any (confirm_all clock sleep deadline interval fuel l) s.
Proof.
  revert s. induction l as [|i l IH]; intros s Hf; [unfold twp; simpl; lia|]. cbn [confirm_all].
  eapply twp_seq; [by apply ends_read|]. intros o s1 [Hs ?].
  eapply twp_seq; [apply IH; lia|]. intros ? s2 Hs2. unfold twp. simpl in *. lia.
Qed.

Lemma ends_reconcile fuel olds instances s :
  (time_left s + 2 ≤ fuel)%nat →
  twp (later s) any (reconcile clock sleep deadline interval new_owner fuel olds instances) s.
Proof.
  intros Hf. unfold reconcile. eapply twp_seq; [apply ends_retire_all; lia|]. intros ? s1 Hs1.
  simpl in Hs1. pose proof (left_later _ _ Hs1).
  eapply twp_seq; [apply ends_activate_all; lia|]. intros act s2 Hs2.
  simpl in Hs2. pose proof (left_later _ _ Hs2).
  eapply twp_seq; [apply ends_confirm_all; lia|]. intros c s3 Hs3. simpl in Hs3.
  apply twp_bind. unfold twp, once, lift. destruct (require _); [|done]. simpl. lia.
Qed.
End timed.

(** C16: A takeover always ends.  When every call takes time and a pause waits
    at least as long as it is asked to, the takeover returns or raises,
    whatever the workers answer: each loop runs at most once for every
    nanosecond up to the deadline, which is by default two minutes after the
    sweep. *)
Theorem takeover_terminates {S} `{Hcl : InferClient S} (sha repr : json → string)
    (clock : S → Z) (sleep : Z → S → S) fuel instances new_owner max_entries interval s :
  (∀ mth i path body ref s, clock s < clock (client_request mth i path body ref s).2) →
  (∀ d s, clock s + d ≤ clock (sleep d s)) →
  (Z.to_nat (120 * 10 ^ 9) + 2 ≤ fuel)%nat →
  activate_replacement_owner sha repr clock sleep fuel instances new_owner max_entries None
    interval s ≠ None.
Proof.
  intros Hcall Hsleep Hf Hnone. unfold activate_replacement_owner, mbind, tk_mbind, once in Hnone.
  destruct (sweep sha repr instances new_owner max_entries interval s) as [[sp|e] s1] eqn:Hsw; [|done].
  assert (0 < interval) as Hint.
  { unfold sweep in Hsw. apply rpc_bind_Ok in Hsw as (? & ? & _ & Hr).
    apply rpc_bind_Ok in Hr as (? & ? & _ & Hr). apply rpc_bind_Ok in Hr as ([] & ? & [Hi _]%lift_Ok & _).
    unfold need in Hi. case_bool_decide; done. }
  cbn [default] in Hnone. pose proof (ends_reconcile clock sleep Hcall Hsleep
    (clock s1 + 120 * 10 ^ 9) interval new_owner Hint fuel (sp_olds sp) (sp_instances sp) s1) as Hwp.
  unfold twp in Hwp.
  destruct (reconcile _ _ _ _ _ _ _ _ s1) as [[[[a c]|e] s2]|]; try done. apply Hwp.
  unfold time_left. replace (clock s1 + 120 * 10 ^ 9 - clock s1) with (120 * 10 ^ 9) by lia. exact Hf.
Qed.

(** ** Concrete instances *)

(** A worker with one operation of the old owner, which holds something until
    it is finalized. *)
Record DemoWorker := mkDemoWorker {
  dw_clock : Z;
  dw_owners : gmap string string;
  dw_held : bool;
  dw_faults : nat }.

Definition demo_orphan : EndpointOperationRef :=
  mkEndpointOperationRef "gen1" "old" 1 "d1" "e1" "op1" "digest".
Definition demo_kinds (held : bool) : list string := if held then ["TARGET_PENDING"] else [].
Definition demo_operation (held : bool) : odict string json :=
  [("endpoint_ref", JObj (ref_json demo_orphan)); ("state", JStr "FENCED");
   ("resources_held", JBool held); ("held_resource_kinds", jstrs (demo_kinds held))].
Definition demo_owner_at (s : DemoWorker) (i : string) : option string :=
  match dw_owners s !! i with
  | Some o => if truthy o then Some o else None
  | None => None
  end.
Definition demo_snapshot (payload : odict string json) : odict string json :=
  [("cleanup_id", jget "cleanup_id" payload); ("operation_id", jget "operation_id" payload);
   ("lease_id", jget "lease_id" payload); ("endpoint_epoch", JStr "e1");
   ("payload_digest", jget "payload_digest" payload); ("resources_held_after", JBool false);
   ("released_resource_kinds", jget "resource_kinds" payload);
   ("released_counts", JList [JList [JStr "TARGET_PENDING"; JInt 1]])].

Definition demo_reply (mth i path : string) (body : option json) (s : DemoWorker) :
    odict string json * DemoWorker :=
  let put owners held := mkDemoWorker (dw_clock s) owners held (dw_faults s) in
  if bool_decide (mth = "GET") then
    (if bool_decide (path = "/v1/owners/status")
     then [("active_owner", match demo_owner_at s i with Some o => JStr o | None => JNull end)]
     else if bool_decide (path = "/v1/identity")
     then [("instance_id", JStr "d1"); ("instance_epoch", JStr "e1")]
     else [("complete", JBool true); ("instance_epoch", JStr "e1");
           ("operations", JList [JObj (demo_operation (dw_held s))])], s)
  else match body with
  | None => ([], put (delete i (dw_owners s)) (dw_held s))
  | Some (JObj d) =>
      if bool_decide (path = "/v1/owners/activate")
      then ([], put (match jget "owner_generation" d with
                     | JStr o => <[i := o]> (dw_owners s) | _ => dw_owners s end) (dw_held s))
      else if bool_decide (path = "/v1/cleanup/finalize")
      then (demo_snapshot d, put (dw_owners s) false)
      else (demo_operation (dw_held s), s)
  | Some _ => ([], s)
  end.

(** Every call takes a nanosecond; the first [dw_faults] answers are lost. *)
Definition demo_takeover_client : InferClient DemoWorker := λ mth i path body ref s,
  let '(v, s1) := demo_reply mth i path body s in
  match dw_faults s with
  | O => (Ok v, mkDemoWorker (dw_clock s + 1) (dw_owners s1) (dw_held s1) 0)
  | Datatypes.S n => (Raise (AmbiguousRPCError ref),
                      mkDemoWorker (dw_clock s + 1) (dw_owners s1) (dw_held s1) n)
  end.
Definition demo_sleep (d : Z) (s : DemoWorker) : DemoWorker :=
  mkDemoWorker (dw_clock s + Z.max 0 d) (dw_owners s) (dw_held s) (dw_faults s).
Definition demo_start (faults : nat) : DemoWorker := mkDemoWorker 0 {[ "d1" := "old" ]} true faults.

Abbreviation demo_takeover :=
  (activate_replacement_owner (H := demo_takeover_client) demo_sha demo_repr dw_clock demo_sleep
     9 ["d1"] "new" 10 None 1000).

Lemma ended_ok {A S} (x : option (result rpc_exn A * S)) :
  match x with Some (Ok _, _) => true | _ => false end = true → ∃ a s, x = Some (Ok a, s).
Proof. destruct x as [[[a|e] s]|]; try done. by exists a, s. Qed.

Lemma demo_takeover_ran : ∃ audit s, demo_takeover (demo_start 0) = Some (Ok audit, s).
Proof. apply ended_ok. vm_compute. reflexivity. Qed.


Lemma demo_call mth i path body ref s r s' :
  demo_takeover_client mth i path body ref s = (r, s') →
  dw_owners s' = dw_owners (demo_reply mth i path body s).2
  ∧ (fault dw_faults s r s'
     ∨ success dw_faults s r s' ∧ ∀ v, r = Ok v → v = (demo_reply mth i path body s).1).
Proof.
  unfold demo_takeover_client, fault, success. destruct (demo_reply mth i path body s) as [v s1].
  destruct (dw_faults s) as [|n] eqn:Hf; intros [= <- <-]; simpl; (split; [done|]).
  - right. split; [split; [by eexists|lia]|]. by intros v' [= <-].
  - left. split; [|lia]. by eexists.
Qed.

#[export] Instance demo_cooperates :
  Cooperating (Hcl := demo_takeover_client) demo_sleep demo_owner_at dw_faults "new".
Proof.
  split; [done|done|..]; unfold demo_owner_at, elsewhere.
  - intros i s r s' [Ho Hr]%demo_call. simpl in Ho. rewrite Ho. split; [done|].
    destruct Hr as [?|[Hs Hv]]; [by left|right]. split; [done|]. intros v ->%Hv. simpl.
    unfold active_owner, demo_owner_at. simpl. destruct (dw_owners s !! i) as [o|]; [|done].
    destruct (truthy o) eqn:Ht; [by rewrite Ht|done].
  - intros i o s r s' _ [Ho Hr]%demo_call. simpl in Ho. rewrite Ho. split.
    + intros j Hj. by rewrite lookup_delete_ne.
    + left. rewrite lookup_delete_eq. split; [|done]. destruct Hr as [?|[? _]]; [by left|by right].
  - intros i s r s' _ [Ho Hr]%demo_call. simpl in Ho. rewrite Ho. split.
    + intros j Hj. by rewrite lookup_insert_ne.
    + left. rewrite lookup_insert_eq. split; [|done]. destruct Hr as [?|[? _]]; [by left|by right].
Qed.

Definition demo_olds : list Old := [mkOld "d1" "old" "e1"].

Lemma reconcile_is_live_witness :
  ∃ r s', reconcile (H := demo_takeover_client) dw_clock demo_sleep 5000 1000 "new" 6 demo_olds
            ["d1"] (demo_start 2) = Some (r, s')
    ∧ (5000 ≤ dw_clock s' ∨ ∃ activated, r = Ok (activated, [("d1", "new")])
         ∧ ∀ i, i ∈ ["d1"] → demo_owner_at s' i = Some "new").
Proof.
  apply (reconcile_is_live (Hcl := demo_takeover_client) dw_clock demo_sleep demo_owner_at dw_faults
    "new" 5000 1000 demo_olds 6 ["d1"] (demo_start 2)).
  - apply NoDup_singleton.
  - intros i. unfold demo_owner_at, owner_of, demo_start, demo_olds. simpl.
    destruct (decide (i = "d1")) as [->|Hne]; [right; right; reflexivity|].
    left. rewrite lookup_singleton_ne; [done|]. congruence.
  - simpl. lia.
Defined.

Lemma takeover_terminates_witness :
  activate_replacement_owner (H := demo_takeover_client) demo_sha demo_repr dw_clock demo_sleep
    (Z.to_nat (120 * 10 ^ 9) + 2) ["d1"] "new" 10 None 1000 (demo_start 3) ≠ None.
Proof.
  apply (takeover_terminates (Hcl := demo_takeover_client) demo_sha demo_repr dw_clock demo_sleep
    (Z.to_nat (120 * 10 ^ 9) + 2)).
  - intros mth i path body ref s. unfold client_request, demo_takeover_client.
    destruct (demo_reply mth i path body s) as [v s1]. destruct (dw_faults s); simpl; lia.
  - intros d s. simpl. lia.
  - apply Nat.le_refl.
Defined.
