(* ===== verification/Queue.v ===== *)
(** * The message queue (scheduler/queue.py)

    Subjects that bind a reply to the gateway that owns it, and one inbox per
    logical subject.  The broker is not modelled: its subscriptions call the
    handlers of this file in the order they deliver, and [decode] is what
    [json.loads] makes of the bytes of a message. *)

From S2P Require Import Prelude PyDict Json.
From stdpp Require Import prelude gmap strings.
From Stdlib Require Import Ascii.

Local Open Scope Z_scope.

(** ** Subjects *)

(** [char.isspace()] for the first 256 code points *)
Definition is_space (c : ascii) : bool :=
  let n := Ascii.nat_of_ascii c in
  bool_decide (9 ≤ n ≤ 13)%nat || bool_decide (28 ≤ n ≤ 32)%nat || bool_decide (n = 133%nat)
  || bool_decide (n = 160%nat).
Definition subject_char (c : ascii) : bool :=
  negb (is_space c) && negb (bool_decide (c ∈ ["."%char; "*"%char; ">"%char])).
Definition valid_token (s : string) : bool :=
  truthy s && forallb subject_char (String.list_ascii_of_string s).
(** [_validate_subject_token] *)
Definition validate_subject_token (s : string) : result exn unit :=
  if valid_token s then Ok tt else Raise AssertionError.

Record NATSQueue := mkNATSQueue {
  nq_owner_id : string;
  nq_use_mock : bool;
  (** [None] until [connect] and after [close], otherwise [is_connected] *)
  nq_connection : option bool;
  nq_inbox : odict string (list json) }.

Definition set_inbox (v : odict string (list json)) (q : NATSQueue) : NATSQueue :=
  mkNATSQueue (nq_owner_id q) (nq_use_mock q) (nq_connection q) v.
Definition set_connection (v : option bool) (q : NATSQueue) : NATSQueue :=
  mkNATSQueue (nq_owner_id q) (nq_use_mock q) v (nq_inbox q).

Definition falsy (s : option string) : bool := negb (truthy (default "" s)).

Definition new_NATSQueue (scheduler_id generation : option string) (required use_mock : bool) :
    result exn NATSQueue :=
  if negb use_mock && required && falsy scheduler_id then Raise ValueError
  else if negb use_mock && required && falsy generation then Raise ValueError
  else
    let pod_uid := default "serve-local" scheduler_id in
    let gen := if falsy generation then "test-generation" else default "" generation in
    _ ← validate_subject_token pod_uid;
    _ ← validate_subject_token gen;
    let owner := pod_uid +:+ "--" +:+ gen in
    _ ← validate_subject_token owner;
    mret (mkNATSQueue owner use_mock None []).

Definition is_connected (q : NATSQueue) : bool :=
  nq_use_mock q || bool_decide (nq_connection q = Some true).
(** [closed] is the connection's own [is_closed]. *)
Definition is_permanently_closed (closed : bool) (q : NATSQueue) : bool :=
  if nq_use_mock q then false
  else match nq_connection q with None => true | Some _ => closed end.

Definition dispatch_subject (instance_id : string) : result exn string :=
  _ ← validate_subject_token instance_id; mret ("dispatch_prefill." +:+ instance_id).
Definition dispatch_suffix_subject (instance_id : string) : result exn string :=
  _ ← validate_subject_token instance_id; mret ("dispatch_suffix." +:+ instance_id).

Definition REPLY_EVENTS : list string :=
  ["prefill_done"; "decode_done"; "recompute_done"; "first_token"; "suffix_prefill_done";
   "decode_progress"].
Definition reply_subject (event : string) (q : NATSQueue) : result exn string :=
  if bool_decide (event ∈ REPLY_EVENTS) then Ok (event +:+ "." +:+ nq_owner_id q)
  else Raise AssertionError.

(** The subscriptions of [connect]: a subject and the inbox it fills. *)
Definition subscriptions (q : NATSQueue) : list (string * string) :=
  ((λ e, (e +:+ "." +:+ nq_owner_id q, e)) <$> REPLY_EVENTS) ++ [("kv_usage.*", "kv_usage")].

(** [publish]: [None] when nothing is sent (a mock), otherwise what is sent. *)
Definition publish (subject : string) (data : json) (q : NATSQueue) :
    result exn (option (string * json)) :=
  if nq_use_mock q then Ok None
  else if negb (is_connected q) then Raise ConnectionError
  else Ok (Some (subject, data)).

(** [close] *)
Definition close (q : NATSQueue) : NATSQueue := set_connection None q.

(** ** Inboxes *)

Definition pending (subject : string) (q : NATSQueue) : list json :=
  default [] (dget subject (nq_inbox q)).

(** The handler of [subject]; a malformed message leaves no trace. *)
Definition handler {B} (decode : B → option json) (subject : string) (msg : B) (q : NATSQueue) :
    NATSQueue :=
  match decode msg with
  | None => q
  | Some data => set_inbox (dset subject (pending subject q ++ [data]) (nq_inbox q)) q
  end.

(** [while not q.empty(): msgs.append(q.get_nowait())] *)
Fixpoint drain (msgs l : list json) : list json * list json :=
  match l with [] => (msgs, []) | m :: l' => drain (msgs ++ [m]) l' end.

Definition poll (subject : string) (q : NATSQueue) : list json * NATSQueue :=
  match dget subject (nq_inbox q) with
  | None => ([], q)
  | Some l => let '(msgs, rest) := drain [] l in
              (msgs, set_inbox (dset subject rest (nq_inbox q)) q)
  end.

Lemma drain_all msgs l : drain msgs l = (msgs ++ l, []).
Proof.
  revert msgs. induction l as [|m l IH]; intros msgs; simpl; [by rewrite app_nil_r|].
  by rewrite IH, <- (assoc_L (++)).
Qed.

(** ** The inbox as a list *)

Inductive queue_op (B : Type) : Type :=
| Deliver (subject : string) (msg : B)
| Poll (subject : string).
Arguments Deliver {B} _ _.
Arguments Poll {B} _.

Section refinement.
Context {B : Type} (decode : B → option json).

(** What the polls of [s] returned, in order, and the queue left. *)
Fixpoint queue_run (s : string) (ops : list (queue_op B)) (q : NATSQueue) :
    list json * NATSQueue :=
  match ops with
  | [] => ([], q)
  | Deliver s' msg :: ops' => queue_run s ops' (handler decode s' msg q)
  | Poll s' :: ops' =>
      let '(msgs, q1) := poll s' q in
      let '(out, q2) := queue_run s ops' q1 in
      ((if decide (s' = s) then msgs else []) ++ out, q2)
  end.

(** The well-formed messages delivered to [s], in order. *)
Fixpoint delivered (s : string) (ops : list (queue_op B)) : list json :=
  match ops with
  | [] => []
  | Deliver s' msg :: ops' =>
      (if decide (s' = s) then option_list (decode msg) else []) ++ delivered s ops'
  | Poll _ :: ops' => delivered s ops'
  end.

Lemma pending_handler s s' msg q :
  pending s (handler decode s' msg q)
  = pending s q ++ (if decide (s' = s) then option_list (decode msg) else []).
Proof.
  unfold handler. destruct (decode msg) as [data|]; simpl.
  - unfold pending at 1. simpl. rewrite dget_dset. destruct (decide (s = s')) as [->|Hne].
    + by rewrite decide_True.
    + rewrite decide_False by congruence. by rewrite app_nil_r.
  - case_decide; by rewrite app_nil_r.
Qed.

Lemma poll_spec s s' q :
  (poll s' q).1 = pending s' q
  ∧ pending s (poll s' q).2 = if decide (s' = s) then [] else pending s q.
Proof.
  unfold poll, pending. destruct (dget s' (nq_inbox q)) as [l|] eqn:Hl.
  - rewrite drain_all. simpl. split; [done|]. rewrite dget_dset.
    destruct (decide (s = s')) as [->|Hne]; [by rewrite decide_True|].
    by rewrite decide_False by congruence.
  - simpl. split; [done|]. case_decide; [subst; by rewrite Hl|done].
Qed.

Lemma queue_run_spec s ops q out q' :
  queue_run s ops q = (out, q') → out ++ pending s q' = pending s q ++ delivered s ops.
Proof.
  revert q out. induction ops as [|[s' msg|s'] ops IH]; intros q out Hr; simpl in *.
  - injection Hr as <- <-. by rewrite app_nil_r.
  - apply IH in Hr. rewrite Hr, pending_handler. by rewrite <- (assoc_L (++)).
  - pose proof (poll_spec s s' q) as [Hp1 Hp2].
    destruct (poll s' q) as [msgs q1]. simpl in Hp1, Hp2. subst msgs.
    destruct (queue_run s ops q1) as [out' q2] eqn:Hq. injection Hr as <- <-.
    rewrite <- (assoc_L (++)), (IH _ _ Hq), Hp2. by destruct (decide (s' = s)) as [->|].
Qed.
End refinement.

(** An inbox is a first-in first-out queue.  For every subject and every
    interleaving of deliveries and polls, what its polls returned, followed
    by what is still pending, is exactly the sequence of well-formed messages
    delivered to that subject, and a poll leaves nothing pending. *)
Theorem inbox_is_fifo {B} (decode : B → option json) s ops q out q' :
  nq_inbox q = [] → queue_run decode s ops q = (out, q') →
  out ++ pending s q' = delivered decode s ops
  ∧ (poll s q').1 = pending s q' ∧ pending s (poll s q').2 = [].
Proof.
  intros Hq Hr. apply queue_run_spec in Hr as Hs. destruct (poll_spec s s q') as [H1 H2].
  rewrite decide_True in H2 by done. split_and!; [|done|done].
  rewrite Hs. unfold pending at 1. by rewrite Hq.
Qed.

#[local] Instance Ok_inj {E A} : Inj (=) (=) (@Ok E A).
Proof. by intros x y [= ->]. Qed.

(** *** Subjects keep owners and workers apart *)

Lemma validate_token_Ok s x : validate_subject_token s = Ok x ↔ valid_token s = true.
Proof. unfold validate_subject_token. destruct (valid_token s), x; naive_solver. Qed.

Lemma event_subject_inj e1 e2 o1 o2 :
  e1 ∈ REPLY_EVENTS → e2 ∈ REPLY_EVENTS → e1 +:+ "." +:+ o1 = e2 +:+ "." +:+ o2 →
  e1 = e2 ∧ o1 = o2.
Proof.
  unfold REPLY_EVENTS. intros H1 H2.
  repeat (apply elem_of_cons in H1 as [->|H1]); try by apply not_elem_of_nil in H1.
  all: repeat (apply elem_of_cons in H2 as [->|H2]); try by apply not_elem_of_nil in H2.
  all: simpl; intros Heq; simplify_eq; done.
Qed.

(** A message can reach only its addressee.  Two gateways that subscribe
    to the same reply subject are the same owner and listen for the same
    event, no reply subject contains a wildcard or a further token, the
    dispatch subjects of two workers differ, and a dispatch of one kind is
    never a dispatch of the other. *)
Theorem subjects_are_disjoint :
  (∀ e1 e2 q1 q2 s, reply_subject e1 q1 = Ok s → reply_subject e2 q2 = Ok s →
     e1 = e2 ∧ nq_owner_id q1 = nq_owner_id q2)
  ∧ (∀ sid gen required mock q, new_NATSQueue sid gen required mock = Ok q →
       valid_token (nq_owner_id q) = true)
  ∧ (∀ i j s, dispatch_subject i = Ok s → dispatch_subject j = Ok s → i = j)
  ∧ (∀ i j s, dispatch_suffix_subject i = Ok s → dispatch_suffix_subject j = Ok s → i = j)
  ∧ (∀ i j s, dispatch_subject i = Ok s → dispatch_suffix_subject j = Ok s → False).
Proof.
  split_and!.
  - intros e1 e2 q1 q2 s. unfold reply_subject. do 2 (case_bool_decide; [|done]).
    intros [= <-] [= Heq]. symmetry in Heq. by apply event_subject_inj in Heq.
  - intros sid gen required mock q. unfold new_NATSQueue.
    do 2 (case_match; [done|]). intros (? & _ & HR)%bind_Ok. apply bind_Ok in HR as (? & _ & HR).
    apply bind_Ok in HR as (? & Hv%validate_token_Ok & HR). by injection HR as <-.
  - intros i j s (? & _ & Hi)%bind_Ok (? & _ & Hj)%bind_Ok.
    apply (inj (String.append "dispatch_prefill.")), (inj (@Ok exn string)).
    by transitivity (@Ok exn string s).
  - intros i j s (? & _ & Hi)%bind_Ok (? & _ & Hj)%bind_Ok.
    apply (inj (String.append "dispatch_suffix.")), (inj (@Ok exn string)).
    by transitivity (@Ok exn string s).
  - intros i j s (? & _ & [= <-])%bind_Ok (? & _ & HR)%bind_Ok. discriminate HR.
Qed.

Definition demo_queue : NATSQueue := mkNATSQueue "uid--g1" false (Some true) [].
Definition demo_ops : list (queue_op (option Z)) :=
  [Deliver "decode_done" (Some 1); Deliver "first_token" (Some 5); Deliver "decode_done" None;
   Poll "decode_done"; Deliver "decode_done" (Some 2)].

Lemma inbox_is_fifo_witness :
  (queue_run (fmap JInt) "decode_done" demo_ops demo_queue).1
  ++ pending "decode_done" (queue_run (fmap JInt) "decode_done" demo_ops demo_queue).2
  = [JInt 1; JInt 2].
Proof.
  destruct (inbox_is_fifo (fmap JInt) "decode_done" demo_ops demo_queue _ _ eq_refl
              (surjective_pairing _)) as [Hf _].
  exact Hf.
Defined.
