(* ===== verification/Performance.v ===== *)
(** * The performance harness (gateway/performance_harness.py)

    The strict reading of a performance request, the copy of the world it is
    admitted in, and the ledger that keeps one trace per request id: active
    while the request runs, terminal once its evidence is frozen, a tombstone
    once the evidence is acknowledged.  The pinned tokenizer, SHA-256, [int]
    on strings and the division of two integers into a double are parameters. *)

From S2P Require Import Prelude PyDict Json ReplacementStore.
From stdpp Require Import prelude gmap strings pretty.
From Stdlib Require Import Ascii QArith_base.

Local Open Scope Z_scope.

Definition PERFORMANCE_REQUEST_SCHEMA : string := "prism.performance_request/v1".
Definition PERFORMANCE_EVIDENCE_SCHEMA : string := "prism.performance_request_evidence/v1".
Definition PERFORMANCE_TRACE_CAP : Z := 8192.

(** [[A-Za-z0-9][A-Za-z0-9._:-]{0,127}], the whole string *)
Definition is_alnum (c : ascii) : bool :=
  let n := Ascii.nat_of_ascii c in
  bool_decide (48 ≤ n ≤ 57)%nat || bool_decide (65 ≤ n ≤ 90)%nat || bool_decide (97 ≤ n ≤ 122)%nat.
Definition is_id_char (c : ascii) : bool :=
  is_alnum c || bool_decide (c ∈ ["."%char; "_"%char; ":"%char; "-"%char]).
Definition request_id_pattern (s : string) : bool :=
  match String.list_ascii_of_string s with
  | c :: cs => is_alnum c && bool_decide (length cs ≤ 127)%nat && forallb is_id_char cs
  | [] => false
  end.

Record PerformanceRequest := mkPerformanceRequest {
  pr_request_id : string;
  pr_expected_input_tokens : Z;
  pr_expected_output_tokens : Z;
  pr_input_token_ids : list Z;
  pr_raw_content_sha256 : string;
  pr_input_token_ids_sha256 : string;
  pr_model_profile : odict string json }.

Record ActiveTrace := mkActiveTrace {
  at_request : PerformanceRequest;
  at_world_identity : odict string json;
  at_stream_terminal_observed : bool;
  at_detached : bool;
  at_stream_error : option string }.

Definition new_ActiveTrace (r : PerformanceRequest) (w : odict string json) : ActiveTrace :=
  mkActiveTrace r w false false None.

Definition require_int (v : json) (minimum maximum : Z) : result exn Z :=
  match v with
  | JInt z => _ ← need (bool_decide (minimum ≤ z ≤ maximum)); mret z
  | _ => Raise ValueError
  end.

(** [type(token) is int and 0 <= token < 2**64] *)
Definition uint64_token (v : json) : option Z :=
  match v with JInt z => if bool_decide (0 ≤ z < 2 ^ 64) then Some z else None | _ => None end.

(** [isinstance(v, str) and v] *)
Definition nonempty_text (v : json) : result exn string :=
  match v with JStr s => _ ← need (truthy s); mret s | _ => Raise ValueError end.

(** ** The world of a request *)

Definition EXPECTED_RANKS : list (string * Z) := [("p0", 0); ("p1", 1); ("d0", 2); ("d1", 3)].

(** What the loop over [expected_ranks] has seen and built. *)
Record FrozenWorkers := mkFrozenWorkers {
  fw_pods : gset string;
  fw_epochs : gset string;
  fw_workers : odict string json }.

Definition worker_value (pod epoch : string) (rank : Z) : json :=
  JObj [("pod_uid", JStr pod); ("instance_epoch", JStr epoch); ("global_rank", JInt rank)].

Definition freeze_worker (workers : odict string json) (seen : FrozenWorkers) (iw : string * Z) :
    result exn FrozenWorkers :=
  match jget iw.1 workers with
  | JObj identity =>
      _ ← need (keys_are identity ["pod_uid"; "instance_epoch"; "global_rank"]);
      match jget "pod_uid" identity, jget "instance_epoch" identity, jget "global_rank" identity with
      | JStr pod, JStr epoch, JInt rank =>
          _ ← need (truthy pod && String.prefix (pod +:+ ":") epoch
                    && negb (bool_decide (String.length epoch = S (String.length pod)))
                    && bool_decide (rank = iw.2));
          _ ← need (negb (bool_decide (pod ∈ fw_pods seen)) && negb (bool_decide (epoch ∈ fw_epochs seen)));
          mret (mkFrozenWorkers ({[pod]} ∪ fw_pods seen) ({[epoch]} ∪ fw_epochs seen)
                  (dset iw.1 (worker_value pod epoch rank) (fw_workers seen)))
      | _, _, _ => Raise ValueError
      end
  | _ => Raise ValueError
  end.

Fixpoint freeze_workers (workers : odict string json) (seen : FrozenWorkers)
    (l : list (string * Z)) : result exn FrozenWorkers :=
  match l with
  | [] => mret seen
  | iw :: l' => seen' ← freeze_worker workers seen iw; freeze_workers workers seen' l'
  end.

Definition freeze_world_identity (value : odict string json) : result exn (odict string json) :=
  _ ← need (keys_are value ["gateway"; "topology_generation"; "affinity_enabled"; "workers"]);
  match jget "gateway" value with
  | JObj gateway =>
      _ ← need (keys_are gateway ["pod_uid"; "clock_epoch"]);
      pod_uid ← nonempty_text (jget "pod_uid" gateway);
      clock_epoch ← nonempty_text (jget "clock_epoch" gateway);
      topology_generation ← nonempty_text (jget "topology_generation" value);
      match jget "affinity_enabled" value with
      | JBool affinity_enabled =>
          match jget "workers" value with
          | JObj workers =>
              _ ← need (keys_are workers EXPECTED_RANKS.*1);
              frozen ← freeze_workers workers (mkFrozenWorkers ∅ ∅ []) EXPECTED_RANKS;
              mret [("gateway", JObj [("pod_uid", JStr pod_uid); ("clock_epoch", JStr clock_epoch)]);
                    ("topology_generation", JStr topology_generation);
                    ("affinity_enabled", JBool affinity_enabled);
                    ("workers", JObj (fw_workers frozen))]
          | _ => Raise ValueError
          end
      | _ => Raise ValueError
      end
  | _ => Raise ValueError
  end.

(** ** The ledger *)

Record PerformanceTraceRegistry := mkRegistry {
  pt_capacity : Z;
  pt_active : odict string ActiveTrace;
  pt_terminal : odict string (odict string json);
  pt_tombstones : odict string unit }.
Implicit Types (g : PerformanceTraceRegistry).

Definition set_active (v : odict string ActiveTrace) g : PerformanceTraceRegistry :=
  mkRegistry (pt_capacity g) v (pt_terminal g) (pt_tombstones g).

Definition new_PerformanceTraceRegistry (capacity : Z) : result exn PerformanceTraceRegistry :=
  _ ← need (bool_decide (capacity = PERFORMANCE_TRACE_CAP));
  mret (mkRegistry capacity [] [] []).

(** [counts()["total"]] *)
Definition total g : Z :=
  Z.of_nat (length (pt_active g)) + Z.of_nat (length (pt_terminal g))
  + Z.of_nat (length (pt_tombstones g)).
Definition counts g : odict string Z :=
  [("active", Z.of_nat (length (pt_active g)));
   ("unacked_terminal", Z.of_nat (length (pt_terminal g)));
   ("acked_tombstones", Z.of_nat (length (pt_tombstones g)));
   ("total", total g); ("capacity", pt_capacity g)].

Definition contains (id : string) g : bool :=
  dmem id (pt_active g) || dmem id (pt_terminal g) || dmem id (pt_tombstones g).

Definition reserve (r : PerformanceRequest) (world_identity : odict string json) :
    method PerformanceTraceRegistry unit := λ g,
  if contains (pr_request_id r) g then (Raise PerformanceTraceConflict, g)
  else if bool_decide (pt_capacity g ≤ total g) then (Raise PerformanceTraceCapacity, g)
  else match freeze_world_identity world_identity with
       | Ok w => (Ok tt, set_active (dset (pr_request_id r) (new_ActiveTrace r w) (pt_active g)) g)
       | Raise e => (Raise e, g)
       end.

Definition rollback_uncommitted (id : string) g : PerformanceTraceRegistry :=
  set_active (dpop id (pt_active g)) g.

(** [trace = self._active.get(id); if trace is not None: ...] *)
Definition on_active (f : ActiveTrace → ActiveTrace) (id : string) g : PerformanceTraceRegistry :=
  match dget id (pt_active g) with
  | Some t => set_active (dset id (f t) (pt_active g)) g
  | None => g
  end.
Definition observe_stream_terminal : string → PerformanceTraceRegistry → PerformanceTraceRegistry :=
  on_active (λ t, mkActiveTrace (at_request t) (at_world_identity t) true (at_detached t)
                    (at_stream_error t)).
Definition mark_detached : string → PerformanceTraceRegistry → PerformanceTraceRegistry :=
  on_active (λ t, mkActiveTrace (at_request t) (at_world_identity t)
                    (at_stream_terminal_observed t) true (at_stream_error t)).
Definition mark_stream_error (id error : string) : PerformanceTraceRegistry → PerformanceTraceRegistry :=
  on_active (λ t, mkActiveTrace (at_request t) (at_world_identity t)
                    (at_stream_terminal_observed t) (at_detached t) (Some error)) id.

Definition state (id : string) g : string :=
  if dmem id (pt_active g) then "active"
  else if dmem id (pt_terminal g) then "terminal"
  else if dmem id (pt_tombstones g) then "tombstone"
  else "unknown".
Definition active_trace (id : string) g : option ActiveTrace := dget id (pt_active g).
Definition terminal_trace (id : string) g : option (odict string json) := dget id (pt_terminal g).

Definition acknowledge (id : string) g : string * PerformanceTraceRegistry :=
  if dmem id (pt_active g) then ("active", g)
  else if dmem id (pt_tombstones g) then ("acked", g)
  else if negb (dmem id (pt_terminal g)) then ("unknown", g)
  else ("acked", mkRegistry (pt_capacity g) (pt_active g) (dpop id (pt_terminal g))
                   (dset id tt (pt_tombstones g))).

(** ** The verdict *)

(** [a or b] of two optional strings *)
Definition or_text (a b : option string) : option string :=
  match a with Some s => if truthy s then a else b | None => b end.

(** The status, the error code and the runtime error of a finished request. *)
Definition verdict (t : ActiveTrace) (output : list json) (runtime_error : option string) :
    string * option string * option string :=
  let runtime_error := or_text runtime_error (at_stream_error t) in
  if at_detached t then ("CANCELLED", Some "CLIENT_DISCONNECTED", None)
  else if bool_decide (runtime_error ≠ None) then ("FAILED", Some "SERVER_ERROR", runtime_error)
  else if bool_decide (Z.of_nat (length output) ≠ pr_expected_output_tokens (at_request t))
  then ("FAILED", Some "OUTPUT_TOKEN_COUNT_MISMATCH", None)
  else if negb (at_stream_terminal_observed t)
  then ("FAILED", Some "STREAM_TERMINAL_NOT_OBSERVED", None)
  else ("PASS", None, None).

Definition text_or_null (s : option string) : json :=
  match s with Some x => JStr x | None => JNull end.

Section Harness.
(** [encoder.encode(content, add_special_tokens=False)] *)
Variable encode : string → result exn (list json).
(** SHA-256 of the UTF-8 text and of the JSON text of a value, in hex *)
Variable sha_text : string → string.
Variable sha : json → string.
(** [int(s)] of a string *)
Variable int_of_str : string → option Z.
(** [a / b] of two integers: the nearest double, or an overflow *)
Variable true_div : Z → Z → result exn Q.

Definition token_ids_sha256 (ids : list json) : string := digest sha (JList ids).

(** [float(temperature) != 0.0] of an integer; a magnitude that rounds past
    the largest double raises. *)
Definition zero_temperature (v : json) : result exn unit :=
  match v with
  | JInt z => if bool_decide (2 ^ 1024 - 2 ^ 970 ≤ Z.abs z) then Raise OverflowError
              else need (bool_decide (z = 0))
  | JFloat q => need (Qeq_bool q 0)
  | _ => Raise ValueError
  end.

Definition parse_envelope (v : json) : result exn (Z * Z) :=
  match v with
  | JObj envelope =>
      _ ← need (keys_are envelope ["schema_version"; "expected_input_tokens"; "expected_output_tokens"]);
      _ ← need (py_eqb (jget "schema_version" envelope) (JStr PERFORMANCE_REQUEST_SCHEMA));
      expected_input ← require_int (jget "expected_input_tokens" envelope) 1 4096;
      expected_output ← require_int (jget "expected_output_tokens" envelope) 2 256;
      mret (expected_input, expected_output)
  | _ => Raise ValueError
  end.

(** The one raw user string of the messages. *)
Definition raw_prompt (v : json) : result exn string :=
  match v with
  | JList [JObj message] =>
      _ ← need (keys_are message ["role"; "content"]
                && py_eqb (jget "role" message) (JStr "user"));
      match jget "content" message with JStr s => Ok s | _ => Raise ValueError end
  | _ => Raise ValueError
  end.

Definition parse_performance_request (body : odict string json) (runtime_model : string)
    (model_profile : odict string json) : result exn PerformanceRequest :=
  match jget "request_id" body with
  | JStr request_id =>
      _ ← need (request_id_pattern request_id);
      _ ← need (py_eqb (jget "model" body) (JStr runtime_model));
      _ ← need (is_True_obj (jget "stream" body));
      _ ← zero_temperature (jget "temperature" body);
      _ ← need (is_True_obj (jget "ignore_eos" body));
      _ ← need (negb (dmem "input_token_ids" body));
      expected ← parse_envelope (jget "prism_performance" body);
      _ ← need (bool_decide (jget "max_tokens" body = JInt expected.2));
      content ← raw_prompt (jget "messages" body);
      token_ids ← encode content;
      _ ← need (bool_decide (Z.of_nat (length token_ids) = expected.1));
      match token_ids, mapM uint64_token token_ids with
      | _ :: _, Some ids =>
          mret (mkPerformanceRequest request_id expected.1 expected.2 ids
                  ("sha256:" +:+ sha_text content) (token_ids_sha256 token_ids) model_profile)
      | _, _ => Raise ValueError
      end
  | _ => Raise ValueError
  end.

(** ** The evidence of a request *)

Definition as_list_json (v : json) : result exn json :=
  l ← py_tuple v; mret (JList l).

Definition route_value (route_evidence : odict string json) : result exn json :=
  let ev := JObj route_evidence in
  path ← subscript ev "path";
  route ← subscript ev "route"; source ← subscript route "source";
  route' ← subscript ev "route"; target ← subscript route' "target";
  cached ← subscript ev "cached_prefix_tokens";
  suffix ← subscript ev "suffix_tokens";
  src ← subscript ev "src_block_ids"; src_ids ← as_list_json src;
  dst ← subscript ev "dst_block_ids"; dst_ids ← as_list_json dst;
  mapping ← subscript ev "mapping"; pairs ← as_list_json mapping;
  mret (JObj [("path", path); ("source", source); ("target", target);
              ("cached_prefix_tokens", cached); ("suffix_tokens", suffix);
              ("src_block_ids", src_ids); ("dst_block_ids", dst_ids); ("mapping", pairs)]).

(** [terminal_ns - started_ns] when both are integers *)
Definition elapsed (transport : odict string json) : option Z :=
  match jget "transfer_started_ns" transport, jget "transfer_terminal_ns" transport with
  | JInt started, JInt terminal => Some (terminal - started)
  | _, _ => None
  end.

(** A rate that exists only for a timed transfer. *)
Definition timed (num : Z → Z) (den : Z → Z) (e : option Z) : result exn json :=
  match e with
  | Some ns => q ← true_div (num ns) (den ns); mret (JFloat q)
  | None => mret JNull
  end.

Definition transfer_value (transport_value : json) : result exn (odict string json) :=
  completed ← subscript transport_value "completed_bytes";
  completed_bytes ← py_int int_of_str completed;
  match transport_value with
  | JObj transport =>
      let e := elapsed transport in
      _ ← need (match e with Some ns => bool_decide (0 < ns) | None => true end);
      selected_mode ← subscript transport_value "selected_mode";
      wall_ms ← timed (λ ns, ns) (λ _, 1000000) e;
      rate ← timed (λ _, completed_bytes * 1000000000) (λ ns, ns) e;
      mret [("selected_mode", selected_mode);
            ("pair_id", jget "pair_id" transport);
            ("completed_bytes", JInt completed_bytes);
            ("work_terminal", JBool (is_True_obj (jget "work_terminal" transport)));
            ("cuda_terminal", JBool (is_True_obj (jget "cuda_terminal" transport)));
            ("gateway_clock_epoch", jget "gateway_clock_epoch" transport);
            ("transfer_started_ns", jget "transfer_started_ns" transport);
            ("transfer_terminal_ns", jget "transfer_terminal_ns" transport);
            ("gateway_observed_transfer_wall_ms", wall_ms);
            ("effective_bytes_per_s", rate)]
  | _ => Raise AttributeError
  end.

Definition request_value (r : PerformanceRequest) (output : list json) : json :=
  JObj [("prompt_format", JStr "single_user_raw_text/v1");
        ("chat_template_applied", JBool false);
        ("expected_input_tokens", JInt (pr_expected_input_tokens r));
        ("expected_output_tokens", JInt (pr_expected_output_tokens r));
        ("actual_input_tokens", JInt (Z.of_nat (length (pr_input_token_ids r))));
        ("actual_output_tokens", JInt (Z.of_nat (length output)));
        ("raw_content_sha256", JStr (pr_raw_content_sha256 r));
        ("input_token_ids_sha256", JStr (pr_input_token_ids_sha256 r));
        ("output_token_ids", JList output);
        ("output_token_ids_sha256", JStr (token_ids_sha256 output))].

Definition evidence_value (id : string) (t : ActiveTrace) (output : list json)
    (v : string * option string * option string) (route : json) (transfer : odict string json) :
    odict string json :=
  [("schema_version", JStr PERFORMANCE_EVIDENCE_SCHEMA);
   ("request_id", JStr id);
   ("status", JStr v.1.1);
   ("error_code", text_or_null v.1.2);
   ("runtime_error", text_or_null v.2);
   ("model_profile", JObj (pr_model_profile (at_request t)));
   ("world_identity", JObj (at_world_identity t));
   ("request", request_value (at_request t) output);
   ("route", route);
   ("transfer", JObj transfer);
   ("resources", JObj [("terminal", JBool true); ("request_active", JBool false);
                       ("work_terminal", jget "work_terminal" transfer);
                       ("cuda_terminal", jget "cuda_terminal" transfer)]);
   ("stream", JObj [("terminal_observed", JBool (at_stream_terminal_observed t));
                    ("detached", JBool (at_detached t))])].

(** What [finalize] builds for an active trace before it touches a table. *)
Definition build_evidence (id : string) (t : ActiveTrace) (output : list json)
    (runtime_error : option string) (route_evidence : odict string json) :
    result exn (odict string json) :=
  _ ← need (bool_decide (mapM uint64_token output ≠ None));
  transport ← subscript (JObj route_evidence) "transport";
  route ← route_value route_evidence;
  transfer ← transfer_value transport;
  gateway ← subscript (JObj (at_world_identity t)) "gateway";
  clock_epoch ← subscript gateway "clock_epoch";
  _ ← need (py_eqb (jget "gateway_clock_epoch" transfer) clock_epoch);
  mret (evidence_value id t output (verdict t output runtime_error) route transfer).

Definition finalize (id : string) (output : list json) (runtime_error : option string)
    (route_evidence : odict string json) :
    method PerformanceTraceRegistry (odict string json) := λ g,
  match dget id (pt_terminal g) with
  | Some existing => (Ok existing, g)
  | None =>
      match dget id (pt_active g) with
      | None => (Raise KeyError, g)
      | Some t =>
          match build_evidence id t output runtime_error route_evidence with
          | Raise e => (Raise e, g)
          | Ok value =>
              (Ok value, mkRegistry (pt_capacity g) (dpop id (pt_active g))
                           (dset id value (pt_terminal g)) (pt_tombstones g))
          end
      end
  end.
End Harness.

(** ** The life of a trace *)

(** What the ledger knows of a request id. *)
Inductive phase : Type :=
| Unknown
| Active
| Terminal (v : odict string json)
| Tombstone.

Definition phase_of (id : string) g : phase :=
  match dget id (pt_active g), dget id (pt_terminal g), dget id (pt_tombstones g) with
  | Some _, _, _ => Active
  | None, Some v, _ => Terminal v
  | None, None, Some _ => Tombstone
  | None, None, None => Unknown
  end.

(** The transitions one operation may make. *)
Inductive lifecycle : phase → phase → Prop :=
| lc_same p : lifecycle p p
| lc_open : lifecycle Unknown Active
| lc_rollback : lifecycle Active Unknown
| lc_finish v : lifecycle Active (Terminal v)
| lc_ack v : lifecycle (Terminal v) Tombstone.

Record trace_inv g : Prop := {
  ti_active : dwf (pt_active g);
  ti_terminal : dwf (pt_terminal g);
  ti_tombstones : dwf (pt_tombstones g);
  ti_active_terminal : ∀ id, dget id (pt_active g) ≠ None → dget id (pt_terminal g) = None;
  ti_active_tombstones : ∀ id, dget id (pt_active g) ≠ None → dget id (pt_tombstones g) = None;
  ti_terminal_tombstones : ∀ id, dget id (pt_terminal g) ≠ None → dget id (pt_tombstones g) = None;
  ti_keyed : ∀ id t, dget id (pt_active g) = Some t → pr_request_id (at_request t) = id;
  ti_frozen : ∀ id t, dget id (pt_active g) = Some t →
    ∃ w, freeze_world_identity w = Ok (at_world_identity t);
  ti_evidence : ∀ id v, dget id (pt_terminal g) = Some v → jget "request_id" v = JStr id;
  ti_bounded : total g ≤ pt_capacity g }.

Lemma contains_false id g :
  contains id g = false ↔
  dget id (pt_active g) = None ∧ dget id (pt_terminal g) = None ∧ dget id (pt_tombstones g) = None.
Proof. unfold contains. rewrite !orb_false_iff, !dmem_false. tauto. Qed.

Lemma total_set_active v g :
  total (set_active v g) = Z.of_nat (length v) + Z.of_nat (length (pt_terminal g))
    + Z.of_nat (length (pt_tombstones g)).
Proof. done. Qed.

(** Replacing the active table by one with no more names keeps the invariant. *)
Lemma trace_inv_set_active g v :
  trace_inv g → dwf v →
  (∀ id, dget id v ≠ None → dget id (pt_terminal g) = None ∧ dget id (pt_tombstones g) = None) →
  (∀ id t, dget id v = Some t → pr_request_id (at_request t) = id
     ∧ ∃ w, freeze_world_identity w = Ok (at_world_identity t)) →
  total (set_active v g) ≤ pt_capacity g →
  trace_inv (set_active v g).
Proof.
  intros [] Hwf Hd Hk Hb. split; simpl; try done; intros id; try apply Hd; intros t Ht;
    by destruct (Hk id t Ht).
Qed.

Lemma reserve_inv r w g : trace_inv g → trace_inv (reserve r w g).2.
Proof.
  intros Hi. pose proof Hi as []. unfold reserve.
  destruct (contains _ g) eqn:Hc; [done|]. apply contains_false in Hc as (Ha & Ht & Hb).
  case_bool_decide; [done|]. destruct (freeze_world_identity w) as [w'|] eqn:Hw; [|done].
  apply trace_inv_set_active; eauto using dwf_dset.
  - intros id. rewrite dget_dset. case_decide; [by subst|]. eauto.
  - intros id t. rewrite dget_dset. case_decide; [|eauto]. intros [= <-]. subst. eauto.
  - rewrite total_set_active, length_dset, (proj2 (dmem_false _ _) Ha). unfold total in *. lia.
Qed.

Lemma rollback_inv id g : trace_inv g → trace_inv (rollback_uncommitted id g).
Proof.
  intros Hi. pose proof Hi as []. apply trace_inv_set_active; eauto using dwf_dpop.
  - intros i. rewrite dget_dpop. case_decide; [done|]. eauto.
  - intros i t. rewrite dget_dpop. case_decide; [done|]. eauto.
  - rewrite total_set_active. pose proof (length_dpop_le id (pt_active g)). unfold total in *. lia.
Qed.

(** Marking a trace keeps its request and its world. *)
Lemma on_active_inv f id g :
  (∀ t, at_request (f t) = at_request t ∧ at_world_identity (f t) = at_world_identity t) →
  trace_inv g → trace_inv (on_active f id g).
Proof.
  intros Hf Hi. pose proof Hi as []. unfold on_active.
  destruct (dget id (pt_active g)) as [t|] eqn:Ht; [|done].
  destruct (Hf t) as [Hr Hw]. apply trace_inv_set_active; eauto using dwf_dset.
  - intros i. rewrite dget_dset. case_decide; [subst; intros _|eauto].
    split; [apply ti_active_terminal0|apply ti_active_tombstones0]; by rewrite Ht.
  - intros i t'. rewrite dget_dset. case_decide; [|eauto]. intros [= <-]. subst.
    rewrite Hr, Hw. eauto.
  - rewrite total_set_active, length_dset, (proj2 (dmem_true _ _)) by (by eapply dget_Some_keys).
    done.
Qed.

Lemma acknowledge_inv id g : trace_inv g → trace_inv (acknowledge id g).2.
Proof.
  intros Hi. pose proof Hi as []. unfold acknowledge.
  destruct (dmem id (pt_active g)) eqn:Ha; [done|]. apply dmem_false in Ha.
  destruct (dmem id (pt_tombstones g)) eqn:Hb; [done|]. apply dmem_false in Hb.
  destruct (dget id (pt_terminal g)) as [v|] eqn:Ht.
  2:{ by rewrite (proj2 (dmem_false _ _) Ht). }
  unfold dmem at 1. rewrite Ht. split; simpl; eauto using dwf_dpop, dwf_dset.
  - intros i. rewrite dget_dpop. case_decide; naive_solver.
  - intros i. rewrite dget_dset. case_decide; naive_solver.
  - intros i. rewrite dget_dpop, dget_dset. repeat case_decide; naive_solver.
  - intros i v'. rewrite dget_dpop. case_decide; naive_solver.
  - unfold total in *. simpl. rewrite length_dset, (proj2 (dmem_false _ _) Hb).
    rewrite (length_dpop id v (pt_terminal g)) in * by done. lia.
Qed.

Lemma new_trace_inv c g : new_PerformanceTraceRegistry c = Ok g → trace_inv g.
Proof.
  unfold new_PerformanceTraceRegistry. rewrite need_then. intros [Hc [= <-]].
  apply bool_decide_eq_true in Hc as ->. split; simpl; try done; constructor.
Qed.

Lemma on_active_phase f i id g : phase_of id (on_active f i g) = phase_of id g.
Proof.
  unfold on_active. destruct (dget i (pt_active g)) eqn:Hi; [|done].
  unfold phase_of. simpl. rewrite dget_dset. case_decide; [|done]. subst. by rewrite Hi.
Qed.

Section Ledger.
Variable sha : json → string.
Variable int_of_str : string → option Z.
Variable true_div : Z → Z → result exn Q.

(** The operations of the gateway on the ledger, whatever they return. *)
Inductive trace_step g : PerformanceTraceRegistry → Prop :=
| ts_reserve r w : trace_step g (reserve r w g).2
| ts_rollback id : trace_step g (rollback_uncommitted id g)
| ts_observe id : trace_step g (observe_stream_terminal id g)
| ts_detach id : trace_step g (mark_detached id g)
| ts_error id e : trace_step g (mark_stream_error id e g)
| ts_finalize id out err ev :
    trace_step g (finalize sha int_of_str true_div id out err ev g).2
| ts_acknowledge id : trace_step g (acknowledge id g).2.

Lemma finalize_inv id out err ev g :
  trace_inv g → trace_inv (finalize sha int_of_str true_div id out err ev g).2.
Proof.
  intros Hi. pose proof Hi as []. unfold finalize.
  destruct (dget id (pt_terminal g)) as [v|] eqn:Ht; [done|].
  destruct (dget id (pt_active g)) as [t|] eqn:Ha; [|done].
  destruct (build_evidence _ _ _ _ _ _ _ _) as [v|] eqn:Hv; [|done].
  assert (jget "request_id" v = JStr id) as Hid.
  { unfold build_evidence in Hv. repeat apply bind_Ok in Hv as (? & _ & Hv). by injection Hv as <-. }
  split; simpl; eauto using dwf_dpop, dwf_dset.
  - intros i. rewrite dget_dpop, dget_dset. repeat case_decide; naive_solver.
  - intros i. rewrite dget_dpop. case_decide; naive_solver.
  - intros i. rewrite dget_dset. case_decide; [|eauto]. subst. intros _.
    apply ti_active_tombstones0. by rewrite Ha.
  - intros i t'. rewrite dget_dpop. case_decide; naive_solver.
  - intros i t'. rewrite dget_dpop. case_decide; naive_solver.
  - intros i v'. rewrite dget_dset. case_decide; [|eauto]. by intros [= <-]; subst.
  - unfold total in *. simpl. rewrite length_dset, (proj2 (dmem_false _ _) Ht).
    rewrite (length_dpop id t (pt_active g)) in * by done. lia.
Qed.

Lemma trace_step_inv g g' : trace_inv g → trace_step g g' → trace_inv g'.
Proof.
  intros Hi. destruct 1; eauto using reserve_inv, rollback_inv, finalize_inv, acknowledge_inv;
    by apply on_active_inv.
Qed.

Lemma trace_step_lifecycle id g g' :
  trace_inv g → trace_step g g' → lifecycle (phase_of id g) (phase_of id g').
Proof.
  intros Hi. destruct 1 as [r w|i|i|i|i e|i out err ev|i];
    try (unfold observe_stream_terminal, mark_detached, mark_stream_error;
         rewrite on_active_phase; constructor).
  - unfold reserve. destruct (contains _ g) eqn:Hc; [constructor|].
    apply contains_false in Hc as (Ha & Ht & Hb). case_bool_decide; [constructor|].
    destruct (freeze_world_identity w); [|constructor].
    unfold phase_of. simpl. rewrite dget_dset. case_decide; [subst|constructor].
    rewrite Ha, Ht, Hb. constructor.
  - unfold phase_of, rollback_uncommitted. simpl. rewrite dget_dpop. case_decide; [subst|constructor].
    destruct (dget i (pt_active g)) eqn:Ha; [|constructor].
    rewrite (ti_active_terminal _ Hi), (ti_active_tombstones _ Hi) by (by rewrite Ha). constructor.
  - unfold finalize. destruct (dget i (pt_terminal g)) eqn:Ht; [constructor|].
    destruct (dget i (pt_active g)) eqn:Ha; [|constructor].
    destruct (build_evidence _ _ _ _ _ _ _ _); [|constructor].
    unfold phase_of. simpl. rewrite dget_dpop, dget_dset. case_decide; [subst|constructor].
    rewrite Ha. constructor.
  - unfold acknowledge. destruct (dmem i (pt_active g)) eqn:Ha; [constructor|].
    destruct (dmem i (pt_tombstones g)) eqn:Hb; [constructor|].
    destruct (dmem i (pt_terminal g)) eqn:Ht; [|constructor].
    apply dmem_false in Ha, Hb. unfold phase_of. simpl. rewrite dget_dpop, dget_dset.
    case_decide; [subst|constructor]. rewrite Ha, Hb. unfold dmem in Ht.
    destruct (dget i (pt_terminal g)); [constructor|done].
Qed.

(** An id that has left the active table never comes back. *)
Definition settled (id : string) (v : odict string json) g : Prop :=
  phase_of id g = Terminal v ∨ phase_of id g = Tombstone.

Lemma settled_steps id v g g' :
  trace_inv g → settled id v g → rtc trace_step g g' → trace_inv g' ∧ settled id v g'.
Proof.
  intros Hi Hs. induction 1 as [g|g g1 g' Hst _ IH]; [done|].
  apply IH; [by eapply trace_step_inv|]. unfold settled in *.
  pose proof (trace_step_lifecycle id _ _ Hi Hst) as Hl.
  destruct Hs as [Hs|Hs]; rewrite Hs in Hl; inversion Hl; auto.
Qed.

Lemma settled_conflict id v g r w :
  settled id v g → pr_request_id r = id → reserve r w g = (Raise PerformanceTraceConflict, g).
Proof.
  intros Hs <-. unfold reserve. destruct (contains _ g) eqn:Hc; [done|].
  apply contains_false in Hc as (Ha & Ht & Hb). unfold settled, phase_of in Hs.
  rewrite Ha, Ht, Hb in Hs. naive_solver.
Qed.

Lemma finalize_terminal id out err ev g v :
  phase_of id g = Terminal v → finalize sha int_of_str true_div id out err ev g = (Ok v, g).
Proof.
  unfold phase_of, finalize. destruct (dget id (pt_active g)); [done|].
  destruct (dget id (pt_terminal g)); [by intros [= ->]|]. by destruct (dget id (pt_tombstones g)).
Qed.

Lemma trace_steps_inv g g' : trace_inv g → rtc trace_step g g' → trace_inv g'.
Proof. intros Hi. induction 1; eauto using trace_step_inv. Qed.

(** C39: From a fresh ledger, whatever the gateway does with it, the three
    tables share no id, hold at most the capacity, and an id whose evidence
    was frozen keeps exactly that evidence until it is acknowledged and its
    tombstone for ever after: a later reservation of the id conflicts and
    changes nothing, and finalizing it again returns the frozen evidence
    while it is there. *)
Theorem trace_ledger_write_once c g0 g id v g' :
  new_PerformanceTraceRegistry c = Ok g0 →
  rtc trace_step g0 g → phase_of id g = Terminal v → rtc trace_step g g' →
  trace_inv g' ∧ settled id v g' ∧ jget "request_id" v = JStr id
  ∧ (∀ r w, pr_request_id r = id → reserve r w g' = (Raise PerformanceTraceConflict, g'))
  ∧ (phase_of id g' = Terminal v → ∀ out err ev,
       finalize sha int_of_str true_div id out err ev g' = (Ok v, g')).
Proof.
  intros H0 Hg Hp Hg'. pose proof (trace_steps_inv _ _ (new_trace_inv _ _ H0) Hg) as Hi.
  destruct (settled_steps id v g g' Hi (or_introl Hp) Hg') as [Hi' Hs].
  split_and!; [done|done| |eauto using settled_conflict|eauto using finalize_terminal].
  apply (ti_evidence _ Hi). unfold phase_of in Hp.
  destruct (dget id (pt_active g)); [done|]. destruct (dget id (pt_terminal g)); [by injection Hp as ->|].
  by destruct (dget id (pt_tombstones g)).
Qed.

(** ** The verdict of the evidence *)

Lemma verdict_pass t out err :
  (verdict t out err).1.1 = "PASS" ↔
  at_detached t = false ∧ or_text err (at_stream_error t) = None
  ∧ Z.of_nat (length out) = pr_expected_output_tokens (at_request t)
  ∧ at_stream_terminal_observed t = true.
Proof.
  unfold verdict. destruct (at_detached t); [naive_solver|].
  case_bool_decide; [naive_solver|]. case_bool_decide; [naive_solver|].
  destruct (at_stream_terminal_observed t); simpl; [|naive_solver].
  split; [intros _|done]. split_and!; try done; apply dec_stable; tauto.
Qed.

Lemma build_evidence_inv id t out err ev v :
  build_evidence sha int_of_str true_div id t out err ev = Ok v →
  ∃ transport transfer route,
    dget "transport" ev = Some transport
    ∧ transfer_value int_of_str true_div transport = Ok transfer ∧ route_value ev = Ok route
    ∧ mapM uint64_token out ≠ None
    ∧ v = evidence_value sha id t out (verdict t out err) route transfer.
Proof.
  unfold build_evidence. rewrite need_then. intros [Hout%bool_decide_eq_true HR].
  apply bind_Ok in HR as (transport & Ht & HR). apply bind_Ok in HR as (route & Hr & HR).
  apply bind_Ok in HR as (transfer & Hv & HR). apply bind_Ok in HR as (gw & _ & HR).
  apply bind_Ok in HR as (ce & _ & HR). apply need_then in HR as [_ [= <-]].
  exists transport, transfer, route. simpl in Ht. destruct (dget "transport" ev); naive_solver.
Qed.

(** Finalizing an active trace either raises and leaves the ledger as it
    was, or moves the id to the terminal table with evidence that reports
    PASS exactly when the client did not disconnect, neither the runtime nor
    the stream failed, the number of output tokens is the expected one and
    the client saw the terminal frame; every output token is an unsigned
    64-bit integer and a disconnected client is always CANCELLED. *)
Theorem finalize_verdict_exact id out err ev g t x g' :
  trace_inv g → dget id (pt_active g) = Some t →
  finalize sha int_of_str true_div id out err ev g = (x, g') →
  match x with
  | Raise _ => g' = g
  | Ok v =>
      phase_of id g' = Terminal v
      ∧ (∀ i, i ≠ id → phase_of i g' = phase_of i g)
      ∧ total g' = total g
      ∧ (jget "status" v = JStr "PASS" ↔
           at_detached t = false ∧ or_text err (at_stream_error t) = None
           ∧ Z.of_nat (length out) = pr_expected_output_tokens (at_request t)
           ∧ at_stream_terminal_observed t = true)
      ∧ (at_detached t = true → jget "status" v = JStr "CANCELLED" ∧ jget "runtime_error" v = JNull)
      ∧ Forall (λ y, uint64_token y ≠ None) out
  end.
Proof.
  intros Hi Ha Hf. unfold finalize in Hf.
  assert (dget id (pt_terminal g) = None) as Ht by (apply (ti_active_terminal _ Hi); by rewrite Ha).
  rewrite Ht, Ha in Hf. destruct (build_evidence _ _ _ _ _ _ _ _) as [v|e] eqn:Hv; simplify_eq; [|done].
  apply build_evidence_inv in Hv as (transport & transfer & route & _ & _ & _ & Hout & ->).
  split_and!.
  - unfold phase_of. simpl. by rewrite dget_dpop_eq, dget_dset_eq.
  - intros i Hne. unfold phase_of. simpl. by rewrite dget_dpop_ne, dget_dset_ne.
  - unfold total. simpl. rewrite length_dset, (proj2 (dmem_false _ _) Ht).
    rewrite (length_dpop id t (pt_active g)) by (done || apply Hi). lia.
  - rewrite <- verdict_pass. simpl. change (jget "status" _) with (JStr (verdict t out err).1.1).
    split; [by intros [= ->]|by intros ->].
  - intros Hd. unfold verdict. by rewrite Hd.
  - apply Forall_forall. intros y Hy Hn. apply Hout. clear -Hy Hn.
    induction out as [|z out IH]; [set_solver|]. simpl.
    apply elem_of_cons in Hy as [<-|Hy]; [by rewrite Hn|].
    destruct (uint64_token z); [|done]. simpl. by rewrite IH.
Qed.
End Ledger.

(** ** Admission *)

Lemma require_int_Ok v a b z : require_int v a b = Ok z ↔ v = JInt z ∧ a ≤ z ≤ b.
Proof.
  destruct v; simpl; try (split; [done|by intros [? _]]).
  rewrite need_then, bool_decide_eq_true. split; [by intros [? [= ->]]|by intros [[= ->] ?]].
Qed.

Lemma parse_envelope_Ok v i o :
  parse_envelope v = Ok (i, o) → 1 ≤ i ≤ 4096 ∧ 2 ≤ o ≤ 256.
Proof.
  destruct v; simpl; try done. rewrite !need_then. intros (_ & _ & HR).
  apply bind_Ok in HR as (i' & [_ Hi]%require_int_Ok & HR).
  apply bind_Ok in HR as (o' & [_ Ho]%require_int_Ok & HR). injection HR as -> ->. done.
Qed.

Lemma mapM_uint64 l ids :
  mapM uint64_token l = Some ids → l = JInt <$> ids ∧ Forall (λ z, 0 ≤ z < 2 ^ 64) ids.
Proof.
  rewrite mapM_Some. induction 1 as [|v z l ids Hv _ [-> IH]]; [done|].
  destruct v as [| |z'| | | |]; try done. simpl in Hv. case_bool_decide; [|done].
  injection Hv as ->. split; [done|by constructor].
Qed.

(** What the ledger keeps of a request: its sizes are in range and agree with
    the prompt the pinned tokenizer produced. *)
Definition request_wf (encode : string → result exn (list json)) (r : PerformanceRequest) : Prop :=
  request_id_pattern (pr_request_id r) = true
  ∧ 1 ≤ pr_expected_input_tokens r ≤ 4096 ∧ 2 ≤ pr_expected_output_tokens r ≤ 256
  ∧ Z.of_nat (length (pr_input_token_ids r)) = pr_expected_input_tokens r
  ∧ Forall (λ z, 0 ≤ z < 2 ^ 64) (pr_input_token_ids r)
  ∧ ∃ content, encode content = Ok (JInt <$> pr_input_token_ids r).

Lemma parse_performance_request_Ok encode sha_text sha body model profile r :
  parse_performance_request encode sha_text sha body model profile = Ok r →
  request_wf encode r
  ∧ jget "request_id" body = JStr (pr_request_id r)
  ∧ jget "model" body = JStr model ∧ jget "stream" body = JBool true
  ∧ jget "ignore_eos" body = JBool true ∧ dget "input_token_ids" body = None
  ∧ jget "max_tokens" body = JInt (pr_expected_output_tokens r).
Proof.
  unfold parse_performance_request. destruct (jget "request_id" body) as [| | | |rid| |]; try done.
  rewrite !need_then. intros (Hid & Hm & Hs & HR). apply bind_Ok in HR as ([] & _ & HR).
  rewrite !need_then in HR. destruct HR as (He & Hi & HR).
  apply bind_Ok in HR as ([i o] & Henv & HR). apply parse_envelope_Ok in Henv as [Hbi Hbo].
  rewrite need_then in HR. destruct HR as [Hmax HR].
  apply bind_Ok in HR as (content & _ & HR). apply bind_Ok in HR as (toks & Htok & HR).
  rewrite need_then in HR. destruct HR as [Hlen HR]. apply bool_decide_eq_true in Hmax, Hlen.
  destruct toks as [|y toks]; [done|]. destruct (mapM uint64_token (y :: toks)) as [ids|] eqn:Hids; [|done].
  injection HR as <-. apply mapM_uint64 in Hids as [Heq Hf]. apply py_eqb_str in Hm.
  simpl in *. split; [|split_and!; try done].
  - split_and!; simpl; try done; try lia; [|exists content; by rewrite Htok, Heq].
    rewrite <- Hlen. change (S (length toks)) with (length (y :: toks)). rewrite Heq.
    by rewrite length_fmap.
  - by destruct (jget "stream" body) as [|[]| | | | |].
  - by destruct (jget "ignore_eos" body) as [|[]| | | | |].
  - apply dmem_false. by destruct (dmem "input_token_ids" body).
Qed.

(** A request the performance harness admits carries an id of the
    documented form, 1 to 4096 input and 2 to 256 output tokens, and exactly
    the unsigned 64-bit token ids the pinned tokenizer gives for its one raw
    user prompt; it streams, samples greedily, ignores the end of sequence,
    asks for exactly the expected output and brings no token ids of its own. *)
Theorem performance_request_typed encode sha_text sha body model profile r :
  parse_performance_request encode sha_text sha body model profile = Ok r →
  request_wf encode r
  ∧ jget "request_id" body = JStr (pr_request_id r)
  ∧ jget "model" body = JStr model ∧ jget "stream" body = JBool true
  ∧ jget "ignore_eos" body = JBool true ∧ dget "input_token_ids" body = None
  ∧ jget "max_tokens" body = JInt (pr_expected_output_tokens r).
Proof. apply parse_performance_request_Ok. Qed.

(** ** Witnesses *)

Module Demo.
Definition encode (s : string) : result exn (list json) := Ok [JInt 5; JInt 7].
Definition sha_text (s : string) : string := s.
Definition sha (v : json) : string := "h".
Definition int_of_str (s : string) : option Z := None.
Definition true_div (a b : Z) : result exn Q :=
  match b with Zpos p => Ok (a # p) | _ => Raise ZeroDivisionError end.

Definition body : odict string json :=
  [("request_id", JStr "bench-1"); ("model", JStr "m"); ("stream", JBool true);
   ("temperature", JFloat 0); ("ignore_eos", JBool true); ("max_tokens", JInt 2);
   ("messages", JList [JObj [("role", JStr "user"); ("content", JStr "hi")]]);
   ("prism_performance",
     JObj [("schema_version", JStr PERFORMANCE_REQUEST_SCHEMA); ("expected_input_tokens", JInt 2);
           ("expected_output_tokens", JInt 2)])].
Definition request : PerformanceRequest :=
  mkPerformanceRequest "bench-1" 2 2 [5; 7] "sha256:hi" "sha256:h" [].

Definition worker (i : string) (rank : Z) : string * json :=
  (i, worker_value ("uid-" +:+ i) ("uid-" +:+ i +:+ ":e") rank).
Definition world : odict string json :=
  [("gateway", JObj [("pod_uid", JStr "gw"); ("clock_epoch", JStr "ce")]);
   ("topology_generation", JStr "gen"); ("affinity_enabled", JBool true);
   ("workers", JObj [worker "p0" 0; worker "p1" 1; worker "d0" 2; worker "d1" 3])].

Definition route_evidence : odict string json :=
  [("path", JStr "cold"); ("route", JObj [("source", JStr "p0"); ("target", JStr "d1")]);
   ("cached_prefix_tokens", JInt 0); ("suffix_tokens", JInt 2); ("src_block_ids", JList []);
   ("dst_block_ids", JList []); ("mapping", JList []);
   ("transport", JObj [("selected_mode", JStr "nccl"); ("completed_bytes", JInt 4096);
      ("work_terminal", JBool true); ("cuda_terminal", JBool true);
      ("gateway_clock_epoch", JStr "ce"); ("transfer_started_ns", JInt 10);
      ("transfer_terminal_ns", JInt 30)])].

Definition fresh : PerformanceTraceRegistry := mkRegistry PERFORMANCE_TRACE_CAP [] [] [].
Definition reserved := (reserve request world fresh).2.
Definition seen := observe_stream_terminal "bench-1" reserved.
Definition outcome :=
  finalize sha int_of_str true_div "bench-1" [JInt 1; JInt 2] None route_evidence seen.
Definition done_ := outcome.2.
Definition trace : ActiveTrace := mkActiveTrace request world true false None.

Lemma fresh_ok : new_PerformanceTraceRegistry PERFORMANCE_TRACE_CAP = Ok fresh.
Proof. done. Qed.
Lemma seen_active : dget "bench-1" (pt_active seen) = Some trace.
Proof. vm_compute. reflexivity. Qed.
Lemma seen_inv : trace_inv seen.
Proof. apply on_active_inv; [done|]. apply reserve_inv, (new_trace_inv _ _ fresh_ok). Qed.
Lemma done_reached : rtc (trace_step sha int_of_str true_div) fresh done_.
Proof.
  apply rtc_l with reserved; [apply ts_reserve|]. apply rtc_l with seen; [apply ts_observe|].
  apply rtc_once. apply ts_finalize.
Qed.
End Demo.

Definition demo_evidence : odict string json :=
  match Demo.outcome.1 with Ok v => v | Raise _ => [] end.

Lemma demo_done_phase : phase_of "bench-1" Demo.done_ = Terminal demo_evidence.
Proof. vm_compute. reflexivity. Qed.
Lemma demo_evidence_pass : jget "status" demo_evidence = JStr "PASS".
Proof. vm_compute. reflexivity. Qed.
Lemma demo_outcome : Demo.outcome = (Ok demo_evidence, Demo.done_).
Proof. vm_compute. reflexivity. Qed.

Lemma trace_ledger_write_once_witness :
  settled "bench-1" demo_evidence (acknowledge "bench-1" Demo.done_).2
  ∧ reserve Demo.request Demo.world (acknowledge "bench-1" Demo.done_).2
    = (Raise PerformanceTraceConflict, (acknowledge "bench-1" Demo.done_).2).
Proof.
  destruct (trace_ledger_write_once Demo.sha Demo.int_of_str Demo.true_div PERFORMANCE_TRACE_CAP
    Demo.fresh Demo.done_ "bench-1" demo_evidence (acknowledge "bench-1" Demo.done_).2
    Demo.fresh_ok Demo.done_reached demo_done_phase
    (rtc_once _ _ (ts_acknowledge _ _ _ Demo.done_ "bench-1"))) as (_ & Hs & _ & Hr & _).
  split; [exact Hs|]. apply Hr. reflexivity.
Defined.

Lemma finalize_verdict_exact_witness :
  jget "status" demo_evidence = JStr "PASS" ∧ phase_of "bench-1" Demo.done_ = Terminal demo_evidence.
Proof.
  destruct (finalize_verdict_exact Demo.sha Demo.int_of_str Demo.true_div "bench-1"
    [JInt 1; JInt 2] None Demo.route_evidence Demo.seen Demo.trace (Ok demo_evidence) Demo.done_
    Demo.seen_inv Demo.seen_active demo_outcome) as (Hp & _ & _ & Hs & _).
  split; [|exact Hp]. apply Hs. split_and!; reflexivity.
Defined.

Lemma performance_request_typed_witness : request_wf Demo.encode Demo.request.
Proof.
  destruct (performance_request_typed Demo.encode Demo.sha_text Demo.sha Demo.body "m" []
    Demo.request) as [Hw _]; [vm_compute; reflexivity|exact Hw].
Defined.
