(* ===== verification/FaultGate.v ===== *)
(** * The correctness harness (gateway/correctness_harness.py)

    The fixed routes and fixtures of a correctness request and the one-shot
    gate that pauses production code at a named checkpoint.  The gate's lock
    makes each critical section one step; an arrival that consumed the gate
    waits, between two steps, on the event of the run it consumed.  [uuid4]
    gives the id of a run and [repr] the text of floats and containers. *)

From S2P Require Import Prelude PyDict Json.
From stdpp Require Import prelude gmap strings.
From Stdlib Require Import QArith_base.

Local Open Scope Z_scope.

(** ** Routes and fixtures *)

Definition EXPECTED_INPUT_TOKENS : Z := 769.
Definition EXPECTED_OUTPUT_TOKENS : Z := 32.
Definition EXPECTED_CACHED_TOKENS : Z := 512.

Record CorrectnessRoute := mkCorrectnessRoute {
  cr_path : string;
  cr_source_instance : string;
  cr_target_instance : string;
  cr_cached_prefix_tokens : Z;
  cr_include_in_packet : bool }.

Definition ROUTES : odict string CorrectnessRoute :=
  [("cold", mkCorrectnessRoute "cold" "p0" "d1" 0 true);
   ("same_instance", mkCorrectnessRoute "same_instance" "d1" "d1" EXPECTED_CACHED_TOKENS true);
   ("cross_instance", mkCorrectnessRoute "cross_instance" "d0" "d1" EXPECTED_CACHED_TOKENS true);
   ("seed_d1", mkCorrectnessRoute "seed_d1" "p1" "d1" 0 false);
   ("seed_d0", mkCorrectnessRoute "seed_d0" "p1" "d0" 0 false)].

Inductive authorization := auth_ok | auth_disabled | auth_forbidden.

Definition authorize (enabled : bool) (configured_secret supplied_secret : string) : authorization :=
  if negb enabled then auth_disabled
  else if negb (truthy configured_secret) || negb (truthy supplied_secret) then auth_forbidden
  else if bool_decide (configured_secret = supplied_secret) then auth_ok else auth_forbidden.

Definition parse_route (value : json) : result exn CorrectnessRoute :=
  match value with
  | JObj d =>
      _ ← need (keys_are d ["path"]);
      match jget "path" d with
      | JStr path => match dget path ROUTES with Some r => Ok r | None => Raise ValueError end
      | _ => Raise ValueError
      end
  | _ => Raise ValueError
  end.

Definition is_seed (route : CorrectnessRoute) : bool := String.prefix "seed_" (cr_path route).

Definition validate_fixture (route : CorrectnessRoute) (token_ids : list Z)
    (sampling : odict string json) : result exn unit :=
  let expected_input := if is_seed route then 513 else EXPECTED_INPUT_TOKENS in
  let expected_output := if is_seed route then 1 else EXPECTED_OUTPUT_TOKENS in
  _ ← need (bool_decide (Z.of_nat (length token_ids) = expected_input));
  need (py_eqb (JObj sampling) (JObj [("temperature", JFloat 0%Q); ("max_tokens", JInt expected_output);
                                      ("ignore_eos", JBool true)])).

(** ** Fault kinds *)

Definition FAULT_CHECKPOINTS : odict string string :=
  [("nats_disconnect", "before_nats_dispatch"); ("nats_drop", "before_nats_dispatch");
   ("nats_duplicate", "before_nats_dispatch"); ("nats_publish_unknown", "before_nats_dispatch");
   ("rpc_response_loss_source", "after_infer_success_before_control_observe");
   ("rpc_response_loss_target", "after_infer_success_before_control_observe");
   ("finalize_response_loss_source", "after_infer_success_before_control_observe");
   ("finalize_response_loss_target", "after_infer_success_before_control_observe");
   ("worker_crash", "before_nccl_source_start"); ("nccl_timeout", "before_nccl_source_start");
   ("gateway_restart", "after_nccl_pair_mutations_accepted")].

Definition POST_SUCCESS_FAULT_MATCH : odict string (string * string) :=
  [("rpc_response_loss_source", ("/v1/transfers/start", "source"));
   ("rpc_response_loss_target", ("/v1/transfers/prepare-receive", "target"));
   ("finalize_response_loss_source", ("/v1/cleanup/finalize", "source"));
   ("finalize_response_loss_target", ("/v1/cleanup/finalize", "target"))].

(** ** The gate *)

Inductive GateState := ARMED | REACHED | RELEASED | EXPIRED | CANCELLED | SEALED.
#[export] Instance GateState_eq_dec : EqDecision GateState.
Proof. solve_decision. Defined.

Record GateEvent := mkGateEvent {
  ge_name : string;
  ge_value : Z;
  ge_producer_epoch : string;
  ge_details : odict string json }.

Record FaultRun := mkFaultRun {
  fr_run_id : string;
  fr_kind : string;
  fr_checkpoint : string;
  fr_timeout : Z;
  fr_state : GateState;
  fr_armed_at : Z;
  fr_reached_at : option Z;
  fr_released_at : option Z;
  fr_sealed_at : option Z;
  fr_details : odict string json;
  fr_events : list GateEvent }.
Implicit Types (f : FaultRun).

Definition with_state (x : GateState) f : FaultRun :=
  mkFaultRun (fr_run_id f) (fr_kind f) (fr_checkpoint f) (fr_timeout f) x (fr_armed_at f)
    (fr_reached_at f) (fr_released_at f) (fr_sealed_at f) (fr_details f) (fr_events f).
Definition with_reached (now : Z) (details : odict string json) f : FaultRun :=
  mkFaultRun (fr_run_id f) (fr_kind f) (fr_checkpoint f) (fr_timeout f) REACHED (fr_armed_at f)
    (Some now) (fr_released_at f) (fr_sealed_at f) details (fr_events f).
Definition with_released (now : Z) f : FaultRun :=
  mkFaultRun (fr_run_id f) (fr_kind f) (fr_checkpoint f) (fr_timeout f) RELEASED (fr_armed_at f)
    (fr_reached_at f) (Some now) (fr_sealed_at f) (fr_details f) (fr_events f).
Definition with_event (e : GateEvent) f : FaultRun :=
  mkFaultRun (fr_run_id f) (fr_kind f) (fr_checkpoint f) (fr_timeout f) (fr_state f) (fr_armed_at f)
    (fr_reached_at f) (fr_released_at f) (fr_sealed_at f) (fr_details f) (fr_events f ++ [e]).
Definition with_sealed (now : Z) f : FaultRun :=
  mkFaultRun (fr_run_id f) (fr_kind f) (fr_checkpoint f) (fr_timeout f) SEALED (fr_armed_at f)
    (fr_reached_at f) (fr_released_at f) (Some now) (fr_details f) (fr_events f).

(** [fg_events]: the [asyncio.Event]s made so far and whether each is set;
    [fg_release] is the one the gate holds, an arrival keeps its own. *)
Record FaultInjectionGate := mkGate {
  fg_timeout : Z;
  fg_active : option FaultRun;
  fg_release : option nat;
  fg_events : list bool }.
Implicit Types (g : FaultInjectionGate).

Definition set_run f g : FaultInjectionGate :=
  mkGate (fg_timeout g) (Some f) (fg_release g) (fg_events g).
Definition set_event (e : option nat) g : FaultInjectionGate :=
  mkGate (fg_timeout g) (fg_active g) (fg_release g)
    (match e with Some i => <[i := true]> (fg_events g) | None => fg_events g end).

Definition new_FaultInjectionGate (timeout : Z) : result exn FaultInjectionGate :=
  _ ← need (bool_decide (0 < timeout)); mret (mkGate timeout None None []).

Definition arm (kind uid : string) (now : Z) : method FaultInjectionGate FaultRun := λ g,
  match dget kind FAULT_CHECKPOINTS with
  | None => (Raise ValueError, g)
  | Some checkpoint =>
      if bool_decide (fr_state <$> fg_active g ∈ [Some ARMED; Some REACHED])
      then (Raise RuntimeError, g)
      else
        let f := mkFaultRun uid kind checkpoint (fg_timeout g) ARMED now None None None [] [] in
        (Ok f, mkGate (fg_timeout g) (Some f) (Some (length (fg_events g))) (fg_events g ++ [false]))
  end.

Section Gate.
Variable repr : json → string.

Definition sha_text (v : json) : bool := String.prefix "sha256:" (py_str_or_empty repr v).

(** The exact mutation a post-success fault waits for. *)
Definition success_matches (kind : string) (details : odict string json) : bool :=
  match dget kind POST_SUCCESS_FAULT_MATCH with
  | None => true
  | Some (path, role) =>
      py_eqb (jget "path" details) (JStr path) && py_eqb (jget "route_role" details) (JStr role)
      && py_bool (jget "request_id" details)
      && match jget "endpoint_ref" details with JObj _ => true | _ => false end
      && match jget "response_status" details with
         | JInt z => bool_decide (200 ≤ z < 300) | _ => false end
      && sha_text (jget "request_digest" details) && sha_text (jget "response_digest" details)
  end.
Definition cleanup_matches (kind : string) (details : odict string json) : bool :=
  if String.prefix "finalize_response_loss_" kind then
    py_bool (jget "cleanup_id" details) && py_bool (jget "cleanup_operation_id" details)
    && match jget "endpoint_ref" details with
       | JObj ref => py_eqb (jget "cleanup_operation_id" details) (jget "operation_id" ref)
       | _ => false end
    && py_bool (jget "cleanup_lease_id" details) && sha_text (jget "cleanup_payload_digest" details)
  else true.

(** Whether an arrival consumes the gate. *)
Definition consumes (checkpoint : string) (details : odict string json) f : bool :=
  bool_decide (fr_state f = ARMED) && bool_decide (fr_checkpoint f = checkpoint)
  && success_matches (fr_kind f) details && cleanup_matches (fr_kind f) details.

(** The first critical section of [arrive]: [None] when the gate lets the
    caller pass, else the event and the run the caller now waits on. *)
Definition arrive (checkpoint : string) (details : odict string json) (now : Z) :
    method FaultInjectionGate (option (nat * string)) := λ g,
  match fg_active g with
  | None => (Ok None, g)
  | Some f =>
      if negb (consumes checkpoint details f) then (Ok None, g)
      else match fg_release g with
           | None => (Raise AssertionError, g)
           | Some e => (Ok (Some (e, fr_run_id f)), set_run (with_reached now details f) g)
           end
  end.

(** How [wait_for] ends. *)
Inductive WaitEnd := WaitReleased | WaitTimeout | WaitCancelled.

(** [if active is not None and active.get("fault_run_id") == run: ...] *)
Definition on_run (run : string) (h : FaultRun → FaultRun) g : FaultInjectionGate :=
  match fg_active g with
  | Some f => if bool_decide (fr_run_id f = run) then set_run (h f) g else g
  | None => g
  end.

(** The last critical section of [arrive]. *)
Definition arrive_end (run : string) (w : WaitEnd) (now : Z) :
    method FaultInjectionGate (option FaultRun) := λ g,
  match w with
  | WaitTimeout => (Raise RuntimeError, on_run run (with_state EXPIRED) g)
  | WaitCancelled => (Raise CancelledError, on_run run (with_state CANCELLED) g)
  | WaitReleased =>
      let g' := on_run run (λ f, if bool_decide (fr_state f = SEALED) then f
                                 else with_released now f) g in
      (Ok (match fg_active g' with
           | Some f => if bool_decide (fr_run_id f = run) then Some f else None
           | None => None
           end), g')
  end.

Definition release (run : string) : method FaultInjectionGate FaultRun := λ g,
  match fg_active g with
  | Some f =>
      if bool_decide (fr_run_id f ≠ run) then (Raise KeyError, g)
      else if bool_decide (fr_state f ≠ REACHED) then (Raise RuntimeError, g)
      else match fg_release g with
           | None => (Raise AssertionError, g)
           | Some e => (Ok f, set_event (Some e) g)
           end
  | None => (Raise KeyError, g)
  end.

Definition snapshot g : option FaultRun := fg_active g.

(** *** Events *)

Definition text_set (v : json) : gset string :=
  if py_bool v then {[py_str repr v]} else ∅.
(** [ref.get("operation_id")] of a reference among the details *)
Definition ref_operation (v : json) : gset string :=
  match v with JObj ref => text_set (jget "operation_id" ref) | _ => ∅ end.

Definition active_operation_ids (details : odict string json) : gset string :=
  (if truthy (py_str_or_empty repr (jget "request_id" details))
   then {[py_str_or_empty repr (jget "request_id" details)]} else ∅)
  ∪ ref_operation (jget "source_endpoint_ref" details)
  ∪ ref_operation (jget "target_endpoint_ref" details)
  ∪ ref_operation (jget "endpoint_ref" details).
Definition observed_operation_ids (details : odict string json) : gset string :=
  match jget "operation_ids" details with
  | JList l => list_to_set (py_str repr <$> l)
  | _ => ∅
  end
  ∪ text_set (jget "operation_id" details) ∪ text_set (jget "request_id" details).

Definition producer_epoch (details : odict string json) : string :=
  match (match jget "source_endpoint_ref" details with
         | JObj ref => JObj ref | _ => jget "endpoint_ref" details end) with
  | JObj ref => py_str_or_empty repr (jget "owner_generation" ref)
  | _ => ""
  end.

(** Whether an observed event belongs to a run. *)
Definition accepts_event (details : odict string json) f : bool :=
  bool_decide (fr_state f ∈ [REACHED; RELEASED; CANCELLED])
  && (bool_decide (active_operation_ids (fr_details f) = ∅)
      || bool_decide (active_operation_ids (fr_details f) ∩ observed_operation_ids details ≠ ∅))
  && truthy (producer_epoch (fr_details f)).

Definition record_event (name : string) (details : odict string json) (now : Z) g :
    FaultInjectionGate :=
  match fg_active g with
  | None => g
  | Some f =>
      if negb (accepts_event details f) then g
      else
        let f' := with_event (mkGateEvent name now (producer_epoch (fr_details f)) details) f in
        if bool_decide (name = "slot_released")
        then set_event (fg_release g) (set_run (with_sealed now f') g)
        else set_run f' g
  end.
End Gate.

(** ** Reachable gates

    Beside the gate: the run ids [uuid4] has given, the runs that were
    consumed, in order, and the arrivals still waiting, each with its event
    and its run. *)
Section Reach.
Variable repr : json → string.

Inductive gate_reach : gset string → list string → list (nat * string) → FaultInjectionGate → Prop :=
| gr_new t g : new_FaultInjectionGate t = Ok g → gate_reach ∅ [] [] g
| gr_arm U L W g kind uid now :
    gate_reach U L W g → uid ∉ U → gate_reach ({[uid]} ∪ U) L W (arm kind uid now g).2
| gr_pass U L W g c d now x g' :
    gate_reach U L W g → arrive repr c d now g = (x, g') → (∀ w, x ≠ Ok (Some w)) →
    gate_reach U L W g'
| gr_wait U L W g c d now w g' :
    gate_reach U L W g → arrive repr c d now g = (Ok (Some w), g') →
    gate_reach U (L ++ [w.2]) (W ++ [w]) g'
| gr_end U L W g w e now :
    gate_reach U L W g → w ∈ W → (e = WaitReleased → fg_events g !! w.1 = Some true) →
    gate_reach U L (filter (λ w', w' ≠ w) W) (arrive_end w.2 e now g).2
| gr_release U L W g run :
    gate_reach U L W g → gate_reach U L W (release run g).2
| gr_event U L W g name d now :
    gate_reach U L W g → gate_reach U L W (record_event repr name d now g).

Definition event_ok f (e : GateEvent) : Prop :=
  ge_producer_epoch e = producer_epoch repr (fr_details f) ∧ ge_producer_epoch e ≠ ""
  ∧ (active_operation_ids repr (fr_details f) = ∅
     ∨ active_operation_ids repr (fr_details f) ∩ observed_operation_ids repr (ge_details e) ≠ ∅).

(** What an untouched run, or one an arrival consumed, looks like. *)
Definition untouched f : Prop :=
  fr_reached_at f = None ∧ fr_released_at f = None ∧ fr_sealed_at f = None
  ∧ fr_details f = [] ∧ fr_events f = [].
Definition consumed_ok f : Prop :=
  fr_reached_at f ≠ None ∧ success_matches repr (fr_kind f) (fr_details f) = true
  ∧ cleanup_matches repr (fr_kind f) (fr_details f) = true
  ∧ Forall (event_ok f) (fr_events f)
  ∧ (fr_state f = SEALED → fr_sealed_at f ≠ None)
  ∧ (fr_sealed_at f ≠ None → ∃ e, e ∈ fr_events f ∧ ge_name e = "slot_released").

Record run_inv (U : gset string) (L : list string) (W : list (nat * string)) g f : Prop := {
  ri_used : fr_run_id f ∈ U;
  ri_kind : dget (fr_kind f) FAULT_CHECKPOINTS = Some (fr_checkpoint f);
  ri_armed : fr_state f = ARMED → untouched f ∧ fr_run_id f ∉ L;
  ri_consumed : fr_state f ≠ ARMED → consumed_ok f ∧ fr_run_id f ∈ L;
  ri_event : is_Some (fg_release g ≫= λ e, fg_events g !! e);
  ri_pending : fr_state f = REACHED → fr_run_id f ∈ W.*2;
  ri_own : ∀ w, w ∈ W → w.2 = fr_run_id f → fg_release g = Some w.1;
  ri_released : fr_released_at f ≠ None → fg_release g ≫= (λ e, fg_events g !! e) = Some true;
  ri_shut : fr_state f = ARMED → fg_release g ≫= (λ e, fg_events g !! e) = Some false }.

Record gate_inv (U : gset string) (L : list string) (W : list (nat * string)) g : Prop := {
  gi_once : NoDup L;
  gi_waiting : NoDup W.*2;
  gi_log : ∀ id, id ∈ W.*2 → id ∈ L;
  gi_used : ∀ id, id ∈ L → id ∈ U;
  gi_run : ∀ f, fg_active g = Some f → run_inv U L W g f }.

Lemma gate_inv_used U U' L W g : U ⊆ U' → gate_inv U L W g → gate_inv U' L W g.
Proof. intros HU [? ? ? ? Hr]. split; eauto. intros f Hf. destruct (Hr f Hf). split; eauto. Qed.

Lemma arm_inv U L W g kind uid now :
  uid ∉ U → gate_inv U L W g → gate_inv ({[uid]} ∪ U) L W (arm kind uid now g).2.
Proof.
  intros Hu Hg. pose proof (gate_inv_used U ({[uid]} ∪ U) L W g ltac:(set_solver) Hg) as Hg'.
  unfold arm. destruct (dget kind FAULT_CHECKPOINTS) as [cp|] eqn:Hk; [|done].
  case_bool_decide; [done|]. destruct Hg' as [? ? Hl HU _]. split; try done.
  intros f [= <-]. assert (uid ∉ L) as HuL by (intros Hin; by apply Hu, (gi_used _ _ _ _ Hg)).
  assert (∀ b : bool, (fg_events g ++ [b]) !! length (fg_events g) = Some b) as He.
  { intros b. by apply list_lookup_middle. }
  split; simpl; rewrite ?He; try done; [set_solver|].
  intros w Hw Heq. exfalso. apply HuL, Hl. rewrite <- Heq. by apply list_elem_of_fmap_2.
Qed.

Lemma consumes_true c d f :
  consumes repr c d f = true →
  fr_state f = ARMED ∧ success_matches repr (fr_kind f) d = true
  ∧ cleanup_matches repr (fr_kind f) d = true.
Proof.
  unfold consumes. rewrite !andb_true_iff, !bool_decide_eq_true. tauto.
Qed.

(** The invariant of the run carries over to a gate that differs in it only. *)
Lemma gate_inv_set_run U L W W' g f f' :
  gate_inv U L W g → fg_active g = Some f → NoDup W'.*2 → (∀ w, w ∈ W' → w ∈ W) →
  (run_inv U L W g f → run_inv U L W' (set_run f' g) f') → gate_inv U L W' (set_run f' g).
Proof.
  intros [H1 H2 H3 H4 H5] Hf Hn Hs Hr. split; try done.
  - intros id (w & -> & Hw)%list_elem_of_fmap. apply H3, list_elem_of_fmap_2, Hs, Hw.
  - intros f0 [= <-]. apply Hr, H5, Hf.
Qed.

Lemma arrive_inv U L W g c d now x g' :
  gate_inv U L W g → arrive repr c d now g = (x, g') →
  match x with
  | Ok (Some w) => gate_inv U (L ++ [w.2]) (W ++ [w]) g'
  | _ => g' = g
  end.
Proof.
  intros Hg. unfold arrive. destruct (fg_active g) as [f|] eqn:Hf; [|by intros [= <- <-]].
  destruct (consumes repr c d f) eqn:Hc; simpl; [|by intros [= <- <-]].
  destruct (fg_release g) as [e|] eqn:Hr; [|by intros [= <- <-]]. intros [= <- <-]. simpl.
  apply consumes_true in Hc as (Hst & Hsm & Hcm). destruct Hg as [H1 H2 H3 H4 H5].
  destruct (H5 f Hf) as [Hu Hk Ha _ He _ Ho _ Hsh].
  destruct (Ha Hst) as ((_ & Hrel & Hseal & _ & Hev) & HL).
  assert (fr_run_id f ∉ W.*2) as HW by (intros Hin; by apply HL, H3).
  rewrite Hr in *. split.
  - apply NoDup_app. split_and!; [done|set_solver|apply NoDup_singleton].
  - rewrite fmap_app. apply NoDup_app. split_and!; [done|set_solver|apply NoDup_singleton].
  - intros id. rewrite fmap_app, !elem_of_app. simpl. set_solver.
  - intros id. rewrite elem_of_app, list_elem_of_singleton. intros [?| ->]; eauto.
  - intros f0 [= <-]. split; simpl; rewrite ?Hr; try done.
    + intros _. split; [|set_solver]. rewrite <- Hst in *.
      split_and!; simpl; rewrite ?Hev, ?Hseal; try done.
    + intros _. rewrite fmap_app. set_solver.
    + intros w [Hw|Hw]%elem_of_app Heq; [by apply Ho|].
      by apply list_elem_of_singleton in Hw as ->.
Qed.

Lemma consumed_with_state x f : x ≠ SEALED → consumed_ok f → consumed_ok (with_state x f).
Proof. intros Hx (?&?&?&?&?&?). split_and!; simpl; try done. Qed.
Lemma consumed_with_released now f : consumed_ok f → consumed_ok (with_released now f).
Proof. intros (?&?&?&?&?&?). split_and!; simpl; try done. Qed.

(** An ended wait leaves every other run alone; its own run is no longer
    pending. *)
Lemma on_run_inv U L W g w h :
  gate_inv U L W g → w ∈ W →
  (∀ f, fg_active g = Some f → fr_run_id f = w.2 → run_inv U L W g f →
     fr_run_id (h f) = fr_run_id f ∧ fr_kind (h f) = fr_kind f
     ∧ fr_checkpoint (h f) = fr_checkpoint f ∧ (fr_state (h f) ∉ [ARMED; REACHED])
     ∧ consumed_ok (h f)
     ∧ (fr_released_at (h f) ≠ None → fg_release g ≫= (λ e, fg_events g !! e) = Some true)) →
  gate_inv U L (filter (λ w', w' ≠ w) W) (on_run w.2 h g).
Proof.
  intros Hg Hw Hh. pose proof Hg as [H1 H2 H3 H4 H5].
  assert (NoDup (filter (λ w', w' ≠ w) W).*2) as Hn.
  { clear -H2. induction W as [|x W IH]; [done|]. apply NoDup_cons in H2 as [Hx H2].
    rewrite filter_cons. case_decide; [|by apply IH]. apply NoDup_cons. split; [|by apply IH].
    intros (y & E & [_ Hy]%list_elem_of_filter)%list_elem_of_fmap. apply Hx. rewrite E.
    by apply list_elem_of_fmap_2. }
  assert (∀ w', w' ∈ filter (λ w', w' ≠ w) W → w' ∈ W) as Hs by (intros w'; by rewrite list_elem_of_filter; intros []).
  unfold on_run. destruct (fg_active g) as [f|] eqn:Hf.
  2:{ split; try done; [|by rewrite Hf].
      intros id (w' & -> & Hw')%list_elem_of_fmap. by apply H3, list_elem_of_fmap_2, Hs. }
  case_bool_decide as Hid.
  - apply (gate_inv_set_run U L W _ g f); try done. intros Hr.
    destruct (Hh f eq_refl Hid Hr) as (Ei & Ek & Ec & Es & Hc & Hrel).
    rewrite !not_elem_of_cons in Es. destruct Es as (Es1 & Es2 & _).
    pose proof Hr as [Hu Hk Ha Hco He _ Ho _ _]. split; simpl; rewrite ?Ei, ?Ek, ?Ec; try done.
    + intros _. split; [done|]. rewrite Hid. by apply H3, list_elem_of_fmap_2.
    + intros w' Hw'. by apply Ho, Hs.
  - split; try done.
    + intros id (w' & -> & Hw')%list_elem_of_fmap. by apply H3, list_elem_of_fmap_2, Hs.
    + rewrite Hf. intros f0 [= <-]. destruct (H5 f eq_refl) as [Hu Hk Ha Hco He Hp Ho Hre Hsh].
      split; try done.
      * intros E. specialize (Hp E). apply list_elem_of_fmap in Hp as (w' & Ew & Hw').
        rewrite Ew. apply list_elem_of_fmap_2, list_elem_of_filter. split; [|done]. intros ->. by apply Hid.
      * intros w' Hw'. by apply Ho, Hs.
Qed.

Lemma arrive_end_inv U L W g w e now :
  gate_inv U L W g → w ∈ W → (e = WaitReleased → fg_events g !! w.1 = Some true) →
  gate_inv U L (filter (λ w', w' ≠ w) W) (arrive_end w.2 e now g).2.
Proof.
  intros Hg Hw He.
  assert (∀ f, fr_run_id f = w.2 → run_inv U L W g f → consumed_ok f ∧ fr_state f ≠ ARMED) as Hc.
  { intros f Hid Hr. assert (fr_state f ≠ ARMED) as Hna.
    { intros Ha. destruct (ri_armed _ _ _ _ _ Hr Ha) as [_ HL]. apply HL. rewrite Hid.
      by apply (gi_log _ _ _ _ Hg), list_elem_of_fmap_2. }
    split; [|done]. by apply (ri_consumed _ _ _ _ _ Hr). }
  destruct e; simpl; apply on_run_inv; try done; intros f _ Hid Hr; destruct (Hc f Hid Hr) as [Hco Hna].
  - assert (fg_release g ≫= (λ e, fg_events g !! e) = Some true) as Hset.
    { rewrite (ri_own _ _ _ _ _ Hr w Hw (eq_sym Hid)). simpl. by apply He. }
    case_bool_decide as Hs; [rewrite Hs|]; split_and!; try done;
      [set_solver|simpl; set_solver|by apply consumed_with_released].
  - split_and!; try done; [simpl; set_solver|by apply consumed_with_state|apply Hr].
  - split_and!; try done; [simpl; set_solver|by apply consumed_with_state|apply Hr].
Qed.

Lemma release_inv U L W g run : gate_inv U L W g → gate_inv U L W (release run g).2.
Proof.
  intros Hg. pose proof Hg as [H1 H2 H3 H4 H5]. unfold release.
  destruct (fg_active g) as [f|] eqn:Hf; [|done]. case_bool_decide; [done|].
  case_bool_decide as Hst; [done|].
  destruct (fg_release g) as [e|] eqn:Hr; [|done]. split; try done. simpl. rewrite Hf. intros f0 [= <-].
  destruct (H5 f eq_refl) as [Hu Hk Ha Hco He Hp Ho Hre Hsh]. rewrite Hr in *. simpl in *.
  apply lookup_lt_is_Some in He.
  split; simpl; rewrite ?Hr; simpl; rewrite ?list_lookup_insert_eq by done; try done.
  congruence.
Qed.

Lemma accepts_event_true d f :
  accepts_event repr d f = true →
  fr_state f ∈ [REACHED; RELEASED; CANCELLED] ∧ producer_epoch repr (fr_details f) ≠ ""
  ∧ (active_operation_ids repr (fr_details f) = ∅
     ∨ active_operation_ids repr (fr_details f) ∩ observed_operation_ids repr d ≠ ∅).
Proof.
  unfold accepts_event. rewrite !andb_true_iff, orb_true_iff, !bool_decide_eq_true, truthy_true. tauto.
Qed.

Lemma consumed_with_event name now d f :
  accepts_event repr d f = true → consumed_ok f →
  consumed_ok (with_event (mkGateEvent name now (producer_epoch repr (fr_details f)) d) f).
Proof.
  intros (_ & Hpe & Hops)%accepts_event_true (?&?&?&Hev&Hs1&Hs2). split_and!; simpl; try done.
  - apply Forall_app. split; [done|]. by apply Forall_singleton.
  - intros Hn. destruct (Hs2 Hn) as (e & He & En). exists e. split; [|done]. apply elem_of_app. by left.
Qed.

Lemma record_event_inv U L W g name d now :
  gate_inv U L W g → gate_inv U L W (record_event repr name d now g).
Proof.
  intros Hg. pose proof Hg as [H1 H2 H3 H4 H5]. unfold record_event.
  destruct (fg_active g) as [f|] eqn:Hf; [|done].
  destruct (accepts_event repr d f) eqn:Hacc; simpl; [|done].
  pose proof (accepts_event_true _ _ Hacc) as (Hst & _ & _).
  assert (fr_state f ≠ ARMED) as Hna by (intros E; rewrite E in Hst; set_solver).
  destruct (H5 f eq_refl) as [Hu Hk Ha Hco He Hp Ho Hre Hsh]. destruct (Hco Hna) as [Hc HL].
  pose proof (consumed_with_event name now d f Hacc Hc) as Hc'. case_bool_decide as Hn.
  - destruct (fg_release g) as [e|] eqn:Hr; simpl in He; [|by destruct He].
    apply lookup_lt_is_Some in He. split; try done. intros f0 [= <-].
    split; simpl; rewrite ?Hr; simpl; rewrite ?list_lookup_insert_eq by done; try done.
    intros _. split; [|done]. destruct Hc' as (?&?&?&?&?&?). split_and!; try done.
    intros _. eexists. split; [apply elem_of_app; right; by apply list_elem_of_singleton|done].
  - split; try done. intros f0 [= <-]. split; simpl; try done.
Qed.

Lemma gate_reach_inv U L W g : gate_reach U L W g → gate_inv U L W g.
Proof.
  induction 1 as [t g Hn|U L W g kind uid now _ IH Hu|U L W g c d now x g' _ IH Ha Hx
    |U L W g c d now w g' _ IH Ha|U L W g w e now _ IH Hw He|U L W g run _ IH|U L W g name d now _ IH].
  - unfold new_FaultInjectionGate in Hn. apply need_then in Hn as [_ [= <-]].
    split; try done; try constructor; set_solver.
  - by apply arm_inv.
  - pose proof (arrive_inv _ _ _ _ _ _ _ _ _ IH Ha) as Hi.
    destruct x as [[w|]|]; [by destruct (Hx w)|by subst..].
  - exact (arrive_inv _ _ _ _ _ _ _ _ _ IH Ha).
  - by apply arrive_end_inv.
  - by apply release_inv.
  - by apply record_event_inv.
Qed.

(** C40: The fault gate is one-shot.  Along every interleaving of its
    operations each run is consumed by at most one arrival and at most one
    arrival waits on a run; a run that was reached records the details of a
    request that matches its fault kind and only events of that request's
    operations, stamped with its owner generation; it is sealed only by the
    observed release of a slot; it counts as released only after its event
    was set; and while it is armed its event is not set and nothing was
    recorded. *)
Theorem fault_gate_one_shot U L W g :
  gate_reach U L W g →
  NoDup L ∧ NoDup W.*2 ∧ (∀ id, id ∈ W.*2 → id ∈ L)
  ∧ ∀ f, fg_active g = Some f →
      dget (fr_kind f) FAULT_CHECKPOINTS = Some (fr_checkpoint f)
      ∧ (fr_state f = ARMED → untouched f ∧ (fr_run_id f ∉ L)
           ∧ fg_release g ≫= (λ e, fg_events g !! e) = Some false)
      ∧ (fr_state f ≠ ARMED → consumed_ok f ∧ fr_run_id f ∈ L)
      ∧ (fr_state f = REACHED → fr_run_id f ∈ W.*2)
      ∧ (fr_released_at f ≠ None → fg_release g ≫= (λ e, fg_events g !! e) = Some true).
Proof.
  intros [H1 H2 H3 _ Hr]%gate_reach_inv. split_and!; [done|done|exact H3|].
  intros f Hf. destruct (Hr f Hf) as [_ Hk Ha Hc _ Hp _ Hre Hsh]. split_and!; try done.
  intros Hst. destruct (Ha Hst). auto.
Qed.
End Reach.

(** ** A run of the gate *)

Module Demo.
Definition repr (v : json) : string := "".
Definition ref : json := JObj [("operation_id", JStr "op-1"); ("owner_generation", JStr "gen-1")].
Definition details : odict string json :=
  [("request_id", JStr "r1"); ("source_endpoint_ref", ref)].
Definition gate0 : FaultInjectionGate := mkGate 300 None None [].
Definition gate1 := (arm "worker_crash" "run-1" 10 gate0).2.
Definition gate2 := (arrive repr "before_nccl_source_start" details 20 gate1).2.
Definition gate3 := record_event repr "slot_released" [("operation_id", JStr "op-1")] 30 gate2.
Definition gate4 := (arrive_end "run-1" WaitReleased 40 gate3).2.

(** A cancellation that lands between the seal and the waiter's next turn. *)
Definition late_cancel := (arrive_end "run-1" WaitCancelled 40 gate3).2.

Lemma gate4_reached : gate_reach repr {["run-1"]} ["run-1"] [] gate4.
Proof.
  pose proof (gr_new repr 300 gate0 eq_refl) as H0.
  pose proof (gr_arm repr _ _ _ _ "worker_crash" "run-1" 10 H0 ltac:(set_solver)) as H1.
  pose proof (gr_wait repr _ _ _ _ "before_nccl_source_start" details 20 (0%nat, "run-1") gate2 H1 eq_refl) as H2.
  pose proof (gr_event repr _ _ _ _ "slot_released" [("operation_id", JStr "op-1")] 30 H2) as H3.
  pose proof (gr_end repr _ _ _ _ (0%nat, "run-1") WaitReleased 40 H3
    ltac:(apply list_elem_of_singleton; done) ltac:(intros _; vm_compute; reflexivity)) as H4.
  rewrite union_empty_r_L in H4. exact H4.
Qed.
End Demo.

Lemma fault_gate_one_shot_witness :
  ∃ f, fg_active Demo.gate4 = Some f ∧ fr_state f = SEALED ∧ consumed_ok Demo.repr f.
Proof.
  destruct (fault_gate_one_shot Demo.repr {["run-1"]} ["run-1"] [] Demo.gate4 Demo.gate4_reached)
    as (_ & _ & _ & Hf).
  destruct (fg_active Demo.gate4) as [f|] eqn:Ef; [|vm_compute in Ef; discriminate].
  exists f. assert (fr_state f = SEALED) as Hs.
  { vm_compute in Ef. injection Ef as <-. reflexivity. }
  split; [reflexivity|]. split; [exact Hs|].
  destruct (Hf f eq_refl) as (_ & _ & Hc & _). apply Hc. rewrite Hs. discriminate.
Defined.

(** A run that the observed slot release has sealed is overwritten when its
    waiter is cancelled before it runs again: only the released ending tests
    for the seal. *)
Lemma sealed_run_is_overwritten :
  fr_state <$> fg_active Demo.gate3 = Some SEALED
  ∧ fr_state <$> fg_active Demo.late_cancel = Some CANCELLED.
Proof. vm_compute. done. Qed.
