(* ===== verification/Admission.v ===== *)
(** * Admission (gateway/app.py)

    Whether the gateway takes traffic: the readiness and liveness handlers,
    the gates they read, the refresh of the worker world, the fence around a
    topology replacement and the supervision of the background tasks.  Tasks
    and registries are named by numbers, so that [is] compares names; the
    refresh is split at its awaits, where other handlers run. *)

From S2P Require Import Prelude PyDict Json WorkerRegistry ReplacementStore Reconciler TopologyAdmin Queue.
From stdpp Require Import prelude gmap strings.
From Stdlib Require Import Ascii QArith_base.

Local Open Scope Z_scope.

#[local] Instance result_fmap {X} : FMap (result X) := λ A B h m,
  match m with Ok v => Ok (h v) | Raise e => Raise e end.

Section Admission.
Context {E : Type}.

Record AppState := mkAppState {
  ap_multinode : bool;
  ap_affinity : bool;
  ap_accepting : bool;
  ap_worker_rpc_ready : bool;
  ap_control_plane_failed : bool;
  ap_acceptance_required : bool;
  ap_pending_generation : option string;
  ap_acceptance_task : option nat;
  ap_reconciler_replacement_task : option nat;
  ap_resource_task : option nat;
  ap_reconciler_task : option nat;
  ap_loop_task : option nat;
  (** the tasks for which [done()] holds *)
  ap_done : gset nat;
  ap_queue : option NATSQueue;
  (** the registry objects, and the one the application holds *)
  ap_registries : gmap nat WorkerRegistry;
  ap_registry : option nat;
  (** [topology_admin.registry] *)
  ap_ledger : option nat;
  ap_store : option ReplacementDecisionStore;
  ap_publication : option PrefixWorldPublication;
  ap_reconciler : option (@PrefixReconciler E) }.
Implicit Types (a : AppState).

#[export] Instance AppState_eta : Eta AppState := λ a,
  mkAppState (ap_multinode a) (ap_affinity a) (ap_accepting a) (ap_worker_rpc_ready a)
    (ap_control_plane_failed a) (ap_acceptance_required a) (ap_pending_generation a)
    (ap_acceptance_task a) (ap_reconciler_replacement_task a) (ap_resource_task a)
    (ap_reconciler_task a) (ap_loop_task a) (ap_done a) (ap_queue a) (ap_registries a)
    (ap_registry a) (ap_ledger a) (ap_store a) (ap_publication a) (ap_reconciler a).

Definition set_accepting (v : bool) a : AppState := ltac:(with_field a ap_accepting v).
Definition set_rpc_ready (v : bool) a : AppState := ltac:(with_field a ap_worker_rpc_ready v).
Definition set_failed (v : bool) a : AppState := ltac:(with_field a ap_control_plane_failed v).
Definition set_required (v : bool) a : AppState := ltac:(with_field a ap_acceptance_required v).
Definition set_pending (v : option string) a : AppState := ltac:(with_field a ap_pending_generation v).
Definition set_acceptance_task (v : option nat) a : AppState := ltac:(with_field a ap_acceptance_task v).
Definition set_replacement_task (v : option nat) a : AppState :=
  ltac:(with_field a ap_reconciler_replacement_task v).
Definition set_registries (v : gmap nat WorkerRegistry) a : AppState := ltac:(with_field a ap_registries v).
Definition set_publication (v : option PrefixWorldPublication) a : AppState :=
  ltac:(with_field a ap_publication v).
Definition set_reconciler (v : option (@PrefixReconciler E)) a : AppState :=
  ltac:(with_field a ap_reconciler v).

(** [getattr(app.state, "worker_registry", None)] *)
Definition current_registry a : option WorkerRegistry := ap_registry a ≫= λ i, ap_registries a !! i.
Definition task_done (t : nat) a : bool := bool_decide (t ∈ ap_done a).
(** [task is not None and not task.done()] *)
Definition task_running (t : option nat) a : bool :=
  match t with Some t => negb (task_done t a) | None => false end.

(** ** The gates *)

Definition replacement_store_allows_admission a : bool :=
  match ap_store a with None => true | Some s => store_ready s && transition_closed s end.

Definition worker_rpc_allows_admission a : bool :=
  if negb (ap_multinode a) then true else ap_worker_rpc_ready a.

Definition topology_acceptance_allows_admission a : bool := negb (ap_acceptance_required a).

Definition expected_reconciler_replacement_active a : bool :=
  ap_acceptance_required a
  && match ap_reconciler_replacement_task a with
     | Some t => bool_decide (ap_acceptance_task a = Some t) && negb (task_done t a)
     | None => false
     end.

Definition background_control_plane_tasks_healthy (allow_reconciler_transition : bool) a : bool :=
  if ap_control_plane_failed a then false
  else if negb (ap_multinode a) then true
  else if negb (task_running (ap_resource_task a) a) then false
  else if negb (ap_affinity a) then true
  else match ap_reconciler_task a with
       | None => false
       | Some t => negb (task_done t a)
                   || (allow_reconciler_transition && expected_reconciler_replacement_active a)
       end.

(** [{name: identity.instance_epoch for ... in registry.members.items()}] *)
Definition expected_epochs (r : WorkerRegistry) : odict string string :=
  (λ kw, (kw.1, wi_instance_epoch kw.2)) <$> map_to_list (members r).

Definition prefix_world_allows_admission a : bool :=
  if negb (ap_multinode a && ap_affinity a) then true
  else
    match current_registry a, ap_reconciler a with
    | Some r, Some rc =>
        task_running (ap_reconciler_task a) a
        && match (match rc_publication rc with Some p => Some p | None => ap_publication a end) with
           | None => false
           | Some publication =>
               bool_decide (dom (members r) = dom EXPECTED_MEMBERS)
               && matches publication (expected_epochs r) && world_ready (expected_epochs r) rc
           end
    | _, _ => false
    end.

(** [registry.world_fresh()] at the clock [now]; without a registry the test
    is skipped. *)
Definition registry_fresh (now : Z) a : bool :=
  match current_registry a with None => true | Some r => reg_world_fresh r now end.
Definition queue_connected a : bool :=
  match ap_queue a with None => false | Some q => is_connected q end.

(** The handlers: [closed] is the connection's own [is_closed]. *)
Definition healthz (closed : bool) a : bool :=
  negb (ap_control_plane_failed a
        || match ap_queue a with None => false | Some q => is_permanently_closed closed q end
        || negb (background_control_plane_tasks_healthy true a)).

Definition readyz (now : Z) a : bool :=
  ap_accepting a && task_running (ap_loop_task a) a && queue_connected a && registry_fresh now a
  && worker_rpc_allows_admission a && prefix_world_allows_admission a
  && background_control_plane_tasks_healthy false a.

(** The test at the head of [chat_completions]. *)
Definition admits (now : Z) a : bool :=
  ap_accepting a && queue_connected a && registry_fresh now a && worker_rpc_allows_admission a
  && prefix_world_allows_admission a && background_control_plane_tasks_healthy false a.

(** ** The fence around a replacement *)

Definition begin_topology_acceptance (generation : string) : method AppState unit := λ a,
  if negb (truthy generation) then (Raise ValueError, a)
  else if ap_acceptance_required a && bool_decide (ap_pending_generation a ≠ Some generation)
  then (Raise ValueError, a)
  else (Ok tt, set_accepting false (set_pending (Some generation) (set_required true a))).

Definition complete_topology_acceptance (generation : string) : method AppState unit := λ a,
  if ap_acceptance_required a && bool_decide (ap_pending_generation a ≠ Some generation)
  then (Raise ValueError, a)
  else (Ok tt, set_pending None (set_required false a)).

(** The checks of [_finalize_topology_acceptance]. *)
Definition acceptance_gates (generation : string) (now : Z) a : result exn unit :=
  _ ← need (ap_acceptance_required a);
  _ ← need (bool_decide (ap_pending_generation a = Some generation));
  match current_registry a with
  | None => Raise ValueError
  | Some r =>
      _ ← need (bool_decide (expected_topology_generation r = generation));
      _ ← need (match ap_ledger a with Some l => bool_decide (ap_registry a = Some l) | None => true end);
      _ ← need (reg_world_fresh r now);
      if negb (replacement_store_allows_admission a) then Raise RuntimeError
      else if negb (prefix_world_allows_admission a) then Raise RuntimeError
      else if ap_control_plane_failed a
              || match ap_loop_task a with Some t => task_done t a | None => false end
      then Raise RuntimeError
      else if negb (background_control_plane_tasks_healthy false a) then Raise RuntimeError
      else Ok tt
  end.

Definition finalize_topology_acceptance (generation : string) (now : Z) : method AppState unit := λ a,
  match acceptance_gates generation now a with
  | Raise e => (Raise e, a)
  | Ok _ =>
      match complete_topology_acceptance generation a with
      | (Raise e, a') => (Raise e, a')
      | (Ok _, a') => (Ok tt, set_accepting true a')
      end
  end.

(** [current] is [asyncio.current_task()]. *)
Definition begin_expected_reconciler_replacement (reconciler_task : nat) (current : option nat) :
    method AppState unit := λ a,
  if task_done reconciler_task a then (Raise RuntimeError, a)
  else match current with
  | None => (Raise RuntimeError, a)
  | Some t =>
      if bool_decide (ap_acceptance_task a ≠ Some t) then (Raise RuntimeError, a)
      else if match ap_reconciler_replacement_task a with
              | Some t' => bool_decide (t' ≠ t) && negb (task_done t' a) | None => false end
      then (Raise RuntimeError, a)
      else (Ok tt, set_replacement_task (Some t) a)
  end.

Definition finish_expected_reconciler_replacement (acceptance current : option nat) a : AppState :=
  match (match acceptance with Some t => Some t | None => current end) with
  | Some t => if bool_decide (ap_reconciler_replacement_task a = Some t)
              then set_replacement_task None a else a
  | None => a
  end.

(** [_accept_replacement_topology] around its implementation. *)
Definition enter_acceptance (current : option nat) : method AppState unit := λ a,
  match current with
  | None => (Raise RuntimeError, a)
  | Some t =>
      if match ap_acceptance_task a with
         | Some t' => bool_decide (t' ≠ t) && negb (task_done t' a) | None => false end
      then (Raise RuntimeError, a)
      else (Ok tt, set_acceptance_task (Some t) a)
  end.
Definition leave_acceptance (t : nat) a : AppState :=
  let a' := finish_expected_reconciler_replacement (Some t) None a in
  if bool_decide (ap_acceptance_task a' = Some t) then set_acceptance_task None a' else a'.

(** ** Supervision *)

Definition clear_publication (rc : @PrefixReconciler E) : @PrefixReconciler E :=
  mkPrefixReconciler (rc_index rc) (rc_consumer_id rc) (rc_generation rc) (rc_owners rc)
    (rc_expected_epochs rc) None (rc_env rc).

(** The done callback of a supervised task. *)
Definition on_control_plane_task_done (cancelled invalidate_prefix : bool) a : AppState :=
  if cancelled then a
  else
    let a1 := set_failed true (set_accepting false a) in
    if invalidate_prefix
    then set_reconciler (clear_publication <$> ap_reconciler a1) (set_publication None a1)
    else a1.
End Admission.
Arguments AppState E : clear implicits.

(** ** The refresh of the worker world *)

(** [s.split("--")] *)
Fixpoint split_dashes (s : string) : list string :=
  match s with
  | EmptyString => [EmptyString]
  | String c s' =>
      match c, s' with
      | "-"%char, String "-"%char rest => EmptyString :: split_dashes rest
      | _, _ => match split_dashes s' with
                | h :: t => String c h :: t
                | [] => [String c EmptyString]
                end
      end
  end.
Definition endpoints (pair_id : string) : gset string := list_to_set (split_dashes pair_id).

(** A capability as it was read, its fields not yet typed. *)
Abbreviation RawCapability := (odict string json).

Definition raw_capability_eqb (c c' : RawCapability) : bool :=
  forallb (λ f, py_eqb (jget f c) (jget f c')) CAPABILITY_FIELDS.
(** [raw == capability] of the dataclass *)
Definition capability_says (c : RawCapability) (p : PairCapability) : bool :=
  py_eqb (jget "pair_id" c) (JStr (pc_pair_id p))
  && py_eqb (jget "source_epoch" c) (JStr (pc_source_epoch p))
  && py_eqb (jget "target_epoch" c) (JStr (pc_target_epoch p))
  && py_eqb (jget "transport" c) (JStr (pc_transport p))
  && py_eqb (jget "probe_generation" c) (JStr (pc_probe_generation p))
  && py_eqb (jget "probe_passed" c) (JBool (pc_probe_passed p))
  && py_eqb (jget "evidence_path" c) (JStr (pc_evidence_path p)).
(** [raw == identity] of the dataclass *)
Definition identity_says (d : odict string json) (w : WorkerIdentity) : bool :=
  py_eqb (jget "instance_id" d) (JStr (wi_instance_id w))
  && py_eqb (jget "role" d) (JStr (wi_role w))
  && py_eqb (jget "topology_generation" d) (JStr (wi_topology_generation w))
  && py_eqb (jget "pod_uid" d) (JStr (wi_pod_uid w))
  && py_eqb (jget "process_generation" d) (JStr (wi_process_generation w))
  && py_eqb (jget "rpc_endpoint" d) (JStr (wi_rpc_endpoint w))
  && py_eqb (jget "global_rank" d) (JInt (wi_global_rank w))
  && py_eqb (jget "topology_digest" d) (JStr (wi_topology_digest w))
  && py_eqb (jget "kv_compatibility_id" d) (JStr (wi_kv_compatibility_id w)).

(** [registry.observe_identity] on untyped fields: looking up an unhashable
    id raises. *)
Definition observe_raw_identity (d : odict string json) : method WorkerRegistry bool := λ r,
  match jget "instance_id" d with
  | JList _ | JObj _ => (Raise TypeError, r)
  | JStr i =>
      match members r !! i with
      | Some w => if identity_says d w then (Ok true, r) else (Ok false, reg_fail r)
      | None => (Ok false, reg_fail r)
      end
  | _ => (Ok false, reg_fail r)
  end.

(** [registry.observe_capabilities] on untyped fields. *)
Definition observe_raw_capabilities (caps : odict string RawCapability) (r : WorkerRegistry) :
    bool * WorkerRegistry :=
  if bool_decide (list_to_set (dkeys caps) = dom (capabilities r))
     && forallb (λ kc, match capabilities r !! kc.1 with
                       | Some p => capability_says kc.2 p | None => false end) caps
  then (true, r) else (false, reg_fail r).

(** The [pairs] of one worker; [None] when one is malformed. *)
Fixpoint read_pairs (instance : string) (l : list json) (acc : odict string RawCapability) :
    option (odict string RawCapability) :=
  match l with
  | [] => Some acc
  | JObj d :: l' =>
      if negb (forallb (λ f, dmem f d) CAPABILITY_FIELDS) then None
      else match jget "pair_id" d with
           | JStr p =>
               if bool_decide (size (endpoints p) = 2%nat) && bool_decide (instance ∈ endpoints p)
               then read_pairs instance l' (dset p d acc) else None
           | _ => None
           end
  | _ :: _ => None
  end.

(** [_collapse_pair_attestations]; [eqb] is the equality of what the workers
    attested. *)
Section Collapse.
Context {C : Type} (eqb : C → C → bool).

Definition collapse_one (pair_id : string) (by_worker : odict string C) :
    result exn (string * C) :=
  if negb (bool_decide (list_to_set (dkeys by_worker) = endpoints pair_id)) then Raise RuntimeError
  else match dvalues by_worker with
       | v0 :: v1 :: _ => if eqb v0 v1 then Ok (pair_id, v0) else Raise RuntimeError
       | _ => Raise IndexError
       end.
Definition collapse_pair_attestations (attestations : odict string (odict string C)) :
    result exn (odict string C) :=
  if negb (bool_decide (list_to_set (dkeys attestations) = EXPECTED_PAIRS)) then Raise RuntimeError
  else mapR (λ kv, collapse_one kv.1 kv.2) attestations.
End Collapse.

(** A refresh in flight: the registry and the capabilities it started from,
    the workers still to ask and what it has found. *)
Record Refresh := mkRefresh {
  rf_registry : nat;
  rf_expected : gmap string PairCapability;
  rf_left : list string;
  rf_complete : bool;
  rf_drift : bool;
  rf_attestations : odict string (odict string RawCapability) }.
Implicit Types (f : Refresh).

Definition next_worker f : Refresh :=
  mkRefresh (rf_registry f) (rf_expected f) (tail (rf_left f)) (rf_complete f) (rf_drift f)
    (rf_attestations f).
Definition incomplete f : Refresh :=
  mkRefresh (rf_registry f) (rf_expected f) (rf_left f) false (rf_drift f) (rf_attestations f).
Definition drifted f : Refresh :=
  mkRefresh (rf_registry f) (rf_expected f) (rf_left f) (rf_complete f) true (rf_attestations f).
Definition attest (instance : string) (pairs : odict string RawCapability) f : Refresh :=
  mkRefresh (rf_registry f) (rf_expected f) (rf_left f) (rf_complete f) (rf_drift f)
    (foldl (λ at_ pc, dset pc.1 (dset instance pc.2 (default [] (dget pc.1 at_))) at_)
       (rf_attestations f) pairs).

Definition worker_pair_ids (instance : string) (expected : gmap string PairCapability) : gset string :=
  filter (λ p, instance ∈ endpoints p) (dom expected).

(** What one worker answered: identity, capabilities, report and the time the
    report arrived. *)
Definition sample : Type := json * json * json * Z.

(** The part of one worker's turn that follows its valid identity. *)
Definition refresh_evidence (instance : string) (x : sample) (now : Z) f (r : WorkerRegistry) :
    Refresh * WorkerRegistry :=
  match x.1.1.2 with
  | JObj c =>
      if negb (is_True_obj (jget "ready" c)) then (incomplete f, r)
      else match jget "pairs" c with
      | JList l =>
          match read_pairs instance l [] with
          | None => (incomplete f, r)
          | Some pairs =>
              if negb (bool_decide (list_to_set (dkeys pairs) = worker_pair_ids instance (rf_expected f)))
              then (incomplete f, r)
              else match x.1.2 with
                   | JObj report =>
                       let '(ok, r') := update_resource_report instance report (Some x.2) now r in
                       (if ok then attest instance pairs f else incomplete f, r')
                   | _ => (incomplete f, r)
                   end
          end
      | _ => (incomplete f, r)
      end
  | _ => (incomplete f, r)
  end.

(** One worker's turn on the captured registry. *)
Definition refresh_worker (instance : string) (x : result exn sample) (now : Z) f :
    method WorkerRegistry Refresh := λ r,
  match x with
  | Raise CancelledError => (Raise CancelledError, r)
  | Raise _ => (Ok (incomplete f), r)
  | Ok x =>
      match x.1.1.1 with
      | JObj d =>
          if negb (forallb (λ k, dmem k d) WORKER_IDENTITY_FIELDS) then (Ok (incomplete f), r)
          else match observe_raw_identity d r with
               | (Raise e, r') => (Raise e, r')
               | (Ok false, r') => (Ok (drifted f), r')
               | (Ok true, r') => let '(f', r'') := refresh_evidence instance x now f r' in (Ok f', r'')
               end
      | _ => (Ok (incomplete f), r)
      end
  end.

Section Refresh.
Context {E : Type}.
Implicit Types (a : AppState E).

Definition begin_refresh a : result exn Refresh :=
  match ap_registry a, current_registry a with
  | Some i, Some r => Ok (mkRefresh i (capabilities r) ["p0"; "p1"; "d0"; "d1"] true false [])
  | _, _ => Raise AttributeError
  end.

(** One iteration of the loop over the workers. *)
Definition refresh_step (x : result exn sample) (now : Z) f : method (AppState E) Refresh := λ a,
  match rf_left f, ap_registries a !! rf_registry f with
  | instance :: _, Some r =>
      let '(y, r') := refresh_worker instance x now f r in
      (next_worker <$> y, set_registries (<[rf_registry f := r']> (ap_registries a)) a)
  | _, _ => (Raise AttributeError, a)
  end.

(** The drift the sweep found and the registry it leaves, decided after the
    last worker. *)
Definition settle_refresh f (r : WorkerRegistry) : result exn (bool * WorkerRegistry) :=
  let close := if bool_decide (reg_state r = FAILED) then r else (observe_raw_capabilities [] r).2 in
  if rf_drift f then Ok (true, close)
  else if negb (rf_complete f) then Ok (false, r)
  else match collapse_pair_attestations raw_capability_eqb (rf_attestations f) with
       | Ok caps => let '(ok, r') := observe_raw_capabilities caps r in Ok (negb ok, r')
       | Raise RuntimeError => Ok (true, close)
       | Raise e => Raise e
       end.

(** The end of [_refresh_worker_world_once], up to its metrics. *)
Definition publish_refresh (now : Z) f : method (AppState E) unit := λ a,
  match ap_registries a !! rf_registry f with
  | None => (Raise AttributeError, a)
  | Some r =>
      match settle_refresh f r with
      | Raise e => (Raise e, a)
      | Ok (drift, r') =>
      let a1 := set_registries (<[rf_registry f := r']> (ap_registries a)) a in
      let a2 := if drift then set_accepting false a1 else a1 in
      let a3 := set_rpc_ready (rf_complete f && negb drift && reg_world_fresh r' now) a2 in
      (Ok tt, set_accepting (negb drift && reg_world_fresh r' now
                 && replacement_store_allows_admission a3
                 && topology_acceptance_allows_admission a3
                 && prefix_world_allows_admission a3
                 && background_control_plane_tasks_healthy false a3) a3)
      end
  end.
End Refresh.

(** A whole refresh when no other handler runs in between; [xs] gives the
    answer of each worker and the clock when it is processed. *)
Section RefreshOnce.
Context {E : Type}.
Implicit Types (a : AppState E).

Fixpoint refresh_workers (xs : string → result exn sample * Z) (l : list string) f :
    method (AppState E) Refresh :=
  match l with
  | [] => mret f
  | i :: l' => f' ← refresh_step (xs i).1 (xs i).2 f; refresh_workers xs l' f'
  end.

Definition refresh_worker_world_once (xs : string → result exn sample * Z) (now : Z) :
    method (AppState E) unit :=
  a ← read;
  match begin_refresh a with
  | Raise e => raise e
  | Ok f => f' ← refresh_workers xs ["p0"; "p1"; "d0"; "d1"] f; publish_refresh now f'
  end.
End RefreshOnce.

(** ** The fence *)

Section Fence.
Context {E : Type}.
Implicit Types (a : AppState E).

(** [accepting] at the end of the start-up. *)
Definition open_admission (now : Z) a : bool :=
  background_control_plane_tasks_healthy false a
  && (negb (ap_multinode a)
      || (match current_registry a with Some r => reg_world_fresh r now | None => false end
          && replacement_store_allows_admission a && topology_acceptance_allows_admission a
          && prefix_world_allows_admission a)).

(** The state the start-up leaves: a replacement is pending when the mounted
    generation is not the accepted one, which only a worker world has. *)
Definition started (now : Z) a : Prop :=
  (ap_acceptance_required a = true → ap_multinode a = true)
  ∧ (ap_acceptance_required a = true ↔ ap_pending_generation a ≠ None)
  ∧ ap_pending_generation a ≠ Some ""
  ∧ ap_accepting a = open_admission now a.

(** What the other handlers write: registries, stores, publications, tasks,
    the queue; neither the admission flags nor the pending generation. *)
Definition keeps_flags a a' : Prop :=
  ap_accepting a' = ap_accepting a ∧ ap_control_plane_failed a' = ap_control_plane_failed a
  ∧ ap_acceptance_required a' = ap_acceptance_required a
  ∧ ap_pending_generation a' = ap_pending_generation a.

(** Every interleaving of the handlers with the refresh in flight. *)
Inductive adm_step : AppState E * option Refresh → AppState E * option Refresh → Prop :=
| as_begin a o g : adm_step (a, o) ((begin_topology_acceptance g a).2, o)
| as_finalize a o g now : adm_step (a, o) ((finalize_topology_acceptance g now a).2, o)
| as_enter a o t : adm_step (a, o) ((enter_acceptance t a).2, o)
| as_leave a o t : adm_step (a, o) (leave_acceptance t a, o)
| as_begin_reconciler a o t c :
    adm_step (a, o) ((begin_expected_reconciler_replacement t c a).2, o)
| as_finish_reconciler a o t c :
    adm_step (a, o) (finish_expected_reconciler_replacement t c a, o)
| as_task_done a o c i : adm_step (a, o) (on_control_plane_task_done c i a, o)
| as_start a f : begin_refresh a = Ok f → adm_step (a, None) (a, Some f)
| as_worker a f x now f' a' :
    refresh_step x now f a = (Ok f', a') → adm_step (a, Some f) (a', Some f')
| as_worker_raises a f x now e a' :
    refresh_step x now f a = (Raise e, a') → adm_step (a, Some f) (a', None)
| as_publish a f now : adm_step (a, Some f) ((publish_refresh now f a).2, None)
| as_other a o a' : keeps_flags a a' → adm_step (a, o) (a', o)
| as_shutdown a o : adm_step (a, o) (set_accepting false a, o).

Definition adm_inv a : Prop :=
  (ap_acceptance_required a = true → ap_accepting a = false)
  ∧ (ap_control_plane_failed a = true → ap_accepting a = false)
  ∧ (ap_acceptance_required a = true ↔ ap_pending_generation a ≠ None)
  ∧ ap_pending_generation a ≠ Some "".

Lemma adm_inv_flags a a' : keeps_flags a a' → adm_inv a → adm_inv a'.
Proof. unfold adm_inv. intros (-> & -> & -> & ->). done. Qed.

Lemma keeps_flags_refl a : keeps_flags a a.
Proof. done. Qed.

Lemma begin_inv g a : adm_inv a → adm_inv (begin_topology_acceptance g a).2.
Proof.
  intros Hi. unfold begin_topology_acceptance. destruct (truthy g) eqn:Hg; simpl; [|done].
  destruct (_ && _); [done|]. apply truthy_true in Hg. unfold adm_inv. simpl. naive_solver.
Qed.

Lemma background_not_failed b a :
  background_control_plane_tasks_healthy b a = true → ap_control_plane_failed a = false.
Proof. unfold background_control_plane_tasks_healthy. by destruct (ap_control_plane_failed a). Qed.

Lemma acceptance_gates_Ok g now a :
  acceptance_gates g now a = Ok tt ↔
  ap_acceptance_required a = true ∧ ap_pending_generation a = Some g
  ∧ (∃ r, current_registry a = Some r ∧ expected_topology_generation r = g
       ∧ reg_world_fresh r now = true)
  ∧ (∀ l, ap_ledger a = Some l → ap_registry a = Some l)
  ∧ replacement_store_allows_admission a = true ∧ prefix_world_allows_admission a = true
  ∧ ap_control_plane_failed a = false ∧ (∀ t, ap_loop_task a = Some t → task_done t a = false)
  ∧ background_control_plane_tasks_healthy false a = true.
Proof.
  unfold acceptance_gates. rewrite !need_then, bool_decide_eq_true.
  destruct (current_registry a) as [r|].
  2:{ split; [by intros (_ & _ & ?)|by intros (_ & _ & (? & ? & _) & _)]. }
  rewrite !need_then, bool_decide_eq_true.
  assert ((match ap_ledger a with Some l => bool_decide (ap_registry a = Some l) | None => true end)
    = true ↔ ∀ l, ap_ledger a = Some l → ap_registry a = Some l) as ->.
  { destruct (ap_ledger a) as [l|]; [rewrite bool_decide_eq_true|done].
    split; [by intros ? ? [= <-]|auto]. }
  assert (match ap_loop_task a with Some t => task_done t a | None => false end = false
    ↔ ∀ t, ap_loop_task a = Some t → task_done t a = false) as Ht.
  { destruct (ap_loop_task a) as [t|]; [split; [by intros ? ? [= <-]|auto]|done]. }
  destruct (match ap_loop_task a with Some t => task_done t a | None => false end),
    (replacement_store_allows_admission a), (prefix_world_allows_admission a),
    (ap_control_plane_failed a), (background_control_plane_tasks_healthy false a); simpl.
  all: try (split; [by intros (? & ? & ? & ? & ? & ?)|by intros (?&?&(?&?&?&?)&?&?&?&?&Hl&?); apply Ht in Hl]).
  split; [intros (?&?&?&?&?&_); split_and!; try done; [by exists r|by apply Ht]|].
  by intros (?&?&(r0&[= <-]&?&?)&?&_).
Qed.

Lemma acceptance_finalize_inv g now a : adm_inv a → adm_inv (finalize_topology_acceptance g now a).2.
Proof.
  intros Hi. unfold finalize_topology_acceptance.
  destruct (acceptance_gates g now a) as [[]|] eqn:Hg; [|done].
  apply acceptance_gates_Ok in Hg as (Hr & Hp & _ & _ & _ & _ & Hf & _).
  unfold complete_topology_acceptance. rewrite Hr, Hp, bool_decide_false by auto. simpl.
  unfold adm_inv. simpl. rewrite Hf. naive_solver.
Qed.

Lemma publish_inv now f a : adm_inv a → adm_inv (publish_refresh now f a).2.
Proof.
  intros Hi. unfold publish_refresh. destruct (ap_registries a !! rf_registry f) as [r|]; [|done].
  destruct (settle_refresh f r) as [[drift r']|]; [|done]. destruct Hi as (H1 & H2 & H3 & H4).
  set (a3 := set_rpc_ready _ _).
  assert (ap_acceptance_required a3 = ap_acceptance_required a
    ∧ ap_control_plane_failed a3 = ap_control_plane_failed a
    ∧ ap_pending_generation a3 = ap_pending_generation a) as (E1 & E2 & E3).
  { by unfold a3; destruct drift. }
  clearbody a3. unfold adm_inv. simpl. rewrite E1, E2, E3. split_and!; try done.
  - intros Hr. unfold topology_acceptance_allows_admission. rewrite E1, Hr. simpl.
    by rewrite andb_false_r.
  - intros Hf. destruct (background_control_plane_tasks_healthy false a3) eqn:Hb.
    + apply background_not_failed in Hb. congruence.
    + by rewrite andb_false_r.
Qed.

Lemma refresh_step_flags x now f a : keeps_flags a (refresh_step x now f a).2.
Proof.
  unfold refresh_step. destruct (rf_left f); [done|].
  destruct (ap_registries a !! rf_registry f); [|done].
  by destruct (refresh_worker _ _ _ _ _).
Qed.

Lemma finish_flags t c a : keeps_flags a (finish_expected_reconciler_replacement t c a).
Proof.
  unfold finish_expected_reconciler_replacement.
  destruct t as [t|], c as [c|]; try done; by case_bool_decide.
Qed.

Lemma leave_flags t a : keeps_flags a (leave_acceptance t a).
Proof.
  unfold leave_acceptance. pose proof (finish_flags (Some t) None a) as H. by case_bool_decide.
Qed.

Lemma begin_reconciler_flags t c a : keeps_flags a (begin_expected_reconciler_replacement t c a).2.
Proof.
  unfold begin_expected_reconciler_replacement. destruct (task_done t a); [done|].
  destruct c as [c|]; [|done]. case_bool_decide; [done|].
  destruct (ap_reconciler_replacement_task a); simpl; [|done].
  by destruct (_ && _).
Qed.

Lemma enter_flags t a : keeps_flags a (enter_acceptance t a).2.
Proof.
  unfold enter_acceptance. destruct t as [t|]; [|done].
  destruct (ap_acceptance_task a); simpl; [|done]. by destruct (_ && _).
Qed.

Lemma task_done_inv c i a : adm_inv a → adm_inv (on_control_plane_task_done c i a).
Proof.
  unfold on_control_plane_task_done. destruct c; [done|]. unfold adm_inv. destruct i; simpl; naive_solver.
Qed.

Lemma shutdown_inv a : adm_inv a → adm_inv (set_accepting false a).
Proof. by intros (_ & _ & ? & ?). Qed.

#[local] Hint Resolve begin_inv acceptance_finalize_inv publish_inv task_done_inv shutdown_inv : core.

Lemma adm_step_inv s s' : adm_step s s' → adm_inv s.1 → adm_inv s'.1.
Proof.
  destruct 1 as [| | | | | | | |a f x now f' a' Hr|a f x now e a' Hr| |a f a' Hk|a f]; simpl; intros Hi; eauto;
    try (eapply adm_inv_flags; [|exact Hi]);
    eauto using enter_flags, leave_flags, begin_reconciler_flags, finish_flags.
  - pose proof (refresh_step_flags x now f a) as H. by rewrite Hr in H.
  - pose proof (refresh_step_flags x now f a) as H. by rewrite Hr in H.
Qed.

Lemma adm_steps_inv s s' : rtc adm_step s s' → adm_inv s.1 → adm_inv s'.1.
Proof. induction 1; eauto using adm_step_inv. Qed.

Lemma started_inv now a : started now a → adm_inv a.
Proof.
  intros (Hm & Hp & Hne & Ha). unfold adm_inv. split_and!; try done.
  - intros Hr. rewrite Ha. unfold open_admission, topology_acceptance_allows_admission.
    rewrite (Hm Hr), Hr. simpl. rewrite andb_false_r. simpl. apply andb_false_r.
  - intros Hf. rewrite Ha. unfold open_admission, background_control_plane_tasks_healthy. by rewrite Hf.
Qed.

(** A failed control plane stays failed. *)
Lemma adm_step_failed s s' :
  adm_step s s' → ap_control_plane_failed s.1 = true → ap_control_plane_failed s'.1 = true.
Proof.
  destruct 1 as [a o g|a o g now|a o t|a o t|a o t c|a o t c|a o c i| |a f x now f' a' Hr
    |a f x now e a' Hr|a f now|a o a' Hk|a o]; simpl; intros Hf; try done.
  - unfold begin_topology_acceptance. destruct (negb _); [done|]. by destruct (_ && _).
  - unfold finalize_topology_acceptance. destruct (acceptance_gates g now a); [|done].
    unfold complete_topology_acceptance. by destruct (_ && _).
  - destruct (enter_flags t a) as (_ & -> & _). done.
  - destruct (leave_flags t a) as (_ & -> & _). done.
  - destruct (begin_reconciler_flags t c a) as (_ & -> & _). done.
  - destruct (finish_flags t c a) as (_ & -> & _). done.
  - unfold on_control_plane_task_done. by destruct c, i.
  - destruct (refresh_step_flags x now f a) as (_ & H & _). rewrite Hr in H. simpl in H. congruence.
  - destruct (refresh_step_flags x now f a) as (_ & H & _). rewrite Hr in H. simpl in H. congruence.
  - unfold publish_refresh. destruct (ap_registries a !! _); [|done].
    destruct (settle_refresh f w) as [[[] ?]|]; done.
  - destruct Hk as (_ & -> & _). done.
Qed.

Lemma adm_steps_failed s s' :
  rtc adm_step s s' → ap_control_plane_failed s.1 = true → ap_control_plane_failed s'.1 = true.
Proof. induction 1; eauto using adm_step_failed. Qed.

(** What closes the door of the gateway. *)
Lemma not_accepting now a :
  ap_accepting a = false → admits now a = false ∧ readyz now a = false.
Proof. unfold admits, readyz. by intros ->. Qed.

(** C18: From the end of the start-up, under every interleaving of the
    topology handlers, the task supervisors, the shutdown and the refresh of
    the worker world: while a replacement is pending or once the control
    plane has failed, no request is admitted and the gateway is not ready;
    a pending replacement has a non-empty generation; and a failed control
    plane is never live, ready or open again. *)
Theorem admission_is_fenced now0 a0 a o :
  started now0 a0 → rtc adm_step (a0, None) (a, o) →
  (ap_acceptance_required a = true ∨ ap_control_plane_failed a = true →
     ∀ now, admits now a = false ∧ readyz now a = false)
  ∧ (ap_acceptance_required a = true → ∃ g, ap_pending_generation a = Some g ∧ g ≠ "")
  ∧ (ap_control_plane_failed a = true → ∀ a' o', rtc adm_step (a, o) (a', o') →
     ∀ now closed, admits now a' = false ∧ readyz now a' = false ∧ healthz closed a' = false).
Proof.
  intros H0 Hs. pose proof (adm_steps_inv _ _ Hs (started_inv _ _ H0)) as Hi. simpl in Hi.
  split_and!.
  - intros H now. apply not_accepting. by destruct Hi as (H1 & H2 & _), H; auto.
  - intros Hr. destruct Hi as (_ & _ & Hp & Hne).
    destruct (ap_pending_generation a) as [g|]; [|by destruct (proj1 Hp Hr)].
    exists g. split; [done|]. by intros ->.
  - intros Hf a' o' Hs' now closed.
    pose proof (adm_steps_inv _ _ Hs' Hi) as (_ & Hi' & _).
    pose proof (adm_steps_failed _ _ Hs' Hf) as Hf'. simpl in *.
    destruct (not_accepting now a' (Hi' Hf')). split_and!; [done|done|].
    unfold healthz. by rewrite Hf'.
Qed.

End Fence.

(** ** What a refresh proves *)

(** Only the resource signals differ. *)
Definition same_world (r r' : WorkerRegistry) : Prop := ∃ v, r' = set_resources v r.

Lemma same_reports_refl r : same_world r r.
Proof. exists (resources r). by destruct r. Qed.
Lemma same_reports_trans r1 r2 r3 : same_world r1 r2 → same_world r2 r3 → same_world r1 r3.
Proof. intros [v ->] [v' ->]. by exists v'. Qed.

Lemma update_same_world i rep t now r b r' :
  update_resource_report i rep t now r = (b, r') →
  same_world r r' ∧ (b = true → ∃ w, members r !! i = Some w ∧ report_acceptable r rep w = true).
Proof.
  unfold update_resource_report. destruct (members r !! i) as [w|].
  2:{ intros [= <- <-]. split; [apply same_reports_refl|done]. }
  destruct (report_acceptable r rep w) eqn:Ha; simpl.
  2:{ intros [= <- <-]. split; [apply same_reports_refl|done]. }
  case_bool_decide; intros [= <- <-]; (split; [|by eauto]); [apply same_reports_refl|by eexists].
Qed.

(** What the workers said, in the answer [x] of worker [i]: a registered
    identity, readiness, a complete list of pairs and an acceptable report. *)
Definition answered (r : WorkerRegistry) (i : string) (x : result exn sample) : Prop :=
  ∃ d c rep t l pairs, x = Ok (JObj d, JObj c, JObj rep, t)
    ∧ (∃ j w, members r !! j = Some w ∧ identity_says d w = true)
    ∧ jget "ready" c = JBool true ∧ jget "pairs" c = JList l
    ∧ read_pairs i l [] = Some pairs
    ∧ list_to_set (dkeys pairs) = worker_pair_ids i (capabilities r)
    ∧ ∃ w, members r !! i = Some w ∧ report_acceptable r rep w = true.

Lemma answered_same r r' i x : same_world r r' → answered r' i x → answered r i x.
Proof. intros [v ->]. by unfold answered. Qed.

(** The answer in which [i] attests pair [p]. *)
Definition attested (x : result exn sample) (p : string) (raw : RawCapability) : Prop :=
  ∃ d c rep t l, x = Ok (d, JObj c, rep, t) ∧ jget "pairs" c = JList l ∧ JObj raw ∈ l
    ∧ jget "pair_id" raw = JStr p.
Definition provenance (xs : string → result exn sample * Z)
    (at_ : odict string (odict string RawCapability)) : Prop :=
  dwf at_ ∧ (∀ p m, dget p at_ = Some m → dwf m)
  ∧ ∀ p i raw, dget p at_ ≫= dget i = Some raw → attested (xs i).1 p raw.

Lemma read_pairs_sound i l acc pairs :
  read_pairs i l acc = Some pairs →
  (∀ p raw, dget p pairs = Some raw →
     dget p acc = Some raw ∨ (JObj raw ∈ l ∧ jget "pair_id" raw = JStr p)).
Proof.
  revert acc. induction l as [|v l IH]; intros acc; simpl; [intros [= <-]; auto|].
  destruct v as [| | | | | |d]; try done. destruct (negb _); [done|].
  destruct (jget "pair_id" d) as [| | | |p'| |] eqn:Hp; try done.
  destruct (_ && _); [|done]. intros Hr p raw Hd.
  destruct (IH _ Hr p raw Hd) as [Ha|[Hin Hid]]; [|right; split; [by right|done]].
  rewrite dget_dset in Ha. case_decide; [|by left]. subst. injection Ha as <-.
  right. split; [by left|done].
Qed.

Lemma read_pairs_wf i l acc pairs : dwf acc → read_pairs i l acc = Some pairs → dwf pairs.
Proof.
  revert acc. induction l as [|v l IH]; intros acc Hw; simpl; [by intros [= <-]|].
  destruct v as [| | | | | |d]; try done. destruct (negb _); [done|].
  destruct (jget "pair_id" d); try done. destruct (_ && _); [|done]. apply IH. by apply dwf_dset.
Qed.

Lemma attest_provenance xs i pairs f :
  provenance xs (rf_attestations f) → (∀ p raw, (p, raw) ∈ pairs → attested (xs i).1 p raw) →
  provenance xs (rf_attestations (attest i pairs f)).
Proof.
  simpl. generalize (rf_attestations f). induction pairs as [|[p raw] pairs IH]; intros at_ Hat Hp; [done|].
  simpl. apply IH; [|intros; apply Hp; by right]. destruct Hat as (Hw & Hwm & Hat). split_and!.
  - by apply dwf_dset.
  - intros p' m. rewrite dget_dset. case_decide; [|by apply Hwm]. intros [= <-]. apply dwf_dset.
    destruct (dget p at_) as [m|] eqn:Hm; simpl; [by apply (Hwm p)|apply dwf_nil].
  - intros p' i' raw'. rewrite dget_dset. case_decide; [|apply Hat]. subst. simpl. rewrite dget_dset.
    case_decide; [intros [= <-]; subst; apply Hp; by left|].
    destruct (dget p at_) as [m|] eqn:Hm; simpl; [|done]. intros Hg. apply Hat. by rewrite Hm.
Qed.

Lemma observe_raw_identity_true d r r' :
  observe_raw_identity d r = (Ok true, r') →
  r' = r ∧ ∃ j w, members r !! j = Some w ∧ identity_says d w = true.
Proof.
  unfold observe_raw_identity. destruct (jget "instance_id" d) as [| | | |i| |]; try done.
  destruct (members r !! i) as [w|] eqn:Hw; [|done].
  destruct (identity_says d w) eqn:Hs; [|done]. intros [= <-]. eauto.
Qed.

(** A turn that leaves the sweep complete and undisturbed. *)
Lemma refresh_worker_ok xs i now f r f' r' :
  refresh_worker i (xs i).1 now f r = (Ok f', r') → rf_expected f = capabilities r →
  rf_complete f' = true → rf_drift f' = false → provenance xs (rf_attestations f) →
  rf_complete f = true ∧ rf_drift f = false ∧ same_world r r' ∧ answered r i (xs i).1
  ∧ provenance xs (rf_attestations f') ∧ rf_expected f' = rf_expected f
  ∧ rf_left f' = rf_left f ∧ rf_registry f' = rf_registry f.
Proof.
  intros Hw He Hc Hd Hp. unfold refresh_worker in Hw.
  destruct (xs i).1 as [[[[idv capv] repv] t]|e] eqn:Hx; 
    [|destruct e; try discriminate; by injection Hw as <- <-].
  simpl in Hw. destruct idv as [| | | | | |d]; try by injection Hw as <- <-.
  destruct (negb _); [by injection Hw as <- <-|].
  destruct (observe_raw_identity d r) as [[[]|] r1] eqn:Hid; [|by injection Hw as <- <-|done].
  apply observe_raw_identity_true in Hid as [-> Hid].
  destruct (refresh_evidence _ _ _ _ _) as [f1 r2] eqn:Hv. injection Hw as -> ->.
  unfold refresh_evidence in Hv. simpl in Hv.
  destruct capv as [| | | | | |c]; try by injection Hv as <- <-.
  destruct (jget "ready" c) as [|[]| | | | |] eqn:Hrd; simpl in Hv; try by injection Hv as <- <-.
  destruct (jget "pairs" c) as [| | | | |l|] eqn:Hl; try by injection Hv as <- <-.
  destruct (read_pairs i l []) as [pairs|] eqn:Hpr; [|by injection Hv as <- <-].
  case_bool_decide as Hk; simpl in Hv; [|by injection Hv as <- <-].
  destruct repv as [| | | | | |rep]; try by injection Hv as <- <-.
  destruct (update_resource_report _ _ _ _ _) as [[] r3] eqn:Hu; injection Hv as <- <-; [|done].
  apply update_same_world in Hu as [Hs Hacc]. specialize (Hacc eq_refl).
  rewrite He in Hk. split_and!; try done.
  - exists d, c, rep, t, l, pairs. auto 10.
  - apply attest_provenance; [done|]. intros p raw Hin. rewrite Hx.
    apply (dget_Some _ _ _ (read_pairs_wf _ _ _ _ dwf_nil Hpr)) in Hin.
    destruct (read_pairs_sound _ _ _ _ Hpr p raw Hin) as [|[Hj Hi]]; [done|].
    exists (JObj d), c, (JObj rep), t, l. auto.
Qed.

(** A turn keeps what the refresh started from, and its flags only fall. *)
Lemma refresh_worker_frame i x now f r f' r' :
  refresh_worker i x now f r = (Ok f', r') →
  rf_left f' = rf_left f ∧ rf_registry f' = rf_registry f ∧ rf_expected f' = rf_expected f
  ∧ (rf_complete f' = true → rf_complete f = true) ∧ (rf_drift f' = false → rf_drift f = false).
Proof.
  unfold refresh_worker. destruct x as [[[[iv cv] rv] t]|e].
  2:{ destruct e; intros Hw; try discriminate; by injection Hw as <- <-. }
  simpl. destruct iv; try by intros [= <- <-]. destruct (negb _); [by intros [= <- <-]|].
  destruct (observe_raw_identity d r) as [[[]|] r2]; [|by intros [= <- <-]|done].
  destruct (refresh_evidence _ _ _ _ _) as [g r3] eqn:Hv. intros [= -> ->].
  unfold refresh_evidence in Hv. simpl in Hv. destruct cv; try by injection Hv as <- <-.
  destruct (negb _); [by injection Hv as <- <-|].
  destruct (jget "pairs" _); try by injection Hv as <- <-.
  destruct (read_pairs _ _ _); [|by injection Hv as <- <-].
  destruct (negb _); [by injection Hv as <- <-|]. destruct rv; try by injection Hv as <- <-.
  destruct (update_resource_report _ _ _ _ _) as [[] ?]; by injection Hv as <- <-.
Qed.

Lemma py_eqb_number v w b :
  py_eqb v w = true → py_eqb v (JBool b) = true → py_eqb w (JBool b) = true.
Proof.
  assert (∀ x, py_eqb x (JBool b) = true ↔ ∃ q, as_number x = Some q ∧ Qeq q (if b then 1 else 0)) as Hb.
  { intros x. destruct x; simpl; try (split; [done|by intros (? & ? & _)]);
      rewrite Qeq_bool_iff; (split; [by eauto|by intros (? & [= <-] & ?)]). }
  rewrite !Hb. intros Hv (q & Hq & Heq).
  destruct (as_number w) as [q'|] eqn:Hw; [|by rewrite (as_number_inv _ _ Hq _ Hw) in Hv].
  exists q'. split; [done|]. rewrite <- Heq. symmetry.
  destruct v; try done; destruct w; try done; simpl in *; apply Qeq_bool_iff in Hv;
    injection Hq as <-; injection Hw as <-; done.
Qed.

Lemma py_eqb_text v w s : py_eqb v w = true → py_eqb v (JStr s) = true → py_eqb w (JStr s) = true.
Proof. rewrite !py_eqb_str. intros H ->. by destruct w; simpl in H; try done; apply bool_decide_eq_true in H as ->. Qed.

Lemma capability_says_trans v w c :
  raw_capability_eqb v w = true → capability_says v c = true → capability_says w c = true.
Proof.
  unfold raw_capability_eqb, capability_says. simpl. rewrite !andb_true_iff.
  intros (H1&H2&H3&H4&H5&H6&H7&_) ((((((?&?)&?)&?)&?)&?)&?).
  split_and!; eauto using py_eqb_text, py_eqb_number.
Qed.

Lemma collapse_Ok {C} (eqb : C → C → bool) at_ caps :
  collapse_pair_attestations eqb at_ = Ok caps →
  dkeys caps = dkeys at_ ∧ list_to_set (dkeys at_) = EXPECTED_PAIRS
  ∧ ∀ p v, (p, v) ∈ caps → ∃ m v' rest, (p, m) ∈ at_ ∧ list_to_set (dkeys m) = endpoints p
      ∧ dvalues m = v :: v' :: rest ∧ eqb v v' = true.
Proof.
  unfold collapse_pair_attestations. case_bool_decide as Hd; simpl; [|done]. rewrite mapR_Ok. intros HF.
  assert (∀ k m y, collapse_one eqb k m = Ok y → ∃ v v' rest, y = (k, v) ∧ list_to_set (dkeys m) = endpoints k
    ∧ dvalues m = v :: v' :: rest ∧ eqb v v' = true) as Hone.
  { intros k m y. unfold collapse_one. case_bool_decide; simpl; [|done].
    destruct (dvalues m) as [|v [|v' rest]]; try done.
    destruct (eqb v v') eqn:Hv; [|done]. intros [= <-]. eauto 8. }
  split_and!; [|done|].
  - clear Hd. induction HF as [|[k m] y l ys Hk _ IH]; [done|]. apply Hone in Hk as (v & _ & _ & -> & _).
    change (k :: dkeys ys = k :: dkeys l). by rewrite IH.
  - intros p v Hin. clear Hd. induction HF as [|[k m] y l ys Hk _ IH]; [by apply elem_of_nil in Hin|].
    apply elem_of_cons in Hin as [<-|Hin].
    + apply Hone in Hk as (v0 & v' & rest & [= <- <-] & ?). exists m, v', rest. split; [by left|done].
    + destruct (IH Hin) as (m' & v' & rest & ? & ?). exists m', v', rest. split; [by right|done].
Qed.

Lemma expected_pairs_two p : p ∈ EXPECTED_PAIRS → size (endpoints p) = 2%nat.
Proof.
  assert (set_Forall (λ p, size (endpoints p) = 2%nat) EXPECTED_PAIRS) as H; [|by apply H].
  apply (bool_decide_eq_true_1 _). vm_compute. reflexivity.
Qed.

(** Both endpoints of a collapsed pair attested it. *)
Lemma collapsed_both {C} (eqb : C → C → bool) at_ caps p v i :
  dwf at_ → (∀ p m, dget p at_ = Some m → dwf m) →
  collapse_pair_attestations eqb at_ = Ok caps → (p, v) ∈ caps → i ∈ endpoints p →
  ∃ w, dget p at_ ≫= dget i = Some w ∧ (w = v ∨ eqb v w = true).
Proof.
  intros Hw Hwm Hc Hin Hi. apply collapse_Ok in Hc as (Hk & Hdom & Hall).
  assert (p ∈ EXPECTED_PAIRS) as Hp.
  { rewrite <- Hdom, elem_of_list_to_set, <- Hk. apply list_elem_of_fmap. by exists (p, v). }
  destruct (Hall p v Hin) as (m & v' & rest & Hm & Hkeys & Hvals & Heq).
  apply (dget_Some _ _ _ Hw) in Hm. pose proof (Hwm _ _ Hm) as Hwf.
  assert (length m = 2%nat) as Hlen.
  { rewrite <- (expected_pairs_two p Hp), <- Hkeys, size_list_to_set by done.
    unfold dkeys. by rewrite length_fmap. }
  rewrite <- Hkeys, elem_of_list_to_set, <- dget_is_Some in Hi. destruct Hi as [w Hw'].
  exists w. rewrite Hm. split; [done|].
  destruct m as [|[k0 x0] [|[k1 x1] [|]]]; try done. injection Hvals as -> -> _. simpl in Hw'.
  repeat case_decide; simplify_eq; auto.
Qed.

Lemma collapsed_attested xs at_ caps p v i c :
  provenance xs at_ → collapse_pair_attestations raw_capability_eqb at_ = Ok caps → (p, v) ∈ caps →
  capability_says v c = true → i ∈ endpoints p →
  ∃ raw, attested (xs i).1 p raw ∧ capability_says raw c = true.
Proof.
  intros (Hw & Hwm & Hpr) Hc Hin Hs Hi.
  destruct (collapsed_both _ _ _ _ _ _ Hw Hwm Hc Hin Hi) as (raw & Hraw & Heq).
  exists raw. split; [by apply Hpr|]. destruct Heq as [->|Heq]; [done|]. by eapply capability_says_trans.
Qed.

Section Attested.
Context {E : Type}.
Implicit Types (a : AppState E).

Lemma refresh_step_inv x now f a f' a' :
  refresh_step x now f a = (Ok f', a') →
  ∃ i l r r1 f1, rf_left f = i :: l ∧ ap_registries a !! rf_registry f = Some r
    ∧ refresh_worker i x now f r = (Ok f1, r1) ∧ f' = next_worker f1
    ∧ a' = set_registries (<[rf_registry f := r1]> (ap_registries a)) a.
Proof.
  unfold refresh_step. destruct (rf_left f) as [|i l]; [done|].
  destruct (ap_registries a !! rf_registry f) as [r|]; [|done].
  destruct (refresh_worker i x now f r) as [[f1|] r1] eqn:Hw; [|done].
  intros [= <- <-]. by exists i, l, r, r1, f1.
Qed.

Lemma refresh_workers_cons xs i l f a f' a' :
  refresh_workers xs (i :: l) f a = (Ok f', a') →
  ∃ f1 a1, refresh_step (xs i).1 (xs i).2 f a = (Ok f1, a1) ∧ refresh_workers xs l f1 a1 = (Ok f', a').
Proof.
  simpl. unfold mbind, method_mbind, method_bind.
  destruct (refresh_step _ _ f a) as [[f1|] a1]; [|done]. by exists f1, a1.
Qed.

Lemma refresh_workers_flags xs l f a f' a' :
  refresh_workers xs l f a = (Ok f', a') →
  (rf_complete f' = true → rf_complete f = true) ∧ (rf_drift f' = false → rf_drift f = false).
Proof.
  revert f a. induction l as [|i l IH]; intros f a; [by intros [= <- <-]|].
  intros (f1 & a1 & Hs & Hr)%refresh_workers_cons. apply IH in Hr as [H1 H2].
  apply refresh_step_inv in Hs as (j & l' & r & r1 & f2 & _ & _ & Hw & -> & _).
  apply refresh_worker_frame in Hw as (_ & _ & _ & H3 & H4). auto.
Qed.

Lemma refresh_workers_ok xs l f a f' a' r :
  refresh_workers xs l f a = (Ok f', a') → rf_left f = l →
  ap_registries a !! rf_registry f = Some r → rf_expected f = capabilities r →
  rf_complete f' = true → rf_drift f' = false → provenance xs (rf_attestations f) →
  Forall (λ i, answered r i (xs i).1) l ∧ provenance xs (rf_attestations f')
  ∧ rf_registry f' = rf_registry f
  ∧ ∃ r', ap_registries a' !! rf_registry f = Some r' ∧ same_world r r'.
Proof.
  revert f a r. induction l as [|i l IH]; intros f a r Hr Hl Hreg He Hc Hd Hp.
  { injection Hr as <- <-. split_and!; try done. exists r. split; [done|apply same_reports_refl]. }
  apply refresh_workers_cons in Hr as (f1 & a1 & Hs & Hr).
  destruct (refresh_workers_flags _ _ _ _ _ _ Hr) as [Hc1 Hd1].
  apply refresh_step_inv in Hs as (j & l' & r0 & r1 & f2 & Hl' & Hreg' & Hw & -> & ->).
  rewrite Hl in Hl'. injection Hl' as <- <-. rewrite Hreg in Hreg'. injection Hreg' as <-.
  destruct (refresh_worker_ok xs i _ f r f2 r1 Hw He (Hc1 Hc) (Hd1 Hd) Hp)
    as (_ & _ & Hsame & Hans & Hp2 & Ee & El & Er).
  destruct (IH (next_worker f2) _ r1 Hr) as (Hall & Hpf & Erf & r' & Hr' & Hs'); try done.
  - simpl. by rewrite El, Hl.
  - simpl. rewrite Er. apply lookup_insert_eq.
  - simpl. rewrite Ee, He. by destruct Hsame as [v ->].
  - simpl in Hr', Erf. rewrite Er in Hr', Erf. split_and!; try done.
    + constructor; [done|]. eapply Forall_impl; [exact Hall|]. intros k. by apply answered_same.
    + exists r'. split; [done|]. by eapply same_reports_trans.
Qed.

Lemma settle_clean f r r' :
  settle_refresh f r = Ok (false, r') → rf_complete f = true →
  r' = r ∧ rf_drift f = false ∧ ∃ caps, collapse_pair_attestations raw_capability_eqb (rf_attestations f) = Ok caps
    ∧ list_to_set (dkeys caps) = dom (capabilities r)
    ∧ ∀ p v c, (p, v) ∈ caps → capabilities r !! p = Some c → capability_says v c = true.
Proof.
  unfold settle_refresh. intros Hs Hc. rewrite Hc in Hs. destruct (rf_drift f); [done|]. simpl in Hs.
  destruct (collapse_pair_attestations _ _) as [caps|e]; [|by destruct e].
  unfold observe_raw_capabilities in Hs. destruct (_ && _) eqn:Hb; [|done]. injection Hs as <-.
  apply andb_true_iff in Hb as [Hk%bool_decide_eq_true Hf]. split_and!; try done.
  exists caps. split_and!; try done. intros p v c Hin Hp. rewrite forallb_forall in Hf.
  apply list_elem_of_In in Hin. specialize (Hf _ Hin). simpl in Hf. by rewrite Hp in Hf.
Qed.

Lemma refresh_once_inv xs now a a' :
  refresh_worker_world_once xs now a = (Ok tt, a') →
  ∃ f f' a1, begin_refresh a = Ok f ∧ refresh_workers xs ["p0"; "p1"; "d0"; "d1"] f a = (Ok f', a1)
    ∧ publish_refresh now f' a1 = (Ok tt, a').
Proof.
  unfold refresh_worker_world_once, mbind, method_mbind, method_bind, read.
  destruct (begin_refresh a) as [f|]; [|done].
  destruct (refresh_workers _ _ f a) as [[f'|] a1] eqn:Hw; [|done]. by exists f, f', a1.
Qed.

(** C20: When a sweep of the workers leaves the worker RPC gate open, each of
    the four workers answered in it with the identity of a registered
    member, reported itself ready, listed exactly its own pairs and sent a
    report the registry accepted for it; every registered capability was
    attested, field for field, by both of its endpoints; and the registry is
    unchanged but for the reports, with every report fresh. *)
Theorem ready_world_was_attested xs now a a' :
  refresh_worker_world_once xs now a = (Ok tt, a') → ap_worker_rpc_ready a' = true →
  ∃ rid r r', ap_registry a = Some rid ∧ ap_registries a !! rid = Some r
    ∧ Forall (λ i, answered r i (xs i).1) ["p0"; "p1"; "d0"; "d1"]
    ∧ dom (capabilities r) = EXPECTED_PAIRS
    ∧ (∀ p c i, capabilities r !! p = Some c → i ∈ endpoints p →
         ∃ raw, attested (xs i).1 p raw ∧ capability_says raw c = true)
    ∧ ap_registries a' !! rid = Some r' ∧ same_world r r' ∧ reg_world_fresh r' now = true.
Proof.
  intros (f0 & f & a1 & Hbeg & Hws & Hrun)%refresh_once_inv Hready.
  unfold begin_refresh, current_registry in Hbeg. destruct (ap_registry a) as [rid|]; [|done].
  simpl in Hbeg. destruct (ap_registries a !! rid) as [r|] eqn:Hr; [|done]. injection Hbeg as <-.
  unfold publish_refresh in Hrun. destruct (ap_registries a1 !! rf_registry f) as [r1|] eqn:Hr1; [|done].
  destruct (settle_refresh f r1) as [[drift r2]|] eqn:Hset; [|done]. injection Hrun as <-.
  cbn [ap_worker_rpc_ready set_accepting set_rpc_ready] in Hready.
  apply andb_true_iff in Hready as [[Hc Hdr]%andb_true_iff Hfr]. destruct drift; [done|].
  destruct (settle_clean f r1 r2 Hset Hc) as (-> & Hd & caps & Hcol & Hdom & Hsays).
  destruct (refresh_workers_ok xs _ _ a f a1 r Hws) as (Hall & Hprov & Erf & r' & Hr' & Hsame);
    try done.
  { split_and!; [apply dwf_nil|done|done]. }
  simpl in Erf, Hr'. rewrite Erf, Hr' in Hr1. injection Hr1 as ->.
  assert (capabilities r1 = capabilities r) as Ecap by (by destruct Hsame as [v ->]).
  rewrite Ecap in *. destruct (collapse_Ok _ _ _ Hcol) as (Hk & Hexp & _).
  exists rid, r, r1. split_and!; try done.
  - by rewrite <- Hexp, <- Hk, Hdom.
  - intros p c i Hp Hi. assert (p ∈ dkeys caps) as Hin.
    { apply (elem_of_list_to_set (C := gset string)). rewrite Hdom. by apply elem_of_dom_2 in Hp. }
    apply list_elem_of_fmap in Hin as ([p' v] & -> & Hin). simpl in *.
    by eapply collapsed_attested; eauto.
  - simpl. rewrite Erf. apply lookup_insert_eq.
Qed.
End Attested.

(** ** Concrete worlds *)

Module Demo.
Definition capability (c : PairCapability) : json :=
  JObj [("pair_id", JStr (pc_pair_id c)); ("source_epoch", JStr (pc_source_epoch c));
        ("target_epoch", JStr (pc_target_epoch c)); ("transport", JStr (pc_transport c));
        ("probe_generation", JStr (pc_probe_generation c)); ("probe_passed", JBool (pc_probe_passed c));
        ("evidence_path", JStr (pc_evidence_path c))].
Definition pairs_of (i : string) : list json :=
  capability <$> filter (λ c, i ∈ endpoints (pc_pair_id c)) demo_pairs.
Definition report (w : WorkerIdentity) : json :=
  JObj (dset "instance_epoch" (JStr (wi_instance_epoch w)) demo_report).
Definition answers (i : string) : result exn sample * Z :=
  match list_find (λ w, wi_instance_id w = i) demo_world with
  | Some (_, w) =>
      (Ok (JObj (worker_identity_wire w),
           JObj [("ready", JBool true); ("pairs", JList (pairs_of i))], report w, 4), 5)
  | None => (Raise ConnectionError, 5)
  end.

Definition app0 (required : bool) (pending : option string) : AppState unit :=
  mkAppState true false false true false required pending None None (Some 1%nat) None (Some 2%nat) ∅
    (Some (mkNATSQueue "gw" true None [])) {[0%nat := demo_ready]} (Some 0%nat) (Some 0%nat)
    None None None.

(** After one clean sweep, and with a replacement pending before it. *)
Definition swept := (refresh_worker_world_once answers 5 (app0 false None)).2.
Definition pending := (refresh_worker_world_once answers 5 (app0 true (Some "gen1"))).2.
Definition committed := (finalize_topology_acceptance "gen1" 6 pending).2.

Lemma swept_ok : refresh_worker_world_once answers 5 (app0 false None) = (Ok tt, swept).
Proof.
  unfold swept. destruct (refresh_worker_world_once answers 5 (app0 false None)) as [x a] eqn:Hx.
  assert ((refresh_worker_world_once answers 5 (app0 false None)).1 = Ok tt) as H1
    by (vm_compute; reflexivity).
  rewrite Hx in H1. simpl in H1. by subst x.
Qed.
Lemma committed_ok : finalize_topology_acceptance "gen1" 6 pending = (Ok tt, committed).
Proof.
  unfold committed. destruct (finalize_topology_acceptance "gen1" 6 pending) as [x a] eqn:Hx.
  assert ((finalize_topology_acceptance "gen1" 6 pending).1 = Ok tt) as H1
    by (vm_compute; reflexivity).
  rewrite Hx in H1. simpl in H1. by subst x.
Qed.
Lemma app0_started : started 0 (app0 false None).
Proof. by split_and!. Qed.
End Demo.

Lemma ready_world_was_attested_witness :
  admits 5 Demo.swept = true
  ∧ ∃ r, ap_registries Demo.swept !! 0%nat = Some r ∧ reg_world_fresh r 5 = true.
Proof.
  split; [vm_compute; reflexivity|].
  destruct (ready_world_was_attested Demo.answers 5 (Demo.app0 false None) Demo.swept Demo.swept_ok
    ltac:(vm_compute; reflexivity)) as (rid & r & r' & Hid & _ & _ & _ & _ & Hr' & _ & Hf).
  injection Hid as <-. exists r'. split; [exact Hr'|exact Hf].
Defined.


Lemma admission_is_fenced_witness :
  readyz 7 (on_control_plane_task_done false true (begin_topology_acceptance "gen2" (Demo.app0 false None)).2)
  = false.
Proof.
  destruct (admission_is_fenced 0 (Demo.app0 false None)
    (on_control_plane_task_done false true (begin_topology_acceptance "gen2" (Demo.app0 false None)).2)
    None Demo.app0_started
    (rtc_l _ _ _ _ (as_begin _ None "gen2") (rtc_once _ _ (as_task_done _ None false true))))
    as (Hf & _ & _).
  apply (Hf (or_introl eq_refl) 7).
Defined.
