(* ===== verification/ChatRequest.v ===== *)
(** * Chat requests (gateway/app.py, router/tokenizer.py)

    The completion endpoint up to the point where a request waits for its
    output: authorization, the reading of the body, the sampling controls,
    and the reservation of the request in the evidence tables, the trace
    ledger, the tracker and the output buffer, with the compensation of each
    step; then the endpoints that read and acknowledge the evidence of a
    performance request.  The tokenizer, [xxhash], SHA-256, [repr], [int] on
    strings and the conversion of an integer to a double are parameters; NaN
    and the infinities are not values of [json]. *)

From S2P Require Import Prelude PyDict Json Fingerprint SequenceState WorkerRegistry Output ReplacementStore NetworkRpc Performance FaultGate Admission.
From stdpp Require Import prelude gmap strings.
From Stdlib Require Import QArith_base.

Local Open Scope Z_scope.

(** ** The tokenizer adapter *)

Record TokenizerIdentity := mkTokenizerIdentity {
  ti_model_id : string;
  ti_tokenizer_revision : string;
  ti_chat_template_version : string;
  ti_block_size : Z;
  ti_hash_version : string;
  ti_kv_compatibility_id : string }.

(** The encoder with and without special tokens; what it returns without is
    checked by its reader. *)
Record TokenizerAdapter := mkTokenizerAdapter {
  ta_encode : string → result exn (list Z);
  ta_encode_raw : string → result exn (list json);
  ta_identity : TokenizerIdentity;
  ta_namespace : string }.

(** What [chat_completions] answers: a status code; 200 when the request was
    admitted and its output is awaited. *)
Definition status : Type := Z.

(** The tables a request is reserved in. *)
Record Tables := mkTables {
  tb_network : option NetworkControlRPC;
  tb_traces : option PerformanceTraceRegistry;
  tb_tracker : RequestTracker;
  tb_output : GatewayOutputBuffer }.
Implicit Types (T : Tables).

#[local] Instance Tables_eta : Eta Tables := λ T,
  mkTables (tb_network T) (tb_traces T) (tb_tracker T) (tb_output T).
Definition set_network (v : option NetworkControlRPC) T : Tables := ltac:(with_field T tb_network v).
Definition set_traces (v : option PerformanceTraceRegistry) T : Tables := ltac:(with_field T tb_traces v).
Definition set_tracker (v : RequestTracker) T : Tables := ltac:(with_field T tb_tracker v).
Definition set_output (v : GatewayOutputBuffer) T : Tables := ltac:(with_field T tb_output v).

(** A request as its body describes it. *)
Record ChatRequest := mkChatRequest {
  cq_model : string;
  cq_route : option CorrectnessRoute;
  cq_performance : option PerformanceRequest;
  cq_token_ids : list Z;
  cq_fingerprint : option PromptFingerprint }.

Section Chat.
Context {E : Type}.
Context (sha : json → string) (sha_text : string → string) (repr : json → string).
Context (int_of_str : string → option Z) (xxh64 : bytes → Z).
(** [float(z)]; [None] when it overflows *)
Context (float_of_int : Z → option Q).

Definition stable_digest (v : json) : string := sha (canonical v).

Definition build_namespace (model_id tokenizer_revision chat_template_version : string)
    (block_size : Z) (hash_version kv_compatibility_id : string) : result exn string :=
  if bool_decide (block_size ≤ 0) then Raise AssertionError
  else Ok (stable_digest (JObj
    [("block_size", JInt block_size); ("chat_template_version", JStr chat_template_version);
     ("hash_version", JStr hash_version); ("kv_compatibility_id", JStr kv_compatibility_id);
     ("model_id", JStr model_id); ("tokenizer_revision", JStr tokenizer_revision)])).

Definition new_TokenizerAdapter (encode : string → result exn (list Z))
    (encode_raw : string → result exn (list json)) (i : TokenizerIdentity) :
    result exn TokenizerAdapter :=
  if negb (truthy (ti_model_id i)) then Raise AssertionError
  else if negb (truthy (ti_tokenizer_revision i)) then Raise AssertionError
  else if negb (truthy (ti_chat_template_version i)) then Raise AssertionError
  else if negb (truthy (ti_kv_compatibility_id i)) then Raise AssertionError
  else if bool_decide (ti_block_size i ≤ 0) then Raise AssertionError
  else
    namespace ← build_namespace (ti_model_id i) (ti_tokenizer_revision i)
      (ti_chat_template_version i) (ti_block_size i) (ti_hash_version i) (ti_kv_compatibility_id i);
    mret (mkTokenizerAdapter encode encode_raw i namespace).

(** [PromptFingerprint.create] with the adapter's identity *)
Definition fingerprint_tokens (t : TokenizerAdapter) (ids : list Z) : result exn PromptFingerprint :=
  create xxh64 (ta_namespace t) (ti_kv_compatibility_id (ta_identity t)) "text-only" ids
    (Z.to_nat (ti_block_size (ta_identity t))).
Definition fingerprint_request (t : TokenizerAdapter) (text : string) : result exn PromptFingerprint :=
  ids ← ta_encode t text; fingerprint_tokens t ids.

(** ** Authorization *)

(** [_operator_auth_error]: [None] lets the caller through. *)
Definition operator_auth_error (enabled : bool) (config : odict string json) (supplied : string) :
    option status :=
  match authorize enabled (py_str_or_empty repr (jget "correctness_harness_secret" config)) supplied with
  | auth_disabled => Some 404
  | auth_forbidden => Some 403
  | auth_ok => None
  end.
Definition correctness_auth_error (config : odict string json) (supplied : string) : option status :=
  operator_auth_error (py_bool (jget "correctness_harness_enabled" config)) config supplied.
Definition route_parity_auth_error (config : odict string json) (supplied : string) : option status :=
  operator_auth_error (py_bool (jget "correctness_harness_enabled" config)
    || py_bool (jget "route_parity_harness_enabled" config)) config supplied.
Definition performance_auth_error (config : odict string json) (supplied : string) : option status :=
  operator_auth_error (py_bool (jget "performance_harness_enabled" config)) config supplied.

(** ** Sampling *)

(** [type(v) is int and v > 0] *)
Definition positive_int (v : json) : result exn Z :=
  match v with JInt z => _ ← need (bool_decide (0 < z)); mret z | _ => Raise ValueError end.

Definition temperature_of (v : json) : result exn Q :=
  match v with
  | JInt z => match float_of_int z with Some q => Ok q | None => Raise ValueError end
  | JFloat q => Ok q
  | _ => Raise ValueError
  end.

(** [max_model_len] is [JNull] for [None]; [default_len] is the setting. *)
Definition parse_sampling (default_len : json) (body : odict string json)
    (input_token_count : option Z) (max_model_len : json) : result exn (odict string json) :=
  match default (JInt 32) (dget "max_tokens" body) with
  | JInt max_tokens =>
      temperature ← temperature_of (default (JFloat 0) (dget "temperature" body));
      _ ← need (Qle_bool 0 temperature);
      _ ← need (bool_decide (0 < max_tokens));
      _ ← match max_model_len with
          | JNull => mret tt
          | v => limit ← positive_int v; need (bool_decide (max_tokens ≤ limit))
          end;
      _ ← match input_token_count with
          | None => mret tt
          | Some n =>
              _ ← need (bool_decide (0 ≤ n));
              limit ← positive_int (match max_model_len with JNull => default_len | v => v end);
              need (bool_decide (n + max_tokens ≤ limit))
          end;
      mret [("temperature", JFloat temperature); ("max_tokens", JInt max_tokens);
            ("ignore_eos", JBool (is_True_obj (jget "ignore_eos" body)))]
  | _ => Raise ValueError
  end.

(** ** Reading the body *)

(** [isinstance(token, int)]: the integer it is *)
Definition int_token (v : json) : option Z :=
  match v with JInt z => Some z | JBool b => Some (if b then 1 else 0) | _ => None end.

(** [list(body["input_token_ids"])], all of them tokens *)
Definition body_tokens (token : json → option Z) (body : odict string json) : result exn (list Z) :=
  v ← subscript (JObj body) "input_token_ids";
  l ← py_tuple v;
  match l, mapM token l with
  | _ :: _, Some ids => Ok ids
  | _, _ => Raise ValueError
  end.

Definition read_correctness (config : odict string json) (tokenizer : option TokenizerAdapter)
    (model : string) (body : odict string json) : result exn (status + ChatRequest) :=
  route ← parse_route (jget "week12_correctness" body);
  if py_bool (jget "performance_harness_enabled" config) && negb (py_bool (jget "affinity_enabled" config))
     && bool_decide (cr_path route ≠ "cold") then mret (inl 404)
  else match tokenizer with
  | None => Raise ValueError
  | Some t =>
      ids ← body_tokens uint64_token body;
      fp ← fingerprint_tokens t ids;
      mret (inr (mkChatRequest model (Some route) None ids (Some fp)))
  end.

Definition read_performance (config : odict string json) (tokenizer : option TokenizerAdapter)
    (runtime_model : string) (body : odict string json) : result exn (status + ChatRequest) :=
  match tokenizer with
  | None => Raise ValueError
  | Some t =>
      r ← parse_performance_request (ta_encode_raw t) sha_text sha body runtime_model
            (default [] (as_obj (jget "expected_model_profile" config)));
      fp ← fingerprint_tokens t (pr_input_token_ids r);
      mret (inr (mkChatRequest runtime_model None (Some r) (pr_input_token_ids r) (Some fp)))
  end.

(** [str(message["content"])] *)
Definition message_text (message : json) : result exn string :=
  v ← subscript message "content"; mret (py_str repr v).
Definition newline : string := String (Ascii.ascii_of_nat 10) EmptyString.

Definition read_messages (tokenizer : option TokenizerAdapter) (model : string)
    (body : odict string json) : result exn (status + ChatRequest) :=
  messages ← subscript (JObj body) "messages";
  match messages with
  | JList (_ :: _ as l) =>
      texts ← mapR message_text l;
      match tokenizer with
      | Some t =>
          let text := String.concat newline texts in
          ids ← ta_encode t text;
          fp ← fingerprint_request t text;
          mret (inr (mkChatRequest model None None ids (Some fp)))
      | None =>
          ids ← body_tokens int_token body;
          mret (inr (mkChatRequest model None None ids None))
      end
  | _ => Raise ValueError
  end.

(** The first [try] of [chat_completions]: a response to send at once, or the
    request; [default_model] is the setting. *)
Definition read_request (default_model : string) (config : odict string json)
    (tokenizer : option TokenizerAdapter) (supplied : string) (body : json) :
    result exn (status + ChatRequest) :=
  v ← subscript body "model";
  match body with
  | JObj d =>
      let model := py_str repr v in
      let runtime_model := if py_bool (jget "model_id" config)
                           then py_str repr (jget "model_id" config) else default_model in
      _ ← need (bool_decide (model = runtime_model));
      _ ← need (negb (dmem "week12_correctness" d && dmem "prism_performance" d));
      if dmem "week12_correctness" d then
        match route_parity_auth_error config supplied with
        | Some s => mret (inl s)
        | None => read_correctness config tokenizer model d
        end
      else if dmem "prism_performance" d then
        match performance_auth_error config supplied with
        | Some s => mret (inl s)
        | None => read_performance config tokenizer runtime_model d
        end
      else read_messages tokenizer model d
  | _ => Raise TypeError
  end.

(** [except (KeyError, TypeError, ValueError)] *)
Definition invalid_request (e : exn) : bool :=
  bool_decide (e ∈ [KeyError; TypeError; ValueError]).

(** ** The world a performance request is admitted in *)

Definition RANKS : list (string * (string * Z)) :=
  [("p0", ("prefill", 0)); ("p1", ("prefill", 1)); ("d0", ("decode", 2)); ("d1", ("decode", 3))].

(** One iteration of the loop over [EXPECTED_MEMBERS]. *)
Definition member_identity (generation : string) (ms : gmap string WorkerIdentity)
    (m : string * (string * Z)) : result exn (string * json) :=
  match ms !! m.1 with
  | None => Raise KeyError
  | Some w =>
      if bool_decide (wi_instance_id w = m.1) && bool_decide (wi_role w = m.2.1)
         && bool_decide (wi_global_rank w = m.2.2)
         && bool_decide (wi_topology_generation w = generation)
      then Ok (m.1, worker_value (wi_pod_uid w) (wi_instance_epoch w) (wi_global_rank w))
      else Raise RuntimeError
  end.

Definition performance_world_identity (config : odict string json) (network : option NetworkControlRPC)
    (now : Z) (a : AppState E) : result exn (odict string json) :=
  match current_registry a, network with
  | Some r, Some n =>
      if negb (reg_world_fresh r now) then Raise RuntimeError
      else if negb (bool_decide (dom (members r) = dom EXPECTED_MEMBERS)) then Raise RuntimeError
      else match jget "scheduler_id" config with
      | JStr pod =>
          if truthy pod && truthy (nc_clock_epoch n)
             && py_eqb (JStr (nc_clock_epoch n)) (jget "scheduler_generation" config)
          then
            workers ← mapR (member_identity (expected_topology_generation r) (members r)) RANKS;
            mret [("gateway", JObj [("pod_uid", JStr pod); ("clock_epoch", JStr (nc_clock_epoch n))]);
                  ("topology_generation", JStr (expected_topology_generation r));
                  ("affinity_enabled", JBool (py_bool (jget "affinity_enabled" config)));
                  ("workers", JObj workers)]
          else Raise RuntimeError
      | _ => Raise RuntimeError
      end
  | _, _ => Raise RuntimeError
  end.

(** ** Reservation *)

Definition on_network (f : NetworkControlRPC → NetworkControlRPC) T : Tables :=
  set_network (f <$> tb_network T) T.
Definition on_traces (f : PerformanceTraceRegistry → PerformanceTraceRegistry) T : Tables :=
  set_traces (f <$> tb_traces T) T.

(** [control.require_request_evidence(req_id)] on a control that is there *)
Definition require_evidence (rid : string) : method Tables unit := λ T,
  match tb_network T with
  | None => (Raise AttributeError, T)
  | Some n => let '(x, n') := require_request_evidence rid n in (x, set_network (Some n') T)
  end.
Definition reserve_trace (r : PerformanceRequest) (world : odict string json) : method Tables unit := λ T,
  match tb_traces T with
  | None => (Raise AttributeError, T)
  | Some g => let '(x, g') := reserve r world g in (x, set_traces (Some g') T)
  end.

(** The correctness branch: [None] when the request may go on. *)
Definition reserve_correctness (route : CorrectnessRoute) (rid : string) (stream : json)
    (ids : list Z) (sampling : odict string json) : method Tables (option status) := λ T,
  if py_bool stream then (Ok (Some 422), T)
  else match validate_fixture route ids sampling with
  | Raise ValueError => (Ok (Some 422), T)
  | Raise e => (Raise e, T)
  | Ok _ =>
      if bool_decide (tb_network T = None) then (Ok (Some 503), T)
      else match require_evidence rid T with
           | (Ok _, T') => (Ok None, T')
           | (Raise RuntimeError, T') => (Ok (Some 503), T')
           | (Raise e, T') => (Raise e, T')
           end
  end.

(** The performance branch; [world] is what [_performance_world_identity]
    gave, evaluated before the ledger is asked. *)
Definition reserve_performance (r : PerformanceRequest) (rid : string)
    (world : result exn (odict string json)) : method Tables (option status) := λ T,
  if bool_decide (is_Some (tb_traces T)) && bool_decide (is_Some (tb_network T)) then
    match (match world with
           | Raise e => (Raise e, T)
           | Ok w => match reserve_trace r w T with
                     | (Ok _, T') => require_evidence rid T'
                     | (Raise e, T') => (Raise e, T')
                     end
           end) with
    | (Ok _, T') => (Ok None, T')
    | (Raise PerformanceTraceConflict, T') => (Ok (Some 409), T')
    | (Raise PerformanceTraceCapacity, T') | (Raise RuntimeError, T') =>
        (Ok (Some 503), on_traces (rollback_uncommitted rid) T')
    | (Raise e, T') => (Raise e, T')
    end
  else (Ok (Some 503), T).

(** What both failure paths after the branches undo. *)
Definition undo_branches (q : ChatRequest) (rid : string) T : Tables :=
  let T1 := if bool_decide (is_Some (cq_route q)) then on_network (cancel_request_evidence rid) T else T in
  if bool_decide (is_Some (cq_performance q))
  then on_network (cancel_request_evidence rid) (on_traces (rollback_uncommitted rid) T1) else T1.

(** [RequestInfo(...)] with the fields the handler sets. *)
Definition request_info (q : ChatRequest) (rid : string) (sampling : handle) (now : Z) : RequestInfo :=
  let r := new_RequestInfo rid now in
  let path f := match cq_route q with Some c => f c | None => "" end in
  mkRequestInfo rid WAITING (cq_fingerprint q) sampling (cq_token_ids q) (cq_model q)
    (prefill_instance r) (decode_instance r) (prefill_instance_epoch r) (decode_instance_epoch r)
    (arrived_at r) (prefill_start r) (kv_sent_at r) (recompute_start r) (decode_start r)
    (first_token_at r) (last_output_query_at r) (finished_at r) (recompute_count r)
    (dispatch_attempts r) (kv_size_bytes r) (block_table r) (transfer_operation_id r)
    (active_operation_id r) (decode_slot_lease_id r) (cache_source r) (cached_prefix_tokens r)
    (path cr_path) (path cr_source_instance) (path cr_target_instance)
    (match cq_route q with Some c => cr_cached_prefix_tokens c | None => 0 end)
    (affinity_started_at r) (prefix_ready_at r) (suffix_prefill_started_at r) (command_id r)
    (publish_outcome r) (dispatch_operation_ref r) (suffix_operation_ref r) (target_request_ref r)
    (target_request_commit_ref r) (target_block_table r) (transfer_source_ref r)
    (transfer_target_ref r).

(** [tracker.add(...)] and [output_buffer.ensure(req_id)], with their
    compensation. *)
Definition track_request (q : ChatRequest) (rid : string) (sampling : handle) (now : Z) :
    method Tables status := λ T,
  let '(a, tr1) := alloc (request_info q rid sampling now) (tb_tracker T) in
  match add a tr1 with
  | (Raise AssertionError, tr2) => (Ok 409, undo_branches q rid (set_tracker tr2 T))
  | (Raise e, tr2) => (Raise e, set_tracker tr2 T)
  | (Ok _, tr2) =>
      match ensure_state rid (tb_output T) with
      | (Ok _, b) => (Ok 200, set_output b (set_tracker tr2 T))
      | (Raise GatewayOutputCapacity, b) =>
          (Ok 503, undo_branches q rid (set_output b (set_tracker (SequenceState.remove rid tr2).2 T)))
      | (Raise e, b) => (Raise e, set_output b (set_tracker tr2 T))
      end
  end.

(** From the request id to the wait for the output. *)
Definition reserve_request (q : ChatRequest) (rid : string) (stream : json)
    (sampling : odict string json) (handle_ : handle) (world : result exn (odict string json)) (now : Z) :
    method Tables status :=
  x ← match cq_route q with
      | Some route => reserve_correctness route rid stream (cq_token_ids q) sampling
      | None => mret None
      end;
  match x with
  | Some s => mret s
  | None =>
      y ← match cq_performance q with
          | Some r => reserve_performance r rid world
          | None => mret None
          end;
      match y with
      | Some s => mret s
      | None => track_request q rid handle_ now
      end
  end.

(** [str(body.get("request_id") or f"chatcmpl-{uuid}")] *)
Definition request_id_of (body : odict string json) (uuid : string) : string :=
  if py_bool (jget "request_id" body) then py_str repr (jget "request_id" body)
  else "chatcmpl-" +:+ uuid.

(** The handler up to the wait: [read_at] is the clock when the body has been
    read, [tables] is [None] until the tracker and the buffer exist. *)
Definition chat_completions (a : AppState E) (default_model : string) (default_len : json)
    (config : odict string json) (tokenizer : option TokenizerAdapter) (supplied uuid : string)
    (sampling_handle : handle) (arrived read_at : Z) (body : result exn json) :
    method (option Tables) status := λ tables,
  if negb (admits arrived a) then (Ok 503, tables)
  else
    match body ≫= read_request default_model config tokenizer supplied with
    | Raise e => (if invalid_request e then Ok 422 else Raise e, tables)
    | Ok (inl s) => (Ok s, tables)
    | Ok (inr q) =>
        let d := match body with Ok (JObj d) => d | _ => [] end in
        match parse_sampling default_len d (Some (Z.of_nat (length (cq_token_ids q))))
                (default default_len (dget "max_model_len" config)) with
        | Raise ValueError => (Ok 422, tables)
        | Raise e => (Raise e, tables)
        | Ok sampling =>
            match tables with
            | None => (Ok 503, tables)
            | Some T =>
                let '(x, T') :=
                  reserve_request q (request_id_of d uuid) (jget "stream" d) sampling sampling_handle
                    (performance_world_identity config (tb_network T) read_at a) read_at T in
                (x, Some T')
            end
        end
    end.
End Chat.

(** ** Compensation *)

Definition fresh_in_network (rid : string) (n : NetworkControlRPC) : Prop :=
  (rid ∉ nc_required n) ∧ (rid ∉ nc_operations n) ∧ (rid ∉ dvalues (nc_owners n))
  ∧ (rid ∉ key_operation <$> dkeys (nc_refs n)).

(** No table knows the id. *)
Definition fresh_id (rid : string) T : Prop :=
  dget rid (trk_requests (tb_tracker T)) = None
  ∧ (∀ n, tb_network T = Some n → fresh_in_network rid n)
  ∧ (∀ g, tb_traces T = Some g → dget rid (pt_active g) = None).

(** The same tables, up to request objects no table names. *)
Definition same_tables T T' : Prop :=
  tb_network T' = tb_network T ∧ tb_traces T' = tb_traces T ∧ tb_output T' = tb_output T
  ∧ trk_requests (tb_tracker T') = trk_requests (tb_tracker T)
  ∧ trk_cleanup_tasks (tb_tracker T') = trk_cleanup_tasks (tb_tracker T).

Lemma same_tables_refl T : same_tables T T.
Proof. done. Qed.

Lemma require_evidence_cases rid n x n' :
  require_request_evidence rid n = (x, n') →
  (x = Ok tt ∧ nc_required n' = {[rid]} ∪ nc_required n ∧ nc_operations n' = {[rid]} ∪ nc_operations n
   ∧ n' = set_operations ({[rid]} ∪ nc_operations n) (NetworkRpc.set_required ({[rid]} ∪ nc_required n) n))
  ∨ (x = Raise RuntimeError ∧ n' = n).
Proof.
  unfold require_request_evidence, mbind, method_mbind, method_bind, read, Prelude.ensure, modify.
  destruct (negb _); intros [= <- <-]; auto.
Qed.

Lemma require_cancel rid n n' :
  fresh_in_network rid n → require_request_evidence rid n = (Ok tt, n') →
  cancel_request_evidence rid n' = n.
Proof.
  intros (Hr & Ho & Hw & Hk) H. apply require_evidence_cases in H as [(_ & _ & _ & ->)|[? _]]; [|done].
  unfold cancel_request_evidence, discard_correctness_request_if_unowned.
  destruct n. simpl in *. rewrite bool_decide_false by set_solver. rewrite !bool_decide_false by done.
  unfold set_operations, NetworkRpc.set_required. simpl. f_equal; apply set_eq; set_solver.
Qed.

(** Reserving and rolling back a fresh trace. *)
Lemma reserve_rollback r w g g' :
  dget (pr_request_id r) (pt_active g) = None → reserve r w g = (Ok tt, g') →
  rollback_uncommitted (pr_request_id r) g' = g.
Proof.
  unfold reserve. intros Hf. destruct (contains _ g); [done|]. case_bool_decide; [done|].
  destruct (freeze_world_identity w); [|done]. intros [= <-]. unfold rollback_uncommitted.
  simpl. rewrite dpop_dset, dpop_fresh by done. by destruct g.
Qed.

Lemma reserve_raises r w g e g' : reserve r w g = (Raise e, g') → g' = g.
Proof.
  unfold reserve. destruct (contains _ g); [by intros [= _ <-]|].
  case_bool_decide; [by intros [= _ <-]|].
  destruct (freeze_world_identity w); [done|by intros [= _ <-]].
Qed.

Lemma rollback_fresh rid g : dget rid (pt_active g) = None → rollback_uncommitted rid g = g.
Proof. intros H. unfold rollback_uncommitted. rewrite dpop_fresh by done. by destruct g. Qed.

(** What a branch that lets the request go on leaves: tables that
    [undo_branches] turns back. *)
Definition undoable (q : ChatRequest) (rid : string) T T' : Prop :=
  tb_tracker T' = tb_tracker T ∧ tb_output T' = tb_output T
  ∧ ∀ T2, tb_network T2 = tb_network T' → tb_traces T2 = tb_traces T' →
      tb_network (undo_branches q rid T2) = tb_network T
      ∧ tb_traces (undo_branches q rid T2) = tb_traces T
      ∧ tb_tracker (undo_branches q rid T2) = tb_tracker T2
      ∧ tb_output (undo_branches q rid T2) = tb_output T2.

Lemma reserve_correctness_spec q route rid stream ids sampling T x T' :
  fresh_id rid T → cq_route q = Some route → cq_performance q = None →
  reserve_correctness route rid stream ids sampling T = (x, T') →
  match x with
  | Ok None => undoable q rid T T'
  | _ => same_tables T T'
  end.
Proof.
  intros (_ & Hn & _) Hq Hp. unfold reserve_correctness.
  destruct (py_bool stream); [by intros [= <- <-]|].
  destruct (validate_fixture route ids sampling) as [|e]; [|by destruct e; intros [= <- <-]].
  case_bool_decide; [by intros [= <- <-]|]. unfold require_evidence.
  destruct (tb_network T) as [n|] eqn:HT; [|done].
  destruct (require_request_evidence rid n) as [y n'] eqn:Hr.
  pose proof (require_evidence_cases _ _ _ _ Hr) as [(-> & _)|[-> ->]]; intros [= <- <-].
  - split_and!; try done. intros T2 H1 H2. unfold undo_branches. rewrite Hq, Hp. simpl.
    rewrite H1, H2. simpl. rewrite (require_cancel _ _ _ (Hn n eq_refl) Hr). by rewrite HT.
  - destruct T. simpl in *. by subst.
Qed.

Lemma reserve_performance_spec q r rid world T x T' :
  fresh_id rid T → cq_route q = None → cq_performance q = Some r → pr_request_id r = rid →
  reserve_performance r rid world T = (x, T') →
  match x with
  | Ok None => undoable q rid T T'
  | _ => same_tables T T'
  end.
Proof.
  intros (_ & Hn & Ht) Hq Hp <-. unfold reserve_performance.
  destruct (tb_traces T) as [g|] eqn:HTt; simpl; [|by intros [= <- <-]].
  destruct (tb_network T) as [n|] eqn:HTn; simpl; [|by intros [= <- <-]].
  destruct world as [w|e].
  2:{ assert (same_tables T (on_traces (rollback_uncommitted (pr_request_id r)) T)) as Hs.
      { unfold on_traces, same_tables. simpl. rewrite HTt. simpl. by rewrite rollback_fresh by auto. }
      destruct e; intros [= <- <-]; done. }
  unfold reserve_trace. rewrite HTt. destruct (reserve r w g) as [[[]|e] g'] eqn:Hres.
  2:{ pose proof (reserve_raises _ _ _ _ _ Hres) as ->.
      assert (set_traces (Some g) T = T) as -> by (unfold set_traces; destruct T; simpl in *; congruence).
      assert (same_tables T (on_traces (rollback_uncommitted (pr_request_id r)) T)) as Hs.
      { unfold on_traces, same_tables. simpl. rewrite HTt. simpl. by rewrite rollback_fresh by auto. }
      destruct e; intros [= <- <-]; done. }
  unfold require_evidence. simpl. rewrite HTn.
  destruct (require_request_evidence (pr_request_id r) n) as [y n'] eqn:Hr.
  pose proof (require_evidence_cases _ _ _ _ Hr) as [(-> & _)|[-> ->]]; intros [= <- <-].
  - split_and!; try done. intros T2 H1 H2. unfold undo_branches. rewrite Hq, Hp. simpl.
    rewrite H1, H2. simpl. rewrite (require_cancel _ _ _ (Hn n eq_refl) Hr).
    rewrite (reserve_rollback _ _ _ _ (Ht g eq_refl) Hres). by rewrite HTn, HTt.
  - unfold same_tables. simpl. rewrite HTt, HTn, (reserve_rollback _ _ _ _ (Ht g eq_refl) Hres). done.
Qed.

(** The request is waiting in the tracker and its output exists. *)
Definition admitted (q : ChatRequest) (rid : string) (h : handle) (now : Z) T T' : Prop :=
  dget rid (trk_requests (tb_tracker T)) = None
  ∧ (∃ a, dget rid (trk_requests (tb_tracker T')) = Some a
       ∧ trk_heap (tb_tracker T') !! a = Some (request_info q rid h now))
  ∧ (∀ rid', rid' ≠ rid → dget rid' (trk_requests (tb_tracker T'))
       = dget rid' (trk_requests (tb_tracker T)))
  ∧ is_Some (dget rid (ob_states (tb_output T'))).

Lemma ensure_state_inv rid b x b' :
  ensure_state rid b = (x, b') →
  match x with
  | Ok a => dget rid (ob_states b') = Some a ∧ (is_Some (dget rid (ob_states b)) → b' = b)
  | Raise e => e = GatewayOutputCapacity ∧ b' = b
  end.
Proof.
  unfold ensure_state. destruct (dget rid (ob_states b)) as [a|] eqn:Hd; [by intros [= <- <-]|].
  case_bool_decide; intros [= <- <-]; [done|]. simpl. split; [apply dget_dset_eq|by intros []].
Qed.

Lemma request_info_id q rid h now : req_id (request_info q rid h now) = rid.
Proof. done. Qed.

Lemma track_request_cases q rid h now T x T' :
  track_request q rid h now T = (x, T') →
  let tr1 := (alloc (request_info q rid h now) (tb_tracker T)).2 in
  (is_Some (dget rid (trk_requests (tb_tracker T))) ∧ x = Ok 409
     ∧ T' = undo_branches q rid (set_tracker tr1 T))
  ∨ (dget rid (trk_requests (tb_tracker T)) = None ∧ x = Ok 503
     ∧ T' = undo_branches q rid (set_output (tb_output T) (set_tracker tr1 T)))
  ∨ (x = Ok 200 ∧ admitted q rid h now T T' ∧ tb_network T' = tb_network T ∧ tb_traces T' = tb_traces T
     ∧ (is_Some (dget rid (ob_states (tb_output T))) → tb_output T' = tb_output T)).
Proof.
  unfold track_request, alloc, add. simpl. rewrite lookup_insert_eq. rewrite request_info_id. unfold dmem.
  destruct (dget rid (trk_requests (tb_tracker T))) as [a0|] eqn:Hd.
  { intros [= <- <-]. left. by eauto. }
  destruct (ensure_state rid (tb_output T)) as [[a|e] b] eqn:He;
    pose proof (ensure_state_inv _ _ _ _ He) as Hs.
  - intros [= <- <-]. right. right. destruct Hs as [Hs1 Hs2]. split; [done|].
    split; [|split_and!; try done].
    split_and!; [done| | |by eauto]; simpl.
    + eexists. split; [apply dget_dset_eq|]. apply lookup_insert_eq.
    + intros rid' Hne. by apply dget_dset_ne.
  - destruct Hs as [-> ->]. intros [= <- <-]. right. left. split_and!; try done.
    unfold SequenceState.remove. simpl. f_equal. unfold set_output, set_tracker. simpl. f_equal.
    unfold set_requests. simpl. by rewrite dpop_dset, dpop_fresh.
Qed.

(** Every refusal leaves the tables as they were, every admission tracks the
    request. *)
Lemma reserve_request_spec q rid stream sampling h world now T x T' :
  fresh_id rid T → (cq_route q = None ∨ cq_performance q = None) →
  (∀ r, cq_performance q = Some r → pr_request_id r = rid) →
  reserve_request q rid stream sampling h world now T = (x, T') →
  (x = Ok 200 ∧ admitted q rid h now T T') ∨ (x ≠ Ok 200 ∧ same_tables T T').
Proof.
  intros Hf Hiso Hid Hrun. unfold reserve_request in Hrun.
  assert (∀ T1, undoable q rid T T1 → track_request q rid h now T1 = (x, T') →
    (x = Ok 200 ∧ admitted q rid h now T T') ∨ (x ≠ Ok 200 ∧ same_tables T T')) as Htrack.
  { intros T1 (Ht1 & Ho1 & Hu) Htr. apply track_request_cases in Htr as [(Hs & -> & ->)|[(_ & -> & ->)|H]].
    - rewrite Ht1 in Hs. destruct Hf as [Hf _]. rewrite Hf in Hs. by destruct Hs.
    - right. split; [done|]. match goal with |- same_tables T (undo_branches _ _ ?T2) =>
        destruct (Hu T2 eq_refl eq_refl) as (H1 & H2 & H3 & H4) end.
      unfold same_tables. rewrite H1, H2, H3, H4. simpl. by rewrite Ht1, Ho1.
    - destruct H as (-> & Ha & _). left. split; [done|]. unfold admitted in *. by rewrite Ht1 in Ha. }
  assert (∀ p, cq_route q = None → cq_performance q = Some p → ∀ y T1,
    reserve_performance p rid world T = (y, T1) →
    match y with Ok None => undoable q rid T T1 | _ => same_tables T T1 end) as Hperf.
  { intros p Hr Hp y T1 H. by eapply reserve_performance_spec; eauto. }
  unfold mbind, method_mbind, method_bind in Hrun.
  destruct (cq_route q) as [route|] eqn:Hr.
  - destruct Hiso as [|Hp]; [done|]. rewrite Hp in Hrun.
    destruct (reserve_correctness route rid stream (cq_token_ids q) sampling T) as [y T1] eqn:Hy.
    pose proof (reserve_correctness_spec q _ _ _ _ _ _ _ _ Hf Hr Hp Hy) as Hspec.
    destruct y as [[s|]|e]; [|by apply (Htrack T1)|].
    + injection Hrun as <- <-. right. split; [|done]. intros [= ->].
      unfold reserve_correctness in Hy. destruct (py_bool stream); [done|].
      destruct (validate_fixture _ _ _) as [|[]]; try done. case_bool_decide; [done|].
      destruct (require_evidence rid T) as [[|[]] ?]; done.
    + injection Hrun as <- <-. by right.
  - simpl in Hrun. unfold method_ret in Hrun. destruct (cq_performance q) as [p|] eqn:Hp.
    + destruct (reserve_performance p rid world T) as [y T1] eqn:Hy.
      pose proof (Hperf p eq_refl eq_refl y T1 Hy) as Hspec.
      destruct y as [[s|]|e]; [|by apply (Htrack T1)|].
      * injection Hrun as <- <-. right. split; [|done]. intros [= ->]. unfold reserve_performance in Hy.
        destruct (_ && _); [|done]. destruct (match world with Ok _ => _ | Raise _ => _ end) as [[|[]] ?]; done.
      * injection Hrun as <- <-. by right.
    + apply (Htrack T); [|done]. split_and!; try done. intros T2 H1 H2. unfold undo_branches.
      rewrite Hr, Hp. simpl. by rewrite H1, H2.
Qed.

Section Handler.
Context {E : Type}.
Context (sha : json → string) (sha_text : string → string) (repr : json → string).
Context (xxh64 : bytes → Z) (float_of_int : Z → option Q).

(** The envelopes are isolated, and a performance request is known by the id
    of its body. *)
Lemma read_request_facts dm config tok supplied body q :
  read_request sha sha_text repr xxh64 dm config tok supplied body = Ok (inr q) →
  ∃ d, body = JObj d ∧ (cq_route q = None ∨ cq_performance q = None)
    ∧ ∀ r uuid, cq_performance q = Some r → pr_request_id r = request_id_of repr d uuid.
Proof.
  unfold read_request. intros (v & _ & HR)%bind_Ok. destruct body as [| | | | | |d]; try done.
  rewrite !need_then in HR. destruct HR as (_ & _ & HR). exists d. split; [done|].
  destruct (dmem "week12_correctness" d).
  { destruct (route_parity_auth_error _ _ _); [done|]. unfold read_correctness in HR.
    apply bind_Ok in HR as (route & _ & HR). destruct (_ && _); [done|]. destruct tok; [|done].
    apply bind_Ok in HR as (ids & _ & HR). apply bind_Ok in HR as (fp & _ & HR).
    injection HR as <-. split; [by right|done]. }
  destruct (dmem "prism_performance" d).
  { destruct (performance_auth_error _ _ _); [done|]. unfold read_performance in HR. destruct tok; [|done].
    apply bind_Ok in HR as (r & Hr & HR). apply bind_Ok in HR as (fp & _ & HR). injection HR as <-. simpl.
    split; [by left|]. intros r' uuid [= <-].
    apply parse_performance_request_Ok in Hr as ((Hpat & _) & Hid & _). unfold request_id_of. rewrite Hid. simpl.
    destruct (truthy (pr_request_id r)) eqn:Ht; [done|]. apply truthy_false in Ht. by rewrite Ht in Hpat. }
  unfold read_messages in HR. apply bind_Ok in HR as (ms & _ & HR). destruct ms as [| | | | |[|m l]|]; try done.
  apply bind_Ok in HR as (texts & _ & HR). destruct tok.
  - apply bind_Ok in HR as (ids & _ & HR). apply bind_Ok in HR as (fp & _ & HR). injection HR as <-. by split; [left|].
  - apply bind_Ok in HR as (ids & _ & HR). injection HR as <-. by split; [left|].
Qed.

(** The request id of a body. *)
Definition body_request_id (body : result exn json) (uuid : string) : string :=
  match body with Ok (JObj d) => request_id_of repr d uuid | _ => "" end.

(** C21: A chat request whose id no table knows either is answered 200, which
    happens only while admission is open and leaves it waiting in the
    tracker with an output to wait on and every other request untouched; or
    it is refused, and then the evidence tables, the trace ledger, the
    tracker and the output buffer are exactly what they were, whatever step
    refused it and also when the handler raises. *)
Theorem chat_refusal_leaves_no_trace (a : AppState E) dm dl config tok supplied uuid h arrived read_at body T x tables :
  fresh_id (body_request_id body uuid) T →
  chat_completions sha sha_text repr xxh64 float_of_int a dm dl config tok supplied uuid h arrived read_at body
    (Some T) = (x, tables) →
  ∃ T', tables = Some T'
    ∧ ((x = Ok 200 ∧ admits arrived a = true
        ∧ ∃ q, admitted q (body_request_id body uuid) h read_at T T')
       ∨ (x ≠ Ok 200 ∧ same_tables T T')).
Proof.
  intros Hf. unfold chat_completions. destruct (admits arrived a); simpl.
  2:{ intros [= <- <-]. exists T. split; [done|]. by right. }
  destruct (body ≫= read_request sha sha_text repr xxh64 dm config tok supplied) as [[s|q]|e] eqn:Hread.
  - intros [= <- <-]. exists T. split; [done|]. right. split; [|done]. intros [= ->].
    apply bind_Ok in Hread as (v & _ & HR). clear -HR. unfold read_request in HR.
    apply bind_Ok in HR as (m & _ & HR). destruct v as [| | | | | |d]; try done.
    rewrite !need_then in HR. destruct HR as (_ & _ & HR).
    assert (∀ b, operator_auth_error repr b config supplied ≠ Some 200) as Hauth.
    { intros b. unfold operator_auth_error. by destruct (authorize _ _ _). }
    destruct (dmem "week12_correctness" d).
    { destruct (route_parity_auth_error _ _ _) eqn:Hau; [injection HR as ->; by apply Hauth in Hau|].
      unfold read_correctness in HR. apply bind_Ok in HR as (route & _ & HR). destruct (_ && _); [done|].
      destruct tok; [|done]. apply bind_Ok in HR as (? & _ & HR). by apply bind_Ok in HR as (? & _ & HR). }
    destruct (dmem "prism_performance" d).
    { destruct (performance_auth_error _ _ _) eqn:Hau; [injection HR as ->; by apply Hauth in Hau|].
      unfold read_performance in HR. destruct tok; [|done]. apply bind_Ok in HR as (? & _ & HR).
      by apply bind_Ok in HR as (? & _ & HR). }
    unfold read_messages in HR. apply bind_Ok in HR as (ms & _ & HR).
    destruct ms as [| | | | |[|? l]|]; try done. apply bind_Ok in HR as (? & _ & HR).
    destruct tok; apply bind_Ok in HR as (? & _ & HR); [by apply bind_Ok in HR as (? & _ & HR)|done].
  - apply bind_Ok in Hread as (v & -> & Hread).
    destruct (read_request_facts _ _ _ _ _ _ Hread) as (d & -> & Hiso & Hid). simpl in *.
    destruct (parse_sampling _ _ _ _ _) as [sampling|e].
    2:{ destruct e; intros [= <- <-]; exists T; (split; [done|]); right; split; done. }
    destruct (reserve_request _ _ _ _ _ _ _ _) as [y T'] eqn:Hres. intros [= <- <-].
    exists T'. split; [done|].
    destruct (reserve_request_spec _ _ _ _ _ _ _ _ _ _ Hf Hiso (λ r, Hid r uuid) Hres) as [[-> Ha]|[? ?]]; [|by right].
    left. eauto.
  - intros [= <- <-]. exists T. split; [done|]. right. split; [by destruct (invalid_request e)|done].
Qed.
End Handler.

(** ** Ids that are not fresh *)

(** A second correctness request with the id of one in flight is
    answered 409, as it should be; but the evidence the first one still
    needs is withdrawn with it, because registering the evidence a second
    time does nothing and cancelling it does not ask whose it is. *)
Theorem duplicate_withdraws_evidence q route rid stream sampling h world now T n x T' :
  cq_route q = Some route → cq_performance q = None →
  py_bool stream = false → validate_fixture route (cq_token_ids q) sampling = Ok tt →
  is_Some (dget rid (trk_requests (tb_tracker T))) →
  tb_network T = Some n → rid ∈ nc_required n → rid ∈ nc_operations n →
  reserve_request q rid stream sampling h world now T = (x, T') →
  x = Ok 409
  ∧ trk_requests (tb_tracker T') = trk_requests (tb_tracker T)
  ∧ ∃ n', tb_network T' = Some n' ∧ (rid ∉ nc_required n').
Proof.
  intros Hr Hp Hs Hfix Htr HT Hreq Hop. unfold reserve_request, reserve_correctness, require_evidence.
  rewrite Hr, Hp. unfold mbind, method_mbind, method_bind. rewrite Hs, Hfix, HT. simpl.
  unfold require_request_evidence, mbind, method_mbind, method_bind, read, Prelude.ensure, modify.
  rewrite bool_decide_false by (intros H; by apply H). simpl. unfold method_ret.
  intros Htrk. apply track_request_cases in Htrk as [(_ & -> & ->)|[(Hn & _)|(_ & (Hn & _) & _)]].
  2,3: simpl in Hn; rewrite Hn in Htr; by destruct Htr.
  split; [done|]. unfold undo_branches. rewrite Hr, Hp. simpl.
  split; [done|]. eexists. split; [done|].
  unfold cancel_request_evidence, discard_correctness_request_if_unowned. simpl.
  repeat case_bool_decide; simpl; set_solver.
Qed.

(** A request that reuses the id of a finished one, while the buffer
    still keeps its output, is admitted and waits on that old output: its
    first read returns the tokens of the finished request and the end of the
    stream. *)
Theorem reused_id_is_answered_stale q rid stream sampling h world now T addr st x T' :
  cq_route q = None → cq_performance q = None →
  dget rid (trk_requests (tb_tracker T)) = None →
  dget rid (ob_states (tb_output T)) = Some addr → ob_heap (tb_output T) !! addr = Some st →
  out_terminal st = true →
  reserve_request q rid stream sampling h world now T = (x, T') →
  x = Ok 200 ∧ dget rid (ob_states (tb_output T')) = Some addr
  ∧ wait_result addr 0 (tb_output T') = Some (out_token_ids st, true, out_error st).
Proof.
  intros Hr Hp Hnt Ho Hh Ht. unfold reserve_request. rewrite Hr, Hp.
  unfold mbind, method_mbind, method_bind. simpl. unfold method_ret. intros Htrk.
  assert (tb_output T' = tb_output T ∧ x = Ok 200) as [-> ->].
  { unfold track_request, alloc, add in Htrk. simpl in Htrk.
    rewrite lookup_insert_eq, request_info_id in Htrk. unfold dmem in Htrk. rewrite Hnt in Htrk.
    unfold ensure_state in Htrk. rewrite Ho in Htrk. by injection Htrk as <- <-. }
  split_and!; try done. unfold wait_result. rewrite Hh. simpl. unfold ready. rewrite Ht.
  by rewrite orb_true_r, ?orb_true_l.
Qed.

(** ** Reading the evidence of a performance request *)

Section Evidence.
Context (sha : json → string) (repr : json → string) (int_of_str : string → option Z).
Context (true_div : Z → Z → result exn Q).

(** [l.index(x)] *)
Definition index_of (x : string) (l : list string) : result exn Z :=
  match list_find (λ y, y = x) l with Some (i, _) => Ok (Z.of_nat i) | None => Raise ValueError end.
(** [members[x]] *)
Definition member_at (ms : gmap string WorkerIdentity) (x : string) : result exn WorkerIdentity :=
  match ms !! x with Some w => Ok w | None => Raise KeyError end.

(** The pair of two different instances; no two registered pairs have the
    same endpoints, so the order of the search does not matter. *)
Definition pair_between (source target : string) (r : WorkerRegistry) : option PairCapability :=
  snd <$> list_find (λ c, endpoints (pc_pair_id c) = {[source; target]}) (map_to_list (capabilities r)).*2.

Definition mapping_entry (source target : string) (c : PairCapability) (r : WorkerRegistry)
    (blocks : json * json) : result exn json :=
  let names := split_dashes (pc_pair_id c) in
  src ← py_int int_of_str blocks.1;
  dst ← py_int int_of_str blocks.2;
  ws ← member_at (members r) source;
  wt ← member_at (members r) target;
  si ← index_of source names;
  ti ← index_of target names;
  mret (JObj [("source_instance", JStr source); ("target_instance", JStr target);
              ("src_block", JInt src); ("dst_block", JInt dst); ("pair_id", JStr (pc_pair_id c));
              ("source_global_rank", JInt (wi_global_rank ws));
              ("target_global_rank", JInt (wi_global_rank wt));
              ("source_group_rank", JInt si); ("target_group_rank", JInt ti)]).

(** The fields both kinds of transport copy from the observation. *)
Definition terminal_fields (observed : odict string json) : odict string json :=
  [("work_terminal", JBool (is_True_obj (jget "work_terminal" observed)));
   ("cuda_terminal", JBool (is_True_obj (jget "cuda_terminal" observed)));
   ("gateway_clock_epoch", jget "gateway_clock_epoch" observed);
   ("transfer_started_ns", jget "transfer_started_ns" observed);
   ("transfer_terminal_ns", jget "transfer_terminal_ns" observed)].

Definition timing_complete (transport : odict string json) : bool :=
  match jget "gateway_clock_epoch" transport, jget "transfer_started_ns" transport,
        jget "transfer_terminal_ns" transport with
  | JStr epoch, JInt started, JInt terminal => truthy epoch && bool_decide (started < terminal)
  | _, _, _ => false
  end.

(** [if not c: raise RuntimeError] *)
Definition need_runtime (c : bool) : result exn unit := if c then Ok tt else Raise RuntimeError.

(** The mapping and the transport of a route. *)
Definition route_transport (require_timing : bool) (r : WorkerRegistry) (observed : odict string json)
    (source target : string) (src dst : list json) : result exn (list json * odict string json) :=
  if bool_decide (source = target) then
    _ ← need_runtime (bool_decide (src = []) && bool_decide (dst = []));
    bytes ← py_int int_of_str (default (JInt (-1)) (dget "completed_bytes" observed));
    _ ← need_runtime (bool_decide (bytes = 0));
    mret ([], [("selected_mode", JStr "NO_TRANSFER"); ("completed_bytes", JInt 0)]
              ++ terminal_fields observed)
  else match pair_between source target r with
  | None => Raise RuntimeError
  | Some c =>
      mapping ← mapR (mapping_entry source target c r) (zip src dst);
      bytes ← py_int int_of_str (default (JInt 0) (dget "completed_bytes" observed));
      let transport :=
        [("selected_mode", JStr (pc_transport c)); ("pair_id", JStr (pc_pair_id c));
         ("capability_generation", JStr (pc_probe_generation c));
         ("capability_evidence_path", JStr (pc_evidence_path c)); ("completed_bytes", JInt bytes)]
        ++ terminal_fields observed in
      _ ← need_runtime (negb (require_timing && negb (timing_complete transport)));
      mret (mapping, transport)
  end.

Definition render_request_route_evidence (network : option NetworkControlRPC)
    (registry : option WorkerRegistry) (rid : string) (require_timing : bool) :
    result exn (odict string json) :=
  match network, registry with
  | Some n, Some r =>
      match request_evidence rid n with
      | None => Raise KeyError
      | Some observed =>
          match jget "route" observed, jget "src_block_ids" observed, jget "dst_block_ids" observed with
          | JObj route, JList src, JList dst =>
              _ ← need_runtime (bool_decide (length src = length dst));
              mt ← route_transport require_timing r observed (py_str repr (jget "source" route))
                     (py_str repr (jget "target" route)) src dst;
              _ ← need_runtime (is_True_obj (jget "work_terminal" mt.2)
                                && is_True_obj (jget "cuda_terminal" mt.2));
              mret (dset "transport" (JObj mt.2) (dset "mapping" (JList mt.1) observed))
          | _, _, _ => Raise RuntimeError
          end
      end
  | _, _ => Raise RuntimeError
  end.

(** What an endpoint answers: a status and, for 200, the evidence. *)
Definition answer : Type := status * option (odict string json).

(** [GET .../performance/requests/{req_id}] of an authorized caller *)
Definition performance_request_evidence (registry : option WorkerRegistry) (rid : string) :
    method Tables answer := λ T,
  match tb_traces T with
  | None => (Ok (503, None), T)
  | Some g =>
      if bool_decide (Performance.state rid g = "unknown") then (Ok (404, None), T)
      else if bool_decide (Performance.state rid g = "tombstone") then (Ok (410, None), T)
      else if bool_decide (Performance.state rid g = "terminal") then (Ok (200, terminal_trace rid g), T)
      else match Output.snapshot rid (tb_output T) with
      | (Raise e, b) => (Raise e, set_output b T)
      | (Ok (ids, terminal, runtime_error), b) =>
          let T1 := set_output b T in
          if (negb terminal && bool_decide (runtime_error = None))
             || bool_decide (is_Some (get rid (tb_tracker T))) then (Ok (202, None), T1)
          else match render_request_route_evidence (tb_network T) registry rid true with
          | Raise e => (if invalid_request e || bool_decide (e = RuntimeError)
                        then Ok (503, None) else Raise e, T1)
          | Ok route =>
              match finalize sha int_of_str true_div rid (JInt <$> ids) runtime_error route g with
              | (Ok v, g') => (Ok (200, Some v), set_traces (Some g') T1)
              | (Raise e, g') => (if invalid_request e || bool_decide (e = RuntimeError)
                                  then Ok (503, None) else Raise e, set_traces (Some g') T1)
              end
          end
      end
  end.

(** [DELETE .../performance/requests/{req_id}] of an authorized caller *)
Definition acknowledge_performance_request_evidence (rid : string) T : status * Tables :=
  match tb_traces T with
  | None => (503, T)
  | Some g =>
      let '(state, g') := acknowledge rid g in
      let T' := set_traces (Some g') T in
      if bool_decide (state = "active") then (409, T')
      else if bool_decide (state = "unknown") then (404, T') else (204, T')
  end.
End Evidence.

Section EvidenceTheorems.
Context (sha : json → string) (repr : json → string) (int_of_str : string → option Z).
Context (true_div : Z → Z → result exn Q).

Lemma need_runtime_then {A} c (k : result exn A) y :
  (_ ← need_runtime c; k) = Ok y ↔ c = true ∧ k = Ok y.
Proof. destruct c; simpl; split; [auto|by intros []|done|by intros []]. Qed.

Lemma render_terminal network registry rid b route :
  render_request_route_evidence repr int_of_str network registry rid b = Ok route →
  ∃ transport, dget "transport" route = Some (JObj transport)
    ∧ jget "work_terminal" transport = JBool true ∧ jget "cuda_terminal" transport = JBool true.
Proof.
  unfold render_request_route_evidence. destruct network as [n|], registry as [r|]; try done.
  destruct (request_evidence rid n) as [obs|]; [|done].
  destruct (jget "route" obs); try done. destruct (jget "src_block_ids" obs); try done.
  destruct (jget "dst_block_ids" obs); try done. rewrite need_runtime_then. intros [_ HR].
  apply bind_Ok in HR as ([m t] & _ & HR). rewrite need_runtime_then in HR. destruct HR as [Hw [= <-]].
  exists t. rewrite dget_dset_eq. split; [done|]. apply andb_true_iff in Hw as [H1 H2]. simpl in H1, H2.
  split.
  - by destruct (jget "work_terminal" t) as [|[]| | | | |].
  - by destruct (jget "cuda_terminal" t) as [|[]| | | | |].
Qed.

Lemma transfer_terminal transport v :
  transfer_value int_of_str true_div (JObj transport) = Ok v →
  jget "work_terminal" v = JBool (is_True_obj (jget "work_terminal" transport))
  ∧ jget "cuda_terminal" v = JBool (is_True_obj (jget "cuda_terminal" transport)).
Proof.
  unfold transfer_value. intros (cb & _ & HR)%bind_Ok. apply bind_Ok in HR as (z & _ & HR).
  rewrite need_then in HR. destruct HR as [_ HR]. apply bind_Ok in HR as (m & _ & HR).
  apply bind_Ok in HR as (wall & _ & HR). apply bind_Ok in HR as (rate & _ & HR).
  by injection HR as <-.
Qed.

(** The end of a request as its output buffer shows it. *)
Definition output_ended (rid : string) (b : GatewayOutputBuffer) : Prop :=
  ∃ addr st, dget rid (ob_states b) = Some addr ∧ ob_heap b !! addr = Some st
    ∧ (out_terminal st = true ∨ out_error st ≠ None).

(** C38: The evidence endpoint answers 200 only with evidence that was frozen
    before, or that it freezes now for a request that has left the tracker,
    whose output has ended and whose transfer and kernels are terminal; the
    answer is then in the ledger, and asking again gives it again and
    changes nothing. *)
Theorem evidence_is_final registry rid T g v T' :
  tb_traces T = Some g → trace_inv g →
  performance_request_evidence sha repr int_of_str true_div registry rid T = (Ok (200, Some v), T') →
  (phase_of rid g = Terminal v ∧ T' = T
   ∨ phase_of rid g = Active ∧ get rid (tb_tracker T) = None ∧ output_ended rid (tb_output T')
     ∧ ∃ transfer, jget "transfer" v = JObj transfer ∧ jget "work_terminal" transfer = JBool true
         ∧ jget "cuda_terminal" transfer = JBool true)
  ∧ (∃ g', tb_traces T' = Some g' ∧ phase_of rid g' = Terminal v)
  ∧ performance_request_evidence sha repr int_of_str true_div registry rid T' = (Ok (200, Some v), T').
Proof.
  intros HT Hinv Hrun.
  assert (∀ T2 g2, tb_traces T2 = Some g2 → phase_of rid g2 = Terminal v →
    performance_request_evidence sha repr int_of_str true_div registry rid T2 = (Ok (200, Some v), T2)) as Hagain.
  { intros T2 g2 H2 Hp. unfold performance_request_evidence. rewrite H2. unfold Performance.state, dmem, terminal_trace.
    unfold phase_of in Hp. destruct (dget rid (pt_active g2)); [done|].
    destruct (dget rid (pt_terminal g2)); [|by destruct (dget rid (pt_tombstones g2))].
    by injection Hp as ->. }
  pose proof Hrun as Hrun0. unfold performance_request_evidence in Hrun. rewrite HT in Hrun.
  unfold Performance.state, dmem in Hrun.
  destruct (dget rid (pt_active g)) as [t|] eqn:Ha.
  2:{ destruct (dget rid (pt_terminal g)) as [w|] eqn:Htm; [|by destruct (dget rid (pt_tombstones g))].
      simpl in Hrun. unfold terminal_trace in Hrun. rewrite Htm in Hrun. injection Hrun as -> <-.
      assert (phase_of rid g = Terminal v) as Hp by (unfold phase_of; by rewrite Ha, Htm).
      split; [by left|]. split; [by exists g|]. by apply (Hagain T g). }
  cbn [bool_decide] in Hrun. simpl in Hrun.
  destruct (Output.snapshot rid (tb_output T)) as [[[[ids terminal] err]|e] b] eqn:Hsn; [|done].
  destruct ((negb terminal && bool_decide (err = None)) || bool_decide (is_Some (get rid (tb_tracker T))))
    eqn:Hbusy; [done|]. apply orb_false_iff in Hbusy as [Hend Htr]. apply bool_decide_eq_false in Htr.
  destruct (render_request_route_evidence _ _ _ _ _ _) as [route|e] eqn:Hroute.
  2:{ by destruct (invalid_request e || _). }
  destruct (finalize _ _ _ _ _ _ _ g) as [[w|e] g'] eqn:Hfin.
  2:{ by destruct (invalid_request e || _). }
  injection Hrun as -> <-.
  unfold finalize in Hfin. rewrite (ti_active_terminal _ Hinv), Ha in Hfin by (by rewrite Ha).
  destruct (build_evidence _ _ _ _ _ _ _ _) as [w|e] eqn:Hb; [|done]. injection Hfin as -> <-.
  assert (phase_of rid (mkRegistry (pt_capacity g) (dpop rid (pt_active g))
    (dset rid v (pt_terminal g)) (pt_tombstones g)) = Terminal v) as Hp.
  { unfold phase_of. simpl. by rewrite dget_dpop_eq, dget_dset_eq. }
  split; [|split; [eexists; split; [done|exact Hp]|by eapply Hagain]].
  right. split_and!.
  - unfold phase_of. by rewrite Ha.
  - destruct (get rid (tb_tracker T)); [|done]. by destruct Htr.
  - unfold Output.snapshot in Hsn. destruct (ensure_state rid (tb_output T)) as [[addr|] b'] eqn:Hen; [|done].
    destruct (ob_heap b' !! addr) as [st|] eqn:Hh; [|done]. injection Hsn as <- <- <- <-.
    apply ensure_state_inv in Hen as [Hd _]. exists addr, st. split_and!; try done.
    destruct (out_terminal st); [by left|]. right. simpl in Hend. by apply bool_decide_eq_false in Hend.
  - apply build_evidence_inv in Hb as (tv & transfer & rv & Htv & Htr2 & _ & _ & ->).
    exists transfer. split; [done|].
    apply render_terminal in Hroute as (tp & Htp & Hw & Hc). rewrite Htp in Htv. injection Htv as <-.
    apply transfer_terminal in Htr2 as [-> ->]. by rewrite Hw, Hc.
Qed.
End EvidenceTheorems.

(** ** Concrete requests *)

Module Demo.
Definition float_of_int (z : Z) : option Q := Some (inject_Z z).
Definition xxh64 (b : bytes) : Z := 0.
Definition body : odict string json :=
  [("model", JStr "m"); ("request_id", JStr "r1");
   ("messages", JList [JObj [("role", JStr "user"); ("content", JStr "hi")]]);
   ("input_token_ids", JList [JInt 5; JInt 7])].
Definition buffer (cap : Z) : GatewayOutputBuffer := mkGatewayOutputBuffer cap 4 ∅ [] [].
Definition tables (cap : Z) : Tables := mkTables None None empty_tracker (buffer cap).
Definition run (cap : Z) :=
  chat_completions Performance.Demo.sha Performance.Demo.sha_text FaultGate.Demo.repr xxh64 float_of_int
    Admission.Demo.swept "m" (JInt 100) [] None "" "u" 0%nat 5 5 (Ok (JObj body)) (Some (tables cap)).

Lemma tables_fresh cap : fresh_id "r1" (tables cap).
Proof. by split_and!. Qed.
Lemma run_full : (run 0).1 = Ok 503.
Proof. vm_compute. reflexivity. Qed.
Lemma run_ok : (run 2).1 = Ok 200.
Proof. vm_compute. reflexivity. Qed.

(** A correctness request in flight, and a second one with its id. *)
Definition route : CorrectnessRoute := mkCorrectnessRoute "seed_d0" "p1" "d0" 0 false.
Definition tokens : list Z := repeat 1 513.
Definition sampling : odict string json :=
  [("temperature", JFloat 0); ("max_tokens", JInt 1); ("ignore_eos", JBool true)].
Definition seed : ChatRequest := mkChatRequest "m" (Some route) None tokens None.
Definition first :=
  reserve_request seed "r1" JNull sampling 0%nat (Raise RuntimeError) 5
    (mkTables (Some demo_net) None empty_tracker (buffer 2)).
Definition second := reserve_request seed "r1" JNull sampling 0%nat (Raise RuntimeError) 6 first.2.
Definition first_net : NetworkControlRPC := default demo_net (tb_network first.2).

(** A finished request whose output is still kept. *)
Definition plain : ChatRequest := mkChatRequest "m" None None [5; 7] None.
Definition kept : Tables :=
  mkTables None None empty_tracker
    (mkGatewayOutputBuffer 2 4 {[0%nat := mkOutputState [11; 12] true None]} [("r1", 0%nat)] ["r1"]).
Definition reused := reserve_request plain "r1" JNull sampling 0%nat (Raise RuntimeError) 5 kept.

(** The performance request of the ledger's example, finished. *)
Definition observed : odict string json :=
  [("path", JStr "same_instance"); ("route", JObj [("source", JStr "d1"); ("target", JStr "d1")]);
   ("src_block_ids", JList []); ("dst_block_ids", JList []); ("completed_bytes", JInt 0);
   ("cached_prefix_tokens", JInt 512); ("suffix_tokens", JInt 2);
   ("work_terminal", JBool true); ("cuda_terminal", JBool true); ("gateway_clock_epoch", JStr "ce")].
Definition finished : Tables :=
  mkTables (Some (set_evidence [("bench-1", observed)] demo_net)) (Some Performance.Demo.seen) empty_tracker
    (mkGatewayOutputBuffer 2 4 {[0%nat := mkOutputState [1; 2] true None]} [("bench-1", 0%nat)] []).
Definition asked :=
  performance_request_evidence Performance.Demo.sha FaultGate.Demo.repr Performance.Demo.int_of_str
    Performance.Demo.true_div (Some demo_ready) "bench-1" finished.
Definition evidence : odict string json :=
  match asked.1 with Ok (_, Some v) => v | _ => [] end.
Lemma asked_ok : asked = (Ok (200, Some evidence), asked.2).
Proof. vm_compute. reflexivity. Qed.
Lemma evidence_passes : jget "status" evidence = JStr "PASS".
Proof. vm_compute. reflexivity. Qed.

(** A token the harness accepts as an unsigned 64-bit integer and the
    fingerprint cannot pack: the handler raises instead of answering 422. *)
Definition adapter : TokenizerAdapter :=
  mkTokenizerAdapter (λ _, Ok []) (λ _, Ok []) (mkTokenizerIdentity "m" "r" "t" 1 "h" "kv1") "ns".
Lemma large_token_raises :
  read_correctness xxh64 [] (Some adapter) "m"
    [("week12_correctness", JObj [("path", JStr "cold")]); ("input_token_ids", JList [JInt (2 ^ 63)])]
  = Raise StructError ∧ invalid_request StructError = false.
Proof. vm_compute. done. Qed.

(** An in-flight trace is dropped when a second request with its id arrives
    while the worker reports are stale. *)
Lemma stale_world_drops_trace :
  let T := mkTables (Some demo_net) (Some Performance.Demo.seen) empty_tracker (buffer 2) in
  let q := mkChatRequest "m" None (Some Performance.Demo.request) [5; 7] None in
  let y := reserve_request q "bench-1" (JBool true) sampling 0%nat (Raise RuntimeError) 5 T in
  y.1 = Ok 503 ∧ Performance.state "bench-1" Performance.Demo.seen = "active"
  ∧ Performance.state "bench-1" <$> tb_traces y.2 = Some "unknown".
Proof. vm_compute. done. Qed.
End Demo.

Lemma chat_refusal_leaves_no_trace_witness :
  (Demo.run 0).1 = Ok 503 ∧ ∃ T', (Demo.run 0).2 = Some T' ∧ same_tables (Demo.tables 0) T'.
Proof.
  split; [exact Demo.run_full|].
  destruct (chat_refusal_leaves_no_trace Performance.Demo.sha Performance.Demo.sha_text FaultGate.Demo.repr
    Demo.xxh64 Demo.float_of_int Admission.Demo.swept "m" (JInt 100) [] None "" "u" 0%nat 5 5
    (Ok (JObj Demo.body)) (Demo.tables 0) (Demo.run 0).1 (Demo.run 0).2 (Demo.tables_fresh 0)
    (surjective_pairing (Demo.run 0))) as (T' & HT & [(H & _)|(_ & Hs)]).
  - rewrite Demo.run_full in H. discriminate.
  - exists T'. split; [exact HT|exact Hs].
Defined.

Lemma duplicate_withdraws_evidence_witness :
  "r1" ∈ nc_required Demo.first_net ∧ Demo.second.1 = Ok 409
  ∧ ∃ n', tb_network Demo.second.2 = Some n' ∧ (("r1" : string) ∉ nc_required n').
Proof.
  assert ("r1" ∈ nc_required Demo.first_net) as Hin
    by (apply (bool_decide_eq_true_1 _); vm_compute; reflexivity).
  split; [exact Hin|].
  destruct (duplicate_withdraws_evidence Demo.seed Demo.route "r1" JNull Demo.sampling 0%nat
    (Raise RuntimeError) 6 Demo.first.2 Demo.first_net Demo.second.1 Demo.second.2) as (Hx & _ & Hn).
  - reflexivity.
  - reflexivity.
  - reflexivity.
  - vm_compute. reflexivity.
  - eexists. vm_compute. reflexivity.
  - unfold Demo.first_net. destruct (tb_network Demo.first.2) eqn:Hn; [reflexivity|vm_compute in Hn; discriminate].
  - exact Hin.
  - apply (bool_decide_eq_true_1 _). vm_compute. reflexivity.
  - apply surjective_pairing.
  - split; [exact Hx|exact Hn].
Defined.

Lemma reused_id_is_answered_stale_witness :
  Demo.reused.1 = Ok 200
  ∧ wait_result 0 0 (tb_output Demo.reused.2) = Some ([11; 12], true, None).
Proof.
  destruct (reused_id_is_answered_stale Demo.plain "r1" JNull Demo.sampling 0%nat (Raise RuntimeError) 5
    Demo.kept 0%nat (mkOutputState [11; 12] true None) Demo.reused.1 Demo.reused.2) as (Hx & _ & Hw);
    try reflexivity.
  split; [exact Hx|exact Hw].
Defined.

Lemma evidence_is_final_witness :
  jget "status" Demo.evidence = JStr "PASS"
  ∧ performance_request_evidence Performance.Demo.sha FaultGate.Demo.repr Performance.Demo.int_of_str
      Performance.Demo.true_div (Some demo_ready) "bench-1" Demo.asked.2
    = (Ok (200, Some Demo.evidence), Demo.asked.2).
Proof.
  split; [exact Demo.evidence_passes|].
  destruct (evidence_is_final Performance.Demo.sha FaultGate.Demo.repr Performance.Demo.int_of_str
    Performance.Demo.true_div (Some demo_ready) "bench-1" Demo.finished Performance.Demo.seen Demo.evidence
    Demo.asked.2 eq_refl Performance.Demo.seen_inv Demo.asked_ok) as (_ & _ & H).
  exact H.
Defined.
