(* ===== verification/Bootstrap.v ===== *)
(** * Start-up of the gateway (gateway/app.py)

    The retried stages of the start-up, the assembly of the first worker
    world and the takeover of the workers by the new owner through a client
    that lets no foreign owner pass.  As in Takeover.v a coroutine with a loop
    takes fuel and [None] means that it is still running; the clock, the
    pause, the moment [wait_for] cuts an attempt and the exceptions behind an
    exception ([__cause__] or [__context__]) belong to the environment. *)

From S2P Require Import Prelude PyDict Json WorkerRegistry TopologyAdmin HttpRpc Takeover Admission.
From stdpp Require Import prelude gmap strings.

Local Open Scope Z_scope.

Definition GATEWAY_BOOTSTRAP_TIMEOUT : Z := 570 * 10 ^ 9.
Definition WEEK12_WORKER_IDS : list string := ["p0"; "p1"; "d0"; "d1"].

(** What a stage may raise. *)
Inductive boot_exn : Type :=
| BootRPC (e : rpc_exn)
| NATSNoServersError
| NATSConnectionClosedError
| NATSStaleConnectionError
| NATSTimeoutError.

(** [_gateway_bootstrap_retryable] on an exception and those behind it: the
    first that is known to be transient or is an RPC answer decides. *)
Fixpoint gateway_bootstrap_retryable (chain : list boot_exn) : bool :=
  match chain with
  | [] => false
  | e :: behind =>
      match e with
      | BootRPC (PyError GatewayBootstrapNotReady) | BootRPC (AmbiguousRPCError _)
      | BootRPC (PyError ConnectionError) | BootRPC (PyError TimeoutError)
      | NATSNoServersError | NATSConnectionClosedError | NATSStaleConnectionError
      | NATSTimeoutError => true
      | BootRPC (InferRPCError status _) => bool_decide (status = 503)
      | BootRPC (PyError _) => gateway_bootstrap_retryable behind
      end
  end.

Definition validate_operator_harness_config (repr : json → string) (config : odict string json) :
    result exn bool :=
  let flag k := v ← subscript (JObj config) k; mret (py_bool v) in
  correctness ← flag "correctness_harness_enabled";
  performance ← flag "performance_harness_enabled";
  route_parity ← flag "route_parity_harness_enabled";
  if correctness && performance then Raise RuntimeError
  else if negb (correctness || performance || route_parity) then mret false
  else
    secret ← subscript (JObj config) "correctness_harness_secret";
    if bool_decide (String.length (py_str repr secret) < 32)%nat then Raise RuntimeError
    else
      multinode ← flag "multinode_e2e_enabled";
      if negb multinode then Raise RuntimeError
      else
        affinity ← flag "affinity_enabled";
        if negb affinity && negb (performance && route_parity && negb correctness)
        then Raise RuntimeError
        else if performance && negb route_parity then Raise RuntimeError
        else mret true.

(** The mounted topology: its generation, and the fence that stays up until it
    is accepted. *)
Definition mount_topology {E} (repr : json → string) (topology config : odict string json) :
    method (AppState E) string := λ a,
  let generation := py_str_or_empty repr (jget "topology_generation" topology) in
  if negb (truthy generation) then (Raise RuntimeError, a)
  else
    let accepted := match jget "accepted_topology_generation" topology with
                    | JNull => jget "topology_generation" config | v => v end in
    let required := bool_decide (py_str_or_empty repr accepted ≠ generation) in
    let a' := set_pending (if required then Some generation else None) (set_required required a) in
    match jget "endpoints" topology with
    | JObj d => if keys_are d WEEK12_WORKER_IDS then (Ok generation, a') else (Raise RuntimeError, a')
    | _ => (Raise RuntimeError, a')
    end.

(** ** A retried stage *)

Section Stage.
Context {S : Type} (clock : S → Z) (sleep : Z → S → S).
(** Where [wait_for] leaves an attempt it has to cut; [None] when the attempt
    ends in time. *)
Context (cut : Z → S → option S).
Context (behind : boot_exn → S → list boot_exn).

Definition stage (A : Type) : Type := S → option (result boot_exn A * S).

Definition wait_for {A} (timeout : Z) (op : stage A) : stage A := λ s,
  match cut timeout s with
  | Some s' => Some (Raise (BootRPC (PyError TimeoutError)), s')
  | None => op s
  end.

(** A cancellation, or an error that is not retried. *)
Definition gives_up (e : boot_exn) (s : S) : bool :=
  match e with BootRPC (PyError CancelledError) => true | _ => false end
  || negb (gateway_bootstrap_retryable (e :: behind e s)).

Fixpoint run_stage {A} (fuel : nat) (op : stage A) (deadline interval : Z) : stage A := λ s,
  match fuel with
  | O => None
  | Datatypes.S fuel' =>
      let remaining := deadline - clock s in
      if bool_decide (remaining ≤ 0) then Some (Raise (BootRPC (PyError RuntimeError)), s)
      else match wait_for remaining op s with
      | None => None
      | Some (Ok a, s') => Some (Ok a, s')
      | Some (Raise e, s') =>
          if gives_up e s' then Some (Raise e, s')
          else
            let remaining := deadline - clock s' in
            if bool_decide (remaining ≤ 0) then Some (Raise (BootRPC (PyError RuntimeError)), s')
            else run_stage fuel' op deadline interval (sleep (Z.min interval remaining) s')
      end
  end.

Definition run_gateway_bootstrap_stage {A} (fuel : nat) (op : stage A) (deadline interval : Z) :
    stage A := λ s,
  if bool_decide (interval ≤ 0) then Some (Raise (BootRPC (PyError ValueError)), s)
  else run_stage fuel op deadline interval s.

#[local] Instance stage_mret : MRet stage := λ A a s, Some (Ok a, s).
#[local] Instance stage_mbind : MBind stage := λ A B k m s,
  match m s with
  | Some (Ok a, s') => k a s'
  | Some (Raise e, s') => Some (Raise e, s')
  | None => None
  end.
(** A coroutine of the clients as a stage. *)
Definition of_rpc {A} (m : rpc S A) : stage A := λ s,
  match m s with (Ok a, s') => Some (Ok a, s') | (Raise e, s') => Some (Raise (BootRPC e), s') end.
Definition of_tk {A} (m : S → option (result rpc_exn A * S)) : stage A := λ s,
  match m s with
  | Some (Ok a, s') => Some (Ok a, s')
  | Some (Raise e, s') => Some (Raise (BootRPC e), s')
  | None => None
  end.

(** [asyncio.gather] of one call per argument: all of them run, the first
    exception is raised. *)
Fixpoint gather_all {A B} (f : A → rpc S B) (l : list A) : rpc S (list B) := λ s,
  match l with
  | [] => (Ok [], s)
  | x :: l' =>
      let '(y, s1) := f x s in
      let '(ys, s2) := gather_all f l' s1 in
      (match y, ys with Ok b, Ok bs => Ok (b :: bs) | Raise e, _ => Raise e | _, Raise e => Raise e end, s2)
  end.

(** ** The evidence of one worker *)

(** [isinstance(d[field], str) and d[field]] *)
Definition required_text (d : odict string json) (field : string) : result exn string :=
  match jget field d with JStr s => _ ← need (truthy s); mret s | _ => Raise ValueError end.

Definition worker_identity (i : string) (d : odict string json) : result exn WorkerIdentity :=
  _ ← need (forallb (λ k, dmem k d) WORKER_IDENTITY_FIELDS);
  instance_id ← required_text d "instance_id";
  role ← required_text d "role";
  generation ← required_text d "topology_generation";
  pod_uid ← required_text d "pod_uid";
  process_generation ← required_text d "process_generation";
  rpc_endpoint ← required_text d "rpc_endpoint";
  topology_digest ← required_text d "topology_digest";
  kv ← required_text d "kv_compatibility_id";
  match jget "global_rank" d with
  | JInt rank =>
      if bool_decide (instance_id = i)
      then Ok (mkWorkerIdentity instance_id role generation pod_uid process_generation rpc_endpoint
                 rank topology_digest kv)
      else Raise RuntimeError
  | _ => Raise ValueError
  end.

Definition pair_attestation (d : odict string json) : result exn PairCapability :=
  _ ← need (forallb (λ k, dmem k d) CAPABILITY_FIELDS);
  pair_id ← required_text d "pair_id";
  source_epoch ← required_text d "source_epoch";
  target_epoch ← required_text d "target_epoch";
  transport ← required_text d "transport";
  probe_generation ← required_text d "probe_generation";
  evidence_path ← required_text d "evidence_path";
  match jget "probe_passed" d with
  | JBool probe_passed =>
      Ok (mkPairCapability pair_id source_epoch target_epoch transport probe_generation probe_passed
            evidence_path)
  | _ => Raise ValueError
  end.

Fixpoint worker_pairs (i : string) (l : list json) (seen : gset string) : result exn (list PairCapability) :=
  match l with
  | [] => Ok []
  | JObj d :: l' =>
      c ← pair_attestation d;
      if bool_decide (pc_pair_id c ∈ seen) then Raise RuntimeError
      else if negb (bool_decide (i ∈ endpoints (pc_pair_id c))) then Raise RuntimeError
      else rest ← worker_pairs i l' ({[pc_pair_id c]} ∪ seen); Ok (c :: rest)
  | _ :: _ => Raise ValueError
  end.

Definition worker_capabilities (i : string) (d : odict string json) : result exn (list PairCapability) :=
  match dget "ready" d with
  | None => Raise ValueError
  | Some (JBool false) => Raise GatewayBootstrapNotReady
  | Some (JBool true) => match jget "pairs" d with JList l => worker_pairs i l ∅ | _ => Raise ValueError end
  | Some _ => Raise ValueError
  end.

Definition complete_report (d : odict string json) : result exn unit :=
  match dget "complete" d with
  | None => Raise ValueError
  | Some (JBool false) => Raise GatewayBootstrapNotReady
  | Some (JBool true) => Ok tt
  | Some _ => Raise ValueError
  end.

(** What a worker is known by: identity, pairs, report and its arrival. *)
Definition evidence : Type := WorkerIdentity * list PairCapability * odict string json * Z.

Definition worker_evidence (i : string) (identity capability report : odict string json) (at_ : Z) :
    result exn evidence :=
  w ← worker_identity i identity;
  caps ← worker_capabilities i capability;
  _ ← complete_report report;
  mret (w, caps, report, at_).

Context `{InferClient S}.

(** Identity, capabilities and report are gathered; the report is stamped
    when it arrives. *)
Definition pull_worker_evidence (i : string) : rpc S evidence := λ s,
  let '(identity, s1) := get_identity i s in
  let '(capability, s2) := get_capabilities i s1 in
  let '(report, s3) := get_resources i s2 in
  match identity, capability, report with
  | Raise e, _, _ | Ok _, Raise e, _ | Ok _, Ok _, Raise e => (Raise e, s3)
  | Ok d, Ok c, Ok r => lift (worker_evidence i d c r (clock s3)) s3
  end.

(** ** The first world *)

(** [capability_attestations.setdefault(pair_id, {})[instance_id] = capability] *)
Definition attest_pair (i : string) (at_ : odict string (odict string PairCapability)) (c : PairCapability) :
    odict string (odict string PairCapability) :=
  dset (pc_pair_id c) (dset i c (default [] (dget (pc_pair_id c) at_))) at_.
Definition attestations (found : list (string * evidence)) : odict string (odict string PairCapability) :=
  foldl (λ at_ ie, foldl (attest_pair ie.1) at_ ie.2.1.1.2) [] found.

(** [all(registry.update_resource_report(...) for ...)] *)
Fixpoint report_all (found : list (string * evidence)) (now : Z) (r : WorkerRegistry) : bool * WorkerRegistry :=
  match found with
  | [] => (true, r)
  | (i, ev) :: found' =>
      let '(ok, r') := update_resource_report i ev.1.2 (Some ev.2) now r in
      if ok then report_all found' now r' else (false, r')
  end.

(** The synchronous end of the round. *)
Definition assemble_world (found : list (string * evidence)) (now : Z) (r0 : WorkerRegistry) :
    result exn WorkerRegistry :=
  caps ← collapse_pair_attestations (λ c c', bool_decide (c = c')) (attestations found);
  match install_world ((λ ie, ie.2.1.1.1) <$> found) (dvalues caps) r0 with
  | (Raise e, _) => Raise e
  | (Ok false, _) => Raise RuntimeError
  | (Ok true, r1) =>
      match report_all found now r1 with
      | (false, _) => Raise RuntimeError
      | (true, r2) => if reg_world_fresh r2 now then Ok r2 else Raise GatewayBootstrapNotReady
      end
  end.

Fixpoint pull_all (fuel : nat) (deadline interval : Z) (l : list string) : stage (list (string * evidence)) :=
  match l with
  | [] => mret []
  | i :: l' =>
      ev ← run_gateway_bootstrap_stage fuel (of_rpc (pull_worker_evidence i)) deadline interval;
      rest ← pull_all fuel deadline interval l';
      mret ((i, ev) :: rest)
  end.

(** The round of [_bootstrap_week12_http_control] on a new registry. *)
Definition bootstrap_world (fuel : nat) (deadline interval : Z) (r0 : WorkerRegistry) : stage WorkerRegistry :=
  found ← pull_all fuel deadline interval WEEK12_WORKER_IDS;
  now ← (λ s, Some (Ok (clock s), s)) : stage Z;
  of_rpc (lift (assemble_world found now r0)).

(** ** Taking the workers over *)

Definition bootstrap_active_owner (v : odict string json) : result exn (option string) :=
  match dget "active_owner" v with
  | None => Raise ValueError
  | Some JNull => Ok None
  | Some (JStr s) => _ ← need (truthy s); mret (Some s)
  | Some _ => Raise ValueError
  end.

(** [_BootstrapOwnerClient]: every call goes through, but the owner status of
    a foreign owner raises. *)
Definition owner_is_known (new_owner : string) (prior : gset string) (o : option string) : bool :=
  match o with None => true | Some x => bool_decide (x = new_owner) || bool_decide (x ∈ prior) end.
Definition BootstrapOwnerClient (new_owner : string) (prior : gset string) : InferClient S :=
  λ mth i path body ref,
    if bool_decide (mth = "GET") && bool_decide (path = "/v1/owners/status") then
      v ← client_request mth i path body ref;
      o ← lift (bootstrap_active_owner v);
      if owner_is_known new_owner prior o then mret v else throw (PyError RuntimeError)
    else client_request mth i path body ref.

(** The owners the workers report, less the new one; they have to agree. *)
Definition prior_owners_of (new_owner : string) (values : list (odict string json)) : result exn (gset string) :=
  os ← mapR bootstrap_active_owner values;
  let active : gset string :=
    list_to_set (omap (λ o, match o with
                            | Some x => if bool_decide (x = new_owner) then None else Some x
                            | None => None end) os) in
  if bool_decide (1 < size active)%nat then Raise RuntimeError else Ok active.
Definition read_initial_owners (ordered : list string) (new_owner : string) : rpc S (gset string) :=
  values ← gather_all owner_status ordered; lift (prior_owners_of new_owner values).

Definition bootstrap_replacement_owner (sha repr : json → string) (fuel : nat) (instances : list string)
    (new_owner : string) (max_audit_entries : Z) (deadline : option Z) (interval : Z) :
    stage OwnerTakeoverAudit :=
  _ ← of_rpc (lift (need (bool_decide (instances ≠ []) && bool_decide (NoDup instances))));
  _ ← of_rpc (lift (need (truthy new_owner)));
  now ← (λ s, Some (Ok (clock s), s)) : stage Z;
  let deadline := default (now + GATEWAY_BOOTSTRAP_TIMEOUT) deadline in
  let ordered := sort_by String.le id instances in
  prior ← run_gateway_bootstrap_stage fuel (of_rpc (read_initial_owners ordered new_owner)) deadline interval;
  run_gateway_bootstrap_stage fuel
    (of_tk (activate_replacement_owner (H := BootstrapOwnerClient new_owner prior) sha repr clock sleep fuel
              ordered new_owner max_audit_entries (Some deadline) interval))
    deadline interval.
End Stage.

(** ** A stage ends *)

Section Ends.
Context {S A : Type} (clock : S → Z) (sleep : Z → S → S) (cut : Z → S → option S).
Context (behind : boot_exn → S → list boot_exn) (op : stage (S := S) A) (deadline interval : Z).

Abbreviation attempt := (λ d, wait_for cut d op).

(** What a stage returns or raises: what an attempt begun before the deadline
    did, or that the deadline has passed. *)
Definition stage_outcome (s : S) (x : result boot_exn A) (s' : S) : Prop :=
  (x = Raise (BootRPC (PyError RuntimeError)) ∧ deadline ≤ clock s')
  ∨ ∃ s1, clock s ≤ clock s1 < deadline ∧ attempt (deadline - clock s1) s1 = Some (x, s')
      ∧ match x with Ok _ => True | Raise e => gives_up behind e s' = true end.

Lemma run_stage_ends fuel s :
  0 < interval → (∀ d s, attempt d s ≠ None) →
  (∀ d s x s', attempt d s = Some (x, s') → clock s ≤ clock s') →
  (∀ d s, clock s + d ≤ clock (sleep d s)) →
  (Z.to_nat (deadline - clock s) + 1 ≤ fuel)%nat →
  ∃ x s', run_stage clock sleep cut behind fuel op deadline interval s = Some (x, s')
    ∧ stage_outcome s x s'.
Proof.
  intros Hi Hop Hclk Hsl. revert s. induction fuel as [|fuel IH]; intros s Hf; [lia|]. simpl.
  case_bool_decide as Hd; [eexists _, _; split; [done|]; left; split; [done|lia]|].
  destruct (wait_for cut (deadline - clock s) op s) as [[x s1]|] eqn:Ha; [|by apply Hop in Ha].
  pose proof (Hclk _ _ _ _ Ha) as Hc1.
  destruct x as [v|e].
  { eexists _, _. split; [done|]. right. exists s. split_and!; try done; lia. }
  destruct (gives_up behind e s1) eqn:Hg.
  { eexists _, _. split; [done|]. right. exists s. split_and!; try done; lia. }
  case_bool_decide as Hd2; [eexists _, _; split; [done|]; left; split; [done|lia]|].
  set (s2 := sleep (Z.min interval (deadline - clock s1)) s1).
  pose proof (Hsl (Z.min interval (deadline - clock s1)) s1) as Hc2. fold s2 in Hc2.
  destruct (IH s2) as (y & s' & Hrun & Hout); [lia|]. exists y, s'. split; [done|].
  destruct Hout as [?|(s3 & ? & ?)]; [by left|]. right. exists s3. split; [lia|done].
Qed.

(** A stage of the start-up always ends.  When every attempt ends, the
    clock does not go back and a pause lasts as long as asked, the stage
    returns what an attempt begun before the deadline returned, or raises
    what such an attempt raised if that was a cancellation or is not to be
    retried, or reports that the deadline has passed; it retries at most once
    for every nanosecond left. *)
Theorem bootstrap_stage_ends fuel s :
  0 < interval → (∀ d s, attempt d s ≠ None) →
  (∀ d s x s', attempt d s = Some (x, s') → clock s ≤ clock s') →
  (∀ d s, clock s + d ≤ clock (sleep d s)) →
  (Z.to_nat (deadline - clock s) + 1 ≤ fuel)%nat →
  ∃ x s', run_gateway_bootstrap_stage clock sleep cut behind fuel op deadline interval s = Some (x, s')
    ∧ stage_outcome s x s'.
Proof.
  intros Hi. unfold run_gateway_bootstrap_stage. rewrite bool_decide_false by lia. by apply run_stage_ends.
Qed.
End Ends.

(** ** The first world is proven *)

Section FirstWorld.
Context {S : Type} `{InferClient S} (clock : S → Z) (sleep : Z → S → S) (cut : Z → S → option S).
Context (behind : boot_exn → S → list boot_exn).

(** What a stage returns, an attempt returned. *)
Lemma stage_returns {A} fuel (op : stage A) deadline interval (s : S) a s' :
  run_gateway_bootstrap_stage clock sleep cut behind fuel op deadline interval s = Some (Ok a, s') →
  ∃ s1, op s1 = Some (Ok a, s').
Proof.
  unfold run_gateway_bootstrap_stage. case_bool_decide; [done|]. revert s.
  induction fuel as [|fuel IH]; intros s; simpl; [done|]. case_bool_decide; [done|]. unfold wait_for.
  destruct (cut _ s) as [s1|].
  - destruct (gives_up _ _ s1); [done|]. case_bool_decide; [done|]. apply IH.
  - destruct (op s) as [[[b|e] s1]|] eqn:Hop; [intros [= -> ->]; by exists s| |done].
    destruct (gives_up _ _ s1); [done|]. case_bool_decide; [done|]. apply IH.
Qed.

Lemma pull_worker_evidence_id i s ev s' :
  pull_worker_evidence clock i s = (Ok ev, s') → wi_instance_id ev.1.1.1 = i.
Proof.
  unfold pull_worker_evidence. destruct (get_identity i s) as [[d|] s1], (get_capabilities i s1) as [[c|] s2],
    (get_resources i s2) as [[r|] s3]; try done.
  unfold lift. destruct (worker_evidence i d c r (clock s3)) as [x|] eqn:Hev; [|done]. intros [= <- <-].
  unfold worker_evidence in Hev. apply bind_Ok in Hev as (w & Hw & HR).
  apply bind_Ok in HR as (caps & _ & HR). apply bind_Ok in HR as ([] & _ & HR). injection HR as <-. simpl.
  unfold worker_identity in Hw. rewrite need_then in Hw. destruct Hw as [_ Hw].
  do 8 (apply bind_Ok in Hw as (? & _ & Hw)). destruct (jget "global_rank" d); try done.
  case_bool_decide; [|done]. by injection Hw as <-.
Qed.

Lemma pull_all_found fuel deadline interval l (s : S) found s' :
  pull_all clock sleep cut behind fuel deadline interval l s = Some (Ok found, s') →
  found.*1 = l ∧ Forall (λ ie, wi_instance_id ie.2.1.1.1 = ie.1) found.
Proof.
  revert s found. induction l as [|i l IH]; intros s found; simpl; [by intros [= <- <-]|].
  unfold mbind, stage_mbind.
  destruct (run_gateway_bootstrap_stage _ _ _ _ _ _ _ _ s) as [[[ev|] s1]|] eqn:Hst; try done.
  destruct (pull_all _ _ _ _ _ _ _ l s1) as [[[rest|] s2]|] eqn:Hp; try done.
  intros [= <- <-]. destruct (IH _ _ Hp) as [H1 H2]. simpl. split; [by f_equal|].
  constructor; [|done]. apply stage_returns in Hst as (s0 & Hop). unfold of_rpc in Hop.
  destruct (pull_worker_evidence clock i s0) as [[x|] s3] eqn:Hev; [|done]. injection Hop as -> ->.
  by eapply pull_worker_evidence_id.
Qed.

(** The attestations come from the workers that are filed under them. *)
Definition filed (found : list (string * evidence)) (at_ : odict string (odict string PairCapability)) : Prop :=
  dwf at_ ∧ (∀ p m, dget p at_ = Some m → dwf m)
  ∧ ∀ p i c, dget p at_ ≫= dget i = Some c →
      pc_pair_id c = p ∧ ∃ ev, (i, ev) ∈ found ∧ c ∈ ev.1.1.2.

Lemma attest_filed found i ev caps at_ :
  (i, ev) ∈ found → (∀ c, c ∈ caps → c ∈ ev.1.1.2) → filed found at_ →
  filed found (foldl (attest_pair i) at_ caps).
Proof.
  intros Hin. revert at_. induction caps as [|c caps IH]; intros at_ Hc Hat; [done|]. simpl.
  apply IH; [intros; apply Hc; by right|]. destruct Hat as (Hw & Hwm & Hat). unfold attest_pair. split_and!.
  - by apply dwf_dset.
  - intros p m. rewrite dget_dset. case_decide; [|by apply Hwm]. intros [= <-]. apply dwf_dset.
    destruct (dget (pc_pair_id c) at_) as [m|] eqn:Hm; simpl; [by apply (Hwm (pc_pair_id c))|apply dwf_nil].
  - intros p j c'. rewrite dget_dset. case_decide; [subst; simpl|apply Hat]. rewrite dget_dset.
    case_decide.
    + intros [= <-]. subst. split; [done|]. exists ev. split; [done|]. apply Hc. by left.
    + destruct (dget (pc_pair_id c) at_) as [m|] eqn:Hm; simpl; [|done]. intros Hg. apply Hat. by rewrite Hm.
Qed.

Lemma attestations_filed found : filed found (attestations found).
Proof.
  unfold attestations. assert (∀ l at_, (∀ x, x ∈ l → x ∈ found) → filed found at_ →
    filed found (foldl (λ at_ ie, foldl (attest_pair ie.1) at_ ie.2.1.1.2) at_ l)) as Hgen.
  { induction l as [|[i ev] l IH]; intros at_ Hl Hat; [done|]. simpl.
    apply IH; [intros; apply Hl; by right|]. eapply attest_filed; [apply Hl; by left|done|done]. }
  apply Hgen; [done|]. split_and!; [apply dwf_nil|done|done].
Qed.

Lemma by_pair_elem caps p c : by_pair caps !! p = Some c → c ∈ caps.
Proof.
  unfold by_pair. assert (∀ m : gmap string PairCapability,
    foldl (λ m c, <[pc_pair_id c := c]> m) m caps !! p = Some c → c ∈ caps ∨ m !! p = Some c) as Hgen.
  { induction caps as [|c' caps IH]; simpl; [auto|]. intros m [Hin|Hm]%IH; [by left; right|].
    apply lookup_insert_Some in Hm as [[_ ->]|[_ Hm]]; [left; constructor|by right]. }
  intros [?|Hm]%Hgen; [done|]. by rewrite lookup_empty in Hm.
Qed.

Lemma report_all_same found now r b r' : report_all found now r = (b, r') → same_world r r'.
Proof.
  revert r. induction found as [|[i ev] found IH]; intros r; simpl;
    [intros [= <- <-]; apply same_reports_refl|].
  destruct (update_resource_report _ _ _ _ r) as [ok r1] eqn:Hu. apply update_same_world in Hu as [Hs _].
  destruct ok; [|by intros [= <- <-]]. intros Hr. eapply same_reports_trans; eauto.
Qed.

Lemma assemble_world_proven found now r0 r :
  assemble_world found now r0 = Ok r →
  reg_state r = READY ∧ World r (members r) (capabilities r) ∧ reg_world_fresh r now = true
  ∧ (∀ i w, members r !! i = Some w → w ∈ (λ ie, ie.2.1.1.1) <$> found)
  ∧ (∀ p c i, capabilities r !! p = Some c → i ∈ endpoints p →
       ∃ ev, (i, ev) ∈ found ∧ c ∈ ev.1.1.2)
  ∧ expected_topology_generation r = expected_topology_generation r0.
Proof.
  unfold assemble_world. intros (caps & Hcol & HR)%bind_Ok.
  destruct (install_world _ (dvalues caps) r0) as [[[]|] r1] eqn:Hin; try done.
  destruct (report_all found now r1) as [[] r2] eqn:Hrep; [|done].
  destruct (reg_world_fresh r2 now) eqn:Hfr; [|done]. injection HR as <-.
  apply report_all_same in Hrep as [v ->]. unfold install_world in Hin.
  destruct (world_valid r0 _ _) as [[]|] eqn:Hv; try done. injection Hin as <-.
  apply world_valid_spec in Hv. split_and!; try done.
  - by eapply world_static; [..|exact Hv].
  - simpl. intros i w Hw. by eapply by_id_elem.
  - simpl. intros p c i Hp Hi. pose proof (by_pair_key _ _ _ Hp) as Hkey. apply by_pair_elem in Hp.
    apply list_elem_of_fmap in Hp as ([p' c'] & -> & Hp). simpl in *.
    pose proof (attestations_filed found) as (Hw & Hwm & Hf).
    assert (p' = pc_pair_id c') as Hpp.
    { destruct (collapse_Ok _ _ _ Hcol) as (_ & _ & Hall).
      destruct (Hall p' c' Hp) as (m & c2 & rest & Hm & _ & Hvals & _).
      apply (dget_Some _ _ _ Hw) in Hm. destruct m as [|[k0 x0] m]; [done|]. injection Hvals as -> _.
      destruct (Hf p' k0 c') as [<- _]; [|done]. rewrite Hm. simpl. by rewrite decide_True. }
    rewrite Hkey in Hpp. subst p'.
    destruct (collapsed_both _ _ _ _ _ _ Hw Hwm Hcol Hp Hi) as (c2 & Hc2 & Heq).
    assert (c2 = c') as -> by (destruct Heq as [?|Heq]; [done|by apply bool_decide_eq_true in Heq]).
    by apply Hf in Hc2 as [_ ?].
Qed.

End FirstWorld.

(** ** No foreign owner is retired *)

#[local] Existing Instance tk_mret.
#[local] Existing Instance tk_mbind.

Section Foreign.
Context {S : Type} `{Hcl : InferClient S} (clock : S → Z) (sleep : Z → S → S).
Context (deadline interval : Z) (new_owner : string) (prior : gset string).

Definition retire_path (o : string) : string := "/v1/owners/" +:+ o +:+ "/retire".

(** A client that refuses to retire any owner but the prior ones. *)
Definition spares_foreign : InferClient S := λ mth i path body ref s,
  if bool_decide (mth = "POST") && String.prefix "/v1/owners/" path
     && negb (bool_decide (path = "/v1/owners/activate"))
     && negb (bool_decide (path ∈ retire_path <$> elements prior))
  then (Raise (PyError AssertionError), s)
  else client_request mth i path body ref s.

Abbreviation F := (BootstrapOwnerClient (H := Hcl) new_owner prior).
Abbreviation G := (BootstrapOwnerClient (H := spares_foreign) new_owner prior).

Lemma spares_retire i o s : o ∈ prior → retire_owner (H := G) i o s = retire_owner (H := F) i o s.
Proof.
  intros Ho. unfold retire_owner. change (client_request (InferClient := G) "POST" i (retire_path o) None None s
    = client_request (InferClient := F) "POST" i (retire_path o) None None s).
  unfold client_request at 1 2, BootstrapOwnerClient. rewrite andb_false_l || simpl.
  unfold client_request at 1, spares_foreign.
  rewrite (bool_decide_true (retire_path o ∈ _)) by (apply list_elem_of_fmap; exists o; split; [done|by apply elem_of_elements]).
  by rewrite andb_false_r.
Qed.

Lemma tk_bind_eq {A B} (m m' : tk (S := S) A) (k k' : A → tk B) s :
  m s = m' s → (∀ a s', m' s = Some (Ok a, s') → k a s' = k' a s') → (m ≫= k) s = (m' ≫= k') s.
Proof.
  intros Hm Hk. unfold mbind, tk_mbind. rewrite Hm. destruct (m' s) as [[[a|] s']|]; [|done|done]. by apply Hk.
Qed.

Lemma spares_read fuel i s :
  read_owner (H := G) clock sleep deadline interval fuel i s
  = read_owner (H := F) clock sleep deadline interval fuel i s.
Proof.
  revert s. induction fuel as [|fuel IH]; intros s; [done|]. simpl. apply tk_bind_eq.
  - done.
  - intros [o|] s1 _; [done|apply IH].
Qed.

(** What the fenced client shows is the new owner or a prior one. *)
Lemma fenced_read_known fuel i s o s' :
  read_owner (H := F) clock sleep deadline interval fuel i s = Some (Ok (Some o), s') →
  o = new_owner ∨ o ∈ prior.
Proof.
  revert s. induction fuel as [|fuel IH]; intros s; [done|]. simpl. unfold mbind at 1, tk_mbind, once.
  destruct ((_ ← require_remaining clock deadline; _) s) as [[[r|]|] s1] eqn:Hr; [|by intros; eapply IH|done].
  intros [= -> ->]. unfold mbind, rpc_mbind in Hr.
  destruct (require_remaining clock deadline s) as [[z|] s2]; [|done]. unfold or_pause in Hr.
  destruct (owner_status (H := F) i s2) as [[v|e] s3] eqn:Hos.
  2:{ destruct (retryable_owner_error e); [|done]. unfold mbind, rpc_mbind in Hr.
      by destruct (retry_pause _ _ _ _ s3) as [[] ?]. }
  unfold lift in Hr. destruct (active_owner v) as [x|e] eqn:Hact.
  2:{ destruct (retryable_owner_error _); [|done]. unfold mbind, rpc_mbind in Hr.
      by destruct (retry_pause _ _ _ _ s3) as [[] ?]. }
  injection Hr as -> ->. unfold owner_status, client_request, BootstrapOwnerClient in Hos.
  rewrite !bool_decide_true in Hos by done. simpl in Hos. unfold mbind, rpc_mbind in Hos.
  destruct (client_request _ _ _ _ _ s2) as [[v'|] s4]; [|done]. unfold lift in Hos.
  destruct (bootstrap_active_owner v') as [y|] eqn:Hb; [|done].
  destruct (owner_is_known new_owner prior y) eqn:Hk; [|done]. injection Hos as -> ->.
  unfold active_owner in Hact. unfold bootstrap_active_owner in Hb.
  destruct (dget "active_owner" v) as [[| | | |x| |]|]; try done.
  destruct (truthy x); [|done]. injection Hact as <-. simpl in Hb. injection Hb as <-. simpl in Hk.
  apply orb_true_iff in Hk as [?%bool_decide_eq_true|?%bool_decide_eq_true]; auto.
Qed.

Lemma mutate_eq (m m' : rpc S (odict string json)) s :
  (∀ s, m s = m' s) → mutate_owner clock sleep deadline interval m s
  = mutate_owner clock sleep deadline interval m' s.
Proof.
  intros Hm. unfold mutate_owner. apply rpc_bind_eq; [done|]. intros _ s1. apply rpc_bind_eq; [|done].
  intros s2. unfold or_pause. by rewrite Hm.
Qed.

Lemma spares_retire_loop fuel i owner s :
  retire_loop (H := G) clock sleep deadline interval new_owner fuel i owner s
  = retire_loop (H := F) clock sleep deadline interval new_owner fuel i owner s.
Proof.
  revert s. induction fuel as [|fuel IH]; intros s; [done|]. simpl.
  apply tk_bind_eq; [apply spares_read|]. intros [o|] s1 Ho; [|done].
  case_bool_decide; [done|]. case_bool_decide as Hne; [done|]. subst o.
  apply fenced_read_known in Ho as [?|Hin]; [done|]. apply tk_bind_eq; [|intros; apply IH].
  unfold once. f_equal. apply mutate_eq. intros s2. by apply spares_retire.
Qed.

Lemma spares_activate_loop fuel i expected b s :
  activate_loop (H := G) clock sleep deadline interval new_owner fuel i expected b s
  = activate_loop (H := F) clock sleep deadline interval new_owner fuel i expected b s.
Proof.
  revert b s. induction fuel as [|fuel IH]; intros b s; [done|]. simpl.
  apply tk_bind_eq; [apply spares_read|]. intros [o|] s1 Ho.
  - case_bool_decide; [done|]. apply fenced_read_known in Ho as [?|Hin]; [done|].
    case_bool_decide; [|done]. apply tk_bind_eq; [|intros; apply IH].
    unfold once. f_equal. apply mutate_eq. intros s2. by apply spares_retire.
  - apply tk_bind_eq; [|intros; apply IH]. done.
Qed.

End Foreign.

(** ** Configuration *)

(** Whatever the mounted topology says, the fence and the pending generation
    agree, as the start-up relies on. *)
Lemma mount_topology_fence {E} repr topology config (a : AppState E) x a' :
  mount_topology repr topology config a = (x, a') →
  a' = a ∨ ((ap_acceptance_required a' = true ↔ ap_pending_generation a' ≠ None)
            ∧ ap_pending_generation a' ≠ Some "").
Proof.
  unfold mount_topology. destruct (truthy _) eqn:Ht; simpl; [|intros [= _ <-]; by left].
  apply truthy_true in Ht. intros H. right. cbv zeta in H.
  assert (∀ (b : bool) g, g ≠ "" →
    (ap_acceptance_required (set_pending (if b then Some g else None) (set_required b a)) = true
       ↔ ap_pending_generation (set_pending (if b then Some g else None) (set_required b a)) ≠ None)
    ∧ ap_pending_generation (set_pending (if b then Some g else None) (set_required b a)) ≠ Some "") as Hok.
  { intros [] g Hg; simpl; (split; [done|congruence]). }
  destruct (jget "endpoints" topology); try (injection H as _ <-; by apply Hok).
  destruct (keys_are d WEEK12_WORKER_IDS); injection H as _ <-; by apply Hok.
Qed.

(** An enabled operator harness has a long secret and a worker world, and
    never serves faults and performance at once. *)
Lemma operator_harness_guarded repr config :
  validate_operator_harness_config repr config = Ok true →
  ∃ secret c p m, dget "correctness_harness_secret" config = Some secret
    ∧ (32 ≤ String.length (py_str repr secret))%nat
    ∧ dget "correctness_harness_enabled" config = Some c
    ∧ dget "performance_harness_enabled" config = Some p ∧ py_bool c && py_bool p = false
    ∧ dget "multinode_e2e_enabled" config = Some m ∧ py_bool m = true.
Proof.
  unfold validate_operator_harness_config. cbv zeta. simpl.
  destruct (dget "correctness_harness_enabled" config) as [c|]; [simpl|done].
  destruct (dget "performance_harness_enabled" config) as [p|]; [simpl|done].
  destruct (dget "route_parity_harness_enabled" config) as [rp|]; [simpl|done].
  destruct (py_bool c && py_bool p) eqn:Hcp; [done|]. destruct (negb _); [done|].
  destruct (dget "correctness_harness_secret" config) as [secret|]; [simpl|done].
  case_bool_decide as Hlen; [done|]. destruct (dget "multinode_e2e_enabled" config) as [m|]; [simpl|done].
  destruct (py_bool m) eqn:Hm; [|done]. intros _. exists secret, c, p, m. split_and!; try done. lia.
Qed.

(** ** Concrete start-ups *)

Module Demo.
Definition sleep (d s : Z) : Z := s + d.
Definition no_cut (d s : Z) : option Z := None.
Definition no_cause (e : boot_exn) (s : Z) : list boot_exn := [].
(** A worker that is reachable from time 3 on. *)
Definition late : stage (S := Z) unit := λ s,
  if bool_decide (3 ≤ s) then Some (Ok tt, s) else Some (Raise (BootRPC (PyError ConnectionError)), s).

#[local] Instance workers : InferClient Z := λ mth i path body ref s,
  match (Admission.Demo.answers i).1 with
  | Ok (JObj d, JObj c, JObj r, _) =>
      (Ok (if bool_decide (path = "/v1/identity") then d
           else if bool_decide (path = "/v1/capabilities") then c else r), s + 1)
  | _ => (Raise (PyError ConnectionError), s + 1)
  end.
Definition started := bootstrap_world (λ s : Z, s) sleep no_cut no_cause 2 100 5 demo_registry 0.
Definition world : WorkerRegistry :=
  match started with Some (Ok r, _) => r | _ => demo_registry end.
Lemma started_ok : started = Some (Ok world, 12).
Proof.
  unfold world. destruct started as [[[r|] s]|] eqn:Hs; [|vm_compute in Hs; discriminate..].
  assert (snd <$> started = Some 12) as H by (vm_compute; reflexivity).
  rewrite Hs in H. simpl in H. by injection H as ->.
Qed.
End Demo.

Lemma bootstrap_stage_ends_witness :
  ∃ x s', run_gateway_bootstrap_stage (λ s : Z, s) Demo.sleep Demo.no_cut Demo.no_cause 11 Demo.late 10 2 0
    = Some (x, s') ∧ x = Ok tt.
Proof.
  destruct (bootstrap_stage_ends (λ s : Z, s) Demo.sleep Demo.no_cut Demo.no_cause Demo.late 10 2 11 0)
    as (x & s' & Hrun & _).
  - lia.
  - intros d s. unfold wait_for, Demo.no_cut, Demo.late. case_bool_decide; discriminate.
  - intros d s x s'. unfold wait_for, Demo.no_cut, Demo.late. case_bool_decide; intros [= _ ->]; lia.
  - intros d s. unfold Demo.sleep. lia.
  - vm_compute. lia.
  - exists x, s'. split; [exact Hrun|]. vm_compute in Hrun. congruence.
Defined.

