(* ===== verification/Recovery.v ===== *)
(** * Recovery of a replacement (gateway/app.py)

    The objects of the running application, the pull of one fresh report per
    replacement worker, and the three ways in which a gateway that starts in
    the middle of a replacement completes it: the run is sealed already, its
    records are durable but not sealed, or nothing of it was written.

    [Gateway] is what [app.state] holds.  Objects that are shared are kept
    once: the ledger works on the application's registries, the evaluator on
    the application's store, and the scheduler is the evaluator's.  A
    coroutine is a function of the gateway; each call of a worker brings an
    answer and the gateway the caller wakes up in, whatever other tasks did
    to it meanwhile. *)

From S2P Require Import Prelude PyDict SequenceState Scheduler TransferGovernor Json WorkerRegistry Output ReplacementStore ResourceRelease Termination TopologyAdmin Loader HttpRpc NetworkRpc NetworkOps Takeover FaultGate Queue Admission Bootstrap.
From stdpp Require Import prelude gmap strings sorting.
From Stdlib Require Import QArith_base.

Local Open Scope Z_scope.

Section Gateway.
Context {E W : Type}.

Record Gateway := mkGateway {
  gw_app : AppState E;
  (** [app.state.topology_admin], less its registries *)
  gw_ledger_cap : Z;
  gw_records : odict string RestartRunRecord;
  gw_evaluator : ResourceReleaseEvaluator;
  gw_tracker : option RequestTracker;
  gw_output : option GatewayOutputBuffer;
  gw_network : option NetworkControlRPC;
  gw_governor : TransferGovernor;
  (** the contexts of the affinity coordinator *)
  gw_contexts : option (odict string PrefixLoadContext);
  gw_fault_gate : option FaultInjectionGate;
  gw_audit : option OwnerTakeoverAudit;
  (** the workers and the clock *)
  gw_world : W }.
Implicit Types (g : Gateway).

#[export] Instance Gateway_eta : Eta Gateway := λ g,
  mkGateway (gw_app g) (gw_ledger_cap g) (gw_records g) (gw_evaluator g) (gw_tracker g)
    (gw_output g) (gw_network g) (gw_governor g) (gw_contexts g) (gw_fault_gate g) (gw_audit g)
    (gw_world g).

Definition set_app (v : AppState E) g : Gateway := ltac:(with_field g gw_app v).
Definition set_records (v : odict string RestartRunRecord) g : Gateway := ltac:(with_field g gw_records v).
Definition set_evaluator (v : ResourceReleaseEvaluator) g : Gateway := ltac:(with_field g gw_evaluator v).

Definition set_ap_store (v : option ReplacementDecisionStore) (a : AppState E) : AppState E :=
  ltac:(with_field a (@ap_store E) v).
Definition set_ap_ledger (v : option nat) (a : AppState E) : AppState E := ltac:(with_field a (@ap_ledger E) v).

(** ** Running a component on its part of the gateway *)

Definition on_app {A} (m : method (AppState E) A) : method Gateway A := λ g,
  let '(x, a) := m (gw_app g) in (x, set_app a g).

Definition registry_at (i : registry_id) g : option WorkerRegistry := ap_registries (gw_app g) !! i.
Definition on_registry {A} (i : registry_id) (m : method WorkerRegistry A) : method Gateway A := λ g,
  match registry_at i g with
  | None => (Raise AttributeError, g)
  | Some r =>
      let '(x, r') := m r in
      (x, set_app (set_registries (<[i := r']> (ap_registries (gw_app g))) (gw_app g)) g)
  end.

Definition ledger_at (i : registry_id) g : TopologyAcceptanceLedger :=
  mkLedger (ap_registries (gw_app g)) i (gw_ledger_cap g) (gw_records g).
Definition put_ledger (L : TopologyAcceptanceLedger) g : Gateway :=
  set_records (lg_records L)
    (set_app (set_ap_ledger (Some (lg_registry L)) (set_registries (lg_heap L) (gw_app g))) g).
Definition on_ledger {A} (m : method TopologyAcceptanceLedger A) : method Gateway A := λ g,
  match ap_ledger (gw_app g) with
  | None => (Raise AttributeError, g)
  | Some i => let '(x, L) := m (ledger_at i g) in (x, put_ledger L g)
  end.

Definition on_evaluator {A} (m : method ResourceReleaseEvaluator A) : method Gateway A := λ g,
  let '(x, ev) := m (set_store (ap_store (gw_app g)) (gw_evaluator g)) in
  (x, set_evaluator ev (set_app (set_ap_store (ev_store ev) (gw_app g)) g)).

Definition on_replacement_store {A} (m : method ReplacementDecisionStore A) : method Gateway A := λ g,
  match ap_store (gw_app g) with
  | None => (Raise AttributeError, g)
  | Some st => let '(x, st') := m st in (x, set_app (set_ap_store (Some st') (gw_app g)) g)
  end.

(** A synchronous step of a coroutine. *)
Definition sync {A} (m : method Gateway A) : rpc Gateway A := λ g,
  match m g with (Ok a, g') => (Ok a, g') | (Raise e, g') => (Raise (PyError e), g') end.
End Gateway.
Arguments Gateway : clear implicits.

(** ** What the request says *)

Section Body.
Context (sha sha_raw : json → string) (repr : json → string).

(** [_canonical_worker_identity_map] *)
Definition canonical_worker_identity_map (values : json) : result exn (odict string json) :=
  match values with
  | JList l =>
      identities ← mapR parse_worker_identity l;
      let d := dict_of ((λ w, (wi_instance_id w, JObj (worker_identity_wire w))) <$> identities) in
      _ ← need (bool_decide (length identities = length WEEK12_WORKER_IDS)
                && keys_are d WEEK12_WORKER_IDS);
      mret d
  | _ => Raise ValueError
  end.

Definition live_identities (r : WorkerRegistry) : odict string json :=
  (λ kw, (kw.1, JObj (worker_identity_wire kw.2))) <$> map_to_list (members r).

(** [asdict(capability)] *)
Definition capability_dict (c : PairCapability) : odict string json :=
  [("pair_id", JStr (pc_pair_id c)); ("source_epoch", JStr (pc_source_epoch c));
   ("target_epoch", JStr (pc_target_epoch c)); ("transport", JStr (pc_transport c));
   ("probe_generation", JStr (pc_probe_generation c)); ("probe_passed", JBool (pc_probe_passed c));
   ("evidence_path", JStr (pc_evidence_path c))].
Definition live_capabilities (r : WorkerRegistry) : odict string json :=
  (λ kc, (kc.1, JObj (capability_dict kc.2))) <$> map_to_list (capabilities r).

(** [body.get(k, ())] as a sequence *)
Definition sequence (k : string) (body : odict string json) : result exn (list json) :=
  match dget k body with None => mret [] | Some v => iterate v end.

(** [{str(value["pair_id"]): dict(value) for value in ...}] *)
Definition body_capabilities (body : odict string json) : result exn (odict string json) :=
  values ← sequence "pair_capabilities" body;
  entries ← mapR (λ v, p ← subscript v "pair_id"; mret (py_str repr p, v)) values;
  mret (dict_of entries).

(** The identities and the pair probes of the request are those of the live
    world; the probes are returned. *)
Definition describes (body : odict string json) (r : WorkerRegistry) : result exn (odict string json) :=
  identities ← canonical_worker_identity_map (jget "identities" body);
  _ ← need (py_eqb (JObj identities) (JObj (live_identities r)));
  caps ← body_capabilities body;
  _ ← need (py_eqb (JObj caps) (JObj (live_capabilities r)));
  mret caps.

(** [[str(value) for value in body.get(k, ())]] *)
Definition id_list (k : string) (body : odict string json) : result exn (list string) :=
  l ← sequence k body; mret (map (py_str repr) l).
Definition excluded_ids (body : odict string json) : result exn (gset string * gset string) :=
  ops ← id_list "old_operation_ids" body;
  res ← id_list "old_resource_ids" body;
  mret (list_to_set ops, list_to_set res).

Definition replacement_exclusion_digest (body : odict string json) : result exn string :=
  ops ← id_list "old_operation_ids" body;
  res ← id_list "old_resource_ids" body;
  mret (digest sha (JObj [("operation_ids", JList (JStr <$> sort_by String.le id ops));
                          ("resource_ids", JList (JStr <$> sort_by String.le id res))])).

(** [str(body[k])] *)
Definition text_item (k : string) (body : odict string json) : result exn string :=
  v ← item k body; mret (py_str repr v).

(** The record of a completed run. *)
Definition run_record (body : odict string json) (run old new : string) (terminations : list json)
    (reports caps : odict string json) : RestartRunRecord :=
  mkRestartRunRecord run old new (digest sha <$> terminations)
    ((λ kv, digest sha kv.2) <$> sort_by String.le fst reports)
    ((λ kv, digest sha kv.2) <$> sort_by String.le fst caps)
    (digest sha (JObj body)) true.

Definition run_evidence (record : RestartRunRecord) (live : odict string (odict string json))
    (exclusion : string) : ReplacementEvidence :=
  mkReplacementEvidence (rn_restart_run_id record) (rn_old_topology_generation record)
    (rn_new_topology_generation record) (rn_termination_proof_digests record)
    ((λ kv, digest sha (JObj kv.2)) <$> sort_by String.le fst live) exclusion
    (rn_accepted record) (rn_decision_digest record).

(** The lists of a report, which may name nothing of the old world. *)
Definition lists_nothing_old (old : gset string * gset string) (report : odict string json) :
    result exn unit :=
  match jget "operation_ids" report, jget "resource_ids" report with
  | JList ops, JList res =>
      _ ← need (bool_decide (list_to_set (py_str repr <$> ops) ∩ old.1 = ∅));
      need (bool_decide (list_to_set (py_str repr <$> res) ∩ old.2 = ∅))
  | _, _ => Raise ValueError
  end.

(** The loop over the pulled reports, with the freshness test at its end. *)
Fixpoint accept_reports (not_ready : bool) (old : gset string * gset string) (now : Z)
    (l : list (string * (odict string json * Z))) (acc : odict string (odict string json)) :
    method WorkerRegistry (odict string (odict string json)) := λ r,
  match l with
  | [] =>
      (if reg_world_fresh r now then Ok acc
       else Raise (if not_ready then GatewayBootstrapNotReady else ValueError), r)
  | (i, (report, at_)) :: l' =>
      if not_ready && bool_decide (jget "complete" report = JBool false)
      then (Raise GatewayBootstrapNotReady, r)
      else
        let '(ok, r') := update_resource_report i report (Some at_) now r in
        if negb ok then (Raise ValueError, r')
        else match lists_nothing_old old report with
             | Raise e => (Raise e, r')
             | Ok _ => accept_reports not_ready old now l' (dset i report acc) r'
             end
  end.

(** The loop over the reports a cold recovery is given. *)
Definition excludes_old (old : gset string * gset string) (report : odict string json) :
    result exn unit :=
  _ ← lists_nothing_old old report;
  _ ← need (py_eqb (jget "excluded_operation_ids" report) (sorted_ids old.1));
  need (py_eqb (jget "excluded_resource_ids" report) (sorted_ids old.2)).
Fixpoint given_reports (old : gset string * gset string) (now : Z) (reports : odict string json) :
    method WorkerRegistry unit := λ r,
  match reports with
  | [] => (Ok tt, r)
  | (i, JObj report) :: l =>
      let '(ok, r') := update_resource_report i report None now r in
      if negb ok then (Raise ValueError, r')
      else match excludes_old old report with
           | Raise e => (Raise e, r')
           | Ok _ => given_reports old now l r'
           end
  | _ => (Raise AttributeError, r)
  end.

(** [dict(body.get("resource_reports", {}))]; keys that are not strings, which
    only a list of pairs can bring, name no worker and are refused. *)
Definition body_reports (body : odict string json) : result exn (odict string json) :=
  match default (JObj []) (dget "resource_reports" body) with
  | JObj d => mret d
  | v =>
      l ← iterate v;
      kvs ← mapR dict_entry l;
      match mapM (λ kv : json * json, (λ s, (s, kv.2)) <$> as_str kv.1) kvs with
      | Some d => mret (dict_of d)
      | None => Raise ValueError
      end
  end.
(** [set(reports) == set(registry.members)] *)
Definition one_per_member (reports : odict string json) (r : WorkerRegistry) : bool :=
  bool_decide (list_to_set (dkeys reports) = dom (members r)).
End Body.

(** ** The coroutines *)

Section Recover.
Context {E W : Type} `{InferClient (Gateway E W)}.
Context (sha sha_raw : json → string) (repr : json → string) (clock : Gateway E W → Z).
(** how the writes of the store end *)
Context (disk_write : nat → Gateway E W → write_outcome).
Implicit Types (g : Gateway E W).

(** [_get_resource_report_with_received_at] *)
Definition get_resource_report_with_received_at (i : string) : rpc (Gateway E W) (odict string json * Z) :=
  report ← get_resources i; g ← get; mret (report, clock g).

(** [sorted(registry.members)] *)
Definition member_names (r : WorkerRegistry) : list string := sort_by String.le id (elements (dom (members r))).

Definition pull_replacement_resource_reports (i : registry_id) (old : gset string * gset string)
    (not_ready : bool) : rpc (Gateway E W) (odict string (odict string json)) :=
  g ← get;
  match registry_at i g with
  | None => throw (PyError AttributeError)
  | Some r =>
      let instances := member_names r in
      samples ← gather_all get_resource_report_with_received_at instances;
      g' ← get;
      sync (on_registry i (accept_reports repr not_ready old (clock g') (zip instances samples) []))
  end.

(** [ledger.registry] and [app.state.replacement_store] *)
Definition recovery_objects : rpc (Gateway E W) (registry_id * WorkerRegistry * ReplacementDecisionStore) :=
  g ← get;
  match ap_ledger (gw_app g), ap_store (gw_app g) with
  | Some i, Some st =>
      match registry_at i g with
      | Some r => mret (i, r, st)
      | None => throw (PyError AttributeError)
      end
  | _, _ => throw (PyError AttributeError)
  end.

(** [ledger.recover_committed_run(record)] and the commit behind its gates *)
Definition commit_recovered (record : RestartRunRecord) : rpc (Gateway E W) RestartRunRecord :=
  _ ← sync (on_ledger (recover_committed_run record));
  g ← get;
  _ ← sync (on_app (finalize_topology_acceptance (rn_new_topology_generation record) (clock g)));
  mret record.

Definition recover_sealed_replacement (body : odict string json) : rpc (Gateway E W) RestartRunRecord :=
  '(i, r, st) ← recovery_objects;
  run ← lift (text_item repr "restart_run_id" body);
  old_generation ← lift (text_item repr "old_topology_generation" body);
  new_generation ← lift (text_item repr "new_topology_generation" body);
  seal ← lift (exact_completed_run sha run old_generation new_generation (digest sha (JObj body)) st);
  _ ← lift (need (bool_decide (is_Some seal)));
  g ← get;
  _ ← lift (need (bool_decide (ap_registry (gw_app g) = Some i)));
  _ ← lift (need (bool_decide (expected_topology_generation r = new_generation)));
  caps ← lift (describes repr body r);
  old ← lift (excluded_ids repr body);
  _ ← pull_replacement_resource_reports i old false;
  terminations ← lift (sequence "termination_records" body);
  reports ← lift (body_reports body);
  commit_recovered (run_record sha body run old_generation new_generation terminations reports caps).

Definition recover_unsealed_replacement (body : odict string json) : rpc (Gateway E W) RestartRunRecord :=
  '(i, r, st) ← recovery_objects;
  old_generation ← lift (text_item repr "old_topology_generation" body);
  new_generation ← lift (text_item repr "new_topology_generation" body);
  run ← lift (text_item repr "restart_run_id" body);
  _ ← lift (validate_active_run sha run old_generation (digest sha (JObj body)) st);
  _ ← lift (need (bool_decide (expected_topology_generation r = new_generation)));
  caps ← lift (describes repr body r);
  terminations ← lift (validate_physical_termination_records sha_raw body);
  old ← lift (excluded_ids repr body);
  live ← pull_replacement_resource_reports i old false;
  reports ← lift (body_reports body);
  g ← get;
  _ ← lift (need (match registry_at i g with Some r => one_per_member reports r | None => false end));
  let record := run_record sha body run old_generation new_generation (JObj <$> terminations)
                  reports caps in
  exclusion ← lift (replacement_exclusion_digest sha repr body);
  g ← get;
  _ ← sync (on_evaluator (seal_whole_world_replacement sha (disk_write 0 g) (disk_write 1 g)
              (run_evidence sha record live exclusion)));
  commit_recovered record.

(** The guards of a cold recovery, up to the proofs of termination. *)
Definition cold_guards (run old_generation new_generation : string) (r : WorkerRegistry)
    (st : ReplacementDecisionStore) g : result exn unit :=
  _ ← need (truthy run && truthy old_generation && truthy new_generation);
  _ ← need (bool_decide (old_generation ≠ new_generation));
  _ ← need (bool_decide (expected_topology_generation r = new_generation));
  _ ← validate_cold_recovery_base old_generation st;
  _ ← need (bool_decide (replacement_decode_leases (ev_scheduler (gw_evaluator g)) = []));
  need (match gw_tracker g with Some tr => bool_decide (all_requests tr = []) | None => true end).

Definition recover_cold_replacement (body : odict string json) : rpc (Gateway E W) RestartRunRecord :=
  '(i, r, st) ← recovery_objects;
  run ← lift (text_item repr "restart_run_id" body);
  old_generation ← lift (text_item repr "old_topology_generation" body);
  new_generation ← lift (text_item repr "new_topology_generation" body);
  g ← get;
  _ ← lift (cold_guards run old_generation new_generation r st g);
  terminations ← lift (validate_physical_termination_records sha_raw body);
  caps ← lift (describes repr body r);
  old ← lift (old_ids repr body);
  reports ← lift (body_reports body);
  _ ← lift (need (one_per_member reports r));
  _ ← sync (on_registry i (given_reports repr old (clock g) reports));
  live ← pull_replacement_resource_reports i old false;
  let record := run_record sha body run old_generation new_generation (JObj <$> terminations)
                  reports caps in
  exclusion ← lift (replacement_exclusion_digest sha repr body);
  g ← get;
  _ ← sync (on_replacement_store (persist_records sha (disk_write 0 g) [] run old_generation
              (Some (digest sha (JObj body)))));
  _ ← sync (on_evaluator (seal_whole_world_replacement sha (disk_write 1 g) (disk_write 2 g)
              (run_evidence sha record live exclusion)));
  commit_recovered record.
End Recover.

(** ** The request describes the live world *)

Lemma py_eqb_obj d d' :
  py_eqb (JObj d) (JObj d') = true →
  length d = length d' ∧ ∀ k x, (k, x) ∈ d → ∃ y, dget k d' = Some y ∧ py_eqb x y = true.
Proof.
  cbn [py_eqb as_number]. intros [Hl Hd]%andb_true_iff. apply bool_decide_eq_true in Hl.
  split; [done|]. clear Hl. induction d as [|[k x] d IH]; intros k' x' Hin; [by apply elem_of_nil in Hin|].
  apply andb_true_iff in Hd as [Hx Hd]. apply elem_of_cons in Hin as [[= -> ->]|Hin]; [|by auto].
  destruct (dget k d') as [y|]; [by exists y|done].
Qed.

Lemma py_eqb_field d d' k :
  py_eqb (JObj d) (JObj d') = true → k ∈ dkeys d → ∃ x y,
    dget k d = Some x ∧ dget k d' = Some y ∧ py_eqb x y = true.
Proof.
  intros Hd [x Hx]%dget_is_Some. destruct (py_eqb_obj _ _ Hd) as [_ H].
  destruct (H k x (dget_Some_1 _ _ _ Hx)) as (y & ? & ?). by exists x, y.
Qed.

Lemma wire_eqb w w' :
  py_eqb (JObj (worker_identity_wire w)) (JObj (worker_identity_wire w')) = true → w = w'.
Proof.
  intros Hw. assert (∀ k x y, dget k (worker_identity_wire w) = Some x →
    dget k (worker_identity_wire w') = Some y → py_eqb x y = true) as Hf.
  { intros k x y Hx Hy. destruct (py_eqb_field _ _ k Hw) as (x' & y' & ? & ? & ?); [|congruence].
    apply dget_is_Some. by exists x. }
  assert (∀ k s s', dget k (worker_identity_wire w) = Some (JStr s) →
    dget k (worker_identity_wire w') = Some (JStr s') → s = s') as Hs.
  { intros k s s' Hx Hy. specialize (Hf k _ _ Hx Hy). simpl in Hf. by apply bool_decide_eq_true in Hf. }
  assert (wi_global_rank w = wi_global_rank w') as Hr.
  { specialize (Hf "global_rank" _ _ eq_refl eq_refl). simpl in Hf.
    apply Qeq_bool_iff in Hf. unfold Qeq in Hf. simpl in Hf. lia. }
  pose proof (Hs "instance_id" _ _ eq_refl eq_refl). pose proof (Hs "role" _ _ eq_refl eq_refl).
  pose proof (Hs "topology_generation" _ _ eq_refl eq_refl). pose proof (Hs "pod_uid" _ _ eq_refl eq_refl).
  pose proof (Hs "process_generation" _ _ eq_refl eq_refl). pose proof (Hs "rpc_endpoint" _ _ eq_refl eq_refl).
  pose proof (Hs "topology_digest" _ _ eq_refl eq_refl).
  pose proof (Hs "kv_compatibility_id" _ _ eq_refl eq_refl).
  destruct w, w'; simpl in *; congruence.
Qed.

Lemma dict_of_keys {V} (l : list (string * V)) k : k ∈ dkeys (dict_of l) ↔ k ∈ l.*1.
Proof.
  unfold dict_of. rewrite <- (right_id False or (k ∈ l.*1)).
  rewrite <- (elem_of_nil k). change (@nil string) with (dkeys ([] : odict string V)).
  generalize ([] : odict string V) as d. induction l as [|[k' v] l IH]; intros d; simpl.
  { rewrite elem_of_nil. tauto. }
  rewrite IH, elem_of_dkeys_dset, elem_of_cons. tauto.
Qed.

Lemma dict_of_get {V} (l : list (string * V)) k v :
  NoDup l.*1 → (k, v) ∈ l → dget k (dict_of l) = Some v.
Proof.
  unfold dict_of. generalize ([] : odict string V) as d.
  induction l as [|[k' v'] l IH]; intros d Hn Hin; [by apply elem_of_nil in Hin|]. simpl in *.
  apply NoDup_cons in Hn as [Hk Hn]. apply elem_of_cons in Hin as [[= <- <-]|Hin]; [|by auto].
  clear IH. assert (∀ d : odict string V, dget k d = Some v →
    dget k (foldl (λ d kv, dset kv.1 kv.2 d) d l) = Some v) as H; [|apply H, dget_dset_eq].
  induction l as [|[k' v'] l IH]; intros d' Hd; simpl; [done|]. simpl in Hk.
  apply NoDup_cons in Hn as [_ Hn]. apply IH; [by intros ?; apply Hk; right|done|].
  rewrite dget_dset_ne; [done|]. intros ->. apply Hk. by left.
Qed.

(** What [describes] has checked: the four identities are, field for field,
    the registered members, and the probes are the registered capabilities. *)
Definition live_world (repr : json → string) (body : odict string json) (r : WorkerRegistry) : Prop :=
  (∃ l ids, jget "identities" body = JList l ∧ mapR parse_worker_identity l = Ok ids
     ∧ list_to_set (wi_instance_id <$> ids) =@{gset string} list_to_set WEEK12_WORKER_IDS
     ∧ length ids = 4%nat ∧ Forall (λ w, members r !! wi_instance_id w = Some w) ids)
  ∧ ∃ caps, body_capabilities repr body = Ok caps ∧ length caps = size (capabilities r)
     ∧ Forall (λ pv, ∃ c, capabilities r !! pv.1 = Some c
                     ∧ py_eqb pv.2 (JObj (capability_dict c)) = true) caps.

Lemma dget_live {A} (f : A → json) (m : gmap string A) k v :
  dget k ((λ kw, (kw.1, f kw.2)) <$> map_to_list m) = Some v → ∃ x, m !! k = Some x ∧ v = f x.
Proof.
  intros ([k' x] & [= -> ->] & Hin)%dget_Some_1%list_elem_of_fmap.
  apply elem_of_map_to_list in Hin. by exists x.
Qed.

Lemma names_NoDup (l : list string) : length l = 4%nat →
  list_to_set l =@{gset string} list_to_set WEEK12_WORKER_IDS → NoDup l.
Proof.
  intros Hl Hs. apply size_list_to_set_NoDup. rewrite Hs, Hl. vm_compute. lia.
Qed.

Lemma describes_live repr body r caps :
  describes repr body r = Ok caps → live_world repr body r ∧ body_capabilities repr body = Ok caps.
Proof.
  unfold describes. intros (d & Hd & H)%bind_Ok. apply need_then in H as [Hi H].
  apply bind_Ok in H as (caps' & Hcaps & H). apply need_then in H as [Hc [= ->]]. split; [|done].
  split.
  - unfold canonical_worker_identity_map in Hd. destruct (jget "identities" body) as [| | | | |l|]; try done.
    apply bind_Ok in Hd as (ids & Hids & H). apply need_then in H as [[Hlen Hk]%andb_true_iff [= <-]].
    apply bool_decide_eq_true in Hlen. exists l, ids. simpl in Hlen.
    assert (list_to_set (wi_instance_id <$> ids) =@{gset string} list_to_set WEEK12_WORKER_IDS) as Hset.
    { apply bool_decide_eq_true in Hk. rewrite <- Hk. apply set_eq. intros k.
      rewrite !elem_of_list_to_set, dict_of_keys, <- list_fmap_compose. done. }
    assert (NoDup (wi_instance_id <$> ids)) as Hn by (apply names_NoDup; [by rewrite length_fmap|done]).
    split_and!; try done. apply Forall_forall. intros w Hw.
    destruct (py_eqb_obj _ _ Hi) as [_ Hall].
    destruct (Hall (wi_instance_id w) (JObj (worker_identity_wire w))) as (y & Hy & He).
    { apply dget_Some_1, dict_of_get; [by rewrite <- list_fmap_compose|].
      apply list_elem_of_fmap. by exists w. }
    apply (dget_live (λ w, JObj (worker_identity_wire w))) in Hy as (w' & Hm & ->).
    rewrite Hm. f_equal. symmetry. by apply wire_eqb.
  - destruct (py_eqb_obj _ _ Hc) as [Hlen Hall]. exists caps. split_and!; [done| |].
    + rewrite Hlen. unfold live_capabilities. by rewrite length_fmap, length_map_to_list.
    + apply Forall_forall. intros [p v] Hin. destruct (Hall p v Hin) as (y & Hy & He).
      apply (dget_live (λ c, JObj (capability_dict c))) in Hy as (c & Hm & ->). by exists c.
Qed.

(** ** The reports *)

Lemma update_same i rep at_ now r : same_world r (update_resource_report i rep at_ now r).2.
Proof.
  unfold update_resource_report. destruct (members r !! i); [|apply same_reports_refl].
  destruct (negb _); [apply same_reports_refl|]. case_bool_decide; [apply same_reports_refl|by eexists].
Qed.

Lemma accept_reports_same repr nr old now l acc r : same_world r (accept_reports repr nr old now l acc r).2.
Proof.
  revert acc r. induction l as [|[i [report at_]] l IH]; intros acc r; simpl; [apply same_reports_refl|].
  destruct (nr && _); [apply same_reports_refl|].
  pose proof (update_same i report (Some at_) now r) as Hs.
  destruct (update_resource_report _ _ _ _ _) as [ok r1]. simpl in Hs. destruct ok; simpl; [|done].
  destruct (lists_nothing_old repr old report); simpl; [|done]. by eapply same_reports_trans.
Qed.

Lemma given_reports_same repr old now l r : same_world r (given_reports repr old now l r).2.
Proof.
  revert r. induction l as [|[i v] l IH]; intros r; simpl; [apply same_reports_refl|].
  destruct v as [| | | | | |report]; try apply same_reports_refl.
  pose proof (update_same i report None now r) as Hs.
  destruct (update_resource_report _ _ _ _ _) as [ok r1]. simpl in Hs. destruct ok; simpl; [|done].
  destruct (excludes_old repr old report); simpl; [|done]. by eapply same_reports_trans.
Qed.

Lemma accept_reports_Ok repr nr old now l acc r live r' :
  accept_reports repr nr old now l acc r = (Ok live, r') →
  reg_world_fresh r' now = true ∧ live = foldl (λ d x, dset x.1 x.2.1 d) acc l
  ∧ Forall (λ x, lists_nothing_old repr old x.2.1 = Ok tt) l.
Proof.
  revert acc r. induction l as [|[i [report at_]] l IH]; intros acc r; simpl.
  { destruct (reg_world_fresh r now) eqn:Hf; [|done]. by intros [= <- <-]. }
  destruct (nr && _); [done|]. destruct (update_resource_report _ _ _ _ _) as [ok r1].
  destruct ok; simpl; [|done]. destruct (lists_nothing_old repr old report) as [[]|] eqn:Hc; [|done].
  intros (? & -> & ?)%IH. split_and!; [done|done|]. by constructor.
Qed.

(** The reports a pull returns: one per name, in order. *)
Lemma pulled_keys (names : list string) (samples : list (odict string json * Z)) :
  NoDup names → length names = length samples →
  dkeys (foldl (λ d x, dset x.1 x.2.1 d) [] (zip names samples)) = names.
Proof.
  intros Hn Hl. assert (∀ d : odict string (odict string json),
    (∀ x, x ∈ names → x ∉ dkeys d) →
    dkeys (foldl (λ d x, dset x.1 x.2.1 d) d (zip names samples)) = dkeys d ++ names) as H.
  2:{ rewrite H; [done|]. intros x _ Hx. by apply elem_of_nil in Hx. }
  revert samples Hl. induction names as [|n names IH]; intros [|s samples] Hl d Hd; simpl in *; try done.
  { by rewrite app_nil_r. }
  apply NoDup_cons in Hn as [Hnn Hn]. assert (dget n d = None) as Hnone.
  { apply dget_None, Hd. by left. }
  rewrite IH; [|done|lia|].
  - rewrite dset_fresh by done. unfold dkeys. rewrite fmap_app. simpl. by rewrite <- app_assoc.
  - intros x Hx. rewrite elem_of_dkeys_dset. intros [->|Hin]; [done|]. eapply Hd; [by right|done].
Qed.

(** [keeps P m]: however [m] ends, [P] still holds. *)
Definition keeps {S} (P : S → Prop) {A} (m : rpc S A) : Prop := ∀ g, P g → P (m g).2.

Lemma keeps_bind {S} (P : S → Prop) {A B} (m : rpc S A) (k : A → rpc S B) :
  keeps P m → (∀ a, keeps P (k a)) → keeps P (m ≫= k).
Proof.
  intros Hm Hk g Hg. specialize (Hm g Hg). unfold mbind, rpc_mbind.
  destruct (m g) as [[a|] g1]; [by apply Hk|done].
Qed.
Lemma keeps_ret {S} (P : S → Prop) {A} (a : A) : keeps P (mret (M := rpc S) a).
Proof. by intros g Hg. Qed.
Lemma keeps_throw {S} (P : S → Prop) {A} e : keeps P (throw (S := S) (A := A) e).
Proof. by intros g Hg. Qed.
Lemma keeps_state {S} (P : S → Prop) : keeps P (get (S := S)).
Proof. by intros g Hg. Qed.
Lemma keeps_lift {S} (P : S → Prop) {A} (r : result exn A) : keeps P (lift (S := S) r).
Proof. intros g Hg. by destruct r. Qed.
Lemma keeps_gather {S} (P : S → Prop) {A B} (f : A → rpc S B) l : (∀ x, keeps P (f x)) → keeps P (gather_all f l).
Proof.
  intros Hf. induction l as [|x l IH]; intros g Hg; simpl; [done|]. specialize (Hf x g Hg).
  destruct (f x g) as [y g1]. specialize (IH g1 Hf). by destruct (gather_all f l g1) as [zs g2].
Qed.

Section RecoverLemmas.
Context {E W : Type} `{Hcl : InferClient (Gateway E W)}.
Context (sha sha_raw : json → string) (repr : json → string) (clock : Gateway E W → Z).
Context (disk_write : nat → Gateway E W → write_outcome).
Implicit Types (g : Gateway E W).
Abbreviation pull := (pull_replacement_resource_reports repr clock).

Lemma gather_length {S A B} (f : A → rpc S B) l s ys s' :
  gather_all f l s = (Ok ys, s') → length l = length ys.
Proof.
  revert s ys s'. induction l as [|x l IH]; intros s ys s'; simpl; [by intros [= <- _]|].
  destruct (f x s) as [y s1]. destruct (gather_all f l s1) as [zs s2] eqn:Hg.
  destruct y, zs; try done. intros [= <- _]. simpl. f_equal. by eapply IH.
Qed.

(** A gateway whose registry [i] was updated with reports only. *)
Definition reported_in (i : registry_id) g g' : Prop :=
  ∃ r r', registry_at i g = Some r ∧ same_world r r'
    ∧ g' = set_app (set_registries (<[i := r']> (ap_registries (gw_app g))) (gw_app g)) g.

Lemma pull_Ok i old nr g live g' :
  pull i old nr g = (Ok live, g') →
  ∃ r samples g1 r', registry_at i g = Some r
    ∧ gather_all (get_resource_report_with_received_at clock) (member_names r) g = (Ok samples, g1)
    ∧ reported_in i g1 g' ∧ registry_at i g' = Some r' ∧ reg_world_fresh r' (clock g1) = true
    ∧ dkeys live = member_names r
    ∧ Forall (λ x, lists_nothing_old repr old x.1 = Ok tt) samples.
Proof.
  unfold pull_replacement_resource_reports, mbind, rpc_mbind, get.
  destruct (registry_at i g) as [r|] eqn:Hr; [|done].
  destruct (gather_all _ _ g) as [[samples|] g1] eqn:Hg; [|done].
  unfold sync, on_registry. destruct (registry_at i g1) as [r1|] eqn:Hr1; [|done].
  pose proof (accept_reports_same repr nr old (clock g1) (zip (member_names r) samples) [] r1) as Hs.
  destruct (accept_reports _ _ _ _ _ _ _) as [[x|] r'] eqn:Ha; [|done]. intros [= -> <-]. simpl in Hs.
  apply accept_reports_Ok in Ha as (Hf & -> & Hc). exists r, samples, g1, r'. split_and!; try done.
  - exists r1, r'. split_and!; done.
  - unfold registry_at. simpl. apply lookup_insert_eq.
  - apply pulled_keys; [|by eapply gather_length]. unfold member_names.
    rewrite (sort_by_perm String.le id). apply NoDup_elements.
  - apply Forall_forall. intros x [j Hj]%list_elem_of_lookup.
    destruct (lookup_lt_is_Some_2 (member_names r) j) as [n Hn].
    { rewrite (gather_length _ _ _ _ _ Hg). by eapply lookup_lt_Some. }
    apply (proj1 (Forall_forall _ _) Hc (n, x)), list_elem_of_lookup. exists j.
    apply lookup_zip_Some. by split.
Qed.

(** *** The commit *)

(** The gateway after a replacement was accepted. *)
Record accepted_world (record : RestartRunRecord) g : Prop := {
  aw_registry : ∃ i r, ap_ledger (gw_app g) = Some i ∧ ap_registry (gw_app g) = Some i
    ∧ registry_at i g = Some r
    ∧ expected_topology_generation r = rn_new_topology_generation record
    ∧ ∃ now, reg_world_fresh r now = true;
  aw_record : 0 < gw_ledger_cap g → dget (rn_restart_run_id record) (gw_records g) = Some record;
  aw_store : replacement_store_allows_admission (gw_app g) = true;
  aw_prefix : prefix_world_allows_admission (gw_app g) = true;
  aw_tasks : background_control_plane_tasks_healthy false (gw_app g) = true;
  aw_fence : ap_acceptance_required (gw_app g) = false ∧ ap_pending_generation (gw_app g) = None;
  aw_open : ap_accepting (gw_app g) = true }.

Lemma remember_get record L :
  0 < lg_cap L → dget (rn_restart_run_id record) (lg_records (remember record L)) = Some record.
Proof.
  intros Hc. unfold remember, dmove_end. simpl.
  destruct (dtrim_last (lg_cap L) (dpop (rn_restart_run_id record) (lg_records L))
    (rn_restart_run_id record, record) Hc) as (d & [d0 Hd] & ->).
  apply dmove_end_last, dget_None. intros Hin.
  pose proof (dget_dpop_eq (rn_restart_run_id record) (lg_records L)) as Hn. apply dget_None in Hn.
  apply Hn. rewrite Hd. unfold dkeys. rewrite fmap_app. apply elem_of_app. by right.
Qed.

Lemma recover_run_Ok record L u L' :
  recover_committed_run record L = (Ok u, L') →
  lg_heap L' = lg_heap L ∧ lg_registry L' = lg_registry L ∧ lg_cap L' = lg_cap L
  ∧ (0 < lg_cap L → dget (rn_restart_run_id record) (lg_records L') = Some record).
Proof.
  unfold recover_committed_run. destruct (dget _ (lg_records L)) as [ex|] eqn:Hr.
  - case_bool_decide as He; [done|]. subst ex. intros [= _ <-].
    split_and!; try done. intros _. simpl. unfold dmove_end.
    rewrite <- (dset_fresh _ _ (dpop _ _)) by apply dget_dpop_eq. apply dget_dset_eq.
  - do 2 (case_bool_decide; [done|]). intros [= _ <-]. split_and!; try done. apply remember_get.
Qed.

Lemma commit_recovered_Ok record g record' g' :
  commit_recovered clock record g = (Ok record', g') →
  record' = record ∧ accepted_world record g' ∧ ap_store (gw_app g') = ap_store (gw_app g)
  ∧ gw_evaluator g' = gw_evaluator g.
Proof.
  unfold commit_recovered, mbind, rpc_mbind, sync, on_ledger, get, on_app.
  destruct (ap_ledger (gw_app g)) as [i|] eqn:Hi; [|done].
  destruct (recover_committed_run record (ledger_at i g)) as [[u|] L] eqn:HL; [|done].
  apply recover_run_Ok in HL as (Hh & Hreg & Hcap & Hrec). simpl in Hh, Hreg, Hcap, Hrec.
  set (g1 := put_ledger L g). unfold finalize_topology_acceptance.
  destruct (acceptance_gates _ _ (gw_app g1)) as [[]|] eqn:Hg; [|done].
  apply acceptance_gates_Ok in Hg as (Hr & Hp & (r & Hcur & Hgen & Hfr) & Hl & Hst & Hpx & _ & _ & Hb).
  unfold complete_topology_acceptance. rewrite Hr, Hp, bool_decide_false by auto. simpl.
  intros [= <- <-]. split_and!; try done. split; simpl; try done.
  exists i, r. unfold current_registry in Hcur. simpl in Hcur, Hl.
  rewrite Hreg in *. specialize (Hl i eq_refl). rewrite Hl in Hcur. split_and!; try done. by eexists.
Qed.

(** *** Steps of a coroutine *)

Lemma lift_then {S A B} (r : result exn A) (k : A → rpc S B) s b s' :
  (lift r ≫= k) s = (Ok b, s') → ∃ a, r = Ok a ∧ k a s = (Ok b, s').
Proof. intros (a & s1 & [? ->]%lift_Ok & ?)%rpc_bind_Ok. by exists a. Qed.
Lemma sync_Ok {A} (m : method (Gateway E W) A) g a g' : sync m g = (Ok a, g') → m g = (Ok a, g').
Proof. unfold sync. by destruct (m g) as [[] ?]; intros [= <- <-]. Qed.

Lemma objects_Ok g i r st g' :
  recovery_objects g = (Ok (i, r, st), g') →
  g' = g ∧ ap_ledger (gw_app g) = Some i ∧ ap_store (gw_app g) = Some st ∧ registry_at i g = Some r.
Proof.
  unfold recovery_objects, mbind, rpc_mbind, get, throw.
  destruct (ap_ledger (gw_app g)) as [i'|]; [|done]. destruct (ap_store (gw_app g)); [|done].
  destruct (registry_at i' g) eqn:Hr; [|done]. by intros [= -> -> -> ->].
Qed.

Lemma old_ids_excluded body old : old_ids repr body = Ok old → excluded_ids repr body = Ok old.
Proof.
  unfold old_ids, excluded_ids, id_list, sequence, unique_ids.
  destruct (dget "old_operation_ids" body) as [[| | | | |ops|]|]; try done.
  destruct (dget "old_resource_ids" body) as [[| | | | |res|]|]; try done.
  intros (x & [_ [= <-]]%need_then & (y & [_ [= <-]]%need_then & [= <-])%bind_Ok)%bind_Ok. done.
Qed.

Lemma seal_whole_Ok w1 w2 e ev x ev' :
  seal_whole_world_replacement sha w1 w2 e ev = (Ok x, ev') →
  ∃ st st', ev_store ev = Some st ∧ ev_store ev' = Some st'
    ∧ seal_run sha w1 w2 (re_restart_run_id e) (re_old_topology_generation e)
        (re_new_topology_generation e) (re_decision_digest e) st = (Ok x, st').
Proof.
  unfold seal_whole_world_replacement, require_replacement_store.
  destruct (ev_store ev) as [st|]; [|done]. destruct (st_fatal st); [done|].
  destruct (validate_replacement_evidence e); [|done]. case_bool_decide; [done|].
  unfold on_store. destruct (seal_run _ _ _ _ _ _ _ st) as [y st'] eqn:Hs. intros [= -> <-].
  by exists st, st'.
Qed.

Definition sound g : Prop := ∀ st, ap_store (gw_app g) = Some st → store_inv sha st.

(** A sealed run is recognised when the request is repeated. *)
Definition sealed_in (body : odict string json) (record : RestartRunRecord) g : Prop :=
  ∃ st x, ap_store (gw_app g) = Some st
    ∧ exact_completed_run sha (rn_restart_run_id record) (rn_old_topology_generation record)
        (rn_new_topology_generation record) (digest sha (JObj body)) st = Ok (Some x).

Lemma seal_whole_sealed w1 w2 body record live exclusion ev x ev' :
  (∀ st, ev_store ev = Some st → store_inv sha st) → rn_new_topology_generation record ≠ "" →
  rn_decision_digest record = digest sha (JObj body) →
  seal_whole_world_replacement sha w1 w2 (run_evidence sha record live exclusion) ev = (Ok x, ev') →
  ∃ st', ev_store ev' = Some st'
    ∧ exact_completed_run sha (rn_restart_run_id record) (rn_old_topology_generation record)
        (rn_new_topology_generation record) (digest sha (JObj body)) st' = Ok (Some x).
Proof.
  intros Hs Hn Hd (st & st' & Hst & Hst' & Hrun)%seal_whole_Ok. simpl in Hrun.
  apply seal_run_seals in Hrun as (Hf & Hfor & Ho & Hng & Hdec); [|by apply Hs|done].
  exists st'. split; [done|]. unfold exact_completed_run, require_integrity.
  rewrite Hf, Hfor, Ho, Hng, Hdec, Hd. by rewrite !bool_decide_false by auto.
Qed.

Lemma seal_whole_inv w1 w2 e ev x ev' :
  (∀ st, ev_store ev = Some st → store_inv sha st) → re_new_topology_generation e ≠ "" →
  seal_whole_world_replacement sha w1 w2 e ev = (x, ev') →
  ∀ st, ev_store ev' = Some st → store_inv sha st.
Proof.
  unfold seal_whole_world_replacement, require_replacement_store. intros Hinv Hn Hs st' Hst'.
  destruct (ev_store ev) as [st|] eqn:Hst; [|injection Hs as _ <-; congruence].
  specialize (Hinv st eq_refl). destruct (st_fatal st); [injection Hs as _ <-; naive_solver|].
  destruct (validate_replacement_evidence e); [|injection Hs as _ <-; naive_solver].
  case_bool_decide; [injection Hs as _ <-; naive_solver|]. unfold on_store in Hs.
  pose proof (seal_run_inv sha w1 w2 (re_restart_run_id e) (re_old_topology_generation e)
    (re_new_topology_generation e) (re_decision_digest e) st Hinv Hn) as Hi.
  destruct (seal_run _ _ _ _ _ _ _ st) as [y st1]. injection Hs as _ <-. simpl in Hst'. naive_solver.
Qed.

Lemma seal_commit_Ok w1 w2 body record live exclusion g record' g' :
  sound g → rn_new_topology_generation record ≠ "" →
  rn_decision_digest record = digest sha (JObj body) →
  (_ ← sync (on_evaluator (seal_whole_world_replacement sha w1 w2 (run_evidence sha record live exclusion)));
   commit_recovered clock record) g = (Ok record', g') →
  record' = record ∧ accepted_world record g' ∧ sealed_in body record g'.
Proof.
  intros Hs Hn Hd (x & g1 & Hseal%sync_Ok & Hc)%rpc_bind_Ok.
  unfold on_evaluator in Hseal. destruct (seal_whole_world_replacement _ _ _ _ _) as [y ev] eqn:Hw.
  injection Hseal as -> <-. eapply seal_whole_sealed in Hw as (st' & Hst' & Hx); [|done..].
  apply commit_recovered_Ok in Hc as (-> & Ha & Hstore & _). split_and!; try done.
  exists st', x. simpl in Hstore. by rewrite Hst' in Hstore.
Qed.

(** *** The fence stays up *)

Definition fenced (generation : string) g : Prop :=
  ap_acceptance_required (gw_app g) = true ∧ ap_pending_generation (gw_app g) = Some generation
  ∧ ap_accepting (gw_app g) = false.
Definition calm (generation : string) g : Prop := fenced generation g ∧ sound g.

Lemma keeps_sync P {A} (m : method (Gateway E W) A) : (∀ g, P g → P (m g).2) → keeps P (sync m).
Proof. intros Hm g Hg. specialize (Hm g Hg). unfold sync. by destruct (m g) as [[] ?]. Qed.
#[local] Hint Resolve keeps_bind keeps_ret keeps_throw keeps_state keeps_lift keeps_gather : core.

Lemma calm_registry gen {A} i (m : method WorkerRegistry A) g :
  calm gen g → calm gen (on_registry i m g).2.
Proof. unfold on_registry. destruct (registry_at i g); [|done]. by destruct (m w). Qed.

Lemma calm_store gen v g :
  calm gen g → (∀ st, v = Some st → store_inv sha st) → calm gen (set_app (set_ap_store v (gw_app g)) g).
Proof. by intros [Hf _] Hv. Qed.

Lemma calm_evaluator gen ev g : calm gen g → calm gen (set_evaluator ev g).
Proof. done. Qed.

Lemma calm_seal gen w1 w2 e g :
  gen ≠ "" → re_new_topology_generation e = gen → calm gen g →
  calm gen (on_evaluator (seal_whole_world_replacement sha w1 w2 e) g).2.
Proof.
  intros Hn He Hg. unfold on_evaluator.
  destruct (seal_whole_world_replacement sha w1 w2 e _) as [x ev] eqn:Hs. simpl.
  apply calm_evaluator, calm_store; [done|]. eapply seal_whole_inv; [|by subst|exact Hs]. apply Hg.
Qed.

Lemma calm_persist gen w run old d g :
  calm gen g → calm gen (on_replacement_store (persist_records sha w [] run old d) g).2.
Proof.
  intros Hg. unfold on_replacement_store. destruct (ap_store (gw_app g)) as [st|] eqn:Hst; [|done].
  pose proof (persist_records_inv sha w [] run old d st (proj2 Hg st Hst) ltac:(constructor)) as Hi.
  destruct (persist_records _ _ _ _ _ _ _) as [x st']. simpl in *. apply calm_store; naive_solver.
Qed.

(** A refused commit leaves the fence as it is. *)
Lemma calm_commit gen record g e g' :
  calm gen g → commit_recovered clock record g = (Raise e, g') → calm gen g'.
Proof.
  intros Hg. unfold commit_recovered, mbind, rpc_mbind, sync, on_ledger, get, on_app.
  destruct (ap_ledger (gw_app g)) as [i|]; [|by intros [= _ <-]].
  destruct (recover_committed_run record (ledger_at i g)) as [[u|] L]; [|by intros [= _ <-]].
  set (g1 := put_ledger L g). unfold finalize_topology_acceptance.
  destruct (acceptance_gates _ _ (gw_app g1)) as [u1|] eqn:Ha; [destruct u1|by intros [= _ <-]].
  apply acceptance_gates_Ok in Ha as (Hr & Hp & _).
  unfold complete_topology_acceptance. rewrite Hr, Hp, bool_decide_false by auto. done.
Qed.

Section Calm.
Context (generation : string) (Hgen : generation ≠ "").
Hypothesis calls_calm : ∀ mth i path body ref,
  keeps (calm generation) (client_request mth i path body ref).

Lemma keeps_pull i old nr : keeps (calm generation) (pull i old nr).
Proof.
  unfold pull_replacement_resource_reports. apply keeps_bind; [done|]. intros g.
  destruct (registry_at i g) as [r|]; [|done]. apply keeps_bind.
  - apply keeps_gather. intros n. apply keeps_bind; [apply calls_calm|]. auto.
  - intros samples. apply keeps_bind; [done|]. intros g'. apply keeps_sync. intros g1. apply calm_registry.
Qed.

(** A coroutine that leaves the fence up when it raises. *)
Definition closes {A} (m : rpc (Gateway E W) A) : Prop :=
  ∀ g e g', calm generation g → m g = (Raise e, g') → calm generation g'.

Lemma closes_bind {A B} (m : rpc (Gateway E W) A) (k : A → rpc (Gateway E W) B) :
  keeps (calm generation) m → (∀ a g g', m g = (Ok a, g') → closes (k a)) → closes (m ≫= k).
Proof.
  intros Hm Hk g e g' Hg. specialize (Hm g Hg). unfold mbind, rpc_mbind.
  destruct (m g) as [[a|] g1] eqn:Hmg; [by apply (Hk a g g1 Hmg)|by intros [= _ <-]].
Qed.
Lemma closes_lift {A B} (r : result exn A) (k : A → rpc (Gateway E W) B) :
  (∀ a, r = Ok a → closes (k a)) → closes (lift r ≫= k).
Proof. intros Hk. apply closes_bind; [done|]. intros a g g' [Hr _]%lift_Ok. by apply Hk. Qed.
Lemma closes_get {B} (k : Gateway E W → rpc (Gateway E W) B) : (∀ g, closes (k g)) → closes (get ≫= k).
Proof. intros Hk. apply closes_bind; [done|]. intros a g g' _. apply Hk. Qed.
Lemma closes_keeps {A B} (m : rpc (Gateway E W) A) (k : A → rpc (Gateway E W) B) :
  keeps (calm generation) m → (∀ a, closes (k a)) → closes (m ≫= k).
Proof. intros Hm Hk. apply closes_bind; [done|]. intros a g g' _. apply Hk. Qed.

Lemma closes_commit record : closes (commit_recovered clock record).
Proof. intros g e g'. apply calm_commit. Qed.
Lemma keeps_objects : keeps (calm generation) recovery_objects.
Proof.
  unfold recovery_objects. apply keeps_bind; [done|]. intros g.
  destruct (ap_ledger (gw_app g)); [|done]. destruct (ap_store (gw_app g)); [|done].
  by destruct (registry_at _ g).
Qed.
#[local] Hint Resolve closes_commit keeps_objects keeps_pull : core.

(** ** The three recoveries *)

Inductive recovery := Sealed | Unsealed | Cold.
Definition recover (p : recovery) (body : odict string json) : rpc (Gateway E W) RestartRunRecord :=
  match p with
  | Sealed => recover_sealed_replacement sha repr clock body
  | Unsealed => recover_unsealed_replacement sha sha_raw repr clock disk_write body
  | Cold => recover_cold_replacement sha sha_raw repr clock disk_write body
  end.

Lemma recover_closes p body :
  text_item repr "new_topology_generation" body = Ok generation → closes (recover p body).
Proof.
  intros Hnew. destruct p; simpl.
  - unfold recover_sealed_replacement. apply closes_keeps; [done|]. intros [[i r] st].
    do 2 (apply closes_lift; intros ? _). rewrite Hnew. apply closes_lift. intros ? [= <-].
    do 2 (apply closes_lift; intros ? _). apply closes_get. intros g.
    do 4 (apply closes_lift; intros ? _). apply closes_keeps; [done|]. intros _.
    do 2 (apply closes_lift; intros ? _). done.
  - unfold recover_unsealed_replacement. apply closes_keeps; [done|]. intros [[i r] st].
    apply closes_lift. intros ? _. rewrite Hnew. apply closes_lift. intros ? [= <-].
    do 6 (apply closes_lift; intros ? _). apply closes_keeps; [done|]. intros live.
    apply closes_lift. intros reports _. apply closes_get. intros g. do 2 (apply closes_lift; intros ? _).
    apply closes_get. intros g1. apply closes_keeps; [|done]. apply keeps_sync. intros g2.
    by apply calm_seal.
  - unfold recover_cold_replacement. apply closes_keeps; [done|]. intros [[i r] st].
    do 2 (apply closes_lift; intros ? _). rewrite Hnew. apply closes_lift. intros ? [= <-].
    apply closes_get. intros g. do 6 (apply closes_lift; intros ? _).
    apply closes_keeps; [apply keeps_sync; intros ?; apply calm_registry|]. intros _.
    apply closes_keeps; [done|]. intros live. apply closes_lift. intros exclusion _.
    apply closes_get. intros g1. apply closes_keeps; [apply keeps_sync; intros ?; apply calm_persist|].
    intros _. apply closes_keeps; [|done]. apply keeps_sync. intros g2. by apply calm_seal.
Qed.

(** What a recovery that returned has established. *)
Record recovered (p : recovery) (body : odict string json) g (record : RestartRunRecord) g' : Prop := {
  rv_run : text_item repr "restart_run_id" body = Ok (rn_restart_run_id record);
  rv_old : text_item repr "old_topology_generation" body = Ok (rn_old_topology_generation record);
  rv_new : rn_new_topology_generation record = generation;
  rv_decision : rn_decision_digest record = digest sha (JObj body);
  rv_world : ∃ i r, ap_ledger (gw_app g) = Some i ∧ registry_at i g = Some r
    ∧ expected_topology_generation r = generation ∧ live_world repr body r;
  rv_reports : ∃ i r old g0 samples g1, ap_ledger (gw_app g) = Some i
    ∧ (g0 = g ∨ reported_in i g g0) ∧ registry_at i g0 = Some r ∧ excluded_ids repr body = Ok old
    ∧ gather_all (get_resource_report_with_received_at clock) (member_names r) g0 = (Ok samples, g1)
    ∧ Forall (λ x, lists_nothing_old repr old x.1 = Ok tt) samples
    ∧ (p = Sealed → ap_store (gw_app g') = ap_store (gw_app g1) ∧ gw_evaluator g' = gw_evaluator g1);
  rv_terminations : p ≠ Sealed → ∃ ts, validate_physical_termination_records sha_raw body = Ok ts;
  rv_origin : ∃ st, ap_store (gw_app g) = Some st
    ∧ match p with
      | Sealed => ∃ x, exact_completed_run sha (rn_restart_run_id record)
          (rn_old_topology_generation record) generation (digest sha (JObj body)) st = Ok (Some x)
      | Unsealed => validate_active_run sha (rn_restart_run_id record)
          (rn_old_topology_generation record) (digest sha (JObj body)) st = Ok tt
      | Cold => validate_cold_recovery_base (rn_old_topology_generation record) st = Ok tt
          ∧ replacement_decode_leases (ev_scheduler (gw_evaluator g)) = []
          ∧ ∀ tr, gw_tracker g = Some tr → all_requests tr = []
      end;
  rv_seal : p ≠ Sealed → sealed_in body record g';
  rv_accepted : accepted_world record g' }.

Lemma recover_sealed_Ok body g record g' :
  text_item repr "new_topology_generation" body = Ok generation →
  recover Sealed body g = (Ok record, g') → recovered Sealed body g record g'.
Proof.
  intros Hnew H. simpl in H. unfold recover_sealed_replacement in H. rewrite Hnew in H.
  apply rpc_bind_Ok in H as ([[i r] st] & g0 & (-> & Hi & Hst & Hr)%objects_Ok & H).
  apply lift_then in H as (run & Hrun & H). apply lift_then in H as (oldg & Hold & H).
  apply lift_then in H as (ng & [= <-] & H). apply lift_then in H as (seal & Hseal & H).
  apply lift_then in H as (u1 & Hsome%need_Ok & H). apply rpc_bind_Ok in H as (gg & ? & [= <- <-] & H).
  apply lift_then in H as (u2 & _ & H). apply lift_then in H as (u3 & Hg%need_Ok & H).
  apply lift_then in H as (caps & [Hlive _]%describes_live & H). apply lift_then in H as (old & Hids & H).
  apply rpc_bind_Ok in H as (live & g2 & (r0 & samples & g1 & r' & Hr0 & Hgat & Hrep & _ & _ & _ & Hall)%pull_Ok & H).
  apply lift_then in H as (ts & Hts & H). apply lift_then in H as (reports & Hrs & H).
  apply commit_recovered_Ok in H as (-> & Ha & Hs & He). apply bool_decide_eq_true in Hg, Hsome.
  destruct Hsome as [x ->]. split; simpl; try done.
  - by exists i, r.
  - exists i, r0, old, g, samples, g1. split_and!; try done; [by left|]. intros _.
    destruct Hrep as (? & ? & _ & _ & ->). done.
  - exists st. split; [done|]. by exists x.
Qed.

Lemma recover_unsealed_Ok body g record g' :
  calm generation g → text_item repr "new_topology_generation" body = Ok generation →
  recover Unsealed body g = (Ok record, g') → recovered Unsealed body g record g'.
Proof.
  intros Hcalm Hnew H. simpl in H. unfold recover_unsealed_replacement in H. rewrite Hnew in H.
  apply rpc_bind_Ok in H as ([[i r] st] & g0 & (-> & Hi & Hst & Hr)%objects_Ok & H).
  apply lift_then in H as (oldg & Hold & H). apply lift_then in H as (ng & [= <-] & H).
  apply lift_then in H as (run & Hrun & H). apply lift_then in H as (u1 & Hact & H).
  apply lift_then in H as (u3 & Hg%need_Ok & H). apply lift_then in H as (caps & [Hlive _]%describes_live & H).
  apply lift_then in H as (ts & Hts & H). apply lift_then in H as (old & Hids & H).
  apply rpc_bind_Ok in H as (live & g2 & Hpull & H). pose proof (keeps_pull i old false g Hcalm) as Hc2.
  rewrite Hpull in Hc2. apply pull_Ok in Hpull as (r0 & samples & g1 & r' & Hr0 & Hgat & Hrep & _ & _ & _ & Hall).
  apply lift_then in H as (reports & Hrs & H). apply rpc_bind_Ok in H as (gg & ? & [= <- <-] & H).
  apply lift_then in H as (u4 & _ & H). apply lift_then in H as (exclusion & Hex & H).
  apply rpc_bind_Ok in H as (gg & ? & [= <- <-] & H). apply bool_decide_eq_true in Hg.
  eapply seal_commit_Ok in H as (-> & Ha & Hs); [|apply Hc2|done|done].
  split; simpl; try done.
  - by exists i, r.
  - exists i, r0, old, g, samples, g1. split_and!; try done. by left.
  - by exists ts.
  - exists st. split; [done|]. by destruct u1.
Qed.

Lemma on_registry_reported {A} i (m : method WorkerRegistry A) g x g' :
  (∀ r, same_world r (m r).2) → on_registry i m g = (x, g') → is_Some (registry_at i g) → reported_in i g g'.
Proof.
  intros Hm. unfold on_registry. destruct (registry_at i g) as [r|] eqn:Hr; [|by intros _ [? ?]].
  specialize (Hm r). destruct (m r) as [y r']. intros [= _ <-] _. by exists r, r'.
Qed.

Lemma recover_cold_Ok body g record g' :
  calm generation g → text_item repr "new_topology_generation" body = Ok generation →
  recover Cold body g = (Ok record, g') → recovered Cold body g record g'.
Proof.
  intros Hcalm Hnew H. simpl in H. unfold recover_cold_replacement in H. rewrite Hnew in H.
  apply rpc_bind_Ok in H as ([[i r] st] & g0 & (-> & Hi & Hst & Hr)%objects_Ok & H).
  apply lift_then in H as (run & Hrun & H). apply lift_then in H as (oldg & Hold & H).
  apply lift_then in H as (ng & [= <-] & H). apply rpc_bind_Ok in H as (gg & ? & [= <- <-] & H).
  apply lift_then in H as (u1 & Hguard & H). apply lift_then in H as (ts & Hts & H).
  apply lift_then in H as (caps & [Hlive _]%describes_live & H). apply lift_then in H as (old & Hids & H).
  apply lift_then in H as (reports & Hrs & H). apply lift_then in H as (u2 & _ & H).
  apply rpc_bind_Ok in H as (u3 & g0 & Hgiven%sync_Ok & H).
  pose proof (calm_registry generation i (given_reports repr old (clock g) reports) g Hcalm) as Hc0.
  rewrite Hgiven in Hc0. apply on_registry_reported in Hgiven; [|intros ?; apply given_reports_same|by exists r].
  apply rpc_bind_Ok in H as (live & g2 & Hpull & H). pose proof (keeps_pull i old false g0 Hc0) as Hc2.
  rewrite Hpull in Hc2. apply pull_Ok in Hpull as (r0 & samples & g1 & r' & Hr0 & Hgat & Hrep & _ & _ & _ & Hall).
  apply lift_then in H as (exclusion & Hex & H). apply rpc_bind_Ok in H as (gg & ? & [= <- <-] & H).
  apply rpc_bind_Ok in H as (stored & g3 & Hper%sync_Ok & H).
  pose proof (calm_persist generation (disk_write 0 g2) run oldg (Some (digest sha (JObj body))) g2 Hc2) as Hc3.
  rewrite Hper in Hc3. eapply seal_commit_Ok in H as (-> & Ha & Hs); [|apply Hc3|done|done].
  unfold cold_guards in Hguard. apply need_then in Hguard as [_ Hguard].
  apply need_then in Hguard as [_ Hguard]. apply need_then in Hguard as [Hg Hguard].
  apply bind_Ok in Hguard as (u4 & Hbase & Hguard). apply need_then in Hguard as [Hl Htr%need_Ok].
  apply bool_decide_eq_true in Hg, Hl. split; simpl; try done.
  - by exists i, r.
  - exists i, r0, old, g0, samples, g1. split_and!; try done; [by right|by apply old_ids_excluded].
  - by exists ts.
  - exists st. split; [done|]. split_and!; [by destruct u4|done|]. intros tr Ht. rewrite Ht in Htr.
    by apply bool_decide_eq_true in Htr.
Qed.
End Calm.

End RecoverLemmas.

(** ** A cold recovery *)

Module Demo.
(** A stand-in for SHA-256 that tells the records and reports apart. *)
Definition sha (v : json) : string :=
  match v with JObj d => str_of d "instance_epoch" +:+ str_of d "pod_uid" +:+ "x" | _ => "y" end.

Definition report (name : string) : odict string json :=
  dset "resource_ids" (JList []) (default [] (as_obj (new_report name))).
Definition body : odict string json :=
  dset "resource_reports" (JObj ((λ n, (n, JObj (report n))) <$> WEEK12_WORKER_IDS)) (demo_body "run1").
Definition new_world : WorkerRegistry := default demo_ready (lg_heap demo_staged !! 1%nat).
Definition store : ReplacementDecisionStore := mkStore 8 4 empty_snapshot false (mkDisk None false).

(** A gateway that was started on the new world with the replacement pending. *)
Definition gateway : Gateway unit unit :=
  mkGateway
    (mkAppState true false false true false true (Some "gen2") None None (Some 1%nat) None (Some 2%nat) ∅
       (Some (mkNATSQueue "gw" true None [])) {[0%nat := new_world]} (Some 0%nat) (Some 0%nat)
       (Some store) None None)
    4 [] (mkEvaluator (init_scheduler default_scheduler_config) None 8 8 [] [] [])
    None None None demo_governor None None None ().

(** Workers that answer every call with their report. *)
Definition workers : InferClient (Gateway unit unit) := λ _ i _ _ _ g, (Ok (report i), g).
#[local] Existing Instance workers.
Definition ran : result rpc_exn RestartRunRecord * Gateway unit unit :=
  recover sha one_sha demo_str (λ _, 6) (λ _ _, write_ok) Cold body gateway.
Definition recorded (x : result rpc_exn RestartRunRecord) : RestartRunRecord :=
  match x with Ok r => r | Raise _ => demo_record "run1" end.
Definition record : RestartRunRecord := recorded ran.1.

Lemma ran_ok : ran = (Ok record, ran.2).
Proof.
  unfold record. assert (match ran.1 with Ok _ => true | Raise _ => false end = true) as H
    by (vm_compute; reflexivity).
  destruct ran as [[r|e] g']; [done|]. done.
Qed.

Lemma store_sound : sound sha gateway.
Proof.
  intros st [= <-]. apply (fresh_disk_inv sha demo_str (λ _, None) 8 4 write_ok). vm_compute. reflexivity.
Qed.
End Demo.

