(* ===== verification/Replacement.v ===== *)
(** * The replacement transaction (gateway/app.py)

    [_accept_replacement_topology_impl]: which of its paths a request takes,
    and the transaction that replaces the worker world under a running
    gateway.  The old world's tasks are stopped and its leases and requests
    frozen; the new workers accept the owner and report; the consumers of the
    new world are built; the decisions about the old leases are written, the
    ledger is moved and only then are the slots returned; the new consumers
    are published, the run is sealed and admission opens behind its gates.

    [settle] is the wait for a stopped task or a lock; like every await it
    ends in an arbitrary gateway.  [None] is a takeover that still runs. *)

From S2P Require Import Prelude PyDict SequenceState Scheduler TransferGovernor Json WorkerRegistry PrefixIndex Output ReplacementStore Reconciler ResourceRelease Loader Termination TopologyAdmin HttpRpc NetworkRpc NetworkOps Takeover Queue FaultGate Admission Bootstrap Recovery.
From stdpp Require Import prelude gmap strings sorting.
From Stdlib Require Import QArith_base.

Local Open Scope Z_scope.
#[local] Existing Instance tk_mret.
#[local] Existing Instance tk_mbind.

(** The settings a new world is built from. *)
Record Settings := mkSettings {
  sg_scheduler : SchedulerConfig;
  sg_governor : GovernorConfig;
  sg_query_interval : Z;
  sg_operation_timeout : Z;
  sg_block_size : Z;
  sg_block_bytes : Z;
  sg_active_cap : Z;
  sg_terminal_cap : Z;
  (** [prefix_event_poll_interval_ms] *)
  sg_prefix_poll : json }.

(** The consumers of a generation. *)
Record Consumers := mkConsumers {
  cs_evaluator : ResourceReleaseEvaluator;
  cs_network : NetworkControlRPC;
  cs_output : GatewayOutputBuffer;
  cs_governor : TransferGovernor }.

Section Setters.
Context {E W : Type}.
Implicit Types (a : AppState E) (g : Gateway E W).

Definition set_ap_registry (v : option nat) a : AppState E := ltac:(with_field a (@ap_registry E) v).
Definition set_loop_task (v : option nat) a : AppState E := ltac:(with_field a (@ap_loop_task E) v).
Definition set_reconciler_task (v : option nat) a : AppState E :=
  ltac:(with_field a (@ap_reconciler_task E) v).
Definition set_gw_tracker (v : option RequestTracker) g : Gateway E W := ltac:(with_field g (@gw_tracker E W) v).
Definition set_gw_output (v : option GatewayOutputBuffer) g : Gateway E W :=
  ltac:(with_field g (@gw_output E W) v).
Definition set_gw_network (v : option NetworkControlRPC) g : Gateway E W :=
  ltac:(with_field g (@gw_network E W) v).
Definition set_gw_governor (v : TransferGovernor) g : Gateway E W := ltac:(with_field g (@gw_governor E W) v).
Definition set_gw_contexts (v : option (odict string PrefixLoadContext)) g : Gateway E W :=
  ltac:(with_field g (@gw_contexts E W) v).
Definition set_gw_fault_gate (v : option FaultInjectionGate) g : Gateway E W :=
  ltac:(with_field g (@gw_fault_gate E W) v).
Definition set_gw_audit (v : option OwnerTakeoverAudit) g : Gateway E W := ltac:(with_field g (@gw_audit E W) v).
End Setters.

Section Replace.
Context {E W : Type} `{InferClient (Gateway E W)}.
Context (sha sha_raw : json → string) (repr : json → string) (int_of_str : string → option Z).
Context (float_of_int : Z → option Q).
Context (untyped_capability : odict string json → result exn PairCapability).
Context (clock : Gateway E W → Z) (sleep : Z → Gateway E W → Gateway E W).
Context (disk_write : nat → Gateway E W → write_outcome).
Context (settle : string → rpc (Gateway E W) unit).
(** the operation a reference names, new task and clock names *)
Context (operation_of : handle → string) (new_task : Gateway E W → nat) (clock_epoch : string).
(** the text of a report and the worker directory, for the reconciler *)
Context (dumps : json → string) (directory : @PrefixDirectoryRPC E).
Implicit Types (g : Gateway E W).

(** ** Which path *)

Inductive dispatch : Type :=
| Recover (p : recovery)
| Accepted (record : RestartRunRecord)
| Replace (record : RestartRunRecord) (candidate : registry_id).

(** [str(body.get(k) or "")] *)
Definition requested (k : string) (body : odict string json) : string := py_str_or_empty repr (jget k body).

(** A run that is neither staged against the current world nor the one that
    made it is unknown. *)
Definition known_run (body : odict string json) (r : WorkerRegistry) (records : odict string RestartRunRecord) :
    result exn unit :=
  let existing := dget (requested "restart_run_id" body) records in
  let current := expected_topology_generation r in
  if bool_decide (requested "old_topology_generation" body ≠ current)
     || match existing with
        | Some x => bool_decide (rn_new_topology_generation x ≠ current) | None => false end
  then if match existing with
          | Some x => bool_decide (rn_decision_digest x ≠ digest sha (JObj body)) | None => false end
       then Raise ValueError else Raise UnknownReplacementRun
  else Ok tt.

(** The recovery a request asks for, if any. *)
Definition choose (body : odict string json) g : result exn (option recovery) :=
  match ap_ledger (gw_app g) ≫= λ i, (λ r, (i, r)) <$> registry_at i g with
  | None => Raise AttributeError
  | Some (i, r) =>
      let new := requested "new_topology_generation" body in
      let installed := bool_decide (ap_registry (gw_app g) = Some i)
                       && bool_decide (expected_topology_generation r = new) in
      match ap_store (gw_app g) with
      | None => Ok None
      | Some st =>
          completed ← (if transition_closed st
                       then exact_completed_run sha (requested "restart_run_id" body)
                              (requested "old_topology_generation" body) new (digest sha (JObj body)) st
                       else Ok None);
          match completed with
          | Some _ => if bool_decide (expected_topology_generation r ≠ new)
                      then Raise RetiredReplacementRun else Ok (Some Sealed)
          | None =>
              if transition_closed st && bool_decide (gw_records g = []) && installed then Ok (Some Cold)
              else if negb (transition_closed st) && installed then Ok (Some Unsealed)
              else _ ← known_run body r (gw_records g); Ok None
          end
      end
  end.

Definition open_acceptance (body : odict string json) : method (Gateway E W) dispatch :=
  g ← read;
  match choose body g with
  | Raise e => raise e
  | Ok (Some p) =>
      _ ← on_app (begin_topology_acceptance (requested "new_topology_generation" body));
      mret (Recover p)
  | Ok None =>
      x ← on_ledger (TopologyAdmin.stage sha sha_raw repr untyped_capability (λ _, clock g) body);
      let '(record, candidate, replay) := x in
      _ ← on_app (begin_topology_acceptance (rn_new_topology_generation record));
      g ← read;
      if (replay : bool) && bool_decide (ap_registry (gw_app g) = Some candidate)
         && replacement_store_allows_admission (gw_app g)
      then
        _ ← on_app (finalize_topology_acceptance (rn_new_topology_generation record) (clock g));
        mret (Accepted record)
      else mret (Replace record candidate)
  end.

(** ** The old world is stopped and frozen *)

Definition when (c : bool) (m : rpc (Gateway E W) unit) : rpc (Gateway E W) unit := if c then m else mret tt.

(** [me] is the task of this acceptance. *)
Definition stop_old_world (me : nat) : rpc (Gateway E W) unit :=
  g ← get;
  _ ← when (bool_decide (is_Some (ap_loop_task (gw_app g)))) (settle "loop");
  _ ← when (bool_decide (is_Some (gw_network g))) (settle "network");
  _ ← when (bool_decide (is_Some (gw_contexts g))) (settle "coordinator");
  _ ← when (bool_decide (is_Some (gw_tracker g))) (settle "tracker");
  match ap_reconciler_task (gw_app g) with
  | None => mret tt
  | Some t =>
      _ ← sync (on_app (begin_expected_reconciler_replacement t (Some me)));
      settle "reconciler"
  end.

Definition frozen_requests g : list RequestInfo :=
  match gw_tracker g with Some tr => (all_requests tr).*2 | None => [] end.
Definition frozen_leases g : list DecodeSlotLease := replacement_decode_leases (ev_scheduler (gw_evaluator g)).

Definition request_operations (r : RequestInfo) : gset string :=
  list_to_set (req_id r :: List.filter truthy
    ([active_operation_id r; transfer_operation_id r]
     ++ (operation_of <$> omap id [dispatch_operation_ref r; suffix_operation_ref r; target_request_ref r;
                                   target_request_commit_ref r; transfer_source_ref r; transfer_target_ref r]))).
(** The frozen operations the request does not exclude. *)
Definition missing_operations (excluded : list string) (requests : list RequestInfo)
    (leases : list DecodeSlotLease) : gset string :=
  (list_to_set (lease_operation_id <$> leases) ∪ ⋃ (request_operations <$> requests))
  ∖ list_to_set excluded.

(** [old_allocator.owner_generation], or the queue's owner *)
Definition owner_generation g : result exn string :=
  match gw_network g, ap_queue (gw_app g) with
  | Some n, _ => Ok (al_owner_generation (nc_allocator n))
  | None, Some q => Ok (nq_owner_id q)
  | None, None => Raise AttributeError
  end.

(** ** The new world is taken over and its consumers built *)

Definition fail_request (r : RequestInfo) : rpc (Gateway E W) unit :=
  g ← get;
  _ ← match gw_output g with
      | None => mret tt
      | Some _ =>
          _ ← settle "output";
          sync (λ g, match gw_output g with
                     | None => (Raise AttributeError, g)
                     | Some b => let '(x, b') := Output.fail (req_id r) "topology_replaced" b in
                                 (x, set_gw_output (Some b') g)
                     end)
      end;
  update (λ g, set_gw_tracker ((λ tr, (SequenceState.remove (req_id r) tr).2) <$> gw_tracker g) g).
Fixpoint fail_requests (l : list RequestInfo) : rpc (Gateway E W) unit :=
  match l with [] => mret tt | r :: l' => _ ← fail_request r; fail_requests l' end.

(** [scheduler.register_instance] for one member, from its last report; the
    active requests are named by their text *)
Definition register_member (r : WorkerRegistry) (now : Z) (nw : string * WorkerIdentity) :
    method PDScheduler unit := λ s,
  let w := nw.2 in
  let report := default [] (rs_report (resource_signal r nw.1 now)) in
  match (slots ← ReplacementStore.py_int int_of_str
           (default (JInt (if bool_decide (wi_role w = "decode") then 1 else 0)) (dget "max_slots" report));
         active ← id_list repr "active_request_ids" report;
         mret (slots, active)) with
  | Raise e => (Raise e, s)
  | Ok (slots, active) => register_instance nw.1 (wi_role w) slots (wi_instance_epoch w) active s
  end.
Fixpoint register_members (r : WorkerRegistry) (now : Z) (l : list (string * WorkerIdentity)) :
    method PDScheduler unit :=
  match l with [] => mret tt | nw :: l' => _ ← register_member r now nw; register_members r now l' end.

Definition build_consumers (cfg : Settings) (r : WorkerRegistry) (generation owner : string) (now : Z)
    (store : option ReplacementDecisionStore) : result exn Consumers :=
  match register_members r now (map_to_list (members r)) (init_scheduler (sg_scheduler cfg)) with
  | (Raise e, _) => Raise e
  | (Ok _, scheduler) =>
      allocator ← new_EndpointSequenceAllocator generation owner;
      network ← new_NetworkControlRPC allocator (Admission.expected_epochs r) (sg_query_interval cfg)
                  (sg_operation_timeout cfg) (sg_block_size cfg) (sg_block_bytes cfg)
                  (sg_active_cap cfg) (sg_terminal_cap cfg) clock_epoch;
      evaluator ← new_ResourceReleaseEvaluator scheduler (sg_active_cap cfg) (sg_terminal_cap cfg) store;
      output ← new_GatewayOutputBuffer (sg_active_cap cfg) (sg_terminal_cap cfg);
      epochs ← decode_instance_epochs scheduler;
      mret (mkConsumers evaluator network output
              (TransferGovernor.set_expected_epochs (list_to_map epochs) (init_governor (sg_governor cfg))))
  end.

(** ** The old leases are settled *)

(** [fault_gate.record_event(name, details)] *)
Definition gate_event (name : string) (details : odict string json) : method (Gateway E W) unit :=
  modify (λ g, set_gw_fault_gate (record_event repr name details (clock g) <$> gw_fault_gate g) g).
Definition names (l : list string) : json := JList (JStr <$> l).

Fixpoint quarantine_leases (l : list DecodeSlotLease) : method (Gateway E W) unit :=
  match l with
  | [] => mret tt
  | x :: l' =>
      _ ← on_evaluator (on_scheduler (quarantine_decode_slot (lease_operation_id x)));
      quarantine_leases l'
  end.

Definition lease_entry (run : string) (l : DecodeSlotLease) : string * string * string * list string :=
  ("replacement:" +:+ run +:+ ":" +:+ lease_operation_id l, lease_operation_id l, lease_id l, ["DECODE_SLOT"]).

(** From the quarantine of the leases to the return of their slots; nothing
    is awaited. *)
Definition settle_leases (record : RestartRunRecord) (candidate : registry_id) (e : ReplacementEvidence)
    (leases : list DecodeSlotLease) : method (Gateway E W) unit :=
  let run := rn_restart_run_id record in
  _ ← quarantine_leases leases;
  _ ← gate_event "release_predicates_satisfied"
        [("restart_run_id", JStr run); ("operation_ids", names (lease_operation_id <$> leases));
         ("old_termination_proof_digests", names (re_old_termination_proof_digests e));
         ("fresh_resource_report_digests", names (re_fresh_resource_report_digests e))];
  g ← read;
  records ← on_evaluator (persist_whole_world_replaced_batch sha (disk_write 0 g)
              (lease_entry run <$> leases) e);
  _ ← gate_event "replacement_record_durable"
        [("restart_run_id", JStr run); ("operation_ids", names (rr_operation_id <$> records));
         ("record_count", JInt (Z.of_nat (length records)))];
  _ ← on_ledger (commit record candidate);
  _ ← on_evaluator (release_persisted_replacement_batch records);
  gate_event "slot_released"
    [("restart_run_id", JStr run); ("operation_ids", names (rr_operation_id <$> records))].

(** ** The new world is published *)

(** The reconciler of the new world works on the index of the old one; what
    it did to the index stays when it fails. *)
Definition rebuild_prefix_world (owner generation : string) (epochs : odict string string) :
    rpc (Gateway E W) (@PrefixReconciler E) :=
  _ ← settle "prefix reports";
  sync (λ g, match ap_reconciler (gw_app g) with
  | None => (Raise AttributeError, g)
  | Some rc =>
      let '(x, rc') := rebuild_world dumps sha directory epochs
                         (new_PrefixReconciler (rc_index rc) owner generation (rc_env rc)) in
      match x with
      | Ok _ => (Ok rc', g)
      | Raise e => (Raise e, set_app (set_reconciler (Some (set_env (rc_env rc')
                               (set_rc_index (rc_index rc') rc))) (gw_app g)) g)
      end
  end).

Definition publish (candidate : registry_id) (cs : Consumers) (rc : option (@PrefixReconciler E)) g :
    Gateway E W :=
  let a := set_ap_registry (Some candidate) (gw_app g) in
  let a := match rc with
           | Some rc => set_reconciler_task (Some (new_task g))
                          (set_publication (rc_publication rc) (set_reconciler (Some rc) a))
           | None => a
           end in
  set_app a
    (set_evaluator (cs_evaluator cs) (set_gw_network (Some (cs_network cs))
    (set_gw_tracker (Some empty_tracker) (set_gw_output (Some (cs_output cs))
    (set_gw_governor (cs_governor cs)
    (set_gw_contexts ((λ _, []) <$> gw_contexts g) g)))))).

(** The loop of the new world, when the old one had one. *)
Definition start_loop (had_loop : bool) g : Gateway E W :=
  if had_loop then set_app (set_loop_task (Some (new_task g)) (gw_app g)) g else g.

(** [old_evaluator.seal_whole_world_replacement]: the old evaluator is no
    longer the application's, the store still is. *)
Definition on_old_evaluator {A} (ev : ResourceReleaseEvaluator) (m : method ResourceReleaseEvaluator A) :
    method (Gateway E W) A := λ g,
  let '(x, ev') := m (ResourceRelease.set_store (ap_store (gw_app g)) ev) in
  (x, set_app (set_ap_store (ev_store ev') (gw_app g)) g).

(** From the first report of the new workers to the commit. *)
Definition install (cfg : Settings) (body : odict string json) (record : RestartRunRecord)
    (candidate : registry_id) (owner exclusion : string) (requests : list RequestInfo)
    (leases : list DecodeSlotLease) (had_loop : bool) (me : nat) : rpc (Gateway E W) RestartRunRecord :=
  let generation := rn_new_topology_generation record in
  old ← lift (excluded_ids repr body);
  live ← pull_replacement_resource_reports repr clock candidate old false;
  _ ← fail_requests requests;
  g ← get;
  match registry_at candidate g with
  | None => throw (PyError AttributeError)
  | Some r =>
      cs ← lift (build_consumers cfg r generation owner (clock g) (ap_store (gw_app g)));
      _ ← sync (settle_leases record candidate (run_evidence sha record live exclusion) leases);
      g ← get;
      rc ← match gw_contexts g with
           | None => mret None
           | Some _ => rc ← rebuild_prefix_world owner generation (Admission.expected_epochs r); mret (Some rc)
           end;
      g ← get;
      let old_evaluator := gw_evaluator g in
      _ ← update (λ g, start_loop had_loop
                         (set_app (finish_expected_reconciler_replacement None (Some me)
                                     (gw_app (publish candidate cs rc g))) (publish candidate cs rc g)));
      final ← pull_replacement_resource_reports repr clock candidate old false;
      g ← get;
      _ ← sync (on_old_evaluator old_evaluator
            (seal_whole_world_replacement sha (disk_write 1 g) (disk_write 2 g)
               (run_evidence sha record final exclusion)));
      _ ← pull_replacement_resource_reports repr clock candidate old false;
      g ← get;
      _ ← sync (on_app (finalize_topology_acceptance generation (clock g)));
      mret record
  end.

Definition replace_world (fuel : nat) (cfg : Settings) (body : odict string json)
    (record : RestartRunRecord) (candidate : registry_id) (me : nat) : tk (S := Gateway E W) RestartRunRecord :=
  g ← once get;
  owner ← once (lift (owner_generation g));
  _ ← once (stop_old_world me);
  frozen ← once get;
  excluded ← once (lift (id_list repr "old_operation_ids" body));
  _ ← once (lift (need (bool_decide
        (missing_operations excluded (frozen_requests frozen) (frozen_leases frozen) = ∅))));
  exclusion ← once (lift (replacement_exclusion_digest sha repr body));
  match registry_at candidate frozen with
  | None => once (throw (PyError AttributeError))
  | Some r =>
      audit ← activate_replacement_owner sha repr clock sleep fuel (member_names r) owner
                (4 * (sg_active_cap cfg + sg_terminal_cap cfg)) None (2 * 10 ^ 8);
      _ ← once (update (set_gw_audit (Some audit)));
      once (install cfg body record candidate owner exclusion (frozen_requests frozen)
              (frozen_leases frozen) (bool_decide (is_Some (ap_loop_task (gw_app g)))) me)
  end.

(** [_prefix_poll_interval_s], without underflow *)
Definition prefix_poll_interval (v : json) : result exn Q :=
  q ← match v with
      | JInt z => match float_of_int z with Some q => Ok q | None => Raise OverflowError end
      | JFloat q => Ok q
      | _ => Raise ValueError
      end;
  _ ← need (negb (Qle_bool q 0));
  mret (q * (1 # 1000))%Q.

Definition accept_replacement_topology (fuel : nat) (cfg : Settings) (body : odict string json) (me : nat) :
    tk (S := Gateway E W) RestartRunRecord :=
  g ← once get;
  _ ← once (lift (match gw_contexts g with
                  | Some _ => _ ← prefix_poll_interval (sg_prefix_poll cfg); mret tt
                  | None => mret tt
                  end));
  d ← once (sync (open_acceptance body));
  match d with
  | Recover p => once (recover sha sha_raw repr clock disk_write p body)
  | Accepted record => mret record
  | Replace record candidate => replace_world fuel cfg body record candidate me
  end.
End Replace.

(** ** Decisions before slots *)

Lemma merge_records_get rs c leases ch c' ch' :
  merge_records rs c leases ch = Ok (c', ch') →
  (∀ k x, dget k c = Some x → dget k c' = Some x)
  ∧ Forall (λ r, dget (rr_key r) c' = Some r) rs.
Proof.
  revert c leases ch. induction rs as [|r rs IH]; intros c leases ch; simpl.
  { intros [= <- <-]. by split. }
  destruct (dget (rr_key r) c) as [x|] eqn:Hk.
  - case_bool_decide as Hx; [done|]. subst x. intros [Hc Hr]%IH. split; [done|]. constructor; eauto.
  - destruct (match dget (rr_lease r) leases with Some _ => _ | None => _ end); [done|].
    intros [Hc Hr]%IH. split.
    + intros k x Hx. apply Hc. rewrite dget_dset_ne; [done|]. intros ->. congruence.
    + constructor; [|done]. apply Hc, dget_dset_eq.
Qed.

(** What a persisted batch has stored. *)
Lemma persist_records_stored sha w rs run gen d s stored s' :
  persist_records sha w rs run gen d s = (Ok stored, s') →
  stored = rs ∧ st_fatal s' = false ∧ run ≠ ""
  ∧ Forall (λ r, r ∈ dvalues (sn_records (st_snapshot s'))) rs.
Proof.
  unfold persist_records, require_integrity. cbv zeta. destruct (st_fatal s) eqn:Hf; [done|].
  case_bool_decide; [done|]. destruct (negb (truthy _)); [done|]. destruct (existsb _ rs); [done|].
  destruct (validate_requested_run _ _ _ _ _) as [[]|] eqn:Hv; [|done].
  apply validate_Ok in Hv as (Hrun & _). destruct (existsb _ rs); [done|].
  destruct (merge_records _ _ _ _) as [[c ch]|] eqn:Hm; [|done].
  destruct (merge_records_get _ _ _ _ _ _ Hm) as [Hkeep Hall].
  assert (Forall (λ r, r ∈ dvalues c) rs) as Hin.
  { eapply Forall_impl; [exact Hall|]. intros r Hr. apply dget_Some_1 in Hr. unfold dvalues.
    apply list_elem_of_fmap. by exists (rr_key r, r). }
  assert (omap (λ r, dget (rr_key r) c) rs = rs) as Hst.
  { clear -Hall. induction Hall as [|r rs Hr _ IH]; [done|]. simpl. rewrite Hr. simpl. by f_equal. }
  case_bool_decide; [done|]. rewrite Hst. destruct (ch || _) eqn:Hch.
  - destruct w; simpl; [|done..]. intros [= <- <-]. by split_and!.
  - intros [= <- <-]. apply orb_false_iff in Hch as [-> Hact]. split_and!; try done.
    assert (c = sn_records (st_snapshot s)) as <-; [|done]. clear -Hm. revert Hm.
    generalize (leases_of (sn_records (st_snapshot s))) as leases.
    assert (∀ rs c0 c' leases, merge_records rs c0 leases true = Ok (c', false) → False) as Htrue.
    { clear. induction rs as [|r rs IH]; intros c0 c' leases; simpl; [done|].
      destruct (dget (rr_key r) c0); [case_bool_decide; [done|]; apply IH|].
      destruct (match dget (rr_lease r) leases with Some _ => _ | None => _ end); [done|]. apply IH. }
    induction rs as [|r rs IH]; intros leases; simpl; [by intros [= ->]|].
    destruct (dget (rr_key r) (sn_records (st_snapshot s))); [case_bool_decide; [done|]; apply IH|].
    destruct (match dget (rr_lease r) leases with Some _ => _ | None => _ end); [done|].
    intros []%Htrue.
Qed.

Lemma batch_records_spec entries e rs :
  batch_records entries e = Ok rs →
  Forall2 (λ en r, replacement_record en.1.1.1 en.1.1.2 en.1.2 en.2 e = Ok r) entries rs.
Proof.
  revert rs. induction entries as [|[[[c o] l] kinds] entries IH]; intros rs; simpl.
  { intros [= <-]. constructor. }
  destruct (replacement_record c o l kinds e) as [r|] eqn:Hr; [|done].
  destruct (batch_records entries e) as [rs'|]; [|done]. intros [= <-]. constructor; [done|by apply IH].
Qed.

(** Every lease that is released in [s'] was released like that in [s], or
    satisfies [R]. *)
Definition released_by (R : string → DecodeSlotLease → Prop) (s s' : PDScheduler) : Prop :=
  ∀ op l, dget op (slot_leases s') = Some l → lease_state l = Scheduler.RELEASED →
    dget op (slot_leases s) = Some l ∨ R op l.
(** A released lease is never touched again. *)
Definition releases_stay (s s' : PDScheduler) : Prop :=
  ∀ op l, dget op (slot_leases s) = Some l → lease_state l = Scheduler.RELEASED → dget op (slot_leases s') = Some l.

Lemma released_by_refl R s : released_by R s s.
Proof. by left. Qed.
Lemma releases_stay_refl s : releases_stay s s.
Proof. by intros ?. Qed.
Lemma released_by_trans R s1 s2 s3 : released_by R s1 s2 → released_by R s2 s3 → released_by R s1 s3.
Proof. intros H1 H2 op l Hl Hr. destruct (H2 op l Hl Hr) as [H3|]; [|by right]. by apply H1. Qed.
Lemma released_by_mono (R R' : string → DecodeSlotLease → Prop) s s' :
  (∀ op l, R op l → R' op l) → released_by R s s' → released_by R' s s'.
Proof. intros HR H op l Hl Hr. destruct (H op l Hl Hr); auto. Qed.

Lemma quarantine_released R op s : released_by R s (quarantine_decode_slot op s).2.
Proof.
  unfold quarantine_decode_slot. destruct (dget op (slot_leases s)) as [l|]; [|apply released_by_refl].
  case_decide; [apply released_by_refl|]. intros op' l'. simpl. rewrite dget_dset.
  case_decide; [by intros [= <-]|by left].
Qed.

Lemma release_slot_leases op li c s l x s' :
  dget op (slot_leases s) = Some l → lease_state l = QUARANTINED → lease_id l = li →
  release_quarantined_decode_slot op (Some li) c s = (x, s') →
  slot_leases s' = dset op (set_release_cleanup_id c (set_lease_state Scheduler.RELEASED l)) (slot_leases s).
Proof.
  intros Hl Hq Hi. unfold release_quarantined_decode_slot. rewrite Hl, Hq, bool_decide_false by auto.
  unfold mbind, method_mbind, method_bind. set (s1 := put_lease _ _ s).
  pose proof (return_slot_leases (lease_instance_id l) s1) as Hr.
  destruct (return_slot (lease_instance_id l) s1) as [[] s2]; intros [= <- <-]; exact Hr.
Qed.

Lemma release_local_spec r s x s' :
  release_local_record r false s = (x, s') →
  released_by (λ op l, op = rr_operation_id r ∧ lease_id l = rr_lease_id r) s s'
  ∧ releases_stay s s'
  ∧ (x = Ok tt → ∃ l, dget (rr_operation_id r) (slot_leases s') = Some l ∧ lease_state l = Scheduler.RELEASED
                  ∧ lease_id l = rr_lease_id r).
Proof.
  unfold release_local_record, decode_slot_lease.
  destruct (dget (rr_operation_id r) (slot_leases s)) as [l|] eqn:Hl; cycle 1.
  { intros [= <- <-]. by split_and!; [apply released_by_refl|apply releases_stay_refl|]. }
  case_bool_decide as Hi.
  { intros [= <- <-]. by split_and!; [apply released_by_refl|apply releases_stay_refl|]. }
  destruct (lease_state l) eqn:Hs.
  - intros [= <- <-]. by split_and!; [apply released_by_refl|apply releases_stay_refl|].
  - intros [= <- <-]. by split_and!; [apply released_by_refl|apply releases_stay_refl|].
  - case_bool_decide; intros [= <- <-]; split_and!;
      auto using released_by_refl, releases_stay_refl; intros ?; by exists l.
  - destruct (release_quarantined_decode_slot _ _ _ s) as [y s1] eqn:Hrel.
    pose proof (release_slot_leases _ _ _ _ _ _ _ Hl Hs Hi Hrel) as Hls.
    set (l' := set_release_cleanup_id _ _) in Hls.
    intros Hx. assert (s' = s1) as -> by (by destruct y as [[]|]; injection Hx as _ <-).
    split_and!.
    + intros op k Hk Hrk. rewrite Hls, dget_dset in Hk. case_decide; [|by left].
      injection Hk as <-. subst op. by right.
    + intros op k Hk Hrk. rewrite Hls, dget_dset. case_decide; [|done]. subst op. congruence.
    + intros _. exists l'. rewrite Hls, dget_dset_eq. done.
Qed.

Lemma release_batch_spec rs ev x ev' :
  release_persisted_replacement_batch rs ev = (x, ev') →
  ev_store ev' = ev_store ev
  ∧ released_by (λ op l, ∃ r, r ∈ rs ∧ op = rr_operation_id r ∧ lease_id l = rr_lease_id r)
      (ev_scheduler ev) (ev_scheduler ev')
  ∧ releases_stay (ev_scheduler ev) (ev_scheduler ev')
  ∧ (x = Ok tt → Forall (λ r, ∃ l, dget (rr_operation_id r) (slot_leases (ev_scheduler ev')) = Some l
       ∧ lease_state l = Scheduler.RELEASED ∧ lease_id l = rr_lease_id r) rs).
Proof.
  revert ev x ev'. induction rs as [|r rs IH]; intros ev x ev'; simpl.
  { intros [= <- <-]. by split_and!; [|apply released_by_refl|apply releases_stay_refl|constructor]. }
  unfold on_scheduler. destruct (release_local_record r false (ev_scheduler ev)) as [y s1] eqn:Hr.
  apply release_local_spec in Hr as (Hby & Hstay & Hok).
  destruct y as [[]|e].
  - intros (Hst & Hby' & Hstay' & Hok')%IH. simpl in *. split_and!; [done| | |].
    + eapply released_by_trans; [eapply released_by_mono; [|exact Hby]|eapply released_by_mono; [|exact Hby']].
      * intros op l [-> Hl]. exists r. split_and!; [by left|done|done].
      * intros op l (r' & Hin & ?). exists r'. split; [by right|done].
    + intros op l Hl Hrl. apply Hstay'; [|done]. by apply Hstay.
    + intros Hx. constructor; [|by apply Hok'].
      destruct (Hok eq_refl) as (l & Hl & Hrl & Hid). exists l. split_and!; try done. by apply Hstay'.
  - intros [= <- <-]. simpl. split_and!; [done| |done|done].
    eapply released_by_mono; [|exact Hby]. intros op l [-> Hl]. exists r. split_and!; [by left|done|done].
Qed.

Lemma persist_batch_spec sha w entries e ev x ev' :
  persist_whole_world_replaced_batch sha w entries e ev = (x, ev') →
  (∀ st, ev_store ev = Some st → store_inv sha st) →
  ev_scheduler ev' = ev_scheduler ev ∧ (∀ st, ev_store ev' = Some st → store_inv sha st)
  ∧ ∀ rs, x = Ok rs →
      Forall2 (λ en r, replacement_record en.1.1.1 en.1.1.2 en.1.2 en.2 e = Ok r) entries rs
      ∧ ∃ st, ev_store ev' = Some st ∧ st_fatal st = false
          ∧ Forall (λ r, r ∈ dvalues (sn_records (st_snapshot st))) rs.
Proof.
  unfold persist_whole_world_replaced_batch, require_replacement_store. intros H Hinv.
  assert (∀ y, (Raise y, ev) = (x, ev') → ev_scheduler ev' = ev_scheduler ev
    ∧ (∀ st, ev_store ev' = Some st → store_inv sha st)
    ∧ ∀ rs, x = Ok rs → Forall2 (λ en r, replacement_record en.1.1.1 en.1.1.2 en.1.2 en.2 e = Ok r) entries rs
      ∧ ∃ st, ev_store ev' = Some st ∧ st_fatal st = false
          ∧ Forall (λ r, r ∈ dvalues (sn_records (st_snapshot st))) rs) as Hraise.
  { intros y [= <- <-]. by split_and!. }
  destruct (ev_store ev) as [st|] eqn:Hst; [|eauto]. destruct (st_fatal st) eqn:Hf; [eauto|].
  destruct (validate_replacement_evidence e) as [u|] eqn:Hv; [destruct u|eauto].
  destruct (batch_records entries e) as [rs|] eqn:Hb; [|eauto].
  destruct (check_batch _ _ _ _ _); [|eauto]. apply batch_records_spec in Hb. clear Hraise.
  unfold on_store in H. destruct (persist_records _ _ _ _ _ _ st) as [y st'] eqn:Hp. injection H as <- <-.
  simpl. split_and!; [done| |].
  - intros ? [= <-].
    assert (st' = (persist_records sha w rs (re_restart_run_id e) (re_old_topology_generation e)
      (Some (re_decision_digest e)) st).2) as -> by (by rewrite Hp).
    destruct (decide (re_restart_run_id e = "")) as [He|He].
    + assert ((persist_records sha w rs (re_restart_run_id e) (re_old_topology_generation e)
        (Some (re_decision_digest e)) st).2 = st) as ->; [|by apply Hinv].
      unfold persist_records, require_integrity. cbv zeta. rewrite Hf. case_bool_decide; [done|].
      destruct (negb (truthy _)); [done|]. destruct (existsb _ rs); [done|].
      unfold validate_requested_run. by rewrite He.
    + apply persist_records_inv; [by apply Hinv|].
      apply validate_evidence_fields in Hv as (Hx & Hd & _).
      apply Forall_forall. intros r Hr. apply list_elem_of_lookup in Hr as [j Hj].
      destruct (Forall2_lookup_r _ _ _ _ _ Hb Hj) as (en & _ & Hen).
      apply replacement_record_fields in Hen. unfold record_ok. destruct_and?. split_and?; congruence.
  - intros rs' ->. apply persist_records_stored in Hp as (-> & Hnf & _ & Hall). split; [done|].
    by exists st'.
Qed.

Section SettleLemmas.
Context {E W : Type}.
Context (sha repr : json → string) (clock : Gateway E W → Z).
Context (disk_write : nat → Gateway E W → write_outcome).
Implicit Types (g : Gateway E W).

Abbreviation scheduler g := (ev_scheduler (gw_evaluator g)).

(** The store holds the decision to give the slot of a lease back. *)
Definition durable (run decision operation lease : string) g : Prop :=
  ∃ st r, ap_store (gw_app g) = Some st ∧ st_fatal st = false
    ∧ r ∈ dvalues (sn_records (st_snapshot st)) ∧ rr_operation_id r = operation
    ∧ rr_lease_id r = lease ∧ rr_restart_run_id r = run ∧ rr_decision_digest r = decision.

(** The parts of a gateway a decision is about are the same. *)
Definition same_books g g' : Prop :=
  ap_store (gw_app g') = ap_store (gw_app g) ∧ ap_ledger (gw_app g') = ap_ledger (gw_app g).

Lemma quarantine_leases_spec l g x g' :
  quarantine_leases l g = (x, g') → same_books g g' ∧ ∀ R, released_by R (scheduler g) (scheduler g').
Proof.
  revert g. induction l as [|a l IH]; intros g; simpl.
  { intros [= _ <-]. split; [done|]. intros R. apply released_by_refl. }
  unfold mbind, method_mbind, method_bind, on_evaluator, on_scheduler.
  pose proof (λ R, quarantine_released R (lease_operation_id a) (scheduler g)) as Hq. simpl.
  destruct (quarantine_decode_slot _ _) as [[y|] s1]; [|by intros [= _ <-]].
  intros [Hb Hr]%IH. split; [exact Hb|]. intros R. eapply released_by_trans; [apply Hq|apply Hr].
Qed.

Lemma on_ledger_commit record candidate g x g' :
  on_ledger (commit record candidate) g = (x, g') →
  ap_store (gw_app g') = ap_store (gw_app g) ∧ gw_evaluator g' = gw_evaluator g
  ∧ (x = Ok tt → ap_ledger (gw_app g') = Some candidate).
Proof.
  unfold on_ledger. destruct (ap_ledger (gw_app g)) as [i|] eqn:Hi; [|by intros [= <- <-]].
  destruct (commit record candidate (ledger_at i g)) as [y L] eqn:Hc. intros [= <- <-]. split_and!; try done.
  intros ->. simpl. f_equal. unfold commit in Hc. destruct (dget _ _).
  - destruct (bool_decide (r ≠ record)); [done|]. simpl in Hc. case_bool_decide; [done|]. by injection Hc as <-.
  - do 2 (case_bool_decide; [done|]). by injection Hc as <-.
Qed.

(** What [settle_leases] has done when it ends, however it ends. *)
Definition settled (run decision : string) (candidate : registry_id) (leases : list DecodeSlotLease)
    g (x : result exn unit) g' : Prop :=
  sound sha g'
  ∧ released_by (λ op l, durable run decision op (lease_id l) g' ∧ ap_ledger (gw_app g') = Some candidate)
      (scheduler g) (scheduler g')
  ∧ (x = Ok tt → ap_ledger (gw_app g') = Some candidate
      ∧ Forall (λ l, durable run decision (lease_operation_id l) (lease_id l) g'
          ∧ ∃ k, dget (lease_operation_id l) (slot_leases (scheduler g')) = Some k
              ∧ lease_state k = Scheduler.RELEASED ∧ lease_id k = lease_id l) leases).

Lemma settled_raise run decision candidate leases g e g' :
  sound sha g' → (∀ R, released_by R (scheduler g) (scheduler g')) →
  settled run decision candidate leases g (Raise e) g'.
Proof. intros Hs Hr. by split_and!. Qed.

Lemma on_evaluator_spec {A} (m : method ResourceReleaseEvaluator A) g x g' :
  on_evaluator m g = (x, g') → ∃ ev, m (set_store (ap_store (gw_app g)) (gw_evaluator g)) = (x, ev)
    ∧ gw_evaluator g' = ev ∧ ap_store (gw_app g') = ev_store ev ∧ ap_ledger (gw_app g') = ap_ledger (gw_app g).
Proof. unfold on_evaluator. destruct (m _) as [y ev]. intros [= <- <-]. by exists ev. Qed.

(** The release of the leases of a batch that the store holds. *)
Lemma release_settles record e candidate leases records g x g' :
  Forall2 (λ en r, replacement_record en.1.1.1 en.1.1.2 en.1.2 en.2 e = Ok r)
    (lease_entry (rn_restart_run_id record) <$> leases) records →
  (∃ st, ap_store (gw_app g) = Some st ∧ st_fatal st = false
     ∧ Forall (λ r, r ∈ dvalues (sn_records (st_snapshot st))) records) →
  sound sha g → ap_ledger (gw_app g) = Some candidate →
  on_evaluator (release_persisted_replacement_batch records) g = (x, g') →
  settled (re_restart_run_id e) (re_decision_digest e) candidate leases g x g'.
Proof.
  intros Hrec (st & Hst & Hf & Hin) Hs Hl (ev & Hr & Hev & Hst' & Hl')%on_evaluator_spec.
  apply release_batch_spec in Hr as (Hsame & Hby & _ & Hok). simpl in *. rewrite Hsame in Hst'.
  rewrite <- Hev in *. rewrite Hl in Hl'.
  assert (∀ r, r ∈ records → durable (re_restart_run_id e) (re_decision_digest e)
    (rr_operation_id r) (rr_lease_id r) g') as Hd.
  { intros r [j Hj]%list_elem_of_lookup. destruct (Forall2_lookup_r _ _ _ _ _ Hrec Hj) as (en & _ & Hen).
    apply replacement_record_fields in Hen as (_ & _ & _ & Hrun & _ & Hdec & _).
    exists st, r. rewrite Hst'. split_and!; try done. exact (Forall_lookup_1 _ _ _ _ Hin Hj). }
  split_and!.
  - intros st0. rewrite Hst'. apply Hs.
  - eapply released_by_mono; [|exact Hby]. intros op l (r & Hr & -> & ->). by split; [apply Hd|].
  - intros Hx. split; [done|]. apply Forall_forall. intros l [j Hj]%list_elem_of_lookup.
    destruct (Forall2_lookup_l _ _ _ j (lease_entry (rn_restart_run_id record) l) Hrec) as (r & Hr & Hen).
    { by rewrite list_lookup_fmap, Hj. }
    apply replacement_record_fields in Hen as (_ & Ho & Hi & _). simpl in Ho, Hi. rewrite <- Ho, <- Hi.
    split; [by apply Hd, (list_elem_of_lookup_2 _ j)|].
    destruct (proj1 (Forall_lookup _ _) (Hok Hx) j r Hr) as (k & ? & ? & ?). by exists k.
Qed.

Lemma settle_leases_settled record candidate e leases g x g' :
  sound sha g → settle_leases sha repr clock disk_write record candidate e leases g = (x, g') →
  settled (re_restart_run_id e) (re_decision_digest e) candidate leases g x g'.
Proof.
  intros Hs. unfold settle_leases, mbind, method_mbind, method_bind.
  destruct (quarantine_leases leases g) as [q g1] eqn:Hq. apply quarantine_leases_spec in Hq as [[Hb1 _] Hr1].
  assert (sound sha g1) as Hs1 by (intros st; rewrite Hb1; apply Hs).
  destruct q as [u1|ex]; [|intros [= <- <-]; by apply settled_raise].
  cbv beta iota delta [gate_event modify read]. set (g2 := set_gw_fault_gate _ g1).
  destruct (on_evaluator (persist_whole_world_replaced_batch _ _ _ _) g2) as [p g3] eqn:Hp.
  apply on_evaluator_spec in Hp as (ev3 & Hp & Hev3 & Hst3 & Hl3).
  apply persist_batch_spec in Hp as (Hsch & Hinv & Hrec); [|exact Hs1]. simpl in Hsch.
  assert (sound sha g3) as Hs3 by (intros st; rewrite Hst3; apply Hinv).
  assert (∀ R, released_by R (scheduler g) (scheduler g3)) as Hr3 by (by rewrite Hev3, Hsch).
  destruct p as [records|ex]; [|intros [= <- <-]; by apply settled_raise].
  specialize (Hrec records eq_refl) as [Hrec Hin]. rewrite <- Hst3 in Hin. set (g4 := set_gw_fault_gate _ g3).
  destruct (on_ledger (commit record candidate) g4) as [c g5] eqn:Hc.
  apply on_ledger_commit in Hc as (Hst5 & Hev5 & Hl5). simpl in Hst5, Hev5.
  assert (sound sha g5) as Hs5 by (intros st; rewrite Hst5; apply Hs3). rewrite <- Hst5 in Hin.
  rewrite <- Hev5 in Hr3. destruct c as [u5|ex]; [destruct u5|intros [= <- <-]; by apply settled_raise].
  destruct (on_evaluator (release_persisted_replacement_batch records) g5) as [y g6] eqn:Hrel.
  eapply release_settles in Hrel as (Hs6 & Hby & Hok); [|done..|by apply Hl5].
  assert (released_by (λ op l, durable (re_restart_run_id e) (re_decision_digest e) op (lease_id l) g6
    ∧ ap_ledger (gw_app g6) = Some candidate) (scheduler g) (scheduler g6)) as Hby6
    by (eapply released_by_trans; [apply Hr3|exact Hby]).
  destruct y as [u|ex]; [destruct u|]; intros [= <- <-]; by split_and!.
Qed.

(** C11: Slots come back on durable decisions only.  However the settlement of
    the old leases ends - a refused batch, a write that fails or may have
    happened, a ledger that has moved on, a slot that cannot be returned -
    the store is sound, and a lease that was released by it has its decision,
    with the operation, the lease, the run and the digest of the request, in
    a store that is not fatal, and the ledger already names the new world.
    When it succeeds, that is so of every frozen lease. *)
Theorem slots_return_on_durable_decisions record candidate e leases g x g' :
  sound sha g → settle_leases sha repr clock disk_write record candidate e leases g = (x, g') →
  settled (re_restart_run_id e) (re_decision_digest e) candidate leases g x g'.
Proof. apply settle_leases_settled. Qed.
End SettleLemmas.

(** ** What the takeover keeps *)

Section TakeoverKeeps.
Context (sha repr : json → string) {S : Type} `{InferClient S} (clock : S → Z) (sleep : Z → S → S).
Context (P : S → Prop).
Hypothesis calls_keep : ∀ mth i path body ref, keeps P (client_request mth i path body ref).
Hypothesis sleep_keeps : ∀ d s, P s → P (sleep d s).

Definition tk_keeps {A} (m : tk (S := S) A) : Prop := ∀ s x s', P s → m s = Some (x, s') → P s'.

#[local] Hint Resolve keeps_bind keeps_ret keeps_throw keeps_state keeps_lift calls_keep : core.
(** Follows the calls of a coroutine. *)
Ltac keep := repeat first
  [ apply calls_keep | apply keeps_lift | apply keeps_ret | apply keeps_throw | apply keeps_state
  | apply keeps_bind; [|intros ?] ]; auto.

Lemma keeps_attempt {T} (Q : T → Prop) {A} (m : rpc T A) : keeps Q m → keeps Q (attempt m).
Proof.
  intros Hm s Hs. specialize (Hm s Hs). unfold attempt. destruct (m s) as [[a|e] s']; [done|].
  destruct e; try done. by case_match.
Qed.
Lemma keeps_each {A B} (f : A → rpc S B) l : (∀ x, keeps P (f x)) → keeps P (each f l).
Proof. intros Hf. induction l as [|x l IH]; simpl; auto 6. Qed.

Lemma keeps_finalize_remote olds plan e :
  keeps (λ es, P es.2) (finalize_remote sha olds plan e).
Proof.
  intros [ev s] Hs. unfold finalize_remote. cbn [snd fst].
  match goal with |- context [let '(_, _) := ?m s in _] => assert (keeps P m) as Hm end.
  { apply keeps_bind; [apply keeps_bind|]; auto. }
  specialize (Hm s Hs). by destruct (_ ≫= _) as [r s1].
Qed.

Lemma keeps_drive olds n c :
  keeps (λ es, P es.2) (drive fst (λ ev es, (ev, es.2)) (finalize_remote sha olds) n c).
Proof.
  revert c. induction n as [|n IH]; intros c es Hes; destruct c as [r|plan e ? ?]; try by destruct r.
  { done. }
  cbn [drive].
  pose proof (keeps_finalize_remote olds plan e es Hes) as Hf.
  destruct (finalize_remote sha olds plan e es) as [[a|] es1]; [|done].
  destruct (resume _ _ _) as [c' ev]. by apply IH.
Qed.
Lemma keeps_finalize_orphans olds key ops :
  keeps (λ es, P es.2) (finalize_orphans sha olds key ops).
Proof.
  assert (∀ plan n, keeps (λ es, P es.2) (finalize_tries sha n olds plan)) as Htries.
  { intros plan n. induction n as [|n IH]; simpl; [auto|]. apply keeps_bind.
    - apply keeps_attempt, keeps_bind; [|intros []; auto].
      intros es Hes. unfold release_orphan, release_with. destruct (release_begin plan es.1) as [c ev].
      by apply keeps_drive.
    - intros []; auto. }
  induction ops as [|[op swept] ops IH]; cbn [finalize_orphans]; [auto|]. case_bool_decide; [done|].
  do 2 (apply keeps_bind; [auto|intros ?]). apply keeps_ret.
Qed.

Lemma keeps_swept entry : keeps P (sweep_one entry).
Proof.
  destruct entry as [o l]. unfold sweep_one, or_runtime. apply keeps_bind.
  - destruct (negb _); [apply keeps_attempt, calls_keep|keep].
  - intros _. apply keeps_bind; [|intros ?; keep].
    apply keeps_bind; [apply keeps_attempt, calls_keep|intros []; keep].
Qed.

Lemma keeps_sweep instances new_owner m r : keeps P (sweep sha repr instances new_owner m r).
Proof.
  unfold sweep. do 3 (apply keeps_bind; [keep|intros _]).
  apply keeps_bind; [apply keeps_each; intros ?; keep|]. intros statuses.
  do 2 (apply keeps_bind; [keep|intros ?]).
  apply keeps_bind; [apply keeps_each; intros ?; unfold read_identity; keep|]. intros olds. apply keeps_bind.
  { revert m. induction olds as [|o olds IH]; intros m; simpl; keep. }
  intros reports. apply keeps_bind; [keep|]. intros _.
  apply keeps_bind; [apply keeps_each, keeps_swept|]. intros swept. apply keeps_bind.
  { intros s Hs. unfold in_takeover.
    pose proof (keeps_finalize_orphans olds (owner_key_of olds) (by_operation swept) (takeover_evaluator, s) Hs) as Hf.
    by destruct (finalize_orphans _ _ _ _ _) as [x [ev s1]]. }
  intros finalized. apply keeps_bind; [|intros ?; keep]. apply keeps_each. intros [o before]. unfold recheck. keep.
Qed.

Lemma tk_keeps_once {A} (m : rpc S A) : keeps P m → tk_keeps (once m).
Proof. intros Hm s x s' Hs [= Hx]. specialize (Hm s Hs). by rewrite Hx in Hm. Qed.
Lemma tk_keeps_ret {A} (a : A) : tk_keeps (mret a).
Proof. by intros s x s' Hs [= _ <-]. Qed.
Lemma tk_keeps_none {A} : tk_keeps (A := A) (λ _, None).
Proof. done. Qed.
Lemma tk_keeps_bind {A B} (m : tk A) (k : A → tk B) :
  tk_keeps m → (∀ a, tk_keeps (k a)) → tk_keeps (m ≫= k).
Proof.
  intros Hm Hk s x s' Hs. unfold mbind, tk_mbind. destruct (m s) as [[[a|e] s1]|] eqn:Hms; [| |done].
  - apply Hk. by eapply Hm.
  - intros [= _ <-]. by eapply Hm.
Qed.
#[local] Hint Resolve tk_keeps_once tk_keeps_ret tk_keeps_none tk_keeps_bind : core.

Section Reconcile.
Context (deadline retry_interval : Z) (new_owner : string).

Lemma keeps_require_remaining : keeps P (require_remaining clock deadline).
Proof. intros s Hs. unfold require_remaining. by case_bool_decide. Qed.
Lemma keeps_or_pause {A} (m : rpc S A) :
  keeps P m → keeps P (or_pause clock sleep deadline retry_interval m).
Proof.
  intros Hm s Hs. specialize (Hm s Hs). unfold or_pause. destruct (m s) as [[a|e] s1]; [done|].
  destruct (retryable_owner_error e); [|done]. cut (keeps P (retry_pause clock sleep deadline retry_interval)).
  { intros Hp. by apply (keeps_bind P _ (λ _, mret (A := option A) None) Hp). }
  apply keeps_bind; [apply keeps_require_remaining|]. intros d s2 Hs2. by apply sleep_keeps.
Qed.
#[local] Hint Resolve keeps_require_remaining keeps_or_pause : core.

Lemma tk_keeps_read_owner fuel i : tk_keeps (read_owner clock sleep deadline retry_interval fuel i).
Proof.
  induction fuel as [|fuel IH]; simpl; [auto|]. apply tk_keeps_bind; [|intros []; auto].
  apply tk_keeps_once, keeps_bind; [auto|]. intros _. apply keeps_or_pause. keep.
Qed.
Lemma keeps_mutate_owner m : keeps P m → keeps P (mutate_owner clock sleep deadline retry_interval m).
Proof. intros Hm. unfold mutate_owner. auto. Qed.
#[local] Hint Resolve tk_keeps_read_owner keeps_mutate_owner : core.

Lemma tk_keeps_reconcile fuel olds instances :
  tk_keeps (reconcile clock sleep deadline retry_interval new_owner fuel olds instances).
Proof.
  assert (∀ n i o, tk_keeps (retire_loop clock sleep deadline retry_interval new_owner n i o)) as Hr.
  { intros n i o. induction n as [|n IH]; simpl; [auto|]. apply tk_keeps_bind; [auto|].
    intros [x|]; [|auto]. do 2 (case_bool_decide; [auto|]). apply tk_keeps_bind; [|auto].
    apply tk_keeps_once, keeps_mutate_owner, calls_keep. }
  assert (∀ n i o b, tk_keeps (activate_loop clock sleep deadline retry_interval new_owner n i o b)) as Ha.
  { intros n i o. induction n as [|n IH]; intros b; simpl; [auto|]. apply tk_keeps_bind; [auto|].
    intros [x|]; [case_bool_decide; [auto|]; case_bool_decide; [|auto]|].
    all: apply tk_keeps_bind; [apply tk_keeps_once, keeps_mutate_owner, calls_keep|auto]. }
  unfold reconcile. apply tk_keeps_bind.
  { induction (sort_by String.le old_instance olds); simpl; auto. }
  intros _. apply tk_keeps_bind; [induction instances; simpl; auto|]. intros activated.
  apply tk_keeps_bind; [induction instances; simpl; auto|]. auto.
Qed.
End Reconcile.

Lemma tk_keeps_takeover fuel instances new_owner m deadline r :
  tk_keeps (activate_replacement_owner sha repr clock sleep fuel instances new_owner m deadline r).
Proof.
  unfold activate_replacement_owner. apply tk_keeps_bind; [apply tk_keeps_once, keeps_sweep|]. intros sp.
  apply tk_keeps_bind; [apply tk_keeps_once; by intros s Hs|]. intros now.
  apply tk_keeps_bind; [apply tk_keeps_reconcile|]. intros []. auto.
Qed.
End TakeoverKeeps.

(** ** The transaction *)

(** Admission is open on the generation, behind all its gates. *)
Record opened {E W} (generation : string) (g : Gateway E W) : Prop := {
  op_registry : ∃ r now, current_registry (gw_app g) = Some r
    ∧ expected_topology_generation r = generation ∧ reg_world_fresh r now = true;
  op_ledger : ∀ i, ap_ledger (gw_app g) = Some i → ap_registry (gw_app g) = Some i;
  op_store : replacement_store_allows_admission (gw_app g) = true;
  op_prefix : prefix_world_allows_admission (gw_app g) = true;
  op_tasks : background_control_plane_tasks_healthy false (gw_app g) = true;
  op_fence : ap_acceptance_required (gw_app g) = false ∧ ap_pending_generation (gw_app g) = None;
  op_open : ap_accepting (gw_app g) = true }.

Section ReplaceLemmas.
Context {E W : Type} `{Hcl : InferClient (Gateway E W)}.
Context (sha sha_raw : json → string) (repr : json → string) (int_of_str : string → option Z).
Context (float_of_int : Z → option Q).
Context (untyped_capability : odict string json → result exn PairCapability).
Context (clock : Gateway E W → Z) (sleep : Z → Gateway E W → Gateway E W).
Context (disk_write : nat → Gateway E W → write_outcome).
Context (settle : string → rpc (Gateway E W) unit).
Context (operation_of : handle → string) (new_task : Gateway E W → nat) (clock_epoch : string).
Context (dumps : json → string) (directory : @PrefixDirectoryRPC E).
Implicit Types (g : Gateway E W).

Lemma finalize_Ok generation now g u g' :
  on_app (finalize_topology_acceptance generation now) g = (Ok u, g') → opened generation g'.
Proof.
  unfold on_app, finalize_topology_acceptance.
  destruct (acceptance_gates generation now (gw_app g)) as [v|] eqn:Ha; [destruct v|done].
  apply acceptance_gates_Ok in Ha as (Hr & Hp & (r & Hreg & Hgen & Hf) & Hl & Hst & Hpx & _ & _ & Hb).
  unfold complete_topology_acceptance. rewrite Hr, Hp, bool_decide_false by auto. simpl.
  intros [= _ <-]. split; try done. by exists r, now.
Qed.

Lemma finalize_raises generation now g e g' :
  on_app (finalize_topology_acceptance generation now) g = (Raise e, g') → gw_app g' = gw_app g.
Proof.
  unfold on_app, finalize_topology_acceptance.
  destruct (acceptance_gates generation now (gw_app g)) as [v|] eqn:Ha; [destruct v|by intros [= _ <-]].
  apply acceptance_gates_Ok in Ha as (Hr & Hp & _).
  unfold complete_topology_acceptance. rewrite Hr, Hp, bool_decide_false by auto. done.
Qed.

Section Calm.
Context (generation : string) (Hgen : generation ≠ "").
Abbreviation calm := (calm sha generation).
Hypothesis calls_calm : ∀ mth i path body ref, keeps calm (client_request mth i path body ref).
Hypothesis settle_calm : ∀ what, keeps calm (settle what).
Hypothesis sleep_calm : ∀ d g, calm g → calm (sleep d g).

(** Whether a gateway is calm depends on the fence and the store alone. *)
Lemma calm_same g g' :
  ap_acceptance_required (gw_app g') = ap_acceptance_required (gw_app g) →
  ap_pending_generation (gw_app g') = ap_pending_generation (gw_app g) →
  ap_accepting (gw_app g') = ap_accepting (gw_app g) →
  ap_store (gw_app g') = ap_store (gw_app g) → calm g → calm g'.
Proof.
  intros H1 H2 H3 H4 [(? & ? & ?) Hs]. split; [unfold fenced; by rewrite H1, H2, H3|].
  intros st. rewrite H4. apply Hs.
Qed.

Lemma keeps_at {A} (m : rpc (Gateway E W) A) g x g' : keeps calm m → calm g → m g = (x, g') → calm g'.
Proof. intros Hm Hg Hx. specialize (Hm g Hg). by rewrite Hx in Hm. Qed.
Lemma keeps_update (f : Gateway E W → Gateway E W) : (∀ g, calm g → calm (f g)) → keeps calm (update f).
Proof. intros Hf g Hg. by apply Hf. Qed.

Lemma keeps_stop me : keeps calm (stop_old_world settle me).
Proof.
  unfold stop_old_world. apply keeps_bind; [apply keeps_state|]. intros g.
  assert (∀ c w, keeps calm (when c (settle w))) as Hw.
  { intros [] w; simpl; [apply settle_calm|apply keeps_ret]. }
  do 4 (apply keeps_bind; [apply Hw|intros _]). destruct (ap_reconciler_task (gw_app g)) as [t|]; [|apply keeps_ret].
  apply keeps_bind; [|intros _; apply settle_calm]. apply keeps_sync. intros g1.
  unfold on_app. destruct (begin_expected_reconciler_replacement t (Some me) (gw_app g1)) as [x a] eqn:Hb.
  unfold begin_expected_reconciler_replacement in Hb. simpl. destruct (task_done t (gw_app g1)).
  { injection Hb as _ <-. by apply calm_same. }
  case_bool_decide; [injection Hb as _ <-; by apply calm_same|].
  destruct (match ap_reconciler_replacement_task _ with Some _ => _ | None => _ end);
    injection Hb as _ <-; by apply calm_same.
Qed.

Lemma keeps_fail_requests l : keeps calm (fail_requests settle l).
Proof.
  induction l as [|r l IH]; simpl; [apply keeps_ret|]. apply keeps_bind; [|done].
  unfold fail_request. apply keeps_bind; [apply keeps_state|]. intros g. apply keeps_bind.
  - destruct (gw_output g); [|apply keeps_ret]. apply keeps_bind; [apply settle_calm|]. intros _.
    apply keeps_sync. intros g1. destruct (gw_output g1); [|done]. by destruct (Output.fail _ _ _).
  - intros _. apply keeps_update. intros g1. by apply calm_same.
Qed.

Lemma keeps_rebuild owner gen epochs :
  keeps calm (rebuild_prefix_world sha settle dumps directory owner gen epochs).
Proof.
  unfold rebuild_prefix_world. apply keeps_bind; [apply settle_calm|]. intros _. apply keeps_sync.
  intros g. destruct (ap_reconciler (gw_app g)); [|done]. destruct (rebuild_world _ _ _ _ _) as [[|] rc']; [done|].
  by apply calm_same.
Qed.

Lemma fenced_settle record candidate e leases g :
  fenced generation g →
  fenced generation (settle_leases sha repr clock disk_write record candidate e leases g).2.
Proof.
  intros Hf. unfold settle_leases, mbind, method_mbind, method_bind.
  assert (∀ l g, fenced generation g → fenced generation (quarantine_leases l g).2) as Hq.
  { clear. induction l as [|a l IH]; intros g Hg; simpl; [done|].
    unfold mbind, method_mbind, method_bind, on_evaluator.
    destruct (on_scheduler _ _) as [[y|] ev]; [by apply IH|done]. }
  specialize (Hq leases g Hf). destruct (quarantine_leases leases g) as [[u|] g1]; [|done].
  cbv beta iota delta [gate_event modify read]. set (g2 := set_gw_fault_gate _ g1). unfold on_evaluator at 1.
  destruct (persist_whole_world_replaced_batch _ _ _ _ _) as [[records|] ev]; [|done].
  cbv beta iota delta [gate_event modify read]. set (g3 := set_gw_fault_gate _ _). unfold on_ledger.
  destruct (ap_ledger (gw_app g3)) as [i|]; [|done].
  destruct (commit record candidate (ledger_at i g3)) as [[v|] L]; [|done].
  unfold on_evaluator. by destruct (release_persisted_replacement_batch _ _) as [[w|] ev'].
Qed.

Lemma calm_publish candidate cs rc had_loop me g :
  calm g → calm (start_loop new_task had_loop
    (set_app (finish_expected_reconciler_replacement None (Some me)
       (gw_app (publish new_task candidate cs rc g))) (publish new_task candidate cs rc g))).
Proof.
  apply calm_same; unfold start_loop, finish_expected_reconciler_replacement; simpl;
    destruct had_loop; simpl; case_bool_decide; by destruct rc.
Qed.

Lemma calm_settle record candidate e leases g :
  calm g → calm (settle_leases sha repr clock disk_write record candidate e leases g).2.
Proof.
  intros [Hf Hs]. split; [by apply fenced_settle|].
  destruct (settle_leases _ _ _ _ _ _ _ _ g) as [x g'] eqn:Hx.
  by apply settle_leases_settled in Hx as [? _].
Qed.

Lemma calm_old_seal w1 w2 e ev g :
  re_new_topology_generation e = generation → calm g →
  calm (on_old_evaluator ev (seal_whole_world_replacement sha w1 w2 e) g).2.
Proof.
  intros He Hg. unfold on_old_evaluator.
  destruct (seal_whole_world_replacement _ _ _ _ _) as [x ev'] eqn:Hs. simpl.
  apply calm_store; [done|]. eapply seal_whole_inv; [|by subst|exact Hs]. apply Hg.
Qed.

Abbreviation closes := (closes sha generation).
Abbreviation install := (install sha repr int_of_str clock disk_write settle new_task clock_epoch dumps directory).

Lemma closes_finalize record :
  closes (g ← get; _ ← sync (on_app (finalize_topology_acceptance generation (clock g)));
          mret (M := rpc (Gateway E W)) (A := RestartRunRecord) record).
Proof.
  intros g e g' Hg. unfold mbind, rpc_mbind, get, sync.
  destruct (on_app _ g) as [[u|] g1] eqn:Hf; [done|]. intros [= _ <-].
  apply finalize_raises in Hf. by apply (calm_same g); rewrite ?Hf.
Qed.

Lemma install_closes cfg body record candidate owner exclusion requests leases had_loop me :
  rn_new_topology_generation record = generation →
  closes (install cfg body record candidate owner exclusion requests leases had_loop me).
Proof.
  intros Hnew. unfold Replacement.install. rewrite Hnew. apply closes_lift. intros old _.
  apply closes_keeps; [by apply keeps_pull|]. intros live.
  apply closes_keeps; [apply keeps_fail_requests|]. intros _. apply closes_get. intros g.
  destruct (registry_at candidate g) as [r|]; [|by intros g1 e g' Hc [= _ <-]].
  apply closes_lift. intros cs _. apply closes_keeps; [apply keeps_sync, calm_settle|]. intros _.
  apply closes_get. intros g1. apply closes_keeps.
  { destruct (gw_contexts g1); [|apply keeps_ret]. apply keeps_bind; [apply keeps_rebuild|intros ?; apply keeps_ret]. }
  intros rc. apply closes_get. intros g2. apply closes_keeps; [apply keeps_update, calm_publish|]. intros _.
  apply closes_keeps; [by apply keeps_pull|]. intros final. apply closes_get. intros g3.
  apply closes_keeps; [apply keeps_sync; intros ?; by apply calm_old_seal|]. intros _.
  apply closes_keeps; [by apply keeps_pull|]. intros _. apply closes_finalize.
Qed.

(** Every member of the candidate has answered, from [g] on, with a report
    that names nothing of the old world. *)
Definition answered (candidate : registry_id) (old : gset string * gset string) g : Prop :=
  ∃ r samples g1, registry_at candidate g = Some r
    ∧ gather_all (get_resource_report_with_received_at clock) (member_names r) g = (Ok samples, g1)
    ∧ Forall (λ x, lists_nothing_old repr old x.1 = Ok tt) samples.

Lemma pull_answered candidate old nr g live g' :
  pull_replacement_resource_reports repr clock candidate old nr g = (Ok live, g') → answered candidate old g.
Proof. intros (r & samples & g1 & r' & ? & ? & _ & _ & _ & _ & ?)%pull_Ok. by exists r, samples, g1. Qed.

(** What an installed world went through, in this order: the new workers
    answered, the old leases were settled, the workers answered under the new
    consumers, the run was sealed, and the workers answered once more. *)
Definition installed (body : odict string json) (record : RestartRunRecord) (candidate : registry_id)
    (leases : list DecodeSlotLease) g g' : Prop :=
  ∃ old g1 g2 g3 g4, excluded_ids repr body = Ok old
    ∧ answered candidate old g
    ∧ settled sha (rn_restart_run_id record) (rn_decision_digest record) candidate leases g1 (Ok tt) g2
    ∧ answered candidate old g3
    ∧ sealed_in sha body record g4 ∧ answered candidate old g4
    ∧ opened (rn_new_topology_generation record) g'.

Lemma install_Ok cfg body record candidate owner exclusion requests leases had_loop me g record' g' :
  calm g → rn_new_topology_generation record = generation →
  rn_decision_digest record = digest sha (JObj body) →
  install cfg body record candidate owner exclusion requests leases had_loop me g = (Ok record', g') →
  record' = record ∧ installed body record candidate leases g g'.
Proof.
  intros Hc Hnew Hd H. unfold Replacement.install in H.
  apply lift_then in H as (old & Hold & H). apply rpc_bind_Ok in H as (live & g1 & Hp1 & H).
  assert (calm g1) as Hc1 by (by eapply keeps_at; [apply keeps_pull| |exact Hp1]).
  apply rpc_bind_Ok in H as (u2 & g2 & Hf & H).
  assert (calm g2) as Hc2 by (by eapply keeps_at; [apply keeps_fail_requests| |exact Hf]).
  apply rpc_bind_Ok in H as (gg & ? & [= <- <-] & H).
  destruct (registry_at candidate g2) as [r|]; [|done]. apply lift_then in H as (cs & _ & H).
  apply rpc_bind_Ok in H as (u3 & g3 & Hs%sync_Ok & H). destruct u3.
  pose proof (calm_settle record candidate (run_evidence sha record live exclusion) leases g2 Hc2) as Hc3.
  rewrite Hs in Hc3. apply settle_leases_settled in Hs; [|apply Hc2].
  apply rpc_bind_Ok in H as (gg & ? & [= <- <-] & H). apply rpc_bind_Ok in H as (rc & g4 & Hrc & H).
  assert (calm g4) as Hc4.
  { revert Hrc. destruct (gw_contexts g3); [|by intros [= _ <-]].
    intros (rc0 & g4' & Hr & [= _ <-])%rpc_bind_Ok.
    by eapply keeps_at; [apply keeps_rebuild| |exact Hr]. }
  apply rpc_bind_Ok in H as (gg & ? & [= <- <-] & H). apply rpc_bind_Ok in H as (u5 & g5 & [= _ <-] & H).
  apply rpc_bind_Ok in H as (final & g6 & Hp6 & H).
  apply (calm_publish candidate cs rc had_loop me) in Hc4. set (g5 := start_loop _ _ _) in *.
  assert (calm g6) as Hc6 by (by eapply keeps_at; [apply keeps_pull| |exact Hp6]).
  apply rpc_bind_Ok in H as (gg & ? & [= <- <-] & H).
  apply rpc_bind_Ok in H as (x & g7 & Hseal%sync_Ok & H). unfold on_old_evaluator in Hseal.
  destruct (seal_whole_world_replacement _ _ _ _ _) as [y ev] eqn:Hw. injection Hseal as -> <-.
  eapply seal_whole_sealed in Hw as (st' & Hst' & Hx); [|apply Hc6|by subst|done].
  apply rpc_bind_Ok in H as (last & g8 & Hp8 & H). apply rpc_bind_Ok in H as (gg & ? & [= <- <-] & H).
  apply rpc_bind_Ok in H as (u9 & g9 & Hfin%sync_Ok & [= <- <-]). split; [done|].
  apply finalize_Ok in Hfin. eexists old, g2, g3, g5, _. split_and!; eauto using pull_answered.
  by exists st', x.
Qed.

Abbreviation takeover := (activate_replacement_owner sha repr clock sleep).

(** What a replaced world went through: the request excludes every frozen
    operation, the new owner was taken to every member, and the world was
    installed on the frozen leases. *)
Definition replaced (fuel : nat) (cfg : Settings) (body : odict string json) (record : RestartRunRecord)
    (candidate : registry_id) g' : Prop :=
  ∃ frozen excluded owner r audit g2,
    id_list repr "old_operation_ids" body = Ok excluded
    ∧ missing_operations operation_of excluded (frozen_requests frozen) (frozen_leases frozen) = ∅
    ∧ registry_at candidate frozen = Some r
    ∧ takeover fuel (member_names r) owner (4 * (sg_active_cap cfg + sg_terminal_cap cfg)) None (2 * 10 ^ 8)
        frozen = Some (Ok audit, g2)
    ∧ installed body record candidate (frozen_leases frozen) (set_gw_audit (Some audit) g2) g'.

Lemma tk_bind_Some {S A B} (m : tk (S := S) A) (k : A → tk (S := S) B) s x s' :
  (m ≫= k) s = Some (x, s') →
  (∃ a s1, m s = Some (Ok a, s1) ∧ k a s1 = Some (x, s')) ∨ (∃ e, m s = Some (Raise e, s') ∧ x = Raise e).
Proof.
  unfold mbind, tk_mbind. destruct (m s) as [[[a|e] s1]|]; [| |done].
  - intros H. left. by exists a, s1.
  - intros [= <- <-]. right. by exists e.
Qed.

(** A step that keeps the gateway calm, in front of a longer coroutine. *)
Definition tk_ends {A} (m : tk (S := Gateway E W) A) (Q : A → Gateway E W → Prop) : Prop :=
  ∀ g x g', calm g → m g = Some (x, g') → match x with Ok a => Q a g' | Raise _ => calm g' end.

Lemma tk_ends_bind {A B} (m : tk (S := Gateway E W) A) (k : A → tk (S := Gateway E W) B) Q :
  tk_keeps calm m → (∀ g a g', m g = Some (Ok a, g') → tk_ends (k a) Q) → tk_ends (m ≫= k) Q.
Proof.
  intros Hm Hk g x g' Hg [(a & s1 & Ha & Hx)|(e & He & ->)]%tk_bind_Some.
  - eapply Hk; [exact Ha| |exact Hx]. by eapply Hm.
  - by eapply Hm.
Qed.
Lemma tk_ends_lift {A B} (r : result exn A) (k : A → tk (S := Gateway E W) B) Q :
  (∀ a, r = Ok a → tk_ends (k a) Q) → tk_ends (once (lift r) ≫= k) Q.
Proof.
  intros Hk. apply tk_ends_bind; [apply tk_keeps_once, keeps_lift|]. intros g a g' [= H].
  apply lift_Ok in H as [H _]. by apply Hk.
Qed.

Lemma tk_lift_Some {S A B} (r : result exn A) (k : A → tk (S := S) B) s x s' :
  (once (lift r) ≫= k) s = Some (x, s') →
  (∃ a, r = Ok a ∧ k a s = Some (x, s')) ∨ (∃ e, x = Raise e ∧ s' = s).
Proof.
  intros [(a & s1 & [= Ha] & H)|(e & [= He] & ->)]%tk_bind_Some.
  { apply lift_Ok in Ha as [? ->]. left. by exists a. }
  right. exists e. unfold lift in He. destruct r; [done|]. by injection He as _ <-.
Qed.

Lemma replace_world_ends fuel cfg body record candidate me :
  rn_new_topology_generation record = generation →
  rn_decision_digest record = digest sha (JObj body) →
  tk_ends (replace_world sha repr int_of_str clock sleep disk_write settle operation_of new_task clock_epoch
             dumps directory fuel cfg body record candidate me)
    (λ record' g', record' = record ∧ replaced fuel cfg body record candidate g').
Proof.
  intros Hnew Hd. unfold replace_world. apply tk_ends_bind; [apply tk_keeps_once, keeps_state|].
  intros _ g _ _. apply tk_ends_lift. intros owner _.
  apply tk_ends_bind; [apply tk_keeps_once, keeps_stop|]. intros _ u _ _. clear u.
  intros frozen x g' Hc H. apply tk_bind_Some in H as [(f & ? & [= <- <-] & H)|(e & [= ] & _)].
  apply tk_lift_Some in H as [(excluded & Hex & H)|(e & -> & ->)]; [|done].
  apply tk_lift_Some in H as [(u & Hmiss%need_Ok & H)|(e & -> & ->)]; [|done].
  apply tk_lift_Some in H as [(exclusion & _ & H)|(e & -> & ->)]; [|done].
  destruct (registry_at candidate frozen) as [r|] eqn:Hr; [|by injection H as <- <-].
  apply bool_decide_eq_true in Hmiss.
  apply tk_bind_Some in H as [(audit & g2 & Ht & H)|(e & Ht & ->)]; cycle 1.
  { by eapply tk_keeps_takeover. }
  assert (calm g2) as Hc2 by by eapply tk_keeps_takeover.
  apply tk_bind_Some in H as [(u2 & g3 & [= _ <-] & H)|(e & [= ] & _)]. injection H as H.
  assert (calm (set_gw_audit (Some audit) g2)) as Hc3 by by apply (calm_same g2).
  destruct x as [record'|e].
  - apply install_Ok in H as [-> Hi]; [|done..]. split; [done|].
    exists frozen, excluded, owner, r, audit, g2. done.
  - eapply install_closes; [done|exact Hc3|exact H].
Qed.
End Calm.

(** ** The whole acceptance *)

Definition same_fence g g' : Prop :=
  ap_acceptance_required (gw_app g') = ap_acceptance_required (gw_app g)
  ∧ ap_pending_generation (gw_app g') = ap_pending_generation (gw_app g)
  ∧ ap_accepting (gw_app g') = ap_accepting (gw_app g).

Lemma requested_text body :
  requested repr "new_topology_generation" body ≠ "" →
  text_item repr "new_topology_generation" body = Ok (requested repr "new_topology_generation" body).
Proof.
  unfold requested, text_item, item, jget, py_str_or_empty. destruct (dget _ body) as [v|]; [|done].
  simpl. by destruct (py_bool v).
Qed.

Lemma begin_Ok generation g u g' :
  on_app (begin_topology_acceptance generation) g = (Ok u, g') →
  generation ≠ "" ∧ fenced generation g' ∧ ap_store (gw_app g') = ap_store (gw_app g)
  ∧ ap_registry (gw_app g') = ap_registry (gw_app g) ∧ gw_records g' = gw_records g.
Proof.
  unfold on_app, begin_topology_acceptance. destruct (truthy generation) eqn:Ht; simpl; [|done].
  destruct (_ && _); [done|]. intros [= _ <-]. apply truthy_true in Ht. by split_and!.
Qed.
Lemma begin_raises generation g e g' :
  on_app (begin_topology_acceptance generation) g = (Raise e, g') → same_fence g g'.
Proof.
  unfold on_app, begin_topology_acceptance. destruct (negb _); [by intros [= _ <-]|].
  destruct (_ && _); [by intros [= _ <-]|done].
Qed.

Abbreviation stage := (TopologyAdmin.stage sha sha_raw repr untyped_capability).
Lemma stage_decision now body L record c replay L' :
  stage now body L = (Ok (record, c, replay), L') → rn_decision_digest record = digest sha (JObj body).
Proof.
  unfold TopologyAdmin.stage. destruct (item _ body) as [v|]; [|done].
  destruct (dget _ (lg_records L)) as [ex|].
  - case_bool_decide as Hd; [done|]. by intros [= <- _ _ _].
  - destruct (lg_active L); [|done]. destruct (stage_new _ _ _ _ _ _ _ _ _) as [[rec cand]|] eqn:Hs; [|done].
    intros [= <- _ _ _]. by apply stage_new_proven in Hs as (_ & ? & _).
Qed.

Definition dispatched (body : odict string json) (d : dispatch) g : Prop :=
  match d with
  | Recover _ => let generation := requested repr "new_topology_generation" body in
      generation ≠ "" ∧ calm sha generation g
  | Accepted record => rn_decision_digest record = digest sha (JObj body)
      ∧ opened (rn_new_topology_generation record) g
  | Replace record _ => rn_decision_digest record = digest sha (JObj body)
      ∧ rn_new_topology_generation record ≠ "" ∧ calm sha (rn_new_topology_generation record) g
  end.

Lemma open_acceptance_ends body g x g' :
  sound sha g → open_acceptance sha sha_raw repr untyped_capability clock body g = (x, g') →
  match x with
  | Ok d => dispatched body d g'
  | Raise _ => same_fence g g' ∨ ∃ generation, fenced generation g'
  end.
Proof.
  intros Hs. unfold open_acceptance, mbind, method_mbind, method_bind, read.
  destruct (choose sha repr body g) as [[p|]|e]; [| |intros [= <- <-]; by left].
  - destruct (on_app _ g) as [[u|e] g1] eqn:Hb; intros [= <- <-].
    + apply begin_Ok in Hb as (Hn & Hf & Hst & _). split_and!; [done|]. split; [done|].
      intros st. rewrite Hst. apply Hs.
    + left. by eapply begin_raises.
  - unfold on_ledger. destruct (ap_ledger (gw_app g)) as [i|]; [|intros [= <- <-]; by left].
    destruct (TopologyAdmin.stage _ _ _ _ _ _ _) as [[[[record c] replay]|e] L] eqn:Hst;
      [|intros [= <- <-]; by left].
    apply stage_decision in Hst. set (g1 := put_ledger L g).
    destruct (on_app (begin_topology_acceptance _) g1) as [[u|e] g2] eqn:Hb; cycle 1.
    { intros [= <- <-]. left. by eapply begin_raises in Hb. }
    apply begin_Ok in Hb as (Hn & Hf & Hst2 & _).
    destruct (_ && _ && _); cycle 1.
    { intros [= <- <-]. split_and!; try done. split; [done|]. intros st. rewrite Hst2. apply Hs. }
    destruct (on_app (finalize_topology_acceptance _ _) g2) as [[v|e] g3] eqn:Hfin; intros [= <- <-].
    + split; [done|]. by eapply finalize_Ok.
    + right. apply finalize_raises in Hfin. exists (rn_new_topology_generation record).
      unfold fenced. by rewrite Hfin.
Qed.

Lemma accepted_opened record g : accepted_world record g → opened (rn_new_topology_generation record) g.
Proof.
  intros [(i & r & Hl & Hreg & Hr & Hgen & now & Hf) _ Hst Hp Ht Hfe Ho]. split; try done.
  - exists r, now. unfold current_registry. by rewrite Hreg.
  - intros j. rewrite Hl. by intros [= <-].
Qed.

(** How an accepted request came to its open admission. *)
Definition accepted_by (fuel : nat) (cfg : Settings) (body : odict string json)
    (record : RestartRunRecord) g g' : Prop :=
  (** its run was recovered *)
  (∃ p g1, recovered sha sha_raw repr clock (rn_new_topology_generation record) p body g1 record g')
  (** the world was replaced *)
  ∨ (∃ candidate, replaced fuel cfg body record candidate g')
  (** or the run is remembered, and the gates were checked again *)
  ∨ open_acceptance sha sha_raw repr untyped_capability clock body g = (Ok (Accepted record), g').

Section Accept.
Hypothesis calls_calm : ∀ generation mth i path body ref,
  keeps (calm sha generation) (client_request mth i path body ref).
Hypothesis settle_calm : ∀ generation what, keeps (calm sha generation) (settle what).
Hypothesis sleep_calm : ∀ generation d g, calm sha generation g → calm sha generation (sleep d g).

Lemma recover_ends generation p body g x g' :
  generation ≠ "" → calm sha generation g →
  text_item repr "new_topology_generation" body = Ok generation →
  recover sha sha_raw repr clock disk_write p body g = (x, g') →
  match x with
  | Ok record => recovered sha sha_raw repr clock generation p body g record g'
  | Raise _ => fenced generation g'
  end.
Proof.
  intros Hn Hc Ht H. destruct x as [record|e].
  - destruct p; [eapply recover_sealed_Ok|eapply recover_unsealed_Ok|eapply recover_cold_Ok]; eauto.
  - eapply (recover_closes sha sha_raw repr clock disk_write generation) in H as [? _]; eauto.
Qed.

End Accept.
End ReplaceLemmas.

(** A run whose decisions are durable and whose world the ledger names, while
    the application still holds the old registry, is unknown when its request
    is repeated. *)
Lemma half_published_run_is_unknown {E W} sha repr body (g : Gateway E W) i r st :
  ap_ledger (gw_app g) = Some i → registry_at i g = Some r → ap_registry (gw_app g) ≠ Some i →
  ap_store (gw_app g) = Some st → transition_closed st = false →
  requested repr "old_topology_generation" body ≠ expected_topology_generation r →
  (∀ x, dget (requested repr "restart_run_id" body) (gw_records g) = Some x →
     rn_decision_digest x = digest sha (JObj body)) →
  choose sha repr body g = Raise UnknownReplacementRun.
Proof.
  intros Hi Hr Hreg Hst Ht Hold Hrec. unfold choose. rewrite Hi. simpl. rewrite Hr. simpl.
  rewrite Hst, Ht, (bool_decide_false (ap_registry _ = _)) by done. simpl.
  unfold known_run. rewrite bool_decide_true by done. simpl. destruct (dget _ (gw_records g)) as [x|]; [|done].
  rewrite bool_decide_false by (rewrite (Hrec x eq_refl); auto). done.
Qed.

(** ** A replacement under a running gateway *)

Module ReplaceDemo.
Import Recovery.Demo.

(** A gateway on the old world, with one reserved decode slot and its loop. *)
Definition running : Gateway unit unit :=
  mkGateway
    (mkAppState true false true true false false None None None (Some 1%nat) None (Some 2%nat) ∅
       (Some (mkNATSQueue "gw" true None [])) {[0%nat := demo_ready]} (Some 0%nat) (Some 0%nat)
       (Some store) None None)
    4 [] (mkEvaluator demo_reserved None 8 8 [] [] [])
    None None None demo_governor None None None ().

(** Workers that know this owner and answer with their report. *)
Definition new_workers : InferClient (Gateway unit unit) := λ _ i path _ _ g,
  (Ok (if bool_decide (path = "/v1/owners/status") then [("active_owner", JStr "gw")] else report i), g).
#[local] Existing Instance new_workers.

Definition settings : Settings :=
  mkSettings default_scheduler_config default_governor_config 1 1 16 1024 8 8 JNull.
Definition no_directory : @PrefixDirectoryRPC unit :=
  mkRPC (λ _ _ _ e, (Raise ValueError, e)) (λ _ _ _ _ _ e, (Raise ValueError, e))
    (λ _ _ _ _ e, (Ok tt, e)) None.
Definition accept_run : option (result rpc_exn RestartRunRecord * Gateway unit unit) :=
  accept_replacement_topology sha one_sha demo_str (λ _, None) (λ _, None) no_untyped (λ _, 6) (λ _ g, g)
    (λ _ _, write_ok) (λ _ g, (Ok tt, g)) (λ _, "op1") (λ _, 7%nat) "clock" (λ _, "") no_directory
    4 settings body 3%nat running.
Definition record_of (x : option (result rpc_exn RestartRunRecord * Gateway unit unit)) : RestartRunRecord :=
  match x with Some (Ok r, _) => r | _ => demo_record "run1" end.
Definition gateway_of (x : option (result rpc_exn RestartRunRecord * Gateway unit unit)) : Gateway unit unit :=
  match x with Some (_, g) => g | None => running end.
Definition accepted_record : RestartRunRecord := record_of accept_run.

Lemma accept_run_ok : accept_run = Some (Ok accepted_record, gateway_of accept_run).
Proof.
  unfold accepted_record.
  assert (match accept_run with Some (Ok _, _) => true | _ => false end = true) as Hx by (vm_compute; reflexivity).
  by destruct accept_run as [[[]]|].
Qed.

Lemma running_sound : sound sha running.
Proof.
  intros st [= <-]. apply (fresh_disk_inv sha demo_str (λ _, None) 8 4 write_ok). vm_compute. reflexivity.
Qed.

(** The same with prefix affinity, and workers that do not report: the
    replacement fails after its decisions are durable, the repeated request is
    unknown, and the fence stays up. *)
Definition with_affinity : Gateway unit unit :=
  set_gw_contexts (Some []) (set_app (set_reconciler
    (Some (new_PrefixReconciler (mkPrefixIndex 10 ∅ ∅ ∅) "gw" "gen1" tt)) (gw_app running)) running).
Definition accept_affinity : Gateway unit unit → option (result rpc_exn RestartRunRecord * Gateway unit unit) :=
  accept_replacement_topology sha one_sha demo_str (λ _, None) (λ z, Some (inject_Z z)) no_untyped (λ _, 6)
    (λ _ g, g) (λ _ _, write_ok) (λ _ g, (Ok tt, g)) (λ _, "op1") (λ _, 7%nat) "clock" (λ _, "") no_directory
    4 (mkSettings default_scheduler_config default_governor_config 1 1 16 1024 8 8 (JInt 5)) body 3%nat.
Definition error_of (x : option (result rpc_exn RestartRunRecord * Gateway unit unit)) : option rpc_exn :=
  match x with Some (Raise e, _) => Some e | _ => None end.
Example prefix_failure_strands_run :
  let failed := accept_affinity with_affinity in
  let again := accept_affinity (gateway_of failed) in
  error_of failed = Some (PyError ValueError)
  ∧ error_of again = Some (PyError UnknownReplacementRun)
  ∧ ap_pending_generation (gw_app (gateway_of again)) = Some "gen2".
Proof. vm_compute. split_and!; reflexivity. Qed.

(** The gateway with the new world staged, and the settlement of its lease. *)
Definition staged : Gateway unit unit :=
  (on_ledger (TopologyAdmin.stage sha one_sha demo_str no_untyped (λ _, 6) body) running).2.
Definition evidence : ReplacementEvidence :=
  run_evidence sha accepted_record ((λ n, (n, report n)) <$> WEEK12_WORKER_IDS) "sha256:old".
Definition settle_run : result exn unit * Gateway unit unit :=
  settle_leases sha demo_str (λ _, 6) (λ _ _, write_ok) accepted_record 1%nat evidence
    (frozen_leases staged) staged.

Lemma settle_run_ok : settle_run.1 = Ok tt.
Proof. vm_compute. reflexivity. Qed.
Lemma staged_sound : sound sha staged.
Proof.
  intros st Hst. apply running_sound. rewrite <- Hst. vm_compute. reflexivity.
Qed.
End ReplaceDemo.

Lemma slots_return_on_durable_decisions_witness :
  settled Recovery.Demo.sha "run1" "sha256:x" 1%nat (frozen_leases ReplaceDemo.staged) ReplaceDemo.staged
    (Ok tt) ReplaceDemo.settle_run.2
  ∧ length (frozen_leases ReplaceDemo.staged) = 1%nat.
Proof.
  split; [|vm_compute; reflexivity].
  apply (slots_return_on_durable_decisions Recovery.Demo.sha demo_str (λ _, 6) (λ _ _, write_ok)
    ReplaceDemo.accepted_record 1%nat ReplaceDemo.evidence (frozen_leases ReplaceDemo.staged)
    ReplaceDemo.staged (Ok tt) ReplaceDemo.settle_run.2).
  - apply ReplaceDemo.staged_sound.
  - rewrite <- ReplaceDemo.settle_run_ok. apply surjective_pairing.
Defined.

