(* ===== verification/WorldRestart.v ===== *)
(** * The guarded restart of a world (scripts/pd_worldctl.py)

    The operator's controller replaces the four workers of a world: it
    captures the old processes, stops them, watches each one end, and only
    then patches the generation, starts the new workers, permits them and has
    the gateway accept them.  What it has done is checkpointed in a run-state
    file, so that a controller that died resumes where it was.

    An object of a frozen dataclass ([TerminationProof], [ProcessIdentity]) is
    kept as the document of its fields: the class checks no types.  The run
    state is the dictionary the program keeps, the file the last one written;
    a write may fail before or after it takes effect.  The cluster and the
    gateway are the [Backend]; each call that changes them is logged with the
    file as it was at that moment.  The modes that inject a fault or wait for
    a watchdog are not modelled. *)

From S2P Require Import Prelude PyDict Json ReplacementStore Termination NetworkRpc NetworkOps.
From stdpp Require Import prelude gmap strings sorting.

Local Open Scope Z_scope.

Abbreviation Doc := (odict string json).

Definition MEMBERS : list string := ["p0"; "p1"; "d0"; "d1"].
Definition STARTUP_PERMIT_SCHEMA : string := "prism.week12.worker-startup-permit/v1".
Definition STARTUP_PERMIT_FIELDS : list string :=
  ["schema_version"; "issuance_mode"; "permit_id"; "topology_generation"; "members"; "canonical_digest"].
Definition OBSERVATION_SCHEMA : string := "prism.pd_worldctl.observation/v1".
Definition PROOF_FIELDS : list string :=
  ["member"; "pod_uid"; "node_uid"; "container_id"; "process_generation"; "exit_code";
   "container_terminated"; "pod_deleted"; "termination_reason"; "termination_message"; "finished_at";
   "topology_generation"; "container_name"; "watch_start_resource_version";
   "observed_resource_version"; "deletion_resource_version"; "restart_count_before";
   "restart_count_observed"; "termination_source"; "termination_event_type"; "deletion_event_type";
   "signal"; "started_at"; "adjacent_current_container_id"; "termination_raw_pod_json_sha256";
   "termination_raw_observation_sequence"; "deletion_raw_pod_json_sha256";
   "deletion_raw_observation_sequence"].
Definition IDENTITY_FIELDS : list string :=
  ["member"; "pod_uid"; "node_uid"; "container_id"; "process_generation"; "pod_name"; "node_name";
   "resource_version"; "topology_generation"; "container_name"; "restart_count"].
Definition RESTART_CHECKPOINTS : list string :=
  ["CREATED"; "CAPTURED"; "TERMINATED"; "GENERATION_PATCHED"; "STARTED"; "PERMIT_READY";
   "PERMIT_PUBLISHED"; "EVIDENCE_READY"; "ACCEPTED"].

(** A non-empty string. *)
Definition is_text (v : json) : bool := match v with JStr s => truthy s | _ => false end.
(** [len(set(values)) == len(values)] *)
Fixpoint all_distinct (l : list json) : bool :=
  match l with [] => true | x :: l' => negb (existsb (py_eqb x) l') && all_distinct l' end.
(** [v in MEMBERS] *)
Definition is_member (v : json) : bool := existsb (λ m, py_eqb v (JStr m)) MEMBERS.
Definition same_doc (a b : Doc) : bool := py_eqb (JObj a) (JObj b).

(** ** Startup permits *)

Section permits.
Variable sha : json → string.

Definition validate_startup_permit (value : json) (generation mode : option string) : result exn Doc :=
  match value with
  | JObj permit =>
      _ ← need (keys_are permit STARTUP_PERMIT_FIELDS);
      _ ← need (py_eqb (jget "schema_version" permit) (JStr STARTUP_PERMIT_SCHEMA));
      m ← hashable (jget "issuance_mode" permit);
      _ ← need (py_eqb m (JStr "INIT") || py_eqb m (JStr "RESTART"));
      _ ← need (is_text (jget "permit_id" permit));
      _ ← need (is_text (jget "topology_generation" permit));
      _ ← need (match generation with
                | Some g => py_eqb (jget "topology_generation" permit) (JStr g) | None => true end);
      _ ← need (match mode with Some x => py_eqb m (JStr x) | None => true end);
      match jget "members" permit with
      | JObj members =>
          _ ← need (keys_are members MEMBERS);
          _ ← need (forallb is_text (dvalues members));
          _ ← need (all_distinct (dvalues members));
          _ ← need (py_eqb (jget "canonical_digest" permit)
                      (JStr (digest sha (JObj (dpop "canonical_digest" permit)))));
          mret permit
      | _ => Raise ValueError
      end
  | _ => Raise ValueError
  end.

Definition build_startup_permit (generation : string) (members : Doc) (mode permit_id : string) :
    result exn Doc :=
  let unsigned := [("schema_version", JStr STARTUP_PERMIT_SCHEMA); ("issuance_mode", JStr mode);
                   ("permit_id", JStr permit_id); ("topology_generation", JStr generation);
                   ("members", JObj members)] in
  validate_startup_permit
    (JObj (unsigned ++ [("canonical_digest", JStr (digest sha (JObj unsigned)))]))
    (Some generation) (Some mode).

(** One identity of the evidence, beside those already seen. *)
Definition permitted_identity (permit observed : Doc) (v : json) : result exn Doc :=
  match v with
  | JObj identity =>
      let member := jget "instance_id" identity in
      _ ← require (is_member member && negb (existsb (λ k, py_eqb member (JStr k)) (dkeys observed))
                   && is_text (jget "pod_uid" identity) && is_text (jget "process_generation" identity)
                   && py_eqb (jget "topology_generation" identity) (jget "topology_generation" permit));
      mret (dset (str_of identity "instance_id") (jget "pod_uid" identity) observed)
  | _ => Raise RuntimeError
  end.
Fixpoint permitted_identities (permit observed : Doc) (l : list json) : result exn Doc :=
  match l with
  | [] => Ok observed
  | v :: l' => o ← permitted_identity permit observed v; permitted_identities permit o l'
  end.
Definition validate_permitted_identities (evidence startup_permit : Doc) : result exn unit :=
  permit ← validate_startup_permit (JObj startup_permit) None None;
  match jget "identities" evidence with
  | JList l =>
      _ ← require (bool_decide (length l = length MEMBERS));
      observed ← permitted_identities permit [] l;
      require (py_eqb (JObj observed) (jget "members" permit))
  | _ => Raise RuntimeError
  end.

(** ** Termination proofs *)

Definition termination_authority_payload (p : Doc) : Doc :=
  [("logical_instance_id", jget "member" p); ("topology_generation", jget "topology_generation" p);
   ("pod_uid", jget "pod_uid" p); ("node_uid", jget "node_uid" p);
   ("container_name", jget "container_name" p); ("captured_container_id", jget "container_id" p);
   ("process_generation", jget "process_generation" p);
   ("watch_start_resource_version", jget "watch_start_resource_version" p);
   ("observed_resource_version", jget "observed_resource_version" p);
   ("deletion_resource_version", jget "deletion_resource_version" p);
   ("restart_count_before", jget "restart_count_before" p);
   ("restart_count_observed", jget "restart_count_observed" p);
   ("termination_source", jget "termination_source" p);
   ("termination_event_type", jget "termination_event_type" p);
   ("deletion_event_type", jget "deletion_event_type" p);
   ("terminated", JObj [("exit_code", jget "exit_code" p); ("reason", jget "termination_reason" p);
                        ("signal", jget "signal" p); ("started_at", jget "started_at" p);
                        ("finished_at", jget "finished_at" p)]);
   ("adjacent_current_container_id", jget "adjacent_current_container_id" p);
   ("pod_deletion_observed", jget "pod_deleted" p);
   ("raw_pod_json_sha256", jget "termination_raw_pod_json_sha256" p);
   ("termination_raw_observation_sequence", jget "termination_raw_observation_sequence" p);
   ("deletion_raw_pod_json_sha256", jget "deletion_raw_pod_json_sha256" p);
   ("deletion_raw_observation_sequence", jget "deletion_raw_observation_sequence" p)].
Definition termination_authority_record (p : Doc) : result exn Doc :=
  seal_termination_record sha (termination_authority_payload p).

(** [isinstance(run_state.get("observation_journal"), list)] *)
Definition journal (run : Doc) : result exn (list json) :=
  match jget "observation_journal" run with JList l => Ok l | _ => Raise RuntimeError end.
(** [journal[sequence - 1]] of a sequence in range *)
Definition journal_at (l : list json) (sequence : json) : result exn json :=
  match sequence with
  | JInt z =>
      _ ← require (bool_decide (1 ≤ z ≤ Z.of_nat (length l)));
      mret (default JNull (l !! Z.to_nat (z - 1)))
  | _ => Raise RuntimeError
  end.

(** The raw event a proof refers to is in the journal. *)
Definition raw_reference (l : list json) (sequence pod_digest version : json) (event_type : string) :
    result exn unit :=
  raw ← journal_at l sequence;
  match raw with
  | JObj e =>
      match jget "raw_kubernetes_watch_event" e with
      | JObj event =>
          require (py_eqb (jget "kind" e) (JStr "raw_kubernetes_watch_event_observed")
                   && py_eqb (jget "raw_pod_json_sha256" e) pod_digest
                   && py_eqb (jget "resource_version" e) version
                   && py_eqb (jget "type" event) (JStr event_type))
      | _ => Raise RuntimeError
      end
  | _ => Raise RuntimeError
  end.
Definition validate_durable_termination_record (run p : Doc) : result exn Doc :=
  record ← termination_authority_record p;
  l ← journal run;
  _ ← raw_reference l (jget "termination_raw_observation_sequence" p)
        (jget "termination_raw_pod_json_sha256" p) (jget "observed_resource_version" p) "MODIFIED";
  _ ← raw_reference l (jget "deletion_raw_observation_sequence" p)
        (jget "deletion_raw_pod_json_sha256" p) (jget "deletion_resource_version" p) "DELETED";
  mret record.

(** ** The guard *)

Record WorldRestartGuard := mkGuard {
  gd_old_generation : string;
  gd_new_generation : string;
  gd_expected : odict string Doc;
  gd_authority : bool;
  gd_proofs : odict string Doc }.

Definition PHYSICAL_FIELDS : list string := ["pod_uid"; "node_uid"; "container_id"; "process_generation"].
Definition physical_identity (kd : string * Doc) : bool :=
  py_eqb (jget "member" kd.2) (JStr kd.1)
  && forallb (λ k, py_bool (jget k kd.2)) PHYSICAL_FIELDS.
Definition members_exactly {V} (d : odict string V) : bool :=
  bool_decide (list_to_set (dkeys d) =@{gset string} list_to_set MEMBERS).
(** [len({value.f for value in d.values()}) == 4] *)
Definition four_distinct (f : string) (d : odict string Doc) : bool :=
  bool_decide (length d = 4%nat) && all_distinct (jget f <$> dvalues d).

Definition new_WorldRestartGuard (old new : string) (expected : odict string Doc) (authority : bool) :
    result exn WorldRestartGuard :=
  _ ← need (truthy old && truthy new && bool_decide (old ≠ new));
  _ ← need (members_exactly expected);
  _ ← need (forallb physical_identity expected);
  _ ← need (four_distinct "pod_uid" expected);
  _ ← need (four_distinct "container_id" expected);
  mret (mkGuard old new expected authority []).

(** The proof is about the process that was captured. *)
Definition binds (expected p : Doc) : bool :=
  forallb (λ k, py_eqb (jget k p) (jget k expected)) PHYSICAL_FIELDS.

Definition record_termination (p : Doc) (g : WorldRestartGuard) : result exn WorldRestartGuard :=
  let member := str_of p "member" in
  _ ← need (is_member (jget "member" p));
  _ ← need (py_bool (jget "pod_uid" p) && py_bool (jget "node_uid" p) && py_bool (jget "container_id" p));
  _ ← need (py_bool (jget "container_terminated" p) && py_bool (jget "pod_deleted" p));
  _ ← (if gd_authority g then _ ← termination_authority_record p; mret tt else mret tt);
  match dget member (gd_expected g) with
  | None => Raise KeyError
  | Some expected =>
      _ ← need (binds expected p);
      _ ← need (match dget member (gd_proofs g) with Some prior => same_doc prior p | None => true end);
      mret (mkGuard (gd_old_generation g) (gd_new_generation g) (gd_expected g) (gd_authority g)
              (dset member p (gd_proofs g)))
  end.

Definition has_four_termination_proofs (g : WorldRestartGuard) : bool :=
  members_exactly (gd_proofs g) && four_distinct "pod_uid" (gd_proofs g)
  && four_distinct "container_id" (gd_proofs g).
End permits.

(** ** The controller *)

Record RawEvent := mkRawEvent {
  rw_text : string;
  rw_sha256 : string }.
(** [TerminationObservation] *)
Record Observation := mkObservation {
  ob_proof : Doc;
  ob_event : option Doc;
  ob_text : string;
  ob_sha256 : string;
  ob_version : string;
  ob_sequence : option Z }.
(** An exception of the observer, with the attributes it may carry. *)
Record ObservationError := mkObservationError {
  oe_exn : exn;
  oe_type : string;
  oe_message : string;
  oe_partial : option Observation;
  oe_event : option json;
  oe_text : string;
  oe_sha256 : string;
  oe_version : string;
  oe_sequence : option Z }.

(** The calls that change the cluster or the gateway. *)
Inductive action :=
| Watch (member : string)
| Stop (member : string)
| Patch (generation : string)
| Start (member : string)
| Publish (permit : Doc)
| Accept (evidence : Doc)
| PersistStarted (permit : Doc).

Record Backend (W : Type) := mkBackend {
  bk_capture : string → W → result exn (odict string Doc) * W;
  bk_operation_ids : W → gset string;
  bk_resource_ids : W → gset string;
  bk_include : list string → list string → W → W;
  bk_close : string → W → W;
  (** the calls that are logged *)
  bk_act : action → W → result exn unit * W;
  (** the raw events handed to the sink, and what is returned after the sink
      gave their sequence numbers *)
  bk_observe : string → Doc → W → list RawEvent * (list Z → Observation + ObservationError) * W;
  bk_raw_sink : bool;
  bk_fresh : string → Doc → W → result exn Doc * W;
  bk_published : Doc → W → Doc;
  bk_evidence : string → list Doc → W → result exn Doc * W;
  bk_response : Doc → W → Doc }.
Arguments bk_capture {W}.
Arguments bk_operation_ids {W}.
Arguments bk_resource_ids {W}.
Arguments bk_include {W}.
Arguments bk_close {W}.
Arguments bk_act {W}.
Arguments bk_observe {W}.
Arguments bk_raw_sink {W}.
Arguments bk_fresh {W}.
Arguments bk_published {W}.
Arguments bk_evidence {W}.
Arguments bk_response {W}.

Record Ctl (W : Type) := mkCtl {
  ct_run : Doc;
  ct_file : option json;
  (** the watches that are open *)
  ct_watches : list string;
  (** the calls made, with the file at that moment, newest first *)
  ct_log : list (action * option json);
  ct_world : W }.
Arguments mkCtl {W}.
Arguments ct_run {W}.
Arguments ct_file {W}.
Arguments ct_watches {W}.
Arguments ct_log {W}.
Arguments ct_world {W}.

Record Command := mkCommand {
  cm_release : string;
  cm_namespace : string;
  cm_chart : string;
  cm_old : string;
  cm_new : string;
  cm_expected : list string;
  cm_required : list string }.

Section controller.
Context {W : Type} (bk : Backend W).
Context (sha : json → string) (sha_text : string → string) (loads : string → option json).
Context (repr : json → string).
Context (disk : Ctl W → write_outcome) (clock : Ctl W → Z) (new_id : Ctl W → string).
Context (error_text : exn → string) (cmd : Command).
Implicit Types (s : Ctl W).
Abbreviation ctl := (method (Ctl W)).

Definition set_run (v : Doc) s : Ctl W := mkCtl v (ct_file s) (ct_watches s) (ct_log s) (ct_world s).
Definition set_file (v : option json) s : Ctl W := mkCtl (ct_run s) v (ct_watches s) (ct_log s) (ct_world s).
Definition set_watches (v : list string) s : Ctl W := mkCtl (ct_run s) (ct_file s) v (ct_log s) (ct_world s).
Definition set_world (v : W) s : Ctl W := mkCtl (ct_run s) (ct_file s) (ct_watches s) (ct_log s) v.

Definition check {A} (r : result exn A) : ctl A := λ s, (r, s).
(** [run_state[k] = v] *)
Definition put (k : string) (v : json) : ctl unit := modify (λ s, set_run (dset k v (ct_run s)) s).
(** [_atomic_write_json] *)
Definition atomic_write_json : ctl unit := λ s,
  match disk s with
  | write_ok => (Ok tt, set_file (Some (JObj (ct_run s))) s)
  | write_replaced => (Raise OSError, set_file (Some (JObj (ct_run s))) s)
  | _ => (Raise OSError, s)
  end.

(** A query of the backend, and a logged call. *)
Definition ask {A} (f : W → result exn A * W) : ctl A := λ s,
  let '(x, w) := f (ct_world s) in (x, set_world w s).
Definition act (a : action) : ctl unit := λ s,
  let '(x, w) := bk_act bk a (ct_world s) in
  (x, mkCtl (ct_run s) (ct_file s) (ct_watches s) ((a, ct_file s) :: ct_log s) w).

(** ** The journal *)

(** [run_state.setdefault(k, v)] *)
Definition setdefault (k : string) (v : json) : ctl json := λ s,
  match dget k (ct_run s) with
  | Some x => (Ok x, s)
  | None => (Ok v, set_run (dset k v (ct_run s)) s)
  end.
Definition open_journal : ctl (list json) :=
  v ← setdefault "observation_journal" (JList []);
  match v with JList l => mret l | _ => raise RuntimeError end.
(** [journal.append(entry)] and the write *)
Definition append_entry (l : list json) (entry : Doc) : ctl unit :=
  _ ← put "observation_journal" (JList (l ++ [JObj entry]));
  atomic_write_json.
Definition entry_head (l : list json) (kind stage : string) s : Doc :=
  [("schema_version", JStr OBSERVATION_SCHEMA); ("sequence", JInt (Z.of_nat (length l) + 1));
   ("kind", JStr kind); ("stage", JStr stage); ("observed_at_ns", JInt (clock s))].

Definition raw_sha (text : string) : string := "sha256:" +:+ sha_text text.
(** [entry.update(...)] with the Pod of a raw event *)
Definition pod_fields (pod : Doc) : Doc :=
  [("raw_pod_json", JObj pod); ("raw_pod_json_sha256", JStr (digest sha (JObj pod)))].

Definition append_raw_watch_observation (stage : string) (e : RawEvent) : ctl Z :=
  l ← open_journal;
  s ← read;
  _ ← check (require (bool_decide (rw_sha256 e = raw_sha (rw_text e))));
  let decoded := loads (rw_text e) in
  let event := match decoded with
               | None | Some JNull => [] | Some v => [("raw_kubernetes_watch_event", v)] end in
  let pod := match decoded with
             | Some (JObj d) =>
                 match jget "object" d with
                 | JObj pod =>
                     pod_fields pod ++
                     match jget "metadata" pod with
                     | JObj metadata =>
                         match jget "resourceVersion" metadata with
                         | JNull => [] | v => [("resource_version", JStr (py_str repr v))] end
                     | _ => []
                     end
                 | _ => []
                 end
             | _ => []
             end in
  _ ← append_entry l (entry_head l "raw_kubernetes_watch_event_observed" stage s
        ++ [("raw_kubernetes_watch_event_text", JStr (rw_text e));
            ("raw_kubernetes_watch_event_sha256", JStr (raw_sha (rw_text e)))] ++ event ++ pod);
  mret (Z.of_nat (length l) + 1).

(** The journal entry a raw observation refers to. *)
Definition raw_entry (l : list json) (sequence : Z) (sha256 : string) : result exn unit :=
  v ← journal_at l (JInt sequence);
  match v with
  | JObj e => require (py_eqb (jget "kind" e) (JStr "raw_kubernetes_watch_event_observed")
                       && py_eqb (jget "raw_kubernetes_watch_event_sha256" e) (JStr sha256))
  | _ => Raise RuntimeError
  end.

(** The raw event of an observation, when it has one. *)
Definition raw_fields (o : Observation) : result exn Doc :=
  if bool_decide (is_Some (ob_event o)) || truthy (ob_text o) || truthy (ob_sha256 o) || truthy (ob_version o)
  then
    match ob_event o with
    | None => Raise RuntimeError
    | Some event =>
        _ ← require (truthy (ob_text o) && truthy (ob_sha256 o));
        _ ← require (bool_decide (ob_sha256 o = raw_sha (ob_text o)));
        match loads (ob_text o) with
        | None => Raise RuntimeError
        | Some decoded =>
            _ ← require (py_eqb decoded (JObj event));
            match jget "object" event with
            | JObj pod =>
                mret ([("raw_kubernetes_watch_event", JObj event);
                       ("raw_kubernetes_watch_event_text", JStr (ob_text o));
                       ("raw_kubernetes_watch_event_sha256", JStr (raw_sha (ob_text o)))]
                      ++ pod_fields pod ++ [("resource_version", JStr (ob_version o))])
            | _ => Raise RuntimeError
            end
        end
    end
  else mret [].

Definition append_observation (stage : string) (o : Observation) (status : option string) : ctl string :=
  l ← open_journal;
  s ← read;
  let sha256 := digest sha (JObj (ob_proof o)) in
  raw ← check (raw_fields o);
  reference ← check (match ob_sequence o with
                     | None => Ok []
                     | Some n => _ ← raw_entry l n (ob_sha256 o); Ok [("raw_observation_sequence", JInt n)]
                     end);
  _ ← append_entry l (entry_head l "termination_observed" stage s
        ++ [("proof", JObj (ob_proof o)); ("proof_sha256", JStr sha256)]
        ++ match status with Some x => [("observation_status", JStr x)] | None => [] end
        ++ raw ++ reference);
  mret sha256.

Definition append_semantic_result (stage proof_sha256 status message : string) : ctl unit :=
  _ ← ensure (bool_decide (status ∈ ["PASS"; "FAIL"])) ValueError;
  l ← open_journal;
  s ← read;
  append_entry l (entry_head l "termination_semantic_validation" stage s
    ++ [("proof_sha256", JStr proof_sha256); ("semantic_status", JStr status); ("message", JStr message)]).

(** What is known of the raw event of a failed observation. *)
Definition incomplete_fields (l : list json) (e : ObservationError) : result exn Doc :=
  match oe_sequence e with
  | Some n =>
      _ ← raw_entry l n (oe_sha256 e);
      mret ([("raw_observation_sequence", JInt n); ("raw_kubernetes_watch_event_sha256", JStr (oe_sha256 e))]
            ++ match oe_event e with
               | None => []
               | Some event =>
                   ("raw_kubernetes_watch_event", event) ::
                   match event with
                   | JObj d =>
                       match jget "object" d with
                       | JObj pod =>
                           if py_eqb (jget "type" d) (JStr "ERROR") then []
                           else pod_fields pod ++ [("resource_version", JStr (oe_version e))]
                       | _ => []
                       end
                   | _ => []
                   end
               end)
  | None =>
      if truthy (oe_text e) then
        _ ← require (bool_decide (oe_sha256 e = raw_sha (oe_text e)));
        mret ([("raw_kubernetes_watch_event_text", JStr (oe_text e));
               ("raw_kubernetes_watch_event_sha256", JStr (raw_sha (oe_text e)))]
              ++ match oe_event e with Some v => [("raw_kubernetes_watch_event", v)] | None => [] end)
      else mret [("no_raw_reason", JStr "raw Kubernetes watch event was not observed before failure")]
  end.
Definition append_incomplete_observation (stage : string) (e : ObservationError) : ctl unit :=
  partial ← match oe_partial e with
            | Some o => append_observation stage o (Some "PARTIAL")
            | None => mret ""
            end;
  l ← open_journal;
  s ← read;
  fields ← check (incomplete_fields l e);
  append_entry l (entry_head l "termination_observation_incomplete" stage s
    ++ [("observation_status", JStr "INCOMPLETE"); ("error_type", JStr (oe_type e));
        ("message", JStr (oe_message e))]
    ++ (if truthy partial then [("partial_proof_sha256", JStr partial)] else []) ++ fields).

(** ** Resuming *)

Definition restore_captured (restored : odict string Doc) (v : json) : result exn (odict string Doc) :=
  match v with
  | JObj d =>
      let member := jget "member" d in
      _ ← require (keys_are d IDENTITY_FIELDS);
      _ ← require (is_member member && negb (existsb (λ k, py_eqb member (JStr k)) (dkeys restored))
                   && py_eqb (jget "topology_generation" d) (JStr (cm_old cmd)));
      mret (dset (str_of d "member") d restored)
  | _ => Raise RuntimeError
  end.
Fixpoint restore_all (restored : odict string Doc) (l : list json) : result exn (odict string Doc) :=
  match l with [] => Ok restored | v :: l' => r ← restore_captured restored v; restore_all r l' end.
Definition restore_captured_world (run : Doc) : result exn (odict string Doc) :=
  match jget "captured_identities" run with
  | JList l =>
      _ ← require (bool_decide (length l = length MEMBERS));
      restored ← restore_all [] l;
      _ ← require (members_exactly restored);
      mret restored
  | _ => Raise RuntimeError
  end.

(** A document is the proof it was made from. *)
Definition proof_from_document (v : json) : result exn Doc :=
  match v with
  | JObj d => _ ← require (keys_are d PROOF_FIELDS); mret d
  | _ => Raise RuntimeError
  end.

Definition entry_of (kind stage : string) (v : json) : option Doc :=
  match v with
  | JObj e => if py_eqb (jget "kind" e) (JStr kind) && py_eqb (jget "stage" e) (JStr stage)
              then Some e else None
  | _ => None
  end.
(** The digests of the proofs with a verdict. *)
Definition verdicts (stage status : string) (l : list json) : gset string :=
  list_to_set (omap (λ v, e ← entry_of "termination_semantic_validation" stage v;
                          if py_eqb (jget "semantic_status" e) (JStr status)
                          then Some (py_str repr (jget "proof_sha256" e)) else None) l).
Definition in_texts (v : json) (X : gset string) : bool :=
  match v with JStr x => bool_decide (x ∈ X) | _ => false end.
Fixpoint passed_proofs (stage : string) (passed : gset string) (l : list json) (proofs : odict string Doc) :
    result exn (odict string Doc) :=
  match l with
  | [] => Ok proofs
  | v :: l' =>
      match entry_of "termination_observed" stage v with
      | Some e =>
          if in_texts (jget "proof_sha256" e) passed then
            p ← proof_from_document (jget "proof" e);
            _ ← require (py_eqb (jget "proof_sha256" e) (JStr (digest sha (jget "proof" e))));
            _ ← require (match dget (str_of p "member") proofs with
                         | Some prior => same_doc prior p | None => true end);
            passed_proofs stage passed l' (dset (str_of p "member") p proofs)
          else passed_proofs stage passed l' proofs
      | None => passed_proofs stage passed l' proofs
      end
  end.
Definition validated_journal_proofs (run : Doc) (stage : string) : result exn (odict string Doc) :=
  l ← journal run;
  let passed := verdicts stage "PASS" l in
  _ ← require (bool_decide (passed ∩ verdicts stage "FAIL" l = ∅));
  passed_proofs stage passed l [].

Definition checkpoint_termination_proof (p : Doc) : ctl unit :=
  v ← setdefault "termination_proofs" (JObj []);
  match v with
  | JObj values =>
      _ ← check (require (match dget (str_of p "member") values with
                          | Some prior => py_eqb prior (JObj p) | None => true end));
      _ ← put "termination_proofs" (JObj (dset (str_of p "member") (JObj p) values));
      atomic_write_json
  | _ => raise RuntimeError
  end.
Definition restore_termination_checkpoint (run : Doc) : result exn (odict string Doc) :=
  match default (JObj []) (dget "termination_proofs" run) with
  | JObj values =>
      _ ← require (forallb (λ k, bool_decide (k ∈ MEMBERS)) (dkeys values));
      mapR (λ kv, p ← proof_from_document kv.2; mret (kv.1, p)) values
  | _ => Raise RuntimeError
  end.

Definition restart_checkpoint (run : Doc) : result exn string :=
  match jget "checkpoint" run with
  | JStr c => _ ← require (bool_decide (c ∈ RESTART_CHECKPOINTS)); mret c
  | _ => Raise RuntimeError
  end.

(** [sorted(set(values))] *)
Definition id_set (l : list string) : json :=
  JList (JStr <$> sort_by String.le id (elements (list_to_set l : gset string))).
Definition command_identity : Doc :=
  [("format_version", JInt 1); ("release", JStr (cm_release cmd)); ("namespace", JStr (cm_namespace cmd));
   ("chart", JStr (cm_chart cmd)); ("old_generation", JStr (cm_old cmd));
   ("new_generation", JStr (cm_new cmd)); ("fault_member", JStr ""); ("watchdog_member", JStr "");
   ("expected_operation_ids", id_set (cm_expected cmd));
   ("required_old_operation_ids", id_set (cm_required cmd))].
Definition allowed_checkpoints (phase : string) : list string :=
  if bool_decide (phase = "CREATED") then ["CREATED"]
  else if bool_decide (phase = "STOPPING")
  then ["CAPTURED"; "TERMINATED"; "GENERATION_PATCHED"; "STARTED"; "PERMIT_READY"; "PERMIT_PUBLISHED"]
  else if bool_decide (phase = "EVIDENCE_READY") then ["EVIDENCE_READY"]
  else if bool_decide (phase = "ACCEPTED") then ["ACCEPTED"]
  else [].
(** The checks of a file that was there. *)
Definition resumable (v : json) : result exn Doc :=
  match v with
  | JObj run =>
      _ ← require (forallb (λ kv, py_eqb (jget kv.1 run) kv.2) command_identity);
      v ← hashable (jget "phase" run);
      phase ← match v with
              | JStr x => _ ← require (bool_decide (allowed_checkpoints x ≠ [])); mret x
              | _ => Raise RuntimeError
              end;
      checkpoint ← restart_checkpoint run;
      _ ← require (bool_decide (checkpoint ∈ allowed_checkpoints phase));
      _ ← require (truthy (py_str_or_empty repr (jget "restart_run_id" run)));
      mret run
  | _ => Raise RuntimeError
  end.
Definition load_or_create_run_state : ctl unit :=
  s ← read;
  match ct_file s with
  | Some v =>
      run ← check (resumable v);
      _ ← modify (set_run run);
      _ ← open_journal;
      mret tt
  | None =>
      _ ← modify (set_run (command_identity
            ++ [("restart_run_id", JStr (new_id s)); ("phase", JStr "CREATED"); ("checkpoint", JStr "CREATED");
                ("evidence", JNull); ("startup_permit", JNull); ("accepted_response", JNull);
                ("protocol_events", JList []); ("observation_journal", JList []);
                ("termination_proofs", JObj [])]));
      atomic_write_json
  end.

(** ** From the proofs of termination to acceptance *)

Definition set_checkpoint (c : string) : ctl unit :=
  _ ← put "checkpoint" (JStr c); atomic_write_json.
Fixpoint start_members (l : list string) : ctl unit :=
  match l with [] => mret tt | m :: l' => _ ← act (Start m); start_members l' end.
(** [{member: old[member].pod_uid for member in MEMBERS}] *)
Definition old_pod_uids (old : odict string Doc) : Doc :=
  (λ m, (m, jget "pod_uid" (default [] (dget m old)))) <$> MEMBERS.

(** The fresh Pods and their permit, new or checkpointed. *)
Definition permit_world (old : odict string Doc) (checkpoint : string) : ctl (Doc * Doc) :=
  if bool_decide (checkpoint = "STARTED") then
    fresh ← ask (bk_fresh bk (cm_new cmd) (old_pod_uids old));
    s ← read;
    permit ← check (build_startup_permit sha (cm_new cmd) fresh "RESTART" (new_id s));
    _ ← put "fresh_pod_uids" (JObj fresh);
    _ ← put "startup_permit" (JObj permit);
    _ ← set_checkpoint "PERMIT_READY";
    mret (fresh, permit)
  else
    s ← read;
    match jget "fresh_pod_uids" (ct_run s) with
    | JObj fresh =>
        _ ← check (require (keys_are fresh MEMBERS && forallb is_text (dvalues fresh)
                            && all_distinct (dvalues fresh)));
        permit ← check (validate_startup_permit sha (jget "startup_permit" (ct_run s))
                          (Some (cm_new cmd)) (Some "RESTART"));
        _ ← check (require (py_eqb (jget "members" permit) (JObj fresh)));
        mret (fresh, permit)
    | _ => raise RuntimeError
    end.

Definition publish_permit (old : odict string Doc) (entry : string) (fresh permit : Doc) : ctl unit :=
  _ ← (if bool_decide (entry = "PERMIT_READY") then
         observed ← ask (bk_fresh bk (cm_new cmd) (old_pod_uids old));
         check (require (same_doc observed fresh))
       else mret tt);
  _ ← act (Publish permit);
  s ← read;
  published ← check (validate_startup_permit sha (JObj (bk_published bk permit (ct_world s)))
                       (Some (cm_new cmd)) (Some "RESTART"));
  _ ← check (require (same_doc published permit));
  set_checkpoint "PERMIT_PUBLISHED".

(** The evidence of the new world, with the sealed records of the old one. *)
Definition acceptance_evidence (g : WorldRestartGuard) (permit : Doc) : ctl Doc :=
  s ← read;
  run_id ← check (match dget "restart_run_id" (ct_run s) with Some v => Ok v | None => Raise KeyError end);
  let proofs := (λ m, default [] (dget m (gd_proofs g))) <$> MEMBERS in
  evidence ← ask (bk_evidence bk (py_str repr run_id) proofs);
  records ← check (mapR (termination_authority_record sha) proofs);
  let canonical_terminations := JList (JObj <$> records) in
  let returned := jget "termination_records" evidence in
  _ ← check (require (bool_decide (returned = JNull) || py_eqb returned canonical_terminations));
  let evidence := dset "termination_records" canonical_terminations evidence in
  _ ← check (validate_termination_records sha (JObj <$> records) (cm_old cmd) (list_to_set MEMBERS));
  _ ← check (require (py_eqb (jget "new_topology_generation" evidence) (JStr (cm_new cmd))));
  _ ← check (require (py_eqb (jget "restart_run_id" evidence) run_id));
  _ ← check (validate_permitted_identities sha evidence permit);
  mret evidence.

(** The acceptance of evidence that is durable. *)
Definition accept_evidence (evidence permit : Doc) : ctl Doc :=
  _ ← act (Accept evidence);
  s ← read;
  let accepted := bk_response bk evidence (ct_world s) in
  _ ← check (require (is_True_obj (jget "accepted" accepted)));
  _ ← act (PersistStarted permit);
  _ ← put "phase" (JStr "ACCEPTED");
  _ ← put "checkpoint" (JStr "ACCEPTED");
  _ ← put "accepted_response" (JObj accepted);
  _ ← atomic_write_json;
  mret accepted.

Definition continue_after_termination (old : odict string Doc) (g : WorldRestartGuard) : ctl Doc :=
  s ← read;
  entry ← check (restart_checkpoint (ct_run s));
  _ ← check (require (bool_decide (entry ∈ ["TERMINATED"; "GENERATION_PATCHED"; "STARTED"; "PERMIT_READY";
                                            "PERMIT_PUBLISHED"])));
  _ ← check (require (has_four_termination_proofs g));
  _ ← (if bool_decide (entry = "TERMINATED") then
         _ ← act (Patch (cm_new cmd)); set_checkpoint "GENERATION_PATCHED"
       else mret tt);
  _ ← (if bool_decide (entry ∈ ["TERMINATED"; "GENERATION_PATCHED"]) then
         _ ← start_members MEMBERS; set_checkpoint "STARTED"
       else mret tt);
  x ← permit_world old (if bool_decide (entry ∈ ["PERMIT_READY"; "PERMIT_PUBLISHED"]) then entry else "STARTED");
  let '(fresh, permit) := x in
  _ ← (if bool_decide (entry = "PERMIT_PUBLISHED") then mret tt else publish_permit old entry fresh permit);
  evidence ← acceptance_evidence g permit;
  _ ← put "phase" (JStr "EVIDENCE_READY");
  _ ← put "checkpoint" (JStr "EVIDENCE_READY");
  _ ← put "evidence" (JObj evidence);
  _ ← atomic_write_json;
  accept_evidence evidence permit.

(** ** Capturing, stopping and proving the old world *)

(** The identities, the operations and the resources of the old world. *)
Definition captured : Type := odict string Doc * gset string * gset string.

Definition capture_world : ctl captured :=
  old ← ask (bk_capture bk (cm_old cmd));
  _ ← check (require (members_exactly old));
  s ← read;
  let observed := bk_operation_ids bk (ct_world s) in
  _ ← check (require (bool_decide (list_to_set (cm_expected cmd) ⊆ observed)));
  mret (old, observed ∪ list_to_set (cm_required cmd), bk_resource_ids bk (ct_world s)).

(** A list of distinct strings. *)
Definition text_list (v : json) : result exn (gset string) :=
  match v with
  | JList l =>
      match mapM as_str l with
      | Some ids => _ ← require (bool_decide (NoDup ids)); mret (list_to_set ids)
      | None => Raise RuntimeError
      end
  | _ => Raise RuntimeError
  end.
Definition restore_world (run : Doc) : result exn captured :=
  old ← restore_captured_world run;
  operations ← text_list (jget "captured_operation_ids" run);
  resources ← text_list (jget "captured_resource_ids" run);
  _ ← require (bool_decide (list_to_set (cm_expected cmd) ⊆ operations));
  mret (old, operations, resources).

Definition merge_proof (proofs : odict string Doc) (mp : string * Doc) : result exn (odict string Doc) :=
  _ ← require (match dget mp.1 proofs with Some prior => same_doc prior mp.2 | None => true end);
  mret (dset mp.1 mp.2 proofs).
Fixpoint merge_proofs (proofs l : odict string Doc) : result exn (odict string Doc) :=
  match l with [] => Ok proofs | mp :: l' => ps ← merge_proof proofs mp; merge_proofs ps l' end.
Definition durable_proofs (run : Doc) : result exn (odict string Doc) :=
  checkpointed ← restore_termination_checkpoint run;
  journalled ← validated_journal_proofs run "whole_world_termination";
  merge_proofs checkpointed journalled.
Fixpoint record_all (l : list Doc) (g : WorldRestartGuard) : ctl WorldRestartGuard :=
  match l with
  | [] => mret g
  | p :: l' =>
      g' ← check (record_termination sha p g);
      _ ← checkpoint_termination_proof p;
      record_all l' g'
  end.

Fixpoint start_watches (old : odict string Doc) (l : list string) : ctl unit :=
  match l with
  | [] => mret tt
  | m :: l' =>
      _ ← act (Watch m);
      _ ← modify (λ s, set_watches (ct_watches s ++ [m]) s);
      start_watches old l'
  end.
Definition close_watches s : Ctl W :=
  set_watches [] (set_world (foldl (λ w m, bk_close bk m w) (ct_world s) (ct_watches s)) s).
(** [try: ... finally: close every watch] *)
Definition with_watches {A} (m : ctl A) : ctl A := λ s, let '(x, s') := m s in (x, close_watches s').

Definition sorted_texts (X : gset string) : json := JList (JStr <$> sort_by String.le id (elements X)).
Definition checkpoint_capture (w : captured) : ctl unit :=
  let '(old, operations, resources) := w in
  _ ← put "phase" (JStr "STOPPING");
  _ ← put "checkpoint" (JStr "CAPTURED");
  _ ← put "captured_identities" (JList ((λ m, JObj (default [] (dget m old))) <$> MEMBERS));
  _ ← put "captured_operation_ids" (sorted_texts operations);
  _ ← put "captured_resource_ids" (sorted_texts resources);
  _ ← put "termination_proofs" (JObj []);
  atomic_write_json.

Fixpoint stop_members (l : list string) : ctl unit :=
  match l with [] => mret tt | m :: l' => _ ← act (Stop m); stop_members l' end.

(** The raw events of a watch go to the journal as they come. *)
Fixpoint sink_events (stage : string) (l : list RawEvent) : ctl (list Z) :=
  match l with
  | [] => mret []
  | e :: l' =>
      n ← append_raw_watch_observation stage e; rest ← sink_events stage l'; mret (n :: rest)
  end.
Definition observe_termination (m : string) (expected : Doc) : ctl Observation := λ s,
  let '(events, outcome, w) := bk_observe bk m expected (ct_world s) in
  (sequences ← (if bk_raw_sink bk then sink_events "whole_world_termination" events else mret []);
   match outcome sequences with
   | inl o => mret o
   | inr e => _ ← append_incomplete_observation "whole_world_termination" e; raise (oe_exn e)
   end) (set_world w s).

Definition validate_and_record (sha256 : string) (p : Doc) (g : WorldRestartGuard) : ctl WorldRestartGuard :=
  s ← read;
  match (_ ← (if bk_raw_sink bk then validate_durable_termination_record sha (ct_run s) p
              else termination_authority_record sha p);
         record_termination sha p g) with
  | Ok g' =>
      _ ← append_semantic_result "whole_world_termination" sha256 "PASS"
            "termination observation satisfies the fixed semantic contract";
      mret g'
  | Raise e =>
      _ ← append_semantic_result "whole_world_termination" sha256 "FAIL" (error_text e);
      raise e
  end.
Fixpoint prove_members (old : odict string Doc) (l : list string) (g : WorldRestartGuard) :
    ctl WorldRestartGuard :=
  match l with
  | [] => mret g
  | m :: l' =>
      match dget m (gd_proofs g) with
      | Some _ => prove_members old l' g
      | None =>
          o ← observe_termination m (default [] (dget m old));
          sha256 ← append_observation "whole_world_termination" o None;
          g' ← validate_and_record sha256 (ob_proof o) g;
          _ ← checkpoint_termination_proof (ob_proof o);
          prove_members old l' g'
      end
  end.

(** Everything between the guard and the continuation. *)
Definition terminate_world (w : captured) (checkpoint : string) (g : WorldRestartGuard) :
    ctl WorldRestartGuard :=
  with_watches (
    let old := w.1.1 in
    _ ← start_watches old
          (if bool_decide (checkpoint = "CREATED") then MEMBERS
           else if bool_decide (checkpoint = "CAPTURED")
           then List.filter (λ m, bool_decide (dget m (gd_proofs g) = None)) MEMBERS else []);
    _ ← (if bool_decide (checkpoint = "CREATED") then checkpoint_capture w else mret tt);
    if bool_decide (checkpoint ∈ ["CREATED"; "CAPTURED"]) then
      _ ← stop_members MEMBERS;
      g' ← prove_members old MEMBERS g;
      _ ← check (require (has_four_termination_proofs g'));
      _ ← set_checkpoint "TERMINATED";
      mret g'
    else mret g).

(** [dict(run_state[k])] of an object *)
Definition object_item (k : string) (run : Doc) : result exn Doc :=
  match dget k run with Some (JObj d) => Ok d | Some _ => Raise TypeError | None => Raise KeyError end.

(** The acceptance of a run whose evidence is durable. *)
Definition resume_acceptance (run : Doc) : ctl Doc :=
  evidence ← check (object_item "evidence" run);
  permit ← check (validate_startup_permit sha (jget "startup_permit" run) (Some (cm_new cmd)) (Some "RESTART"));
  _ ← check (validate_permitted_identities sha evidence permit);
  match jget "termination_records" evidence with
  | JList records =>
      _ ← check (validate_termination_records sha records (cm_old cmd) (list_to_set MEMBERS));
      accept_evidence evidence permit
  | _ => raise RuntimeError
  end.

Definition restart : ctl Doc :=
  _ ← load_or_create_run_state;
  s ← read;
  let run := ct_run s in
  checkpoint ← check (restart_checkpoint run);
  if bool_decide (checkpoint = "ACCEPTED") then check (object_item "accepted_response" run)
  else if bool_decide (checkpoint = "EVIDENCE_READY") then resume_acceptance run
  else
    w ← (if bool_decide (checkpoint = "CREATED") then capture_world else check (restore_world run));
    let '(old, operations, resources) := w in
    _ ← modify (λ s, set_world (bk_include bk (sort_by String.le id (elements operations))
                                  (sort_by String.le id (elements resources)) (ct_world s)) s);
    g ← check (new_WorldRestartGuard (cm_old cmd) (cm_new cmd) old true);
    proofs ← check (durable_proofs run);
    g ← record_all (dvalues proofs) g;
    g ← terminate_world w checkpoint g;
    continue_after_termination old g.
End controller.

(** ** What a call may rely on *)

Section justified.
Variable sha : json → string.
Variable cmd : Command.

(** A proof of termination that the authority has sealed. *)
Definition ended (p : Doc) : Prop :=
  py_bool (jget "container_terminated" p) = true ∧ py_bool (jget "pod_deleted" p) = true
  ∧ ∃ r, termination_authority_record sha p = Ok r.

(** The file holds, for every member, the captured process and a sealed proof
    that this process ended and its Pod is gone. *)
Definition dead_world (f : Doc) : Prop :=
  ∀ m, m ∈ MEMBERS → ∃ ids values d p,
    jget "captured_identities" f = JList ids ∧ JObj d ∈ ids ∧ jget "member" d = JStr m
    ∧ jget "termination_proofs" f = JObj values ∧ dget m values = Some (JObj p)
    ∧ binds d p = true ∧ ended p.

(** What the file says when a call is made. *)
Definition justified (a : action) (f : Doc) : Prop :=
  match a with
  | Watch _ => True
  | Stop m => jget "checkpoint" f = JStr "CAPTURED" ∧ ∃ ids d, jget "captured_identities" f = JList ids
      ∧ JObj d ∈ ids ∧ jget "member" d = JStr m
  | Patch g => dead_world f ∧ jget "checkpoint" f = JStr "TERMINATED" ∧ g = cm_new cmd
  | Start _ => dead_world f ∧ jget "checkpoint" f = JStr "GENERATION_PATCHED"
  | Publish p => dead_world f ∧ jget "checkpoint" f = JStr "PERMIT_READY" ∧ jget "startup_permit" f = JObj p
      ∧ validate_startup_permit sha (JObj p) (Some (cm_new cmd)) (Some "RESTART") = Ok p
  | Accept e => jget "checkpoint" f = JStr "EVIDENCE_READY" ∧ jget "evidence" f = JObj e
      ∧ (∃ permit, validate_startup_permit sha (jget "startup_permit" f) (Some (cm_new cmd)) (Some "RESTART")
                     = Ok permit ∧ validate_permitted_identities sha e permit = Ok tt)
      ∧ ∃ records sealed, jget "termination_records" e = JList records
          ∧ validate_termination_records sha records (cm_old cmd) (list_to_set MEMBERS) = Ok sealed
  | PersistStarted p => jget "checkpoint" f = JStr "EVIDENCE_READY"
      ∧ validate_startup_permit sha (jget "startup_permit" f) (Some (cm_new cmd)) (Some "RESTART") = Ok p
  end.
End justified.

(** ** Every call is justified by the file *)

Section restarts.
Context {W : Type} (bk : Backend W).
Context (sha : json → string) (sha_text : string → string) (loads : string → option json).
Context (repr : json → string).
Context (disk : Ctl W → write_outcome) (clock : Ctl W → Z) (new_id : Ctl W → string).
Context (error_text : exn → string) (cmd : Command).
Implicit Types (s : Ctl W) (g : WorldRestartGuard).
Abbreviation ctl := (method (Ctl W)).

(** A run that has not captured anything has no proofs. *)
Definition run_ok (r : Doc) : Prop :=
  jget "phase" r = JStr "CREATED" →
  jget "termination_proofs" r = JObj [] ∧ jget "observation_journal" r = JList [].
Definition file_ok (v : option json) : Prop := ∀ f, v = Some (JObj f) → run_ok f.
Definition logged (af : action * option json) : Prop :=
  ∃ f, af.2 = Some (JObj f) ∧ justified sha cmd af.1 f.
Definition base s : Prop := Forall logged (ct_log s) ∧ file_ok (ct_file s).

(** However [m] ends, the log and the file are good; when it returns, [Q]. *)
Definition triple {A} (P : Ctl W → Prop) (m : ctl A) (Q : A → Ctl W → Prop) : Prop :=
  ∀ s, base s → P s →
    wp m (λ x s', base s' ∧ match x with Ok a => Q a s' | Raise _ => True end) s.

Lemma t_bind {A B} P (m : ctl A) (k : A → ctl B) R Q :
  triple P m R → (∀ a, triple (R a) (k a) Q) → triple P (m ≫= k) Q.
Proof.
  intros Hm Hk s Hb HP. apply wp_bind. eapply wp_mono; [by apply Hm|].
  intros [a|e] s' [Hb' HR]; [by apply Hk|by split].
Qed.
Lemma t_ret {A} (a : A) (Q : A → Ctl W → Prop) : triple (Q a) (mret a) Q.
Proof. by intros s Hb HP. Qed.
Lemma t_raise {A} P e (Q : A → Ctl W → Prop) : triple P (raise e) Q.
Proof. by intros s Hb HP. Qed.
Lemma t_check {A} P (r : result exn A) (Q : A → Ctl W → Prop) :
  (∀ a s, r = Ok a → P s → Q a s) → triple P (check r) Q.
Proof. intros H s Hb HP. split; [done|]. destruct r; simpl; eauto. Qed.
Lemma t_read P : triple P read (λ x s, x = s ∧ P s).
Proof. by intros s Hb HP. Qed.
Lemma t_conseq {A} (P P' : Ctl W → Prop) (m : ctl A) (Q Q' : A → Ctl W → Prop) :
  triple P' m Q' → (∀ s, P s → P' s) → (∀ a s, Q' a s → Q a s) → triple P m Q.
Proof.
  intros Hm HP HQ s Hb Hs. eapply wp_mono; [by apply Hm, HP|]. intros [a|e] s' [? ?]; auto.
Qed.
Lemma t_fact {A} (F : Prop) P (m : ctl A) Q :
  (∀ s, P s → F) → (F → triple P m Q) → triple P m Q.
Proof. intros HF Hm s Hb HP. apply Hm; eauto. Qed.

Lemma t_then {A B} P (r : result exn A) (k : A → ctl B) Q :
  (∀ a, r = Ok a → triple P (k a) Q) → triple P (check r ≫= k) Q.
Proof.
  intros Hk s Hb HP. apply wp_bind. unfold check, wp. simpl. destruct r as [a|]; [by apply Hk|done].
Qed.
Lemma t_get {B} P (k : Ctl W → ctl B) Q :
  (∀ s0, P s0 → triple (λ s, s = s0) (k s0) Q) → triple P (read ≫= k) Q.
Proof. intros Hk s Hb HP. apply wp_bind. apply wp_read. by apply (Hk s HP). Qed.

(** [run_state[k] = v] and the write after it. *)
Lemma t_put P k v : triple (λ s, P (set_run (dset k v (ct_run s)) s)) (put k v) (λ _, P).
Proof. by intros s Hb HP. Qed.
Lemma t_write (R : Doc → Prop) :
  (∀ r, R r → run_ok r) →
  triple (λ s, R (ct_run s)) (atomic_write_json disk)
    (λ _ s, R (ct_run s) ∧ ct_file s = Some (JObj (ct_run s))).
Proof.
  intros HR s [Hl Hf] Hs. unfold wp, atomic_write_json.
  assert (file_ok (Some (JObj (ct_run s)))) as Hok by (intros f [= <-]; by apply HR).
  by destruct (disk s).
Qed.
Lemma t_ask {A} P (f : W → result exn A * W) Q :
  (∀ s w a, P s → Q a (set_world w s)) → triple P (ask f) Q.
Proof.
  intros H s Hb HP. unfold wp, ask. destruct (f (ct_world s)) as [[a|] w]; split; try done. by apply H.
Qed.
Lemma t_act P a Q :
  (∀ s, P s → ∃ f, ct_file s = Some (JObj f) ∧ justified sha cmd a f) →
  (∀ s l w, P s → Q tt (mkCtl (ct_run s) (ct_file s) (ct_watches s) l w)) → triple P (act bk a) Q.
Proof.
  intros Hj HQ s [Hl Hf] HP. unfold wp, act. destruct (bk_act bk a (ct_world s)) as [x w]. simpl. split.
  - split; [|done]. constructor; [by apply Hj|done].
  - destruct x as [[]|]; [by apply HQ|done].
Qed.

(** The file and the run state agree on everything but the journal. *)
Definition agree (f r : Doc) : Prop := ∀ k, k ≠ "observation_journal" → jget k f = jget k r.
(** The run state holds what the guard was built from and was told. *)
Definition covers (r : Doc) g : Prop :=
  (∃ ids, jget "captured_identities" r = JList ids
     ∧ ∀ m d, dget m (gd_expected g) = Some d → JObj d ∈ ids)
  ∧ ∀ m p, dget m (gd_proofs g) = Some p →
      ∃ values, jget "termination_proofs" r = JObj values ∧ dget m values = Some (JObj p).
Record guard_ok g : Prop := {
  go_members : ∀ m, m ∈ MEMBERS → ∃ d, dget m (gd_expected g) = Some d ∧ jget "member" d = JStr m;
  go_proofs : ∀ m p, dget m (gd_proofs g) = Some p →
    ∃ d, dget m (gd_expected g) = Some d ∧ binds d p = true ∧ ended sha p;
  go_authority : gd_authority g = true }.

Definition live (r : Doc) : Prop := jget "phase" r ≠ JStr "CREATED".
(** What holds from the capture on; [R] is about the run state. *)
Definition K (R : Doc → Prop) g s : Prop :=
  live (ct_run s) ∧ covers (ct_run s) g ∧ R (ct_run s)
  ∧ ∃ f, ct_file s = Some (JObj f) ∧ agree f (ct_run s).

Lemma jget_dset k k' v (d : Doc) : jget k' (dset k v d) = if decide (k' = k) then v else jget k' d.
Proof. unfold jget. rewrite dget_dset. by case_decide. Qed.
Lemma jget_dset_ne k k' v (d : Doc) : k' ≠ k → jget k' (dset k v d) = jget k' d.
Proof. intros. by rewrite jget_dset, decide_False. Qed.

(** What a property of the run state may look at. *)
Definition journal_free (R : Doc → Prop) : Prop := ∀ r r', agree r r' → R r → R r'.

Lemma agree_refl r : agree r r.
Proof. by intros k. Qed.
Lemma agree_journal r v : agree r (dset "observation_journal" v r).
Proof. intros k Hk. by rewrite jget_dset_ne. Qed.
Lemma agree_trans r1 r2 r3 : agree r1 r2 → agree r2 r3 → agree r1 r3.
Proof. intros H1 H2 k Hk. by rewrite H1, H2. Qed.
Lemma covers_agree g : journal_free (λ r, covers r g).
Proof. intros r r' Ha [Hc Hp]. unfold covers. by rewrite <- !Ha. Qed.
Lemma live_agree : journal_free live.
Proof. intros r r' Ha. unfold live. by rewrite (Ha "phase"). Qed.
Lemma live_run_ok r : live r → run_ok r.
Proof. by intros Hl ?. Qed.

Lemma K_journal R g s r :
  journal_free R → agree (ct_run s) r → K R g s → K R g (set_run r s).
Proof.
  intros HR Ha (Hl & Hc & Hr & f & Hf & Hfa). split_and!; simpl.
  - by eapply live_agree.
  - by eapply covers_agree.
  - by eapply HR.
  - exists f. split; [done|]. by eapply agree_trans.
Qed.

(** Steps that touch only the journal. *)
Definition journals {A} (m : ctl A) : Prop := ∀ R g, journal_free R → triple (K R g) m (λ _, K R g).

Lemma journals_bind {A B} (m : ctl A) (k : A → ctl B) :
  journals m → (∀ a, journals (k a)) → journals (m ≫= k).
Proof. intros Hm Hk R g HR. eapply t_bind; [by apply Hm|]. intros a. by apply Hk. Qed.
Lemma journals_ret {A} (a : A) : journals (mret a).
Proof. intros R g HR. apply (t_ret a (λ _, K R g)). Qed.
Lemma journals_raise {A} e : journals (raise (A := A) e).
Proof. intros R g HR. apply t_raise. Qed.
Lemma journals_check {A} (r : result exn A) : journals (check r).
Proof. intros R g HR. by apply t_check. Qed.
Lemma journals_read : journals read.
Proof. intros R g HR. eapply t_conseq; [apply t_read|done|]. by intros a s [_ ?]. Qed.
Lemma journals_ensure c e : journals (ensure c e).
Proof. intros R g HR s Hb HK. unfold wp, ensure. by destruct c. Qed.
Lemma journals_open : journals open_journal.
Proof.
  unfold open_journal. apply journals_bind.
  - intros R g HR s Hb HK. unfold wp, setdefault. destruct (dget _ (ct_run s)); [done|].
    split; [exact Hb|]. apply K_journal; [done|apply agree_journal|done].
  - intros [| | | | |l|]; try apply journals_raise. apply journals_ret.
Qed.
Lemma journals_append l e : journals (append_entry disk l e).
Proof.
  intros R g HR. unfold append_entry. eapply t_bind.
  { eapply t_conseq; [apply (t_put (K R g))| |done]. intros s HK. apply K_journal; [done|apply agree_journal|done]. }
  intros []. eapply t_conseq; [apply (t_write (λ r, live r ∧ covers r g ∧ R r))| |].
  - intros r (? & _). by apply live_run_ok.
  - by intros s (? & ? & ? & _).
  - intros [] s [(? & ? & ?) Hf]. split_and!; try done. exists (ct_run s). split; [done|apply agree_refl].
Qed.
#[local] Hint Resolve journals_bind journals_ret journals_raise journals_check journals_read
  journals_ensure journals_open journals_append : core.

Lemma journals_raw stage e : journals (append_raw_watch_observation sha sha_text loads repr disk clock stage e).
Proof. unfold append_raw_watch_observation. auto 12. Qed.
Lemma journals_observation stage o status :
  journals (append_observation sha sha_text loads disk clock stage o status).
Proof. unfold append_observation. auto 12. Qed.
Lemma journals_semantic stage d status msg : journals (append_semantic_result disk clock stage d status msg).
Proof. unfold append_semantic_result. auto 12. Qed.
Lemma journals_incomplete stage e :
  journals (append_incomplete_observation sha sha_text loads disk clock stage e).
Proof.
  unfold append_incomplete_observation. apply journals_bind; [|auto 12].
  destruct (oe_partial e); [apply journals_observation|auto].
Qed.
Lemma journals_sink stage l : journals (sink_events sha sha_text loads repr disk clock stage l).
Proof. induction l as [|e l IH]; simpl; [auto|]. apply journals_bind; [apply journals_raw|auto]. Qed.

Lemma K_world R g s w : K R g s → K R g (set_world w s).
Proof. done. Qed.
Lemma journals_observe m d :
  journals (observe_termination bk sha sha_text loads repr disk clock m d).
Proof.
  intros R g HR s Hb HK. unfold observe_termination, wp.
  destruct (bk_observe bk m d (ct_world s)) as [[events outcome] w].
  match goal with |- context [(?m (set_world w s)).1] => assert (journals m) as Hm end.
  { apply journals_bind; [destruct (bk_raw_sink bk); [apply journals_sink|auto]|]. intros l.
    destruct (outcome l); [auto|]. apply journals_bind; [apply journals_incomplete|auto]. }
  exact (Hm R g HR (set_world w s) Hb HK).
Qed.

(** ** Proofs and checkpoints *)

(** The keys [covers] does not look at. *)
Lemma covers_put k v r g :
  k ≠ "captured_identities" → k ≠ "termination_proofs" → covers r g → covers (dset k v r) g.
Proof. intros H1 H2 [Hc Hp]. unfold covers. by rewrite !jget_dset_ne by auto. Qed.
Lemma live_put k v r : k ≠ "phase" → live r → live (dset k v r).
Proof. intros Hk. unfold live. by rewrite jget_dset_ne by auto. Qed.

(** A run of assignments, and the write that makes them durable. *)
Definition unsaved (R : Doc → Prop) g s : Prop := live (ct_run s) ∧ covers (ct_run s) g ∧ R (ct_run s).
Lemma t_saved (R : Doc → Prop) g (Q : unit → Ctl W → Prop) :
  (∀ s, K R g s → Q tt s) → triple (unsaved R g) (atomic_write_json disk) Q.
Proof.
  intros HQ. eapply t_conseq; [apply (t_write (λ r, live r ∧ covers r g ∧ R r))|done|].
  - intros r (? & _). by apply live_run_ok.
  - intros [] s [(? & ? & ?) Hf]. apply HQ. split_and!; try done. exists (ct_run s). split; [done|apply agree_refl].
Qed.

Lemma t_put_unsaved (R R' : Doc → Prop) g k v :
  k ≠ "phase" → k ≠ "captured_identities" → k ≠ "termination_proofs" →
  (∀ r, R r → R' (dset k v r)) → triple (unsaved R g) (put k v) (λ _, unsaved R' g).
Proof.
  intros H1 H2 H3 HR. eapply t_conseq; [apply (t_put (unsaved R' g))| |done].
  intros s (Hl & Hc & Hr). split_and!; [by apply live_put|by apply covers_put|by apply HR].
Qed.
Lemma K_unsaved R g s : K R g s → unsaved R g s.
Proof. by intros (? & ? & ? & _). Qed.

Lemma t_set_checkpoint R R' g c :
  (∀ r, R r → R' (dset "checkpoint" (JStr c) r)) →
  triple (K R g) (set_checkpoint disk c) (λ _, K R' g).
Proof.
  intros HR. unfold set_checkpoint. apply (t_bind _ _ _ (λ _, unsaved R' g)); [|intros []; by apply t_saved].
  eapply t_conseq; [by apply (t_put_unsaved R R')|apply K_unsaved|done].
Qed.

Lemma record_Ok p g g' :
  record_termination sha p g = Ok g' → gd_authority g = true →
  ∃ m d, jget "member" p = JStr m ∧ str_of p "member" = m ∧ dget m (gd_expected g) = Some d
    ∧ binds d p = true ∧ ended sha p
    ∧ g' = mkGuard (gd_old_generation g) (gd_new_generation g) (gd_expected g) true (dset m p (gd_proofs g)).
Proof.
  unfold record_termination. cbv zeta. intros [Hm H]%need_then Ha. apply need_then in H as [_ H].
  apply need_then in H as [[Ht Hd]%andb_true_iff H]. rewrite Ha in H.
  apply bind_Ok in H as (u & (r & Hr & _)%bind_Ok & H).
  unfold is_member in Hm. apply existsb_exists in Hm as (m & _ & Hm%py_eqb_str).
  assert (str_of p "member" = m) as Hs by (unfold str_of; by rewrite Hm). rewrite Hs in H.
  destruct (dget m (gd_expected g)) as [d|] eqn:He; [|done]. apply need_then in H as [Hb H].
  apply need_then in H as [_ [= <-]]. exists m, d.
  exact (conj Hm (conj Hs (conj He (conj Hb (conj (conj Ht (conj Hd (ex_intro _ r Hr))) eq_refl))))).
Qed.

Lemma guard_record p g g' : guard_ok g → record_termination sha p g = Ok g' → guard_ok g'.
Proof.
  intros [Hm Hp Ha] (m & d & _ & _ & Hd & Hb & He & ->)%record_Ok; [|done].
  split; simpl; [done| |done]. intros m' p'. rewrite dget_dset. case_decide as Heq.
  - intros [= <-]. subst m'. by exists d.
  - apply Hp.
Qed.

(** The proof the guard accepted becomes durable. *)
Lemma t_checkpoint_proof R g p g' :
  journal_free R → (∀ r v, R r → R (dset "termination_proofs" v r)) →
  guard_ok g → record_termination sha p g = Ok g' →
  triple (K R g) (checkpoint_termination_proof disk p) (λ _, K R g').
Proof.
  intros HR HRp Hok (m & d & _ & Hm & Hd & Hb & He & ->)%record_Ok; [|apply Hok].
  unfold checkpoint_termination_proof. rewrite Hm.
  eapply (t_bind _ _ _ (λ v s, live (ct_run s) ∧ covers (ct_run s) g ∧ R (ct_run s)
            ∧ jget "termination_proofs" (ct_run s) = v)).
  { intros s Hbase (Hl & Hc & Hr & _). unfold wp, setdefault.
    destruct (dget "termination_proofs" (ct_run s)) as [v|] eqn:Hv; (split; [exact Hbase|]); simpl.
    - split_and!; try done. unfold jget. by rewrite Hv.
    - split_and!; [by apply live_put| |by apply HRp|by rewrite jget_dset, decide_True].
      destruct Hc as [Hids Hps]. split; [by rewrite jget_dset_ne|]. intros m' p' Hp'.
      destruct (Hps m' p' Hp') as (values & Hval & _). unfold jget in Hval. by rewrite Hv in Hval. }
  intros [| | | | | |values]; try apply t_raise. apply t_then. intros _ _.
  set (g' := mkGuard _ _ _ _ _). apply (t_bind _ _ _ (λ _, unsaved R g')); [|intros []; by apply t_saved].
  eapply t_conseq; [apply (t_put (unsaved R g'))| |done].
  intros s (Hl & [Hids Hps] & Hr & Hv). split_and!; [by apply live_put| |by apply HRp]. split; simpl.
  - by rewrite jget_dset_ne.
  - intros m' p'. rewrite dget_dset. intros Hp'. exists (dset m (JObj p) values).
    split; [by rewrite jget_dset, decide_True|]. rewrite dget_dset. case_decide; [by injection Hp' as <-|].
    destruct (Hps m' p' Hp') as (values' & Hval & ?). rewrite Hv in Hval. by injection Hval as <-.
Qed.

Lemma K_dead R g s :
  guard_ok g → has_four_termination_proofs g = true → K R g s →
  ∃ f, ct_file s = Some (JObj f) ∧ dead_world sha f ∧ agree f (ct_run s) ∧ R (ct_run s).
Proof.
  intros [Hm Hp _] Hfour (_ & [(ids & Hids & Hin) Hps] & Hr & f & Hf & Ha).
  exists f. split_and!; try done. intros m Hmem. unfold has_four_termination_proofs in Hfour.
  apply andb_true_iff in Hfour as [[Hex _]%andb_true_iff _]. apply bool_decide_eq_true in Hex.
  assert (m ∈ dkeys (gd_proofs g)) as [p Hpm]%dget_is_Some.
  { apply (elem_of_list_to_set (C := gset string)). rewrite Hex. by apply elem_of_list_to_set. }
  destruct (Hp m p Hpm) as (d & Hd & Hb & He). destruct (Hps m p Hpm) as (values & Hv & Hvm).
  destruct (Hm m Hmem) as (d' & Hd' & Hdm). rewrite Hd in Hd'. injection Hd' as <-.
  exists ids, values, d, p. rewrite !Ha by done. split_and!; try done. by eapply Hin.
Qed.

Definition at_checkpoint (c : string) (r : Doc) : Prop := jget "checkpoint" r = JStr c.
Lemma at_journal_free c : journal_free (at_checkpoint c).
Proof. intros r r' Ha. unfold at_checkpoint. by rewrite (Ha "checkpoint"). Qed.
Lemma at_proofs c r v : at_checkpoint c r → at_checkpoint c (dset "termination_proofs" v r).
Proof. unfold at_checkpoint. by rewrite jget_dset_ne. Qed.
Lemma at_put c r : at_checkpoint c (dset "checkpoint" (JStr c) r).
Proof. unfold at_checkpoint. by rewrite jget_dset, decide_True. Qed.
#[local] Hint Resolve at_journal_free at_proofs at_put : core.

Lemma t_record_all R l g :
  journal_free R → (∀ r v, R r → R (dset "termination_proofs" v r)) → guard_ok g →
  triple (K R g) (record_all sha disk l g) (λ g' s, guard_ok g' ∧ K R g' s).
Proof.
  intros HR HRp. revert g. induction l as [|p l IH]; intros g Hg; simpl.
  { eapply t_conseq; [apply (t_ret g (λ g' s, guard_ok g' ∧ K R g' s))|by split|done]. }
  apply t_then. intros g' Hg'. eapply t_bind; [by apply t_checkpoint_proof|]. intros [].
  apply IH. by eapply guard_record.
Qed.

Lemma t_validate R d p g :
  journal_free R →
  triple (K R g) (validate_and_record bk sha disk clock error_text d p g)
    (λ g' s, record_termination sha p g = Ok g' ∧ K R g s).
Proof.
  intros HR. unfold validate_and_record. apply t_get. intros s0 HK.
  destruct (_ ≫= _) as [g'|e] eqn:Hv; cycle 1.
  { apply (t_bind _ _ _ (λ _, K R g)); [|intros []; apply t_raise].
    eapply t_conseq; [by apply (journals_semantic _ _ _ _ R g HR)|by intros ? ->|done]. }
  apply bind_Ok in Hv as (u & _ & Hrec).
  apply (t_bind _ _ _ (λ _, K R g)).
  { eapply t_conseq; [by apply (journals_semantic _ _ _ _ R g HR)|by intros ? ->|done]. }
  intros []. eapply t_conseq; [apply (t_ret g' (λ g' s, record_termination sha p g = Ok g' ∧ K R g s))|by split|done].
Qed.

Lemma t_prove_members R old l g :
  journal_free R → (∀ r v, R r → R (dset "termination_proofs" v r)) → guard_ok g →
  triple (K R g) (prove_members bk sha sha_text loads repr disk clock error_text old l g)
    (λ g' s, guard_ok g' ∧ K R g' s).
Proof.
  intros HR HRp. revert g. induction l as [|m l IH]; intros g Hg; cbn [prove_members].
  { eapply t_conseq; [apply (t_ret g (λ g' s, guard_ok g' ∧ K R g' s))|by split|done]. }
  destruct (dget m (gd_proofs g)); [by apply IH|].
  eapply t_bind; [by apply journals_observe|]. intros o.
  eapply t_bind; [by apply journals_observation|]. intros d.
  eapply t_bind; [by apply t_validate|]. intros g'.
  apply (t_fact (record_termination sha (ob_proof o) g = Ok g')); [by intros s [? _]|]. intros Hrec.
  apply (t_bind _ _ _ (λ _, K R g')); [|intros []; apply IH; by eapply guard_record].
  eapply t_conseq; [by apply (t_checkpoint_proof R g)|by intros s [_ ?]|done].
Qed.

Lemma K_same R g s s' : ct_run s' = ct_run s → ct_file s' = ct_file s → K R g s → K R g s'.
Proof. unfold K. by intros -> ->. Qed.

Lemma t_stop_members l g :
  guard_ok g → Forall (λ m, m ∈ MEMBERS) l →
  triple (K (at_checkpoint "CAPTURED") g) (stop_members bk l) (λ _, K (at_checkpoint "CAPTURED") g).
Proof.
  intros Hg Hl. induction Hl as [|m l Hm Hl IH]; simpl; [apply (t_ret tt (λ _, K _ g))|].
  apply (t_bind _ _ _ (λ _, K (at_checkpoint "CAPTURED") g)); [|intros []; exact IH]. apply t_act.
  - intros s (_ & [(ids & Hids & Hin) _] & Hc & f & Hf & Ha). exists f. split; [done|].
    destruct (go_members g Hg m Hm) as (d & Hd & Hdm). simpl. rewrite !Ha by done. split; [done|].
    exists ids, d. split_and!; try done. by eapply Hin.
  - intros s l' w. by apply K_same.
Qed.

Lemma t_with_watches {A} P (m : ctl A) Q :
  triple P m Q → (∀ a s, Q a s → Q a (close_watches bk s)) → triple P (with_watches bk m) Q.
Proof.
  intros Hm HQ s Hb HP. specialize (Hm s Hb HP). unfold wp, with_watches in *.
  destruct (m s) as [x s']. destruct Hm as [Hb' Hx]. split; [exact Hb'|]. destruct x; [by apply HQ|done].
Qed.

(** ** The continuation *)

Lemma validate_permit_Ok v gen mode p : validate_startup_permit sha v gen mode = Ok p → v = JObj p.
Proof.
  unfold validate_startup_permit. destruct v as [| | | | | |permit]; try done.
  intros [_ H]%need_then. apply need_then in H as [_ H]. apply bind_Ok in H as (m & _ & H).
  do 5 (apply need_then in H as [_ H]). destruct (jget "members" permit); try done.
  do 4 (apply need_then in H as [_ H]). by injection H as ->.
Qed.

Definition permits (p : Doc) : Prop :=
  validate_startup_permit sha (JObj p) (Some (cm_new cmd)) (Some "RESTART") = Ok p.
(** At a checkpoint, with the permit written. *)
Definition permitted_at (c : string) (p : Doc) (r : Doc) : Prop :=
  at_checkpoint c r ∧ jget "startup_permit" r = JObj p ∧ permits p.

Lemma t_patch entry g :
  guard_ok g → has_four_termination_proofs g = true →
  triple (K (at_checkpoint entry) g)
    (if bool_decide (entry = "TERMINATED")
     then _ ← act bk (Patch (cm_new cmd)); set_checkpoint disk "GENERATION_PATCHED" else mret tt)
    (λ _, K (at_checkpoint (if bool_decide (entry = "TERMINATED") then "GENERATION_PATCHED" else entry)) g).
Proof.
  intros Hg Hf. case_bool_decide as He; [|apply (t_ret tt (λ _, K _ g))]. subst entry.
  apply (t_bind _ _ _ (λ _, K (at_checkpoint "TERMINATED") g)); [|intros []; apply t_set_checkpoint; auto].
  apply t_act; [|by intros s l w; apply K_same]. intros s (f & Hfile & Hd & Ha & Hc)%K_dead; [|done..].
  exists f. split; [done|]. simpl. by rewrite (Ha "checkpoint").
Qed.

Lemma t_start_members l g :
  guard_ok g → has_four_termination_proofs g = true →
  triple (K (at_checkpoint "GENERATION_PATCHED") g) (start_members bk l)
    (λ _, K (at_checkpoint "GENERATION_PATCHED") g).
Proof.
  intros Hg Hf. induction l as [|m l IH]; simpl; [apply (t_ret tt (λ _, K _ g))|].
  apply (t_bind _ _ _ (λ _, K (at_checkpoint "GENERATION_PATCHED") g)); [|intros []; exact IH].
  apply t_act; [|by intros s l' w; apply K_same]. intros s (f & Hfile & Hd & Ha & Hc)%K_dead; [|done..].
  exists f. split; [done|]. simpl. by rewrite (Ha "checkpoint").
Qed.

Lemma t_permit_world old c g :
  triple (K (at_checkpoint c) g) (permit_world bk sha disk new_id cmd old c)
    (λ fp, K (permitted_at (if bool_decide (c = "STARTED") then "PERMIT_READY" else c) fp.2) g).
Proof.
  unfold permit_world. case_bool_decide as Hc.
  - subst c. apply (t_bind _ _ _ (λ _, K (at_checkpoint "STARTED") g)).
    { apply t_ask. intros s w a. by apply K_same. }
    intros fresh. apply t_get. intros s0 HK. apply t_then. intros permit Hp.
    assert (permits permit) as Hperm.
    { unfold build_startup_permit in Hp. pose proof (validate_permit_Ok _ _ _ _ Hp) as Hv. unfold permits.
      rewrite <- Hv. exact Hp. }
    apply (t_bind _ _ _ (λ _, unsaved (λ _, True) g)).
    { eapply (t_conseq _ (unsaved (λ _, True) g)); [by apply (t_put_unsaved (λ _, True) (λ _, True))| |].
      - intros s ->. destruct (K_unsaved _ _ _ HK) as (? & ? & _). by split_and!.
      - intros a s Hu. exact Hu. }
    intros []. set (R := λ r, jget "startup_permit" r = JObj permit). apply (t_bind _ _ _ (λ _, unsaved R g)).
    { apply t_put_unsaved; [done|done|done|]. intros r _. unfold R. by rewrite jget_dset, decide_True. }
    intros []. unfold set_checkpoint. apply (t_bind _ _ _ (λ _, K (permitted_at "PERMIT_READY" permit) g)).
    + apply (t_bind _ _ _ (λ _, unsaved (permitted_at "PERMIT_READY" permit) g)); [|intros []; by apply t_saved].
      apply t_put_unsaved; [done|done|done|]. intros r Hr. split_and!; [by apply at_put| |done].
      unfold R in Hr. by rewrite jget_dset_ne.
    + intros []. apply (t_ret (fresh, permit) (λ fp, K (permitted_at "PERMIT_READY" fp.2) g)).
  - apply t_get. intros s0 HK. destruct (jget "fresh_pod_uids" (ct_run s0)) as [| | | | | |fresh];
      try apply t_raise.
    apply t_then. intros _ _. apply t_then. intros permit Hp. apply t_then. intros _ _.
    eapply t_conseq; [apply (t_ret (fresh, permit) (λ fp, K (permitted_at c fp.2) g))| |done].
    intros s ->. destruct HK as (H1 & H2 & H3 & H4). pose proof (validate_permit_Ok _ _ _ _ Hp) as Hv.
    refine (conj H1 (conj H2 (conj (conj H3 (conj Hv _)) H4))). unfold permits. cbn [snd]. rewrite <- Hv. exact Hp.
Qed.

Lemma t_publish_permit old entry fresh permit g :
  guard_ok g → has_four_termination_proofs g = true →
  triple (K (permitted_at "PERMIT_READY" permit) g) (publish_permit bk sha disk cmd old entry fresh permit)
    (λ _, K (permitted_at "PERMIT_PUBLISHED" permit) g).
Proof.
  intros Hg Hf. unfold publish_permit. apply (t_bind _ _ _ (λ _, K (permitted_at "PERMIT_READY" permit) g)).
  { case_bool_decide; [|apply (t_ret tt (λ _, K _ g))].
    apply (t_bind _ _ _ (λ _, K (permitted_at "PERMIT_READY" permit) g)).
    - apply t_ask. intros s w a. by apply K_same.
    - intros observed. by apply t_check. }
  intros []. apply (t_bind _ _ _ (λ _, K (permitted_at "PERMIT_READY" permit) g)).
  { apply t_act; [|by intros s l w; apply K_same]. intros s (f & Hfile & Hd & Ha & Hc & Hp & Hv)%K_dead; [|done..].
    exists f. split; [done|]. simpl. by rewrite (Ha "checkpoint"), (Ha "startup_permit"). }
  intros []. apply t_get. intros s0 HK. apply t_then. intros published _. apply t_then. intros _ _.
  eapply t_conseq; [apply (t_set_checkpoint (permitted_at "PERMIT_READY" permit)
    (permitted_at "PERMIT_PUBLISHED" permit))|by intros s ->|done].
  intros r (_ & Hp & Hv). split_and!; [by apply at_put| |done]. by rewrite jget_dset_ne.
Qed.

(** What the evidence was checked for. *)
Definition evidence_ok (e permit : Doc) : Prop :=
  validate_permitted_identities sha e permit = Ok tt
  ∧ ∃ records sealed, jget "termination_records" e = JList records
      ∧ validate_termination_records sha records (cm_old cmd) (list_to_set MEMBERS) = Ok sealed.

Lemma permitted_free c p : journal_free (permitted_at c p).
Proof.
  intros r r' Ha (H1 & H2 & H3). split_and!; [by eapply at_journal_free| |exact H3].
  by rewrite <- (Ha "startup_permit").
Qed.

Lemma t_acceptance_evidence R g permit :
  triple (K R g) (acceptance_evidence bk sha repr cmd g permit) (λ e s, evidence_ok e permit ∧ K R g s).
Proof.
  unfold acceptance_evidence. apply t_get. intros s0 HK. apply t_then. intros run_id _.
  apply (t_bind _ _ _ (λ _, K R g)); [apply t_ask; intros s w a ->; by eapply K_same|]. intros e.
  apply t_then. intros records Hrec. apply t_then. intros _ _. apply t_then. intros sealed Hs.
  do 2 (apply t_then; intros _ _). apply t_then. intros u Hv. destruct u.
  eapply t_conseq; [apply (t_ret _ (λ e s, evidence_ok e permit ∧ K R g s))| |done].
  intros s Hs'. refine (conj (conj Hv _) Hs'). exists (JObj <$> records), sealed.
  split; [by rewrite jget_dset, decide_True|exact Hs].
Qed.

(** The evidence is in the file. *)
Definition evident (e permit : Doc) s : Prop :=
  ∃ f, ct_file s = Some (JObj f) ∧ justified sha cmd (Accept e) f ∧ justified sha cmd (PersistStarted permit) f.

Lemma t_accept_evidence e permit :
  triple (evident e permit) (accept_evidence bk disk e permit) (λ _ _, True).
Proof.
  unfold accept_evidence. apply (t_bind _ _ _ (λ _, evident e permit)).
  { apply t_act; [|by intros s l w]. intros s (f & Hf & Ha & _). by exists f. }
  intros []. apply t_get. intros s0 He. apply t_then. intros _ _.
  apply (t_bind _ _ _ (λ _, evident e permit)).
  { apply t_act; [|by intros s l w ->]. intros s ->. destruct He as (f & Hf & _ & Hp). by exists f. }
  intros []. apply (t_bind _ _ _ (λ _ s, live (ct_run s))).
  { eapply t_conseq; [apply (t_put (λ s, live (ct_run s)))| |done]. intros s _. simpl. unfold live.
    by rewrite jget_dset, decide_True. }
  intros []. apply (t_bind _ _ _ (λ _ s, live (ct_run s))).
  { eapply t_conseq; [apply (t_put (λ s, live (ct_run s)))| |done]. intros s Hl. by apply live_put. }
  intros []. apply (t_bind _ _ _ (λ _ s, live (ct_run s))).
  { eapply t_conseq; [apply (t_put (λ s, live (ct_run s)))| |done]. intros s Hl. by apply live_put. }
  intros []. apply (t_bind _ _ _ (λ _ _, True)); [|intros []; apply (t_ret _ (λ _ _, True))].
  eapply t_conseq; [apply (t_write live), live_run_ok|done|done].
Qed.

(** The evidence becomes durable, and is then sent. *)
Lemma t_send g e permit :
  evidence_ok e permit →
  triple (K (permitted_at "PERMIT_PUBLISHED" permit) g)
    (_ ← put "phase" (JStr "EVIDENCE_READY"); _ ← put "checkpoint" (JStr "EVIDENCE_READY");
     _ ← put "evidence" (JObj e); _ ← atomic_write_json disk; accept_evidence bk disk e permit)
    (λ _ _, True).
Proof.
  intros He. set (R := λ r, live r ∧ jget "startup_permit" r = JObj permit ∧ permits permit).
  assert (∀ k v r, k ≠ "phase" → k ≠ "startup_permit" → R r → R (dset k v r)) as HR.
  { intros k v r Hk Hk' (Hl & Hp & Hv). refine (conj (live_put _ _ _ Hk Hl) (conj _ Hv)).
    by rewrite jget_dset_ne. }
  apply (t_bind _ _ _ (λ _ s, R (ct_run s))).
  { eapply t_conseq; [apply (t_put (λ s, R (ct_run s)))| |done].
    intros s (_ & _ & (_ & Hp & Hv) & _). refine (conj _ (conj _ Hv)); simpl.
    - unfold live. by rewrite jget_dset, decide_True.
    - by rewrite jget_dset_ne. }
  intros []. set (R1 := λ r, R r ∧ at_checkpoint "EVIDENCE_READY" r). apply (t_bind _ _ _ (λ _ s, R1 (ct_run s))).
  { eapply t_conseq; [apply (t_put (λ s, R1 (ct_run s)))| |done]. intros s Hr. split; [by apply HR|apply at_put]. }
  intros []. set (R2 := λ r, R1 r ∧ jget "evidence" r = JObj e). apply (t_bind _ _ _ (λ _ s, R2 (ct_run s))).
  { eapply t_conseq; [apply (t_put (λ s, R2 (ct_run s)))| |done]. intros s [Hr Hc].
    refine (conj (conj (HR _ _ _ _ _ Hr) _) _); [done|done| |].
    - simpl. unfold at_checkpoint. by rewrite jget_dset_ne.
    - simpl. by rewrite jget_dset, decide_True. }
  intros []. eapply t_bind; [apply (t_write R2)|].
  { intros r [[(Hl & _) _] _]. by apply live_run_ok. }
  intros []. eapply t_conseq; [apply t_accept_evidence| |done].
  intros s [[[(Hl & Hp & Hv) Hc] Hev] Hf]. exists (ct_run s). split; [exact Hf|]. cbn [justified].
  rewrite Hp. destruct He as [Hi Hrec].
  refine (conj (conj Hc (conj Hev (conj _ Hrec))) (conj Hc Hv)). by exists permit.
Qed.

Lemma t_continue R old g :
  guard_ok g → triple (K R g) (continue_after_termination bk sha repr disk new_id cmd old g) (λ _ _, True).
Proof.
  intros Hg. unfold continue_after_termination. apply t_get. intros s0 HK.
  apply t_then. intros entry He. apply t_then. intros u Hin. apply t_then. intros u' Hfour.
  assert (entry ∈ ["TERMINATED"; "GENERATION_PATCHED"; "STARTED"; "PERMIT_READY"; "PERMIT_PUBLISHED"]) as Hentry.
  { destruct (bool_decide _) eqn:Hd in Hin; [by apply bool_decide_eq_true in Hd|done]. }
  assert (has_four_termination_proofs g = true) as H4 by (by destruct (has_four_termination_proofs g)).
  clear Hin Hfour u u'.
  assert (K (at_checkpoint entry) g s0) as HK0.
  { destruct HK as (H1 & H2 & _ & H3). refine (conj H1 (conj H2 (conj _ H3))). unfold restart_checkpoint in He.
    unfold at_checkpoint. destruct (jget "checkpoint" (ct_run s0)); try done.
    apply bind_Ok in He as (? & _ & He). by injection He as ->. }
  eapply (t_conseq _ (K (at_checkpoint entry) g)); [|by intros s ->|intros a s H; exact H].
  eapply t_bind; [by apply t_patch|]. intros [].
  set (c1 := if bool_decide (entry = "TERMINATED") then "GENERATION_PATCHED" else entry).
  set (c2 := if bool_decide (entry ∈ ["TERMINATED"; "GENERATION_PATCHED"]) then "STARTED" else entry).
  apply (t_bind _ _ _ (λ _, K (at_checkpoint c2) g)).
  { unfold c2. case_bool_decide as Hc.
    - assert (c1 = "GENERATION_PATCHED") as ->.
      { unfold c1. case_bool_decide as Ht; [done|]. by apply list_elem_of_In in Hc as [<-|[<-|[]]]. }
      eapply t_bind; [by apply t_start_members|]. intros []. apply t_set_checkpoint. intros r _. apply at_put.
    - assert (c1 = entry) as ->.
      { unfold c1. case_bool_decide as Ht; [|done]. subst entry. destruct Hc. by left. }
      apply (t_ret tt (λ _, K _ g)). }
  intros []. assert ((if bool_decide (entry ∈ ["PERMIT_READY"; "PERMIT_PUBLISHED"]) then entry else "STARTED") = c2) as ->.
  { clear -Hentry. apply list_elem_of_In in Hentry as [<-|[<-|[<-|[<-|[<-|[]]]]]]; vm_compute; reflexivity. }
  eapply t_bind; [apply t_permit_world|]. intros [fresh permit]. cbn [snd].
  apply (t_bind _ _ _ (λ _, K (permitted_at "PERMIT_PUBLISHED" permit) g)).
  { set (c3 := if bool_decide (c2 = "STARTED") then _ else _). case_bool_decide as Hp.
    - assert (c3 = "PERMIT_PUBLISHED") as -> by (subst entry; vm_compute; reflexivity).
      apply (t_ret tt (λ _, K _ g)).
    - assert (c3 = "PERMIT_READY") as ->; [|by apply t_publish_permit].
      clear -Hentry Hp. apply list_elem_of_In in Hentry as [<-|[<-|[<-|[<-|[<-|[]]]]]]; try done; vm_compute; reflexivity. }
  intros []. eapply t_bind; [apply t_acceptance_evidence|]. intros e.
  apply (t_fact (evidence_ok e permit)); [by intros s [? _]|]. intros Hev.
  eapply t_conseq; [by apply (t_send g e permit)|by intros s [_ ?]|done].
Qed.

(** ** Loading *)

(** What a run state looks like when it has been loaded. *)
Definition loaded s : Prop :=
  run_ok (ct_run s)
  ∧ (jget "checkpoint" (ct_run s) = JStr "CREATED" ↔ jget "phase" (ct_run s) = JStr "CREATED")
  ∧ ∃ f, ct_file s = Some (JObj f) ∧ agree f (ct_run s).

Lemma resumable_Ok v run :
  resumable repr cmd v = Ok run →
  v = JObj run ∧ (jget "checkpoint" run = JStr "CREATED" ↔ jget "phase" run = JStr "CREATED").
Proof.
  unfold resumable. destruct v as [| | | | | |d]; try done. intros (u & _ & H)%bind_Ok.
  apply bind_Ok in H as (v & Hv & H).
  assert (v = jget "phase" d) as -> by (unfold hashable in Hv; destruct (jget "phase" d); congruence).
  clear Hv. apply bind_Ok in H as (phase & Hp & H).
  apply bind_Ok in H as (c & Hc & H). apply bind_Ok in H as (u1 & Hal & H). apply bind_Ok in H as (u2 & _ & [= <-]).
  split; [done|]. destruct (jget "phase" d) as [| | | |x| |]; try done.
  apply bind_Ok in Hp as (u3 & _ & [= ->]). unfold restart_checkpoint in Hc.
  destruct (jget "checkpoint" d) as [| | | |y| |]; try done. apply bind_Ok in Hc as (u4 & _ & [= ->]).
  assert (c ∈ allowed_checkpoints phase) as Hin.
  { destruct (bool_decide _) eqn:Hd in Hal; [by apply bool_decide_eq_true in Hd|done]. }
  clear -Hin. unfold allowed_checkpoints in Hin. split.
  - intros [= ->]. case_bool_decide; [by subst|]. exfalso. revert Hin. repeat case_bool_decide; vm_compute; intros Hx;
      repeat (apply elem_of_cons in Hx as [Hx|Hx]; [by discriminate|]); by apply elem_of_nil in Hx.
  - intros [= ->]. rewrite bool_decide_true in Hin by done. by apply list_elem_of_singleton in Hin as ->.
Qed.

Lemma t_open_loaded run :
  run_ok run → (jget "checkpoint" run = JStr "CREATED" ↔ jget "phase" run = JStr "CREATED") →
  triple (λ s, ct_file s = Some (JObj run) ∧ ct_run s = run) open_journal (λ _, loaded).
Proof.
  intros Hok Hiff. unfold open_journal. apply (t_bind _ _ _ (λ _, loaded)).
  - intros s Hb [Hf Hr]. unfold wp, setdefault. rewrite Hr. destruct (dget _ run) as [j|] eqn:Hj;
      (split; [exact Hb|]); simpl; unfold loaded; simpl.
    + rewrite Hr. split; [done|]. split; [done|]. exists run. split; [done|apply agree_refl].
    + split; [|split].
      * unfold run_ok. rewrite !jget_dset_ne by done. intros Hph. destruct (Hok Hph) as [Hps _].
        by rewrite jget_dset, decide_True.
      * by rewrite !jget_dset_ne.
      * exists run. split; [done|apply agree_journal].
  - intros [| | | | |l|]; try apply t_raise. apply (t_ret l (λ _, loaded)).
Qed.

Lemma t_load : triple (λ _, True) (load_or_create_run_state repr disk new_id cmd) (λ _, loaded).
Proof.
  unfold load_or_create_run_state. intros s0 Hb _. apply wp_bind, wp_read.
  destruct (ct_file s0) as [v|] eqn:Hfile.
  - apply wp_bind. unfold wp at 1, check. cbn [fst snd].
    destruct (resumable repr cmd v) as [run|] eqn:Hr; [|by split].
    apply resumable_Ok in Hr as [-> Hiff]. apply wp_bind, wp_modify.
    assert (triple (λ s, ct_file s = Some (JObj run) ∧ ct_run s = run)
      (_ ← open_journal; mret tt) (λ _, loaded)) as Ht.
    { eapply t_bind; [apply t_open_loaded; [by apply (proj2 Hb)|done]|].
      intros l. apply (t_ret tt (λ _, loaded)). }
    apply (Ht (set_run run s0)); [exact Hb|]. by split.
  - set (R := λ r, run_ok r ∧ (jget "checkpoint" r = JStr "CREATED" ↔ jget "phase" r = JStr "CREATED")).
    apply wp_bind, wp_modify. eapply wp_mono; [apply (t_write R); [by intros r [? _]|exact Hb|]|].
    + split; [|done]. by intros _.
    + intros [[]|e] s' [Hb' H]; (split; [done|]); [|done]. destruct H as [[H1 H2] Hf].
      split_and!; [done|done..|]. exists (ct_run s'). split; [done|apply agree_refl].
Qed.

Lemma restore_all_In acc l r m d :
  restore_all cmd acc l = Ok r → dget m r = Some d → dget m acc = Some d ∨ JObj d ∈ l.
Proof.
  revert acc. induction l as [|v l IH]; intros acc; simpl; [intros [= ->]; by left|].
  intros (r1 & Hr1 & Hr)%bind_Ok Hd. destruct (IH r1 Hr Hd) as [H1|]; [|right; by right].
  unfold restore_captured in Hr1. destruct v as [| | | | | |x]; try done.
  apply bind_Ok in Hr1 as (? & _ & Hr1). apply bind_Ok in Hr1 as (? & _ & [= <-]).
  rewrite dget_dset in H1. case_decide; [injection H1 as ->; right; by left|by left].
Qed.

Lemma new_guard_Ok old g :
  new_WorldRestartGuard (cm_old cmd) (cm_new cmd) old true = Ok g →
  gd_expected g = old ∧ gd_proofs g = [] ∧ guard_ok g ∧ members_exactly old = true.
Proof.
  unfold new_WorldRestartGuard. intros [_ H]%need_then. apply need_then in H as [Hm H].
  apply need_then in H as [Hp H]. do 2 apply need_then in H as [_ H]. injection H as <-. simpl.
  split_and!; try done. split; simpl; [|done|done]. intros m Hin.
  pose proof Hm as Hm'. apply bool_decide_eq_true in Hm'.
  assert (m ∈ dkeys old) as [d Hd]%dget_is_Some.
  { apply (elem_of_list_to_set (C := gset string)). rewrite Hm'. by apply elem_of_list_to_set. }
  exists d. split; [done|]. rewrite forallb_forall in Hp.
  assert (In (m, d) old) as Hmd by (by apply list_elem_of_In, dget_Some_1).
  specialize (Hp _ Hmd). apply andb_true_iff in Hp as [Hp%py_eqb_str _]. exact Hp.
Qed.

(** ** The whole run *)

(** Some file of the right form is there. *)
Definition filed s : Prop := ∃ f, ct_file s = Some (JObj f).

Lemma t_start_watches (P : Ctl W → Prop) old l :
  (∀ s, P s → filed s) →
  (∀ s s', ct_run s' = ct_run s → ct_file s' = ct_file s → P s → P s') →
  triple P (start_watches bk old l) (λ _, P).
Proof.
  intros Hf Hs. induction l as [|m l IH]; simpl; [apply (t_ret tt (λ _, P))|].
  apply (t_bind _ _ _ (λ _, P)).
  { apply t_act; [|intros s l' w; by apply Hs]. intros s [f Hfile]%Hf. exists f. by split. }
  intros []. apply (t_bind _ _ _ (λ _, P)); [|intros []; exact IH]. intros s Hb HP. split; [exact Hb|].
  by eapply Hs, HP.
Qed.

Lemma t_checkpoint_capture old operations resources g :
  gd_expected g = old → gd_proofs g = [] → members_exactly old = true →
  triple (λ _, True) (checkpoint_capture disk (old, operations, resources))
    (λ _, K (at_checkpoint "CAPTURED") g).
Proof.
  intros He Hp Hm. unfold checkpoint_capture.
  set (P1 := λ r, live r). set (P2 := λ r, P1 r ∧ at_checkpoint "CAPTURED" r).
  set (ids := (λ m, JObj (default [] (dget m old))) <$> MEMBERS).
  set (P3 := λ r, P2 r ∧ jget "captured_identities" r = JList ids).
  assert (∀ (P P' : Doc → Prop) k v, (∀ r, P r → P' (dset k v r)) →
    triple (λ s, P (ct_run s)) (put k v) (λ _ s, P' (ct_run s))) as Hput.
  { intros P P' k v H. eapply t_conseq; [apply (t_put (λ s, P' (ct_run s)))| |done]. intros s HP. by apply H. }
  apply (t_bind _ _ _ (λ _ s, P1 (ct_run s))).
  { apply (Hput (λ _, True)). intros r _. unfold P1, live. by rewrite jget_dset, decide_True. }
  intros []. apply (t_bind _ _ _ (λ _ s, P2 (ct_run s))).
  { apply Hput. intros r Hr. split; [by apply live_put|apply at_put]. }
  assert (∀ k v r, k ≠ "phase" → k ≠ "checkpoint" → P2 r → P2 (dset k v r)) as HP2.
  { intros k v r Hk Hk' [Hl Hc]. split; [by apply live_put|]. unfold at_checkpoint. by rewrite jget_dset_ne. }
  intros []. apply (t_bind _ _ _ (λ _ s, P3 (ct_run s))).
  { apply Hput. intros r Hr. split; [by apply HP2|by rewrite jget_dset, decide_True]. }
  assert (∀ k v r, k ≠ "phase" → k ≠ "checkpoint" → k ≠ "captured_identities" → P3 r → P3 (dset k v r)) as HP3.
  { intros k v r Hk Hk' Hk2 [Hr Hids]. split; [by apply HP2|by rewrite jget_dset_ne]. }
  intros []. apply (t_bind _ _ _ (λ _ s, P3 (ct_run s))); [apply Hput; intros r; by apply HP3|].
  intros []. apply (t_bind _ _ _ (λ _ s, P3 (ct_run s))); [apply Hput; intros r; by apply HP3|].
  intros []. apply (t_bind _ _ _ (λ _ s, P3 (ct_run s))); [apply Hput; intros r; by apply HP3|].
  intros []. eapply (t_conseq _ (unsaved (at_checkpoint "CAPTURED") g) _ _ (λ _, K (at_checkpoint "CAPTURED") g)).
  - by apply t_saved.
  - intros s [[Hl Hc] Hids]. refine (conj Hl (conj _ Hc)). split.
    + exists ids. split; [done|]. rewrite He. intros m d Hd. apply list_elem_of_fmap. exists m. rewrite Hd.
      split; [done|]. apply bool_decide_eq_true in Hm.
      apply (elem_of_list_to_set (C := gset string)). rewrite <- Hm. apply elem_of_list_to_set, dget_is_Some.
      by exists d.
    + rewrite Hp. by intros m p.
  - intros [] s HK. exact HK.
Qed.

(** Stopping the world and proving its end. *)
Lemma t_stop_and_prove old g :
  guard_ok g →
  triple (K (at_checkpoint "CAPTURED") g)
    (_ ← stop_members bk MEMBERS;
     g' ← prove_members bk sha sha_text loads repr disk clock error_text old MEMBERS g;
     _ ← check (require (has_four_termination_proofs g'));
     _ ← set_checkpoint disk "TERMINATED"; mret g')
    (λ g' s, guard_ok g' ∧ K (λ _, True) g' s).
Proof.
  intros Hg. eapply t_bind; [apply t_stop_members; [done|by apply Forall_forall]|]. intros [].
  eapply t_bind; [apply t_prove_members; [apply at_journal_free|apply at_proofs|exact Hg]|]. intros g'.
  apply (t_fact (guard_ok g')); [by intros s [? _]|]. intros Hg'. apply t_then. intros _ _.
  apply (t_bind _ _ _ (λ _, K (λ _, True) g')).
  - eapply t_conseq; [apply (t_set_checkpoint (at_checkpoint "CAPTURED") (λ _, True))|by intros s [_ ?]|done]. done.
  - intros []. eapply t_conseq; [apply (t_ret g' (λ g' s, guard_ok g' ∧ K (λ _, True) g' s))|by split|done].
Qed.

Lemma t_terminate w c g (P : Ctl W → Prop) :
  guard_ok g → (∀ s, P s → filed s) →
  (∀ s s', ct_run s' = ct_run s → ct_file s' = ct_file s → P s → P s') →
  (c = "CREATED" → gd_expected g = w.1.1 ∧ gd_proofs g = [] ∧ members_exactly w.1.1 = true) →
  (c ≠ "CREATED" → ∀ s, P s → K (at_checkpoint c) g s) →
  triple P (terminate_world bk sha sha_text loads repr disk clock error_text w c g)
    (λ g' s, guard_ok g' ∧ K (λ _, True) g' s).
Proof.
  intros Hg Hf Hs Hcr Hst. unfold terminate_world. apply t_with_watches; cycle 1.
  { intros g' s [? HK]. split; [done|]. by eapply K_same. }
  cbv zeta. eapply t_bind; [by apply (t_start_watches P)|]. intros [].
  destruct w as [[old operations] resources]. cbn [fst] in *.
  destruct (decide (c = "CREATED")) as [->|Hc].
  - destruct (Hcr eq_refl) as (He & Hp & Hm). rewrite !bool_decide_true by (done || set_solver).
    apply (t_bind _ _ _ (λ _, K (at_checkpoint "CAPTURED") g)); [|intros []; by apply t_stop_and_prove].
    eapply t_conseq; [by apply t_checkpoint_capture|done|done].
  - rewrite (bool_decide_false (c = "CREATED")) by done. apply (t_bind _ _ _ (λ _, K (at_checkpoint c) g)).
    { eapply t_conseq; [apply (t_ret tt (λ _, K (at_checkpoint c) g))|by apply Hst|done]. }
    intros []. case_bool_decide as Hin.
    + assert (c = "CAPTURED") as -> by (apply list_elem_of_In in Hin as [<-|[<-|[]]]; done).
      by apply t_stop_and_prove.
    + eapply t_conseq; [apply (t_ret g (λ g' s, guard_ok g' ∧ K (λ _, True) g' s))| |done].
      intros s (H1 & H2 & _ & H3). by split_and!.
Qed.

Lemma object_item_Ok k run d : object_item k run = Ok d → jget k run = JObj d.
Proof. unfold object_item, jget. destruct (dget k run) as [[| | | | | |x]|]; try done. by intros [= ->]. Qed.

Lemma checkpoint_Ok run c : restart_checkpoint run = Ok c → at_checkpoint c run.
Proof.
  unfold restart_checkpoint, at_checkpoint. destruct (jget "checkpoint" run) as [| | | |x| |]; try done.
  intros (? & _ & H)%bind_Ok. by injection H as ->.
Qed.

Lemma created_no_proofs run : run_ok run → jget "phase" run = JStr "CREATED" → durable_proofs sha repr run = Ok [].
Proof.
  intros Hok [Hp Hj]%Hok. unfold durable_proofs, restore_termination_checkpoint, validated_journal_proofs, journal.
  rewrite Hj. unfold jget in Hp. destruct (dget "termination_proofs" run) as [v|]; [|done]. simpl in Hp.
  by subst v.
Qed.

Lemma t_resume_acceptance s0 :
  loaded s0 → at_checkpoint "EVIDENCE_READY" (ct_run s0) →
  triple (λ s, s = s0) (resume_acceptance bk sha disk cmd (ct_run s0)) (λ _ _, True).
Proof.
  intros (_ & _ & f & Hf & Ha) Hc. unfold resume_acceptance.
  apply t_then. intros e He%object_item_Ok. apply t_then. intros permit Hp.
  apply t_then. intros u Hi. destruct u. destruct (jget "termination_records" e) as [| | | | |records|] eqn:Hr;
    try apply t_raise.
  apply t_then. intros sealed Hs. eapply t_conseq; [apply t_accept_evidence| |done]. intros s ->.
  exists f. split; [exact Hf|]. cbn [justified]. rewrite (Ha "checkpoint"), (Ha "evidence"), (Ha "startup_permit") by done.
  refine (conj (conj Hc (conj He (conj _ _))) (conj Hc Hp)); [by exists permit|by exists records, sealed].
Qed.

Lemma restored_K s0 c w g :
  loaded s0 → at_checkpoint c (ct_run s0) → c ≠ "CREATED" → restore_world cmd (ct_run s0) = Ok w →
  gd_expected g = w.1.1 → gd_proofs g = [] → K (at_checkpoint c) g s0.
Proof.
  intros (Hok & Hiff & Hf) Hc Hne Hw He Hp. unfold restore_world in Hw.
  apply bind_Ok in Hw as (old & Hold & Hw). apply bind_Ok in Hw as (ops & _ & Hw).
  apply bind_Ok in Hw as (res & _ & Hw). apply bind_Ok in Hw as (u & _ & [= <-]). simpl in He.
  unfold restore_captured_world in Hold. destruct (jget "captured_identities" (ct_run s0)) as [| | | | |l|] eqn:Hl; try done.
  apply bind_Ok in Hold as (u1 & _ & Hold). apply bind_Ok in Hold as (r & Hr & Hold).
  apply bind_Ok in Hold as (u2 & _ & [= ->]). split_and!; try done.
  - intros Hph. apply Hiff in Hph. unfold at_checkpoint in Hc. rewrite Hc in Hph. by injection Hph.
  - split; [exists l; split; [done|]|by rewrite Hp].
    rewrite He. intros m d Hd. by destruct (restore_all_In [] l old m d Hr Hd).
Qed.

Lemma t_restart :
  triple (λ _, True)
    (restart bk sha sha_text loads repr disk clock new_id error_text cmd) (λ _ _, True).
Proof.
  unfold restart. eapply t_bind; [apply t_load|]. intros []. apply t_get. intros s0 Hl. cbv zeta.
  apply t_then. intros c Hc%checkpoint_Ok. case_bool_decide; [by apply t_check|].
  case_bool_decide as He; [subst c; by apply t_resume_acceptance|].
  set (P := λ s, ct_run s = ct_run s0 ∧ ct_file s = ct_file s0).
  assert (∀ s s', ct_run s' = ct_run s → ct_file s' = ct_file s → P s → P s') as HP.
  { intros s s' H1 H2 [H3 H4]. split; congruence. }
  assert (∀ s, P s → filed s) as Hfiled.
  { intros s [_ Hf]. destruct Hl as (_ & _ & f & Hf0 & _). exists f. congruence. }
  apply (t_bind _ _ _ (λ w s, P s ∧ (c ≠ "CREATED" → restore_world cmd (ct_run s0) = Ok w))).
  { case_bool_decide as Hcr; [|by apply t_check; intros w s Hw ->]. unfold capture_world.
    apply (t_bind _ _ _ (λ _, P)); [apply t_ask; by intros s w a ->|]. intros old. apply t_then. intros _ _.
    apply t_get. intros s1 Hs1. apply t_then. intros _ _.
    eapply t_conseq; [apply (t_ret _ (λ w s, P s ∧ (c ≠ "CREATED" → restore_world cmd (ct_run s0) = Ok w)))| |done].
    intros s ->. by split. }
  intros w. apply (t_fact (c ≠ "CREATED" → restore_world cmd (ct_run s0) = Ok w)); [by intros s [_ ?]|].
  intros Hw. destruct w as [[old operations] resources].
  apply (t_bind _ _ _ (λ _, P)).
  { intros s Hb [HPs _]. split; [exact Hb|]. by eapply HP. }
  intros []. apply t_then. intros g (Hge & Hgp & Hgo & Hgm)%new_guard_Ok.
  apply t_then. intros proofs Hproofs.
  assert (c ≠ "CREATED" → ∀ s, P s → K (at_checkpoint c) g s) as HK.
  { intros Hne s [H1 H2]. eapply K_same; [exact H1|exact H2|].
    eapply (restored_K s0 c (old, operations, resources)); auto. }
  assert (∀ g', guard_ok g' → triple (λ s, guard_ok g' ∧ K (λ _, True) g' s)
    (continue_after_termination bk sha repr disk new_id cmd old g') (λ _ _, True)) as Hcont.
  { intros g' Hg'. eapply t_conseq; [by apply (t_continue (λ _, True))|by intros s [_ ?]|done]. }
  destruct (decide (c = "CREATED")) as [->|Hne].
  - destruct Hl as (Hok & Hiff & _). apply Hiff in Hc. rewrite (created_no_proofs _ Hok Hc) in Hproofs.
    injection Hproofs as <-. apply (t_bind _ _ _ (λ g' s, g' = g ∧ P s)).
    { eapply t_conseq; [apply (t_ret g (λ g' s, g' = g ∧ P s))|by split|done]. }
    intros g'. apply (t_fact (g' = g)); [by intros s [? _]|]. intros ->.
    eapply t_bind; [apply (t_terminate _ _ _ (λ s, g = g ∧ P s))|]; simpl; try done.
    + intros s [_ ?]. by apply Hfiled.
    + intros s s' ? ? [_ ?]. split; [done|]. by eapply HP.
    + intros g'. apply (t_fact (guard_ok g')); [by intros s [? _]|]. apply Hcont.
  - apply (t_bind _ _ _ (λ g' s, guard_ok g' ∧ K (at_checkpoint c) g' s)).
    { eapply t_conseq; [apply (t_record_all (at_checkpoint c)); auto|by apply HK|done]. }
    intros g1. apply (t_fact (guard_ok g1)); [by intros s [? _]|]. intros Hg1.
    eapply t_bind; [apply (t_terminate _ _ _ (λ s, guard_ok g1 ∧ K (at_checkpoint c) g1 s))|]; simpl; try done.
    + intros s [_ (_ & _ & _ & f & Hf & _)]. by exists f.
    + intros s s' ? ? [_ ?]. split; [done|]. by eapply K_same.
    + by intros _ s [_ ?].
    + intros g'. apply (t_fact (guard_ok g')); [by intros s [? _]|]. apply Hcont.
Qed.

(** The controllers of one command, one after the other: each starts with the
    file the last one left, in whatever state the cluster is. *)
Inductive controlled : Ctl W → Prop :=
| controlled_first s : ct_file s = None → ct_log s = [] → controlled s
| controlled_again s run w x s' :
    controlled s →
    restart bk sha sha_text loads repr disk clock new_id error_text cmd
      (mkCtl run (ct_file s) [] (ct_log s) w) = (x, s') →
    controlled s'.

(** C13: The controller acts only on what its file already says.  However many
    controllers run one after the other, and however each of them ends - a
    failed or half-finished write, a failed call, a watch that breaks - every
    call that was made found its justification in the run-state file of that
    moment: a worker is stopped when the captured processes are recorded; the
    generation is patched, a new worker started and its permit published only
    when the file holds for each of the four members the captured process and
    a sealed proof that this very process ended and its Pod is gone, and at
    the checkpoint of that step; evidence is sent to the gateway only when it
    is written, names the permitted Pods, and its four termination records
    are valid for the old generation. *)
Theorem calls_follow_the_file s :
  controlled s →
  Forall (λ af, ∃ f, af.2 = Some (JObj f) ∧ justified sha cmd af.1 f) (ct_log s).
Proof.
  intros Hs. cut (base s); [by intros [? _]|].
  induction Hs as [s Hf Hl|s run w x s' _ IH Hr].
  - split; [by rewrite Hl; constructor|]. intros f. by rewrite Hf.
  - pose proof (t_restart (mkCtl run (ct_file s) [] (ct_log s) w) IH I) as Hw.
    eapply wp_run in Hw; [|exact Hr]. apply Hw.
Qed.
End restarts.

(** ** A restart that dies and is resumed *)

Module RestartDemo.
Definition number (m : string) : Z :=
  if bool_decide (m = "p0") then 1 else if bool_decide (m = "p1") then 3
  else if bool_decide (m = "d0") then 5 else 7.
Definition identity (m : string) : Doc :=
  [("member", JStr m); ("pod_uid", JStr ("pod-" +:+ m)); ("node_uid", JStr "node");
   ("container_id", JStr ("cri-" +:+ m)); ("process_generation", JStr "1"); ("pod_name", JStr m);
   ("node_name", JStr "n"); ("resource_version", JStr "10"); ("topology_generation", JStr "gen1");
   ("container_name", JStr "worker"); ("restart_count", JInt 0)].
Definition proof (m : string) : Doc :=
  [("member", JStr m); ("pod_uid", JStr ("pod-" +:+ m)); ("node_uid", JStr "node");
   ("container_id", JStr ("cri-" +:+ m)); ("process_generation", JStr "1"); ("exit_code", JInt 0);
   ("container_terminated", JBool true); ("pod_deleted", JBool true); ("termination_reason", JStr "");
   ("termination_message", JStr ""); ("finished_at", JStr "t1"); ("topology_generation", JStr "gen1");
   ("container_name", JStr "worker"); ("watch_start_resource_version", JStr "10");
   ("observed_resource_version", JStr "11"); ("deletion_resource_version", JStr "12");
   ("restart_count_before", JInt 0); ("restart_count_observed", JInt 0);
   ("termination_source", JStr "state.terminated"); ("termination_event_type", JStr "MODIFIED");
   ("deletion_event_type", JStr "DELETED"); ("signal", JNull); ("started_at", JStr "t0");
   ("adjacent_current_container_id", JNull); ("termination_raw_pod_json_sha256", JStr toy_digest);
   ("termination_raw_observation_sequence", JInt (number m));
   ("deletion_raw_pod_json_sha256", JStr toy_digest);
   ("deletion_raw_observation_sequence", JInt (number m + 1))].
Definition fresh : Doc := (λ m, (m, JStr ("new-" +:+ m))) <$> MEMBERS.
Definition evidence (run_id : string) : Doc :=
  [("new_topology_generation", JStr "gen2"); ("restart_run_id", JStr run_id);
   ("identities", JList ((λ m, JObj [("instance_id", JStr m); ("pod_uid", JStr ("new-" +:+ m));
      ("process_generation", JStr "1"); ("topology_generation", JStr "gen2")]) <$> MEMBERS))].

(** A cluster that does as it is told; the number is that of the controller. *)
Definition backend : Backend nat :=
  mkBackend nat (λ _ w, (Ok ((λ m, (m, identity m)) <$> MEMBERS), w)) (λ _, {["op1"]}) (λ _, ∅) (λ _ _ w, w)
    (λ _ w, w) (λ _ w, (Ok tt, w)) (λ m _ w, ([], λ _, inl (mkObservation (proof m) None "" "" "" None), w))
    false (λ _ _ w, (Ok fresh, w)) (λ p _, p) (λ run _ w, (Ok (evidence run), w))
    (λ _ _, [("accepted", JBool true)]).
(** The first controller cannot write that the world has ended. *)
Definition disk (s : Ctl nat) : write_outcome :=
  if bool_decide (ct_world s = 1%nat) && py_eqb (jget "checkpoint" (ct_run s)) (JStr "TERMINATED")
  then write_failed else write_ok.
Definition command : Command := mkCommand "r" "ns" "chart" "gen1" "gen2" ["op1"] [].
Definition run (s : Ctl nat) : result exn Doc * Ctl nat :=
  restart backend toy_sha (λ _, "") (λ _, None) (λ _, "obj") disk (λ _, 0) (λ _, "run1") (λ _, "") command s.
Definition start : Ctl nat := mkCtl [] None [] [] 0%nat.
Definition first : result exn Doc * Ctl nat := run (mkCtl [] None [] [] 1%nat).
Definition second : result exn Doc * Ctl nat := run (mkCtl [] (ct_file first.2) [] (ct_log first.2) 2%nat).

Example died_and_resumed :
  first.1 = Raise OSError ∧ second.1 = Ok [("accepted", JBool true)]
  ∧ (λ af, af.1) <$> reverse (ct_log second.2) =
      (Watch <$> MEMBERS) ++ (Stop <$> MEMBERS) ++ (Stop <$> MEMBERS) ++ [Patch "gen2"] ++ (Start <$> MEMBERS)
      ++ drop 17 ((λ af, af.1) <$> reverse (ct_log second.2)).
Proof. split_and!; vm_compute; reflexivity. Qed.
End RestartDemo.

Lemma calls_follow_the_file_witness :
  Forall (λ af, ∃ f, af.2 = Some (JObj f) ∧ justified toy_sha RestartDemo.command af.1 f)
    (ct_log RestartDemo.second.2).
Proof.
  apply (calls_follow_the_file RestartDemo.backend toy_sha (λ _, "") (λ _, None) (λ _, "obj") RestartDemo.disk
    (λ _, 0) (λ _, "run1") (λ _, "") RestartDemo.command RestartDemo.second.2).
  apply (controlled_again _ _ _ _ _ _ _ _ _ _ RestartDemo.first.2 [] 2%nat RestartDemo.second.1); cycle 1.
  { apply surjective_pairing. }
  apply (controlled_again _ _ _ _ _ _ _ _ _ _ RestartDemo.start [] 1%nat RestartDemo.first.1); cycle 1.
  { apply surjective_pairing. }
  by apply controlled_first.
Defined.
